(* ===== verification/_CoqProject ===== *)
-Q . S2P
Prelude.v
BTreeMap.v
Bytes.v
ByteFile.v
Pr.v
Reservations.v
ReservationProofs.v
ReservationRender.v
ReservationManager.v
ManagerProofs.v
PageIndex.v
PageIndexIter.v
UploadIndex.v
BlockLru.v
DirtyPages.v
IndexCodec.v
TrackedFile.v
BlockIndex.v
ChunkIndex.v
IndexBackup.v
StreamLru.v
FastCdc.v
Library.v
LibraryProofs.v
LibraryHistory.v
Partitions.v
Changer.v
ChangerProofs.v
ElementStatus.v
PageLru.v
PoolBudget.v
StateError.v
Crypto.v
VolumeWriter.v
VolumeProofs.v
DiskCache.v
VolumeHistory.v
VolumeUploads.v
PageCache.v
PageCacheProofs.v
CacheBytes.v
CacheHistory.v
VolumeCache.v
CacheRaces.v
PageClone.v
SbcData.v
SbcProofs.v
SbcHistory.v
XCopy.v
XCopyProofs.v
XCopyPlan.v
XCopyHistory.v
Odx.v
OdxProofs.v
OdxHistory.v
Sessions.v
SbcPages.v
SbcDispatch.v
SbcPagesProofs.v
SbcFence.v
DaemonHistory.v
Cartridge.v
CartridgeOps.v
CartridgeOpen.v
CartridgeInv.v
Tape.v
CartridgeTape.v
CartridgeRead.v
CartridgeMotion.v
CartridgeForm.v
CartridgeStore.v
CartridgeReload.v
CartridgeHistory.v
CartridgeWorm.v
CartridgeDemo.v
CartridgeProps.v
