(* ===== verification/Prelude.v ===== *)
(** * Thur: verification of the storage and tape-library core

    Thur is a pair of storage daemons in Rust: Thur VSA serves block volumes,
    Thur VTL serves a virtual tape library.  Both keep their data in a
    content-addressed object store and their metadata in small files beside
    it.  This library is a shallow embedding of the parts that keep state:
    SCSI persistent reservations, the index files of volumes and cartridges,
    the backup of those indexes, the content-defined chunker, the tape
    library with its medium changer, and the block volume from its object
    store up to the SCSI commands: pool budget, volume writer and upload
    worker, cache eviction, page cache, data path, offloaded copies.

    ** Parts and files

    A file requires the files of the parts it calls.  Operations keep the
    names of the source; a name two parts share is told apart by its file.

    - Shared: [Prelude] (machine integers, the [result] type, automation),
      [BTreeMap] (ordered maps as association lists), [Bytes] (integers and
      slices as byte lists), [ByteFile] (files as byte lists with positioned
      reads, writes and [set_len], and the theory of files of fixed-size
      records after a header).
    - Persistent reservations, [scsi/spc/src/pr.rs] and [reservations.rs].
      [Pr]: types and service actions.  [Reservations]: one logical unit, the
      PERSISTENT RESERVE OUT handlers, the admission checks, the change
      notifications.  [ReservationProofs]: their invariants and fencing.
      [ReservationRender]: PERSISTENT RESERVE IN bodies.
      [ReservationManager]: the table of logical units, the lock-free flag,
      persist-before-acknowledge, loading, as a step relation in which the
      file write is split at its crash points.  [ManagerProofs].
    - Volume indexes, [core/block/src].  [PageIndex] and [PageIndexIter]
      ([page_index.rs]), [UploadIndex] ([upload_index.rs]), [BlockLru]
      ([lru_index.rs]).
    - Cartridge indexes, [core/stream/src].  [DirtyPages] ([dirty_pages.rs]),
      [IndexCodec] (records of [block_index.rs] and [chunk_index.rs],
      [compression_codec.rs]), [TrackedFile] (a record file with its tracker,
      common to both indexes), [BlockIndex], [ChunkIndex], [StreamLru]
      ([lru_index.rs]).
    - [IndexBackup] ([index_backup.rs]): the upload pass and the restore of
      one index file.  It is proved against the class [MarksWrites], what an
      index promises about marking what it writes; both indexes are
      instances.
    - [FastCdc] ([fastcdc.rs]): the gear-hash chunker, one-shot and
      streaming, against byte-by-byte references.
    - Tape library, [core/mediachanger/src/library].  [Library]
      ([inventory.rs], [mod.rs]): elements, the verbs, the inventory writer;
      a verb is a state-and-error computation.  [LibraryProofs],
      [LibraryHistory]: one verb, then interleavings of verbs and writes.
      [Partitions] ([partitions.rs], [validate_partitions]).
    - Medium changer, [scsi/smc/src].  [Changer] ([changer.rs],
      [dispatch/handlers.rs]): element addresses, MOVE and EXCHANGE MEDIUM;
      the drive manager is the class [DriveManager].  [ChangerProofs].
      [ElementStatus]: READ ELEMENT STATUS.
    - The volume under its cache.  [PoolBudget] ([shared/pool/src/budget.rs]):
      the bytes a pool may hold, as a step relation over reservations that
      wait.  [StateError]: computations with a state and an early error, with
      their weakest preconditions.  [VolumeWriter] ([core/block/src]
      [uploader.rs], [volume.rs], [shared/crypto], the pool and the upload
      worker): sealing, binding, reading and uploading pages; encryption and
      hashing are the class [VolumeCrypto].  [DiskCache] ([disk_cache.rs]):
      the eviction pass.  [VolumeProofs], [VolumeHistory], [VolumeUploads]:
      one operation, then histories of all of them.
    - The page cache, [core/block/src/cache.rs].  [PageLru]: the table with
      its intrusive recency list.  [PageCache]: reads, writes, UNMAP, COMPARE
      AND WRITE, eviction, flushing and fences over the class [PageStore],
      what a cache asks of the volume; [VolumeCache] discharges it with the
      volume writer.  [PageCacheProofs], [CacheBytes], [CacheHistory]: the
      cache as an array of bytes.  [CacheRaces]: flushes, evictions, loads
      and UNMAP split where they release the lock.  [PageClone]: copying
      pages by name or by bytes, within a volume or between two.
    - SCSI block commands, [scsi/sbc/src].  [SbcData] ([data_path.rs]): the
      handlers over a unit.  [SbcProofs], [SbcHistory]: one handler, then
      histories of commands and background activity.  [XCopy]: EXTENDED COPY
      over the registry of units.  [XCopyProofs], [XCopyPlan],
      [XCopyHistory].  [Odx] ([odx.rs], [data_path.rs]): the token table,
      POPULATE TOKEN, WRITE USING TOKEN, RECEIVE COPY RESULTS.  [OdxProofs],
      [OdxHistory].
    - The block target.  [Sessions] ([shared/iscsi/src]: [session.rs],
      [unit_attention.rs], [reservation_sink.rs]): session identifiers,
      command numbers, pending unit attentions.  [SbcPages] ([sizing.rs],
      [probes.rs], [maintenance.rs], [inquiry.rs], [mode_sense.rs], the
      builders of [scsi/spc/src], [alua.rs]): the commands that change
      nothing.  [SbcDispatch] ([dispatcher.rs], [reservations.rs]): the whole
      dispatcher over the parts above.  [SbcPagesProofs], [SbcFence] (what
      one command does to volumes, reservations and attentions),
      [DaemonHistory] (histories of commands, logins, logouts and background
      activity).

    ** What the theorems show

    - Reservations: a GOOD PREEMPT locks the preempted hosts out; who may
      write under each type; a failed action has no effect; notifications
      name every host that lost something; the lock-free check agrees with
      the locked one in every reachable configuration; a crash at any step
      recovers the table before or after a mutation, and GOOD means on disk.
    - Indexes: each file refines the map or list its operations describe,
      over any history and across reopening; the batched iterators yield
      exactly the records; sidecars and records round-trip.
    - Backup: after any history of mutations, restarts and failed PUTs, a
      pass over a synced index restores byte for byte.
    - Chunker: the skipping implementations cut where the references cut, for
      every input and every way of splitting it into blocks.
    - Library and changer: verbs move exactly the cartridges they name or
      change nothing; memory and [inventory.json] conserve the cartridges in
      every interleaving; the file never goes back; MOVE MEDIUM is atomic and
      stays inside the partition of its session; partition validation accepts
      exactly the tilings; addresses are a bijection; READ ELEMENT STATUS
      parses back to the elements.
    - Volumes: any history of writes, reads, UNMAPs, uploads, retries,
      evictions, resizes and restarts is a history of a map from pages to
      bytes; a clean drain means stored; uploads drain; the budget adds up
      and loses no wake-up.  With the cache on top, any history of host
      commands is a history of one array of bytes, and what SYNCHRONIZE CACHE
      acknowledged survives a restart.
    - SCSI blocks: no command changes a byte its gates do not allow; GOOD
      means done; a write reads back.  EXTENDED COPY copies exactly what its
      segments say, only between units its session and the reservations
      allow.  A token is a snapshot of its pages.
    - The target: whatever the opcode and the history, a byte changes only in
      a volume the session may see and its initiator may write; a preempted
      host stays out of the unit and is told so on its next command; session
      identifiers are unique and commands run in order, each once; REPORT
      LUNS, READ CAPACITY, the device identification and the mode parameters
      agree with what the data path does.
    - Theorems that show a defect or a limit of the code:
      [rekeyed_holder_escapes_preempt], [restored_truncate_breaks_backup],
      [torn_pass_breaks_sentinel], [unsynced_restart_loses_write],
      [feed_never_cuts_at_equal_bounds], [reload_undoes_concurrent_move],
      [drive_source_is_slot_id], [failed_write_leaves_move],
      [top_band_unreachable], [unmap_strands_upload],
      [closed_channel_loses_page], [seal_races_eviction],
      [tail_page_unflushable], [stale_flush_wins],
      [version_restart_loses_write], [unmap_undone_by_flight],
      [overlapping_copy_repeats], [token_for_any_session],
      [token_page_not_stored], [attention_misdelivered].

    ** Conventions and bounds

    A machine integer is a [Z]; its range is a hypothesis where it matters
    and wrapping is written out, with release-build arithmetic.  Bytes are
    [list Z].  A mutex-guarded section is one step.  Locks are not poisoned
    and memory is not exhausted.  Positioned writes are complete.  The
    iterators recurse on fuel computed from the file length, and the
    iterator theorems show it is enough; the readers of [ReservationRender]
    and [ElementStatus] take the number of bytes as fuel, one unit per page
    or descriptor of at least eight bytes.  Counters of versions and epochs
    are unbounded where 2^64 steps would be needed to wrap them.  The [hex]
    crate is a parameter with the laws its documentation states, and has a
    concrete instance.

    In the volume, [VolumeCrypto] is BLAKE3 and AES-GCM, with the laws that
    hashing tells payloads apart and that decryption undoes encryption under
    the same key, nonce and data, and a concrete instance; the failures of
    files, storage and channels come from a script in the state, so a theorem
    over all states is over all failures.  Reads of an index do not fail.  An
    operation is one step except where [CacheRaces] and [VolumeUploads] split
    it.  Volumes have at most 2^32 pages, as the manifest enforces.  Volumes
    of one backend and namespace share the objects in storage and each has
    its own local pool.  Two handles are the same cache when they are of one
    LUN.  The random generator of tokens is a function of the number of
    draws.  Fuel: the victim search takes the number of cached pages, the
    eviction and flush loops one more than there are pages to treat, the byte
    loops the number of bytes, WRITE SAME and the streaming copy the number
    of chunks and one, segment parsing the number of bytes, the token draw
    the number of tokens, the search for a session identifier the whole
    range, the mode pages the number of bytes; each loop does at least one unit of its measure a
    turn, and the theorems about results show the fuel is enough.

    ** Not modelled

    Sockets, TLS, HTTP, command lines, logging, metrics, audit rows and
    events: pure I/O.  Cryptography, compression and cloud clients:
    third-party code the sources call; the object store is a map whose PUTs
    may fail.  JSON text stands for the value it encodes.  Still to come, in
    this order: the cartridge (append, SPACE, LOCATE) over the block and
    chunk indexes; COMPARE AND WRITE locks; snapshots of volumes; the NVMe reservation adapter over the
    reservation manager and the NVMe PDU and queue-entry codecs; library
    reconcile; the audit hash chain, the rate limiters and the
    logical-block-protection CRC. *)

From stdpp Require Export prelude.
From Stdlib Require Export ZArith Lia.

#[export] Set Default Goal Selector "!".

Declare Scope thur_scope.
Delimit Scope thur_scope with thur.

(** ** Machine integers

    A Rust [uN] is a [Z] with its range stated where it matters; the
    wrapping and saturating operations the sources call are written out. *)

Local Open Scope Z_scope.

Definition u8_max : Z := 255.
Definition u16_max : Z := 65535.
Definition u32_max : Z := 4294967295.
Definition u64_max : Z := 18446744073709551615.

Definition in_u8 (z : Z) : Prop := 0 <= z <= u8_max.
Definition in_u16 (z : Z) : Prop := 0 <= z <= u16_max.
Definition in_u32 (z : Z) : Prop := 0 <= z <= u32_max.
Definition in_u64 (z : Z) : Prop := 0 <= z <= u64_max.

(** Casts with [as u16], [u32::wrapping_add], [u64::wrapping_add], [u64::wrapping_mul] and
    [u64::wrapping_shl(1)] as truncations modulo the width. *)
Definition wrap16 (z : Z) : Z := z mod (u16_max + 1).
Definition wrap32 (z : Z) : Z := z mod (u32_max + 1).
Definition wrap64 (z : Z) : Z := z mod (u64_max + 1).

(** [u64::saturating_add] and [u64::saturating_sub]. *)
Definition sat_add64 (a b : Z) : Z := Z.min u64_max (a + b).
Definition sat_sub (a b : Z) : Z := Z.max 0 (a - b).

(** [usize::div_ceil] for a positive divisor. *)
Definition div_ceil (a b : Z) : Z := (a + b - 1) / b.

Lemma wrap32_range z : in_u32 (wrap32 z).
Proof.
  unfold wrap32, in_u32. pose proof (Z.mod_pos_bound z (u32_max + 1) eq_refl). lia.
Qed.

Lemma wrap64_range z : in_u64 (wrap64 z).
Proof.
  unfold wrap64, in_u64. pose proof (Z.mod_pos_bound z (u64_max + 1) eq_refl). lia.
Qed.

Lemma wrap64_small z : in_u64 z -> wrap64 z = z.
Proof. unfold wrap64, in_u64, u64_max. intros. apply Z.mod_small. lia. Qed.

(** ** Errors as values

    The [Result<T, E>] of the sources. *)
Inductive result (T E : Type) : Type :=
  | Ok (t : T)
  | Err (e : E).
Arguments Ok {T E} t.
Arguments Err {T E} e.

Definition result_bind {T U E} (r : result T E) (k : T -> result U E) : result U E :=
  match r with
  | Ok t => k t
  | Err e => Err e
  end.

Notation "'try' x := r 'in' k" := (result_bind r (fun x => k))
  (at level 10, x pattern, k at level 200) : thur_scope.

Lemma result_bind_ok {T U E} (r : result T E) (k : T -> result U E) u :
  result_bind r k = Ok u <-> exists t, r = Ok t /\ k t = Ok u.
Proof. destruct r; simpl; naive_solver. Qed.

(** ** Record update

    [r <| f := v |>] is the record [r] with the field [f] set to [v].  A
    record type declares its expansion into fields as an [Eta] instance; the
    setter of a field abstracts the field in it. *)
Class Eta (R : Type) : Type := eta : R -> R.
Class Setter {R T : Type} (proj : R -> T) : Type := update : (T -> T) -> R -> R.
Arguments update {R T} proj {_} _ _ /.

Ltac derive_setter :=
  match goal with
  | |- @Setter ?R ?T ?proj =>
      let inst := constr:(_ : Eta R) in
      let e := eval hnf in inst in
      match (eval pattern proj in e) with
      | ?abs proj =>
          let s := eval cbv beta in (fun (g : T -> T) => abs (fun x => g (proj x))) in exact s
      end
  end.
#[export] Hint Extern 1 (Setter _) => derive_setter : typeclass_instances.

Notation "r '<|' f ':=' v '|>'" := (update f (fun _ => v) r)
  (at level 1, left associativity, f at level 1, format "r  '<|'  f  ':='  v  '|>'") : thur_scope.

(** ** Automation *)

Create HintDb thur.
Create Rewrite HintDb thur_rw.

(** Splits every [if] and [match] on a scrutinee in the goal or a
    hypothesis, keeping the equation. *)
Ltac case_all :=
  repeat match goal with
    | |- context [match ?x with _ => _ end] => destruct x eqn:?; simplify_eq/=
    | H : context [match ?x with _ => _ end] |- _ => destruct x eqn:?; simplify_eq/=
    end.

(** Turns the boolean tests of the code into the propositions they decide. *)
Ltac bool_to_prop :=
  repeat match goal with
    | H : _ && _ = true |- _ => apply andb_true_iff in H as [? ?]
    | H : _ || _ = false |- _ => apply orb_false_iff in H as [? ?]
    | H : negb _ = true |- _ => apply negb_true_iff in H
    | H : negb _ = false |- _ => apply negb_false_iff in H
    | H : (_ =? _) = true |- _ => apply Z.eqb_eq in H
    | H : (_ =? _) = false |- _ => apply Z.eqb_neq in H
    | H : (_ <? _) = true |- _ => apply Z.ltb_lt in H
    | H : (_ <? _) = false |- _ => apply Z.ltb_ge in H
    | H : (_ <=? _) = true |- _ => apply Z.leb_le in H
    | H : (_ <=? _) = false |- _ => apply Z.leb_gt in H
    | H : bool_decide _ = true |- _ => apply bool_decide_eq_true_1 in H
    | H : bool_decide _ = false |- _ => apply bool_decide_eq_false_1 in H
    end.
