(* ===== verification/BTreeMap.v ===== *)
(** * [std::collections::BTreeMap]

    The ordered map the sources use where iteration order is observable
    (registrations, the per-LUN table, the pin table): an association list
    kept strictly ascending in its keys, with [get], [insert], [remove] and
    in-order iteration.  [Ord] is the Rust trait; the instances are the
    derived orders of integers, byte strings, [Option] and pairs. *)

From S2P Require Import Prelude.
From Stdlib Require Import Sorting.Sorted.

Local Open Scope Z_scope.

(** ** The [Ord] trait and its derived instances *)

Class Ord (K : Type) : Type := cmp : K -> K -> comparison.

Class OrdLaws (K : Type) `{Ord K} : Prop := {
  cmp_eq : forall a b, cmp a b = Eq <-> a = b;
  cmp_antisym : forall a b, cmp b a = CompOpp (cmp a b);
  cmp_lt_trans : forall a b c, cmp a b = Lt -> cmp b c = Lt -> cmp a c = Lt;
}.

#[export] Instance ord_Z : Ord Z := Z.compare.

#[export] Instance ord_Z_laws : OrdLaws Z.
Proof.
  split; unfold cmp, ord_Z.
  - apply Z.compare_eq_iff.
  - intros a b. apply Z.compare_antisym.
  - intros a b c. rewrite !Z.compare_lt_iff. lia.
Qed.

(** Lexicographic order of [Vec<T>], [[T; N]] and (on bytes) [String]. *)
Fixpoint list_cmp {A} `{Ord A} (l1 l2 : list A) : comparison :=
  match l1, l2 with
  | [], [] => Eq
  | [], _ :: _ => Lt
  | _ :: _, [] => Gt
  | a :: l1, b :: l2 => match cmp a b with Eq => list_cmp l1 l2 | c => c end
  end.

#[export] Instance ord_list {A} `{Ord A} : Ord (list A) := list_cmp.

#[export] Instance ord_option {A} `{Ord A} : Ord (option A) := fun x y =>
  match x, y with
  | None, None => Eq
  | None, Some _ => Lt
  | Some _, None => Gt
  | Some a, Some b => cmp a b
  end.

#[export] Instance ord_pair {A B} `{Ord A, Ord B} : Ord (A * B) := fun x y =>
  match cmp x.1 y.1 with Eq => cmp x.2 y.2 | c => c end.

Lemma cmp_refl {K} `{OrdLaws K} a : cmp a a = Eq.
Proof. by apply cmp_eq. Qed.

Lemma cmp_gt_lt {K} `{OrdLaws K} a b : cmp a b = Gt <-> cmp b a = Lt.
Proof. rewrite (cmp_antisym a b). destruct (cmp a b); simpl; naive_solver. Qed.

#[export] Instance ord_list_laws {A} `{OrdLaws A} : OrdLaws (list A).
Proof.
  split.
  - intros a. induction a as [|x a IH]; intros [|y b]; simpl; try naive_solver.
    unfold cmp, ord_list in *. simpl. destruct (cmp x y) eqn:E.
    + apply cmp_eq in E as ->. rewrite IH. naive_solver.
    + split; [done|]. intros [=-> ->]. by rewrite cmp_refl in E.
    + split; [done|]. intros [=-> ->]. by rewrite cmp_refl in E.
  - intros a. induction a as [|x a IH]; intros [|y b]; try done.
    unfold cmp, ord_list in *. simpl. rewrite (cmp_antisym x y).
    destruct (cmp x y); simpl; auto.
  - intros a. induction a as [|x a IH]; intros [|y b] [|z c]; try done.
    unfold cmp, ord_list in *. simpl.
    destruct (cmp x y) eqn:E1; [apply cmp_eq in E1 as ->| |done].
    + destruct (cmp y z); try done. apply IH.
    + intros _. destruct (cmp y z) eqn:E2; [apply cmp_eq in E2 as <-| |done].
      * by rewrite E1.
      * by rewrite (cmp_lt_trans x y z).
Qed.

#[export] Instance ord_option_laws {A} `{OrdLaws A} : OrdLaws (option A).
Proof.
  split.
  - intros [a|] [b|]; unfold cmp, ord_option; rewrite ?cmp_eq; naive_solver.
  - intros [a|] [b|]; unfold cmp, ord_option; try done. apply cmp_antisym.
  - intros [a|] [b|] [c|]; unfold cmp, ord_option; try done. apply cmp_lt_trans.
Qed.

#[export] Instance ord_pair_laws {A B} `{OrdLaws A, OrdLaws B} : OrdLaws (A * B).
Proof.
  split.
  - intros [a b] [c d]; unfold cmp, ord_pair; simpl.
    destruct (cmp a c) eqn:E; [apply cmp_eq in E as ->; rewrite cmp_eq; naive_solver| |];
      (split; [done|]; intros [=-> ->]; by rewrite cmp_refl in E).
  - intros [a b] [c d]; unfold cmp, ord_pair; simpl.
    rewrite (cmp_antisym a c), (cmp_antisym b d). by destruct (cmp a c).
  - intros [a b] [c d] [e f]; unfold cmp, ord_pair; simpl.
    destruct (cmp a c) eqn:E1; [apply cmp_eq in E1 as ->| |done].
    + destruct (cmp c e); try done. apply cmp_lt_trans.
    + intros _. destruct (cmp c e) eqn:E2; [apply cmp_eq in E2 as <-| |done].
      * by rewrite E1.
      * by rewrite (cmp_lt_trans a c e).
Qed.

(** ** The map *)

Definition btree (K V : Type) : Type := list (K * V).

Section btree.
Context {K V : Type} `{OrdLaws K}.
Implicit Types (m : btree K V) (k : K) (v : V).

Fixpoint bt_get k m : option V :=
  match m with
  | [] => None
  | (k', v) :: m => match cmp k k' with Eq => Some v | _ => bt_get k m end
  end.

Fixpoint bt_insert k v m : btree K V :=
  match m with
  | [] => [(k, v)]
  | (k', v') :: m' =>
      match cmp k k' with
      | Lt => (k, v) :: m
      | Eq => (k, v) :: m'
      | Gt => (k', v') :: bt_insert k v m'
      end
  end.

Definition ord_eqb (a b : K) : bool :=
  match cmp a b with Eq => true | _ => false end.

(** [retain]: keeps the entries that satisfy the predicate, in order. *)
Fixpoint bt_retain (P : K -> V -> bool) m : btree K V :=
  match m with
  | [] => []
  | (k, v) :: m => if P k v then (k, v) :: bt_retain P m else bt_retain P m
  end.

Definition bt_remove k m : btree K V := bt_retain (fun k' _ => negb (ord_eqb k k')) m.

(** Strictly ascending keys: what the standard library maintains. *)
Definition key_lt (a b : K * V) : Prop := cmp a.1 b.1 = Lt.
Definition bt_wf m : Prop := StronglySorted key_lt m.

Lemma ord_eqb_eq a b : ord_eqb a b = true <-> a = b.
Proof. unfold ord_eqb. rewrite <- (cmp_eq a b). by destruct (cmp a b). Qed.

Lemma ord_eqb_neq a b : ord_eqb a b = false <-> a <> b.
Proof. rewrite <- (ord_eqb_eq a b). by destruct (ord_eqb a b). Qed.

Lemma ord_eqb_refl a : ord_eqb a a = true.
Proof. by apply ord_eqb_eq. Qed.

Lemma bt_get_cons k k' v m :
  bt_get k ((k', v) :: m) = if ord_eqb k k' then Some v else bt_get k m.
Proof. simpl. unfold ord_eqb. by destruct (cmp k k'). Qed.

Lemma bt_get_insert_eq k v m : bt_get k (bt_insert k v m) = Some v.
Proof.
  induction m as [|[k' v'] m IH]; simpl; [by rewrite cmp_refl|].
  destruct (cmp k k') eqn:E; simpl; rewrite ?cmp_refl, ?E; done.
Qed.

Lemma bt_get_insert_ne k k' v m : k <> k' -> bt_get k (bt_insert k' v m) = bt_get k m.
Proof.
  intros Hne. induction m as [|[k1 v1] m IH].
  - simpl. destruct (cmp k k') eqn:E; try done. by apply cmp_eq in E.
  - simpl bt_insert. apply ord_eqb_neq in Hne.
    destruct (cmp k' k1) eqn:E; rewrite !bt_get_cons, ?Hne.
    + apply cmp_eq in E as ->. by rewrite Hne.
    + done.
    + by rewrite IH.
Qed.

Lemma bt_get_retain_In P k v m : bt_get k (bt_retain P m) = Some v -> In (k, v) m /\ P k v = true.
Proof.
  induction m as [|[k1 v1] m IH]; simpl; [done|].
  destruct (P k1 v1) eqn:EP; [|naive_solver].
  rewrite bt_get_cons. destruct (ord_eqb k k1) eqn:E; [|naive_solver].
  apply ord_eqb_eq in E as ->. naive_solver.
Qed.

Lemma bt_get_remove_eq k m : bt_get k (bt_remove k m) = None.
Proof.
  destruct (bt_get k (bt_remove k m)) eqn:E; [|done].
  apply bt_get_retain_In in E as [_ E]. by rewrite ord_eqb_refl in E.
Qed.

Lemma bt_get_remove_ne k k' m : k <> k' -> bt_get k (bt_remove k' m) = bt_get k m.
Proof.
  intros Hne. unfold bt_remove. induction m as [|[k1 v1] m IH]; [done|].
  simpl bt_retain. destruct (ord_eqb k' k1) eqn:E; simpl negb; cbv iota;
    rewrite !bt_get_cons, IH; [|done].
  apply ord_eqb_eq in E as <-. apply ord_eqb_neq in Hne. by rewrite Hne.
Qed.

Lemma bt_get_In k v m : bt_get k m = Some v -> In (k, v) m.
Proof.
  induction m as [|[k1 v1] m IH]; [done|]. rewrite bt_get_cons.
  destruct (ord_eqb k k1) eqn:E; [apply ord_eqb_eq in E as ->|]; naive_solver.
Qed.

Lemma bt_In_get k v m : bt_wf m -> In (k, v) m -> bt_get k m = Some v.
Proof.
  induction 1 as [|[k1 v1] m Hs IH Hall]; [done|]. rewrite bt_get_cons.
  intros [[=-> ->]|Hin]; [by rewrite ord_eqb_refl|].
  rewrite (proj2 (ord_eqb_neq k k1)); [by apply IH|].
  intros ->. rewrite List.Forall_forall in Hall. apply Hall in Hin.
  unfold key_lt in Hin. simpl in Hin. by rewrite cmp_refl in Hin.
Qed.

Lemma bt_get_retain P k m :
  bt_wf m -> bt_get k (bt_retain P m) =
    match bt_get k m with Some v => if P k v then Some v else None | None => None end.
Proof.
  induction 1 as [|[k1 v1] m Hs IH Hall]; [done|]. simpl bt_retain.
  rewrite bt_get_cons. destruct (ord_eqb k k1) eqn:E.
  - apply ord_eqb_eq in E as ->. destruct (P k1 v1) eqn:EP.
    + by rewrite bt_get_cons, ord_eqb_refl.
    + rewrite IH. destruct (bt_get k1 m) as [v|] eqn:Eg; [|done].
      apply bt_get_In in Eg. rewrite List.Forall_forall in Hall. apply Hall in Eg.
      unfold key_lt in Eg. simpl in Eg. by rewrite cmp_refl in Eg.
  - destruct (P k1 v1); [rewrite bt_get_cons, E|]; apply IH.
Qed.

Lemma bt_insert_Forall (P : K * V -> Prop) k v m :
  P (k, v) -> Forall P m -> Forall P (bt_insert k v m).
Proof.
  intros Hk. induction 1 as [|[k1 v1] m]; simpl; [by repeat constructor|].
  destruct (cmp k k1); repeat constructor; done.
Qed.

Lemma bt_retain_Forall (Q : K * V -> Prop) P m : Forall Q m -> Forall Q (bt_retain P m).
Proof. induction 1 as [|[k1 v1] m]; simpl; [done|]. destruct (P k1 v1); auto. Qed.

Lemma bt_wf_nil : bt_wf [].
Proof. constructor. Qed.

Lemma bt_wf_insert k v m : bt_wf m -> bt_wf (bt_insert k v m).
Proof.
  induction 1 as [|[k1 v1] m Hs IH Hall]; simpl; [repeat constructor|].
  destruct (cmp k k1) eqn:E.
  - apply cmp_eq in E as ->. by constructor.
  - constructor; [by constructor|]. constructor; [done|].
    eapply Forall_impl; [exact Hall|]. intros [k2 v2]. unfold key_lt. simpl.
    by apply cmp_lt_trans.
  - constructor; [done|]. apply bt_insert_Forall; [|done]. by apply cmp_gt_lt.
Qed.

Lemma bt_wf_retain P m : bt_wf m -> bt_wf (bt_retain P m).
Proof.
  induction 1 as [|[k1 v1] m Hs IH Hall]; simpl; [constructor|].
  destruct (P k1 v1); [|done]. constructor; [done|]. by apply bt_retain_Forall.
Qed.

Lemma bt_wf_remove k m : bt_wf m -> bt_wf (bt_remove k m).
Proof. apply bt_wf_retain. Qed.

(** Two well-formed maps with the same lookups are the same map. *)
Lemma bt_ext m1 m2 :
  bt_wf m1 -> bt_wf m2 -> (forall k, bt_get k m1 = bt_get k m2) -> m1 = m2.
Proof.
  intros H1. revert m2. induction H1 as [|[k1 v1] m1 Hs1 IH Hall1]; intros m2 H2 Hext.
  - destruct m2 as [|[k v] m2]; [done|]. specialize (Hext k).
    by rewrite bt_get_cons, ord_eqb_refl in Hext.
  - destruct H2 as [|[k2 v2] m2 Hs2 Hall2].
    { specialize (Hext k1). by rewrite bt_get_cons, ord_eqb_refl in Hext. }
    rewrite List.Forall_forall in Hall1, Hall2.
    assert (Hk : k1 = k2).
    { pose proof (Hext k1) as E1. pose proof (Hext k2) as E2.
      rewrite bt_get_cons, ord_eqb_refl, bt_get_cons in E1 by done.
      rewrite (bt_get_cons k2 k2), ord_eqb_refl, bt_get_cons in E2 by done.
      destruct (ord_eqb k1 k2) eqn:E; [by apply ord_eqb_eq|].
      destruct (ord_eqb k2 k1) eqn:E'; [by apply ord_eqb_eq in E'|].
      symmetry in E1. apply bt_get_In in E1. apply bt_get_In in E2.
      apply Hall2 in E1. apply Hall1 in E2. unfold key_lt in *. simpl in *.
      pose proof (cmp_lt_trans _ _ _ E1 E2) as E3. by rewrite cmp_refl in E3. }
    subst k2. pose proof (Hext k1) as E1.
    rewrite !bt_get_cons, ord_eqb_refl in E1 by done. simplify_eq.
    f_equal. apply IH; [done|]. intros k. specialize (Hext k).
    rewrite !bt_get_cons in Hext. destruct (ord_eqb k k1) eqn:E; [|done].
    apply ord_eqb_eq in E as ->.
    destruct (bt_get k1 m1) eqn:G1; [apply bt_get_In, Hall1 in G1|
      destruct (bt_get k1 m2) eqn:G2; [apply bt_get_In, Hall2 in G2|done]];
      unfold key_lt in *; simpl in *; by rewrite cmp_refl in *.
Qed.

Lemma bt_wf_tail_fresh k v m : bt_wf ((k, v) :: m) -> bt_wf m /\ bt_get k m = None.
Proof.
  inversion_clear 1 as [|? ? Hs Hall]. split; [done|].
  destruct (bt_get k m) as [v'|] eqn:E; [|done].
  apply bt_get_In in E. rewrite List.Forall_forall in Hall. apply Hall in E.
  unfold key_lt in E. simpl in E. by rewrite cmp_refl in E.
Qed.

(** [collect()]: later pairs replace earlier ones with the same key. *)
Definition bt_extend m (l : list (K * V)) : btree K V :=
  fold_left (fun m e => bt_insert e.1 e.2 m) l m.

Lemma bt_wf_extend m l : bt_wf m -> bt_wf (bt_extend m l).
Proof.
  unfold bt_extend. revert m. induction l as [|e l IH]; intros m Hm; simpl; [done|].
  by apply IH, bt_wf_insert.
Qed.

Lemma bt_get_extend k m l :
  bt_wf l -> bt_get k (bt_extend m l) =
    match bt_get k l with Some v => Some v | None => bt_get k m end.
Proof.
  unfold bt_extend. revert m. induction l as [|[k1 v1] l IH]; intros m Hl; [done|].
  apply bt_wf_tail_fresh in Hl as [Hl Hf]. simpl fold_left. rewrite IH, bt_get_cons by done.
  destruct (ord_eqb k k1) eqn:E.
  - apply ord_eqb_eq in E as ->. by rewrite Hf, bt_get_insert_eq.
  - apply ord_eqb_neq in E. by rewrite bt_get_insert_ne.
Qed.

(** Collecting a map's own entries rebuilds it. *)
Lemma bt_extend_self m : bt_wf m -> bt_extend [] m = m.
Proof.
  intros Hm. apply bt_ext; [apply bt_wf_extend, bt_wf_nil|done|].
  intros k. rewrite bt_get_extend by done. by destruct (bt_get k m).
Qed.

Lemma bt_insert_get k v m : bt_wf m -> bt_get k m = Some v -> bt_insert k v m = m.
Proof.
  intros Hm Hg. apply bt_ext; [by apply bt_wf_insert|done|]. intros k'.
  destruct (ord_eqb k' k) eqn:E.
  - apply ord_eqb_eq in E as ->. by rewrite bt_get_insert_eq.
  - apply ord_eqb_neq in E. by rewrite bt_get_insert_ne.
Qed.

Lemma bt_insert_insert k v v' m : bt_wf m -> bt_insert k v (bt_insert k v' m) = bt_insert k v m.
Proof.
  intros Hm. apply bt_ext; auto using bt_wf_insert. intros k'.
  destruct (ord_eqb k' k) eqn:E.
  - apply ord_eqb_eq in E as ->. by rewrite !bt_get_insert_eq.
  - apply ord_eqb_neq in E. by rewrite !bt_get_insert_ne.
Qed.

Lemma bt_remove_insert k v m :
  bt_wf m -> bt_get k m = None -> bt_remove k (bt_insert k v m) = m.
Proof.
  intros Hm Hg. apply bt_ext; auto using bt_wf_remove, bt_wf_insert. intros k'.
  destruct (ord_eqb k' k) eqn:E.
  - apply ord_eqb_eq in E as ->. by rewrite bt_get_remove_eq.
  - apply ord_eqb_neq in E. by rewrite bt_get_remove_ne, bt_get_insert_ne.
Qed.

End btree.

Arguments bt_wf : simpl never.
Arguments bt_remove : simpl never.
Arguments ord_eqb : simpl never.

#[export] Hint Extern 0 (OrdLaws _) => apply _ : thur.
#[export] Hint Resolve bt_wf_nil bt_wf_insert bt_wf_retain bt_wf_remove : thur.

(** Lookups through the map operations, by case on the keys. *)
Ltac bt_simpl :=
  repeat match goal with
    | H : context [bt_get ?k (bt_insert ?k _ _)] |- _ => rewrite bt_get_insert_eq in H
    | |- context [bt_get ?k (bt_insert ?k _ _)] => rewrite bt_get_insert_eq
    | H : context [bt_get ?k (bt_remove ?k _)] |- _ => rewrite bt_get_remove_eq in H
    | |- context [bt_get ?k (bt_remove ?k _)] => rewrite bt_get_remove_eq
    | Hn : ?k <> ?k', H : context [bt_get ?k (bt_insert ?k' _ _)] |- _ =>
        rewrite (bt_get_insert_ne k k') in H by exact Hn
    | Hn : ?k <> ?k' |- context [bt_get ?k (bt_insert ?k' _ _)] =>
        rewrite (bt_get_insert_ne k k') by exact Hn
    | Hn : ?k <> ?k', H : context [bt_get ?k (bt_remove ?k' _)] |- _ =>
        rewrite (bt_get_remove_ne k k') in H by exact Hn
    | Hn : ?k <> ?k' |- context [bt_get ?k (bt_remove ?k' _)] =>
        rewrite (bt_get_remove_ne k k') by exact Hn
    end.
