(* ===== verification/Bytes.v ===== *)
(** * Byte-level encodings

    Byte strings are [list Z] with every element a [u8].  [le_bytes] and
    [be_bytes] are the [to_le_bytes] / [to_be_bytes] of the unsigned integer
    types, [le_val] and [be_val] their [from_*_bytes] inverses. *)

From S2P Require Import Prelude.

Local Open Scope Z_scope.

Definition byte_ok (b : Z) : Prop := 0 <= b < 256.
Definition bytes_ok (l : list Z) : Prop := Forall byte_ok l.

#[export] Instance byte_ok_dec b : Decision (byte_ok b).
Proof. unfold byte_ok. apply _. Defined.

Fixpoint le_bytes (n : nat) (z : Z) : list Z :=
  match n with
  | O => []
  | S n => z mod 256 :: le_bytes n (z / 256)
  end.

Fixpoint le_val (l : list Z) : Z :=
  match l with
  | [] => 0
  | b :: l => b + 256 * le_val l
  end.

Definition be_bytes (n : nat) (z : Z) : list Z := reverse (le_bytes n z).
Definition be_val (l : list Z) : Z := le_val (reverse l).

Definition u16_be := be_bytes 2.
Definition u32_be := be_bytes 4.
Definition u64_be := be_bytes 8.
Definition u32_le := le_bytes 4.
Definition u64_le := le_bytes 8.

Lemma length_le_bytes n z : length (le_bytes n z) = n.
Proof. revert z. induction n as [|n IH]; intros z; simpl; auto. Qed.

Lemma length_be_bytes n z : length (be_bytes n z) = n.
Proof. unfold be_bytes. by rewrite length_reverse, length_le_bytes. Qed.

Lemma le_bytes_ok n z : bytes_ok (le_bytes n z).
Proof.
  revert z. induction n as [|n IH]; intros z; simpl; constructor; [|apply IH].
  unfold byte_ok. pose proof (Z.mod_pos_bound z 256 eq_refl). lia.
Qed.

Lemma be_bytes_ok n z : bytes_ok (be_bytes n z).
Proof. unfold be_bytes, bytes_ok. apply Forall_reverse, le_bytes_ok. Qed.

Lemma le_val_bytes n z : 0 <= z < 256 ^ Z.of_nat n -> le_val (le_bytes n z) = z.
Proof.
  revert z. induction n as [|n IH]; intros z Hz; cbn [le_bytes le_val].
  - rewrite Z.pow_0_r in Hz. lia.
  - rewrite IH.
    + pose proof (Z.div_mod z 256 ltac:(lia)). lia.
    + rewrite Nat2Z.inj_succ, Z.pow_succ_r in Hz by lia.
      split; [apply Z.div_pos; lia|]. apply Z.div_lt_upper_bound; lia.
Qed.

Lemma be_val_bytes n z : 0 <= z < 256 ^ Z.of_nat n -> be_val (be_bytes n z) = z.
Proof. unfold be_val, be_bytes. rewrite reverse_involutive. apply le_val_bytes. Qed.

Lemma le_val_range l : bytes_ok l -> 0 <= le_val l < 256 ^ Z.of_nat (length l).
Proof.
  induction 1 as [|b l Hb Hl IH]; cbn [le_val length]; [lia|].
  rewrite Nat2Z.inj_succ, Z.pow_succ_r by lia. unfold byte_ok in Hb. lia.
Qed.

Lemma le_bytes_val l : bytes_ok l -> le_bytes (length l) (le_val l) = l.
Proof.
  induction 1 as [|b l Hb Hl IH]; cbn [le_val le_bytes length]; [done|].
  unfold byte_ok in Hb.
  replace ((b + 256 * le_val l) mod 256) with b
    by (rewrite Z.mul_comm, Z.mod_add, Z.mod_small; lia).
  replace ((b + 256 * le_val l) / 256) with (le_val l)
    by (rewrite Z.add_comm, Z.mul_comm, Z.div_add_l, Z.div_small; lia).
  by rewrite IH.
Qed.

Lemma be_val_range l : bytes_ok l -> 0 <= be_val l < 256 ^ Z.of_nat (length l).
Proof.
  intros H. unfold be_val. rewrite <- length_reverse.
  apply le_val_range, Forall_reverse, H.
Qed.

Lemma be_bytes_val l : bytes_ok l -> be_bytes (length l) (be_val l) = l.
Proof.
  intros H. unfold be_bytes, be_val. rewrite <- length_reverse.
  rewrite le_bytes_val by by apply Forall_reverse. apply reverse_involutive.
Qed.

Lemma u64_be_val k : in_u64 k -> be_val (u64_be k) = k.
Proof. intros H. apply be_val_bytes. unfold in_u64, u64_max in H. simpl. lia. Qed.

Lemma u32_be_val k : in_u32 k -> be_val (u32_be k) = k.
Proof. intros H. apply be_val_bytes. unfold in_u32, u32_max in H. simpl. lia. Qed.

Lemma u16_be_val k : in_u16 k -> be_val (u16_be k) = k.
Proof. intros H. apply be_val_bytes. unfold in_u16, u16_max in H. simpl. lia. Qed.

Lemma u64_le_val k : in_u64 k -> le_val (u64_le k) = k.
Proof. intros H. apply le_val_bytes. unfold in_u64, u64_max in H. simpl. lia. Qed.

Lemma u32_le_val k : in_u32 k -> le_val (u32_le k) = k.
Proof. intros H. apply le_val_bytes. unfold in_u32, u32_max in H. simpl. lia. Qed.

Lemma length_u16_be k : length (u16_be k) = 2%nat.
Proof. apply length_be_bytes. Qed.
Lemma length_u32_be k : length (u32_be k) = 4%nat.
Proof. apply length_be_bytes. Qed.
Lemma length_u64_be k : length (u64_be k) = 8%nat.
Proof. apply length_be_bytes. Qed.
Lemma length_u32_le k : length (u32_le k) = 4%nat.
Proof. apply length_le_bytes. Qed.
Lemma length_u64_le k : length (u64_le k) = 8%nat.
Proof. apply length_le_bytes. Qed.

#[export] Hint Resolve le_bytes_ok be_bytes_ok : thur.
#[export] Hint Rewrite length_le_bytes length_be_bytes length_u16_be length_u32_be
  length_u64_be length_u32_le length_u64_le @length_app @length_replicate : thur_rw.

(** ** Slices

    [sl off n l] is [l[off..off+n]]; Rust panics past the end, so every use
    is under a length fact. *)
Definition sl (off n : nat) (l : list Z) : list Z := take n (drop off l).

Lemma length_sl off n l : (off + n <= length l)%nat -> length (sl off n l) = n.
Proof. intros. unfold sl. rewrite length_take, length_drop. lia. Qed.

Lemma sl_app_l off n l1 l2 :
  (off + n <= length l1)%nat -> sl off n (l1 ++ l2) = sl off n l1.
Proof.
  intros. unfold sl. rewrite drop_app_le by lia. rewrite take_app_le; [done|].
  rewrite length_drop. lia.
Qed.

Lemma sl_app_r off n l1 l2 :
  (length l1 <= off)%nat -> sl off n (l1 ++ l2) = sl (off - length l1) n l2.
Proof. intros. unfold sl. by rewrite drop_app_ge by lia. Qed.

Lemma sl_all l : sl 0 (length l) l = l.
Proof. unfold sl. rewrite drop_0. apply take_ge. lia. Qed.

Lemma sl_bytes_ok off n l : bytes_ok l -> bytes_ok (sl off n l).
Proof. intros. by apply Forall_take, Forall_drop. Qed.

Lemma sl_head n l1 l2 : length l1 = n -> sl 0 n (l1 ++ l2) = l1.
Proof. intros <-. rewrite sl_app_l by lia. apply sl_all. Qed.

Lemma sl_skip k off n l1 l2 :
  length l1 = k -> (k <= off)%nat -> sl off n (l1 ++ l2) = sl (off - k) n l2.
Proof. intros <- ?. by apply sl_app_r. Qed.

#[global] Opaque u16_be u32_be u64_be u32_le u64_le.
Arguments sl : simpl never.
Arguments le_val : simpl never.
Arguments be_val : simpl never.

(** Walks a slice down a concatenation of fields of known length. *)
Ltac sl_walk :=
  repeat first
    [ rewrite sl_head by (autorewrite with thur_rw; simpl; lia)
    | erewrite sl_skip; [|autorewrite with thur_rw; simpl; reflexivity|simpl; lia]; cbn [Nat.sub] ].
