(* ===== verification/ByteFile.v ===== *)
(** * Files with positioned I/O ([std::os::unix::fs::FileExt])

    A regular file is its bytes.  [read_at] returns what is there (short at
    end of file), [write_at] writes in full and fills a gap past end of file
    with zeroes, [set_len] truncates or extends with zeroes.  On top of it,
    the positional record file the index components share: a header of
    [hdr] bytes, then fixed-size records of [rsz] bytes, a missing record
    reading as zeroes. *)

From S2P Require Import Prelude Bytes.

Local Open Scope nat_scope.

Definition zeros (n : nat) : list Z := replicate n 0%Z.

Definition read_at (f : list Z) (off n : nat) : list Z := sl off n f.

Definition read_exact_at (f : list Z) (off n : nat) : option (list Z) :=
  let r := read_at f off n in if bool_decide (length r < n) then None else Some r.

Definition write_at (f : list Z) (off : nat) (bs : list Z) : list Z :=
  match bs with
  | [] => f
  | _ => take off (f ++ zeros (off - length f)) ++ bs ++ drop (off + length bs) f
  end.

Definition set_len (f : list Z) (n : nat) : list Z := take n f ++ zeros (n - length f).

Arguments zeros : simpl never.

Lemma length_zeros n : length (zeros n) = n.
Proof. apply length_replicate. Qed.
#[export] Hint Rewrite length_zeros : thur_rw.

Lemma zeros_ok n : bytes_ok (zeros n).
Proof. apply Forall_replicate. unfold byte_ok. lia. Qed.

Lemma zeros_add a b : zeros (a + b) = zeros a ++ zeros b.
Proof. apply replicate_add. Qed.

Lemma sl_zeros o n k : o + n <= k -> sl o n (zeros k) = zeros n.
Proof.
  intros. unfold sl, zeros. rewrite drop_replicate, take_replicate. f_equal. lia.
Qed.

Lemma sl_take o n k l : o + n <= k -> sl o n (take k l) = sl o n l.
Proof. intros. unfold sl. by rewrite skipn_firstn_comm, take_take, Nat.min_l by lia. Qed.

Lemma write_at_nonnil f off bs :
  bs <> [] ->
  write_at f off bs = take off (f ++ zeros (off - length f)) ++ bs ++ drop (off + length bs) f.
Proof. by destruct bs. Qed.

Lemma length_write_prefix f off : length (take off (f ++ zeros (off - length f))) = off.
Proof. rewrite length_take, length_app, length_zeros. lia. Qed.

Lemma length_write_at f off bs :
  bs <> [] -> length (write_at f off bs) = length f `max` (off + length bs).
Proof.
  intros. rewrite write_at_nonnil, !length_app, length_write_prefix, length_drop by done. lia.
Qed.

Lemma write_at_ok f off bs : bytes_ok f -> bytes_ok bs -> bytes_ok (write_at f off bs).
Proof.
  intros Hf Hb. destruct bs as [|b bs]; [done|]. unfold write_at.
  repeat apply Forall_app_2; [apply Forall_take, Forall_app_2; [done|apply zeros_ok]|done|].
  by apply Forall_drop.
Qed.

Lemma sl_write_same f off bs : sl off (length bs) (write_at f off bs) = bs.
Proof.
  destruct bs as [|b bs]; [apply take_0|]. rewrite write_at_nonnil by done.
  rewrite sl_app_r by (by rewrite length_write_prefix). rewrite length_write_prefix, Nat.sub_diag.
  by apply sl_head.
Qed.

Lemma sl_write_before f off bs o n :
  o + n <= off -> o + n <= length f -> sl o n (write_at f off bs) = sl o n f.
Proof.
  intros. destruct bs as [|b bs]; [done|]. rewrite write_at_nonnil by done.
  rewrite sl_app_l by (rewrite length_write_prefix; lia).
  rewrite sl_take by lia. by apply sl_app_l.
Qed.

(** Reading a gap the write filled. *)
Lemma sl_write_gap f off bs o n :
  bs <> [] -> o + n <= off -> length f <= o -> sl o n (write_at f off bs) = zeros n.
Proof.
  intros. rewrite write_at_nonnil by done.
  rewrite sl_app_l by (rewrite length_write_prefix; lia).
  rewrite sl_take, sl_app_r by lia. apply sl_zeros. lia.
Qed.

Lemma sl_write_after f off bs o n :
  off + length bs <= o -> sl o n (write_at f off bs) = sl o n f.
Proof.
  intros. destruct bs as [|b bs]; [done|]. rewrite write_at_nonnil by done.
  rewrite sl_app_r, length_write_prefix by (rewrite length_write_prefix; simpl in *; lia).
  rewrite sl_app_r by (simpl in *; lia). unfold sl. rewrite drop_drop. do 2 f_equal.
  simpl in *. lia.
Qed.

Lemma length_set_len f n : length (set_len f n) = n.
Proof. unfold set_len. rewrite length_app, length_take, length_zeros. lia. Qed.

Lemma sl_set_len f n o k :
  o + k <= n -> o + k <= length f -> sl o k (set_len f n) = sl o k f.
Proof.
  intros. unfold set_len. rewrite sl_app_l by (rewrite length_take; lia).
  by apply sl_take.
Qed.

Lemma sl_set_len_gap f n o k :
  o + k <= n -> length f <= o -> sl o k (set_len f n) = zeros k.
Proof.
  intros. unfold set_len. rewrite sl_app_r by (rewrite length_take; lia).
  apply sl_zeros. rewrite length_take. lia.
Qed.

Lemma sl_short f o n : length f <= o -> sl o n f = [].
Proof. intros. unfold sl. rewrite drop_ge by lia. apply take_nil. Qed.

(** ** Record files *)

Section record_file.
Context (hdr rsz : nat) (rsz_pos : 0 < rsz).

Definition rec_off (i : nat) : nat := hdr + i * rsz.

(** The record at slot [i], zeroes where the file has no full record. *)
Definition rec (f : list Z) (i : nat) : list Z :=
  let r := read_at f (rec_off i) rsz in
  if bool_decide (length r < rsz) then zeros rsz else r.

(** A header and a whole number of records. *)
Definition rf_wf (f : list Z) : Prop := exists n, length f = rec_off n.

Definition rec_count (f : list Z) : nat := (length f - hdr) / rsz.

Lemma rec_in f i : rec_off i + rsz <= length f -> rec f i = sl (rec_off i) rsz f.
Proof.
  intros. unfold rec, read_at. rewrite bool_decide_eq_false_2; [done|]. rewrite length_sl; lia.
Qed.

Lemma rec_out f i : length f <= rec_off i -> rec f i = zeros rsz.
Proof.
  intros. unfold rec, read_at. rewrite sl_short by done. by rewrite bool_decide_eq_true_2.
Qed.

Lemma length_rec f i : length (rec f i) = rsz.
Proof.
  unfold rec, read_at. case_bool_decide; [apply length_zeros|].
  unfold sl in *. rewrite length_take in *. lia.
Qed.

Lemma rf_cases f i : rf_wf f -> rec_off i + rsz <= length f \/ length f <= rec_off i.
Proof. intros [n ->]. unfold rec_off. destruct (le_lt_dec n i); [right|left]; nia. Qed.

Lemma rec_count_eq f n : length f = rec_off n -> rec_count f = n.
Proof.
  intros E. unfold rec_count. rewrite E. unfold rec_off.
  replace (hdr + n * rsz - hdr) with (n * rsz) by lia. apply Nat.div_mul. lia.
Qed.

Lemma rec_count_wf f : rf_wf f -> length f = rec_off (rec_count f).
Proof. intros [n E]. by rewrite (rec_count_eq f n). Qed.

Lemma rec_past_end f i : rf_wf f -> rec_count f <= i -> rec f i = zeros rsz.
Proof.
  intros Hf Hi. apply rec_out. rewrite (rec_count_wf f Hf). unfold rec_off. nia.
Qed.

Lemma write_rec_nonnil (r : list Z) : length r = rsz -> r <> [].
Proof. intros E ->. simpl in E. lia. Qed.

Lemma rec_write_same f i r : length r = rsz -> rec (write_at f (rec_off i) r) i = r.
Proof.
  intros E. rewrite rec_in.
  - rewrite <- E. apply sl_write_same.
  - rewrite length_write_at by (by apply write_rec_nonnil). lia.
Qed.

Lemma rec_write_other f i j r :
  rf_wf f -> length r = rsz -> j <> i -> rec (write_at f (rec_off i) r) j = rec f j.
Proof.
  intros Hf E Hne. pose proof (write_rec_nonnil r E) as Hr.
  assert (Hlen := length_write_at f (rec_off i) r Hr).
  destruct (rf_cases f j Hf) as [Hin|Hout].
  - rewrite !rec_in by lia. destruct (le_lt_dec j i).
    + apply sl_write_before; [unfold rec_off; nia|lia].
    + apply sl_write_after. unfold rec_off. nia.
  - rewrite (rec_out f j) by done. destruct (le_lt_dec j i).
    + rewrite rec_in by (unfold rec_off in *; nia).
      apply sl_write_gap; [done|unfold rec_off; nia|done].
    + apply rec_out. unfold rec_off in *. nia.
Qed.

Lemma rf_wf_write f i r : rf_wf f -> length r = rsz -> rf_wf (write_at f (rec_off i) r).
Proof.
  intros [n E] Hr. exists (n `max` S i). rewrite length_write_at by (by apply write_rec_nonnil).
  rewrite E, Hr. unfold rec_off. destruct (le_lt_dec n (S i)); nia.
Qed.

Lemma rec_count_write f i r :
  rf_wf f -> length r = rsz -> rec_count (write_at f (rec_off i) r) = rec_count f `max` S i.
Proof.
  intros Hf Hr. apply rec_count_eq. rewrite length_write_at by (by apply write_rec_nonnil).
  rewrite (rec_count_wf f Hf), Hr. unfold rec_off.
  destruct (le_lt_dec (rec_count f) (S i)); nia.
Qed.

Lemma sl_header_write f i r o n :
  rf_wf f -> o + n <= hdr -> sl o n (write_at f (rec_off i) r) = sl o n f.
Proof.
  intros [k E] H. apply sl_write_before; [unfold rec_off; lia|]. rewrite E. unfold rec_off. lia.
Qed.

Lemma rec_set_len f n j :
  rf_wf f -> rec (set_len f (rec_off n)) j = if bool_decide (j < n) then rec f j else zeros rsz.
Proof.
  intros Hf. case_bool_decide.
  - rewrite rec_in by (rewrite length_set_len; unfold rec_off; nia).
    destruct (rf_cases f j Hf) as [Hin|Hout].
    + rewrite rec_in by done. apply sl_set_len; [unfold rec_off; nia|lia].
    + rewrite rec_out by done. apply sl_set_len_gap; [unfold rec_off; nia|done].
  - apply rec_out. rewrite length_set_len. unfold rec_off. nia.
Qed.

Lemma rf_wf_set_len f n : rf_wf (set_len f (rec_off n)).
Proof. exists n. apply length_set_len. Qed.

Lemma sl_header_set_len f m o n :
  rf_wf f -> o + n <= hdr -> sl o n (set_len f (rec_off m)) = sl o n f.
Proof.
  intros [k E] H. apply sl_set_len; [unfold rec_off; lia|]. rewrite E. unfold rec_off. lia.
Qed.

(** A bare header holds no records. *)
Lemma rf_wf_header h : length h = hdr -> rf_wf h.
Proof. intros E. exists 0. unfold rec_off. lia. Qed.

Lemma rec_header h i : length h = hdr -> rec h i = zeros rsz.
Proof. intros E. apply rec_out. unfold rec_off. lia. Qed.

(** ** The file as the list of its records *)

Definition records (f : list Z) : list (list Z) := map (rec f) (seq 0 (rec_count f)).

Lemma length_records f : length (records f) = rec_count f.
Proof. unfold records. by rewrite length_map, length_seq. Qed.

Lemma lookup_records f i :
  records f !! i = if bool_decide (i < rec_count f) then Some (rec f i) else None.
Proof.
  unfold records. rewrite list_lookup_fmap. case_bool_decide as H.
  - by rewrite lookup_seq_lt by done.
  - by rewrite lookup_seq_ge by lia.
Qed.

Lemma rec_records f i : rf_wf f -> rec f i = default (zeros rsz) (records f !! i).
Proof.
  intros Hf. rewrite lookup_records. case_bool_decide; [done|]. by rewrite rec_past_end by (done || lia).
Qed.

Lemma records_append f r :
  rf_wf f -> length r = rsz -> records (write_at f (length f) r) = records f ++ [r].
Proof.
  intros Hf Hr. rewrite (rec_count_wf f Hf) at 1. apply list_eq. intros i.
  rewrite lookup_records, rec_count_write by done.
  destruct (decide (i < rec_count f)) as [H1|H1].
  - rewrite bool_decide_eq_true_2 by lia. rewrite rec_write_other by (done || lia).
    rewrite lookup_app_l by (rewrite length_records; lia).
    rewrite lookup_records. by rewrite bool_decide_eq_true_2.
  - rewrite lookup_app_r by (rewrite length_records; lia). rewrite length_records.
    destruct (decide (i = rec_count f)) as [->|H2].
    + rewrite bool_decide_eq_true_2, Nat.sub_diag by lia. by rewrite rec_write_same.
    + rewrite bool_decide_eq_false_2 by lia. symmetry. apply lookup_ge_None_2. simpl. lia.
Qed.

Lemma records_overwrite f i r :
  rf_wf f -> length r = rsz -> i < rec_count f ->
  records (write_at f (rec_off i) r) = <[i := r]> (records f).
Proof.
  intros Hf Hr Hi. apply list_eq. intros j. rewrite lookup_records, rec_count_write by done.
  destruct (decide (j = i)) as [->|Hne].
  - rewrite bool_decide_eq_true_2 by lia. rewrite rec_write_same by done.
    by rewrite list_lookup_insert_eq by (by rewrite length_records).
  - rewrite rec_write_other by done. rewrite list_lookup_insert_ne by done.
    rewrite lookup_records. by replace (rec_count f `max` S i) with (rec_count f) by lia.
Qed.

Lemma rec_count_set_len f n : rec_count (set_len f (rec_off n)) = n.
Proof. apply rec_count_eq. apply length_set_len. Qed.

Lemma records_set_len f n :
  rf_wf f ->
  records (set_len f (rec_off n)) = take n (records f) ++ replicate (n - rec_count f) (zeros rsz).
Proof.
  intros Hf. apply list_eq. intros i. rewrite lookup_records, rec_count_set_len, rec_set_len by done.
  destruct (decide (i < n)) as [H1|H1].
  - rewrite !bool_decide_eq_true_2 by done. destruct (decide (i < rec_count f)) as [H2|H2].
    + rewrite lookup_app_l by (rewrite length_take, length_records; lia).
      rewrite lookup_take_lt, lookup_records by done. by rewrite bool_decide_eq_true_2.
    + rewrite lookup_app_r by (rewrite length_take, length_records; lia).
      rewrite length_take, length_records, lookup_replicate_2 by lia.
      by rewrite rec_past_end by (done || lia).
  - rewrite bool_decide_eq_false_2 by done. symmetry. apply lookup_ge_None_2.
    rewrite length_app, length_take, length_replicate, length_records. lia.
Qed.

Lemma records_header h : length h = hdr -> records h = [].
Proof.
  intros E. unfold records. rewrite (rec_count_eq h 0); [done|]. unfold rec_off. lia.
Qed.

End record_file.

#[export] Hint Resolve rf_wf_write rf_wf_set_len rf_wf_header : thur.

Arguments rec : simpl never.
Arguments rec_off : simpl never.
Arguments rec_count : simpl never.
Arguments records : simpl never.
Arguments read_at : simpl never.
Arguments write_at : simpl never.
Arguments set_len : simpl never.

(** ** Sidecar headers

    The index and sidecar files start with a 4-byte magic, a [u32] version
    and the [u32] record size, then zeroes up to the header size. *)

Definition index_header (magic : list Z) (version rsz : Z) (hdr : nat) : list Z :=
  magic ++ u32_le version ++ u32_le rsz ++ zeros (hdr - 12).

Definition header_magic (h : list Z) : list Z := sl 0 4 h.
Definition header_version (h : list Z) : Z := le_val (sl 4 4 h).
Definition header_rsz (h : list Z) : Z := le_val (sl 8 4 h).

Section index_header.
Context (magic : list Z) (version rsz : Z) (hdr : nat).
Context (magic_len : length magic = 4) (hdr_len : 12 <= hdr)
  (version_ok : in_u32 version) (rsz_ok : in_u32 rsz).

Lemma length_index_header : length (index_header magic version rsz hdr) = hdr.
Proof. unfold index_header. autorewrite with thur_rw. lia. Qed.

Lemma index_header_fields rest :
  let h := index_header magic version rsz hdr ++ rest in
  header_magic h = magic /\ header_version h = version /\ header_rsz h = rsz.
Proof.
  cbv zeta. unfold header_magic, header_version, header_rsz, index_header.
  rewrite <- !app_assoc. split_and!.
  - by apply sl_head.
  - rewrite (sl_skip 4) by (done || lia). sl_walk. by apply u32_le_val.
  - rewrite (sl_skip 4) by (done || lia). sl_walk. by apply u32_le_val.
Qed.

(** A file that starts with the header. *)
Lemma index_header_fields_file f :
  sl 0 hdr f = index_header magic version rsz hdr ->
  let h := sl 0 hdr f in
  header_magic h = magic /\ header_version h = version /\ header_rsz h = rsz.
Proof.
  intros ->. pose proof (index_header_fields []) as H. by rewrite app_nil_r in H.
Qed.

Lemma write_header_empty :
  write_at [] 0 (index_header magic version rsz hdr) = index_header magic version rsz hdr.
Proof.
  rewrite write_at_nonnil.
  - rewrite drop_nil. apply app_nil_r.
  - intros E. apply (f_equal length) in E. rewrite length_index_header in E. simpl in E. lia.
Qed.

End index_header.

Arguments index_header : simpl never.
