(* ===== verification/Pr.v ===== *)
(** * Persistent-reservation primitive types ([scsi/spc/src/pr.rs])

    The SPC-4 wire enumerations: reservation types with their byte codes,
    and the REPORT CAPABILITIES type mask. *)

From S2P Require Import Prelude.

Local Open Scope Z_scope.

Inductive ReservationType : Type :=
  | WriteExclusive
  | ExclusiveAccess
  | WriteExclusiveRegistrantsOnly
  | ExclusiveAccessRegistrantsOnly
  | WriteExclusiveAllRegistrants
  | ExclusiveAccessAllRegistrants.

#[export] Instance ReservationType_eq_dec : EqDecision ReservationType.
Proof. solve_decision. Defined.

Definition from_u8 (value : Z) : option ReservationType :=
  match value with
  | 1 => Some WriteExclusive
  | 3 => Some ExclusiveAccess
  | 5 => Some WriteExclusiveRegistrantsOnly
  | 6 => Some ExclusiveAccessRegistrantsOnly
  | 7 => Some WriteExclusiveAllRegistrants
  | 8 => Some ExclusiveAccessAllRegistrants
  | _ => None
  end.

Definition as_u8 (t : ReservationType) : Z :=
  match t with
  | WriteExclusive => 1
  | ExclusiveAccess => 3
  | WriteExclusiveRegistrantsOnly => 5
  | ExclusiveAccessRegistrantsOnly => 6
  | WriteExclusiveAllRegistrants => 7
  | ExclusiveAccessAllRegistrants => 8
  end.

Definition is_all_registrants (t : ReservationType) : bool :=
  match t with
  | WriteExclusiveAllRegistrants | ExclusiveAccessAllRegistrants => true
  | _ => false
  end.

(** The 16-bit TYPE_MASK bit of a type. *)
Definition type_mask_bit (t : ReservationType) : Z := Z.shiftl 1 (as_u8 t).

(** ** Service actions and scope *)

Inductive PrInServiceAction : Type :=
  | ReadKeys | ReadReservation | ReportCapabilities | ReadFullStatus.

Definition prin_sa_from_u8 (value : Z) : option PrInServiceAction :=
  match value with
  | 0 => Some ReadKeys
  | 1 => Some ReadReservation
  | 2 => Some ReportCapabilities
  | 3 => Some ReadFullStatus
  | _ => None
  end.

Inductive PrOutServiceAction : Type :=
  | SaRegister | SaReserve | SaRelease | SaClear | SaPreempt | SaPreemptAndAbort
  | SaRegisterAndIgnoreExistingKey | SaRegisterAndMove.

Definition prout_sa_from_u8 (value : Z) : option PrOutServiceAction :=
  match value with
  | 0 => Some SaRegister
  | 1 => Some SaReserve
  | 2 => Some SaRelease
  | 3 => Some SaClear
  | 4 => Some SaPreempt
  | 5 => Some SaPreemptAndAbort
  | 6 => Some SaRegisterAndIgnoreExistingKey
  | 7 => Some SaRegisterAndMove
  | _ => None
  end.

Lemma from_u8_as_u8 t : from_u8 (as_u8 t) = Some t.
Proof. by destruct t. Qed.

Lemma from_u8_Some v t : from_u8 v = Some t -> as_u8 t = v.
Proof.
  unfold from_u8. intros H.
  repeat match goal with
    | H : match ?x with _ => _ end = Some _ |- _ => destruct x; simplify_eq/=; try done
    end.
Qed.

#[export] Hint Rewrite from_u8_as_u8 : thur_rw.
