(* ===== verification/Reservations.v ===== *)
(** * The PERSISTENT RESERVE state machine ([scsi/spc/src/reservations.rs])

    Per-LU state, the PROUT service-action handlers, the notification diff
    and the read-only snapshot.  A handler takes the LU state and returns
    the new state with the response-neutral outcome, as the Rust handlers
    mutate [&mut LunState] and return [PrOutOutcome]. *)

From S2P Require Import Prelude BTreeMap Bytes Pr.

Local Open Scope Z_scope.

(** ** Registrant identity *)

(** A [String] is its bytes; an ISID or HOSTID is a byte array. *)
Inductive RegistrantId : Type :=
  | Iscsi (iqn : option (list Z)) (isid : list Z)
  | NvmeHost (hostid : list Z).

Definition iscsi (initiator_iqn : option (list Z)) (isid : list Z) : RegistrantId :=
  Iscsi initiator_iqn isid.
Definition nvme (hostid : list Z) : RegistrantId := NvmeHost hostid.

#[export] Instance RegistrantId_eq_dec : EqDecision RegistrantId.
Proof. solve_decision. Defined.

(** The derived [Ord]: variants in declaration order, then fields. *)
#[export] Instance ord_RegistrantId : Ord RegistrantId := fun a b =>
  match a, b with
  | Iscsi q1 s1, Iscsi q2 s2 => cmp (q1, s1) (q2, s2)
  | Iscsi _ _, NvmeHost _ => Lt
  | NvmeHost _, Iscsi _ _ => Gt
  | NvmeHost h1, NvmeHost h2 => cmp h1 h2
  end.

#[export] Instance ord_RegistrantId_laws : OrdLaws RegistrantId.
Proof.
  split.
  - intros [q1 s1|h1] [q2 s2|h2]; unfold cmp, ord_RegistrantId; try done;
      rewrite cmp_eq; naive_solver.
  - intros [q1 s1|h1] [q2 s2|h2]; unfold cmp, ord_RegistrantId; try done;
      apply cmp_antisym.
  - intros [q1 s1|h1] [q2 s2|h2] [q3 s3|h3]; unfold cmp, ord_RegistrantId; try done;
      apply cmp_lt_trans.
Qed.

(** ** State *)

Inductive PrOutOutcome : Type :=
  | Good
  | ReservationConflict
  | InvalidFieldInCdb
  | InvalidFieldInParameterList
  | LuNotSupported
  | PersistFailed.

#[export] Instance PrOutOutcome_eq_dec : EqDecision PrOutOutcome.
Proof. solve_decision. Defined.

Record ReservationState : Type := mkReservation {
  holder : RegistrantId;
  rkey : Z;
  rtype : ReservationType;
}.

Record LunState : Type := mkLun {
  registrations : btree RegistrantId Z;
  reservation : option ReservationState;
  generation : Z;
  aptpl : bool;
}.

(** [LunState::default()]. *)
Definition lun_default : LunState := mkLun [] None 0 false.

Definition set_registrations (st : LunState) r : LunState :=
  mkLun r (reservation st) (generation st) (aptpl st).
Definition set_reservation (st : LunState) r : LunState :=
  mkLun (registrations st) r (generation st) (aptpl st).
Definition set_aptpl (st : LunState) b : LunState :=
  mkLun (registrations st) (reservation st) (generation st) b.

Definition bump_generation (st : LunState) : LunState :=
  mkLun (registrations st) (reservation st) (wrap32 (generation st + 1)) (aptpl st).

Definition registration_key (st : LunState) (id : RegistrantId) : option Z :=
  bt_get id (registrations st).

Definition is_registered (st : LunState) (id : RegistrantId) : bool :=
  match registration_key st id with Some _ => true | None => false end.

Definition persist_eligible (st : LunState) : bool :=
  aptpl st && (negb (bool_decide (registrations st = [])) || bool_decide (is_Some (reservation st))).

(** ** PROUT service-action handlers *)

(** REGISTER (0x00) and REGISTER AND IGNORE EXISTING KEY (0x06). *)
Definition prout_register (st : LunState) (nexus : RegistrantId) (rk sark : Z)
    (ignore : bool) (ap : option bool) : LunState * PrOutOutcome :=
  if negb ignore && negb (default 0 (registration_key st nexus) =? rk)
  then (st, ReservationConflict)
  else
    let st := match ap with Some v => set_aptpl st v | None => st end in
    let st :=
      if sark =? 0 then
        let st := set_registrations st (bt_remove nexus (registrations st)) in
        match reservation st with
        | Some r =>
            if bool_decide (holder r = nexus) then
              if is_all_registrants (rtype r) then
                match registrations st with
                | [] => set_reservation st None
                | (id, key) :: _ => set_reservation st (Some (mkReservation id key (rtype r)))
                end
              else set_reservation st None
            else st
        | None => st
        end
      else set_registrations st (bt_insert nexus sark (registrations st)) in
    (bump_generation st, Good).

(** The holder test shared by RESERVE and RELEASE: the nominal holder, or
    any registrant of an All-Registrants reservation. *)
Definition is_holder (st : LunState) (existing : ReservationState) (nexus : RegistrantId) : bool :=
  bool_decide (holder existing = nexus)
  || (is_all_registrants (rtype existing) && is_registered st nexus).

(** RESERVE (0x01). *)
Definition prout_reserve (st : LunState) (nexus : RegistrantId) (rk type_byte : Z)
    : LunState * PrOutOutcome :=
  match registration_key st nexus with
  | None => (st, ReservationConflict)
  | Some reg_key =>
      if negb (reg_key =? rk) then (st, ReservationConflict)
      else match from_u8 type_byte with
      | None => (st, InvalidFieldInCdb)
      | Some t =>
          match reservation st with
          | Some existing =>
              if bool_decide (rtype existing = t) && is_holder st existing nexus
              then (st, Good)
              else (st, ReservationConflict)
          | None => (set_reservation st (Some (mkReservation nexus rk t)), Good)
          end
      end
  end.

(** RELEASE (0x02). *)
Definition prout_release (st : LunState) (nexus : RegistrantId) (rk type_byte : Z)
    : LunState * PrOutOutcome :=
  match registration_key st nexus with
  | None => (st, ReservationConflict)
  | Some reg_key =>
      if negb (reg_key =? rk) then (st, ReservationConflict)
      else match from_u8 type_byte with
      | None => (st, InvalidFieldInCdb)
      | Some t =>
          match reservation st with
          | None => (st, Good)
          | Some existing =>
              if negb (bool_decide (rtype existing = t)) then (st, ReservationConflict)
              else if negb (is_holder st existing nexus) then (st, Good)
              else (set_reservation st None, Good)
          end
      end
  end.

(** CLEAR (0x03). *)
Definition prout_clear (st : LunState) (nexus : RegistrantId) (rk : Z)
    : LunState * PrOutOutcome :=
  match registration_key st nexus with
  | None => (st, ReservationConflict)
  | Some reg_key =>
      if negb (reg_key =? rk) then (st, ReservationConflict)
      else
        let st := set_registrations st [] in
        let st := set_reservation st None in
        (bump_generation st, Good)
  end.

(** The [to_drop] list of PREEMPT: every registrant but the caller whose
    entry satisfies the filter, removed one by one. *)
Definition drop_keys (to_drop : list RegistrantId) (m : btree RegistrantId Z) : btree RegistrantId Z :=
  fold_left (fun m k => bt_remove k m) to_drop m.

(** PREEMPT (0x04) and PREEMPT AND ABORT (0x05). *)
Definition prout_preempt (st : LunState) (nexus : RegistrantId) (rk sark type_byte : Z)
    : LunState * PrOutOutcome :=
  match registration_key st nexus with
  | None => (st, ReservationConflict)
  | Some reg_key =>
      if negb (reg_key =? rk) then (st, ReservationConflict)
      else match from_u8 type_byte with
      | None => (st, InvalidFieldInCdb)
      | Some t =>
          if sark =? 0 then
            match reservation st with
            | Some r =>
                if is_all_registrants (rtype r) then
                  let to_drop := map fst
                    (List.filter (fun e => negb (bool_decide (e.1 = nexus))) (registrations st)) in
                  let st := set_registrations st (drop_keys to_drop (registrations st)) in
                  let st := set_reservation st (Some (mkReservation nexus rk t)) in
                  (bump_generation st, Good)
                else (st, InvalidFieldInParameterList)
            | None => (st, InvalidFieldInParameterList)
            end
          else
            let to_drop := map fst
              (List.filter (fun e => (e.2 =? sark) && negb (bool_decide (e.1 = nexus)))
                (registrations st)) in
            let held_by_sark :=
              match reservation st with Some r => rkey r =? sark | None => false end in
            if bool_decide (to_drop = []) && negb held_by_sark
            then (st, ReservationConflict)
            else
              let st := set_registrations st (drop_keys to_drop (registrations st)) in
              let preempt_reservation :=
                match reservation st with Some r => rkey r =? sark | None => false end in
              let st :=
                if preempt_reservation || bool_decide (reservation st = None)
                then set_reservation st (Some (mkReservation nexus rk t))
                else st in
              (bump_generation st, Good)
      end
  end.

(** ** Access checks on one LU

    The locked part of [allow_read] / [allow_write], after the LUN lookup. *)

Definition lu_allow_read (st : LunState) (nexus : RegistrantId) : bool :=
  match reservation st with
  | None => true
  | Some r =>
      match rtype r with
      | WriteExclusive | WriteExclusiveRegistrantsOnly | WriteExclusiveAllRegistrants => true
      | ExclusiveAccess => bool_decide (holder r = nexus)
      | ExclusiveAccessRegistrantsOnly | ExclusiveAccessAllRegistrants => is_registered st nexus
      end
  end.

Definition lu_allow_write (st : LunState) (nexus : RegistrantId) : bool :=
  match reservation st with
  | None => true
  | Some r =>
      match rtype r with
      | WriteExclusive | ExclusiveAccess => bool_decide (holder r = nexus)
      | WriteExclusiveRegistrantsOnly | ExclusiveAccessRegistrantsOnly
      | WriteExclusiveAllRegistrants | ExclusiveAccessAllRegistrants => is_registered st nexus
      end
  end.

(** ** Snapshots and notifications *)

Record ReservationSnapshot : Type := mkSnapshot {
  snap_generation : Z;
  snap_type : option ReservationType;
  snap_holder : option RegistrantId;
  snap_registrants : list (RegistrantId * Z);
  snap_aptpl : bool;
}.

Definition snapshot_of (state : option LunState) : ReservationSnapshot :=
  match state with
  | None => mkSnapshot 0 None None [] false
  | Some st =>
      mkSnapshot (generation st) (rtype <$> reservation st) (holder <$> reservation st)
        (registrations st) (aptpl st)
  end.

Inductive ResvAction : Type :=
  | ARegister | AAcquire | AUnregister | ARelease | AClear | APreempt.

Inductive ReservationChangeKind : Type :=
  | RegistrationPreempted | ReservationReleased | ReservationPreempted.

Record ReservationChange : Type := mkChange {
  ch_lun : Z;
  affected : RegistrantId;
  kind : ReservationChangeKind;
}.

(** The [emit] closure: nothing is sent to the issuer. *)
Definition emit (lun : Z) (issuer id : RegistrantId) (k : ReservationChangeKind)
    : list ReservationChange :=
  if bool_decide (id = issuer) then [] else [mkChange lun id k].

Definition diff_reservation_changes (action : ResvAction) (lun : Z) (issuer : RegistrantId)
    (pre post : ReservationSnapshot) : list ReservationChange :=
  let is_present id := existsb (fun e => bool_decide (e.1 = id)) (snap_registrants post) in
  match action with
  | ARegister | AAcquire => []
  | AClear =>
      flat_map (fun e => emit lun issuer e.1 ReservationPreempted) (snap_registrants pre)
  | APreempt =>
      let reservation_taken :=
        bool_decide (is_Some (snap_holder pre))
        && negb (bool_decide (snap_holder post = snap_holder pre)) in
      let preempted_holder := if reservation_taken then snap_holder pre else None in
      (match preempted_holder with
       | Some h => emit lun issuer h ReservationPreempted
       | None => []
       end) ++
      flat_map (fun e =>
          if is_present e.1 then []
          else if bool_decide (Some e.1 = preempted_holder) then []
          else emit lun issuer e.1 RegistrationPreempted)
        (snap_registrants pre)
  | ARelease | AUnregister =>
      if bool_decide (is_Some (snap_holder pre)) && bool_decide (snap_holder post = None)
      then flat_map (fun e => emit lun issuer e.1 ReservationReleased) (snap_registrants post)
      else []
  end.

(** ** The semantic operations as data

    One constructor per transport-neutral entry point ([register],
    [reserve], [release], [clear], [preempt]) with the issuing registrant,
    so that histories are lists of operations. *)
Inductive PrOp : Type :=
  | OpRegister (id : RegistrantId) (rk sark : Z) (ignore : bool) (ap : option bool)
  | OpReserve (id : RegistrantId) (rk type_byte : Z)
  | OpRelease (id : RegistrantId) (rk type_byte : Z)
  | OpClear (id : RegistrantId) (rk : Z)
  | OpPreempt (id : RegistrantId) (rk sark type_byte : Z).

Definition op_issuer (op : PrOp) : RegistrantId :=
  match op with
  | OpRegister id _ _ _ _ | OpReserve id _ _ | OpRelease id _ _ | OpClear id _
  | OpPreempt id _ _ _ => id
  end.

Definition op_action (op : PrOp) : ResvAction :=
  match op with
  | OpRegister _ _ sark _ _ => if sark =? 0 then AUnregister else ARegister
  | OpReserve _ _ _ => AAcquire
  | OpRelease _ _ _ => ARelease
  | OpClear _ _ => AClear
  | OpPreempt _ _ _ _ => APreempt
  end.

(** The closure each entry point hands to [mutate]. *)
Definition op_handler (op : PrOp) (st : LunState) : LunState * PrOutOutcome :=
  match op with
  | OpRegister id rk sark ignore ap => prout_register st id rk sark ignore ap
  | OpReserve id rk tb => prout_reserve st id rk tb
  | OpRelease id rk tb => prout_release st id rk tb
  | OpClear id rk => prout_clear st id rk
  | OpPreempt id rk sark tb => prout_preempt st id rk sark tb
  end.
