(* ===== verification/ReservationProofs.v ===== *)
(** * Properties of the PERSISTENT RESERVE state machine

    Well-formedness, the holder/registration coherence that fencing relies
    on, the effect of every service action, and the notification diff. *)

From S2P Require Import Prelude BTreeMap Bytes Pr Reservations.

Local Open Scope Z_scope.

(** ** Helper lemmas on the drop loop of PREEMPT *)

Lemma drop_keys_wf l m : bt_wf m -> bt_wf (drop_keys l m).
Proof.
  unfold drop_keys. revert m. induction l as [|k l IH]; intros m Hm; simpl; auto with thur.
Qed.

Lemma drop_keys_get l m id :
  bt_get id (drop_keys l m) = if bool_decide (id ∈ l) then None else bt_get id m.
Proof.
  unfold drop_keys. revert m. induction l as [|k l IH]; intros m; cbn [fold_left].
  - case_bool_decide; set_solver.
  - rewrite IH. destruct (decide (id = k)) as [->|Hne]; bt_simpl;
      repeat case_bool_decide; set_solver.
Qed.

(** Membership in a [to_drop] list, through the map it was read from. *)
Lemma to_drop_spec (P : RegistrantId * Z -> bool) (m : btree RegistrantId Z) id :
  bt_wf m ->
  id ∈ map fst (List.filter P m) <-> exists k, bt_get id m = Some k /\ P (id, k) = true.
Proof.
  intros Hwf. rewrite list_elem_of_In, in_map_iff. split.
  - intros [[id' k] [<- Hin]]. apply filter_In in Hin as [Hin HP].
    exists k. split; [by apply bt_In_get|done].
  - intros (k & Hg & HP). exists (id, k). split; [done|].
    apply filter_In. split; [by apply bt_get_In|done].
Qed.

Lemma is_registered_spec st id :
  is_registered st id = true <-> is_Some (registration_key st id).
Proof. unfold is_registered. destruct (registration_key st id); naive_solver. Qed.

(** Unfolds one handler and opens its guards. *)
Ltac open_handler :=
  unfold prout_register, prout_reserve, prout_release, prout_clear, prout_preempt in *;
  repeat match goal with
    | H : (if ?b then _ else _) = _ |- _ => destruct b eqn:?
    | H : (match ?x with _ => _ end) = _ |- _ => destruct x eqn:?
    end; simplify_eq/=; bool_to_prop.

(** ** Errors leave the LU alone *)

Lemma handler_error_no_effect_core op st st' o :
  op_handler op st = (st', o) -> o <> Good -> st' = st.
Proof. destruct op; simpl; intros H Ho; open_handler; done. Qed.

(** Every PROUT service action that ends in anything but GOOD leaves the
    LU's registrations, reservation, generation and APTPL bit exactly as
    they were: a rejected request has no effect. *)
Theorem handler_error_no_effect op st st' o :
  op_handler op st = (st', o) -> o <> Good -> st' = st.
Proof. apply handler_error_no_effect_core. Qed.

Definition host_a : RegistrantId := Iscsi (Some [97]) [1; 0; 0; 0; 0; 0].
Definition host_b : RegistrantId := Iscsi (Some [98]) [2; 0; 0; 0; 0; 0].
Definition host_n : RegistrantId := NvmeHost (replicate 16 7).

(** Runs a history of operations from the default LU. *)
Definition run_ops (ops : list PrOp) (st : LunState) : LunState :=
  fold_left (fun st op => (op_handler op st).1) ops st.

Definition two_hosts_we : LunState :=
  run_ops [OpRegister host_a 0 10 false None; OpRegister host_b 0 20 false None;
           OpReserve host_a 10 1] lun_default.

Lemma handler_error_no_effect_witness :
  (op_handler (OpReserve host_b 20 3) two_hosts_we).1 = two_hosts_we.
Proof.
  apply (handler_error_no_effect (OpReserve host_b 20 3) two_hosts_we _ ReservationConflict).
  - vm_compute. reflexivity.
  - discriminate.
Defined.

(** ** Well-formedness *)

Definition reg_ok (e : RegistrantId * Z) : Prop := in_u64 e.2 /\ e.2 <> 0.

Record lun_wf (st : LunState) : Prop := {
  wf_sorted : bt_wf (registrations st);
  wf_keys : Forall reg_ok (registrations st);
  wf_generation : in_u32 (generation st);
}.

(** Key arguments as the wire delivers them. *)
Definition op_args_ok (op : PrOp) : Prop :=
  match op with
  | OpRegister _ rk sark _ _ | OpPreempt _ rk sark _ => in_u64 rk /\ in_u64 sark
  | OpReserve _ rk _ | OpRelease _ rk _ | OpClear _ rk => in_u64 rk
  end.

Lemma lun_wf_default : lun_wf lun_default.
Proof. split; simpl; [constructor|constructor|]. unfold in_u32, u32_max. lia. Qed.

Lemma drop_keys_Forall (P : RegistrantId * Z -> Prop) l m : Forall P m -> Forall P (drop_keys l m).
Proof.
  unfold drop_keys. revert m. induction l as [|k l IH]; intros m Hm; simpl; [done|].
  by apply IH, bt_retain_Forall.
Qed.

#[export] Hint Resolve drop_keys_wf drop_keys_Forall lun_wf_default wrap32_range
  bt_insert_Forall bt_retain_Forall : thur.

Lemma lun_wf_intro regs res gen ap :
  bt_wf regs -> Forall reg_ok regs -> in_u32 gen -> lun_wf (mkLun regs res gen ap).
Proof. by split. Qed.

Lemma lun_wf_reservation st r : lun_wf st -> lun_wf (set_reservation st r).
Proof. intros [? ? ?]. by split. Qed.

Lemma lun_wf_handler op st : op_args_ok op -> lun_wf st -> lun_wf (op_handler op st).1.
Proof.
  intros Hargs [Hs Hk Hg]. destruct (op_handler op st) as [st' o] eqn:E. simpl.
  destruct op as [id rk sark ign ap|id rk tb|id rk tb|id rk|id rk sark tb]; simpl in E, Hargs.
  - assert (Hr : bt_wf (bt_remove id (registrations st))
      /\ Forall reg_ok (bt_remove id (registrations st)))
      by (unfold bt_remove; auto with thur).
    destruct Hr as [Hr1 Hr2].
    open_handler; [by split|]. unfold bump_generation. simpl.
    destruct ap; simpl; case_all; bool_to_prop;
      apply lun_wf_intro; simpl; auto with thur;
      apply bt_insert_Forall; try done; split; simpl; tauto.
  - open_handler; by split.
  - open_handler; by split.
  - open_handler; try (by split); apply lun_wf_intro; simpl; auto with thur.
  - open_handler; try (by split); apply lun_wf_intro; simpl; case_all; simpl; auto with thur.
Qed.

Lemma lun_wf_history_core ops st : lun_wf st -> Forall op_args_ok ops -> lun_wf (run_ops ops st).
Proof.
  unfold run_ops. revert st. induction ops as [|op ops IH]; intros st Hst Hargs; simpl; [done|].
  inversion_clear Hargs. by apply IH; [apply lun_wf_handler|].
Qed.

(** Along every history of PROUT operations from an empty LU the
    registration table stays strictly ordered with one non-zero 64-bit key
    per registrant, and PR_GENERATION stays a [u32]. *)
Theorem lun_wf_history ops : Forall op_args_ok ops -> lun_wf (run_ops ops lun_default).
Proof.
  apply lun_wf_history_core, lun_wf_default.
Qed.

Lemma lun_wf_history_witness :
  lun_wf (run_ops [OpRegister host_a 0 10 false None; OpPreempt host_a 10 10 1] lun_default).
Proof.
  apply lun_wf_history. repeat constructor; unfold in_u64, u64_max; lia.
Defined.

(** ** Holder coherence

    The reservation names a registered holder under the key it is
    registered with.  Every service action keeps this except a REGISTER by
    the current holder that changes its own key: the reservation keeps the
    old key. *)
Definition coherent (st : LunState) : Prop :=
  forall r, reservation st = Some r -> registration_key st (holder r) = Some (rkey r).

Definition rekeys_holder (st : LunState) (op : PrOp) : Prop :=
  match op with
  | OpRegister id _ sark _ _ =>
      sark <> 0 /\ exists r, reservation st = Some r /\ holder r = id /\ rkey r <> sark
  | _ => False
  end.

Lemma registration_key_drop regs res gen ap id :
  registration_key (mkLun regs res gen ap) id = bt_get id regs.
Proof. done. Qed.

Lemma coherent_intro regs res gen ap :
  (forall r, res = Some r -> bt_get (holder r) regs = Some (rkey r)) ->
  coherent (mkLun regs res gen ap).
Proof. done. Qed.

Lemma coherent_register st id rk sark ign ap st' :
  coherent st -> ~ rekeys_holder st (OpRegister id rk sark ign ap) ->
  prout_register st id rk sark ign ap = (st', Good) -> coherent st'.
Proof.
  intros Hc Hnk H. unfold coherent, registration_key in Hc. open_handler.
  unfold bump_generation. apply coherent_intro. intros r Hr.
  assert (Hs : let s0 := match ap with Some v => set_aptpl st v | None => st end in
    reservation s0 = reservation st /\ registrations s0 = registrations st) by (by destruct ap).
  revert Hr Hs. generalize (match ap with Some v => set_aptpl st v | None => st end).
  intros s0 Hr [Hres Hregs]. revert Hr.
  destruct (sark =? 0) eqn:Es; bool_to_prop; simpl; rewrite Hres, ?Hregs.
  - destruct (reservation st) as [r0|] eqn:E0; simpl; [|by rewrite Hres].
    case_bool_decide as Hh; simpl.
    + destruct (is_all_registrants (rtype r0)); [|done].
      destruct (bt_remove id (registrations st)) as [|[id' k'] m'] eqn:Em; [done|].
      simpl. intros [=<-]. rewrite ?Hregs, ?Em. simpl. by rewrite cmp_refl.
    + rewrite ?Hres, ?Hregs. intros [=<-]. rewrite bt_get_remove_ne by done. by apply Hc.
  - intros Hr. destruct (decide (holder r = id)) as [<-|Hne]; bt_simpl; [|by apply Hc].
    destruct (decide (rkey r = sark)) as [->|Hk]; [done|].
    destruct Hnk. split; [done|]. by exists r.
Qed.

(** What a successful PREEMPT does to the table and the reservation. *)
Lemma preempt_good_inv st id rk sark tb st' :
  prout_preempt st id rk sark tb = (st', Good) ->
  exists t, registration_key st id = Some rk /\ from_u8 tb = Some t /\
    ((sark = 0 /\ (exists r, reservation st = Some r /\ is_all_registrants (rtype r) = true) /\
      registrations st' = drop_keys (map fst
        (List.filter (fun e => negb (bool_decide (e.1 = id))) (registrations st))) (registrations st) /\
      reservation st' = Some (mkReservation id rk t)) \/
     (sark <> 0 /\
      registrations st' = drop_keys (map fst
        (List.filter (fun e => (e.2 =? sark) && negb (bool_decide (e.1 = id))) (registrations st)))
        (registrations st) /\
      reservation st' =
        match reservation st with
        | Some r => if rkey r =? sark then Some (mkReservation id rk t) else Some r
        | None => Some (mkReservation id rk t)
        end)) /\
    generation st' = wrap32 (generation st + 1) /\ aptpl st' = aptpl st.
Proof.
  intros H. open_handler; eexists; (split; [congruence|]); (split; [done|]).
  - split; [left; eauto 6|done].
  - split; [right|by case_all].
    split; [done|]. split; [case_all; done|].
    destruct (reservation st) as [r1|] eqn:E; simpl; [|done].
    destruct (rkey r1 =? sark); simpl; [done|]. by rewrite E.
Qed.

Lemma coherent_preempt st id rk sark tb st' :
  lun_wf st -> coherent st -> prout_preempt st id rk sark tb = (st', Good) -> coherent st'.
Proof.
  intros [Hwf _ _] Hc H. destruct (preempt_good_inv _ _ _ _ _ _ H)
    as (t & Hk & Ht & [(-> & _ & Hregs & Hres)|(Hs & Hregs & Hres)] & _).
  - intros r Hr. unfold registration_key in *. rewrite Hres in Hr. simplify_eq/=.
    rewrite Hregs, drop_keys_get, bool_decide_eq_false_2; [done|].
    rewrite to_drop_spec by done. intros (k & _ & Hb). simpl in Hb.
    by rewrite bool_decide_eq_true_2 in Hb.
  - intros r Hr. unfold registration_key in *. rewrite Hregs, drop_keys_get.
    rewrite Hres in Hr. rewrite bool_decide_eq_false_2.
    { destruct (reservation st) as [r0|] eqn:E; [|by simplify_eq/=].
      destruct (rkey r0 =? sark); simplify_eq/=; try done; by apply Hc. }
    rewrite to_drop_spec by done. intros (k & Hg & Hb). simpl in Hb. bool_to_prop. subst k.
    destruct (reservation st) as [r0|] eqn:E; [|by simplify_eq/=].
    destruct (rkey r0 =? sark) eqn:Ek; simplify_eq/=; bool_to_prop; try done.
    apply Hc in E. unfold registration_key in E. congruence.
Qed.

Lemma coherent_handler op st :
  lun_wf st -> coherent st -> ~ rekeys_holder st op -> coherent (op_handler op st).1.
Proof.
  intros Hwf Hc Hnk. destruct (op_handler op st) as [st' o] eqn:E. simpl.
  destruct (decide (o = Good)) as [->|Ho]; [|by rewrite (handler_error_no_effect_core op st st' o)].
  destruct op; simpl in E.
  - by eapply coherent_register.
  - open_handler; try done. intros ? [=<-]. unfold registration_key in *. simpl. congruence.
  - open_handler; done.
  - open_handler; done.
  - by eapply coherent_preempt.
Qed.

(** Histories in which no REGISTER changes the key of the current holder. *)
Inductive keyed_history : list PrOp -> LunState -> Prop :=
  | keyed_nil st : keyed_history [] st
  | keyed_cons op ops st :
      op_args_ok op -> ~ rekeys_holder st op ->
      keyed_history ops (op_handler op st).1 -> keyed_history (op :: ops) st.

(** Along every history in which the reservation holder never registers a
    different key for itself, the reservation's holder is a registered
    initiator port and the reservation carries the key that port is
    registered with. *)
Theorem holder_stays_registered ops :
  keyed_history ops lun_default -> coherent (run_ops ops lun_default).
Proof.
  assert (H0 : coherent lun_default) by done. pose proof lun_wf_default as H1.
  unfold run_ops. revert H0 H1. generalize lun_default as st.
  induction ops as [|op ops IH]; intros st Hc Hwf Hh; simpl; [done|].
  inversion_clear Hh. apply IH; [by apply coherent_handler|by apply lun_wf_handler|done].
Qed.

(** Decides the side conditions of a concrete keyed history. *)
Ltac keyed_step :=
  constructor; [simpl; unfold in_u64, u64_max; lia|
    vm_compute; first [by intros []|intros (? & ? & ? & ? & ?); simplify_eq]|].

Lemma holder_stays_registered_witness :
  coherent (run_ops [OpRegister host_a 0 10 false None; OpReserve host_a 10 7;
    OpRegister host_n 0 20 true None; OpRegister host_a 10 0 false None] lun_default).
Proof. apply holder_stays_registered. do 4 keyed_step. constructor. Defined.

(** ** Fencing *)

Lemma preempt_locks_out st nexus rk sark tb st' victim :
  lun_wf st -> coherent st -> sark <> 0 ->
  prout_preempt st nexus rk sark tb = (st', Good) ->
  victim <> nexus -> registration_key st victim = Some sark ->
  registration_key st' victim = None /\
  lu_allow_write st' victim = false /\
  (forall r, reservation st' = Some r ->
    rtype r <> WriteExclusive -> rtype r <> WriteExclusiveRegistrantsOnly ->
    rtype r <> WriteExclusiveAllRegistrants -> lu_allow_read st' victim = false) /\
  registration_key st' nexus = Some rk.
Proof.
  intros Hwf Hc Hs H Hne Hv. pose proof (coherent_preempt _ _ _ _ _ _ Hwf Hc H) as Hc'.
  destruct Hwf as [Hwf _ _]. destruct (preempt_good_inv _ _ _ _ _ _ H)
    as (t & Hk & Ht & [(-> & _)|(_ & Hregs & Hres)] & _); [done|].
  assert (Hgone : registration_key st' victim = None).
  { unfold registration_key. rewrite Hregs, drop_keys_get, bool_decide_eq_true_2; [done|].
    apply to_drop_spec; [done|]. exists sark. split; [done|]. simpl.
    rewrite Z.eqb_refl, bool_decide_eq_false_2; done. }
  assert (Hsome : exists r, reservation st' = Some r /\ holder r <> victim).
  { destruct (reservation st') as [r|] eqn:E.
    - exists r. split; [done|]. intros <-. apply Hc' in E. congruence.
    - destruct (reservation st) as [r0|]; [|done].
      by destruct (rkey r0 =? sark). }
  destruct Hsome as (r & Er & Hh). unfold lu_allow_write, lu_allow_read, is_registered.
  rewrite Er, Hgone. split; [done|]. split; [|split].
  - destruct (rtype r); try done; by apply bool_decide_eq_false_2.
  - intros ? [=<-]. destruct (rtype r); try done. intros. by apply bool_decide_eq_false_2.
  - unfold registration_key. rewrite Hregs, drop_keys_get, bool_decide_eq_false_2; [done|].
    rewrite to_drop_spec by done. intros (k & _ & Hb). simpl in Hb. bool_to_prop. done.
Qed.

(** Fencing.  On a coherent LU a GOOD PREEMPT naming a key locks out every
    other host registered under that key: it is no longer registered, may
    not write, and may not read when the reservation in force excludes
    readers; the preempting host stays registered. *)
Theorem preempt_fences st nexus rk sark tb st' victim :
  lun_wf st -> coherent st -> sark <> 0 ->
  prout_preempt st nexus rk sark tb = (st', Good) ->
  victim <> nexus -> registration_key st victim = Some sark ->
  registration_key st' victim = None /\
  lu_allow_write st' victim = false /\
  (forall r, reservation st' = Some r ->
    rtype r <> WriteExclusive -> rtype r <> WriteExclusiveRegistrantsOnly ->
    rtype r <> WriteExclusiveAllRegistrants -> lu_allow_read st' victim = false) /\
  registration_key st' nexus = Some rk.
Proof. apply preempt_locks_out. Qed.

Lemma preempt_fences_witness :
  let st' := (prout_preempt two_hosts_we host_b 20 10 1).1 in
  registration_key st' host_a = None /\ lu_allow_write st' host_a = false.
Proof.
  assert (Hc : coherent two_hosts_we).
  { intros r. vm_compute. intros [=<-]. reflexivity. }
  assert (Hwf : lun_wf two_hosts_we).
  { apply (lun_wf_history_core _ lun_default lun_wf_default).
    repeat constructor; unfold in_u64, u64_max; lia. }
  destruct (preempt_fences two_hosts_we host_b 20 10 1
    (prout_preempt two_hosts_we host_b 20 10 1).1 host_a Hwf Hc) as (H1 & H2 & _);
    [lia|vm_compute; reflexivity|discriminate|vm_compute; reflexivity|].
  exact (conj H1 H2).
Defined.

(** Without coherence fencing fails.  When the holder of a Write Exclusive
    reservation has registered a new key since reserving, a PREEMPT naming
    that current key is answered GOOD and removes its registration, yet the
    reservation stays with the preempted host: it may still write, and the
    preempting host may not. *)
Theorem rekeyed_holder_escapes_preempt st nexus rk tb t r k2 :
  lun_wf st -> reservation st = Some r -> rtype r = WriteExclusive ->
  holder r <> nexus -> registration_key st (holder r) = Some k2 -> rkey r <> k2 ->
  registration_key st nexus = Some rk -> from_u8 tb = Some t ->
  exists st', prout_preempt st nexus rk k2 tb = (st', Good) /\
    registration_key st' (holder r) = None /\
    lu_allow_write st' (holder r) = true /\ lu_allow_write st' nexus = false.
Proof.
  intros [Hwf Hkeys _] Hr Ht Hne Hk2 Hk Hn Htb. unfold prout_preempt.
  rewrite Hn, Z.eqb_refl, Htb. simpl.
  assert (Hk0 : k2 <> 0).
  { apply bt_get_In in Hk2. rewrite List.Forall_forall in Hkeys. by apply Hkeys in Hk2 as [_ ?]. }
  rewrite (proj2 (Z.eqb_neq k2 0) Hk0), Hr, (proj2 (Z.eqb_neq _ _) Hk). simpl.
  set (dropped := map fst _).
  assert (Hin : holder r ∈ dropped).
  { apply to_drop_spec; [done|]. exists k2. split; [done|]. simpl.
    rewrite Z.eqb_refl, bool_decide_eq_false_2; done. }
  rewrite bool_decide_eq_false_2 by (intros E; rewrite E in Hin; set_solver).
  simpl. eexists. split; [done|]. unfold registration_key, lu_allow_write. simpl.
  rewrite Hr, Ht, drop_keys_get, bool_decide_eq_true_2 by done. split; [done|].
  split; [by apply bool_decide_eq_true_2|by apply bool_decide_eq_false_2].
Qed.

(** The holder registers key 11 in place of key 10; the other host preempts
    key 11. *)
Definition rekeyed : LunState := (prout_register two_hosts_we host_a 10 11 false None).1.

Lemma rekeyed_holder_escapes_preempt_witness :
  exists st', prout_preempt rekeyed host_b 20 11 1 = (st', Good) /\
    registration_key st' host_a = None /\
    lu_allow_write st' host_a = true /\ lu_allow_write st' host_b = false.
Proof.
  apply (rekeyed_holder_escapes_preempt rekeyed host_b 20 1 WriteExclusive
    (mkReservation host_a 10 WriteExclusive) 11); try reflexivity; try discriminate.
  apply (lun_wf_history_core [OpRegister host_a 0 10 false None; OpRegister host_b 0 20 false None;
    OpReserve host_a 10 1; OpRegister host_a 10 11 false None] lun_default lun_wf_default).
  repeat constructor; unfold in_u64, u64_max; lia.
Defined.

(** ** Access *)

(** While a reservation is held, a write is admitted only from the
    holder or a registrant, under the single-holder types only from one
    host, and every host that may write may also read. *)
Theorem reservation_excludes_writers st r a b :
  reservation st = Some r -> lu_allow_write st a = true ->
  (holder r = a \/ is_registered st a = true) /\
  (rtype r = WriteExclusive \/ rtype r = ExclusiveAccess ->
    lu_allow_write st b = true -> a = b) /\
  lu_allow_read st a = true.
Proof.
  intros Hr. unfold lu_allow_write, lu_allow_read. rewrite Hr. intros Ha.
  split; [|split].
  - destruct (rtype r); auto; left; by apply bool_decide_eq_true_1 in Ha.
  - intros [E|E]; rewrite E in *; intros Hb;
      apply bool_decide_eq_true_1 in Ha, Hb; congruence.
  - by destruct (rtype r).
Qed.

Lemma reservation_excludes_writers_witness :
  (host_a = host_a \/ is_registered two_hosts_we host_a = true) /\
  lu_allow_read two_hosts_we host_a = true.
Proof.
  destruct (reservation_excludes_writers two_hosts_we
    (mkReservation host_a 10 WriteExclusive) host_a host_a) as (H1 & _ & H2);
    [vm_compute; reflexivity|vm_compute; reflexivity|].
  exact (conj H1 H2).
Defined.

(** PR_GENERATION counts, modulo 2^32, exactly the successful REGISTER,
    CLEAR and PREEMPT service actions; RESERVE and RELEASE leave it alone. *)
Theorem generation_counts op st st' :
  op_handler op st = (st', Good) ->
  generation st' =
    match op with
    | OpRegister _ _ _ _ _ | OpClear _ _ | OpPreempt _ _ _ _ => wrap32 (generation st + 1)
    | OpReserve _ _ _ | OpRelease _ _ _ => generation st
    end.
Proof.
  destruct op as [id rk sark ign ap|id rk tb|id rk tb|id rk|id rk sark tb]; simpl; intros H.
  - open_handler. destruct ap; simpl; case_all; done.
  - open_handler; done.
  - open_handler; done.
  - open_handler; done.
  - by destruct (preempt_good_inv _ _ _ _ _ _ H) as (? & _ & _ & _ & -> & _).
Qed.

Lemma generation_counts_witness :
  generation (op_handler (OpClear host_a 10) two_hosts_we).1 = wrap32 (generation two_hosts_we + 1).
Proof.
  apply (generation_counts (OpClear host_a 10) two_hosts_we). vm_compute. reflexivity.
Defined.

(** An All-Registrants reservation lives exactly as long as the LU has a
    registrant: after any successful REGISTER or unregister it is gone iff
    the registration table is empty, and otherwise keeps its type. *)
Theorem all_registrants_lifetime st r id rk sark ign ap st' :
  lun_wf st -> coherent st -> reservation st = Some r -> is_all_registrants (rtype r) = true ->
  prout_register st id rk sark ign ap = (st', Good) ->
  (reservation st' = None <-> registrations st' = []) /\
  (forall r', reservation st' = Some r' -> rtype r' = rtype r).
Proof.
  intros Hwf Hc Hr Har H. open_handler.
  assert (Hs : let s0 := match ap with Some v => set_aptpl st v | None => st end in
    reservation s0 = Some r /\ registrations s0 = registrations st) by (by destruct ap).
  revert Hs. generalize (match ap with Some v => set_aptpl st v | None => st end).
  intros s0 [Hres Hregs]. pose proof (Hc r Hr) as Hreg. unfold registration_key in Hreg.
  destruct (sark =? 0); simpl; rewrite ?Hres, ?Hregs.
  - destruct (bool_decide (holder r = id)) eqn:Hh; bool_to_prop; rewrite ?Har; simpl.
    + destruct (bt_remove id (registrations st)) as [|[id' k'] m'] eqn:Em; simpl;
        rewrite ?Hregs, ?Em; naive_solver.
    + rewrite ?Hres, ?Hregs. split; [|naive_solver]. split; [done|]. intros E.
      rewrite <- (bt_get_remove_ne (holder r) id) in Hreg by done. by rewrite E in Hreg.
  - rewrite ?Hres, ?Hregs. split; [|naive_solver]. split; [done|]. intros E.
    pose proof (bt_get_insert_eq id sark (registrations st)) as E2. by rewrite E in E2.
Qed.

Lemma all_registrants_lifetime_witness :
  let st := run_ops [OpRegister host_a 0 10 false None; OpReserve host_a 10 7] lun_default in
  reservation (prout_register st host_a 10 0 false None).1 = None.
Proof.
  intros st.
  assert (Hwf : lun_wf st).
  { apply (lun_wf_history_core _ lun_default lun_wf_default).
    repeat constructor; unfold in_u64, u64_max; lia. }
  assert (Hc : coherent st) by (intros r; vm_compute; by intros [=<-]).
  apply (all_registrants_lifetime st (mkReservation host_a 10 WriteExclusiveAllRegistrants)
    host_a 10 0 false None (prout_register st host_a 10 0 false None).1 Hwf Hc);
    reflexivity.
Defined.

(** ** Notifications *)

(** The changes a successful operation hands to the observers. *)
Definition op_changes (lun : Z) (op : PrOp) (st st' : LunState) : list ReservationChange :=
  diff_reservation_changes (op_action op) lun (op_issuer op)
    (snapshot_of (Some st)) (snapshot_of (Some st')).

Lemma emit_In lun issuer id k c :
  In c (emit lun issuer id k) <-> id <> issuer /\ c = mkChange lun id k.
Proof. unfold emit. case_bool_decide; simpl; naive_solver. Qed.

Lemma is_present_spec (l : list (RegistrantId * Z)) id :
  existsb (fun e => bool_decide (e.1 = id)) l = true <-> In id (map fst l).
Proof.
  rewrite existsb_exists, in_map_iff. setoid_rewrite bool_decide_eq_true. naive_solver.
Qed.

(** A change never names the issuer and comes from the table it was read
    from, once per entry. *)
Lemma flat_map_emit_NoDup lun (F : RegistrantId * Z -> list ReservationChange)
    (l : btree RegistrantId Z) :
  bt_wf l -> (forall e, F e = [] \/ exists k, F e = [mkChange lun e.1 k]) ->
  NoDup (map affected (flat_map F l)).
Proof.
  intros Hwf HF. induction Hwf as [|[id v] l Hs IH Hall]; simpl; [constructor|].
  destruct (HF (id, v)) as [->|[k ->]]; simpl; [done|]. constructor; [|done].
  rewrite list_elem_of_In, in_map_iff. intros [c [Hc Hin]].
  apply in_flat_map in Hin as [[id' v'] [Hin Hc']].
  destruct (HF (id', v')) as [E|[k' E]]; rewrite E in Hc'; [done|].
  destruct Hc' as [<-|[]]. simpl in Hc. subst id'.
  rewrite List.Forall_forall in Hall. apply Hall in Hin. unfold key_lt in Hin. simpl in Hin.
  by rewrite cmp_refl in Hin.
Qed.

Lemma emit_shape lun issuer id k : emit lun issuer id k = [] \/ exists k', emit lun issuer id k = [mkChange lun id k'].
Proof. unfold emit. case_bool_decide; eauto. Qed.

Lemma diff_NoDup action lun issuer pre post :
  bt_wf (snap_registrants pre : btree RegistrantId Z) ->
  bt_wf (snap_registrants post : btree RegistrantId Z) ->
  NoDup (map affected (diff_reservation_changes action lun issuer pre post)).
Proof.
  intros Hpre Hpost. unfold diff_reservation_changes. destruct action; try constructor.
  - case_match; [|constructor].
    apply (flat_map_emit_NoDup lun); [done|intros; apply emit_shape].
  - case_match; [|constructor].
    apply (flat_map_emit_NoDup lun); [done|intros; apply emit_shape].
  - apply (flat_map_emit_NoDup lun); [done|intros; apply emit_shape].
  - match goal with |- context [if ?b then snap_holder pre else None] =>
      set (ph := if b then snap_holder pre else None) end.
    match goal with |- context [flat_map ?f _] => set (F := f) end.
    assert (HF : forall e, F e = [] \/ exists k, F e = [mkChange lun e.1 k]).
    { intros e. unfold F. case_match; [auto|]. case_bool_decide; [auto|]. apply emit_shape. }
    rewrite map_app. apply NoDup_app. split; [|split].
    + destruct ph as [h|]; [|constructor]. unfold emit. case_bool_decide; simpl; [constructor|].
      apply NoDup_singleton.
    + intros x Hx Hy. rewrite list_elem_of_In in Hx, Hy.
      apply in_map_iff in Hx as (c & <- & Hc). destruct ph as [h|]; [|done].
      apply emit_In in Hc as [_ ->]. apply in_map_iff in Hy as (c' & Hc' & Hin).
      apply in_flat_map in Hin as (e & He & Hin). unfold F in Hin.
      case_match; [done|]. case_bool_decide as Hne; [done|].
      apply emit_In in Hin as [_ ->]. simpl in Hc'. congruence.
    + by apply (flat_map_emit_NoDup lun).
Qed.

Lemma diff_not_issuer action lun issuer pre post c :
  In c (diff_reservation_changes action lun issuer pre post) -> affected c <> issuer.
Proof.
  unfold diff_reservation_changes. intros H.
  destruct action; repeat first
    [ done
    | match type of H with
      | In _ (_ ++ _) => apply in_app_or in H as [H|H]
      | In _ (flat_map _ _) => apply in_flat_map in H as (? & ? & H)
      | In _ (emit _ _ _ _) => by apply emit_In in H as [? ->]
      | In _ (if ?b then _ else _) => destruct b
      | In _ (match ?x with _ => _ end) => destruct x
      end ].
Qed.

(** The registration table after a successful REGISTER or unregister. *)
Lemma register_good_table st id rk sark ign ap st' :
  prout_register st id rk sark ign ap = (st', Good) ->
  registrations st' =
    if sark =? 0 then bt_remove id (registrations st)
    else bt_insert id sark (registrations st).
Proof.
  intros H. open_handler. destruct (sark =? 0); [|by destruct ap].
  destruct ap; simpl; (destruct (reservation st) as [r|]; simpl; [|done]);
    (case_bool_decide; simpl; [|done]); (destruct (is_all_registrants _); simpl; [|done]);
    by destruct (bt_remove id (registrations st)) as [|[]].
Qed.

(** Which registrations an operation can remove. *)
Lemma lost_registration_cases op st st' id :
  lun_wf st -> op_handler op st = (st', Good) -> id <> op_issuer op ->
  is_Some (registration_key st id) -> registration_key st' id = None ->
  (exists i rk, op = OpClear i rk) \/ (exists i rk sark tb, op = OpPreempt i rk sark tb).
Proof.
  intros Hwf H Hne [k Hk] Hn. destruct op as [i rk sark ign ap|i rk tb|i rk tb|i rk|i rk sark tb];
    simpl in *; unfold registration_key in *;
    try (open_handler; simpl in *; congruence); eauto 7.
  apply register_good_table in H. rewrite H in Hn.
  destruct (sark =? 0); bt_simpl; congruence.
Qed.

(** Notification completeness and economy.  After a successful PROUT the
    issuer is never notified, no host is notified twice, every other host
    that lost its registration is notified, and a host whose reservation a
    PREEMPT took over is told exactly that. *)
Theorem notifications_complete lun op st st' :
  lun_wf st -> op_args_ok op -> op_handler op st = (st', Good) ->
  let cs := op_changes lun op st st' in
  Forall (fun c => affected c <> op_issuer op) cs /\
  NoDup (map affected cs) /\
  (forall id, id <> op_issuer op -> is_Some (registration_key st id) ->
    registration_key st' id = None -> exists k, In (mkChange lun id k) cs) /\
  (forall i rk sark tb r r', op = OpPreempt i rk sark tb -> reservation st = Some r ->
    reservation st' = Some r' -> holder r' <> holder r -> holder r <> i ->
    In (mkChange lun (holder r) ReservationPreempted) cs).
Proof.
  intros Hwf Hargs H cs.
  assert (Hwf' : lun_wf st') by (pose proof (lun_wf_handler op st Hargs Hwf) as W; by rewrite H in W).
  split; [|split; [|split]].
  - rewrite List.Forall_forall. intros c. apply diff_not_issuer.
  - apply diff_NoDup; simpl; [apply Hwf|apply Hwf'].
  - intros id Hne [k Hk] Hn.
    assert (Hin : In (id, k) (registrations st)) by (by apply bt_get_In).
    destruct (lost_registration_cases op st st' id Hwf H Hne ltac:(eauto) Hn)
      as [(i & rk & ->)|(i & rk & sark & tb & ->)]; unfold cs, op_changes; simpl.
    + exists ReservationPreempted. apply in_flat_map. exists (id, k). split; [done|].
      by apply emit_In.
    + match goal with |- context [if ?b then holder <$> reservation st else None] =>
        set (ph := if b then holder <$> reservation st else None) end.
      destruct (decide (ph = Some id)) as [Hp|Hp].
      * exists ReservationPreempted. apply in_or_app. left. rewrite Hp. by apply emit_In.
      * exists RegistrationPreempted. apply in_or_app. right. apply in_flat_map.
        exists (id, k). split; [done|]. simpl.
        destruct (existsb _ _) eqn:E.
        { apply is_present_spec, in_map_iff in E as ([id' v] & Heq & Hin2). simpl in Heq. subst id'.
          apply bt_In_get in Hin2; [|apply Hwf']. unfold registration_key in Hn. congruence. }
        rewrite bool_decide_eq_false_2 by congruence. by apply emit_In.
  - intros i rk sark tb r r' -> Hr Hr' Hh Hi. unfold cs, op_changes. simpl.
    rewrite Hr, Hr'. simpl. rewrite bool_decide_eq_false_2 by congruence. simpl.
    apply in_or_app. left. by apply emit_In.
Qed.

(** A host whose registration a PREEMPT removed is told it was preempted. *)
Lemma preempt_notifies st nexus rk sark tb st' victim lun k :
  lun_wf st -> in_u64 rk -> in_u64 sark -> prout_preempt st nexus rk sark tb = (st', Good) -> victim <> nexus ->
  registration_key st victim = Some k -> registration_key st' victim = None ->
  exists kd, In (mkChange lun victim kd) (op_changes lun (OpPreempt nexus rk sark tb) st st') /\ kd <> ReservationReleased.
Proof.
  intros Hwf Hrk Hs Hp Hne Hk Hgone.
  destruct (notifications_complete lun (OpPreempt nexus rk sark tb) st st' Hwf (conj Hrk Hs) Hp) as (_ & _ & Hlost & _).
  destruct (Hlost victim Hne ltac:(eauto) Hgone) as [kd Hin]. exists kd. split; [done|]. intros ->.
  unfold op_changes in Hin. simpl in Hin. apply in_app_or in Hin as [Hin|Hin].
  - match type of Hin with In _ (match ?ph with Some _ => _ | None => _ end) => destruct ph; [|done] end. by apply emit_In in Hin as [_ ?].
  - apply in_flat_map in Hin as ([id v] & _ & Hin). destruct (existsb _ _); [done|]. case_bool_decide; [done|].
    by apply emit_In in Hin as [_ ?].
Qed.

Lemma notifications_complete_witness :
  In (mkChange 0 host_a ReservationPreempted)
    (op_changes 0 (OpPreempt host_b 20 10 1) two_hosts_we
      (op_handler (OpPreempt host_b 20 10 1) two_hosts_we).1).
Proof.
  assert (Hwf : lun_wf two_hosts_we).
  { apply (lun_wf_history_core _ lun_default lun_wf_default).
    repeat constructor; unfold in_u64, u64_max; lia. }
  destruct (notifications_complete 0 (OpPreempt host_b 20 10 1) two_hosts_we
    (op_handler (OpPreempt host_b 20 10 1) two_hosts_we).1 Hwf) as (_ & _ & _ & H).
  - simpl. unfold in_u64, u64_max. lia.
  - vm_compute. reflexivity.
  - apply (H host_b 20 10 1 (mkReservation host_a 10 WriteExclusive)
      (mkReservation host_b 20 WriteExclusive)); try reflexivity; discriminate.
Defined.
