(* ===== verification/ReservationRender.v ===== *)
(** * PERSISTENT RESERVE IN responses ([scsi/spc/src/reservations.rs])

    The four PRIN renderers as byte strings, the CDB slicers, and a host-side
    reader of the READ KEYS / READ RESERVATION / READ FULL STATUS bodies
    against which the renderers round-trip. *)

From S2P Require Import Prelude BTreeMap Bytes Pr Reservations.

Local Open Scope Z_scope.

(** ** CDB slicing *)

Record PrOutFields : Type := mkPrOut {
  f_service_action : Z;
  f_scope : Z;
  f_type_byte : Z;
  f_param_list : list Z;
  f_param_list_len : Z;
}.

Definition at_ (l : list Z) (i : nat) : Z := default 0 (l !! i).

Definition parse_prout_cdb (cdb data_out : list Z) : option PrOutFields :=
  if bool_decide (length cdb < 10)%nat then None
  else Some (mkPrOut
    (Z.land (at_ cdb 1) 0x1F)
    (Z.land (Z.shiftr (at_ cdb 2) 4) 0x0F)
    (Z.land (at_ cdb 2) 0x0F)
    data_out
    (be_val [at_ cdb 5; at_ cdb 6; at_ cdb 7; at_ cdb 8])).

Definition parse_prin_cdb (cdb : list Z) : option (Z * Z) :=
  if bool_decide (length cdb < 10)%nat then None
  else Some (Z.land (at_ cdb 1) 0x1F, be_val [at_ cdb 7; at_ cdb 8]).

(** ** Renderers *)

Definition header (generation additional_length : Z) : list Z :=
  u32_be generation ++ u32_be additional_length.

Definition render_read_keys (state : option LunState) : list Z :=
  match state with
  | None => header 0 0
  | Some st =>
      let n := wrap32 (Z.of_nat (length (registrations st))) in
      header (generation st) (wrap32 (n * 8))
        ++ flat_map (fun e => u64_be e.2) (registrations st)
  end.

Definition render_read_reservation (state : option LunState) : list Z :=
  match state with
  | None => header 0 0
  | Some st =>
      match reservation st with
      | None => header (generation st) 0
      | Some r =>
          let report_key := if is_all_registrants (rtype r) then 0 else rkey r in
          header (generation st) 16 ++ u64_be report_key ++ [0; 0; 0; 0] ++ [0]
            ++ [as_u8 (rtype r)] ++ [0; 0]
      end
  end.

Definition render_report_capabilities (ptpl_capable ptpl_active : bool) : list Z :=
  [0x00; 0x08; if ptpl_capable then 0x01 else 0x00;
   Z.lor 0x80 (if ptpl_active then 0x01 else 0x00); 0xEA; 0x01; 0; 0].

(** [while name.len() % 4 != 0 { name.push(0) }]: at most three rounds. *)
Fixpoint pad4 (fuel : nat) (name : list Z) : list Z :=
  match fuel with
  | O => name
  | S fuel => if bool_decide (Nat.modulo (length name) 4 = 0)%nat then name
              else pad4 fuel (name ++ [0])
  end.

Definition iscsi_transport_id (iqn : option (list Z)) : list Z :=
  let name := pad4 3 (default [] iqn ++ [0]) in
  [0x05; 0x00] ++ u16_be (Z.of_nat (length name) mod 65536) ++ name.

Definition full_status_descriptor (key : Z) (is_holder : bool)
    (res_type : option ReservationType) (iqn : option (list Z)) : list Z :=
  let transport_id := iscsi_transport_id iqn in
  u64_be key ++ [0; 0; 0; 0] ++ [if is_holder then 0x01 else 0x00]
    ++ [if is_holder then default 0 (as_u8 <$> res_type) else 0]
    ++ [0; 0; 0; 0] ++ [0; 0]
    ++ u32_be (wrap32 (Z.of_nat (length transport_id))) ++ transport_id.

Definition descriptor_of (st : LunState) (e : RegistrantId * Z) : list Z :=
  let holder_key := holder <$> reservation st in
  let res_type := rtype <$> reservation st in
  let is_holder := bool_decide (holder_key = Some e.1)
    || match res_type with Some t => is_all_registrants t | None => false end in
  let iqn := match e.1 with Iscsi iqn _ => iqn | NvmeHost _ => None end in
  full_status_descriptor e.2 is_holder res_type iqn.

Definition render_read_full_status (state : option LunState) : list Z :=
  match state with
  | None => header 0 0
  | Some st =>
      let descs := flat_map (descriptor_of st) (registrations st) in
      header (generation st) (wrap32 (Z.of_nat (length descs))) ++ descs
  end.

(** ** A host-side reader of the parameter data *)

Definition read_header (body : list Z) : Z * Z := (be_val (sl 0 4 body), be_val (sl 4 4 body)).

Fixpoint read_key_list (n : nat) (l : list Z) : list Z :=
  match n with
  | O => []
  | S n => be_val (take 8 l) :: read_key_list n (drop 8 l)
  end.

Definition read_keys (body : list Z) : Z * list Z :=
  let '(gen, len) := read_header body in
  (gen, read_key_list (Z.to_nat (len / 8)) (drop 8 body)).

(** One full-status descriptor as a host decodes it: key, R_HOLDER bit,
    type byte, and the bytes of the TransportID. *)
Record FullStatus : Type := mkFullStatus {
  fs_key : Z;
  fs_holder : bool;
  fs_type : Z;
  fs_transport : list Z;
}.

Fixpoint read_descriptors (fuel : nat) (l : list Z) : list FullStatus :=
  match fuel with
  | O => []
  | S fuel =>
      match l with
      | [] => []
      | _ =>
          let tid_len := Z.to_nat (be_val (sl 20 4 l)) in
          mkFullStatus (be_val (sl 0 8 l)) (Z.testbit (at_ l 12) 0) (at_ l 13)
            (sl 24 tid_len l) :: read_descriptors fuel (drop (24 + tid_len) l)
      end
  end.

Definition read_full_status (body : list Z) : Z * list FullStatus :=
  let '(gen, len) := read_header body in
  let descs := take (Z.to_nat len) (drop 8 body) in
  (gen, read_descriptors (length descs) descs).

(** ** Lemmas *)

Lemma length_header g n : length (header g n) = 8%nat.
Proof. unfold header. by autorewrite with thur_rw. Qed.

Lemma read_header_render g n rest :
  in_u32 g -> in_u32 n -> read_header (header g n ++ rest) = (g, n).
Proof.
  intros Hg Hn. unfold read_header, header. rewrite <- app_assoc. f_equal.
  - sl_walk. by apply u32_be_val.
  - sl_walk. by apply u32_be_val.
Qed.

Lemma drop_header g n rest : drop 8 (header g n ++ rest) = rest.
Proof. rewrite drop_app_ge by (rewrite length_header; lia). by rewrite length_header, drop_0. Qed.

Lemma read_key_list_render (m : btree RegistrantId Z) :
  Forall (fun e => in_u64 e.2) m ->
  read_key_list (length m) (flat_map (fun e => u64_be e.2) m) = map snd m.
Proof.
  induction 1 as [|[id k] m Hk Hm IH]; cbn [length flat_map read_key_list map]; [done|].
  rewrite take_app_length', drop_app_length' by (by rewrite length_u64_be).
  rewrite IH. f_equal. by apply u64_be_val.
Qed.

Lemma pad4_stop fuel name : Nat.modulo (length name) 4 = 0%nat -> pad4 fuel name = name.
Proof. intros H. destruct fuel; cbn [pad4]; [done|]. by rewrite bool_decide_eq_true_2. Qed.

Lemma pad4_step fuel name :
  Nat.modulo (length name) 4 <> 0%nat -> pad4 (S fuel) name = pad4 fuel (name ++ [0]).
Proof. intros H. cbn [pad4]. by rewrite bool_decide_eq_false_2. Qed.

#[local] Ltac p4 :=
  rewrite ?length_app; cbn [length]; rewrite <- ?Nat.add_assoc; cbn [Nat.add];
  match goal with
  | E : (length ?n mod 4)%nat = _, Hs : (forall k, _ -> _ = _), Hz : (forall k, _ -> _ = 0%nat) |- _ =>
      first [rewrite E; lia|rewrite Hs by lia; lia|apply Hz; lia]
  end.

(** Three rounds are always enough to reach a multiple of four. *)
Lemma pad4_spec name :
  exists n, (n <= 3)%nat /\ pad4 3 name = name ++ replicate n 0 /\
    Nat.modulo (length name + n) 4 = 0%nat.
Proof.
  assert (Hb : (length name mod 4 < 4)%nat) by (apply Nat.mod_upper_bound; lia).
  assert (Hs : forall k, (length name mod 4 + k < 4)%nat ->
    ((length name + k) mod 4 = length name mod 4 + k)%nat).
  { intros k Hk. rewrite <- Nat.Div0.add_mod_idemp_l. by apply Nat.mod_small. }
  assert (Hz : forall k, (length name mod 4 + k = 4)%nat -> ((length name + k) mod 4 = 0)%nat).
  { intros k Hk. rewrite <- Nat.Div0.add_mod_idemp_l. by rewrite Hk. }
  destruct (length name mod 4)%nat as [|[|[|[|r]]]] eqn:E; try lia.
  - exists 0%nat. rewrite pad4_stop by done. rewrite Nat.add_0_r. cbn [replicate].
    rewrite app_nil_r. split; [lia|]. by split.
  - exists 3%nat. rewrite 3!pad4_step by p4. cbn [pad4]. rewrite <- !app_assoc.
    split; [lia|]. split; [done|p4].
  - exists 2%nat. rewrite 2!pad4_step, pad4_stop by p4. rewrite <- !app_assoc.
    split; [lia|]. split; [done|p4].
  - exists 1%nat. rewrite pad4_step, pad4_stop by p4.
    split; [lia|]. split; [done|p4].
Qed.

Lemma at_skip k i l1 l2 : length l1 = k -> (k <= i)%nat -> at_ (l1 ++ l2) i = at_ l2 (i - k).
Proof. intros <- ?. unfold at_. by rewrite lookup_app_r. Qed.

(** ** Round trips *)

(** The list length a [u32] ADDITIONAL LENGTH can carry. *)
Definition body_fits (l : list Z) : Prop := Z.of_nat (length l) <= u32_max.

Lemma length_flat_keys (m : btree RegistrantId Z) :
  length (flat_map (fun e => u64_be e.2) m) = (length m * 8)%nat.
Proof.
  induction m as [|e m IH]; simpl; [done|]. rewrite length_app, length_u64_be, IH. lia.
Qed.

Lemma wrap32_small z : in_u32 z -> wrap32 z = z.
Proof. unfold wrap32, in_u32, u32_max. intros. apply Z.mod_small. lia. Qed.

(** READ KEYS: a host decoding the response recovers PR_GENERATION and
    every registered key, in the table's order. *)
Theorem read_keys_roundtrip st :
  in_u32 (generation st) -> Forall (fun e => in_u64 e.2) (registrations st) ->
  8 * Z.of_nat (length (registrations st)) <= u32_max ->
  read_keys (render_read_keys (Some st)) = (generation st, map snd (registrations st)).
Proof.
  intros Hg Hk Hn. unfold read_keys, render_read_keys. cbv zeta.
  rewrite (wrap32_small (Z.of_nat _)) by (unfold in_u32; lia).
  rewrite wrap32_small by (unfold in_u32; lia).
  rewrite read_header_render by (try done; unfold in_u32; lia).
  rewrite drop_header, Z.div_mul, Nat2Z.id by lia. by rewrite read_key_list_render.
Qed.

Definition render_sample : LunState :=
  mkLun (bt_insert (NvmeHost (replicate 16 1)) 7
          (bt_insert (Iscsi (Some [105; 113; 110]) [0; 0; 0; 0; 0; 1]) 5 []))
    (Some (mkReservation (NvmeHost (replicate 16 1)) 7 WriteExclusive)) 3 false.

Lemma read_keys_roundtrip_witness : read_keys (render_read_keys (Some render_sample)) = (3, [5; 7]).
Proof.
  apply (read_keys_roundtrip render_sample).
  - unfold in_u32, u32_max. simpl. lia.
  - repeat constructor; unfold u64_max; simpl; lia.
  - vm_compute. discriminate.
Defined.

(** What a descriptor must say of one registration. *)
Definition status_of (st : LunState) (e : RegistrantId * Z) : FullStatus :=
  let held := match reservation st with
    | Some r => bool_decide (holder r = e.1) || is_all_registrants (rtype r)
    | None => false
    end in
  mkFullStatus e.2 held
    (if held then match reservation st with Some r => as_u8 (rtype r) | None => 0 end else 0)
    (iscsi_transport_id match e.1 with Iscsi iqn _ => iqn | NvmeHost _ => None end).

Lemma read_descriptor_step fuel key h ty iqn rest :
  in_u64 key -> in_u32 (Z.of_nat (length (iscsi_transport_id iqn))) ->
  read_descriptors (S fuel) (full_status_descriptor key h ty iqn ++ rest) =
    mkFullStatus key h (if h then default 0 (as_u8 <$> ty) else 0) (iscsi_transport_id iqn)
      :: read_descriptors fuel rest.
Proof.
  intros Hk Hl. unfold full_status_descriptor. cbv zeta. rewrite wrap32_small by done.
  generalize dependent (iscsi_transport_id iqn). intros tid Hl. rewrite <- !app_assoc.
  set (D := u64_be key ++ _).
  assert (HD : D <> []) by (unfold D; intros E; apply (f_equal length) in E;
    rewrite length_app, length_u64_be in E; done).
  cbn [read_descriptors]. destruct D as [|x D'] eqn:ED; [done|]. rewrite <- ED. clear x D' ED HD.
  assert (E1 : be_val (sl 20 4 D) = Z.of_nat (length tid)).
  { unfold D. sl_walk. by apply u32_be_val. }
  assert (E2 : at_ D 12 = if h then 1 else 0).
  { unfold D. rewrite (at_skip 8) by (try apply length_u64_be; lia). done. }
  assert (E3 : at_ D 13 = if h then default 0 (as_u8 <$> ty) else 0).
  { unfold D. rewrite (at_skip 8) by (try apply length_u64_be; lia). done. }
  rewrite E1, E2, E3, Nat2Z.id. f_equal; [f_equal|].
  - unfold D. sl_walk. by apply u64_be_val.
  - by destruct h.
  - unfold D. sl_walk. done.
  - f_equal. unfold D. rewrite !app_assoc. rewrite drop_app_ge; autorewrite with thur_rw; simpl; [|lia].
    by rewrite Nat.sub_diag.
Qed.

Lemma render_length_descriptor key h ty iqn :
  length (full_status_descriptor key h ty iqn) = (24 + length (iscsi_transport_id iqn))%nat.
Proof.
  unfold full_status_descriptor. cbv zeta. rewrite !length_app, length_u64_be, length_u32_be.
  cbn [length]. lia.
Qed.

Lemma read_descriptors_render st fuel (m : btree RegistrantId Z) :
  Forall (fun e => in_u64 e.2) m -> body_fits (flat_map (descriptor_of st) m) ->
  (length m <= fuel)%nat ->
  read_descriptors fuel (flat_map (descriptor_of st) m) = map (status_of st) m.
Proof.
  revert fuel. induction m as [|e m IH]; intros fuel Hk Hfit Hf; [by destruct fuel|].
  inversion_clear Hk as [|? ? Hk1 Hk2]. unfold body_fits in Hfit. cbn [flat_map map length] in *.
  rewrite length_app in Hfit. destruct fuel as [|fuel]; [lia|].
  unfold descriptor_of at 1. cbv zeta. rewrite read_descriptor_step; [|done|].
  - rewrite IH by (try done; unfold body_fits; lia). f_equal. unfold status_of.
    destruct (reservation st) as [r|]; simpl; [|done].
    destruct (is_all_registrants (rtype r)); rewrite ?orb_true_r, ?orb_false_r; [done|].
    by rewrite (bool_decide_ext (Some (holder r) = Some e.1) (holder r = e.1))
      by (split; [by intros [= ->]|by intros ->]).
  - unfold descriptor_of in Hfit. cbv zeta in Hfit. rewrite render_length_descriptor in Hfit.
    unfold in_u32. lia.
Qed.

Lemma length_descriptors st (m : btree RegistrantId Z) :
  (length m <= length (flat_map (descriptor_of st) m))%nat.
Proof.
  induction m as [|e m IH]; simpl; [done|]. rewrite length_app.
  unfold descriptor_of at 1. cbv zeta. rewrite render_length_descriptor. lia.
Qed.

(** C35: READ FULL STATUS: a host decoding the response recovers, for every
    registration in order, its key, whether it holds the reservation (every
    registrant of an All-Registrants reservation does), the reservation type
    it holds, and its TransportID. *)
Theorem read_full_status_roundtrip st :
  in_u32 (generation st) -> Forall (fun e => in_u64 e.2) (registrations st) ->
  body_fits (flat_map (descriptor_of st) (registrations st)) ->
  read_full_status (render_read_full_status (Some st)) =
    (generation st, map (status_of st) (registrations st)).
Proof.
  intros Hg Hk Hfit. unfold read_full_status, render_read_full_status. cbv zeta.
  unfold body_fits in Hfit. rewrite wrap32_small by (unfold in_u32; lia).
  rewrite read_header_render by (try done; unfold in_u32; lia).
  rewrite drop_header, Nat2Z.id, take_ge by done.
  by rewrite read_descriptors_render by (try done; apply length_descriptors).
Qed.

Lemma read_full_status_roundtrip_witness :
  read_full_status (render_read_full_status (Some render_sample)) =
    (3, map (status_of render_sample) (registrations render_sample)).
Proof.
  apply (read_full_status_roundtrip render_sample).
  - unfold in_u32, u32_max. simpl. lia.
  - repeat constructor; unfold u64_max; simpl; lia.
  - vm_compute. discriminate.
Defined.

(** Every TransportID is four header bytes and a NUL-terminated name
    padded with zeroes to a multiple of four, whose length its ADDITIONAL
    LENGTH field carries. *)
Theorem transport_id_shape iqn :
  Z.of_nat (length (default [] iqn)) <= 65531 ->
  exists n, (n <= 3)%nat /\
    let name := default [] iqn ++ [0] ++ replicate n 0 in
    iscsi_transport_id iqn = [0x05; 0x00] ++ u16_be (Z.of_nat (length name)) ++ name /\
    be_val (sl 2 2 (iscsi_transport_id iqn)) = Z.of_nat (length name) /\
    Nat.modulo (length name) 4 = 0%nat.
Proof.
  intros Hl. unfold iscsi_transport_id. cbv zeta.
  destruct (pad4_spec (default [] iqn ++ [0])) as (n & Hn & Hp & Hm).
  exists n. rewrite Hp, <- app_assoc. autorewrite with thur_rw in *. cbn [length] in *.
  rewrite Z.mod_small by lia. split; [lia|]. split; [done|]. split.
  - sl_walk. apply u16_be_val. unfold in_u16, u16_max. lia.
  - by rewrite Nat.add_assoc.
Qed.

Lemma transport_id_shape_witness :
  exists n, (n <= 3)%nat /\ iscsi_transport_id (Some [105; 113; 110]) =
    [0x05; 0x00] ++ u16_be (Z.of_nat (4 + n)) ++ [105; 113; 110] ++ [0] ++ replicate n 0.
Proof.
  destruct (transport_id_shape (Some [105; 113; 110])) as (n & Hn & H & _).
  - simpl. lia.
  - exists n. split; [exact Hn|]. rewrite H. simpl. by rewrite length_replicate.
Defined.

(** REPORT CAPABILITIES advertises in its TYPE_MASK exactly the type codes
    RESERVE accepts: bit [v] of the two mask bytes is set iff [v] decodes to
    a reservation type. *)
Theorem capabilities_mask_exact cap act v :
  0 <= v < 16 ->
  let mask := le_val (sl 4 2 (render_report_capabilities cap act)) in
  Z.testbit mask v = bool_decide (is_Some (from_u8 v)) /\
  (forall t, from_u8 v = Some t -> type_mask_bit t = Z.shiftl 1 v).
Proof.
  intros Hv. assert (Hmask : le_val (sl 4 2 (render_report_capabilities cap act)) = 490) by done.
  cbv zeta. rewrite Hmask. split.
  - assert (H : Forall (fun v => Z.testbit 490 v = bool_decide (is_Some (from_u8 v))) (seqZ 0 16)).
    { repeat constructor; done. }
    rewrite Forall_forall in H. apply H, elem_of_seqZ. lia.
  - intros t Ht. unfold type_mask_bit. by rewrite (from_u8_Some v t).
Qed.

Lemma capabilities_mask_exact_witness :
  Z.testbit (le_val (sl 4 2 (render_report_capabilities true false))) 8 = true.
Proof.
  destruct (capabilities_mask_exact true false 8 ltac:(lia)) as [H _]. exact H.
Defined.
