(* ===== verification/ReservationManager.v ===== *)
(** * The reservation manager ([scsi/spc/src/reservations.rs])

    [ReservationManager] around the per-LU handlers: the per-LUN table, the
    lock-free [any_reservation] flag, [mutate] with its persist-before-ack
    protocol and notification fan-out, [purge_lun], the PRIN / PROUT entry
    points, and the power-loss file (its document type, [load_file] and the
    temp-file-and-rename [persist_to_disk]).

    [mutate] and [purge_lun] release the table lock before they write the
    file, so each is split where the lock is released: [mutate_apply] /
    [mutate_finish] and [purge_apply] / [purge_finish].  [mutate_lock] admits
    one mutation at a time, which is the [inflight] slot of a [Config]; data
    path checks may run between the two halves. *)

From S2P Require Import Prelude BTreeMap Bytes Pr Reservations ReservationRender.

Local Open Scope Z_scope.

(** ** Entity resolver *)

Record EntityResolver : Type := mkResolver {
  uuid_for_lun : Z -> option (list Z);
  lun_for_uuid : list Z -> option Z;
}.

(** What the manager relies on: a live LUN's UUID resolves back to it. *)
Class ResolverLaws (r : EntityResolver) : Prop :=
  resolver_roundtrip : forall lun uuid,
    in_u64 lun -> uuid_for_lun r lun = Some uuid -> lun_for_uuid r uuid = Some lun.

Definition LunIdentity : EntityResolver := {|
  uuid_for_lun := fun lun => Some (replicate 8 0 ++ u64_be lun);
  lun_for_uuid := fun uuid =>
    if bool_decide (sl 0 8 uuid = replicate 8 0) then Some (be_val (sl 8 8 uuid)) else None;
|}.

(** ** The power-loss file *)

Definition PERSIST_VERSION : Z := 1.

Record PersistedReg : Type := mkPReg { pr_id : RegistrantId; pr_key : Z }.

Record PersistedReservation : Type := mkPRes {
  pres_holder : RegistrantId;
  pres_key : Z;
  pres_type_byte : Z;
}.

Record PersistedVolume : Type := mkPVol {
  pv_uuid : list Z;
  pv_aptpl : bool;
  pv_generation : Z;
  pv_registrations : list PersistedReg;
  pv_reservation : option PersistedReservation;
}.

Record PersistedFile : Type := mkPFile { pf_version : Z; pf_volumes : list PersistedVolume }.

Definition from_state (uuid : list Z) (state : LunState) : PersistedVolume :=
  mkPVol uuid (aptpl state) (generation state)
    (map (fun e => mkPReg e.1 e.2) (registrations state))
    ((fun r => mkPRes (holder r) (rkey r) (as_u8 (rtype r))) <$> reservation state).

Definition into_lun_state (v : PersistedVolume) : LunState :=
  mkLun (bt_extend [] (map (fun r => (pr_id r, pr_key r)) (pv_registrations v)))
    (pv_reservation v ≫= fun r =>
       (fun t => mkReservation (pres_holder r) (pres_key r) t) <$> from_u8 (pres_type_byte r))
    (pv_generation v) (pv_aptpl v).

(** The document [persist_to_disk] serialises. *)
Definition persisted_file (res : EntityResolver) (m : btree Z LunState) : PersistedFile :=
  mkPFile PERSIST_VERSION
    (omap (fun e => (fun uuid => from_state uuid e.2) <$> uuid_for_lun res e.1)
      (List.filter (fun e => persist_eligible e.2) m)).

(** ** Manager state *)

Record ReservationManager : Type := mkMgr {
  by_lun : btree Z LunState;
  any_reservation : bool;
  persist : option EntityResolver;
  observers : list Z;
}.

Definition new : ReservationManager := mkMgr [] false None [].
Definition with_persistence (res : EntityResolver) : ReservationManager :=
  mkMgr [] false (Some res) [].

Definition register_observer (mgr : ReservationManager) (o : Z) : ReservationManager :=
  mkMgr (by_lun mgr) (any_reservation mgr) (persist mgr) (observers mgr ++ [o]).

Definition ptpl_capable (mgr : ReservationManager) : bool :=
  match persist mgr with Some _ => true | None => false end.

Definition has_reservation (st : LunState) : bool :=
  match reservation st with Some _ => true | None => false end.

Definition any_held (m : btree Z LunState) : bool := existsb (fun e => has_reservation e.2) m.

(** The table update of a critical section, with the flag recomputed before
    the lock is released ([refresh_any_reservation]). *)
Definition refresh_any_reservation (mgr : ReservationManager) (m : btree Z LunState) :
    ReservationManager :=
  mkMgr m (any_held m) (persist mgr) (observers mgr).

Definition entry_eligible (m : btree Z LunState) (lun : Z) : bool :=
  match bt_get lun m with Some st => persist_eligible st | None => false end.

(** ** Data-path admission *)

Definition allow_read (mgr : ReservationManager) (lun : Z) (nexus : RegistrantId) : bool :=
  if negb (any_reservation mgr) then true
  else match bt_get lun (by_lun mgr) with
    | None => true
    | Some state => lu_allow_read state nexus
    end.

Definition allow_write (mgr : ReservationManager) (lun : Z) (nexus : RegistrantId) : bool :=
  if negb (any_reservation mgr) then true
  else match bt_get lun (by_lun mgr) with
    | None => true
    | Some state => lu_allow_write state nexus
    end.

Definition snapshot (mgr : ReservationManager) (lun : Z) : ReservationSnapshot :=
  snapshot_of (bt_get lun (by_lun mgr)).

(** ** PERSISTENT RESERVE IN *)

Inductive PrInOutcome : Type :=
  | PrInGood (body : list Z)
  | PrInInvalidFieldInCdb
  | PrInLuNotSupported.

Definition prin (mgr : ReservationManager) (lun service_action : Z) (lun_present : bool) :
    PrInOutcome :=
  if negb lun_present then PrInLuNotSupported
  else
    let state := bt_get lun (by_lun mgr) in
    if service_action =? 0x00 then PrInGood (render_read_keys state)
    else if service_action =? 0x01 then PrInGood (render_read_reservation state)
    else if service_action =? 0x02 then
      PrInGood (render_report_capabilities (ptpl_capable mgr)
        match state with Some s => aptpl s | None => false end)
    else if service_action =? 0x03 then PrInGood (render_read_full_status state)
    else PrInInvalidFieldInCdb.

(** ** [mutate]: the critical section *)

(** What [mutate] carries from the critical section to its second half. *)
Record Pending : Type := mkPending {
  p_lun : Z;
  p_op : PrOp;
  p_prior : option LunState;
  p_snapshot : option (btree Z LunState);
  p_observers : list Z;
  p_pre : ReservationSnapshot;
  p_post : ReservationSnapshot;
}.

Definition mutate_apply (mgr : ReservationManager) (lun : Z) (op : PrOp) :
    ReservationManager * (PrOutOutcome + Pending) :=
  let m := by_lun mgr in
  let was_eligible := entry_eligible m lun in
  let prior := bt_get lun m in
  let '(st, outcome) := op_handler op (default lun_default prior) in
  let m' := bt_insert lun st m in
  if bool_decide (outcome <> Good)
  then (mkMgr m' (any_reservation mgr) (persist mgr) (observers mgr), inl outcome)
  else
    let mgr' := refresh_any_reservation mgr m' in
    let now_eligible := entry_eligible m' lun in
    let persist_snapshot :=
      if ptpl_capable mgr && (was_eligible || now_eligible) then Some m' else None in
    (mgr', inr (mkPending lun op prior persist_snapshot (observers mgr)
                  (snapshot_of prior) (snapshot_of (bt_get lun m')))).

(** ** The file system under the persistence file *)

Section disk.
(** The serialised form of a document and the JSON codec
    ([serde_json::to_writer] / [from_slice] on the derived types). *)
Context {doc : Type} (to_json : PersistedFile -> doc) (from_json : doc -> option PersistedFile)
  (empty_doc : doc).

(** The two directory entries: [reservations.json] and its temp file. *)
Record Disk : Type := mkDisk { target : option doc; tmp : option doc }.

Inductive IoStep : Type := CreateTmp | WriteTmp | SyncTmp | ChmodTmp | RenameTmp.

Definition persist_steps : list IoStep := [CreateTmp; WriteTmp; SyncTmp; ChmodTmp; RenameTmp].

Definition io_step (d : doc) (disk : Disk) (s : IoStep) : Disk :=
  match s with
  | CreateTmp => mkDisk (target disk) (Some empty_doc)
  | WriteTmp => mkDisk (target disk) (Some d)
  | SyncTmp | ChmodTmp => disk
  | RenameTmp => mkDisk (tmp disk) None
  end.

(** Where an I/O sequence stops: step [f_step] fails (or the process dies
    there), leaving [f_torn] in the temp file if it was being written. *)
Record Fault : Type := mkFault { f_step : nat; f_torn : doc }.

Definition io_run (d : doc) (fault : option Fault) (disk : Disk) : Disk * bool :=
  match fault with
  | Some f =>
      if bool_decide (f_step f < length persist_steps)%nat then
        let disk' := fold_left (io_step d) (take (f_step f) persist_steps) disk in
        (match persist_steps !! f_step f with
         | Some WriteTmp => mkDisk (target disk') (Some (f_torn f))
         | _ => disk'
         end, false)
      else (fold_left (io_step d) persist_steps disk, true)
  | None => (fold_left (io_step d) persist_steps disk, true)
  end.

(** The parent-directory fsync after the rename is best-effort: its failure
    is ignored, so a fault past the last step is a success. *)
Definition persist_to_disk (m : btree Z LunState) (res : EntityResolver) (fault : option Fault)
    (disk : Disk) : Disk * bool :=
  io_run (to_json (persisted_file res m)) fault disk.

(** ** [mutate]: after the lock is released *)

Definition restore (m : btree Z LunState) (lun : Z) (prior : option LunState) : btree Z LunState :=
  match prior with
  | Some state => bt_insert lun state m
  | None => bt_remove lun m
  end.

Definition Notification : Type := Z * list ReservationChange.

Definition notify (p : Pending) : list Notification :=
  let changes := diff_reservation_changes (op_action (p_op p)) (p_lun p) (op_issuer (p_op p))
                   (p_pre p) (p_post p) in
  match changes with
  | [] => []
  | _ => map (fun o => (o, changes)) (p_observers p)
  end.

Definition mutate_finish (mgr : ReservationManager) (p : Pending) (fault : option Fault)
    (disk : Disk) : ReservationManager * Disk * PrOutOutcome * list Notification :=
  match p_snapshot p, persist mgr with
  | Some snap, Some res =>
      let '(disk', ok) := persist_to_disk snap res fault disk in
      if ok then (mgr, disk', Good, notify p)
      else (refresh_any_reservation mgr (restore (by_lun mgr) (p_lun p) (p_prior p)),
            disk', PersistFailed, [])
  | _, _ => (mgr, disk, Good, notify p)
  end.

Definition mutate (mgr : ReservationManager) (lun : Z) (op : PrOp) (fault : option Fault)
    (disk : Disk) : ReservationManager * Disk * PrOutOutcome * list Notification :=
  match mutate_apply mgr lun op with
  | (mgr', inl outcome) => (mgr', disk, outcome, [])
  | (mgr', inr p) => mutate_finish mgr' p fault disk
  end.

(** ** [purge_lun] *)

Definition purge_apply (mgr : ReservationManager) (lun : Z) :
    ReservationManager * option (btree Z LunState) :=
  match bt_get lun (by_lun mgr) with
  | None => (mgr, None)
  | Some _ =>
      let m := bt_remove lun (by_lun mgr) in
      (refresh_any_reservation mgr m, if ptpl_capable mgr then Some m else None)
  end.

Definition purge_finish (mgr : ReservationManager) (snap : btree Z LunState)
    (fault : option Fault) (disk : Disk) : Disk :=
  match persist mgr with
  | Some res => (persist_to_disk snap res fault disk).1
  | None => disk
  end.

Definition purge_lun (mgr : ReservationManager) (lun : Z) (fault : option Fault) (disk : Disk) :
    ReservationManager * Disk :=
  match purge_apply mgr lun with
  | (mgr', Some snap) => (mgr', purge_finish mgr' snap fault disk)
  | (mgr', None) => (mgr', disk)
  end.

(** ** Boot *)

Definition load_volumes (res : EntityResolver) (vols : list PersistedVolume) :
    btree Z LunState :=
  fold_left (fun m v =>
    match lun_for_uuid res (pv_uuid v) with
    | Some lun => bt_insert lun (into_lun_state v) m
    | None => m
    end) vols [].

(** [fs_read] is the outcome of reading the file: absent, unreadable, or
    its bytes. *)
Inductive ReadOutcome : Type := NotFound | ReadError | ReadBytes (d : doc).

Definition read_target (disk : Disk) : ReadOutcome :=
  match target disk with Some d => ReadBytes d | None => NotFound end.

Definition load_file (r : ReadOutcome) (res : EntityResolver) : btree Z LunState :=
  match r with
  | NotFound | ReadError => []
  | ReadBytes d =>
      match from_json d with
      | None => []
      | Some file =>
          if negb (pf_version file =? PERSIST_VERSION) then []
          else load_volumes res (pf_volumes file)
      end
  end.

Definition load_from (r : ReadOutcome) (res : EntityResolver) : ReservationManager :=
  let m := load_file r res in mkMgr m (any_held m) (Some res) [].

End disk.

Arguments Disk doc : clear implicits.
Arguments Fault doc : clear implicits.
Arguments ReadOutcome doc : clear implicits.

(** ** PERSISTENT RESERVE OUT *)

(** The argument checks of [prout]: the outcome it rejects with, or the
    semantic operation it dispatches to. *)
Definition prout_decode (capable : bool) (service_action scope type_byte : Z)
    (param_list : list Z) (param_list_len : Z) (nexus : RegistrantId) (lun_present : bool) :
    PrOutOutcome + PrOp :=
  if negb lun_present then inl LuNotSupported
  else if negb (scope =? 0x00) && negb (service_action =? 0x00) && negb (service_action =? 0x06)
  then inl InvalidFieldInCdb
  else if negb (param_list_len =? 24) || bool_decide (length param_list < 24)%nat
  then inl InvalidFieldInParameterList
  else
    let p := take 24 param_list in
    let reservation_key := be_val (sl 0 8 p) in
    let service_action_key := be_val (sl 8 8 p) in
    let aptpl := negb (Z.land (at_ p 20) 0x01 =? 0) in
    let spec_i_pt := negb (Z.land (at_ p 20) 0x08 =? 0) in
    let all_tg_pt := negb (Z.land (at_ p 20) 0x04 =? 0) in
    if spec_i_pt || all_tg_pt then inl InvalidFieldInParameterList
    else if aptpl && negb capable then inl InvalidFieldInParameterList
    else if service_action =? 0x00 then
      inr (OpRegister nexus reservation_key service_action_key false (Some aptpl))
    else if service_action =? 0x01 then inr (OpReserve nexus reservation_key type_byte)
    else if service_action =? 0x02 then inr (OpRelease nexus reservation_key type_byte)
    else if service_action =? 0x03 then inr (OpClear nexus reservation_key)
    else if (service_action =? 0x04) || (service_action =? 0x05) then
      inr (OpPreempt nexus reservation_key service_action_key type_byte)
    else if service_action =? 0x06 then
      inr (OpRegister nexus reservation_key service_action_key true (Some aptpl))
    else inl InvalidFieldInCdb.

Section prout.
Context {doc : Type} (to_json : PersistedFile -> doc) (empty_doc : doc).

Definition prout (mgr : ReservationManager) (lun service_action scope type_byte : Z)
    (param_list : list Z) (param_list_len : Z) (nexus : RegistrantId) (lun_present : bool)
    (fault : option (Fault doc)) (disk : Disk doc) :
    ReservationManager * Disk doc * PrOutOutcome * list Notification :=
  match prout_decode (ptpl_capable mgr) service_action scope type_byte param_list
          param_list_len nexus lun_present with
  | inl outcome => (mgr, disk, outcome, [])
  | inr op => mutate to_json empty_doc mgr lun op fault disk
  end.

End prout.

(** ** The manager at run time: mutations, writes, crashes and reboots *)

Inductive InFlight : Type :=
  | Idle
  | Mutating (p : Pending)
  | Purging (snap : btree Z LunState).

Record Config (doc : Type) : Type := mkConfig {
  c_mgr : ReservationManager;
  c_disk : Disk doc;
  c_inflight : InFlight;
}.
Arguments mkConfig {doc} c_mgr c_disk c_inflight.
Arguments c_mgr {doc} c.
Arguments c_disk {doc} c.
Arguments c_inflight {doc} c.

Inductive Event (doc : Type) : Type :=
  | EMutate (lun : Z) (op : PrOp)
  | EMutateWrite (fault : option (Fault doc))
  | EPurge (lun : Z)
  | EPurgeWrite (fault : option (Fault doc))
  | EObserve (o : Z)
  | ECrash (fault : Fault doc).
Arguments EMutate {doc} lun op.
Arguments EMutateWrite {doc} fault.
Arguments EPurge {doc} lun.
Arguments EPurgeWrite {doc} fault.
Arguments EObserve {doc} o.
Arguments ECrash {doc} fault.

Section run.
Context {doc : Type} (to_json : PersistedFile -> doc) (from_json : doc -> option PersistedFile)
  (empty_doc : doc) (res : EntityResolver).

(** The snapshot a write in progress is putting on disk. *)
Definition writing (f : InFlight) : option (btree Z LunState) :=
  match f with
  | Idle => None
  | Mutating p => p_snapshot p
  | Purging snap => Some snap
  end.

(** The disk a crash leaves: the write in progress stops at the fault. *)
Definition crash_disk (c : Config doc) (fault : Fault doc) : Disk doc :=
  match writing (c_inflight c) with
  | Some snap => (persist_to_disk to_json empty_doc snap res (Some fault) (c_disk c)).1
  | None => c_disk c
  end.

Definition reboot (disk : Disk doc) : Config doc :=
  mkConfig (load_from from_json (read_target disk) res) disk Idle.

(** One event; [None] when [mutate_lock] keeps it from happening now. *)
Definition exec (e : Event doc) (c : Config doc) : option (Config doc) :=
  match e, c_inflight c with
  | EMutate lun op, Idle =>
      match mutate_apply (c_mgr c) lun op with
      | (mgr', inl _) => Some (mkConfig mgr' (c_disk c) Idle)
      | (mgr', inr p) => Some (mkConfig mgr' (c_disk c) (Mutating p))
      end
  | EMutateWrite fault, Mutating p =>
      let '(mgr', disk', _, _) := mutate_finish to_json empty_doc (c_mgr c) p fault (c_disk c) in
      Some (mkConfig mgr' disk' Idle)
  | EPurge lun, Idle =>
      match purge_apply (c_mgr c) lun with
      | (mgr', Some snap) => Some (mkConfig mgr' (c_disk c) (Purging snap))
      | (mgr', None) => Some (mkConfig mgr' (c_disk c) Idle)
      end
  | EPurgeWrite fault, Purging snap =>
      Some (mkConfig (c_mgr c)
        (purge_finish to_json empty_doc (c_mgr c) snap fault (c_disk c)) Idle)
  | EObserve o, _ => Some (mkConfig (register_observer (c_mgr c) o) (c_disk c) (c_inflight c))
  | ECrash fault, _ => Some (reboot (crash_disk c fault))
  | _, _ => None
  end.

(** Configurations reachable from a first boot by events that satisfy [ok]. *)
Inductive reachable (ok : Event doc -> Prop) : Config doc -> Prop :=
  | reach_boot : reachable ok (reboot (mkDisk None None))
  | reach_step c e c' : reachable ok c -> ok e -> exec e c = Some c' -> reachable ok c'.

End run.
