(* ===== verification/ManagerProofs.v ===== *)
(** * Correctness of the reservation manager

    The lock-free flag agrees with the table at every point a data-path
    check can run; a rejected request is invisible; a failed durable write
    leaves memory and file as they were; and a reboot, at any moment,
    recovers exactly the persist-eligible logical units of the last
    completed mutation or of the one whose write was in progress. *)

From S2P Require Import Prelude BTreeMap Bytes Pr Reservations ReservationProofs.
From S2P Require Import ReservationRender ReservationManager.

Local Open Scope Z_scope.

(** ** The table *)

Definition entry_ok (e : Z * LunState) : Prop := in_u64 e.1 /\ lun_wf e.2.

(** Every key is a [u64] and every LU satisfies its own invariant. *)
Definition table_wf (m : btree Z LunState) : Prop := bt_wf m /\ Forall entry_ok m.

Lemma table_wf_nil : table_wf [].
Proof. split; auto with thur. Qed.

Lemma table_wf_get m lun st : table_wf m -> bt_get lun m = Some st -> lun_wf st.
Proof. intros [_ Hf] Hg. rewrite Forall_forall in Hf. by apply bt_get_In, list_elem_of_In, Hf in Hg as [_ ?]. Qed.

Lemma table_wf_insert m lun st :
  table_wf m -> in_u64 lun -> lun_wf st -> table_wf (bt_insert lun st m).
Proof. intros [? ?] ? ?. split; [auto with thur|]. by apply bt_insert_Forall. Qed.

Lemma table_wf_remove m lun : table_wf m -> table_wf (bt_remove lun m).
Proof. intros [? ?]. split; [auto with thur|]. by apply bt_retain_Forall. Qed.

#[export] Hint Resolve table_wf_nil table_wf_insert table_wf_remove table_wf_get : thur.

Lemma any_held_spec m :
  bt_wf m -> any_held m = true <->
    exists lun st, bt_get lun m = Some st /\ has_reservation st = true.
Proof.
  intros Hm. unfold any_held. rewrite existsb_exists. split.
  - intros ([lun st] & Hin & Hr). exists lun, st. split; [by apply bt_In_get|done].
  - intros (lun & st & Hg & Hr). exists (lun, st). split; [by apply bt_get_In|done].
Qed.

(** An entry for a LUN with default state is as good as no entry. *)
Definition lu_view (m : btree Z LunState) (lun : Z) : LunState :=
  default lun_default (bt_get lun m).

Lemma any_held_view m1 m2 :
  bt_wf m1 -> bt_wf m2 -> (forall lun, lu_view m1 lun = lu_view m2 lun) ->
  any_held m1 = any_held m2.
Proof.
  intros H1 H2 Hv. assert (Hhalf : forall a b : btree Z LunState, bt_wf a -> bt_wf b ->
    (forall lun, lu_view a lun = lu_view b lun) -> any_held a = true -> any_held b = true).
  { clear. intros a b Ha Hb Hv Hh. apply any_held_spec in Hh as (lun & st & Hg & Hr); [|done].
    specialize (Hv lun). unfold lu_view in Hv. rewrite Hg in Hv. simpl in Hv.
    apply any_held_spec; [done|]. destruct (bt_get lun b) as [st'|] eqn:E; simpl in Hv; subst st.
    - by exists lun, st'.
    - done. }
  apply eq_true_iff_eq. split; apply Hhalf; auto.
Qed.

(** ** [mutate]'s critical section *)

Lemma mutate_apply_reject mgr lun op mgr' o :
  mutate_apply mgr lun op = (mgr', inl o) ->
  o <> Good /\
  mgr' = mkMgr (bt_insert lun (lu_view (by_lun mgr) lun) (by_lun mgr)) (any_reservation mgr)
           (persist mgr) (observers mgr).
Proof.
  unfold mutate_apply. cbv zeta. fold (lu_view (by_lun mgr) lun).
  destruct (op_handler op _) as [st o'] eqn:E. case_bool_decide as Ho; [|done].
  intros [= <- <-]. apply handler_error_no_effect_core in E; [|done]. by subst.
Qed.

Lemma mutate_apply_commit mgr lun op mgr' p :
  mutate_apply mgr lun op = (mgr', inr p) ->
  exists st, op_handler op (lu_view (by_lun mgr) lun) = (st, Good) /\
    let m' := bt_insert lun st (by_lun mgr) in
    mgr' = refresh_any_reservation mgr m' /\
    p = mkPending lun op (bt_get lun (by_lun mgr))
          (if ptpl_capable mgr && (entry_eligible (by_lun mgr) lun || persist_eligible st)
           then Some m' else None)
          (observers mgr) (snapshot_of (bt_get lun (by_lun mgr))) (snapshot_of (Some st)).
Proof.
  unfold mutate_apply. cbv zeta. fold (lu_view (by_lun mgr) lun).
  destruct (op_handler op _) as [st o'] eqn:E. case_bool_decide as Ho; [done|].
  subst o'. intros [= <- <-]. exists st. unfold entry_eligible.
  by rewrite bt_get_insert_eq.
Qed.

Lemma restore_insert m lun st :
  bt_wf m -> restore (bt_insert lun st m) lun (bt_get lun m) = m.
Proof.
  intros Hm. unfold restore. destruct (bt_get lun m) eqn:E.
  - by rewrite bt_insert_insert, bt_insert_get.
  - by apply bt_remove_insert.
Qed.

(** ** Observational equality

    Two managers no PRIN, snapshot or data-path check can tell apart: they
    may differ in explicit default entries. *)
Record mgr_equiv (a b : ReservationManager) : Prop := {
  eqv_view : forall lun, lu_view (by_lun a) lun = lu_view (by_lun b) lun;
  eqv_flag : any_reservation a = any_reservation b;
  eqv_persist : persist a = persist b;
  eqv_observers : observers a = observers b;
}.

#[export] Instance mgr_equiv_equivalence : Equivalence mgr_equiv.
Proof.
  split.
  - by intros a.
  - intros a b [H1 H2 H3 H4]. by split.
  - intros a b c [H1 H2 H3 H4] [H1' H2' H3' H4']. split; intros; etrans; eauto.
Qed.

Lemma allow_read_view mgr lun nexus :
  allow_read mgr lun nexus =
    if any_reservation mgr then lu_allow_read (lu_view (by_lun mgr) lun) nexus else true.
Proof. unfold allow_read, lu_view. destruct (any_reservation mgr), (bt_get lun _); done. Qed.

Lemma allow_write_view mgr lun nexus :
  allow_write mgr lun nexus =
    if any_reservation mgr then lu_allow_write (lu_view (by_lun mgr) lun) nexus else true.
Proof. unfold allow_write, lu_view. destruct (any_reservation mgr), (bt_get lun _); done. Qed.

Lemma snapshot_view mgr lun : snapshot mgr lun = snapshot_of (Some (lu_view (by_lun mgr) lun)).
Proof. unfold snapshot, lu_view. by destruct (bt_get lun _). Qed.

Lemma prin_view mgr lun sa present :
  prin mgr lun sa present =
    prin (mkMgr [(lun, lu_view (by_lun mgr) lun)] (any_reservation mgr) (persist mgr) []) lun sa
      present.
Proof.
  unfold prin, lu_view. cbn [by_lun]. rewrite bt_get_cons, ord_eqb_refl. by destruct (bt_get lun _).
Qed.

#[export] Instance allow_read_proper : Proper (mgr_equiv ==> eq ==> eq ==> eq) allow_read.
Proof. intros a b [Hv Hf _ _] l ? <- n ? <-. by rewrite !allow_read_view, Hv, Hf. Qed.

#[export] Instance allow_write_proper : Proper (mgr_equiv ==> eq ==> eq ==> eq) allow_write.
Proof. intros a b [Hv Hf _ _] l ? <- n ? <-. by rewrite !allow_write_view, Hv, Hf. Qed.

#[export] Instance snapshot_proper : Proper (mgr_equiv ==> eq ==> eq) snapshot.
Proof. intros a b [Hv _ _ _] l ? <-. by rewrite !snapshot_view, Hv. Qed.

#[export] Instance prin_proper : Proper (mgr_equiv ==> eq ==> eq ==> eq ==> eq) prin.
Proof.
  intros a b [Hv Hf Hp _] l ? <- sa ? <- pr ? <-. by rewrite (prin_view a), (prin_view b), Hv, Hf, Hp.
Qed.

Lemma reject_equiv mgr lun op mgr' o :
  mutate_apply mgr lun op = (mgr', inl o) -> mgr_equiv mgr' mgr.
Proof.
  intros H. apply mutate_apply_reject in H as [_ ->]. split; try done. simpl.
  intros l. unfold lu_view at 1. destruct (decide (l = lun)) as [->|Hne]; by bt_simpl.
Qed.

(** No handler answers PERSIST FAILED itself. *)
Lemma handler_not_persist_failed op st : (op_handler op st).2 <> PersistFailed.
Proof.
  destruct (op_handler op st) as [st' o] eqn:E. destruct op; simpl in E; open_handler; done.
Qed.

Lemma reject_not_special mgr lun op mgr' o :
  mutate_apply mgr lun op = (mgr', inl o) -> o <> Good /\ o <> PersistFailed.
Proof.
  intros H. split; [by apply mutate_apply_reject in H as [? _]|]. revert H.
  unfold mutate_apply. cbv zeta. destruct (op_handler op _) as [st o'] eqn:E.
  case_bool_decide; [|done]. intros [= _ <-].
  pose proof (handler_not_persist_failed op (default lun_default (bt_get lun (by_lun mgr)))) as Hn.
  by rewrite E in Hn.
Qed.

(** ** The file *)

(** What a reboot is owed of a table: its persist-eligible LUs that have a
    stable identity. *)
Definition durable (res : EntityResolver) (m : btree Z LunState) (lun : Z) : option LunState :=
  match bt_get lun m with
  | Some st => if persist_eligible st then (fun _ => st) <$> uuid_for_lun res lun else None
  | None => None
  end.

Lemma into_from_state uuid st : lun_wf st -> into_lun_state (from_state uuid st) = st.
Proof.
  intros [Hs _ _]. destruct st as [regs r gen ap]. unfold into_lun_state, from_state. simpl in *.
  rewrite map_map. simpl. rewrite (map_ext _ id) by (by intros []). rewrite map_id.
  rewrite bt_extend_self by done. f_equal. destruct r as [[h k t]|]; simpl; [|done].
  by rewrite from_u8_as_u8.
Qed.

Lemma durable_cons res lun st m l :
  bt_wf ((lun, st) :: m) ->
  durable res ((lun, st) :: m) l =
    if ord_eqb l lun then
      if persist_eligible st then (fun _ => st) <$> uuid_for_lun res l else None
    else durable res m l.
Proof. intros Hm. unfold durable at 1. rewrite bt_get_cons. by destruct (ord_eqb l lun). Qed.

Lemma load_fold_get res `{!ResolverLaws res} m acc lun :
  table_wf m ->
  bt_get lun (fold_left (fun m v =>
      match lun_for_uuid res (pv_uuid v) with
      | Some l => bt_insert l (into_lun_state v) m
      | None => m
      end) (pf_volumes (persisted_file res m)) acc) =
    match durable res m lun with Some st => Some st | None => bt_get lun acc end.
Proof.
  unfold persisted_file. cbn [pf_volumes]. revert acc.
  induction m as [|[l st] m IH]; intros acc [Hm Hf]; [done|].
  rewrite durable_cons by done. apply bt_wf_tail_fresh in Hm as [Hm Hfresh].
  inversion_clear Hf as [|? ? [Hl Hst] Hf']. simpl in Hl, Hst.
  assert (Hd : durable res m l = None) by (unfold durable; by rewrite Hfresh).
  simpl List.filter. destruct (persist_eligible st) eqn:Eel; simpl omap.
  - destruct (uuid_for_lun res l) as [u|] eqn:Eu; simpl.
    + rewrite (resolver_roundtrip l u) by done. rewrite into_from_state by done.
      rewrite IH by done. destruct (ord_eqb lun l) eqn:E.
      * apply ord_eqb_eq in E as ->. by rewrite Hd, bt_get_insert_eq, Eu.
      * apply ord_eqb_neq in E. by bt_simpl.
    + rewrite IH by done. destruct (ord_eqb lun l) eqn:E; [|done].
      apply ord_eqb_eq in E as ->. by rewrite Hd, Eu.
  - rewrite IH by done. destruct (ord_eqb lun l) eqn:E; [|done].
    apply ord_eqb_eq in E as ->. by rewrite Hd.
Qed.

Lemma load_volumes_wf res vols : bt_wf (load_volumes res vols).
Proof.
  unfold load_volumes. generalize (@bt_wf_nil Z LunState _). generalize (@nil (Z * LunState)).
  induction vols as [|v vols IH]; intros m Hm; simpl; [done|].
  apply IH. destruct (lun_for_uuid res (pv_uuid v)); auto with thur.
Qed.

Section codec.
Context {doc : Type} (to_json : PersistedFile -> doc) (from_json : doc -> option PersistedFile)
  (empty_doc : doc) (json_roundtrip : forall f, from_json (to_json f) = Some f)
  (res : EntityResolver) `{!ResolverLaws res}.

(** What a reboot would load now. *)
Definition recovered (disk : Disk doc) : btree Z LunState :=
  load_file from_json (read_target disk) res.

Definition says (disk : Disk doc) (m : btree Z LunState) : Prop :=
  forall lun, bt_get lun (recovered disk) = durable res m lun.

(** The file is absent or a complete document of some table. *)
Definition disk_ok (disk : Disk doc) : Prop :=
  target disk = None \/
  exists m, table_wf m /\ target disk = Some (to_json (persisted_file res m)).

Lemma says_written disk m :
  table_wf m -> target disk = Some (to_json (persisted_file res m)) -> says disk m.
Proof.
  intros Hm Ht lun. unfold recovered, read_target. rewrite Ht.
  unfold load_file. rewrite json_roundtrip. change (negb _) with false. cbv iota.
  unfold load_volumes. rewrite load_fold_get by done. by destruct (durable res m lun).
Qed.

Lemma disk_ok_says disk : disk_ok disk -> exists m, table_wf m /\ says disk m.
Proof.
  intros [Ht|(m & Hm & Ht)]; [|by exists m; split; [|apply says_written]].
  exists []. split; [auto with thur|]. intros lun. unfold recovered, read_target. by rewrite Ht.
Qed.

Lemma recovered_wf disk : bt_wf (recovered disk).
Proof.
  unfold recovered, load_file. destruct (read_target disk); [constructor|constructor|].
  destruct (from_json d); [|constructor]. destruct (negb _); [constructor|apply load_volumes_wf].
Qed.

Lemma durable_Some m lun st :
  durable res m lun = Some st ->
  bt_get lun m = Some st /\ persist_eligible st = true /\ is_Some (uuid_for_lun res lun).
Proof.
  unfold durable. destruct (bt_get lun m) as [st'|]; [|done].
  destruct (persist_eligible st') eqn:E; [|done].
  destruct (uuid_for_lun res lun); naive_solver.
Qed.

Lemma recovered_table disk m : table_wf m -> says disk m -> table_wf (recovered disk).
Proof.
  intros [_ Hm] Hs. split; [apply recovered_wf|]. rewrite Forall_forall in *.
  intros [lun st] Hin. apply Hm. apply list_elem_of_In in Hin. apply list_elem_of_In.
  apply bt_In_get in Hin; [|apply recovered_wf]. rewrite Hs in Hin.
  by apply durable_Some in Hin as [?%bt_get_In _].
Qed.

(** A reboot's own table is what the file says. *)
Lemma says_recovered disk m : says disk m -> says disk (recovered disk).
Proof.
  intros Hs lun. unfold durable. rewrite Hs.
  destruct (durable res m lun) as [st|] eqn:E; [|done].
  apply durable_Some in E as (_ & -> & [u ->]). done.
Qed.

Lemma io_run_target d fault disk disk' ok :
  io_run empty_doc d fault disk = (disk', ok) ->
  target disk' = if ok then Some d else target disk.
Proof.
  unfold io_run. destruct fault as [[k torn]|]; simpl; [|by intros [= <- <-]].
  case_bool_decide as Hk; [|by intros [= <- <-]].
  do 5 (destruct k as [|k]; [by intros [= <- <-]|]). lia.
Qed.

Lemma persist_target m fault disk disk' ok :
  persist_to_disk to_json empty_doc m res fault disk = (disk', ok) ->
  target disk' = if ok then Some (to_json (persisted_file res m)) else target disk.
Proof. apply io_run_target. Qed.

Lemma disk_ok_target a b : target a = target b -> disk_ok b -> disk_ok a.
Proof. unfold disk_ok. by intros ->. Qed.

Lemma says_target a b m : target a = target b -> says b m -> says a m.
Proof. unfold says, recovered, read_target. by intros ->. Qed.

Lemma disk_ok_persist m fault disk :
  table_wf m -> disk_ok disk ->
  disk_ok (persist_to_disk to_json empty_doc m res fault disk).1.
Proof.
  intros Hm Hd. destruct (persist_to_disk _ _ _ _ _ _) as [disk' ok] eqn:E.
  apply persist_target in E. destruct ok; simpl; [right; by exists m|].
  by eapply disk_ok_target.
Qed.

End codec.

#[export] Instance LunIdentity_laws : ResolverLaws LunIdentity.
Proof.
  intros lun uuid Hl [= <-]. unfold LunIdentity. cbn [lun_for_uuid].
  rewrite bool_decide_eq_true_2 by (by sl_walk). f_equal. rewrite <- (u64_be_val lun) at 2 by done.
  reflexivity.
Qed.

(** ** Runs *)

Definition event_ok {doc} (e : Event doc) : Prop :=
  match e with
  | EMutate lun op => in_u64 lun /\ op_args_ok op
  | _ => True
  end.

(** [purge_lun] is best-effort; its rewrite succeeds. *)
Definition purge_writes {doc} (e : Event doc) : Prop :=
  event_ok e /\ match e with EPurgeWrite fault => fault = None | _ => True end.

Section runs.
Context {doc : Type} (to_json : PersistedFile -> doc) (from_json : doc -> option PersistedFile)
  (empty_doc : doc) (json_roundtrip : forall f, from_json (to_json f) = Some f)
  (res : EntityResolver) `{!ResolverLaws res}.

Notation says := (says from_json res).
Notation disk_ok := (disk_ok to_json res).
Notation recovered := (recovered from_json res).
Notation exec := (exec to_json from_json empty_doc res).
Notation reachable := (reachable to_json from_json empty_doc res).

(** The table before the mutation in progress. *)
Definition before (c : Config doc) : btree Z LunState :=
  match c_inflight c with
  | Mutating p => restore (by_lun (c_mgr c)) (p_lun p) (p_prior p)
  | _ => by_lun (c_mgr c)
  end.

Record run_inv (c : Config doc) : Prop := {
  ri_table : table_wf (by_lun (c_mgr c));
  ri_before : table_wf (before c);
  ri_flag : any_reservation (c_mgr c) = any_held (by_lun (c_mgr c));
  ri_persist : persist (c_mgr c) = Some res;
  ri_writing : forall snap, writing (c_inflight c) = Some snap -> snap = by_lun (c_mgr c);
  ri_disk : disk_ok (c_disk c);
}.

Lemma run_inv_reboot disk : disk_ok disk -> run_inv (reboot from_json res disk).
Proof.
  intros Hd. destruct (disk_ok_says to_json from_json json_roundtrip res disk Hd) as (m & Hm & Hs).
  assert (table_wf (recovered disk)) by (by eapply recovered_table). by split.
Qed.

Lemma run_inv_crash_disk c fault :
  run_inv c -> disk_ok (crash_disk to_json empty_doc res c fault).
Proof.
  intros [Ht _ _ _ Hw Hd]. unfold crash_disk. destruct (writing (c_inflight c)) eqn:E; [|done].
  rewrite (Hw _ eq_refl). by apply disk_ok_persist.
Qed.

Lemma run_inv_mutate c lun op c' :
  in_u64 lun -> op_args_ok op -> run_inv c -> exec (EMutate lun op) c = Some c' -> run_inv c'.
Proof.
  intros Hl Ha [Ht Hb Hf Hp Hw Hd]. unfold exec. cbn [ReservationManager.exec].
  destruct (c_inflight c) eqn:Ei; [|done|done].
  assert (Hv : lun_wf (lu_view (by_lun (c_mgr c)) lun)).
  { unfold lu_view. destruct (bt_get lun _) eqn:Eg; simpl; eauto with thur. }
  destruct (mutate_apply (c_mgr c) lun op) as [mgr' [o|p]] eqn:E; intros [= <-].
  - pose proof (reject_equiv _ _ _ _ _ E) as [Hview _ _ _].
    apply mutate_apply_reject in E as [_ ->]. simpl in Hview.
    assert (Ht' : table_wf (bt_insert lun (lu_view (by_lun (c_mgr c)) lun) (by_lun (c_mgr c))))
      by auto with thur.
    split; simpl; try done. rewrite Hf. destruct Ht, Ht'. by apply any_held_view.
  - apply mutate_apply_commit in E as (st & Eh & -> & ->).
    assert (Hst : lun_wf st).
    { pose proof (lun_wf_handler op _ Ha Hv) as H. by rewrite Eh in H. }
    split; simpl; try done; auto with thur.
    + unfold before. simpl. rewrite restore_insert; [done|]. apply Ht.
    + intros snap. by destruct (_ && _); intros [= <-].
Qed.

Lemma run_inv_write c fault c' :
  run_inv c -> exec (EMutateWrite fault) c = Some c' -> run_inv c'.
Proof.
  intros [Ht Hb Hf Hp Hw Hd]. unfold exec. cbn [ReservationManager.exec].
  unfold before in Hb. destruct (c_inflight c) as [|p|] eqn:Ei; [done| |done].
  unfold mutate_finish. rewrite Hp. simpl in Hw. destruct (p_snapshot p) as [snap|].
  - pose proof (disk_ok_persist to_json empty_doc res snap fault (c_disk c)) as Hd'.
    rewrite (Hw _ eq_refl) in *. destruct (persist_to_disk _ _ _ _ _ _) as [disk' ok].
    simpl in Hd'. destruct ok; intros [= <-]; split; simpl; auto; intros ?; done.
  - intros [= <-]. by split.
Qed.

Lemma run_inv_purge c lun c' : run_inv c -> exec (EPurge lun) c = Some c' -> run_inv c'.
Proof.
  intros [Ht Hb Hf Hp Hw Hd]. unfold exec. cbn [ReservationManager.exec].
  destruct (c_inflight c) eqn:Ei; [|done|done].
  unfold purge_apply, ptpl_capable. rewrite Hp. destruct (bt_get lun (by_lun (c_mgr c))).
  - intros [= <-]. split; simpl; try done; [by apply table_wf_remove..|].
    by intros snap [= <-].
  - intros [= <-]. by split.
Qed.

Lemma run_inv_exec c e c' : event_ok e -> run_inv c -> exec e c = Some c' -> run_inv c'.
Proof.
  intros He Hi. destruct e as [lun op|fault|lun|fault|o|fault].
  - destruct He. by apply run_inv_mutate.
  - by apply run_inv_write.
  - by apply run_inv_purge.
  - destruct Hi as [Ht Hb Hf Hp Hw Hd]. unfold exec. cbn [ReservationManager.exec].
    destruct (c_inflight c) as [| |snap] eqn:Ei; [done|done|]. intros [= <-].
    split; simpl; try done. unfold purge_finish. rewrite Hp.
    apply disk_ok_persist; [|done]. by rewrite (Hw snap eq_refl).
  - destruct Hi as [Ht Hb Hf Hp Hw Hd]. intros [= <-]. unfold before in Hb. by split.
  - intros [= <-]. by apply run_inv_reboot, run_inv_crash_disk.
Qed.

Lemma run_inv_reachable c : reachable event_ok c -> run_inv c.
Proof.
  induction 1 as [|c e c' _ IH He Hx].
  - apply run_inv_reboot. by left.
  - by eapply run_inv_exec.
Qed.

(** ** Durability *)

Lemma durable_insert_ineligible m lun st l :
  entry_eligible m lun = false -> persist_eligible st = false ->
  durable res (bt_insert lun st m) l = durable res m l.
Proof.
  unfold durable, entry_eligible. intros Hw Hn.
  destruct (decide (l = lun)) as [->|Hne]; bt_simpl; [|done].
  rewrite Hn. destruct (bt_get lun m); [by rewrite Hw|done].
Qed.

Lemma durable_insert_view m lun l :
  durable res (bt_insert lun (lu_view m lun) m) l = durable res m l.
Proof.
  unfold durable, lu_view. destruct (decide (l = lun)) as [->|Hne]; bt_simpl; [|done].
  by destruct (bt_get lun m).
Qed.

Definition dur_inv (c : Config doc) : Prop :=
  match c_inflight c with
  | Idle => says (c_disk c) (by_lun (c_mgr c))
  | Mutating p => says (c_disk c) (before c) /\
      (p_snapshot p = None -> says (c_disk c) (by_lun (c_mgr c)))
  | Purging _ => True
  end.

Lemma dur_inv_reboot disk : disk_ok disk -> dur_inv (reboot from_json res disk).
Proof.
  intros Hd. destruct (disk_ok_says to_json from_json json_roundtrip res disk Hd) as (m & Hm & Hs).
  unfold dur_inv. simpl. by eapply says_recovered.
Qed.

Lemma dur_inv_mutate c lun op c' :
  run_inv c -> dur_inv c -> exec (EMutate lun op) c = Some c' -> dur_inv c'.
Proof.
  intros [[Hwf _] _ _ Hp _ _] Hdur. unfold dur_inv in *. unfold exec. cbn [ReservationManager.exec].
  destruct (c_inflight c) eqn:Ei; [|done|done].
  destruct (mutate_apply (c_mgr c) lun op) as [mgr' [o|p]] eqn:E; intros [= <-]; simpl.
  - apply mutate_apply_reject in E as [_ ->]. simpl. intros l.
    by rewrite durable_insert_view.
  - apply mutate_apply_commit in E as (st & _ & -> & ->). unfold before, ptpl_capable. simpl.
    rewrite restore_insert, Hp by done. split; [done|].
    destruct (entry_eligible _ _ || persist_eligible st) eqn:Eel; [done|].
    apply orb_false_iff in Eel as [Hw Hn]. intros _ l.
    by rewrite durable_insert_ineligible.
Qed.

Lemma dur_inv_write c fault c' :
  run_inv c -> dur_inv c -> exec (EMutateWrite fault) c = Some c' -> dur_inv c'.
Proof.
  intros [Ht _ _ Hp Hw _] Hdur. unfold dur_inv, before in *. unfold exec. cbn [ReservationManager.exec].
  destruct (c_inflight c) as [|p|] eqn:Ei; [done| |done]. destruct Hdur as [Hb Hn].
  unfold mutate_finish. rewrite Hp. simpl in Hw. destruct (p_snapshot p) as [snap|].
  - rewrite (Hw _ eq_refl). destruct (persist_to_disk _ _ _ _ _ _) as [disk' ok] eqn:E.
    apply persist_target in E. destruct ok; intros [= <-]; simpl.
    + by eapply says_written.
    + by eapply says_target.
  - intros [= <-]. by apply Hn.
Qed.

Lemma dur_inv_purge_write c c' :
  run_inv c -> exec (EPurgeWrite None) c = Some c' -> dur_inv c'.
Proof.
  intros [Ht _ _ Hp Hw _]. unfold exec. cbn [ReservationManager.exec].
  destruct (c_inflight c) as [| |snap] eqn:Ei; [done|done|]. intros [= <-].
  unfold dur_inv, purge_finish. simpl. rewrite Hp. rewrite (Hw snap eq_refl).
  by eapply says_written.
Qed.

Lemma dur_inv_reachable c : reachable purge_writes c -> run_inv c /\ dur_inv c.
Proof.
  induction 1 as [|c e c' _ [Hi Hd] [He Hpw] Hx].
  - split; [apply run_inv_reboot|apply dur_inv_reboot]; by left.
  - split; [by eapply run_inv_exec|]. destruct e as [lun op|fault|lun|fault|o|fault].
    + by eapply dur_inv_mutate.
    + by eapply dur_inv_write.
    + destruct Hi as [[Hwf _] _ _ Hp _ _]. revert Hx. unfold exec. cbn [ReservationManager.exec].
      unfold dur_inv in *. destruct (c_inflight c); [|done|done].
      unfold purge_apply, ptpl_capable. rewrite Hp.
      by destruct (bt_get lun (by_lun (c_mgr c))); intros [= <-].
    + subst fault. by eapply dur_inv_purge_write.
    + revert Hx. unfold exec. cbn [ReservationManager.exec]. unfold dur_inv, before in *. intros [= <-].
      by destruct (c_inflight c).
    + injection Hx as <-. by apply dur_inv_reboot, run_inv_crash_disk.
Qed.

(** ** The properties *)

Lemma flag_down_free m lun :
  bt_wf m -> any_held m = false -> reservation (lu_view m lun) = None.
Proof.
  intros Hm Hf. unfold lu_view. destruct (bt_get lun m) as [st|] eqn:E; [|done]. simpl.
  destruct (reservation st) eqn:Er; [|done].
  assert (any_held m = true); [|congruence].
  apply any_held_spec; [done|]. exists lun, st. unfold has_reservation. by rewrite Er.
Qed.

(** C28: The lock-free fast path is exact: in every configuration reachable by
    mutations, purges, failing writes and crashes, including between a
    mutation and its durable write, [allow_read] / [allow_write] answer what
    the locked check of the LU's own state answers. *)
Theorem fast_path_exact c lun nexus :
  reachable event_ok c ->
  allow_read (c_mgr c) lun nexus = lu_allow_read (lu_view (by_lun (c_mgr c)) lun) nexus /\
  allow_write (c_mgr c) lun nexus = lu_allow_write (lu_view (by_lun (c_mgr c)) lun) nexus.
Proof.
  intros Hr. apply run_inv_reachable in Hr as [[Hm _] _ Hf _ _ _].
  rewrite allow_read_view, allow_write_view, Hf.
  destruct (any_held (by_lun (c_mgr c))) eqn:E; [done|].
  pose proof (flag_down_free _ lun Hm E) as Hn.
  unfold lu_allow_read, lu_allow_write. by rewrite Hn.
Qed.


(** A crash at any step of a mutation's file write recovers either the
    whole table before the mutation or the whole table after it, never a
    mixture and never an empty one. *)
Theorem crash_atomic c p fault :
  reachable purge_writes c -> c_inflight c = Mutating p ->
  let disk := crash_disk to_json empty_doc res c fault in
  (forall lun, bt_get lun (recovered disk) = durable res (before c) lun) \/
  (forall lun, bt_get lun (recovered disk) = durable res (by_lun (c_mgr c)) lun).
Proof.
  intros Hr Hi. apply dur_inv_reachable in Hr as [[Ht _ _ _ Hw _] Hd]. unfold dur_inv in Hd.
  rewrite Hi in Hd, Hw. destruct Hd as [Hb _]. cbv zeta. unfold crash_disk. rewrite Hi.
  cbn [writing] in *. destruct (p_snapshot p) as [snap|]; [|by left].
  rewrite (Hw _ eq_refl). destruct (persist_to_disk _ _ _ _ _ _) as [disk' ok] eqn:E.
  apply persist_target in E. destruct ok; simpl.
  - right. apply (says_written to_json from_json json_roundtrip res disk'); done.
  - left. by apply (says_target from_json res disk' (c_disk c)).
Qed.

(** Persist-before-ack: a mutation answered PERSIST FAILED leaves the
    manager and the file as they were and notifies nobody; one answered GOOD
    has its table on disk; one rejected by the handler touches neither disk
    nor sinks and leaves a manager no reader can tell from the old one. *)
Theorem persist_before_ack mgr lun op fault disk mgr' disk' o notes :
  table_wf (by_lun mgr) -> in_u64 lun -> op_args_ok op -> persist mgr = Some res ->
  any_reservation mgr = any_held (by_lun mgr) -> says disk (by_lun mgr) ->
  mutate to_json empty_doc mgr lun op fault disk = (mgr', disk', o, notes) ->
  match o with
  | Good => says disk' (by_lun mgr')
  | PersistFailed => mgr' = mgr /\ target disk' = target disk /\ notes = []
  | _ => mgr_equiv mgr' mgr /\ disk' = disk /\ notes = []
  end.
Proof.
  intros Ht Hl Ha Hp Hf Hs. unfold mutate.
  destruct (mutate_apply mgr lun op) as [mgr1 [o1|p]] eqn:E.
  - intros [= <- <- <- <-]. pose proof (reject_equiv _ _ _ _ _ E) as Heq.
    pose proof (reject_not_special _ _ _ _ _ E) as [? ?]. by destruct o1.
  - apply mutate_apply_commit in E as (st & Eh & -> & ->).
    assert (Ht' : table_wf (bt_insert lun st (by_lun mgr))).
    { apply table_wf_insert; try done. pose proof (lun_wf_handler op (lu_view (by_lun mgr) lun) Ha) as H.
      rewrite Eh in H. apply H. unfold lu_view. destruct (bt_get lun _) eqn:Eg; simpl; eauto with thur. }
    unfold mutate_finish, ptpl_capable. cbn [p_snapshot persist refresh_any_reservation]. rewrite Hp.
    destruct (entry_eligible _ _ || persist_eligible st) eqn:Eel; cbn [andb].
    + destruct (persist_to_disk _ _ _ _ _ _) as [disk1 ok] eqn:Ed. apply persist_target in Ed.
      destruct ok; intros [= <- <- <- <-]; simpl; [by eapply says_written|].
      rewrite restore_insert by apply Ht. split; [|done]. destruct mgr. simpl in *. by subst.
    + intros [= <- <- <- <-]. apply orb_false_iff in Eel as [Hw Hn]. intros l. simpl.
      by rewrite durable_insert_ineligible.
Qed.

End runs.

(** ** Witnesses: the identity codec and a registry of one volume, at LUN 5 *)

Definition doc0 : PersistedFile := mkPFile 0 [].

Definition one_volume : EntityResolver := {|
  uuid_for_lun := fun lun => if lun =? 5 then Some (replicate 16 9) else None;
  lun_for_uuid := fun uuid => match uuid with 9 :: _ => Some 5 | _ => None end;
|}.

#[export] Instance one_volume_laws : ResolverLaws one_volume.
Proof.
  intros lun uuid _. simpl. destruct (lun =? 5) eqn:E; [|done]. apply Z.eqb_eq in E as ->.
  by intros [= <-].
Qed.

Notation run0 es := (foldl (fun c e =>
    c ≫= exec (fun f : PersistedFile => f) Some doc0 one_volume e)
  (Some (reboot Some one_volume (mkDisk None None))) es).

Lemma run0_reachable ok es c :
  Forall ok es -> run0 es = Some c ->
  reachable (fun f : PersistedFile => f) Some doc0 one_volume ok c.
Proof.
  revert c. induction es as [|e es IH] using rev_ind; intros c Hok; simpl.
  - intros [= <-]. constructor.
  - rewrite foldl_snoc. apply Forall_app in Hok as [Hok Hok1]. inversion_clear Hok1.
    destruct (run0 es) as [c1|] eqn:E; [|done]. simpl. intros Hx.
    by apply (reach_step _ _ _ _ _ c1 e c); [apply IH| |].
Qed.

Definition persist_then_reserve : list (Event PersistedFile) :=
  [EMutate 5 (OpRegister host_a 0 10 false (Some true)); EMutateWrite None;
   EMutate 5 (OpReserve host_a 10 1)].

Definition no_config : Config PersistedFile := mkConfig new (mkDisk None None) Idle.

Definition mid_write : Config PersistedFile := default no_config (run0 persist_then_reserve).
Definition committed : Config PersistedFile :=
  default no_config (run0 (persist_then_reserve ++ [EMutateWrite None])).

Lemma fast_path_exact_witness :
  allow_write (c_mgr mid_write) 5 host_b =
    lu_allow_write (lu_view (by_lun (c_mgr mid_write)) 5) host_b.
Proof.
  apply (fast_path_exact (fun f => f) Some doc0 (fun f => eq_refl) one_volume mid_write 5 host_b).
  apply (run0_reachable _ persist_then_reserve); [|vm_compute; reflexivity].
  repeat constructor; unfold u64_max; lia.
Defined.


Lemma crash_atomic_witness :
  exists p, c_inflight mid_write = Mutating p /\
    let disk := crash_disk (fun f => f) doc0 one_volume mid_write (mkFault 1 doc0) in
    (forall lun, bt_get lun (recovered Some one_volume disk) =
       durable one_volume (before mid_write) lun) \/
    (forall lun, bt_get lun (recovered Some one_volume disk) =
       durable one_volume (by_lun (c_mgr mid_write)) lun).
Proof.
  eexists. split; [vm_compute; reflexivity|].
  eapply (crash_atomic (fun f => f) Some doc0 (fun f => eq_refl) one_volume mid_write).
  - apply (run0_reachable _ persist_then_reserve); [|vm_compute; reflexivity].
    repeat constructor; unfold u64_max; lia.
  - vm_compute. reflexivity.
Defined.

Definition failed_register :
    ReservationManager * Disk PersistedFile * PrOutOutcome * list Notification :=
  mutate (fun f => f) doc0 (with_persistence one_volume) 5
    (OpRegister host_a 0 10 false (Some true)) (Some (mkFault 4 doc0)) (mkDisk None None).

Lemma persist_before_ack_witness :
  failed_register.1.2 = PersistFailed /\ failed_register.1.1.1 = with_persistence one_volume.
Proof.
  split; [vm_compute; reflexivity|].
  refine (proj1 (persist_before_ack (fun f => f) Some doc0 (fun f => eq_refl) one_volume
    (with_persistence one_volume) 5 (OpRegister host_a 0 10 false (Some true))
    (Some (mkFault 4 doc0)) (mkDisk None None) failed_register.1.1.1 failed_register.1.1.2
    PersistFailed failed_register.2 _ _ _ _ _ _ _)).
  - apply table_wf_nil.
  - unfold in_u64, u64_max. lia.
  - simpl. unfold in_u64, u64_max. lia.
  - reflexivity.
  - reflexivity.
  - intros lun. reflexivity.
  - vm_compute. reflexivity.
Defined.

(** ** PROUT decoding *)

(** The parameter list and CDB fields an initiator sends for an operation. *)
Definition op_service_action (op : PrOp) : Z :=
  match op with
  | OpRegister _ _ _ false _ => 0x00
  | OpReserve _ _ _ => 0x01
  | OpRelease _ _ _ => 0x02
  | OpClear _ _ => 0x03
  | OpPreempt _ _ _ _ => 0x04
  | OpRegister _ _ _ true _ => 0x06
  end.

Definition op_keys (op : PrOp) : Z * Z :=
  match op with
  | OpRegister _ rk sark _ _ | OpPreempt _ rk sark _ => (rk, sark)
  | OpReserve _ rk _ | OpRelease _ rk _ | OpClear _ rk => (rk, 0)
  end.

Definition op_type_byte (op : PrOp) : Z :=
  match op with
  | OpReserve _ _ tb | OpRelease _ _ tb | OpPreempt _ _ _ tb => tb
  | _ => 0
  end.

Definition op_aptpl (op : PrOp) : bool :=
  match op with OpRegister _ _ _ _ ap => default false ap | _ => false end.

Definition encode_param_list (op : PrOp) : list Z :=
  u64_be (op_keys op).1 ++ u64_be (op_keys op).2 ++ [0; 0; 0; 0]
    ++ [if op_aptpl op then 0x01 else 0x00] ++ [0; 0; 0].

(** The SCSI surface always states APTPL. *)
Definition scsi_op (op : PrOp) : Prop :=
  op_args_ok op /\ match op with OpRegister _ _ _ _ ap => is_Some ap | _ => True end.

Lemma encode_fields op :
  scsi_op op ->
  let p := take 24 (encode_param_list op) in
  length (encode_param_list op) = 24%nat /\
  be_val (sl 0 8 p) = (op_keys op).1 /\ be_val (sl 8 8 p) = (op_keys op).2 /\
  at_ p 20 = if op_aptpl op then 1 else 0.
Proof.
  intros [Ha _]. assert (Hk : in_u64 (op_keys op).1 /\ in_u64 (op_keys op).2).
  { destruct op; simpl in *; unfold in_u64, u64_max in *; lia. }
  assert (Hl : length (encode_param_list op) = 24%nat).
  { unfold encode_param_list. rewrite !length_app, !length_u64_be. done. }
  cbv zeta. rewrite take_ge by lia. unfold encode_param_list at 2 3 4. split; [done|]. split; [|split].
  - sl_walk. apply u64_be_val, Hk.
  - sl_walk. apply u64_be_val, Hk.
  - rewrite (at_skip 8), (at_skip 8) by (try apply length_u64_be; lia). done.
Qed.

(** The PROUT front end decodes what an initiator encodes: every operation
    with 64-bit keys reaches its own handler with its own arguments, and a
    register that asks for power-loss persistence is refused exactly when
    the manager cannot persist. *)
Theorem prout_decode_encode capable op :
  scsi_op op ->
  prout_decode capable (op_service_action op) 0 (op_type_byte op) (encode_param_list op) 24
    (op_issuer op) true =
  if op_aptpl op && negb capable then inl InvalidFieldInParameterList else inr op.
Proof.
  intros Hop. destruct (encode_fields op Hop) as (Hl & E1 & E2 & E3).
  unfold prout_decode. rewrite Hl. cbv zeta. rewrite E1, E2, E3.
  destruct Hop as [_ Hap]. destruct op as [id rk sark ig [ap|]| | | |]; simpl in *; try done.
  - by destruct ig, ap, capable.
Qed.

Lemma prout_decode_encode_witness :
  prout_decode true 0 0 0 (encode_param_list (OpRegister host_a 0 10 false (Some true))) 24 host_a true
  = inr (OpRegister host_a 0 10 false (Some true)).
Proof.
  apply (prout_decode_encode true (OpRegister host_a 0 10 false (Some true))).
  split; [simpl; unfold in_u64, u64_max; lia|eexists; reflexivity].
Defined.
