(* ===== verification/PageIndex.v ===== *)
(** * The volume page index ([core/block/src/page_index.rs])

    [pages.idx]: a 64-byte header and one 64-byte record per page id.  The
    operations on the file, the streaming iterator with its 64 KiB buffer,
    [open] with its header checks and v1 migration, and the in-place
    snapshot restore.  Reads and writes on an open handle succeed here; the
    I/O errors kept are a missing file, an existing file and a short
    header. *)

From S2P Require Import Prelude Bytes ByteFile.

Local Open Scope Z_scope.

Definition HEADER_SIZE : nat := 64.
Definition RECORD_SIZE : nat := 64.
Definition MAGIC : list Z := [67; 82; 80; 73].
Definition SCHEMA_VERSION : Z := 2.
Definition MIN_READABLE_VERSION : Z := 1.
Definition FLAG_ALLOCATED : Z := 1.
Definition SALT_OFFSET : nat := 40.

Record PageEntry : Type := mkEntry { hash : list Z; iv_salt : Z }.

#[export] Instance PageEntry_eq_dec : EqDecision PageEntry.
Proof. solve_decision. Defined.

Inductive IoError : Type := AlreadyExists | NotFound | UnexpectedEof | IoFailed.

(** The identities in [UuidMismatch] are kept raw; the code prints them in
    hex. *)
Inductive PageIndexError : Type :=
  | Io (e : IoError)
  | BadMagic
  | SchemaMismatch (found expected : Z)
  | RecordSizeMismatch (found expected : Z)
  | UuidMismatch (index_uuid volume_uuid : list Z)
  | PageSizeMismatch (index volume : Z).

Record PageIndex : Type := mkIndex {
  file : list Z;
  volume_uuid : list Z;
  page_size_bytes : Z;
}.

Definition with_file (idx : PageIndex) (f : list Z) : PageIndex :=
  mkIndex f (volume_uuid idx) (page_size_bytes idx).

Definition build_header (uuid : list Z) (page_size : Z) : list Z :=
  MAGIC ++ u32_le SCHEMA_VERSION ++ u32_le (Z.of_nat RECORD_SIZE) ++ zeros 4 ++ uuid
    ++ u64_le page_size ++ zeros 24.

Definition create (existing : option (list Z)) (uuid : list Z) (page_size : Z) :
    result PageIndex PageIndexError :=
  match existing with
  | Some _ => Err (Io AlreadyExists)
  | None => Ok (mkIndex (write_at [] 0 (build_header uuid page_size)) uuid page_size)
  end.

(** The checks [open] and [restore_from] share: magic, version range, record
    size, identity, page size, in that order; returns the version. *)
Definition check_header (header uuid : list Z) (page_size : Z) : result Z PageIndexError :=
  if bool_decide (sl 0 4 header <> MAGIC) then Err BadMagic
  else
    let version := le_val (sl 4 4 header) in
    if negb ((MIN_READABLE_VERSION <=? version) && (version <=? SCHEMA_VERSION))
    then Err (SchemaMismatch version SCHEMA_VERSION)
    else
      let record_size := le_val (sl 8 4 header) in
      if negb (record_size =? Z.of_nat RECORD_SIZE)
      then Err (RecordSizeMismatch record_size (Z.of_nat RECORD_SIZE))
      else
        let index_uuid := sl 16 16 header in
        let index_page_size := le_val (sl 32 8 header) in
        if bool_decide (index_uuid <> uuid) then Err (UuidMismatch index_uuid uuid)
        else if negb (index_page_size =? page_size)
        then Err (PageSizeMismatch index_page_size page_size)
        else Ok version.

Local Open Scope thur_scope.

Definition open (existing : option (list Z)) (expected_uuid : list Z) (expected_page_size : Z) :
    result PageIndex PageIndexError :=
  match existing with
  | None => Err (Io NotFound)
  | Some f =>
      match read_exact_at f 0 HEADER_SIZE with
      | None => Err (Io UnexpectedEof)
      | Some header =>
          try version := check_header header expected_uuid expected_page_size in
          let f' := if version <? SCHEMA_VERSION then write_at f 4 (u32_le SCHEMA_VERSION) else f in
          Ok (mkIndex f' expected_uuid expected_page_size)
      end
  end.

(** ** Records *)

Definition page_offset (page_id : nat) : nat := (HEADER_SIZE + page_id * RECORD_SIZE)%nat.

Definition byte_at (l : list Z) (i : nat) : Z := default 0 (l !! i).

Definition decode_record (record : list Z) : option PageEntry :=
  if Z.land (byte_at record 32) FLAG_ALLOCATED =? 0 then None
  else Some (mkEntry (sl 0 32 record) (le_val (sl SALT_OFFSET 8 record))).

Definition get_entry (idx : PageIndex) (page_id : nat) : option PageEntry :=
  let record := read_at (file idx) (page_offset page_id) RECORD_SIZE in
  if bool_decide (length record < RECORD_SIZE)%nat then None else decode_record record.

Definition get (idx : PageIndex) (page_id : nat) : option (list Z) :=
  hash <$> get_entry idx page_id.

Definition encode_record (h : list Z) (salt : Z) : list Z :=
  h ++ [FLAG_ALLOCATED] ++ zeros 7 ++ u64_le salt ++ zeros 16.

Definition set_unsynced_salted (idx : PageIndex) (page_id : nat) (h : list Z) (salt : Z) :
    PageIndex :=
  with_file idx (write_at (file idx) (page_offset page_id) (encode_record h salt)).

Definition set_salted := set_unsynced_salted.
Definition set_unsynced (idx : PageIndex) (page_id : nat) (h : list Z) : PageIndex :=
  set_unsynced_salted idx page_id h 0.
Definition set (idx : PageIndex) (page_id : nat) (h : list Z) : PageIndex :=
  set_salted idx page_id h 0.

Definition clear_unsynced (idx : PageIndex) (page_id : nat) : PageIndex :=
  with_file idx (write_at (file idx) (page_offset page_id) (zeros RECORD_SIZE)).

(** [clear] syncs as well. *)
Definition clear (idx : PageIndex) (page_id : nat) : PageIndex := clear_unsynced idx page_id.

Definition truncate_from (idx : PageIndex) (from_page_id : nat) : PageIndex :=
  let boundary := page_offset from_page_id in
  if bool_decide (length (file idx) <= boundary)%nat then idx
  else with_file idx (set_len (file idx) boundary).

(** ** The streaming iterator *)

(** [it_buf] is the filled part of the 64 KiB buffer. *)
Record PageIndexIter : Type := mkIter {
  it_buf : list Z;
  it_consumed : nat;
  it_offset : nat;
  it_next : nat;
  it_done : bool;
}.

Definition iter : PageIndexIter := mkIter [] 0 HEADER_SIZE 0 false.

(** [64 * 1024] bytes, a whole number of records. *)
Definition iter_batch : nat := Z.to_nat 1024.
Definition iter_cap : nat := (iter_batch * RECORD_SIZE)%nat.

Inductive Turn : Type := Yield (e : nat * list Z) | Skip | Stop.

Definition done_iter (it : PageIndexIter) : PageIndexIter :=
  mkIter (it_buf it) (it_consumed it) (it_offset it) (it_next it) true.

(** The buffer refill at the top of the loop; [None] ends the iteration. *)
Definition refill (f : list Z) (it : PageIndexIter) : option PageIndexIter :=
  if bool_decide (length (it_buf it) < it_consumed it + RECORD_SIZE)%nat then
    let r := read_at f (it_offset it) iter_cap in
    if bool_decide (length r < RECORD_SIZE)%nat then None
    else Some (mkIter r 0 (it_offset it + length r) (it_next it) false)
  else Some it.

(** One turn of the loop in [next]. *)
Definition iter_turn (f : list Z) (it : PageIndexIter) : PageIndexIter * Turn :=
  if it_done it then (it, Stop)
  else match refill f it with
  | None => (done_iter it, Stop)
  | Some it =>
      let record := sl (it_consumed it) RECORD_SIZE (it_buf it) in
      let pid := it_next it in
      let it' := mkIter (it_buf it) (it_consumed it + RECORD_SIZE) (it_offset it) (S pid) false in
      if u32_max <? Z.of_nat pid then (done_iter it', Stop)
      else if negb (Z.land (byte_at record 32) FLAG_ALLOCATED =? 0)
      then (it', Yield (pid, sl 0 32 record)) else (it', Skip)
  end.

Fixpoint iter_next (fuel : nat) (f : list Z) (it : PageIndexIter) :
    option (nat * list Z) * PageIndexIter :=
  match fuel with
  | O => (None, it)
  | S fuel =>
      match iter_turn f it with
      | (it', Stop) => (None, it')
      | (it', Skip) => iter_next fuel f it'
      | (it', Yield e) => (Some e, it')
      end
  end.

(** Draining the iterator; [fuel] bounds each [next] and their number. *)
Fixpoint drain (n fuel : nat) (f : list Z) (it : PageIndexIter) : list (nat * list Z) :=
  match n with
  | O => []
  | S n =>
      match iter_next fuel f it with
      | (Some e, it') => e :: drain n fuel f it'
      | (None, _) => []
      end
  end.

(** The file has fewer records than bytes, so its length is enough fuel. *)
Definition iter_all (idx : PageIndex) : list (nat * list Z) :=
  let fuel := S (length (file idx)) in drain fuel fuel (file idx) iter.

Definition highest_allocated_page (idx : PageIndex) : option nat :=
  fold_left (fun _ e => Some e.1) (iter_all idx) None.

(** ** In-place restore *)

Fixpoint copy_body (fuel : nat) (src dst : list Z) (offset len : nat) : list Z :=
  match fuel with
  | O => dst
  | S fuel =>
      if bool_decide (offset < len)%nat then
        let want := Nat.min iter_cap (len - offset) in
        let buf := read_at src offset want in
        match buf with
        | [] => dst
        | _ => copy_body fuel src (write_at dst offset buf) (offset + length buf) len
        end
      else dst
  end.

Definition restore_from (idx : PageIndex) (snapshot : option (list Z)) :
    result PageIndex PageIndexError :=
  match snapshot with
  | None => Err (Io NotFound)
  | Some src =>
      match read_exact_at src 0 HEADER_SIZE with
      | None => Err (Io UnexpectedEof)
      | Some header =>
          try _ := check_header header (volume_uuid idx) (page_size_bytes idx) in
          let len := length src in
          Ok (with_file idx (copy_body len src (set_len (file idx) len) HEADER_SIZE len))
      end
  end.

(** ** The file as a map

    Through [prec] every page id has a record, absent ones being zero; a
    zero record is unallocated. *)

Notation prec := (rec HEADER_SIZE RECORD_SIZE).
Notation pwf := (rf_wf HEADER_SIZE RECORD_SIZE).

Lemma page_record_size_pos : (0 < RECORD_SIZE)%nat.
Proof. unfold RECORD_SIZE. lia. Qed.
#[local] Hint Resolve page_record_size_pos : core.

Lemma decode_zeros : decode_record (zeros RECORD_SIZE) = None.
Proof. done. Qed.

Lemma get_entry_rec idx i : get_entry idx i = decode_record (prec (file idx) i).
Proof.
  unfold get_entry, rec. change (page_offset i) with (rec_off HEADER_SIZE RECORD_SIZE i).
  cbv zeta. case_bool_decide; [by rewrite decode_zeros|done].
Qed.

Lemma length_encode_record h salt : length h = 32%nat -> length (encode_record h salt) = RECORD_SIZE.
Proof. intros E. unfold encode_record. autorewrite with thur_rw. simpl. rewrite E. done. Qed.

Lemma byte_at_skip k i l1 l2 :
  length l1 = k -> (k <= i)%nat -> byte_at (l1 ++ l2) i = byte_at l2 (i - k).
Proof. intros <- ?. unfold byte_at. by rewrite lookup_app_r. Qed.

Lemma decode_encode h salt :
  length h = 32%nat -> in_u64 salt -> decode_record (encode_record h salt) = Some (mkEntry h salt).
Proof.
  intros Hh Hs. unfold decode_record, encode_record.
  rewrite (byte_at_skip 32 32) by (try done; lia). simpl Z.land. cbv iota. do 2 f_equal.
  - by apply sl_head.
  - unfold SALT_OFFSET. rewrite (sl_skip 32) by (try done; lia). sl_walk. by apply u64_le_val.
Qed.

(** ** Invariant *)

Record idx_wf (idx : PageIndex) : Prop := {
  iw_file : pwf (file idx);
  iw_header : sl 0 HEADER_SIZE (file idx) = build_header (volume_uuid idx) (page_size_bytes idx);
  iw_uuid : length (volume_uuid idx) = 16%nat;
  iw_page_size : in_u64 (page_size_bytes idx);
}.

Lemma length_build_header uuid ps : length uuid = 16%nat -> length (build_header uuid ps) = HEADER_SIZE.
Proof. intros E. unfold build_header. autorewrite with thur_rw. simpl. rewrite E. done. Qed.

Lemma idx_wf_create uuid ps :
  length uuid = 16%nat -> in_u64 ps ->
  exists idx, create None uuid ps = Ok idx /\ idx_wf idx /\ (forall i, get_entry idx i = None) /\
    volume_uuid idx = uuid /\ page_size_bytes idx = ps.
Proof.
  intros Hu Hp. pose proof (length_build_header uuid ps Hu) as Hl.
  assert (Hw : write_at [] 0 (build_header uuid ps) = build_header uuid ps).
  { rewrite write_at_nonnil by (by intros E; rewrite E in Hl). rewrite drop_nil. apply app_nil_r. }
  eexists. split; [done|]. rewrite Hw. split_and!; try done.
  - split; simpl; try done; [by apply rf_wf_header|]. rewrite <- Hl. apply sl_all.
  - intros i. rewrite get_entry_rec. simpl. by rewrite rec_header.
Qed.

(** ** Operations refine map updates *)

Inductive PageOp : Type :=
  | OSet (page_id : nat) (h : list Z) (salt : Z)
  | OClear (page_id : nat)
  | OTruncate (from : nat).

Definition apply_op (idx : PageIndex) (op : PageOp) : PageIndex :=
  match op with
  | OSet p h salt => set_salted idx p h salt
  | OClear p => clear_unsynced idx p
  | OTruncate p => truncate_from idx p
  end.

Definition spec_op (m : nat -> option PageEntry) (op : PageOp) : nat -> option PageEntry :=
  match op with
  | OSet p h salt => fun i => if bool_decide (i = p) then Some (mkEntry h salt) else m i
  | OClear p => fun i => if bool_decide (i = p) then None else m i
  | OTruncate p => fun i => if bool_decide (i < p)%nat then m i else None
  end.

Definition op_ok (op : PageOp) : Prop :=
  match op with OSet _ h salt => length h = 32%nat /\ in_u64 salt | _ => True end.

Lemma idx_wf_write idx p r :
  idx_wf idx -> length r = RECORD_SIZE ->
  idx_wf (with_file idx (write_at (file idx) (page_offset p) r)).
Proof.
  intros [Hf Hh Hu Hp] Hr. change (page_offset p) with (rec_off HEADER_SIZE RECORD_SIZE p).
  split; simpl; try done; [by apply rf_wf_write|]. by rewrite sl_header_write.
Qed.

Lemma get_entry_write idx p r i :
  idx_wf idx -> length r = RECORD_SIZE ->
  get_entry (with_file idx (write_at (file idx) (page_offset p) r)) i =
    if bool_decide (i = p) then decode_record r else get_entry idx i.
Proof.
  intros [Hf _ _ _] Hr. rewrite !get_entry_rec. simpl.
  change (page_offset p) with (rec_off HEADER_SIZE RECORD_SIZE p).
  case_bool_decide; [subst; by rewrite rec_write_same|by rewrite rec_write_other].
Qed.

Lemma truncate_step idx p :
  idx_wf idx -> idx_wf (truncate_from idx p) /\
  forall i, get_entry (truncate_from idx p) i = spec_op (get_entry idx) (OTruncate p) i.
Proof.
  intros Hw. pose proof Hw as [Hf Hh Hu Hp]. unfold truncate_from. cbv zeta.
  change (page_offset p) with (rec_off HEADER_SIZE RECORD_SIZE p). case_bool_decide as Hl.
  - split; [done|]. intros i. simpl. case_bool_decide; [done|].
    rewrite get_entry_rec, rec_out by (done || (unfold rec_off in *; nia)). done.
  - split.
    + split; simpl; try done; [apply rf_wf_set_len|]. by rewrite sl_header_set_len.
    + intros i. rewrite !get_entry_rec. simpl. rewrite rec_set_len by done.
      case_bool_decide; [by rewrite get_entry_rec|apply decode_zeros].
Qed.

Lemma page_op_step idx op :
  idx_wf idx -> op_ok op ->
  idx_wf (apply_op idx op) /\ forall i, get_entry (apply_op idx op) i = spec_op (get_entry idx) op i.
Proof.
  intros Hw Hop. destruct op as [p h salt|p|p]; simpl in *.
  - destruct Hop as [Hh Hs]. pose proof (length_encode_record h salt Hh).
    unfold set_salted, set_unsynced_salted.
    split; [by apply idx_wf_write|]. intros i. rewrite get_entry_write by done.
    by rewrite decode_encode.
  - unfold clear_unsynced. split; [by apply idx_wf_write|].
    intros i. by rewrite get_entry_write.
  - by apply truncate_step.
Qed.

Lemma op_meta idx op :
  volume_uuid (apply_op idx op) = volume_uuid idx /\
  page_size_bytes (apply_op idx op) = page_size_bytes idx.
Proof.
  destruct op; simpl; try done. unfold truncate_from. cbv zeta. by case_bool_decide.
Qed.

Definition run (ops : list PageOp) (idx : PageIndex) : PageIndex := fold_left apply_op ops idx.
Definition spec_run (ops : list PageOp) (m : nat -> option PageEntry) : nat -> option PageEntry :=
  fold_left spec_op ops m.

Lemma spec_op_ext m1 m2 op :
  (forall i, m1 i = m2 i) -> forall i, spec_op m1 op i = spec_op m2 op i.
Proof. intros H i. destruct op; simpl; by case_bool_decide. Qed.

Lemma spec_run_ext ops m1 m2 :
  (forall i, m1 i = m2 i) -> forall i, spec_run ops m1 i = spec_run ops m2 i.
Proof.
  revert m1 m2. induction ops as [|op ops IH]; intros m1 m2 H i; simpl; [done|].
  apply IH. by apply spec_op_ext.
Qed.

Lemma page_run_refines ops idx :
  idx_wf idx -> Forall op_ok ops ->
  idx_wf (run ops idx) /\ volume_uuid (run ops idx) = volume_uuid idx /\
  page_size_bytes (run ops idx) = page_size_bytes idx /\
  forall i, get_entry (run ops idx) i = spec_run ops (get_entry idx) i.
Proof.
  revert idx. induction ops as [|op ops IH]; intros idx Hw Hops; simpl; [done|].
  inversion_clear Hops as [|? ? Hop Hops']. destruct (page_op_step idx op Hw Hop) as [Hw' Hg].
  destruct (op_meta idx op) as [Hm1 Hm2].
  destruct (IH (apply_op idx op) Hw' Hops') as (H1 & H2 & H3 & H4).
  split_and!; [done|congruence|congruence|]. intros i. rewrite H4. by apply spec_run_ext.
Qed.

Lemma check_header_build uuid ps v :
  length uuid = 16%nat -> in_u64 ps -> in_u32 v ->
  let h := MAGIC ++ u32_le v ++ u32_le (Z.of_nat RECORD_SIZE) ++ zeros 4 ++ uuid
             ++ u64_le ps ++ zeros 24 in
  check_header h uuid ps =
    if (MIN_READABLE_VERSION <=? v) && (v <=? SCHEMA_VERSION) then Ok v
    else Err (SchemaMismatch v SCHEMA_VERSION).
Proof.
  intros Hu Hp Hv h.
  assert (E0 : sl 0 4 h = MAGIC) by (by apply sl_head).
  assert (E1 : le_val (sl 4 4 h) = v).
  { unfold h. rewrite (sl_skip 4) by (done || lia). rewrite sl_head by (autorewrite with thur_rw; done).
    by apply u32_le_val. }
  assert (E2 : le_val (sl 8 4 h) = Z.of_nat RECORD_SIZE).
  { unfold h. rewrite (sl_skip 4) by (done || lia). sl_walk. by apply u32_le_val. }
  assert (E3 : sl 16 16 h = uuid).
  { unfold h. rewrite (sl_skip 4) by (done || lia). sl_walk. done. }
  assert (E4 : le_val (sl 32 8 h) = ps).
  { unfold h. rewrite (sl_skip 4) by (done || lia). do 3 (erewrite sl_skip;
      [|autorewrite with thur_rw; reflexivity|simpl; lia]). simpl Nat.sub.
    rewrite (sl_skip 16) by (done || lia). sl_walk. by apply u64_le_val. }
  unfold check_header. cbv zeta. rewrite E0, E1, E2, E3, E4.
  rewrite (bool_decide_eq_false_2 (MAGIC <> MAGIC)) by (by intros []).
  rewrite (bool_decide_eq_false_2 (uuid <> uuid)) by (by intros []).
  rewrite !Z.eqb_refl. by destruct (_ && _).
Qed.

Lemma reopen idx : idx_wf idx -> open (Some (file idx)) (volume_uuid idx) (page_size_bytes idx) = Ok idx.
Proof.
  intros [Hf Hh Hu Hp]. unfold open, read_exact_at, read_at.
  rewrite Hh, length_build_header by done. rewrite bool_decide_eq_false_2 by lia.
  unfold build_header. rewrite check_header_build by (done || (unfold in_u32, u32_max, SCHEMA_VERSION; lia)).
  simpl. by destruct idx.
Qed.

(** C22: The page index refines a map from page ids to entries: from a freshly
    created file, after any sequence of [set_salted], [clear] and
    [truncate_from], [get_entry] returns what the same sequence of map
    updates gives, and closing and reopening the file changes nothing. *)
Theorem page_index_refines ops uuid ps idx0 :
  length uuid = 16%nat -> in_u64 ps -> Forall op_ok ops -> create None uuid ps = Ok idx0 ->
  let idx := run ops idx0 in
  (forall i, get_entry idx i = spec_run ops (fun _ => None) i) /\
  open (Some (file idx)) uuid ps = Ok idx.
Proof.
  intros Hu Hp Hops Hc. destruct (idx_wf_create uuid ps Hu Hp) as (idx & Hc' & Hw & Hn & E1 & E2).
  assert (idx = idx0) as -> by congruence.
  destruct (page_run_refines ops idx0 Hw Hops) as (Hw' & H1 & H2 & H3). cbv zeta. split.
  - intros i. rewrite H3. by apply spec_run_ext.
  - rewrite <- E1, <- E2, <- H1, <- H2. by apply reopen.
Qed.

Definition sample_uuid : list Z := replicate 16 3.
Definition sample_ops : list PageOp :=
  [OSet 2 (replicate 32 7) 9; OSet 5 (replicate 32 8) 1; OClear 2; OTruncate 5].

Lemma page_index_refines_witness :
  exists idx0, create None sample_uuid 4096 = Ok idx0 /\
    get_entry (run sample_ops idx0) 5 = None /\
    open (Some (file (run sample_ops idx0))) sample_uuid 4096 = Ok (run sample_ops idx0).
Proof.
  eexists. split; [reflexivity|].
  destruct (page_index_refines sample_ops sample_uuid 4096 _ eq_refl
    ltac:(unfold in_u64, u64_max; lia)
    ltac:(repeat constructor; unfold in_u64, u64_max; simpl; lia) eq_refl) as [H1 H2].
  split; [rewrite H1; reflexivity|exact H2].
Defined.

(** ** Opening *)

Definition header_v (v : Z) (uuid : list Z) (ps : Z) : list Z :=
  MAGIC ++ u32_le v ++ u32_le (Z.of_nat RECORD_SIZE) ++ zeros 4 ++ uuid ++ u64_le ps ++ zeros 24.

Lemma length_header_v v uuid ps : length uuid = 16%nat -> length (header_v v uuid ps) = HEADER_SIZE.
Proof. intros E. unfold header_v. autorewrite with thur_rw. simpl. rewrite E. done. Qed.

Lemma file_split f h : sl 0 HEADER_SIZE f = h -> f = h ++ drop HEADER_SIZE f.
Proof. intros <-. unfold sl. by rewrite drop_0, take_drop. Qed.

(** Rewriting the version field of a header rewrites the header. *)
Lemma write_version v uuid ps rest :
  length uuid = 16%nat ->
  write_at (header_v v uuid ps ++ rest) 4 (u32_le SCHEMA_VERSION) =
    header_v SCHEMA_VERSION uuid ps ++ rest.
Proof.
  intros Hu. rewrite write_at_nonnil by (intros E; apply (f_equal length) in E;
    rewrite length_u32_le in E; done).
  rewrite length_u32_le. unfold header_v. rewrite <- !app_assoc.
  by rewrite take_app_length' by done.
Qed.

(** Opening a version-1 index migrates it in place: the header becomes a
    version-2 header for the same volume, every page keeps its entry, and
    the next open finds nothing left to migrate. *)
Theorem open_migrates_v1 f uuid ps :
  length uuid = 16%nat -> in_u64 ps -> pwf f -> sl 0 HEADER_SIZE f = header_v 1 uuid ps ->
  exists idx, open (Some f) uuid ps = Ok idx /\ idx_wf idx /\
    (forall i, get_entry idx i = decode_record (prec f i)) /\
    open (Some (file idx)) uuid ps = Ok idx.
Proof.
  intros Hu Hp Hf Hh. pose proof (length_header_v 1 uuid ps Hu) as Hl1.
  pose proof (length_header_v SCHEMA_VERSION uuid ps Hu) as Hl2.
  set (f' := write_at f 4 (u32_le SCHEMA_VERSION)).
  assert (Ef' : f' = header_v SCHEMA_VERSION uuid ps ++ drop HEADER_SIZE f).
  { unfold f'. rewrite (file_split f _ Hh) at 1. by apply write_version. }
  assert (Hlen : length f' = length f).
  { rewrite Ef'. rewrite (file_split f _ Hh) at 2. rewrite !length_app. congruence. }
  assert (Hopen : open (Some f) uuid ps = Ok (mkIndex f' uuid ps)).
  { unfold open, read_exact_at, read_at. rewrite Hh, Hl1.
    rewrite bool_decide_eq_false_2 by lia. unfold header_v.
    rewrite check_header_build by (done || (unfold in_u32, u32_max; lia)). done. }
  assert (Hw : idx_wf (mkIndex f' uuid ps)).
  { split; simpl; try done.
    - destruct Hf as [n Hn]. exists n. by rewrite Hlen.
    - rewrite Ef'. by apply sl_head. }
  exists (mkIndex f' uuid ps). split_and!; try done.
  - intros i. rewrite get_entry_rec. simpl. f_equal. unfold rec, read_at.
    unfold f'. by rewrite sl_write_after by (rewrite length_u32_le; unfold rec_off, HEADER_SIZE; lia).
  - by apply (reopen (mkIndex f' uuid ps)).
Qed.

Definition v1_file : list Z :=
  header_v 1 sample_uuid 4096 ++ encode_record (replicate 32 7) 0.

Lemma open_migrates_v1_witness :
  exists idx, open (Some v1_file) sample_uuid 4096 = Ok idx /\
    get_entry idx 0 = Some (mkEntry (replicate 32 7) 0).
Proof.
  destruct (open_migrates_v1 v1_file sample_uuid 4096) as (idx & H1 & _ & H2 & _).
  - reflexivity.
  - unfold in_u64, u64_max. lia.
  - exists 1%nat. reflexivity.
  - reflexivity.
  - exists idx. split; [exact H1|]. rewrite H2. vm_compute. reflexivity.
Defined.

(** The header binds the file to its volume: opening an index with any
    other identity or page size is refused with the error that names the
    mismatch, and nothing is written. *)
Theorem open_binds_identity idx uuid ps :
  idx_wf idx ->
  open (Some (file idx)) uuid ps =
    if bool_decide (uuid = volume_uuid idx) then
      if bool_decide (ps = page_size_bytes idx) then Ok idx
      else Err (PageSizeMismatch (page_size_bytes idx) ps)
    else Err (UuidMismatch (volume_uuid idx) uuid).
Proof.
  intros Hw. destruct (decide (uuid = volume_uuid idx /\ ps = page_size_bytes idx)) as [[-> ->]|Hne].
  { rewrite !bool_decide_eq_true_2 by done. by apply reopen. }
  destruct Hw as [Hf Hh Hu Hp].
  pose proof (check_header_build (volume_uuid idx) (page_size_bytes idx) SCHEMA_VERSION Hu Hp
    ltac:(unfold in_u32, u32_max, SCHEMA_VERSION; lia)) as Hc. cbv zeta in Hc.
  fold (build_header (volume_uuid idx) (page_size_bytes idx)) in Hc.
  unfold open, read_exact_at, read_at in *. rewrite Hh, length_build_header by done.
  rewrite (bool_decide_eq_false_2 (HEADER_SIZE < HEADER_SIZE)%nat) by lia.
  generalize dependent (build_header (volume_uuid idx) (page_size_bytes idx)).
  intros h _ Hc. simpl in Hc. unfold check_header in *. cbv zeta in *.
  destruct (bool_decide (sl 0 4 h <> MAGIC)); [done|]. destruct (negb (_ && _)); [done|].
  destruct (negb (_ =? Z.of_nat RECORD_SIZE)); [done|].
  destruct (decide (sl 16 16 h = volume_uuid idx)) as [E1|E1];
    [|by rewrite bool_decide_eq_true_2 in Hc].
  destruct (Z.eqb_spec (le_val (sl 32 8 h)) (page_size_bytes idx)) as [E2|E2];
    [|by rewrite bool_decide_eq_false_2 in Hc by naive_solver].
  rewrite E1, E2. destruct (decide (uuid = volume_uuid idx)) as [->|Hne'].
  - rewrite (bool_decide_eq_false_2 (_ <> _)), (bool_decide_eq_true_2 (volume_uuid _ = _))
      by naive_solver.
    rewrite bool_decide_eq_false_2 by naive_solver.
    by rewrite (proj2 (Z.eqb_neq _ _)) by naive_solver.
  - by rewrite (bool_decide_eq_true_2 (_ <> _)), (bool_decide_eq_false_2 (uuid = _)) by congruence.
Qed.

Definition sample_index : PageIndex := mkIndex (header_v 2 sample_uuid 4096) sample_uuid 4096.

Lemma open_binds_identity_witness :
  open (Some (file sample_index)) (replicate 16 4) 4096 =
    Err (UuidMismatch sample_uuid (replicate 16 4)).
Proof.
  refine (eq_trans (open_binds_identity sample_index (replicate 16 4) 4096 _) _).
  - split; [exists 0%nat; reflexivity|reflexivity|reflexivity|].
    unfold in_u64, u64_max. simpl. lia.
  - reflexivity.
Defined.
