(* ===== verification/PageIndexIter.v ===== *)
(** * The page index: bulk operations

    The streaming iterator returns exactly the allocated pages in order
    whatever the buffer boundaries, so [highest_allocated_page] is the
    maximum; the in-place restore reproduces the snapshot's map. *)

From stdpp Require Import sorting.
From S2P Require Import Prelude Bytes ByteFile PageIndex.

Local Open Scope nat_scope.

Notation prec := (rec HEADER_SIZE RECORD_SIZE).
Notation pwf := (rf_wf HEADER_SIZE RECORD_SIZE).
Notation pcount := (rec_count HEADER_SIZE RECORD_SIZE).

(** Opens the sizes and offsets of this file. *)
Ltac sizes := unfold rec_off, iter_cap, HEADER_SIZE, RECORD_SIZE in *.

Lemma iter_batch_pos : 0 < iter_batch.
Proof. unfold iter_batch. lia. Qed.
#[global] Opaque iter_batch.

Lemma sl_sl o n p m (f : list Z) : o + n <= m -> sl o n (sl p m f) = sl (p + o) n f.
Proof.
  intros. unfold sl. rewrite skipn_firstn_comm, take_take, drop_drop.
  by rewrite Nat.min_l by lia.
Qed.

Lemma sl_drop o n k (f : list Z) : sl o n (drop k f) = sl (k + o) n f.
Proof. unfold sl. by rewrite drop_drop. Qed.

Lemma length_sl_min o n (f : list Z) : length (sl o n f) = n `min` (length f - o).
Proof. unfold sl. by rewrite length_take, length_drop. Qed.

Lemma sl_clip o n (f : list Z) : sl o n f = sl o (n `min` (length f - o)) f.
Proof.
  unfold sl. rewrite <- (take_ge (drop o f) (length f - o)) at 1 by (by rewrite length_drop).
  by rewrite take_take.
Qed.

(** ** The iterator *)

(** What the iterator owes from slot [i] on. *)
Definition items (f : list Z) (i n : nat) : list (nat * list Z) :=
  omap (fun j => (fun e => (j, hash e)) <$> decode_record (prec f j)) (seq i n).

(** The iterator stands before slot [i]: its buffer is the run of [len]
    records from slot [k], of which [i - k] are consumed. *)
Definition at_rec (f : list Z) (it : PageIndexIter) (i : nat) : Prop :=
  it_done it = false /\ it_next it = i /\ exists k len,
    it_buf it = sl (rec_off HEADER_SIZE RECORD_SIZE k) (len * RECORD_SIZE) f /\
    length (it_buf it) = len * RECORD_SIZE /\ it_consumed it = (i - k) * RECORD_SIZE /\
    k <= i <= k + len /\ it_offset it = rec_off HEADER_SIZE RECORD_SIZE (k + len).

Lemma at_rec_start f : at_rec f iter 0.
Proof.
  split; [done|]. split; [done|]. exists 0, 0. split_and!; simpl; try done; sizes; lia.
Qed.

Lemma refill_spec f it i :
  pwf f -> at_rec f it i ->
  match refill f it with
  | None => pcount f <= i
  | Some it' => i < pcount f /\ at_rec f it' i /\
      it_consumed it' + RECORD_SIZE <= length (it_buf it')
  end.
Proof.
  intros Hf (Hd & Hn & k & len & Hb & Hbl & Hc & Hki & Ho). pose proof iter_batch_pos as Hbp.
  pose proof (rec_count_wf HEADER_SIZE RECORD_SIZE page_record_size_pos f Hf) as Hlen.
  unfold refill. rewrite Hbl, Hc. case_bool_decide as H1.
  - assert (k + len = i) as Hi by (sizes; lia). rewrite Ho, Hi. unfold read_at.
    pose proof (length_sl_min (rec_off HEADER_SIZE RECORD_SIZE i) iter_cap f) as Hr.
    cbv zeta. case_bool_decide as H2; rewrite Hr in *; [sizes; lia|].
    split; [sizes; lia|]. split; [|simpl; sizes; lia].
    split; [done|]. split; [done|]. exists i, (iter_batch `min` (pcount f - i)). simpl. split_and!.
    + rewrite sl_clip. f_equal. sizes. lia.
    + sizes. lia.
    + sizes. lia.
    + lia.
    + lia.
    + sizes. lia.
  - assert (i < k + len) by (sizes; lia).
    assert (length (it_buf it) <= length f - rec_off HEADER_SIZE RECORD_SIZE k)
      by (rewrite Hb, length_sl_min; lia).
    split; [sizes; lia|]. split; [|sizes; lia]. split; [done|]. split; [done|]. by exists k, len.
Qed.

Lemma turn_spec f it i :
  pwf f -> at_rec f it i -> (Z.of_nat i <= u32_max)%Z ->
  if bool_decide (i < pcount f) then
    exists it', iter_turn f it =
      (it', match decode_record (prec f i) with Some e => Yield (i, hash e) | None => Skip end) /\
      at_rec f it' (S i)
  else (iter_turn f it).2 = Stop.
Proof.
  intros Hf Hat Hi. pose proof (refill_spec f it i Hf Hat) as Hr. unfold iter_turn.
  destruct Hat as (Hd & _). rewrite Hd. destruct (refill f it) as [it1|]; [|
    by rewrite bool_decide_eq_false_2 by lia].
  destruct Hr as (Hc & (Hd1 & Hn1 & k & len & Hb & Hbl & Hcs & Hki & Ho) & Hroom).
  rewrite bool_decide_eq_true_2 by done. rewrite Hn1. cbv zeta.
  rewrite (proj2 (Z.ltb_ge _ _)) by done.
  assert (Hrec : sl (it_consumed it1) RECORD_SIZE (it_buf it1) = prec f i).
  { pose proof (rec_count_wf HEADER_SIZE RECORD_SIZE page_record_size_pos f Hf) as Hlen.
    rewrite rec_in by (try apply page_record_size_pos; sizes; lia).
    rewrite Hb, Hcs, sl_sl by (rewrite <- Hcs; lia). f_equal. sizes. lia. }
  rewrite Hrec. unfold decode_record.
  destruct (Z.land (byte_at (prec f i) 32) FLAG_ALLOCATED =? 0)%Z; simpl; eexists; (split; [done|]);
    (split; [done|]; split; [done|]; exists k, len; simpl; split_and!; try done; sizes; lia).
Qed.

Lemma items_cons f i n :
  items f i (S n) = match decode_record (prec f i) with
    | Some e => (i, hash e) :: items f (S i) n | None => items f (S i) n end.
Proof. unfold items. simpl. by destruct (decode_record (prec f i)). Qed.

Lemma next_spec f it i fuel :
  pwf f -> at_rec f it i -> i <= pcount f -> (Z.of_nat (pcount f) <= u32_max)%Z ->
  pcount f - i < fuel ->
  match items f i (pcount f - i) with
  | [] => (iter_next fuel f it).1 = None
  | e :: rest => exists it' j, iter_next fuel f it = (Some e, it') /\ at_rec f it' j /\
      i < j <= pcount f /\ items f j (pcount f - j) = rest
  end.
Proof.
  intros Hf Hat Hi Hu. remember (pcount f - i) as n eqn:En.
  revert i it fuel Hat Hi En. induction n as [|n IH]; intros i it fuel Hat Hi En Hfuel;
    (destruct fuel as [|fuel]; [lia|]); cbn [iter_next];
    pose proof (turn_spec f it i Hf Hat ltac:(lia)) as Ht.
  - rewrite bool_decide_eq_false_2 in Ht by lia. destruct (iter_turn f it) as [it' t].
    simpl in Ht. by subst t.
  - rewrite bool_decide_eq_true_2 in Ht by lia. destruct Ht as (it' & -> & Hat').
    rewrite items_cons. destruct (decode_record (prec f i)) as [e|].
    + exists it', (S i). split_and!; try done; try lia. do 2 f_equal. lia.
    + specialize (IH (S i) it' fuel Hat' ltac:(lia) ltac:(lia) ltac:(lia)).
      destruct (items f (S i) n) as [|e rest]; [done|].
      destruct IH as (it2 & j & H1 & H2 & H3 & H4). exists it2, j. split_and!; try done; lia.
Qed.

Lemma iter_drain_spec f it i n fuel :
  pwf f -> at_rec f it i -> i <= pcount f -> (Z.of_nat (pcount f) <= u32_max)%Z ->
  pcount f - i < fuel -> pcount f - i < n ->
  drain n fuel f it = items f i (pcount f - i).
Proof.
  intros Hf Hat Hi Hu Hfuel. revert i it Hat Hi Hfuel.
  induction n as [|n IH]; intros i it Hat Hi Hfuel Hn; [lia|]. cbn [drain].
  pose proof (next_spec f it i fuel Hf Hat Hi Hu Hfuel) as Hs.
  destruct (items f i (pcount f - i)) as [|e rest].
  - destruct (iter_next fuel f it) as [o it']. simpl in Hs. by subst o.
  - destruct Hs as (it' & j & -> & Hat' & Hj & <-). f_equal. apply IH; [done|lia|lia|lia].
Qed.

Lemma iter_all_items idx :
  pwf (file idx) -> (Z.of_nat (pcount (file idx)) <= u32_max)%Z ->
  iter_all idx = items (file idx) 0 (pcount (file idx)).
Proof.
  intros Hf Hu. unfold iter_all. cbv zeta.
  pose proof (rec_count_wf HEADER_SIZE RECORD_SIZE page_record_size_pos _ Hf) as Hlen.
  rewrite (iter_drain_spec _ _ 0); [by rewrite Nat.sub_0_r|done|apply at_rec_start|lia|done| |];
    sizes; lia.
Qed.

Lemma get_rec idx p : get idx p = hash <$> decode_record (prec (file idx) p).
Proof. unfold get. by rewrite get_entry_rec. Qed.

Lemma get_past_end idx p : pwf (file idx) -> pcount (file idx) <= p -> get idx p = None.
Proof.
  intros Hf Hp. rewrite get_rec, rec_past_end by (done || apply page_record_size_pos). done.
Qed.

Lemma elem_of_items idx p h :
  pwf (file idx) -> (p, h) ∈ items (file idx) 0 (pcount (file idx)) <-> get idx p = Some h.
Proof.
  intros Hf. unfold items. rewrite list_elem_of_omap. split.
  - intros (j & _ & Hj). rewrite get_rec.
    destruct (decode_record (prec (file idx) j)) as [e|] eqn:E; [|done].
    injection Hj as <- <-. by rewrite E.
  - intros Hg. exists p. split.
    + apply elem_of_seq. destruct (le_lt_dec (pcount (file idx)) p); [|lia].
      by rewrite get_past_end in Hg.
    + rewrite get_rec in Hg. destruct (decode_record _); [|done]. simpl in *. congruence.
Qed.

Lemma items_sorted f i n :
  StronglySorted (fun a b => a.1 < b.1) (items f i n) /\ Forall (fun e => i <= e.1) (items f i n).
Proof.
  revert i. induction n as [|n IH]; intros i; [repeat constructor|]. rewrite items_cons.
  destruct (IH (S i)) as [Hs Hall]. destruct (decode_record (prec f i)) as [e|].
  - split; constructor; simpl; try done; eapply Forall_impl; try exact Hall; intros [q ?]; simpl; lia.
  - split; [done|]. eapply Forall_impl; [exact Hall|]. intros [q ?]; simpl; lia.
Qed.

(** The iterator is exact: draining it yields each allocated page once, in
    ascending page-id order, with its hash, and nothing else, whatever the
    number of buffer refills. *)
Theorem iter_exact idx :
  pwf (file idx) -> (Z.of_nat (pcount (file idx)) <= u32_max)%Z ->
  StronglySorted (fun a b => a.1 < b.1) (iter_all idx) /\
  forall p h, (p, h) ∈ iter_all idx <-> get idx p = Some h.
Proof.
  intros Hf Hu. rewrite iter_all_items by done. split; [apply items_sorted|].
  intros p h. by apply elem_of_items.
Qed.

Definition two_pages : PageIndex :=
  run [OSet 1 (replicate 32 7%Z) 9; OSet 3 (replicate 32 8%Z) 0] sample_index.

Lemma iter_exact_witness :
  (3, replicate 32 8%Z) ∈ iter_all two_pages /\ (2, replicate 32 8%Z) ∉ iter_all two_pages.
Proof.
  destruct (iter_exact two_pages) as [_ H].
  - exists 4. vm_compute. reflexivity.
  - vm_compute. discriminate.
  - split; [apply H; vm_compute; reflexivity|].
    intros Hin. apply H in Hin. vm_compute in Hin. discriminate Hin.
Defined.

Lemma fold_last (l : list (nat * list Z)) a :
  fold_left (fun _ e => Some e.1) l a = match last l with Some e => Some e.1 | None => a end.
Proof.
  revert a. induction l as [|e l IH]; intros a; [done|]. cbn [fold_left]. rewrite IH.
  destruct l as [|e' l]; [done|]. rewrite last_cons_cons.
  destruct (last (e' :: l)) eqn:E; [done|]. by apply last_None in E.
Qed.

Lemma sorted_last (l : list (nat * list Z)) e :
  StronglySorted (fun a b => a.1 < b.1) l -> last l = Some e -> forall x, x ∈ l -> x.1 <= e.1.
Proof.
  intros Hs Hl x Hx. apply last_Some in Hl as [l' ->]. apply elem_of_app in Hx as [Hx|Hx].
  - apply StronglySorted_app in Hs as (Hlt & _ & _).
    apply Nat.lt_le_incl, (Hlt x e); [done|by apply list_elem_of_singleton].
  - apply list_elem_of_singleton in Hx as ->. done.
Qed.

(** [highest_allocated_page] is the greatest allocated page id, and [None]
    exactly when no page is allocated: a shrink to just past it drops no
    data. *)
Theorem highest_allocated_page_spec idx :
  pwf (file idx) -> (Z.of_nat (pcount (file idx)) <= u32_max)%Z ->
  match highest_allocated_page idx with
  | Some p => is_Some (get idx p) /\ (forall q, p < q -> get idx q = None) /\
      forall q, get (truncate_from idx (S p)) q = get idx q
  | None => forall q, get idx q = None
  end.
Proof.
  intros Hf Hu. unfold highest_allocated_page. rewrite fold_last, iter_all_items by done.
  pose proof (items_sorted (file idx) 0 (pcount (file idx))) as [Hs _].
  pose proof (fun p h => elem_of_items idx p h Hf) as Hin.
  destruct (last (items _ _ _)) as [[p h]|] eqn:El; simpl.
  - assert (Hmax : forall q, p < q -> get idx q = None).
    { intros q Hq. destruct (get idx q) as [h'|] eqn:Eq; [|done]. apply Hin in Eq.
      pose proof (sorted_last _ _ Hs El _ Eq) as Hle. simpl in Hle. lia. }
    split; [|split; [done|]].
    + exists h. apply Hin. apply last_Some in El as [l' ->]. set_solver.
    + intros q. destruct (decide (q < S p)).
      * rewrite !get_rec. unfold truncate_from. cbv zeta. case_bool_decide; [done|]. simpl.
        change (page_offset (S p)) with (rec_off HEADER_SIZE RECORD_SIZE (S p)).
        rewrite rec_set_len by (done || apply page_record_size_pos). by rewrite bool_decide_eq_true_2.
      * rewrite (Hmax q) by lia. rewrite get_rec. unfold truncate_from. cbv zeta.
        case_bool_decide; [by rewrite <- get_rec, Hmax by lia|]. simpl.
        change (page_offset (S p)) with (rec_off HEADER_SIZE RECORD_SIZE (S p)).
        rewrite rec_set_len by (done || apply page_record_size_pos). by rewrite bool_decide_eq_false_2.
  - intros q. destruct (get idx q) as [h|] eqn:Eq; [|done]. apply Hin in Eq.
    apply last_None in El. rewrite El in Eq. by apply not_elem_of_nil in Eq.
Qed.

Lemma highest_allocated_page_spec_witness :
  highest_allocated_page two_pages = Some 3 /\ forall q, 3 < q -> get two_pages q = None.
Proof.
  assert (E : highest_allocated_page two_pages = Some 3) by (vm_compute; reflexivity).
  split; [exact E|].
  pose proof (highest_allocated_page_spec two_pages) as H. rewrite E in H.
  apply H; [exists 4; vm_compute; reflexivity|vm_compute; discriminate].
Defined.

(** ** In-place restore *)

Lemma iter_cap_pos : 0 < iter_cap.
Proof. pose proof iter_batch_pos. unfold iter_cap, RECORD_SIZE. lia. Qed.

Lemma copy_body_spec fuel src dst o :
  length dst = length src -> o <= length src -> length src - o <= fuel ->
  copy_body fuel src dst o (length src) = take o dst ++ drop o src.
Proof.
  pose proof iter_cap_pos as Hcap. revert dst o.
  induction fuel as [|fuel IH]; intros dst o Hd Ho Hf; cbn [copy_body].
  - rewrite take_ge, drop_ge, app_nil_r by lia. done.
  - case_bool_decide as Hlt; [|by rewrite take_ge, drop_ge, app_nil_r by lia].
    cbv zeta. set (n := iter_cap `min` (length src - o)).
    assert (Hn : 0 < n /\ o + n <= length src) by (unfold n; lia).
    unfold read_at. remember (sl o n src) as buf eqn:Eb.
    assert (Hl : length buf = n) by (rewrite Eb; apply length_sl; lia).
    assert (Hne : buf <> []) by (intros ->; simpl in Hl; lia).
    assert (Hm : forall x y : list Z, match buf with [] => x | _ => y end = y) by (by destruct buf).
    rewrite Hm, Hl, IH.
    + rewrite write_at_nonnil, app_assoc, take_app_length'
        by (done || (rewrite length_app, length_write_prefix; lia)).
      replace (o - length dst) with 0 by lia. rewrite app_nil_r, <- app_assoc. f_equal.
      rewrite Eb. unfold sl. rewrite <- drop_drop. apply take_drop.
    + rewrite length_write_at by done. lia.
    + lia.
    + lia.
Qed.

Lemma prec_body h src i :
  length h = HEADER_SIZE -> HEADER_SIZE <= length src -> prec (h ++ drop HEADER_SIZE src) i = prec src i.
Proof.
  intros Hh Hs. unfold rec, read_at. rewrite (sl_skip HEADER_SIZE) by (done || (sizes; lia)).
  rewrite sl_drop.
  replace (HEADER_SIZE + (rec_off HEADER_SIZE RECORD_SIZE i - HEADER_SIZE))
    with (rec_off HEADER_SIZE RECORD_SIZE i) by (sizes; lia). done.
Qed.

(** An in-place restore from a snapshot of the same volume, of either
    format version and of any length, succeeds and leaves an index whose
    every page reads as in the snapshot, with its own header kept. *)
Theorem restore_exact idx src v :
  idx_wf idx -> pwf src -> (1 <= v <= 2)%Z ->
  sl 0 HEADER_SIZE src = header_v v (volume_uuid idx) (page_size_bytes idx) ->
  exists idx', restore_from idx (Some src) = Ok idx' /\ idx_wf idx' /\
    (forall i, get_entry idx' i = decode_record (prec src i)) /\
    length (file idx') = length src.
Proof.
  intros [Hf Hh Hu Hp] Hs Hv Hsh.
  pose proof (length_header_v v (volume_uuid idx) (page_size_bytes idx) Hu) as Hl.
  assert (Hls : HEADER_SIZE <= length src) by (destruct Hs as [n ->]; sizes; lia).
  assert (Hlf : HEADER_SIZE <= length (file idx)) by (destruct Hf as [n ->]; sizes; lia).
  unfold restore_from, read_exact_at, read_at. rewrite Hsh, Hl.
  rewrite bool_decide_eq_false_2 by lia. unfold header_v at 1.
  rewrite check_header_build by (done || (unfold in_u32, u32_max; lia)).
  replace ((MIN_READABLE_VERSION <=? v) && (v <=? SCHEMA_VERSION))%Z with true
    by (symmetry; apply andb_true_iff; rewrite !Z.leb_le; unfold MIN_READABLE_VERSION, SCHEMA_VERSION; lia).
  simpl result_bind. cbv zeta. rewrite copy_body_spec by (rewrite ?length_set_len; sizes; lia).
  set (h := take HEADER_SIZE (set_len (file idx) (length src))).
  assert (Hhd : h = build_header (volume_uuid idx) (page_size_bytes idx)).
  { rewrite <- Hh. change h with (sl 0 HEADER_SIZE (set_len (file idx) (length src))).
    apply sl_set_len; lia. }
  assert (Hhl : length h = HEADER_SIZE) by (rewrite Hhd; by apply length_build_header).
  eexists. split; [done|]. simpl. split_and!.
  - split; simpl; try done.
    + destruct Hs as [n Hn]. exists n. rewrite length_app, length_drop, Hhl, Hn. sizes. lia.
    + by rewrite sl_head.
  - intros i. rewrite get_entry_rec. simpl. by rewrite prec_body.
  - rewrite length_app, length_drop. lia.
Qed.

Lemma restore_exact_witness :
  exists idx', restore_from two_pages (Some v1_file) = Ok idx' /\
    get_entry idx' 0 = Some (mkEntry (replicate 32 7%Z) 0) /\ get_entry idx' 3 = None.
Proof.
  destruct (restore_exact two_pages v1_file 1) as (idx' & H1 & _ & H2 & _).
  - split; [exists 4; vm_compute; reflexivity|vm_compute; reflexivity|vm_compute; reflexivity|].
    unfold in_u64, u64_max. simpl. lia.
  - exists 1. reflexivity.
  - lia.
  - vm_compute. reflexivity.
  - exists idx'. split; [exact H1|]. rewrite !H2. split; vm_compute; reflexivity.
Defined.
