(* ===== verification/UploadIndex.v ===== *)
(** * The upload-state sidecar ([core/block/src/upload_index.rs])

    [upload.idx]: a 16-byte header and one state byte per page id, a missing
    byte reading as [Uploaded].  Open with rebuild on a bad header, the
    record operations, the bulk read, the reset of an in-place restore, and
    the recovery iterator. *)

From S2P Require Import Prelude Bytes ByteFile.

Local Open Scope Z_scope.

Definition RECORD_SIZE : nat := 1.
Definition HEADER_SIZE : nat := 16.
Definition MAGIC : list Z := [67; 83; 85; 73].
Definition VERSION : Z := 1.

Inductive UploadState : Type := Uploaded | LocalOnly.

#[export] Instance UploadState_eq_dec : EqDecision UploadState.
Proof. solve_decision. Defined.

Definition to_byte (s : UploadState) : Z :=
  match s with Uploaded => 0x00 | LocalOnly => 0x01 end.

Definition from_byte (b : Z) : UploadState := if b =? 0x01 then LocalOnly else Uploaded.

(** The sidecar is its file. *)
Definition UploadIndexFile : Type := list Z.

Definition write_header (f : list Z) : list Z :=
  write_at f 0 (index_header MAGIC VERSION (Z.of_nat RECORD_SIZE) HEADER_SIZE).

Definition header_ok (hdr : list Z) : bool :=
  bool_decide (header_magic hdr = MAGIC) && (header_version hdr =? VERSION)
    && (header_rsz hdr =? Z.of_nat RECORD_SIZE).

Definition open_or_create (existing : option (list Z)) : UploadIndexFile :=
  let f := default [] existing in
  if bool_decide (length f = 0)%nat then write_header f
  else if bool_decide (length f < HEADER_SIZE)%nat then write_header (set_len f 0)
  else
    if negb (header_ok (sl 0 HEADER_SIZE f)) then write_header (set_len f 0) else f.

Definition record_offset (page_id : nat) : nat := (HEADER_SIZE + page_id * RECORD_SIZE)%nat.

Definition set_unsynced (f : UploadIndexFile) (page_id : nat) (s : UploadState) : UploadIndexFile :=
  write_at f (record_offset page_id) [to_byte s].

(** [set] syncs as well. *)
Definition set (f : UploadIndexFile) (page_id : nat) (s : UploadState) : UploadIndexFile :=
  set_unsynced f page_id s.

Definition read (f : UploadIndexFile) (page_id : nat) : UploadState :=
  let buf := read_at f (record_offset page_id) RECORD_SIZE in
  if bool_decide (length buf < RECORD_SIZE)%nat then Uploaded
  else from_byte (default 0 (buf !! 0%nat)).

Definition read_all (f : UploadIndexFile) : list Z :=
  if bool_decide (length f <= HEADER_SIZE)%nat then [] else drop HEADER_SIZE f.

Definition reset_to_clean (f : UploadIndexFile) : UploadIndexFile := write_header (set_len f 0).

(** ** The recovery iterator *)

Record UploadIndexIter : Type := mkIter { next_offset : nat; len : nat }.

Definition iter (f : UploadIndexFile) : UploadIndexIter := mkIter HEADER_SIZE (length f).

Definition next (f : UploadIndexFile) (it : UploadIndexIter) :
    option (nat * UploadState) * UploadIndexIter :=
  if bool_decide (len it <= next_offset it)%nat then (None, it)
  else match read_at f (next_offset it) RECORD_SIZE with
    | [] => (None, it)
    | b :: _ =>
        let page_idx := ((next_offset it - HEADER_SIZE) / RECORD_SIZE)%nat in
        if u32_max <? Z.of_nat page_idx then (None, it)
        else (Some (page_idx, from_byte b), mkIter (next_offset it + RECORD_SIZE) (len it))
    end.

Fixpoint drain (fuel : nat) (f : UploadIndexFile) (it : UploadIndexIter) :
    list (nat * UploadState) :=
  match fuel with
  | O => []
  | S fuel =>
      match next f it with
      | (Some e, it') => e :: drain fuel f it'
      | (None, _) => []
      end
  end.

(** One record is one byte, so the length is enough fuel. *)
Definition iter_all (f : UploadIndexFile) : list (nat * UploadState) :=
  drain (S (length f)) f (iter f).

(** ** The file as a map from page ids to states *)

Notation urec := (rec HEADER_SIZE RECORD_SIZE).
Notation ucount := (rec_count HEADER_SIZE RECORD_SIZE).

Lemma upload_record_size_pos : (0 < RECORD_SIZE)%nat.
Proof. unfold RECORD_SIZE. lia. Qed.
#[local] Hint Resolve upload_record_size_pos : core.

Definition state_of (r : list Z) : UploadState := from_byte (default 0 (r !! 0%nat)).

Lemma upload_read_rec f p : read f p = state_of (urec f p).
Proof.
  unfold read, rec. change (record_offset p) with (rec_off HEADER_SIZE RECORD_SIZE p).
  cbv zeta. by case_bool_decide.
Qed.

Lemma from_to_byte s : from_byte (to_byte s) = s.
Proof. by destruct s. Qed.

(** A valid header; any number of one-byte records may follow. *)
Definition wf (f : UploadIndexFile) : Prop :=
  (HEADER_SIZE <= length f)%nat /\ header_ok (sl 0 HEADER_SIZE f) = true.

Lemma wf_rf f : wf f -> rf_wf HEADER_SIZE RECORD_SIZE f.
Proof.
  intros [Hl _]. exists (length f - HEADER_SIZE)%nat. unfold rec_off, RECORD_SIZE. lia.
Qed.

Lemma upload_write_header_nil :
  write_header [] = index_header MAGIC VERSION (Z.of_nat RECORD_SIZE) HEADER_SIZE.
Proof. apply write_header_empty; [done|unfold HEADER_SIZE; lia]. Qed.

Lemma upload_fresh_spec : wf (write_header []) /\ forall p, read (write_header []) p = Uploaded.
Proof.
  split; [split; vm_compute; done|]. intros p. rewrite upload_write_header_nil, upload_read_rec.
  by rewrite rec_header by (done || (apply length_index_header; [done|unfold HEADER_SIZE; lia])).
Qed.

Lemma upload_set_len_zero f : set_len f 0 = [].
Proof. apply nil_length_inv, length_set_len. Qed.

Lemma open_cases existing :
  open_or_create existing =
    match existing with
    | Some f => if bool_decide (HEADER_SIZE <= length f)%nat && header_ok (sl 0 HEADER_SIZE f)
                then f else write_header []
    | None => write_header []
    end.
Proof.
  unfold open_or_create. destruct existing as [f|]; [|done]. simpl default. cbv zeta.
  rewrite upload_set_len_zero. case_bool_decide as H1.
  - apply nil_length_inv in H1 as ->. done.
  - case_bool_decide as H2; [by rewrite bool_decide_eq_false_2 by lia|].
    rewrite bool_decide_eq_true_2 by lia. by destruct (header_ok _).
Qed.

Lemma open_wf existing : wf (open_or_create existing).
Proof.
  pose proof upload_fresh_spec as [Hfr _]. rewrite open_cases. destruct existing as [f|]; [|done].
  case_bool_decide; [|done]. simpl. by destruct (header_ok _) eqn:E.
Qed.

(** ** Histories *)

Inductive UploadOp : Type :=
  | USet (page_id : nat) (s : UploadState)
  | UReset
  | UReopen.

Definition apply_op (f : UploadIndexFile) (op : UploadOp) : UploadIndexFile :=
  match op with
  | USet p s => set_unsynced f p s
  | UReset => reset_to_clean f
  | UReopen => open_or_create (Some f)
  end.

Definition spec_op (m : nat -> UploadState) (op : UploadOp) : nat -> UploadState :=
  match op with
  | USet p s => fun q => if bool_decide (q = p) then s else m q
  | UReset => fun _ => Uploaded
  | UReopen => m
  end.

Lemma upload_op_step f op :
  wf f -> wf (apply_op f op) /\ forall q, read (apply_op f op) q = spec_op (read f) op q.
Proof.
  intros Hf. pose proof (wf_rf f Hf) as Hr. destruct Hf as [Hl Hh].
  destruct op as [p s| |]; simpl.
  - unfold set_unsynced. change (record_offset p) with (rec_off HEADER_SIZE RECORD_SIZE p).
    split; [split|].
    + rewrite length_write_at by done. lia.
    + by rewrite sl_header_write.
    + intros q. rewrite !upload_read_rec. case_bool_decide.
      * subst. rewrite rec_write_same by done. apply from_to_byte.
      * by rewrite rec_write_other.
  - unfold reset_to_clean. rewrite upload_set_len_zero. apply upload_fresh_spec.
  - rewrite open_cases, bool_decide_eq_true_2, Hh by done. by split.
Qed.

Lemma upload_run_refines ops f m :
  wf f -> (forall q, read f q = m q) ->
  wf (fold_left apply_op ops f) /\ forall q, read (fold_left apply_op ops f) q = fold_left spec_op ops m q.
Proof.
  revert f m. induction ops as [|op ops IH]; intros f m Hf Hm; simpl; [done|].
  destruct (upload_op_step f op Hf) as [Hf' Hs]. apply IH; [done|]. intros q. rewrite Hs.
  destruct op; simpl; [by case_bool_decide|done|done].
Qed.

(** Whatever file is found at open, the sidecar afterwards refines a map
    from page ids to upload states in which an unknown page is [Uploaded]:
    after any history of updates, resets and reopens, [read] returns the
    last state written for the page since the last reset. *)
Theorem upload_index_refines existing ops q :
  read (fold_left apply_op ops (open_or_create existing)) q =
    fold_left spec_op ops (read (open_or_create existing)) q.
Proof. apply upload_run_refines; [apply open_wf|done]. Qed.

(** ** The recovery scan *)

Lemma length_rf f : wf f -> length f = (HEADER_SIZE + ucount f)%nat.
Proof.
  intros Hf. rewrite (rec_count_wf _ _ upload_record_size_pos f (wf_rf f Hf)) at 1.
  unfold rec_off, RECORD_SIZE. lia.
Qed.

Lemma upload_drain_spec f i fuel :
  wf f -> (i <= ucount f)%nat -> Z.of_nat (ucount f) <= u32_max -> (ucount f - i < fuel)%nat ->
  drain fuel f (mkIter (HEADER_SIZE + i) (length f)) =
    map (fun p => (p, read f p)) (seq i (ucount f - i)).
Proof.
  intros Hf Hi Hu. pose proof (length_rf f Hf) as Hl. remember (ucount f - i)%nat as n eqn:En.
  revert i fuel Hi En. induction n as [|n IH]; intros i fuel Hi En Hfuel;
    (destruct fuel as [|fuel]; [lia|]); cbn [drain]; unfold next; cbn [next_offset len].
  - by rewrite bool_decide_eq_true_2 by lia.
  - rewrite bool_decide_eq_false_2 by lia.
    assert (Hb : read_at f (HEADER_SIZE + i) RECORD_SIZE = urec f i).
    { rewrite rec_in by (done || (unfold rec_off, RECORD_SIZE; lia)).
      unfold read_at, rec_off, RECORD_SIZE. f_equal. lia. }
    rewrite Hb. pose proof (length_rec HEADER_SIZE RECORD_SIZE upload_record_size_pos f i) as Hlr.
    pose proof (upload_read_rec f i) as Hread.
    destruct (urec f i) as [|b r]; [simpl in Hlr; unfold RECORD_SIZE in Hlr; lia|].
    cbv zeta. replace (HEADER_SIZE + i - HEADER_SIZE)%nat with i by lia.
    unfold RECORD_SIZE at 1 2. rewrite Nat.div_1_r.
    rewrite (proj2 (Z.ltb_ge _ _)) by lia. simpl seq. simpl map.
    unfold state_of in Hread. simpl in Hread. rewrite <- Hread. f_equal.
    replace (HEADER_SIZE + i + RECORD_SIZE)%nat with (HEADER_SIZE + S i)%nat
      by (unfold RECORD_SIZE; lia).
    apply IH; lia.
Qed.

(** The recovery scan yields every page id below the end of the file
    exactly once with the state [read] reports; in particular every
    surviving [LocalOnly] page is found, and never-written pages before the
    last record are yielded too, as [Uploaded]. *)
Theorem upload_scan_exact f :
  wf f -> Z.of_nat (ucount f) <= u32_max ->
  iter_all f = map (fun p => (p, read f p)) (seq 0 (ucount f)) /\
  (forall p, read f p = LocalOnly -> (p, LocalOnly) ∈ iter_all f).
Proof.
  intros Hf Hu. assert (E : iter_all f = map (fun p => (p, read f p)) (seq 0 (ucount f))).
  { unfold iter_all, iter. rewrite <- (Nat.add_0_r HEADER_SIZE), upload_drain_spec; try done;
      [by rewrite Nat.sub_0_r|lia|]. pose proof (length_rf f Hf). lia. }
  split; [done|]. intros p Hp. rewrite E. apply list_elem_of_In, in_map_iff. exists p.
  split; [by rewrite Hp|]. apply in_seq. split; [lia|].
  destruct (le_lt_dec (ucount f) p); [|lia].
  rewrite upload_read_rec, rec_past_end in Hp by (done || by apply wf_rf). done.
Qed.

Definition one_pending : UploadIndexFile := set_unsynced (open_or_create None) 2 LocalOnly.

Lemma upload_scan_exact_witness :
  iter_all one_pending = [(0%nat, Uploaded); (1%nat, Uploaded); (2%nat, LocalOnly)].
Proof.
  refine (eq_trans (proj1 (upload_scan_exact one_pending _ _)) _).
  - split; [vm_compute; lia|vm_compute; reflexivity].
  - vm_compute. discriminate.
  - vm_compute. reflexivity.
Defined.
