(* ===== verification/BlockLru.v ===== *)
(** * The volume LRU sidecar ([core/block/src/lru_index.rs])

    [lru.idx]: a 32-byte header and one [u64] timestamp per page id, with
    the bounded in-memory map of last written timestamps that suppresses
    redundant writes.  The theorems show the map is invisible: a history of
    touches reads back as if every touch had been written. *)

From stdpp Require Import gmap.
From S2P Require Import Prelude Bytes ByteFile.

Local Open Scope Z_scope.

Definition MAX_TRACKED_TIMESTAMPS : Z := Z.shiftl 1 16.
Definition RECORD_SIZE : nat := 8.
Definition HEADER_SIZE : nat := 32.
Definition MAGIC : list Z := [67; 83; 76; 73].
Definition VERSION : Z := 1.

Record LruIndexFile : Type := mkLru {
  file : list Z;
  last_written : gmap nat Z;
}.

Definition from_file (f : list Z) : LruIndexFile := mkLru f ∅.

Definition write_header (f : list Z) : list Z :=
  write_at f 0 (index_header MAGIC VERSION (Z.of_nat RECORD_SIZE) HEADER_SIZE).

Definition header_ok (hdr : list Z) : bool :=
  bool_decide (header_magic hdr = MAGIC) && (header_version hdr =? VERSION)
    && (header_rsz hdr =? Z.of_nat RECORD_SIZE).

Definition open_or_create (existing : option (list Z)) : LruIndexFile :=
  let f := default [] existing in
  if bool_decide (length f = 0)%nat then from_file (write_header f)
  else if bool_decide (length f < HEADER_SIZE)%nat then from_file (write_header (set_len f 0))
  else if negb (header_ok (sl 0 HEADER_SIZE f)) then from_file (write_header (set_len f 0))
  else from_file f.

Definition record_offset (page_id : nat) : nat := (HEADER_SIZE + page_id * RECORD_SIZE)%nat.

(** The map update at the end of [touch]. *)
Definition remember (seen : gmap nat Z) (page_id : nat) (ts : Z) : gmap nat Z :=
  let seen := if (MAX_TRACKED_TIMESTAMPS <=? Z.of_nat (size seen))
                   && negb (bool_decide (is_Some (seen !! page_id)))
              then ∅ else seen in
  <[page_id := ts]> seen.

Definition touch (l : LruIndexFile) (page_id : nat) (ts : Z) : LruIndexFile :=
  if bool_decide (last_written l !! page_id = Some ts) then l
  else mkLru (write_at (file l) (record_offset page_id) (u64_le ts))
             (remember (last_written l) page_id ts).

Definition read (l : LruIndexFile) (page_id : nat) : Z :=
  let buf := read_at (file l) (record_offset page_id) RECORD_SIZE in
  if bool_decide (length buf < RECORD_SIZE)%nat then 0 else le_val buf.

(** The record loop of [read_all]. *)
Definition read_all (l : LruIndexFile) : list Z :=
  let f := file l in
  if bool_decide (length f <= HEADER_SIZE)%nat then []
  else
    let body := drop HEADER_SIZE f in
    let count := (length body / RECORD_SIZE)%nat in
    map (fun i => le_val (sl (i * RECORD_SIZE) RECORD_SIZE body)) (seq 0 count).

Definition reset_to_clean (l : LruIndexFile) : LruIndexFile :=
  mkLru (write_header (set_len (file l) 0)) ∅.

(** ** Invariant *)

Notation lrec := (rec HEADER_SIZE RECORD_SIZE).

Lemma lru_record_size_pos : (0 < RECORD_SIZE)%nat.
Proof. unfold RECORD_SIZE. lia. Qed.
#[local] Hint Resolve lru_record_size_pos : core.

Lemma lru_read_rec l p : read l p = le_val (lrec (file l) p).
Proof.
  unfold read, rec. change (record_offset p) with (rec_off HEADER_SIZE RECORD_SIZE p).
  cbv zeta. by case_bool_decide.
Qed.

(** A remembered timestamp is the one on disk, and the map is bounded. *)
Record wf (l : LruIndexFile) : Prop := {
  wf_file : rf_wf HEADER_SIZE RECORD_SIZE (file l);
  wf_header : header_ok (sl 0 HEADER_SIZE (file l)) = true;
  wf_cache : forall p ts, last_written l !! p = Some ts -> read l p = ts;
  wf_bound : Z.of_nat (size (last_written l)) <= MAX_TRACKED_TIMESTAMPS;
}.

Lemma lru_write_header_nil :
  write_header [] = index_header MAGIC VERSION (Z.of_nat RECORD_SIZE) HEADER_SIZE.
Proof. apply write_header_empty; [done|unfold HEADER_SIZE; lia]. Qed.

Lemma length_fresh : length (write_header []) = HEADER_SIZE.
Proof. rewrite lru_write_header_nil. apply length_index_header; [done|unfold HEADER_SIZE; lia]. Qed.

Lemma lru_fresh_spec :
  wf (from_file (write_header [])) /\ forall p, read (from_file (write_header [])) p = 0.
Proof.
  split.
  - split; simpl; [apply rf_wf_header; [done|apply length_fresh]|vm_compute; done|done|].
    rewrite map_size_empty. vm_compute. done.
  - intros p. rewrite lru_read_rec. simpl. by rewrite rec_header by (done || apply length_fresh).
Qed.

Lemma lru_set_len_zero f : set_len f 0 = [].
Proof. apply nil_length_inv, length_set_len. Qed.

Lemma remember_bound seen p ts :
  Z.of_nat (size seen) <= MAX_TRACKED_TIMESTAMPS ->
  Z.of_nat (size (remember seen p ts)) <= MAX_TRACKED_TIMESTAMPS.
Proof.
  intros Hb. unfold remember. cbv zeta.
  destruct (seen !! p) as [t|] eqn:E.
  - rewrite bool_decide_eq_true_2, andb_false_r by done.
    rewrite map_size_insert_Some by done. done.
  - rewrite bool_decide_eq_false_2 by (by intros []). rewrite andb_true_r.
    destruct (Z.leb_spec MAX_TRACKED_TIMESTAMPS (Z.of_nat (size seen))).
    + rewrite map_size_insert_None, map_size_empty by apply lookup_empty.
      unfold MAX_TRACKED_TIMESTAMPS. vm_compute. done.
    + rewrite map_size_insert_None by done. lia.
Qed.

Lemma remember_lookup seen p ts q t :
  remember seen p ts !! q = Some t -> (q = p /\ t = ts) \/ (q <> p /\ seen !! q = Some t).
Proof.
  unfold remember. cbv zeta. destruct (decide (q = p)) as [->|Hne].
  - rewrite lookup_insert_eq. naive_solver.
  - rewrite lookup_insert_ne by done. destruct (_ && _); [by rewrite lookup_empty|]. auto.
Qed.

Lemma touch_step l p ts :
  wf l -> in_u64 ts ->
  wf (touch l p ts) /\ forall q, read (touch l p ts) q = if bool_decide (q = p) then ts else read l q.
Proof.
  intros Hw Hts. pose proof Hw as [Hf Hh Hc Hb]. unfold touch. case_bool_decide as Hseen.
  - split; [done|]. intros q. case_bool_decide; [subst; by apply Hc|done].
  - set (l' := mkLru _ _).
    assert (Hr : forall q, read l' q = if bool_decide (q = p) then ts else read l q).
    { intros q. rewrite !lru_read_rec. unfold l'. cbn [file].
      change (record_offset p) with (rec_off HEADER_SIZE RECORD_SIZE p). case_bool_decide.
      - subst. rewrite rec_write_same by (done || apply length_u64_le). by apply u64_le_val.
      - by rewrite rec_write_other by (done || apply length_u64_le). }
    split; [|done]. split.
    + by apply rf_wf_write; [|done|apply length_u64_le].
    + unfold l'. cbn [file]. change (record_offset p) with (rec_off HEADER_SIZE RECORD_SIZE p).
      by rewrite sl_header_write by (done || lia).
    + intros q t Hq. rewrite Hr. apply remember_lookup in Hq as [[-> ->]|[Hne Hq]].
      * by rewrite bool_decide_eq_true_2.
      * rewrite bool_decide_eq_false_2 by done. by apply Hc.
    + by apply remember_bound.
Qed.

(** ** Histories *)

Inductive LruOp : Type :=
  | LTouch (page_id : nat) (ts : Z)
  | LReset
  | LReopen.

Definition apply_op (l : LruIndexFile) (op : LruOp) : LruIndexFile :=
  match op with
  | LTouch p ts => touch l p ts
  | LReset => reset_to_clean l
  | LReopen => open_or_create (Some (file l))
  end.

Definition spec_op (m : nat -> Z) (op : LruOp) : nat -> Z :=
  match op with
  | LTouch p ts => fun q => if bool_decide (q = p) then ts else m q
  | LReset => fun _ => 0
  | LReopen => m
  end.

Definition op_ok (op : LruOp) : Prop := match op with LTouch _ ts => in_u64 ts | _ => True end.

Lemma lru_op_step l op :
  wf l -> op_ok op -> wf (apply_op l op) /\ forall q, read (apply_op l op) q = spec_op (read l) op q.
Proof.
  intros Hw Hop. destruct op as [p ts| |]; simpl.
  - by apply touch_step.
  - unfold reset_to_clean. rewrite lru_set_len_zero. apply lru_fresh_spec.
  - destruct Hw as [Hf Hh Hc Hb].
    assert (Hl : (HEADER_SIZE <= length (file l))%nat) by (destruct Hf as [n ->]; unfold rec_off; lia).
    assert (E : open_or_create (Some (file l)) = from_file (file l)).
    { unfold open_or_create. simpl default. cbv zeta. rewrite Hh.
      rewrite bool_decide_eq_false_2 by (unfold HEADER_SIZE in Hl; lia).
      by rewrite bool_decide_eq_false_2 by lia. }
    rewrite E. split; [|done]. split; simpl; try done.
Qed.

Lemma lru_run_refines ops l m :
  wf l -> Forall op_ok ops -> (forall q, read l q = m q) ->
  wf (fold_left apply_op ops l) /\
  forall q, read (fold_left apply_op ops l) q = fold_left spec_op ops m q.
Proof.
  revert l m. induction ops as [|op ops IH]; intros l m Hw Hops Hm; simpl; [done|].
  inversion_clear Hops. destruct (lru_op_step l op Hw) as [Hw' Hs]; [done|]. apply IH; [done|done|].
  intros q. rewrite Hs. destruct op; simpl; [by case_bool_decide|done|done].
Qed.

(** The write-suppressing timestamp map is invisible: after any history of
    touches, resets and reopens, [read] returns the last timestamp touched
    since the last reset (0 if none), as if every touch had been written,
    and the map never holds more than its cap. *)
Theorem lru_dedup_invisible ops q :
  Forall op_ok ops ->
  let l := fold_left apply_op ops (open_or_create None) in
  read l q = fold_left spec_op ops (fun _ => 0) q /\
  Z.of_nat (size (last_written l)) <= MAX_TRACKED_TIMESTAMPS.
Proof.
  intros Hops. pose proof lru_fresh_spec as [Hw Hr].
  destruct (lru_run_refines ops (open_or_create None) (fun _ => 0) Hw Hops Hr) as [Hw' H].
  split; [apply H|apply Hw'].
Qed.

Lemma lru_dedup_invisible_witness :
  read (fold_left apply_op [LTouch 3 100; LTouch 3 100; LReset; LTouch 3 100]
    (open_or_create None)) 3 = 100.
Proof.
  apply (lru_dedup_invisible [LTouch 3 100; LTouch 3 100; LReset; LTouch 3 100] 3).
  repeat constructor; unfold u64_max; lia.
Defined.

(** The bulk read is the per-page read of every whole record. *)
Lemma read_all_spec l :
  rf_wf HEADER_SIZE RECORD_SIZE (file l) ->
  read_all l = map (read l) (seq 0 (rec_count HEADER_SIZE RECORD_SIZE (file l))).
Proof.
  intros Hf. pose proof (rec_count_wf _ _ lru_record_size_pos _ Hf) as Hl. unfold read_all. cbv zeta.
  case_bool_decide as H.
  - replace (rec_count HEADER_SIZE RECORD_SIZE (file l)) with 0%nat
      by (unfold rec_off, RECORD_SIZE in *; lia). done.
  - rewrite length_drop. change ((length (file l) - HEADER_SIZE) / RECORD_SIZE)%nat
      with (rec_count HEADER_SIZE RECORD_SIZE (file l)).
    apply map_ext_in. intros i [_ Hi]%in_seq. rewrite lru_read_rec, rec_in
      by (done || (unfold rec_off, RECORD_SIZE in *; lia)).
    unfold sl. rewrite drop_drop. unfold rec_off. done.
Qed.
