(* ===== verification/DirtyPages.v ===== *)
(** * The dirty-page tracker ([core/stream/src/dirty_pages.rs])

    The bitmap of 1 MiB pages of an index file changed since the last
    upload: marking, truncation, snapshot, clearing, and the sidecar file it
    is persisted to.  A word of the bitmap is a 64-bit [Z]; [dirty] is the
    abstract view, a predicate on page numbers. *)

From S2P Require Import Prelude Bytes ByteFile.

Local Open Scope Z_scope.

Definition PAGE_SIZE : Z := 1024 * 1024.
Definition HEADER_SIZE : nat := 32.
Definition MAGIC : list Z := [78; 86; 68; 80].
Definition VERSION : Z := 1.

Record Inner : Type := mkInner { bits : list Z; epoch : Z }.

Record DirtySnapshot : Type := mkSnap { pages : list Z; snap_epoch : Z }.

(** ** Bit operations *)

Definition word_of (page : Z) : nat := Z.to_nat (page / 64).
Definition bit_of (page : Z) : Z := page mod 64.

Definition update_word (bs : list Z) (page : Z) (g : Z -> Z) : list Z :=
  alter g (word_of page) bs.

Definition set_bit (bs : list Z) (page : Z) : list Z :=
  update_word bs page (fun w => Z.lor w (Z.shiftl 1 (bit_of page))).

Definition ensure_capacity (bs : list Z) (max_page : Z) : list Z :=
  let needed_words := S (word_of max_page) in
  if bool_decide (length bs < needed_words)%nat
  then bs ++ zeros (needed_words - length bs) else bs.

Definition mark_range (i : Inner) (offset len : Z) : Inner :=
  if len =? 0 then i
  else
    let first := wrap32 (offset / PAGE_SIZE) in
    let last := wrap32 ((offset + len - 1) / PAGE_SIZE) in
    mkInner (fold_left set_bit (seqZ first (last - first + 1)) (ensure_capacity (bits i) last))
      (epoch i).

Definition truncate_to_pages (i : Inner) (new_page_count : Z) : Inner :=
  let needed_words := Z.to_nat (div_ceil new_page_count 64) in
  let bs := if bool_decide (needed_words < length (bits i))%nat
            then take needed_words (bits i) else bits i in
  let bits_used := new_page_count mod 64 in
  let bs :=
    if negb (bits_used =? 0) && bool_decide (length bs = needed_words) then
      alter (fun w => Z.land w (Z.shiftl 1 bits_used - 1)) (length bs - 1)%nat bs
    else bs in
  let bs :=
    if 0 <? new_page_count then
      let boundary := new_page_count - 1 in
      if bool_decide (word_of boundary < length bs)%nat then set_bit bs boundary else bs
    else bs in
  mkInner bs (epoch i).

(** [u64::trailing_zeros] of a non-zero word. *)
Fixpoint ctz (p : positive) : Z :=
  match p with
  | xO p => 1 + ctz p
  | _ => 0
  end.

(** [while w != 0 { push(trailing_zeros); w &= w - 1 }]: at most 64 turns. *)
Fixpoint word_bits (fuel : nat) (w : Z) : list Z :=
  match fuel, w with
  | S fuel, Zpos p => ctz p :: word_bits fuel (Z.land w (w - 1))
  | _, _ => []
  end.

Definition word_pages (word_idx : nat) (w : Z) : list Z :=
  if w =? 0 then []
  else map (fun b => wrap32 (Z.of_nat word_idx * 64 + b)) (word_bits 64 w).

Definition snapshot (i : Inner) : DirtySnapshot :=
  mkSnap (concat (imap word_pages (bits i))) (epoch i).

Definition clear_pages (i : Inner) (ps : list Z) : Inner :=
  mkInner
    (fold_left (fun bs page =>
       if bool_decide (word_of page < length bs)%nat
       then update_word bs page (fun w => Z.land w (Z.lnot (Z.shiftl 1 (bit_of page))))
       else bs) ps (bits i))
    (epoch i).

Definition bump_epoch (i : Inner) : Inner := mkInner (bits i) (sat_add64 (epoch i) 1).

Definition any_dirty (i : Inner) : bool := existsb (fun w => negb (w =? 0)) (bits i).

(** ** The sidecar file *)

Inductive LoadError : Type := ShortHeader | MagicMismatch | VersionUnsupported | PageSizeDisagrees.

Definition persist (i : Inner) : list Z :=
  MAGIC ++ u32_le VERSION ++ u32_le PAGE_SIZE ++ u64_le (epoch i) ++ zeros 12
    ++ flat_map u64_le (bits i).

(** [chunks(8)], each chunk zero-extended to a word. *)
Definition words_of (n : nat) (buf : list Z) : list Z :=
  map (fun k => let chunk := sl (k * 8) 8 buf in le_val (chunk ++ zeros (8 - length chunk)))
    (seq 0 n).

Definition load (file : list Z) : result Inner LoadError :=
  if bool_decide (length file < HEADER_SIZE)%nat then Err ShortHeader
  else
    let hdr := sl 0 HEADER_SIZE file in
    if bool_decide (sl 0 4 hdr <> MAGIC) then Err MagicMismatch
    else if negb (le_val (sl 4 4 hdr) =? VERSION) then Err VersionUnsupported
    else if negb (le_val (sl 8 4 hdr) =? PAGE_SIZE) then Err PageSizeDisagrees
    else
      let ep := le_val (sl 12 8 hdr) in
      let bitmap_bytes := (length file - HEADER_SIZE)%nat in
      let words := ((bitmap_bytes + 7) / 8)%nat in
      Ok (mkInner (words_of words (drop HEADER_SIZE file)) ep).

Definition open_or_create (sidecar : option (list Z)) : result Inner LoadError :=
  match sidecar with
  | Some f => load f
  | None => Ok (mkInner [] 0)
  end.

(** ** The abstract view *)

Definition dirty (bs : list Z) (page : Z) : bool :=
  Z.testbit (default 0 (bs !! word_of page)) (bit_of page).

Definition word_ok (w : Z) : Prop := in_u64 w.
Definition inner_wf (i : Inner) : Prop :=
  Forall word_ok (bits i) /\ in_u64 (epoch i) /\ Z.of_nat (length (bits i)) * 64 <= u32_max + 1.

Lemma same_page p q : 0 <= p -> 0 <= q -> word_of p = word_of q -> bit_of p = bit_of q -> p = q.
Proof.
  unfold word_of, bit_of. intros Hp Hq Hw Hb.
  rewrite (Z.div_mod p 64), (Z.div_mod q 64) by lia.
  assert (p / 64 = q / 64); [|lia].
  apply Z2Nat.inj; [apply Z.div_pos; lia|apply Z.div_pos; lia|done].
Qed.

Lemma bit_of_range p : 0 <= bit_of p < 64.
Proof. unfold bit_of. apply Z.mod_pos_bound. lia. Qed.

Lemma dirty_update bs q p g :
  0 <= p -> 0 <= q -> (word_of q < length bs)%nat ->
  (forall w b, 0 <= b -> b <> bit_of q -> Z.testbit (g w) b = Z.testbit w b) ->
  dirty (update_word bs q g) p =
    if p =? q then Z.testbit (g (default 0 (bs !! word_of q))) (bit_of q) else dirty bs p.
Proof.
  intros Hp Hq Hlen Hg. unfold dirty, update_word.
  destruct (decide (word_of p = word_of q)) as [Hw|Hw].
  - rewrite Hw, list_lookup_alter_eq. destruct (lookup_lt_is_Some_2 bs _ Hlen) as [w Ew].
    rewrite Ew. simpl. destruct (Z.eqb_spec p q) as [->|Hne]; [done|].
    apply Hg; [apply bit_of_range|]. intros Hb. apply Hne. by apply same_page.
  - rewrite list_lookup_alter_ne by done. destruct (Z.eqb_spec p q) as [->|Hne]; [by destruct Hw|done].
Qed.

Lemma testbit_one n b : 0 <= n -> 0 <= b -> Z.testbit (Z.shiftl 1 n) b = (b =? n).
Proof.
  intros. rewrite Z.shiftl_spec by done. destruct (Z.eqb_spec b n) as [->|Hne].
  - by rewrite Z.sub_diag.
  - destruct (Z.lt_ge_cases b n); [by rewrite Z.testbit_neg_r by lia|].
    rewrite Z.testbit_eqb by lia. apply Z.eqb_neq.
    rewrite Z.div_small by (split; [lia|]; apply Z.pow_gt_1; lia). done.
Qed.

Lemma dirty_set_bit bs q p :
  0 <= p -> 0 <= q -> (word_of q < length bs)%nat ->
  dirty (set_bit bs q) p = (p =? q) || dirty bs p.
Proof.
  intros Hp Hq Hl. pose proof (bit_of_range q) as Hb. unfold set_bit. rewrite dirty_update; try done.
  - destruct (Z.eqb_spec p q) as [->|]; [|done].
    rewrite Z.lor_spec, testbit_one, Z.eqb_refl by lia. apply orb_true_r.
  - intros w b Hb0 Hne. rewrite Z.lor_spec, testbit_one by lia.
    rewrite (proj2 (Z.eqb_neq _ _)) by done. apply orb_false_r.
Qed.

Lemma length_set_bit bs q : length (set_bit bs q) = length bs.
Proof. apply length_alter. Qed.

Lemma dirty_out bs p : (length bs <= word_of p)%nat -> dirty bs p = false.
Proof. intros. unfold dirty. rewrite lookup_ge_None_2 by done. simpl. apply Z.bits_0. Qed.

Lemma dirty_app_zeros bs n p : dirty (bs ++ zeros n) p = dirty bs p.
Proof.
  destruct (le_lt_dec (length bs) (word_of p)).
  - rewrite (dirty_out bs) by done. unfold dirty. rewrite lookup_app_r by done.
    destruct (zeros n !! (word_of p - length bs)%nat) as [w|] eqn:E; simpl; [|apply Z.bits_0].
    apply lookup_replicate_1 in E as [-> _]. apply Z.bits_0.
  - unfold dirty. by rewrite lookup_app_l by done.
Qed.

Lemma word_of_mono p q : 0 <= p <= q -> (word_of p <= word_of q)%nat.
Proof.
  intros. unfold word_of. apply Z2Nat.inj_le; [apply Z.div_pos; lia..|].
  apply Z.div_le_mono; lia.
Qed.

(** [word_of] against a word count, as an inequality on pages. *)
Lemma word_of_lt p n : 0 <= p -> (word_of p < n)%nat <-> p < Z.of_nat n * 64.
Proof.
  intros. unfold word_of. pose proof (Z.div_mod p 64 ltac:(lia)).
  pose proof (Z.mod_pos_bound p 64 ltac:(lia)). pose proof (Z.div_pos p 64 ltac:(lia) ltac:(lia)).
  split; intros; lia.
Qed.

Lemma length_ensure bs m : length (ensure_capacity bs m) = (length bs `max` S (word_of m))%nat.
Proof.
  unfold ensure_capacity. cbv zeta. case_bool_decide; [rewrite length_app, length_zeros|]; lia.
Qed.

Lemma dirty_ensure bs m p : dirty (ensure_capacity bs m) p = dirty bs p.
Proof. unfold ensure_capacity. cbv zeta. case_bool_decide; [apply dirty_app_zeros|done]. Qed.

Lemma dirty_fold l bs p :
  0 <= p -> Forall (fun q => 0 <= q /\ (word_of q < length bs)%nat) l ->
  dirty (fold_left set_bit l bs) p = bool_decide (p ∈ l) || dirty bs p.
Proof.
  intros Hp. revert bs. induction l as [|q l IH]; intros bs Hl; simpl; [done|].
  inversion_clear Hl as [|? ? [Hq Hw] Hl']. rewrite IH.
  - rewrite dirty_set_bit by done. destruct (Z.eqb_spec p q) as [->|Hne].
    + simpl. rewrite orb_true_r, (bool_decide_eq_true_2 (q ∈ q :: l)) by set_solver. done.
    + simpl. f_equal. apply bool_decide_ext. set_solver.
  - eapply Forall_impl; [exact Hl'|]. intros q'. by rewrite length_set_bit.
Qed.

Definition page_of (off : Z) : Z := off / PAGE_SIZE.

Lemma mark_range_spec i off n p :
  0 <= off -> 0 < n -> page_of (off + n - 1) <= u32_max -> 0 <= p ->
  dirty (bits (mark_range i off n)) p =
    (page_of off <=? p) && (p <=? page_of (off + n - 1)) || dirty (bits i) p.
Proof.
  intros Hoff Hn Hmax Hp. unfold mark_range. rewrite (proj2 (Z.eqb_neq _ _)) by lia.
  fold (page_of off) (page_of (off + n - 1)).
  assert (H0 : 0 <= page_of off) by (apply Z.div_pos; unfold PAGE_SIZE; lia).
  assert (H1 : page_of off <= page_of (off + n - 1))
    by (apply Z.div_le_mono; unfold PAGE_SIZE; lia).
  assert (Hwrap : forall z, 0 <= z <= u32_max -> wrap32 z = z)
    by (intros; apply Z.mod_small; lia).
  rewrite !Hwrap by lia. cbn [bits]. rewrite dirty_fold, dirty_ensure.
  - f_equal. destruct (decide (p ∈ seqZ (page_of off) (page_of (off + n - 1) - page_of off + 1))) as [E|E].
    + rewrite bool_decide_eq_true_2 by done. apply elem_of_seqZ in E. symmetry.
      apply andb_true_iff. rewrite !Z.leb_le. lia.
    + rewrite bool_decide_eq_false_2 by done. rewrite elem_of_seqZ in E. symmetry.
      apply andb_false_iff. rewrite !Z.leb_gt. lia.
  - done.
  - apply Forall_forall. intros q Hq. apply elem_of_seqZ in Hq. split; [lia|].
    rewrite length_ensure. pose proof (word_of_mono q (page_of (off + n - 1)) ltac:(lia)). lia.
Qed.

(** ** Truncation *)

Lemma div_ceil_64 n : 0 <= n -> n <= div_ceil n 64 * 64 < n + 64 /\ 0 <= div_ceil n 64.
Proof.
  intros. unfold div_ceil. replace (n + 64 - 1) with (n + 63) by lia.
  pose proof (Z.div_mod (n + 63) 64 ltac:(lia)). pose proof (Z.mod_pos_bound (n + 63) 64 ltac:(lia)). lia.
Qed.

Lemma testbit_mask k b : 0 <= k -> 0 <= b -> Z.testbit (Z.shiftl 1 k - 1) b = (b <? k).
Proof.
  intros. rewrite Z.shiftl_1_l. replace (2 ^ k - 1) with (Z.ones k) by (rewrite Z.ones_equiv; lia).
  destruct (Z.ltb_spec b k).
  - by apply Z.ones_spec_low.
  - by apply Z.ones_spec_high.
Qed.

(** The bitmap with its capacity cut and its last word masked. *)
Definition cut (bs : list Z) (n : Z) : list Z :=
  let needed := Z.to_nat (div_ceil n 64) in
  let bs := if bool_decide (needed < length bs)%nat then take needed bs else bs in
  if negb (n mod 64 =? 0) && bool_decide (length bs = needed) then
    alter (fun w => Z.land w (Z.shiftl 1 (n mod 64) - 1)) (length bs - 1)%nat bs
  else bs.

Lemma length_cut bs n :
  length (cut bs n) = (length bs `min` Z.to_nat (div_ceil n 64))%nat.
Proof.
  unfold cut. cbv zeta. destruct (_ && _); rewrite ?length_alter; case_bool_decide;
    rewrite ?length_take; lia.
Qed.

Lemma dirty_take bs k p : 0 <= p -> dirty (take k bs) p = (p <? Z.of_nat k * 64) && dirty bs p.
Proof.
  intros Hp. unfold dirty. destruct (Z.ltb_spec p (Z.of_nat k * 64)) as [H|H].
  - rewrite lookup_take_lt; [done|]. by apply word_of_lt.
  - rewrite lookup_take_ge; [apply Z.bits_0|].
    destruct (le_lt_dec k (word_of p)); [done|]. apply word_of_lt in l; lia.
Qed.

Lemma dirty_bound bs p : 0 <= p -> dirty bs p = true -> p < Z.of_nat (length bs) * 64.
Proof.
  intros Hp Hd. apply word_of_lt; [done|]. destruct (le_lt_dec (length bs) (word_of p)); [|done].
  by rewrite dirty_out in Hd.
Qed.

Lemma dirty_cut bs n p : 0 <= n -> 0 <= p -> dirty (cut bs n) p = (p <? n) && dirty bs p.
Proof.
  intros Hn Hp. unfold cut. cbv zeta. pose proof (div_ceil_64 n Hn) as [Hc Hc0].
  set (needed := Z.to_nat (div_ceil n 64)).
  assert (Hned : Z.of_nat needed = div_ceil n 64) by (unfold needed; lia).
  set (bs1 := if bool_decide (needed < length bs)%nat then take needed bs else bs).
  assert (H1 : dirty bs1 p = (p <? Z.of_nat needed * 64) && dirty bs p).
  { unfold bs1. case_bool_decide as Hl; [by apply dirty_take|].
    destruct (dirty bs p) eqn:E; rewrite ?andb_false_r; [|done].
    pose proof (dirty_bound bs p Hp E). symmetry. rewrite andb_true_r. apply Z.ltb_lt. lia. }
  assert (Hl1 : (length bs1 <= needed)%nat)
    by (unfold bs1; case_bool_decide; rewrite ?length_take; lia).
  destruct (n mod 64 =? 0) eqn:Em; simpl.
  - apply Z.eqb_eq in Em. rewrite H1. f_equal.
    assert (Z.of_nat needed * 64 = n) as ->; [|done].
    rewrite Hned. pose proof (Z.div_mod n 64 ltac:(lia)). lia.
  - apply Z.eqb_neq in Em. pose proof (Z.mod_pos_bound n 64 ltac:(lia)) as Hm.
    pose proof (Z.div_mod n 64 ltac:(lia)) as Hdm.
    case_bool_decide as Hlen.
    + assert (Hw : word_of n = (length bs1 - 1)%nat).
      { unfold word_of. rewrite Hlen. lia. }
      assert (0 < length bs1)%nat by lia.
      unfold dirty at 1. destruct (decide (word_of p = word_of n)) as [Hpw|Hpw].
      * rewrite Hpw, Hw, list_lookup_alter_eq.
        destruct (lookup_lt_is_Some_2 bs1 (length bs1 - 1)%nat ltac:(lia)) as [w Ew].
        rewrite Ew. simpl. pose proof (bit_of_range p) as Hb.
        rewrite Z.land_spec, testbit_mask by lia.
        assert (Hd : dirty bs1 p = Z.testbit w (bit_of p))
          by (unfold dirty; by rewrite Hpw, Hw, Ew).
        rewrite <- Hd, H1. unfold word_of, bit_of in *. pose proof (Z.div_mod p 64 ltac:(lia)).
        assert (p / 64 = n / 64) by (apply Z2Nat.inj; [apply Z.div_pos; lia..|done]).
        destruct (Z.ltb_spec (p mod 64) (n mod 64)), (Z.ltb_spec p (Z.of_nat needed * 64)),
          (Z.ltb_spec p n); rewrite ?andb_true_r, ?andb_false_r; simpl; try done; lia.
      * rewrite list_lookup_alter_ne by (rewrite <- Hw; done). fold (dirty bs1 p). rewrite H1.
        destruct (dirty bs p); rewrite ?andb_false_r, ?andb_true_r; [|done].
        unfold word_of in *. pose proof (Z.div_mod p 64 ltac:(lia)).
        pose proof (Z.mod_pos_bound p 64 ltac:(lia)).
        assert (p / 64 <> n / 64) by congruence.
        destruct (Z.ltb_spec p (Z.of_nat needed * 64)), (Z.ltb_spec p n); try done; lia.
    + destruct (dirty bs1 p) eqn:E; symmetry in H1.
      * apply andb_prop in H1 as [_ ->]. rewrite andb_true_r. symmetry. apply Z.ltb_lt.
        pose proof (dirty_bound bs1 p Hp E). lia.
      * apply andb_false_iff in H1 as [H1|H1]; [|by rewrite H1, andb_false_r].
        apply Z.ltb_ge in H1. by rewrite (proj2 (Z.ltb_ge _ _)) by lia.
Qed.

Lemma truncate_cut i n :
  bits (truncate_to_pages i n) =
    if 0 <? n then
      if bool_decide (word_of (n - 1) < length (cut (bits i) n))%nat
      then set_bit (cut (bits i) n) (n - 1) else cut (bits i) n
    else cut (bits i) n.
Proof. done. Qed.

Lemma truncate_exact_core i n p :
  0 <= n -> 0 <= p ->
  dirty (bits (truncate_to_pages i n)) p =
    (p <? n) && (dirty (bits i) p
      || ((p =? n - 1) && bool_decide (n - 1 < Z.of_nat (length (bits i)) * 64))).
Proof.
  intros Hn Hp. rewrite truncate_cut. pose proof (div_ceil_64 n Hn) as [Hc Hc0].
  destruct (Z.ltb_spec 0 n) as [Hpos|Hz].
  - assert (Hword : (word_of (n - 1) < length (cut (bits i) n))%nat <->
      n - 1 < Z.of_nat (length (bits i)) * 64).
    { rewrite word_of_lt, length_cut by lia. lia. }
    case_bool_decide as Hl; rewrite Hword in Hl.
    + rewrite dirty_set_bit, dirty_cut by (try tauto; lia).
      rewrite (bool_decide_eq_true_2 (n - 1 < _)), andb_true_r by done.
      destruct (Z.eqb_spec p (n - 1)) as [->|]; [|by rewrite orb_false_r].
      rewrite (proj2 (Z.ltb_lt _ _)) by lia. by rewrite orb_true_r.
    + rewrite dirty_cut, (bool_decide_eq_false_2 (n - 1 < _)), andb_false_r, orb_false_r by done.
      done.
  - rewrite dirty_cut by done. rewrite (proj2 (Z.ltb_ge p n)) by lia. done.
Qed.

(** Truncating to [n] pages forgets every page at or past [n], keeps the
    marks below, and marks the boundary page [n - 1] if and only if the
    bitmap is long enough to hold it. *)
Theorem truncate_exact i n p :
  0 <= n -> 0 <= p ->
  dirty (bits (truncate_to_pages i n)) p =
    (p <? n) && (dirty (bits i) p
      || ((p =? n - 1) && bool_decide (n - 1 < Z.of_nat (length (bits i)) * 64))).
Proof. apply truncate_exact_core. Qed.

Lemma length_truncate_bits i n :
  0 <= n -> length (bits (truncate_to_pages i n)) = (length (bits i) `min` Z.to_nat (div_ceil n 64))%nat.
Proof.
  intros. rewrite truncate_cut, <- length_cut.
  destruct (0 <? n); [|done]. case_bool_decide; [apply length_set_bit|done].
Qed.

Lemma truncate_exact_witness :
  dirty (bits (truncate_to_pages (mkInner [] 0) 3)) 2 = false /\
  dirty (bits (truncate_to_pages (mkInner [0] 0) 3)) 2 = true.
Proof.
  split.
  - refine (eq_trans (truncate_exact (mkInner [] 0) 3 2 _ _) _); [lia|lia|reflexivity].
  - refine (eq_trans (truncate_exact (mkInner [0] 0) 3 2 _ _) _); [lia|lia|reflexivity].
Defined.

(** ** Snapshot *)

Lemma ctz_bound p : 0 <= ctz p.
Proof. induction p; simpl; lia. Qed.

Lemma ctz_set p : Z.testbit (Zpos p) (ctz p) = true.
Proof.
  induction p as [p IH|p IH|]; simpl; [done| |done].
  rewrite Pos2Z.inj_xO. rewrite Z.add_comm. change (ctz p + 1) with (Z.succ (ctz p)).
  rewrite Z.testbit_even_succ by apply ctz_bound. done.
Qed.

Lemma ctz_low p i : 0 <= i < ctz p -> Z.testbit (Zpos p) i = false.
Proof.
  revert i. induction p as [p IH|p IH|]; intros i Hi; simpl in Hi; [lia| |lia].
  rewrite Pos2Z.inj_xO. destruct (Z.eq_dec i 0) as [->|]; [apply Z.testbit_even_0|].
  replace i with (Z.succ (i - 1)) by lia. rewrite Z.testbit_even_succ by lia. apply IH. lia.
Qed.

(** [w & (w - 1)] clears the lowest set bit. *)
Lemma clear_lowest p i :
  0 <= i -> Z.testbit (Z.land (Zpos p) (Zpos p - 1)) i = Z.testbit (Zpos p) i && negb (i =? ctz p).
Proof.
  revert i. induction p as [p IH|p IH|]; intros i Hi.
  - rewrite Z.land_spec. change (ctz p~1) with 0. replace (Zpos p~1 - 1) with (2 * Zpos p) by lia.
    destruct (Z.eqb_spec i 0) as [->|]; [by rewrite Z.testbit_even_0, andb_false_r|].
    simpl negb. rewrite andb_true_r, Pos2Z.inj_xI. replace i with (Z.succ (i - 1)) by lia.
    rewrite Z.testbit_even_succ, Z.testbit_odd_succ by lia. apply andb_diag.
  - rewrite Z.land_spec. simpl ctz. rewrite Pos2Z.inj_xO.
    destruct (Z.eq_dec i 0) as [->|Hne].
    + rewrite Z.testbit_even_0. done.
    + replace (2 * Zpos p - 1) with (2 * (Zpos p - 1) + 1) by lia.
      replace i with (Z.succ (i - 1)) by lia.
      rewrite Z.testbit_even_succ, Z.testbit_odd_succ by lia.
      rewrite <- Z.land_spec, IH by lia. f_equal. f_equal.
      destruct (Z.eqb_spec (i - 1) (ctz p)), (Z.eqb_spec (Z.succ (i - 1)) (1 + ctz p)); lia || done.
  - simpl. rewrite Z.bits_0. destruct (Z.eqb_spec i 0) as [->|]; [done|]. simpl negb.
    rewrite andb_true_r. symmetry. apply Z.bits_above_log2; simpl; lia.
Qed.

Lemma ctz_word q : word_ok (Zpos q) -> ctz q < 64.
Proof.
  intros Hw. destruct (Z.lt_ge_cases (ctz q) 64); [done|]. pose proof (ctz_set q) as Hset.
  rewrite Z.bits_above_log2 in Hset; [done|lia|]. apply Z.log2_lt_pow2; [lia|].
  apply Z.lt_le_trans with (2 ^ 64); [unfold word_ok, in_u64, u64_max in Hw; lia|].
  apply Z.pow_le_mono_r; lia.
Qed.


Lemma land_le_l a b : 0 <= a -> 0 <= b -> Z.land a b <= a.
Proof.
  intros. rewrite <- (Z2N.id a), <- (Z2N.id b), <- N2Z.inj_land by done.
  apply N2Z.inj_le, N.land_le_l.
Qed.

(** The bits of [w] from position [lo] up, in order. *)
Definition set_bits (w lo n : Z) : list Z := List.filter (fun b => Z.testbit w b) (seqZ lo n).

Lemma filter_none (P : Z -> bool) l : Forall (fun x => P x = false) l -> List.filter P l = [].
Proof. induction 1 as [|x l Hx Hl IH]; simpl; [done|]. by rewrite Hx. Qed.

Lemma seqZ_split lo t n : lo <= t -> t < lo + n -> seqZ lo n = seqZ lo (t - lo) ++ t :: seqZ (t + 1) (lo + n - t - 1).
Proof.
  intros. replace n with ((t - lo) + (n - (t - lo))) at 1 by lia. rewrite seqZ_app by lia. f_equal.
  rewrite seqZ_cons by lia. f_equal; [lia|]. f_equal; lia.
Qed.

Lemma word_bits_spec fuel w lo :
  0 <= w < 2 ^ 64 -> 0 <= lo <= 64 -> (forall i, 0 <= i < lo -> Z.testbit w i = false) ->
  (Z.to_nat (64 - lo) <= fuel)%nat -> word_bits fuel w = set_bits w lo (64 - lo).
Proof.
  revert w lo. induction fuel as [|fuel IH]; intros w lo Hw Hlo Hlow Hfuel.
  { replace (64 - lo) with 0 by lia. done. }
  destruct w as [|p|p]; [| |lia].
  { unfold set_bits. symmetry. apply filter_none, Forall_forall. intros. apply Z.bits_0. }
  pose proof (ctz_set p) as Hset. pose proof (ctz_bound p) as H0.
  assert (Hge : lo <= ctz p).
  { destruct (Z.lt_ge_cases (ctz p) lo); [|done]. by rewrite Hlow in Hset by lia. }
  assert (Hlt : ctz p < 64) by (apply ctz_word; unfold word_ok, in_u64, u64_max; lia).
  cbn [word_bits]. unfold set_bits. rewrite (seqZ_split lo (ctz p)) by lia.
  rewrite List.filter_app, filter_none. 2:{ apply Forall_forall. intros i Hi%elem_of_seqZ.
    apply ctz_low. lia. }
  simpl List.filter. rewrite Hset. cbn [app]. f_equal.
  assert (Hland : 0 <= Z.land (Zpos p) (Zpos p - 1) <= Zpos p)
    by (split; [apply Z.land_nonneg; lia|apply land_le_l; lia]).
  rewrite (IH _ (ctz p + 1)); [|lia|lia| |lia].
  - unfold set_bits. replace (lo + (64 - lo) - ctz p - 1) with (64 - (ctz p + 1)) by lia.
    apply List.filter_ext_in. intros i Hi. apply list_elem_of_In, elem_of_seqZ in Hi.
    rewrite clear_lowest by lia. rewrite (proj2 (Z.eqb_neq _ _)) by lia. apply andb_true_r.
  - intros i Hi. rewrite clear_lowest by lia. destruct (Z.eqb_spec i (ctz p)).
    + by rewrite andb_false_r.
    + rewrite ctz_low by lia. done.
Qed.

Lemma word_pages_spec k w :
  word_ok w -> Z.of_nat (S k) * 64 <= u32_max + 1 ->
  word_pages k w = List.filter (fun p => Z.testbit w (bit_of p)) (seqZ (Z.of_nat k * 64) 64).
Proof.
  intros Hw Hk. assert (Hw' : 0 <= w < 2 ^ 64) by (unfold word_ok, in_u64, u64_max in Hw; lia).
  assert (E : map (fun b => wrap32 (Z.of_nat k * 64 + b)) (set_bits w 0 64) =
    List.filter (fun p => Z.testbit w (bit_of p)) (seqZ (Z.of_nat k * 64) 64)).
  { replace (seqZ (Z.of_nat k * 64) 64) with (map (fun b => Z.of_nat k * 64 + b) (seqZ 0 64))
      by (etrans; [apply (fmap_add_seqZ (Z.of_nat k * 64) 0)|by rewrite Z.add_0_r]).
    unfold set_bits. assert (Hr : Forall (fun b => 0 <= b < 64) (seqZ 0 64))
      by (apply Forall_forall; intros b Hb%elem_of_seqZ; lia).
    induction Hr as [|b l Hb Hl IH]; [done|]. simpl.
    replace (bit_of (Z.of_nat k * 64 + b)) with b
      by (unfold bit_of; rewrite Z.add_comm, Z.mod_add, Z.mod_small; lia).
    destruct (Z.testbit w b); simpl; [|done]. rewrite IH. f_equal.
    apply Z.mod_small. unfold u32_max in *. lia. }
  unfold word_pages. destruct (Z.eqb_spec w 0) as [->|].
  - rewrite <- E. symmetry. unfold set_bits. rewrite filter_none; [done|].
    apply Forall_forall. intros. apply Z.bits_0.
  - rewrite (word_bits_spec 64 w 0); [done|done|lia|lia|lia].
Qed.

Lemma snapshot_filter i :
  inner_wf i ->
  pages (snapshot i) = List.filter (dirty (bits i)) (seqZ 0 (Z.of_nat (length (bits i)) * 64)).
Proof.
  intros (Hw & _ & Hlen). unfold snapshot. cbn [pages]. revert Hw Hlen. generalize (bits i) as bs. clear i.
  induction bs as [|w bs IH] using rev_ind; intros Hw Hlen; [done|].
  apply Forall_app in Hw as [Hw Hw1]. inversion_clear Hw1 as [|? ? Hw1' _].
  rewrite length_app in *. cbn [length] in *.
  rewrite imap_app, concat_app. cbn [imap concat]. rewrite app_nil_r, Nat.add_0_r.
  rewrite IH by (done || lia). rewrite word_pages_spec by (done || lia).
  replace (Z.of_nat (length bs + 1) * 64) with (Z.of_nat (length bs) * 64 + 64) by lia.
  rewrite seqZ_app, List.filter_app, Z.add_0_l by lia.
  apply (f_equal2 (@app Z)); apply List.filter_ext_in;
    intros p Hp; apply list_elem_of_In, elem_of_seqZ in Hp; unfold dirty.
  - rewrite lookup_app_l; [done|]. apply word_of_lt; lia.
  - assert (word_of p = length bs) as ->.
    { unfold word_of. pose proof (Z.div_mod p 64 ltac:(lia)).
      pose proof (Z.mod_pos_bound p 64 ltac:(lia)). lia. }
    by rewrite list_lookup_middle.
Qed.

Lemma snapshot_in i p :
  inner_wf i -> 0 <= p -> p ∈ pages (snapshot i) <-> dirty (bits i) p = true.
Proof.
  intros Hw Hp.
  rewrite snapshot_filter, list_elem_of_In, filter_In, <- list_elem_of_In, elem_of_seqZ by done.
  split; [tauto|]. intros Hd. split; [|done]. pose proof (dirty_bound _ _ Hp Hd). lia.
Qed.

Lemma snapshot_nonneg i : inner_wf i -> Forall (fun p => 0 <= p) (pages (snapshot i)).
Proof.
  intros Hw. rewrite snapshot_filter by done. apply Forall_forall. intros p Hp.
  apply list_elem_of_In, filter_In in Hp as [Hp _]. apply list_elem_of_In, elem_of_seqZ in Hp. lia.
Qed.

Lemma any_dirty_spec i :
  inner_wf i -> any_dirty i = true <-> exists p, 0 <= p /\ dirty (bits i) p = true.
Proof.
  intros Hw. unfold any_dirty. rewrite existsb_exists. split.
  - intros (w & Hwin & Hnz). apply negb_true_iff, Z.eqb_neq in Hnz.
    apply list_elem_of_In, list_elem_of_lookup in Hwin as [k Hk].
    assert (Hwok : word_ok w) by (destruct Hw as [Hf _]; by eapply Forall_lookup_1).
    destruct w as [|q|q]; [done| |unfold word_ok, in_u64 in Hwok; lia].
    pose proof (ctz_word q Hwok). pose proof (ctz_bound q). exists (Z.of_nat k * 64 + ctz q).
    split; [lia|]. unfold dirty, word_of, bit_of. rewrite Z.add_comm, Z.div_add, Z.mod_add by lia.
    rewrite Z.div_small, Z.mod_small, Z.add_0_l, Nat2Z.id, Hk by lia. apply ctz_set.
  - intros (p & Hp & Hd). unfold dirty in Hd.
    destruct (bits i !! word_of p) as [w|] eqn:Ew; simpl in Hd; [|by rewrite Z.bits_0 in Hd].
    exists w. split; [by eapply list_elem_of_In, list_elem_of_lookup_2|].
    apply negb_true_iff, Z.eqb_neq. intros ->. by rewrite Z.bits_0 in Hd.
Qed.

(** The upload snapshot is exact: it lists the dirty pages once each in
    ascending order, as the pages of the bitmap's range that are dirty, and
    misses none. *)
Theorem snapshot_exact i :
  inner_wf i ->
  pages (snapshot i) = List.filter (dirty (bits i)) (seqZ 0 (Z.of_nat (length (bits i)) * 64)) /\
  snap_epoch (snapshot i) = epoch i /\
  (forall p, 0 <= p -> p ∈ pages (snapshot i) <-> dirty (bits i) p = true) /\
  (any_dirty i = true <-> pages (snapshot i) <> []).
Proof.
  intros Hw. pose proof (snapshot_filter i Hw) as E. split; [done|]. split; [done|].
  assert (Hin : forall p, 0 <= p -> p ∈ pages (snapshot i) <-> dirty (bits i) p = true).
  { intros p. by apply snapshot_in. }
  split; [done|]. rewrite any_dirty_spec by done. split.
  - intros (p & Hp & Hd) Hnil. apply Hin in Hd; [|done]. rewrite Hnil in Hd.
    by apply not_elem_of_nil in Hd.
  - intros Hne. destruct (pages (snapshot i)) as [|p l] eqn:Ep; [done|]. exists p.
    pose proof (snapshot_nonneg i Hw) as Hnn. rewrite Ep in Hnn. inversion_clear Hnn.
    split; [done|]. apply Hin; [done|set_solver].
Qed.

Lemma snapshot_exact_witness :
  pages (snapshot (mkInner [6; 1] 9)) = [1; 2; 64].
Proof.
  refine (eq_trans (proj1 (snapshot_exact (mkInner [6; 1] 9) _)) _); [|reflexivity].
  split; [repeat constructor; unfold u64_max; lia|].
  split; [unfold in_u64, u64_max; simpl; lia|vm_compute; discriminate].
Defined.

(** ** Clearing *)

Lemma dirty_clear_bit bs q p :
  0 <= p -> 0 <= q ->
  dirty (if bool_decide (word_of q < length bs)%nat
         then update_word bs q (fun w => Z.land w (Z.lnot (Z.shiftl 1 (bit_of q)))) else bs) p =
    dirty bs p && negb (p =? q).
Proof.
  intros Hp Hq. pose proof (bit_of_range q). case_bool_decide as Hl.
  - rewrite dirty_update; try done.
    + destruct (Z.eqb_spec p q) as [->|]; [|by rewrite andb_true_r].
      rewrite Z.land_spec, Z.lnot_spec, testbit_one, Z.eqb_refl by lia. by rewrite !andb_false_r.
    + intros w b Hb Hne. rewrite Z.land_spec, Z.lnot_spec, testbit_one by lia.
      rewrite (proj2 (Z.eqb_neq _ _)) by done. apply andb_true_r.
  - destruct (Z.eqb_spec p q) as [->|]; [|by rewrite andb_true_r].
    rewrite dirty_out by lia. done.
Qed.

(** Clearing after an upload forgets exactly the pages that were put: a
    page stays dirty iff it was dirty and is not in the list. *)
Lemma clear_pages_exact i ps p :
  Forall (fun q => 0 <= q) ps -> 0 <= p ->
  dirty (bits (clear_pages i ps)) p = dirty (bits i) p && bool_decide (p ∉ ps).
Proof.
  intros Hps Hp. unfold clear_pages. cbn [bits]. generalize (bits i) as bs.
  induction Hps as [|q ps Hq Hps IH]; intros bs; cbn [fold_left].
  - by rewrite bool_decide_eq_true_2, andb_true_r by set_solver.
  - rewrite IH, dirty_clear_bit by done. rewrite <- andb_assoc. f_equal.
    destruct (Z.eqb_spec p q) as [->|Hne]; simpl.
    + by rewrite bool_decide_eq_false_2 by set_solver.
    + apply bool_decide_ext. set_solver.
Qed.

(** ** The sidecar round trip *)

Lemma length_words ws : length (flat_map u64_le ws) = (length ws * 8)%nat.
Proof. induction ws as [|w ws IH]; simpl; [done|]. rewrite length_app, length_u64_le, IH. done. Qed.

Lemma words_of_shift n w (ws : list Z) :
  word_ok w -> words_of (S n) (flat_map u64_le (w :: ws)) = w :: words_of n (flat_map u64_le ws).
Proof.
  intros Hw. unfold words_of. cbn [seq map flat_map]. f_equal.
  - rewrite sl_head by apply length_u64_le. rewrite length_u64_le. unfold zeros. simpl.
    rewrite app_nil_r. by apply u64_le_val.
  - rewrite <- seq_shift, map_map. apply map_ext. intros k. cbv zeta.
    rewrite (sl_skip 8) by (apply length_u64_le || lia).
    replace (S k * 8 - 8)%nat with (k * 8)%nat by lia. done.
Qed.

Lemma words_of_words ws : Forall word_ok ws -> words_of (length ws) (flat_map u64_le ws) = ws.
Proof.
  induction 1 as [|w ws Hw Hws IH]; [done|]. cbn [length]. by rewrite words_of_shift, IH.
Qed.

Lemma load_persist i : inner_wf i -> load (persist i) = Ok i.
Proof.
  intros (Hw & He & _). destruct i as [bs ep]. simpl in *.
  set (h := MAGIC ++ u32_le VERSION ++ u32_le PAGE_SIZE ++ u64_le ep ++ zeros 12).
  assert (Hh : length h = HEADER_SIZE) by (unfold h; autorewrite with thur_rw; done).
  assert (Ep : persist (mkInner bs ep) = h ++ flat_map u64_le bs)
    by (unfold persist, h; simpl; by rewrite <- !app_assoc).
  unfold load. rewrite Ep, length_app, Hh. rewrite bool_decide_eq_false_2 by lia. cbv zeta.
  rewrite sl_head, drop_app_length' by done. rewrite length_words.
  assert (E0 : sl 0 4 h = MAGIC) by (by apply sl_head).
  assert (E1 : le_val (sl 4 4 h) = VERSION)
    by (unfold h; rewrite (sl_skip 4) by (done || lia); sl_walk; by apply u32_le_val).
  assert (E2 : le_val (sl 8 4 h) = PAGE_SIZE)
    by (unfold h; rewrite (sl_skip 4) by (done || lia); sl_walk; by apply u32_le_val).
  assert (E3 : le_val (sl 12 8 h) = ep)
    by (unfold h; rewrite (sl_skip 4) by (done || lia); sl_walk; by apply u64_le_val).
  rewrite E0, E1, E2, E3. rewrite bool_decide_eq_false_2 by (by intros []). rewrite !Z.eqb_refl.
  simpl negb. cbv iota. do 2 f_equal.
  replace ((HEADER_SIZE + length bs * 8 - HEADER_SIZE + 7) / 8)%nat with (length bs).
  - by apply words_of_words.
  - replace (HEADER_SIZE + length bs * 8 - HEADER_SIZE + 7)%nat with (7 + length bs * 8)%nat by lia.
    by rewrite Nat.div_add by lia.
Qed.

(** ** The bitmap stays one of machine words *)

Lemma inner_wf_empty : inner_wf (mkInner [] 0).
Proof. split_and!; [done|unfold in_u64, u64_max; simpl; lia|done]. Qed.

Lemma word_ok_ones w : word_ok w <-> Z.land w (Z.ones 64) = w.
Proof.
  rewrite Z.land_ones by lia. unfold word_ok, in_u64, u64_max. split.
  - intros. apply Z.mod_small. lia.
  - intros <-. pose proof (Z.mod_pos_bound w (2 ^ 64) ltac:(lia)). lia.
Qed.

Lemma word_ok_land w x : word_ok w -> word_ok (Z.land w x).
Proof.
  rewrite !word_ok_ones. intros H. by rewrite <- Z.land_assoc, (Z.land_comm x), Z.land_assoc, H.
Qed.

Lemma word_ok_lor w x : word_ok w -> word_ok x -> word_ok (Z.lor w x).
Proof. rewrite !word_ok_ones. intros H1 H2. by rewrite Z.land_lor_distr_l, H1, H2. Qed.

Lemma word_ok_bit b : 0 <= b < 64 -> word_ok (Z.shiftl 1 b).
Proof.
  intros H. rewrite Z.shiftl_1_l. unfold word_ok, in_u64, u64_max.
  pose proof (Z.pow_pos_nonneg 2 b ltac:(lia) ltac:(lia)).
  pose proof (Z.pow_le_mono_r 2 b 63 ltac:(lia) ltac:(lia)). lia.
Qed.

Lemma set_bit_words bs p : Forall word_ok bs -> Forall word_ok (set_bit bs p).
Proof.
  intros H. apply Forall_alter; [done|]. intros w _ Hw.
  apply word_ok_lor; [done|]. apply word_ok_bit, bit_of_range.
Qed.

(** A fold of steps that keep the words and their number keeps both. *)
Lemma fold_words (step : list Z -> Z -> list Z) ps bs :
  (forall bs p, Forall word_ok bs ->
    Forall word_ok (step bs p) /\ length (step bs p) = length bs) ->
  Forall word_ok bs ->
  Forall word_ok (fold_left step ps bs) /\ length (fold_left step ps bs) = length bs.
Proof.
  intros Hs. revert bs. induction ps as [|q l IH]; intros bs Hb; [done|]. simpl.
  destruct (Hs bs q Hb) as [H1 H2]. destruct (IH _ H1) as [? ->]. done.
Qed.

Lemma mark_range_wf i off n :
  0 <= off -> 0 <= n -> page_of (off + n - 1) <= u32_max -> inner_wf i ->
  inner_wf (mark_range i off n).
Proof.
  intros Ho Hn Hm (Hw & He & Hl). unfold mark_range.
  destruct (Z.eqb_spec n 0) as [|Hne]; [done|]. fold (page_of (off + n - 1)).
  assert (H0 : 0 <= page_of (off + n - 1)) by (apply Z.div_pos; unfold PAGE_SIZE; lia).
  assert (wrap32 (page_of (off + n - 1)) = page_of (off + n - 1)) as -> by (apply Z.mod_small; lia).
  set (last := page_of (off + n - 1)) in *. set (bs := ensure_capacity (bits i) last).
  assert (Hb : Forall word_ok bs /\ length bs = (length (bits i) `max` S (word_of last))%nat).
  { split; [|apply length_ensure]. unfold bs, ensure_capacity. cbv zeta.
    case_bool_decide; [|done]. apply Forall_app_2; [done|]. apply Forall_replicate.
    unfold word_ok, in_u64, u64_max. lia. }
  destruct Hb as [Hb Hlen].
  destruct (fold_words set_bit (seqZ (wrap32 (off / PAGE_SIZE)) (last - wrap32 (off / PAGE_SIZE) + 1)) bs)
    as [H1 H2]; [|done|].
  { intros bs' p Hb'. split; [by apply set_bit_words|apply length_set_bit]. }
  split_and!; cbn [bits epoch]; [done|done|]. rewrite H2, Hlen.
  assert (Z.of_nat (S (word_of last)) * 64 <= u32_max + 1).
  { unfold word_of. pose proof (Z.div_mod last 64 ltac:(lia)).
    pose proof (Z.mod_pos_bound last 64 ltac:(lia)). unfold u32_max in *. lia. }
  lia.
Qed.

Lemma truncate_wf i n : inner_wf i -> inner_wf (truncate_to_pages i n).
Proof.
  intros (Hw & He & Hl). unfold truncate_to_pages. cbv zeta. fold (cut (bits i) n).
  assert (Hc : Forall word_ok (cut (bits i) n)).
  { unfold cut. cbv zeta. set (bs := if bool_decide _ then _ else _).
    assert (Forall word_ok bs) by (unfold bs; case_bool_decide; [by apply Forall_take|done]).
    destruct (_ && _); [|done]. apply Forall_alter; [done|]. intros w _. by apply word_ok_land. }
  pose proof (length_cut (bits i) n) as Hlc. split_and!; cbn [bits epoch]; [|done|].
  - destruct (0 <? n); [|done]. case_bool_decide; [|done]. by apply set_bit_words.
  - destruct (0 <? n); [case_bool_decide|]; rewrite ?length_set_bit; lia.
Qed.

Lemma length_clear i ps : length (bits (clear_pages i ps)) = length (bits i).
Proof.
  unfold clear_pages. cbn [bits]. generalize (bits i) as bs.
  induction ps as [|q ps IH]; intros bs; [done|]. cbn [fold_left]. rewrite IH.
  case_bool_decide; [apply length_alter|done].
Qed.

Lemma clear_pages_app i ps qs : clear_pages (clear_pages i ps) qs = clear_pages i (ps ++ qs).
Proof. unfold clear_pages. cbn [bits epoch]. by rewrite fold_left_app. Qed.

Lemma clear_pages_wf i ps : inner_wf i -> inner_wf (clear_pages i ps).
Proof.
  intros (Hw & He & Hl). unfold clear_pages.
  match goal with |- inner_wf (mkInner (fold_left ?f _ _) _) =>
    destruct (fold_words f ps (bits i)) as [H1 H2]; [|done|] end.
  - intros bs p Hb. simpl. case_bool_decide; [|done].
    split; [|apply length_alter]. apply Forall_alter; [done|]. intros w _. by apply word_ok_land.
  - split_and!; cbn [bits epoch]; [exact H1|done|]. by rewrite H2.
Qed.

Lemma bump_epoch_wf i : inner_wf i -> inner_wf (bump_epoch i).
Proof.
  intros (Hw & He & Hl). split_and!; [done| |done]. cbn [epoch bump_epoch].
  unfold sat_add64, in_u64 in *. lia.
Qed.

(** Every operation keeps the tracker a bitmap of 64-bit words for [u32]
    page numbers with a 64-bit epoch, and such a tracker survives its sidecar:
    loading what [persist] wrote gives back the same bitmap and epoch. *)
Theorem persist_load_roundtrip i off n k ps :
  inner_wf i -> 0 <= off -> 0 <= n -> page_of (off + n - 1) <= u32_max ->
  let i' := bump_epoch (clear_pages (truncate_to_pages (mark_range i off n) k) ps) in
  inner_wf i' /\ load (persist i') = Ok i'.
Proof.
  intros Hi Ho Hn Hm. cbv zeta.
  assert (inner_wf (bump_epoch (clear_pages (truncate_to_pages (mark_range i off n) k) ps))).
  { by apply bump_epoch_wf, clear_pages_wf, truncate_wf, mark_range_wf. }
  split; [done|by apply load_persist].
Qed.

Lemma persist_load_roundtrip_witness :
  let i' := bump_epoch (clear_pages (truncate_to_pages (mark_range (mkInner [6; 1] 9) 0 32) 70) [1]) in
  inner_wf i' /\ load (persist i') = Ok i'.
Proof.
  apply persist_load_roundtrip; [|lia|lia|vm_compute; discriminate].
  split; [repeat constructor; unfold u64_max; lia|].
  split; [unfold in_u64, u64_max; simpl; lia|vm_compute; discriminate].
Defined.
