(* ===== verification/IndexCodec.v ===== *)
(** * Index record codecs ([core/stream/src/compression_codec.rs],
    [core/stream/src/block_index.rs], [core/stream/src/chunk_index.rs])

    The 16-byte block record and the 64-byte chunk record of the tape
    indexes, with the compression sub-field they share.  The chunk record
    keeps its hash in hex at its interface and raw on disk; the [hex] crate
    is a parameter. *)

From Stdlib Require Import String.
From S2P Require Import Prelude Bytes ByteFile.

Local Open Scope Z_scope.

(** ** Errors *)

Inductive SmcError : Type :=
  | InvalidOp (msg : string)
  | IndexCorrupt (msg : string)
  | IoUnexpectedEof
  | Io
  | LibraryConfig (msg : string)
  | StorageError
  | EndOfData
  | EndOfMedium
  | EarlyWarning
  | CompressionError
  | ChunkPayloadCorrupt
  | ContentHashMismatch
  | DataDecryptionError (msg : string)
  | EncryptionError
  | WormViolation
  | LegalHoldViolation
  | SmcBackpressured.

(** ** Compression sub-field *)

Inductive CompressionAlgo : Type := Lz4 | Zstd | Sldc.

Definition FLAG_COMP_MASK : Z := 0x70.
Definition FLAG_COMP_SHIFT : Z := 4.

Inductive CompressionTag : Type := CNone | CLz4 | CZstd | CSldc.

Definition tag_as_u8 (t : CompressionTag) : Z :=
  match t with CNone => 0 | CLz4 => 1 | CZstd => 2 | CSldc => 3 end.

Definition tag_from_u8 (v : Z) : option CompressionTag :=
  if v =? 0 then Some CNone else if v =? 1 then Some CLz4
  else if v =? 2 then Some CZstd else if v =? 3 then Some CSldc else None.

Definition from_algo (algo : option CompressionAlgo) : CompressionTag :=
  match algo with
  | None => CNone | Some Lz4 => CLz4 | Some Zstd => CZstd | Some Sldc => CSldc
  end.

Definition to_algo (t : CompressionTag) : option CompressionAlgo :=
  match t with CNone => None | CLz4 => Some Lz4 | CZstd => Some Zstd | CSldc => Some Sldc end.

Definition pack_compression (algo : option CompressionAlgo) : Z :=
  Z.land (Z.shiftl (tag_as_u8 (from_algo algo)) FLAG_COMP_SHIFT) FLAG_COMP_MASK.

Definition unpack_compression (flags : Z) : option (option CompressionAlgo) :=
  to_algo <$> tag_from_u8 (Z.shiftr (Z.land flags FLAG_COMP_MASK) FLAG_COMP_SHIFT).

(** ** Block records *)

Inductive BlockKind : Type := Data | Filemark.
Inductive EncryptionTag : Type := ENone | Aes256Gcm.

Definition enc_as_u8 (e : EncryptionTag) : Z := match e with ENone => 0 | Aes256Gcm => 1 end.
Definition enc_from_u8 (v : Z) : option EncryptionTag :=
  if v =? 0 then Some ENone else if v =? 1 then Some Aes256Gcm else None.

Definition FLAG_FILEMARK : Z := 1.
Definition FLAG_ENC_MASK : Z := 14.
Definition FLAG_ENC_SHIFT : Z := 1.

Record BlockRec : Type := mkBlock {
  chunk_id : Z;
  offset : Z;
  blen : Z;
  kind : BlockKind;
  encryption : EncryptionTag;
  compression : option CompressionAlgo;
}.

Definition data_rec : BlockRec := mkBlock 0 0 0 Data ENone None.
Definition filemark (cid off : Z) : BlockRec := mkBlock cid off 0 Filemark ENone None.

Definition encrypted (r : BlockRec) : bool :=
  match encryption r with ENone => false | Aes256Gcm => true end.

Definition block_pack_flags (r : BlockRec) : Z :=
  let f := 0 in
  let f := match kind r with Filemark => Z.lor f FLAG_FILEMARK | Data => f end in
  let f := Z.lor f (Z.land (Z.shiftl (enc_as_u8 (encryption r)) FLAG_ENC_SHIFT) FLAG_ENC_MASK) in
  Z.lor f (pack_compression (compression r)).

Local Open Scope thur_scope.

Definition ok_or {T} (o : option T) (e : SmcError) : result T SmcError :=
  match o with Some t => Ok t | None => Err e end.

Definition block_unpack_flags (f : Z) :
    result (BlockKind * EncryptionTag * option CompressionAlgo) SmcError :=
  let k := if negb (Z.land f FLAG_FILEMARK =? 0) then Filemark else Data in
  let enc_bits := Z.shiftr (Z.land f FLAG_ENC_MASK) FLAG_ENC_SHIFT in
  try enc := ok_or (enc_from_u8 enc_bits)
    (IndexCorrupt "block index record has unknown encryption tag") in
  try comp := ok_or (unpack_compression f)
    (IndexCorrupt "block index record has unknown compression tag") in
  Ok (k, enc, comp).

Definition BLOCK_RECORD_SIZE : nat := 16.

Definition block_encode (r : BlockRec) : list Z :=
  u32_le (chunk_id r) ++ u32_le (offset r) ++ u32_le (blen r) ++ [block_pack_flags r] ++ zeros 3.

Definition at_byte (l : list Z) (i : nat) : Z := default 0 (l !! i).

Definition block_decode (buf : list Z) : result BlockRec SmcError :=
  let cid := le_val (sl 0 4 buf) in
  let off := le_val (sl 4 4 buf) in
  let n := le_val (sl 8 4 buf) in
  try (k, enc, comp) := block_unpack_flags (at_byte buf 12) in
  Ok (mkBlock cid off n k enc comp).

Definition block_ok (r : BlockRec) : Prop :=
  in_u32 (chunk_id r) /\ in_u32 (offset r) /\ in_u32 (blen r).

Lemma length_block_encode r : length (block_encode r) = BLOCK_RECORD_SIZE.
Proof. unfold block_encode. by autorewrite with thur_rw. Qed.

Lemma at_byte_skip k i l1 l2 :
  length l1 = k -> (k <= i)%nat -> at_byte (l1 ++ l2) i = at_byte l2 (i - k).
Proof. intros <- ?. unfold at_byte. by rewrite lookup_app_r. Qed.

Lemma block_flags_roundtrip r :
  block_unpack_flags (block_pack_flags r) = Ok (kind r, encryption r, compression r).
Proof. destruct r as [c o n k e [[]|]]; destruct k, e; reflexivity. Qed.

(** A block record survives its 16-byte encoding. *)
Lemma block_decode_encode r : block_ok r -> block_decode (block_encode r) = Ok r.
Proof.
  intros (H1 & H2 & H3). unfold block_decode, block_encode. cbv zeta.
  assert (Hf : at_byte (u32_le (chunk_id r) ++ u32_le (offset r) ++ u32_le (blen r)
    ++ [block_pack_flags r] ++ zeros 3) 12 = block_pack_flags r).
  { rewrite (at_byte_skip 4) by (apply length_u32_le || lia).
    rewrite (at_byte_skip 4) by (apply length_u32_le || (simpl; lia)).
    rewrite (at_byte_skip 4) by (apply length_u32_le || (simpl; lia)). done. }
  rewrite Hf, block_flags_roundtrip. simpl result_bind.
  rewrite sl_head by apply length_u32_le. rewrite u32_le_val by done.
  rewrite (sl_skip 4 4), sl_head by (apply length_u32_le || lia). rewrite u32_le_val by done.
  rewrite (sl_skip 4 8) by (apply length_u32_le || lia).
  rewrite (sl_skip 4) by (apply length_u32_le || (simpl; lia)).
  rewrite sl_head by apply length_u32_le. rewrite u32_le_val by done. by destruct r.
Qed.

(** ** Chunk records *)

Inductive LocationTag : Type := LocalOnly | StorageOnly | Both.

Definition loc_as_u8 (l : LocationTag) : Z :=
  match l with LocalOnly => 0 | StorageOnly => 1 | Both => 2 end.
Definition loc_from_u8 (v : Z) : option LocationTag :=
  if v =? 0 then Some LocalOnly else if v =? 1 then Some StorageOnly
  else if v =? 2 then Some Both else None.

Definition FLAG_HASH_PRESENT : Z := 1.
Definition FLAG_UPLOADED : Z := 2.
Definition FLAG_LOC_MASK : Z := 12.
Definition FLAG_LOC_SHIFT : Z := 2.

(** The hash is a hex string, as its characters' codes. *)
Record ChunkRec : Type := mkChunk {
  csize : Z;
  chash : option (list Z);
  location : LocationTag;
  uploaded : bool;
  ccompression : option CompressionAlgo;
}.

Definition staging : ChunkRec := mkChunk 0 None LocalOnly false None.

Definition chunk_pack_flags (r : ChunkRec) : Z :=
  let f := 0 in
  let f := match chash r with Some _ => Z.lor f FLAG_HASH_PRESENT | None => f end in
  let f := if uploaded r then Z.lor f FLAG_UPLOADED else f in
  let f := Z.lor f (Z.land (Z.shiftl (loc_as_u8 (location r)) FLAG_LOC_SHIFT) FLAG_LOC_MASK) in
  Z.lor f (pack_compression (ccompression r)).

Definition chunk_unpack_flags (f : Z) :
    result (bool * bool * LocationTag * option CompressionAlgo) SmcError :=
  let hash_present := negb (Z.land f FLAG_HASH_PRESENT =? 0) in
  let up := negb (Z.land f FLAG_UPLOADED =? 0) in
  let loc_bits := Z.shiftr (Z.land f FLAG_LOC_MASK) FLAG_LOC_SHIFT in
  try loc := ok_or (loc_from_u8 loc_bits)
    (IndexCorrupt "chunk index record has unknown location tag") in
  try comp := ok_or (unpack_compression f)
    (IndexCorrupt "chunk index record has unknown compression tag") in
  Ok (hash_present, up, loc, comp).

Definition CHUNK_RECORD_SIZE : nat := 64.

(** The [hex] crate: lowercase encoding of bytes, and its partial inverse. *)
Class HexCodec : Type := {
  hex_encode : list Z -> list Z;
  hex_decode : list Z -> option (list Z);
}.

Class HexLaws `{HexCodec} : Prop :=
  hex_decode_encode : forall bs, bytes_ok bs -> hex_decode (hex_encode bs) = Some bs.

Section chunk_codec.
Context `{HexCodec}.

Definition chunk_encode (r : ChunkRec) : result (list Z) SmcError :=
  if u32_max <? csize r
  then Err (InvalidOp "chunk index encode: size exceeds u32::MAX (chunk too large)")
  else
    try hash_field := match chash r with
      | None => Ok (zeros 32)
      | Some s =>
          match hex_decode s with
          | None => Err (InvalidOp "chunk index encode: hash is not valid hex")
          | Some bytes =>
              if negb (bool_decide (length bytes = 32%nat))
              then Err (InvalidOp "chunk index encode: hash hex must decode to 32 bytes")
              else Ok bytes
          end
      end in
    Ok (u32_le (csize r) ++ hash_field ++ [chunk_pack_flags r] ++ zeros 27).

Definition chunk_decode (buf : list Z) : result ChunkRec SmcError :=
  let size := le_val (sl 0 4 buf) in
  try (hash_present, up, loc, comp) := chunk_unpack_flags (at_byte buf 36) in
  let h := if (hash_present : bool) then Some (hex_encode (sl 4 32 buf)) else None in
  Ok (mkChunk size h loc up comp).

(** Records the pool produces: a [u32] size and a hash that is the hex of a
    32-byte digest. *)
Definition chunk_ok (r : ChunkRec) : Prop :=
  in_u32 (csize r) /\
  match chash r with
  | Some s => exists bs, bytes_ok bs /\ length bs = 32%nat /\ s = hex_encode bs
  | None => True
  end.

Lemma length_chunk_encode r buf : chunk_encode r = Ok buf -> length buf = CHUNK_RECORD_SIZE.
Proof.
  unfold chunk_encode. destruct (u32_max <? csize r); [done|].
  destruct (chash r) as [s|]; simpl.
  - destruct (hex_decode s) as [bs|]; [|done]. case_bool_decide as Hl; [|done]. simpl.
    intros [= <-]. autorewrite with thur_rw. rewrite Hl. done.
  - intros [= <-]. by autorewrite with thur_rw.
Qed.

Lemma chunk_flags_roundtrip r :
  chunk_unpack_flags (chunk_pack_flags r) =
    Ok (match chash r with Some _ => true | None => false end, uploaded r, location r, ccompression r).
Proof. destruct r as [n [h|] l u [[]|]]; destruct l, u; reflexivity. Qed.

Lemma chunk_decode_fields size h flags :
  in_u32 size -> length h = 32%nat ->
  let buf := u32_le size ++ h ++ [flags] ++ zeros 27 in
  le_val (sl 0 4 buf) = size /\ sl 4 32 buf = h /\ at_byte buf 36 = flags.
Proof.
  intros Hs Hh. cbv zeta. split_and!.
  - rewrite sl_head by apply length_u32_le. by apply u32_le_val.
  - rewrite (sl_skip 4) by (apply length_u32_le || lia). by apply sl_head.
  - rewrite (at_byte_skip 4) by (apply length_u32_le || lia).
    by rewrite (at_byte_skip 32) by (done || (simpl; lia)).
Qed.

(** A chunk record with a [u32] size and a digest hash encodes into 64 bytes
    and decodes back to itself. *)
Lemma chunk_decode_encode `{!HexLaws} r :
  chunk_ok r -> exists buf, chunk_encode r = Ok buf /\ length buf = CHUNK_RECORD_SIZE /\
    chunk_decode buf = Ok r.
Proof.
  intros [Hs Hh].
  assert (Henc : exists h, length h = 32%nat /\
    chunk_encode r = Ok (u32_le (csize r) ++ h ++ [chunk_pack_flags r] ++ zeros 27) /\
    (forall s, chash r = Some s -> hex_encode h = s)).
  { unfold chunk_encode. rewrite (proj2 (Z.ltb_ge _ _)) by (unfold in_u32 in Hs; lia).
    destruct (chash r) as [s|].
    - destruct Hh as (bs & Hb & Hl & ->). rewrite hex_decode_encode by done.
      rewrite bool_decide_eq_true_2 by done. simpl. exists bs. naive_solver.
    - exists (zeros 32). split; [apply length_zeros|done]. }
  destruct Henc as (h & Hl & He & Hx). eexists. split; [exact He|].
  split; [by eapply length_chunk_encode|].
  destruct (chunk_decode_fields (csize r) h (chunk_pack_flags r) Hs Hl) as (E1 & E2 & E3).
  unfold chunk_decode. cbv zeta. rewrite E1, E2, E3, chunk_flags_roundtrip. simpl.
  destruct r as [n [s|] l u c]; simpl in *; [|done]. by rewrite (Hx s).
Qed.

End chunk_codec.

(** ** A concrete hex codec *)

Definition hex_digit (n : Z) : Z := if n <? 10 then 48 + n else 87 + n.
Definition hex_value (c : Z) : option Z :=
  if (48 <=? c) && (c <=? 57) then Some (c - 48)
  else if (97 <=? c) && (c <=? 102) then Some (c - 87)
  else if (65 <=? c) && (c <=? 70) then Some (c - 55) else None.

Fixpoint hex_pairs (s : list Z) : option (list Z) :=
  match s with
  | [] => Some []
  | [_] => None
  | a :: b :: s =>
      match hex_value a, hex_value b, hex_pairs s with
      | Some x, Some y, Some l => Some (16 * x + y :: l)
      | _, _, _ => None
      end
  end.

Definition hex_string (bs : list Z) : list Z :=
  flat_map (fun b => [hex_digit (b / 16); hex_digit (b mod 16)]) bs.

#[export] Instance hex_crate : HexCodec := {| hex_encode := hex_string; hex_decode := hex_pairs |}.

Lemma hex_value_digit n : 0 <= n < 16 -> hex_value (hex_digit n) = Some n.
Proof.
  intros H. assert (Hall : Forall (fun n => hex_value (hex_digit n) = Some n) (seqZ 0 16))
    by (repeat constructor).
  rewrite Forall_forall in Hall. apply Hall, elem_of_seqZ. lia.
Qed.

#[export] Instance hex_crate_laws : HexLaws.
Proof.
  intros bs Hbs. change (hex_pairs (hex_string bs) = Some bs).
  induction Hbs as [|b bs Hb Hbs IH]; [done|]. unfold byte_ok in Hb.
  change (hex_string (b :: bs)) with
    (hex_digit (b / 16) :: hex_digit (b mod 16) :: hex_string bs).
  cbn [hex_pairs]. rewrite IH.
  rewrite (hex_value_digit (b / 16)) by (split; [apply Z.div_pos|apply Z.div_lt_upper_bound]; lia).
  rewrite (hex_value_digit (b mod 16)) by (apply Z.mod_pos_bound; lia).
  do 2 f_equal. symmetry. apply Z.div_mod. lia.
Qed.
