(* ===== verification/TrackedFile.v ===== *)
(** * Record files with a dirty-page tracker

    What [BlockIndexFile] and [ChunkIndexFile] ([core/stream/src/block_index.rs],
    [core/stream/src/chunk_index.rs]) have in common: a record file with a
    cached record count, whose every write first marks the pages it touches.
    The delta upload ships the dirty pages only, so the invariant that
    matters is [synced]: a page that is not dirty is the same in the file
    and in the published copy. *)

From Stdlib Require Import String.
From stdpp Require Import gmap.
From S2P Require Import Prelude Bytes ByteFile DirtyPages IndexCodec.

Local Open Scope nat_scope.

(** The tracker's load errors, as the messages of [dirty_pages.rs]. *)
Definition load_error (e : LoadError) : SmcError :=
  InvalidOp match e with
    | ShortHeader => "dirty-page sidecar shorter than header — corrupt"
    | MagicMismatch => "dirty-page sidecar magic mismatch — wrong file or corrupt"
    | VersionUnsupported => "dirty-page sidecar version unsupported by this build"
    | PageSizeDisagrees => "dirty-page sidecar page size disagrees with build"
    end.

Definition open_tracker (sidecar : option (list Z)) : result Inner SmcError :=
  match DirtyPages.open_or_create sidecar with
  | Ok d => Ok d
  | Err e => Err (load_error e)
  end.

Record Tracked : Type := mkTracked {
  t_file : list Z;
  t_next : nat;
  t_dirty : Inner;
}.

Section tracked.
Context (hdr rsz : nat).

Definition mark (d : Inner) (off n : nat) : Inner := mark_range d (Z.of_nat off) (Z.of_nat n).

Definition t_append (t : Tracked) (buf : list Z) : Tracked :=
  let off := rec_off hdr rsz (t_next t) in
  mkTracked (write_at (t_file t) off buf) (S (t_next t)) (mark (t_dirty t) off rsz).

Definition t_overwrite (t : Tracked) (id : nat) (buf : list Z) : Tracked :=
  let off := rec_off hdr rsz id in
  mkTracked (write_at (t_file t) off buf) (t_next t) (mark (t_dirty t) off rsz).

Definition t_truncate (t : Tracked) (n : nat) : Tracked :=
  let new_len := rec_off hdr rsz n in
  let new_pages := wrap32 (div_ceil (Z.of_nat new_len) PAGE_SIZE) in
  mkTracked (set_len (t_file t) new_len) n (truncate_to_pages (t_dirty t) new_pages).

(** The count agrees with the file. *)
Definition t_wf (t : Tracked) : Prop := length (t_file t) = rec_off hdr rsz (t_next t).

Context (rsz_pos : 0 < rsz).

Lemma t_wf_rf t : t_wf t -> rf_wf hdr rsz (t_file t).
Proof. intros H. by exists (t_next t). Qed.

Lemma t_wf_count t : t_wf t -> rec_count hdr rsz (t_file t) = t_next t.
Proof. intros H. by apply rec_count_eq. Qed.

Lemma t_append_wf t buf : t_wf t -> length buf = rsz -> t_wf (t_append t buf).
Proof.
  intros Ht Hb. unfold t_wf, t_append in *. simpl.
  rewrite length_write_at by (by apply (write_rec_nonnil rsz)). rewrite Ht, Hb. unfold rec_off. lia.
Qed.

Lemma t_append_records t buf :
  t_wf t -> length buf = rsz ->
  records hdr rsz (t_file (t_append t buf)) = records hdr rsz (t_file t) ++ [buf].
Proof.
  intros Ht Hb. unfold t_append. simpl. rewrite <- Ht.
  apply records_append; [done|by apply t_wf_rf|done].
Qed.

Lemma t_overwrite_wf t id buf :
  t_wf t -> length buf = rsz -> id < t_next t -> t_wf (t_overwrite t id buf).
Proof.
  intros Ht Hb Hid. unfold t_wf, t_overwrite in *. simpl.
  rewrite length_write_at by (by apply (write_rec_nonnil rsz)). rewrite Ht, Hb. unfold rec_off. nia.
Qed.

Lemma t_overwrite_records t id buf :
  t_wf t -> length buf = rsz -> id < t_next t ->
  records hdr rsz (t_file (t_overwrite t id buf)) = <[id := buf]> (records hdr rsz (t_file t)).
Proof.
  intros Ht Hb Hid. apply records_overwrite; [done|by apply t_wf_rf|done|].
  by rewrite t_wf_count.
Qed.

Lemma t_truncate_wf t n : t_wf (t_truncate t n).
Proof. unfold t_wf, t_truncate. simpl. apply length_set_len. Qed.

Lemma t_truncate_records t n :
  t_wf t ->
  records hdr rsz (t_file (t_truncate t n)) =
  take n (records hdr rsz (t_file t)) ++ replicate (n - t_next t) (zeros rsz).
Proof.
  intros Ht. unfold t_truncate. simpl. rewrite records_set_len by (done || by apply t_wf_rf).
  by rewrite t_wf_count.
Qed.

Lemma t_header_append t buf o n :
  t_wf t -> o + n <= hdr -> sl o n (t_file (t_append t buf)) = sl o n (t_file t).
Proof. intros Ht H. unfold t_append. simpl. apply sl_header_write; [done|by apply t_wf_rf|done]. Qed.

Lemma t_overwrite_header t id buf o n :
  t_wf t -> o + n <= hdr -> sl o n (t_file (t_overwrite t id buf)) = sl o n (t_file t).
Proof. intros Ht H. unfold t_overwrite. simpl. apply sl_header_write; [done|by apply t_wf_rf|done]. Qed.

Lemma t_truncate_header t m o n :
  t_wf t -> o + n <= hdr -> sl o n (t_file (t_truncate t m)) = sl o n (t_file t).
Proof. intros Ht H. unfold t_truncate. simpl. apply sl_header_set_len; [done|by apply t_wf_rf|done]. Qed.

(** *** Files of typed records *)

Context {A : Type} (enc : A -> list Z) (ok : A -> Prop) (header : list Z).
Context (enc_len : forall a, ok a -> length (enc a) = rsz).

(** The tracked file holds the records [l] behind its header. *)
Record t_repr (t : Tracked) (l : list A) : Prop := {
  rp_wf : t_wf t;
  rp_header : sl 0 hdr (t_file t) = header;
  rp_records : records hdr rsz (t_file t) = map enc l;
  rp_ok : Forall ok l;
}.

Lemma t_repr_length t l : t_repr t l -> t_next t = length l.
Proof.
  intros [Hw _ Hr _]. rewrite <- t_wf_count by done.
  by rewrite <- (length_records hdr rsz), Hr, length_map.
Qed.

Lemma t_repr_append t l a : t_repr t l -> ok a -> t_repr (t_append t (enc a)) (l ++ [a]).
Proof.
  intros [Hw Hh Hr Hok] Ha. pose proof (enc_len a Ha). split.
  - by apply t_append_wf.
  - by rewrite t_header_append.
  - rewrite t_append_records by done. by rewrite Hr, map_app.
  - apply Forall_app_2; auto.
Qed.

Lemma t_repr_overwrite t l id a :
  t_repr t l -> ok a -> id < length l -> t_repr (t_overwrite t id (enc a)) (<[id := a]> l).
Proof.
  intros Hrep Ha Hid. pose proof (t_repr_length t l Hrep) as Hn. destruct Hrep as [Hw Hh Hr Hok].
  pose proof (enc_len a Ha). split.
  - apply t_overwrite_wf; (done || lia).
  - by rewrite t_overwrite_header.
  - rewrite t_overwrite_records by (done || lia). by rewrite Hr, list_fmap_insert.
  - by apply Forall_insert.
Qed.

(** Truncation past the end extends the file with zero records. *)
Lemma t_repr_truncate t l n z :
  t_repr t l -> ok z -> enc z = zeros rsz ->
  t_repr (t_truncate t n) (take n l ++ replicate (n - length l) z).
Proof.
  intros Hrep Hz Ez. pose proof (t_repr_length t l Hrep) as Hn. destruct Hrep as [Hw Hh Hr Hok]. split.
  - apply t_truncate_wf.
  - by rewrite t_truncate_header.
  - rewrite t_truncate_records by done.
    rewrite Hr, Hn, map_app, <- firstn_map. f_equal. rewrite <- Ez. symmetry. apply fmap_replicate.
  - apply Forall_app_2; [by apply Forall_take|by apply Forall_replicate].
Qed.

Lemma t_repr_rec t l i a :
  t_repr t l -> l !! i = Some a -> sl (rec_off hdr rsz i) rsz (t_file t) = enc a.
Proof.
  intros [Hw _ Hr _] Hi. assert (E : records hdr rsz (t_file t) !! i = Some (enc a))
    by (rewrite Hr, list_lookup_fmap, Hi; done).
  rewrite lookup_records in E by done. case_bool_decide as Hlt; [|done]. injection E as <-.
  symmetry. apply rec_in; [done|]. rewrite t_wf_count in Hlt by done. rewrite Hw. unfold rec_off. nia.
Qed.

(** A read of the whole run [i .. i + n) finds each record in its place. *)
Lemma t_repr_run t l i n :
  t_repr t l -> i + n <= length l ->
  exists buf, read_exact_at (t_file t) (rec_off hdr rsz i) (n * rsz) = Some buf /\
    forall j a, j < n -> l !! (i + j) = Some a -> sl (j * rsz) rsz buf = enc a.
Proof.
  intros Hrep Hn. pose proof (t_repr_length t l Hrep) as Hl. pose proof (rp_wf t l Hrep) as Hw.
  unfold t_wf, rec_off in Hw. eexists. split.
  - unfold read_exact_at. cbv zeta. rewrite bool_decide_eq_false_2; [done|].
    unfold read_at. rewrite length_sl; [lia|]. rewrite Hw. unfold rec_off. nia.
  - intros j a Hj Ha. rewrite <- (t_repr_rec t l (i + j) a) by done.
    unfold read_at, sl at 2. rewrite sl_take by nia. unfold sl. rewrite drop_drop.
    do 2 f_equal. unfold rec_off. lia.
Qed.

Lemma t_repr_read t l i a :
  t_repr t l -> l !! i = Some a ->
  read_exact_at (t_file t) (rec_off hdr rsz i) rsz = Some (enc a).
Proof.
  intros Hrep Ha. pose proof (lookup_lt_Some _ _ _ Ha) as Hi.
  destruct (t_repr_run t l i 1 Hrep ltac:(lia)) as (buf & E & _).
  rewrite Nat.mul_1_l in E. rewrite <- (t_repr_rec t l i a) by done.
  revert E. unfold read_exact_at. cbv zeta. by case_bool_decide.
Qed.

(** Decoding a run record by record gives the records. *)
Lemma t_repr_decode_run {E : Type} (dec : list Z -> result A E) t l i n :
  (forall a, ok a -> dec (enc a) = Ok a) -> t_repr t l -> i + n <= length l ->
  exists buf, read_exact_at (t_file t) (rec_off hdr rsz i) (n * rsz) = Some buf /\
    map (fun j => dec (sl (j * rsz) rsz buf)) (seq 0 n) = map Ok (take n (drop i l)).
Proof.
  intros Hdec Hrep Hn. destruct (t_repr_run t l i n Hrep Hn) as (buf & Eb & Hb).
  exists buf. split; [done|]. apply list_eq. intros j. rewrite !list_lookup_fmap.
  destruct (decide (j < n)) as [Hj|Hj].
  - destruct (lookup_lt_is_Some_2 l (i + j) ltac:(lia)) as [a Ha].
    rewrite lookup_seq_lt, lookup_take_lt, lookup_drop, Ha by done. cbn. f_equal.
    rewrite (Hb j a) by done. apply Hdec. destruct Hrep as [_ _ _ Hok]. by eapply Forall_lookup_1.
  - rewrite lookup_seq_ge, lookup_take_ge by lia. done.
Qed.

End tracked.

(** ** Delta completeness *)

Definition PAGE : nat := Z.to_nat PAGE_SIZE.

Lemma PAGE_Z : Z.of_nat PAGE = PAGE_SIZE.
Proof. unfold PAGE. rewrite Z2Nat.id; [done|]. unfold PAGE_SIZE. lia. Qed.

#[global] Opaque PAGE.

Lemma PAGE_pos : 0 < PAGE.
Proof. pose proof PAGE_Z. unfold PAGE_SIZE in *. lia. Qed.

Definition page_bytes (f : list Z) (p : nat) : list Z := sl (p * PAGE) PAGE f.

(** The storage copy, one object per page. *)
Definition Store : Type := gmap nat (list Z).

(** Pages of the file that are not dirty are in storage as they are. *)
Definition synced (store : Store) (t : Tracked) : Prop :=
  forall p, p * PAGE < length (t_file t) -> dirty (bits (t_dirty t)) (Z.of_nat p) = false ->
    store !! p = Some (page_bytes (t_file t) p).

(** The bitmap is long enough for every page of the file. *)
Definition covers (t : Tracked) : Prop :=
  (Z.of_nat (length (t_file t)) <= Z.of_nat (length (bits (t_dirty t))) * 64 * PAGE_SIZE)%Z.

(** Files whose page numbers fit a [u32]. *)
Definition small_file (f : list Z) : Prop := (Z.of_nat (length f) <= u32_max * PAGE_SIZE)%Z.

Section pages.
Local Open Scope Z_scope.

Lemma PAGE_SIZE_pos : 0 < PAGE_SIZE.
Proof. unfold PAGE_SIZE. lia. Qed.

Lemma page_before p x : 0 <= p -> p < page_of x -> (p + 1) * PAGE_SIZE <= x.
Proof.
  intros Hp H. unfold page_of in H. pose proof PAGE_SIZE_pos.
  pose proof (Z.mul_div_le x PAGE_SIZE ltac:(lia)). nia.
Qed.

Lemma page_after p x : page_of x < p -> x < p * PAGE_SIZE.
Proof.
  intros H. unfold page_of in H. pose proof PAGE_SIZE_pos.
  pose proof (Z.mul_succ_div_gt x PAGE_SIZE ltac:(lia)). nia.
Qed.

Lemma page_of_small x : 0 <= x < u32_max * PAGE_SIZE -> page_of x <= u32_max.
Proof.
  intros H. pose proof PAGE_SIZE_pos. unfold page_of.
  apply Z.lt_le_incl, Z.div_lt_upper_bound; lia.
Qed.

Lemma length_mark_bits d off n :
  0 <= off -> 0 < n -> page_of (off + n - 1) <= u32_max ->
  length (bits (mark_range d off n)) = (length (bits d) `max` S (word_of (page_of (off + n - 1))))%nat.
Proof.
  intros Ho Hn Hm. unfold mark_range. rewrite (proj2 (Z.eqb_neq _ _)) by lia. cbn [bits].
  fold (page_of (off + n - 1)).
  assert (0 <= page_of (off + n - 1)) by (apply Z.div_pos; unfold PAGE_SIZE; lia).
  replace (wrap32 (page_of (off + n - 1))) with (page_of (off + n - 1))
    by (symmetry; apply Z.mod_small; lia).
  rewrite <- length_ensure. generalize (ensure_capacity (bits d) (page_of (off + n - 1))).
  induction (seqZ _ _) as [|q l IH]; intros bs; simpl; [done|]. by rewrite IH, length_set_bit.
Qed.

End pages.

(** A write at or before end of file, its pages marked first. *)
Section write.
Context (t : Tracked) (off : nat) (buf : list Z) (n' : nat).
Context (Hoff : off <= length (t_file t)) (Hbuf : buf <> []).
Context (Hsmall : small_file (write_at (t_file t) off buf)).

Let t' : Tracked :=
  mkTracked (write_at (t_file t) off buf) n' (mark (t_dirty t) off (length buf)).

Lemma write_pages_ok : (page_of (Z.of_nat off + Z.of_nat (length buf) - 1) <= u32_max)%Z.
Proof.
  apply page_of_small. unfold small_file in Hsmall. rewrite length_write_at in Hsmall by done.
  assert (0 < length buf) by (destruct buf; [done|simpl; lia]). lia.
Qed.

Lemma inner_wf_write : inner_wf (t_dirty t) -> inner_wf (t_dirty t').
Proof. intros Hi. apply mark_range_wf; [lia|lia|apply write_pages_ok|done]. Qed.

Lemma synced_write store : synced store t -> synced store t'.
Proof.
  intros Hs p Hp Hd. unfold t' in *. simpl in *. pose proof write_pages_ok as Hok.
  assert (Hn : (0 < Z.of_nat (length buf))%Z) by (destruct buf; [done|simpl; lia]).
  unfold mark in Hd. rewrite mark_range_spec in Hd by lia.
  apply orb_false_iff in Hd as [Hout Hd]. pose proof PAGE_Z as HZ. pose proof PAGE_pos.
  rewrite length_write_at in Hp by done.
  apply andb_false_iff in Hout as [Hout|Hout]; apply Z.leb_gt in Hout.
  - pose proof (page_before (Z.of_nat p) (Z.of_nat off) ltac:(lia) Hout) as Hle.
    assert (p * PAGE + PAGE <= off) by nia.
    unfold page_bytes. rewrite sl_write_before by lia. apply Hs; [lia|done].
  - apply page_after in Hout. assert (off + length buf <= p * PAGE) by nia.
    unfold page_bytes. rewrite sl_write_after by lia. apply Hs; [lia|done].
Qed.

Lemma covers_write : covers t -> covers t'.
Proof.
  intros Hc. unfold covers, t' in *. simpl in *. pose proof write_pages_ok as Hok.
  assert (Hn : (0 < Z.of_nat (length buf))%Z) by (destruct buf; [done|simpl; lia]).
  unfold mark. rewrite length_write_at by done. rewrite length_mark_bits by lia.
  set (last := page_of (Z.of_nat off + Z.of_nat (length buf) - 1)) in *.
  assert (H0 : (0 <= last)%Z) by (apply Z.div_pos; unfold PAGE_SIZE; lia).
  assert (Hw : (last < Z.of_nat (S (word_of last)) * 64)%Z) by (apply word_of_lt; lia).
  pose proof PAGE_SIZE_pos.
  pose proof (page_after (last + 1) (Z.of_nat off + Z.of_nat (length buf) - 1) ltac:(lia)) as Hl.
  rewrite !Nat2Z.inj_max, Nat2Z.inj_add.
  destruct (Z.max_spec (Z.of_nat (length (bits (t_dirty t)))) (Z.of_nat (S (word_of last)))) as [[? ->]|[? ->]];
    nia.
Qed.

End write.

(** ** Truncation *)

Definition pages_for (len : nat) : Z := div_ceil (Z.of_nat len) PAGE_SIZE.

Lemma pages_for_bounds len :
  (Z.of_nat len <= pages_for len * PAGE_SIZE < Z.of_nat len + PAGE_SIZE /\ 0 <= pages_for len)%Z.
Proof.
  unfold pages_for, div_ceil. pose proof PAGE_SIZE_pos as HP.
  set (x := (Z.of_nat len + PAGE_SIZE - 1)%Z).
  pose proof (Z.div_mod x PAGE_SIZE ltac:(lia)). pose proof (Z.mod_pos_bound x PAGE_SIZE ltac:(lia)).
  assert (0 <= x / PAGE_SIZE)%Z by (apply Z.div_pos; lia). lia.
Qed.

Section truncate.
Context (hdr rsz : nat) (t : Tracked) (n : nat).
Context (Hlen : rec_off hdr rsz n <= length (t_file t)) (Hsmall : small_file (t_file t)).

Notation new_len := (rec_off hdr rsz n).

Lemma t_truncate_pages :
  t_dirty (t_truncate hdr rsz t n) = truncate_to_pages (t_dirty t) (pages_for new_len).
Proof.
  unfold t_truncate. cbn [t_dirty]. f_equal. apply Z.mod_small. fold (pages_for new_len).
  pose proof (pages_for_bounds new_len). unfold small_file in Hsmall. pose proof PAGE_SIZE_pos.
  split; [lia|]. nia.
Qed.

Lemma synced_truncate store : covers t -> synced store t -> synced store (t_truncate hdr rsz t n).
Proof.
  intros Hc Hs p Hp Hd. rewrite t_truncate_pages in Hd.
  unfold t_truncate in Hp |- *. cbn [t_file] in *. rewrite length_set_len in Hp.
  pose proof (pages_for_bounds new_len) as [Hb H0]. pose proof PAGE_Z as HZ. pose proof PAGE_SIZE_pos.
  rewrite truncate_exact_core in Hd by lia.
  assert (Hpn : (Z.of_nat p < pages_for new_len)%Z) by nia.
  rewrite (proj2 (Z.ltb_lt _ _)) in Hd by done. simpl in Hd.
  apply orb_false_iff in Hd as [Hd Hbd]. unfold covers in Hc.
  assert (Hcap : (pages_for new_len - 1 < Z.of_nat (length (bits (t_dirty t))) * 64)%Z) by nia.
  rewrite bool_decide_eq_true_2, andb_true_r in Hbd by done. apply Z.eqb_neq in Hbd.
  assert (p * PAGE + PAGE <= new_len) by nia.
  unfold page_bytes. rewrite sl_set_len by lia. apply Hs; [lia|done].
Qed.

Lemma covers_truncate : covers t -> covers (t_truncate hdr rsz t n).
Proof.
  intros Hc. unfold covers. rewrite t_truncate_pages. unfold t_truncate. cbn [t_file].
  rewrite length_set_len, length_truncate_bits by (apply pages_for_bounds).
  pose proof (pages_for_bounds new_len) as [Hb H0].
  pose proof (div_ceil_64 (pages_for new_len) H0) as [Hc1 Hc2]. unfold covers in Hc.
  pose proof PAGE_SIZE_pos. rewrite Nat2Z.inj_min, Z2Nat.id by done.
  destruct (Z.min_spec (Z.of_nat (length (bits (t_dirty t)))) (div_ceil (pages_for new_len) 64)) as [[? ->]|[? ->]];
    nia.
Qed.

End truncate.

(** ** The operations, as one invariant *)

Section ops.
Context (hdr rsz : nat) (rsz_pos : 0 < rsz).

Lemma t_append_inner t buf :
  t_wf hdr rsz t -> length buf = rsz -> small_file (t_file (t_append hdr rsz t buf)) ->
  inner_wf (t_dirty t) -> inner_wf (t_dirty (t_append hdr rsz t buf)).
Proof.
  intros Hw Hb Hs Hi. unfold t_append. cbn [t_dirty]. rewrite <- Hb.
  apply (inner_wf_write t _ buf 0); [rewrite Hw, Hb; done|by apply (write_rec_nonnil rsz)|by rewrite Hb|done].
Qed.

Lemma t_overwrite_inner t id buf :
  t_wf hdr rsz t -> length buf = rsz -> id < t_next t -> small_file (t_file t) ->
  inner_wf (t_dirty t) -> inner_wf (t_dirty (t_overwrite hdr rsz t id buf)).
Proof.
  intros Hw Hb Hid Hs Hi. pose proof (t_overwrite_wf hdr rsz rsz_pos t id buf Hw Hb Hid) as Hw'.
  unfold t_overwrite. cbn [t_dirty]. rewrite <- Hb.
  apply (inner_wf_write t _ buf 0); [|by apply (write_rec_nonnil rsz)| |done].
  - rewrite Hw, Hb. unfold rec_off. nia.
  - unfold small_file in *. rewrite Hb. unfold t_wf, t_overwrite in Hw'. cbn [t_file t_next] in Hw'.
    by rewrite Hw', <- Hw.
Qed.

End ops.
