(* ===== verification/BlockIndex.v ===== *)
(** * The block index ([core/stream/src/block_index.rs])

    [blocks-pN.idx]: a 32-byte header and one 16-byte record per logical
    block of a tape partition, with the dirty-page tracker of the delta
    backup.  The theorems: the file refines the list of its records, and
    reopening after an [fsync] gives back file, count and marks. *)

From Stdlib Require Import String.
From stdpp Require Import gmap.
From S2P Require Import Prelude Bytes ByteFile DirtyPages TrackedFile IndexCodec.

Local Open Scope nat_scope.

Definition RECORD_SIZE : nat := 16.
Definition HEADER_SIZE : nat := 32.
Definition MAGIC : list Z := [78; 86; 66; 73]%Z.
Definition VERSION : Z := 1.

Definition BlockIndexFile : Type := Tracked.

Local Open Scope thur_scope.

Definition open_or_create (existing sidecar : option (list Z)) : result BlockIndexFile SmcError :=
  let f := default [] existing in
  if bool_decide (length f = 0) then
    try d := open_tracker sidecar in
    Ok (mkTracked (write_at f 0 (index_header MAGIC VERSION (Z.of_nat RECORD_SIZE) HEADER_SIZE)) 0
          (mark_range d 0 (Z.of_nat HEADER_SIZE)))
  else if bool_decide (length f < HEADER_SIZE)
  then Err (InvalidOp "block index file shorter than header — corrupt")
  else
    let hdr := sl 0 HEADER_SIZE f in
    if bool_decide (header_magic hdr <> MAGIC)
    then Err (InvalidOp "block index file magic mismatch — wrong file or corrupt")
    else if negb (header_version hdr =? VERSION)%Z
    then Err (InvalidOp "block index file version unsupported by this build")
    else if negb (header_rsz hdr =? Z.of_nat RECORD_SIZE)%Z
    then Err (InvalidOp "block index file record-size header field disagrees with build")
    else
      let records_bytes := length f - HEADER_SIZE in
      if negb (bool_decide (records_bytes mod RECORD_SIZE = 0))
      then Err (InvalidOp "block index records region is not a multiple of record size")
      else
        try d := open_tracker sidecar in
        Ok (mkTracked f (records_bytes / RECORD_SIZE) d).

Definition record_offset (lba : nat) : nat := HEADER_SIZE + lba * RECORD_SIZE.

(** The dirty mark precedes the write. *)
Definition append (b : BlockIndexFile) (rec : BlockRec) : BlockIndexFile * nat :=
  let lba := t_next b in
  let buf := block_encode rec in
  let off := record_offset lba in
  let d := mark_range (t_dirty b) (Z.of_nat off) (Z.of_nat RECORD_SIZE) in
  (mkTracked (write_at (t_file b) off buf) (S lba) d, lba).

Definition overwrite (b : BlockIndexFile) (lba : nat) (rec : BlockRec) :
    result BlockIndexFile SmcError :=
  if bool_decide (t_next b <= lba)
  then Err (InvalidOp "block index overwrite past next_lba")
  else
    let buf := block_encode rec in
    let off := record_offset lba in
    let d := mark_range (t_dirty b) (Z.of_nat off) (Z.of_nat RECORD_SIZE) in
    Ok (mkTracked (write_at (t_file b) off buf) (t_next b) d).

Definition read (b : BlockIndexFile) (lba : nat) : result BlockRec SmcError :=
  if bool_decide (t_next b <= lba) then Err (InvalidOp "block index read past next_lba")
  else match read_exact_at (t_file b) (record_offset lba) RECORD_SIZE with
    | None => Err IoUnexpectedEof
    | Some buf => block_decode buf
    end.

(** [chunks_exact(RECORD_SIZE)] of the one read, each chunk decoded. *)
Definition read_run (b : BlockIndexFile) (lba n : nat) :
    result (list (result BlockRec SmcError)) SmcError :=
  if bool_decide (t_next b < lba + n)
  then Err (InvalidOp "block index read_run past next_lba")
  else match read_exact_at (t_file b) (record_offset lba) (n * RECORD_SIZE) with
    | None => Err IoUnexpectedEof
    | Some buf => Ok (map (fun i => block_decode (sl (i * RECORD_SIZE) RECORD_SIZE buf)) (seq 0 n))
    end.

Definition truncate_to (b : BlockIndexFile) (new_next_lba : nat) : BlockIndexFile :=
  let new_len := HEADER_SIZE + new_next_lba * RECORD_SIZE in
  let new_pages := wrap32 (div_ceil (Z.of_nat new_len) PAGE_SIZE) in
  mkTracked (set_len (t_file b) new_len) new_next_lba (truncate_to_pages (t_dirty b) new_pages).

(** [fsync]: what reaches the disk, the index file and its sidecar. *)
Definition fsync (b : BlockIndexFile) : list Z * list Z := (t_file b, persist (t_dirty b)).

(** ** Refinement to a list of records *)

Lemma block_record_size_pos : 0 < RECORD_SIZE.
Proof. unfold RECORD_SIZE. lia. Qed.
#[local] Hint Resolve block_record_size_pos : core.

Lemma append_tracked b r :
  append b r = (t_append HEADER_SIZE RECORD_SIZE b (block_encode r), t_next b).
Proof. done. Qed.

Lemma truncate_tracked b n : truncate_to b n = t_truncate HEADER_SIZE RECORD_SIZE b n.
Proof. done. Qed.

Definition block_header : list Z := index_header MAGIC VERSION (Z.of_nat RECORD_SIZE) HEADER_SIZE.

(** The index file holds the records [l]. *)
Definition repr (b : BlockIndexFile) (l : list BlockRec) : Prop :=
  t_repr HEADER_SIZE RECORD_SIZE block_encode block_ok block_header b l.

(** A record count whose file keeps its page numbers in a [u32]. *)
Definition fits (n : nat) : Prop := (Z.of_nat (record_offset n) <= u32_max * PAGE_SIZE)%Z.

(** The states a block index goes through from its creation on an empty
    directory, each with the records the calls so far have put there. *)
Inductive history : BlockIndexFile -> list BlockRec -> Prop :=
  | h_create b : open_or_create None None = Ok b -> history b []
  | h_append b l r : history b l -> block_ok r -> fits (S (length l)) ->
      history (append b r).1 (l ++ [r])
  | h_overwrite b l lba r b' : history b l -> block_ok r -> overwrite b lba r = Ok b' ->
      history b' (<[lba := r]> l)
  | h_truncate b l n : history b l -> fits n ->
      history (truncate_to b n) (take n l ++ replicate (n - length l) data_rec)
  | h_reopen b l b' : history b l ->
      open_or_create (Some (fsync b).1) (Some (fsync b).2) = Ok b' -> history b' l.

(** Reading a live index at [lba]. *)
Definition read_spec (l : list BlockRec) (lba : nat) : result BlockRec SmcError :=
  match l !! lba with
  | Some r => Ok r
  | None => Err (InvalidOp "block index read past next_lba")
  end.

(** Reading a run of a live index. *)
Definition read_run_spec (l : list BlockRec) (lba n : nat) :
    result (list (result BlockRec SmcError)) SmcError :=
  if bool_decide (lba + n <= length l) then Ok (map Ok (take n (drop lba l)))
  else Err (InvalidOp "block index read_run past next_lba").

Lemma block_enc_len a : block_ok a -> length (block_encode a) = RECORD_SIZE.
Proof. intros _. apply length_block_encode. Qed.
#[local] Hint Resolve block_enc_len : core.

Lemma block_repr_read b l lba : repr b l -> read b lba = read_spec l lba.
Proof.
  intros H. pose proof (t_repr_length _ _ block_record_size_pos _ _ _ _ _ H) as Hn.
  unfold read, read_spec. rewrite Hn. case_bool_decide as Hlt; [by rewrite lookup_ge_None_2|].
  destruct (lookup_lt_is_Some_2 l lba ltac:(lia)) as [r Hr]. rewrite Hr.
  change (record_offset lba) with (rec_off HEADER_SIZE RECORD_SIZE lba).
  erewrite t_repr_read by (done || exact H). apply block_decode_encode.
  destruct H as [_ _ _ Hok]. by eapply Forall_lookup_1.
Qed.

Lemma repr_read_run b l lba n : repr b l -> read_run b lba n = read_run_spec l lba n.
Proof.
  intros H. pose proof (t_repr_length _ _ block_record_size_pos _ _ _ _ _ H) as Hn.
  unfold read_run, read_run_spec. rewrite Hn. case_bool_decide as Hlt.
  - by rewrite bool_decide_eq_false_2 by lia.
  - rewrite bool_decide_eq_true_2 by lia.
    edestruct (t_repr_decode_run HEADER_SIZE RECORD_SIZE) as (buf & E & Hb);
      [done|exact block_decode_encode|exact H|apply Nat.nlt_ge, Hlt|].
    change (record_offset lba) with (rec_off HEADER_SIZE RECORD_SIZE lba).
    by rewrite E, Hb.
Qed.

(** Opening the file again reads the sidecar. *)
Lemma block_file_reopen b l sidecar :
  repr b l ->
  open_or_create (Some (t_file b)) sidecar = try d := open_tracker sidecar in Ok (mkTracked (t_file b) (t_next b) d).
Proof.
  intros [Hw Hh Hr Hok]. unfold open_or_create.
  change (default [] (Some (t_file b))) with (t_file b). cbv zeta. rewrite Hw. unfold rec_off.
  rewrite !bool_decide_eq_false_2 by (unfold HEADER_SIZE; lia). cbv zeta.
  destruct (index_header_fields_file MAGIC VERSION (Z.of_nat RECORD_SIZE) HEADER_SIZE
    ltac:(done) ltac:(by unfold HEADER_SIZE; lia) ltac:(done) ltac:(done) (t_file b) Hh) as (-> & -> & ->).
  rewrite bool_decide_eq_false_2, !Z.eqb_refl by (by intros []). cbn [negb].
  by rewrite Nat.add_comm, Nat.add_sub, Nat.Div0.mod_mul, Nat.div_mul by done.
Qed.

(** Reopening what [fsync] wrote. *)
Lemma block_repr_reopen b l :
  repr b l -> inner_wf (t_dirty b) ->
  open_or_create (Some (fsync b).1) (Some (fsync b).2) = Ok b.
Proof.
  intros Hr Hi. cbn [fsync fst snd]. rewrite (block_file_reopen b l) by done.
  unfold open_tracker, DirtyPages.open_or_create. rewrite load_persist by done. by destruct b.
Qed.

Lemma block_repr_create b : open_or_create None None = Ok b -> repr b [] /\ inner_wf (t_dirty b).
Proof.
  unfold open_or_create. cbn -[index_header write_at mark_range]. intros [= <-]. split; [split|].
  - done.
  - done.
  - done.
  - done.
  - apply mark_range_wf; [done|done|vm_compute; discriminate|apply inner_wf_empty].
Qed.

Lemma block_fits_small b l : repr b l -> fits (length l) -> small_file (t_file b).
Proof.
  intros H Hf. pose proof (t_repr_length _ _ block_record_size_pos _ _ _ _ _ H) as Hn.
  destruct H as [Hw _ _ _]. unfold small_file. by rewrite Hw, Hn.
Qed.

(** An index in memory with the records it holds. *)
Definition live (b : BlockIndexFile) (l : list BlockRec) : Prop :=
  repr b l /\ inner_wf (t_dirty b) /\ fits (length l).

Lemma block_live_next b l : live b l -> t_next b = length l.
Proof. intros (Hr & _). exact (t_repr_length _ _ block_record_size_pos _ _ _ _ _ Hr). Qed.

Lemma block_live_read b l lba : live b l -> read b lba = read_spec l lba.
Proof. intros (Hr & _). by apply block_repr_read. Qed.

Lemma block_live_read_run b l lba n : live b l -> read_run b lba n = read_run_spec l lba n.
Proof. intros (Hr & _). by apply repr_read_run. Qed.

Lemma block_live_append b l r : live b l -> block_ok r -> fits (S (length l)) -> live (append b r).1 (l ++ [r]).
Proof.
  intros (Hr & Hi & Hf) Ho Hfit.
  assert (Hr' : repr (append b r).1 (l ++ [r])) by (by apply t_repr_append).
  assert (Hf' : fits (length (l ++ [r]))) by (by rewrite length_app, Nat.add_comm).
  split_and!; [done| |done]. apply t_append_inner; [done|apply Hr|auto|by eapply block_fits_small|done].
Qed.

Lemma block_live_overwrite b l lba r :
  live b l -> block_ok r -> lba < length l -> exists b', overwrite b lba r = Ok b' /\ live b' (<[lba := r]> l).
Proof.
  intros Hl Ho Hid. pose proof (block_live_next b l Hl) as Hn. destruct Hl as (Hr & Hi & Hf).
  unfold overwrite. rewrite bool_decide_eq_false_2 by lia. eexists. split; [done|]. split_and!.
  - apply t_repr_overwrite; (done || auto || lia).
  - apply t_overwrite_inner; [done|apply Hr|auto|lia|by eapply block_fits_small|done].
  - by rewrite length_insert.
Qed.

Lemma block_live_truncate b l n :
  live b l -> fits n -> live (truncate_to b n) (take n l ++ replicate (n - length l) data_rec).
Proof.
  intros (Hr & Hi & Hf) Hfit. split_and!.
  - by apply t_repr_truncate.
  - by apply truncate_wf.
  - rewrite length_app, length_take, length_replicate.
    replace (n `min` length l + (n - length l)) with n by lia. done.
Qed.

Lemma block_live_create sidecar d :
  open_tracker sidecar = Ok d -> inner_wf d -> exists b, open_or_create None sidecar = Ok b /\ live b [].
Proof.
  intros E Hd. unfold open_or_create. cbn -[index_header write_at mark_range]. rewrite E.
  eexists. split; [done|]. split_and!; [by split| |vm_compute; discriminate].
  apply mark_range_wf; [done|done|vm_compute; discriminate|done].
Qed.

(** The file reopened beside a sidecar that loads: the records are the same,
    the marks are the sidecar's. *)
Lemma block_live_reopen b l sidecar d :
  live b l -> open_tracker sidecar = Ok d -> inner_wf d ->
  exists b', open_or_create (Some (t_file b)) sidecar = Ok b' /\ live b' l.
Proof.
  intros (Hr & Hi & Hf) E Hd. rewrite (block_file_reopen b l), E by done.
  eexists. split; [done|]. split_and!; [by destruct Hr|done|done].
Qed.

(** What holds along every history. *)
Lemma block_history_inv b l : history b l -> live b l.
Proof.
  induction 1 as [b E|b l r H IH Ho Hfit|b l lba r b' H IH Ho E|b l n H IH Hfit|b l b' H IH E].
  - destruct (block_repr_create b E). split_and!; [done|done|]. vm_compute. discriminate.
  - by apply block_live_append.
  - destruct (decide (lba < length l)) as [Hlt|Hge].
    + destruct (block_live_overwrite b l lba r IH Ho Hlt) as (b2 & E2 & H2). rewrite E in E2. by injection E2 as ->.
    + unfold overwrite in E. rewrite (block_live_next b l IH) in E. by rewrite bool_decide_eq_true_2 in E by lia.
  - by apply block_live_truncate.
  - destruct IH as (Hr & Hi & Hf). rewrite (block_repr_reopen b l) in E by done. by injection E as <-.
Qed.

(** The block index file is the list of records its callers put there:
    after any history of appends, overwrites, truncations (past the end they
    add zeroed data records) and synced reopenings, [next_lba] counts them,
    [read] and [read_run] return exactly them or the past-the-end error,
    [append] returns the next address, and closing and reopening gives back
    the same index with the same dirty marks. *)
Theorem block_index_refines b l :
  history b l ->
  t_next b = length l /\
  (forall lba, read b lba = read_spec l lba) /\
  (forall lba n, read_run b lba n = read_run_spec l lba n) /\
  (forall r, (append b r).2 = length l) /\
  (forall lba r, length l <= lba ->
    overwrite b lba r = Err (InvalidOp "block index overwrite past next_lba")) /\
  open_or_create (Some (fsync b).1) (Some (fsync b).2) = Ok b.
Proof.
  intros H. destruct (block_history_inv b l H) as (Hr & Hi & Hf).
  pose proof (t_repr_length _ _ block_record_size_pos _ _ _ _ _ Hr) as Hn.
  split_and!; [done|by intros; apply block_repr_read|by intros; apply repr_read_run|done| |by eapply block_repr_reopen].
  intros lba r Hlba. unfold overwrite. by rewrite Hn, bool_decide_eq_true_2.
Qed.

(** Two appends and a truncation to one record. *)
Definition sample_index : BlockIndexFile :=
  match open_or_create None None with
  | Ok b =>
    let b := (append b (mkBlock 1 0 512 Data Aes256Gcm (Some Zstd))).1 in
    let b := (append b (mkBlock 1 512 0 Filemark ENone None)).1 in
    truncate_to b 1
  | Err _ => mkTracked [] 0 (mkInner [] 0)
  end.

Lemma block_index_refines_witness :
  read sample_index 0 = Ok (mkBlock 1 0 512 Data Aes256Gcm (Some Zstd)) /\
  read sample_index 1 = Err (InvalidOp "block index read past next_lba") /\
  t_dirty sample_index = mkInner [1%Z] 0.
Proof.
  assert (H : history sample_index [mkBlock 1 0 512 Data Aes256Gcm (Some Zstd)]).
  { refine (h_truncate _ _ 1 (h_append _ _ _ (h_append _ _ _ (h_create _ eq_refl) _ _) _ _) _);
      repeat split; vm_compute; discriminate. }
  destruct (block_index_refines _ _ H) as (_ & Hr & _). split_and!; [apply Hr|apply Hr|done].
Defined.
