(* ===== verification/ChunkIndex.v ===== *)
(** * The chunk index ([core/stream/src/chunk_index.rs])

    [chunks.idx]: a 32-byte header and one 64-byte record per chunk of a
    cartridge, with the dirty-page tracker and a batched iterator.  Encoding
    is fallible (a size over [u32], a hash that is not 32 bytes of hex), so
    [append] and [overwrite] are too.  The theorems: the file refines the
    list of its records, a refused record changes nothing, and the batched
    scan yields the records in order. *)

From Stdlib Require Import String.
From stdpp Require Import gmap.
From S2P Require Import Prelude Bytes ByteFile DirtyPages IndexCodec TrackedFile.

Local Open Scope nat_scope.

Definition RECORD_SIZE : nat := 64.
Definition HEADER_SIZE : nat := 32.
Definition MAGIC : list Z := [78; 86; 67; 73]%Z.
Definition VERSION : Z := 1.

Definition ChunkIndexFile : Type := Tracked.

Local Open Scope thur_scope.

Definition open_or_create (existing sidecar : option (list Z)) : result ChunkIndexFile SmcError :=
  let f := default [] existing in
  if bool_decide (length f = 0) then
    try d := open_tracker sidecar in
    Ok (mkTracked (write_at f 0 (index_header MAGIC VERSION (Z.of_nat RECORD_SIZE) HEADER_SIZE)) 0
          (mark_range d 0 (Z.of_nat HEADER_SIZE)))
  else if bool_decide (length f < HEADER_SIZE)
  then Err (InvalidOp "chunk index file shorter than header — corrupt")
  else
    let hdr := sl 0 HEADER_SIZE f in
    if bool_decide (header_magic hdr <> MAGIC)
    then Err (InvalidOp "chunk index file magic mismatch — wrong file or corrupt")
    else if negb (header_version hdr =? VERSION)%Z
    then Err (InvalidOp "chunk index file version unsupported by this build")
    else if negb (header_rsz hdr =? Z.of_nat RECORD_SIZE)%Z
    then Err (InvalidOp "chunk index file record-size header field disagrees with build")
    else
      let records_bytes := length f - HEADER_SIZE in
      if negb (bool_decide (records_bytes mod RECORD_SIZE = 0))
      then Err (InvalidOp "chunk index records region is not a multiple of record size")
      else
        try d := open_tracker sidecar in
        Ok (mkTracked f (records_bytes / RECORD_SIZE) d).

Definition record_offset (id : nat) : nat := HEADER_SIZE + id * RECORD_SIZE.

Section chunk_index.
Context `{HexCodec}.

Definition append (b : ChunkIndexFile) (r : ChunkRec) : result (ChunkIndexFile * nat) SmcError :=
  let id := t_next b in
  try buf := chunk_encode r in
  let off := record_offset id in
  let d := mark_range (t_dirty b) (Z.of_nat off) (Z.of_nat RECORD_SIZE) in
  Ok (mkTracked (write_at (t_file b) off buf) (S id) d, id).

Definition overwrite (b : ChunkIndexFile) (id : nat) (r : ChunkRec) :
    result ChunkIndexFile SmcError :=
  if bool_decide (t_next b <= id)
  then Err (InvalidOp "chunk index overwrite past next_id")
  else
    try buf := chunk_encode r in
    let off := record_offset id in
    let d := mark_range (t_dirty b) (Z.of_nat off) (Z.of_nat RECORD_SIZE) in
    Ok (mkTracked (write_at (t_file b) off buf) (t_next b) d).

Definition read (b : ChunkIndexFile) (id : nat) : result ChunkRec SmcError :=
  if bool_decide (t_next b <= id) then Err (InvalidOp "chunk index read past next_id")
  else match read_exact_at (t_file b) (record_offset id) RECORD_SIZE with
    | None => Err IoUnexpectedEof
    | Some buf => chunk_decode buf
    end.

Definition truncate_to (b : ChunkIndexFile) (new_next_id : nat) : ChunkIndexFile :=
  let new_len := HEADER_SIZE + new_next_id * RECORD_SIZE in
  let new_pages := wrap32 (div_ceil (Z.of_nat new_len) PAGE_SIZE) in
  mkTracked (set_len (t_file b) new_len) new_next_id (truncate_to_pages (t_dirty b) new_pages).

Definition fsync (b : ChunkIndexFile) : list Z * list Z := (t_file b, persist (t_dirty b)).

(** ** The batched iterator *)

Definition ITER_BATCH_RECORDS : nat := Z.to_nat 1024.

Record ChunkIndexIter : Type := mkIter {
  next_id : nat;
  end_id : nat;
  buf : list Z;
  buf_start_id : nat;
}.

Definition iter (b : ChunkIndexFile) : ChunkIndexIter := mkIter 0 (t_next b) [] 0.

(** The refill: the buffer is resized, then filled by one positioned read; a
    short read leaves what it got in the buffer and is an error. *)
Definition refill (f : list Z) (it : ChunkIndexIter) : ChunkIndexIter * bool :=
  let remaining := end_id it - next_id it in
  let take_n := remaining `min` ITER_BATCH_RECORDS in
  let bytes := take_n * RECORD_SIZE in
  let off := record_offset (next_id it) in
  match read_exact_at f off bytes with
  | None =>
      let got := read_at f off bytes in
      (mkIter (next_id it) (end_id it) (got ++ drop (length got) (set_len (buf it) bytes))
         (buf_start_id it), false)
  | Some data => (mkIter (next_id it) (end_id it) data (next_id it), true)
  end.

Definition next (f : list Z) (it : ChunkIndexIter) :
    option (result (nat * ChunkRec) SmcError) * ChunkIndexIter :=
  if bool_decide (end_id it <= next_id it) then (None, it)
  else
    let buf_end_id := buf_start_id it + length (buf it) / RECORD_SIZE in
    let (it, filled) :=
      if bool_decide (buf_end_id <= next_id it) then refill f it else (it, true) in
    if filled then
      let id := next_id it in
      let rel := (id - buf_start_id it) * RECORD_SIZE in
      let rec_buf := sl rel RECORD_SIZE (buf it) in
      (Some (try r := chunk_decode rec_buf in Ok (id, r)),
       mkIter (S (next_id it)) (end_id it) (buf it) (buf_start_id it))
    else (Some (Err IoUnexpectedEof), it).

(** Driving the iterator to its end. *)
Fixpoint drain (fuel : nat) (f : list Z) (it : ChunkIndexIter) :
    list (result (nat * ChunkRec) SmcError) :=
  match fuel with
  | O => []
  | S fuel =>
      match next f it with
      | (None, _) => []
      | (Some x, it) => x :: drain fuel f it
      end
  end.

Definition iter_all (b : ChunkIndexFile) : list (result (nat * ChunkRec) SmcError) :=
  drain (S (t_next b)) (t_file b) (iter b).

(** ** Refinement to a list of records *)

Context `{!HexLaws}.

Definition chunk_header : list Z := index_header MAGIC VERSION (Z.of_nat RECORD_SIZE) HEADER_SIZE.

(** The bytes of an encodable record. *)
Definition chunk_bytes (r : ChunkRec) : list Z :=
  match chunk_encode r with
  | Ok bs => bs
  | Err _ => []
  end.

Definition repr (b : ChunkIndexFile) (l : list ChunkRec) : Prop :=
  t_repr HEADER_SIZE RECORD_SIZE chunk_bytes chunk_ok chunk_header b l.

(** A record count whose file keeps its page numbers in a [u32]. *)
Definition fits (n : nat) : Prop := (Z.of_nat (record_offset n) <= u32_max * PAGE_SIZE)%Z.

(** The states a chunk index goes through from its creation on an empty
    directory, each with the records the calls so far have put there. *)
Inductive history : ChunkIndexFile -> list ChunkRec -> Prop :=
  | h_create b : open_or_create None None = Ok b -> history b []
  | h_append b l r b' id : history b l -> chunk_ok r -> fits (S (length l)) ->
      append b r = Ok (b', id) -> history b' (l ++ [r])
  | h_overwrite b l id r b' : history b l -> chunk_ok r -> overwrite b id r = Ok b' ->
      history b' (<[id := r]> l)
  | h_truncate b l n : history b l -> fits n ->
      history (truncate_to b n) (take n l ++ replicate (n - length l) staging)
  | h_reopen b l b' : history b l ->
      open_or_create (Some (fsync b).1) (Some (fsync b).2) = Ok b' -> history b' l.

Definition read_spec (l : list ChunkRec) (id : nat) : result ChunkRec SmcError :=
  match l !! id with
  | Some r => Ok r
  | None => Err (InvalidOp "chunk index read past next_id")
  end.

Lemma chunk_record_size_pos : 0 < RECORD_SIZE.
Proof. unfold RECORD_SIZE. lia. Qed.
#[local] Hint Resolve chunk_record_size_pos : core.

Lemma chunk_bytes_ok r :
  chunk_ok r -> chunk_encode r = Ok (chunk_bytes r) /\ length (chunk_bytes r) = RECORD_SIZE /\
    chunk_decode (chunk_bytes r) = Ok r.
Proof.
  intros Hr. destruct (chunk_decode_encode r Hr) as (bs & E & Hl & Hd).
  unfold chunk_bytes. by rewrite E.
Qed.

Lemma chunk_bytes_len r : chunk_ok r -> length (chunk_bytes r) = RECORD_SIZE.
Proof. apply chunk_bytes_ok. Qed.
#[local] Hint Resolve chunk_bytes_len : core.

Lemma staging_ok : chunk_ok staging /\ chunk_bytes staging = zeros RECORD_SIZE.
Proof. split; [split; [unfold in_u32, u32_max; simpl; lia|done]|done]. Qed.

Lemma chunk_repr_read b l id : repr b l -> read b id = read_spec l id.
Proof.
  intros Hr. pose proof (t_repr_length _ _ chunk_record_size_pos _ _ _ _ _ Hr) as Hn.
  unfold read, read_spec. rewrite Hn. case_bool_decide as Hlt; [by rewrite lookup_ge_None_2|].
  destruct (lookup_lt_is_Some_2 l id ltac:(lia)) as [r El]. rewrite El.
  change (record_offset id) with (rec_off HEADER_SIZE RECORD_SIZE id).
  erewrite t_repr_read by (done || exact Hr). apply chunk_bytes_ok.
  destruct Hr as [_ _ _ Hok]. by eapply Forall_lookup_1.
Qed.

(** Opening the file again reads the sidecar. *)
Lemma chunk_file_reopen b l sidecar :
  repr b l ->
  open_or_create (Some (t_file b)) sidecar = try d := open_tracker sidecar in Ok (mkTracked (t_file b) (t_next b) d).
Proof.
  intros [Hw Hh Hr Hok]. unfold open_or_create.
  change (default [] (Some (t_file b))) with (t_file b). cbv zeta. rewrite Hw. unfold rec_off.
  rewrite !bool_decide_eq_false_2 by (unfold HEADER_SIZE; lia). cbv zeta.
  destruct (index_header_fields_file MAGIC VERSION (Z.of_nat RECORD_SIZE) HEADER_SIZE
    ltac:(done) ltac:(by unfold HEADER_SIZE; lia) ltac:(done) ltac:(done) (t_file b) Hh) as (-> & -> & ->).
  rewrite bool_decide_eq_false_2, !Z.eqb_refl by (by intros []). cbn [negb].
  by rewrite Nat.add_comm, Nat.add_sub, Nat.Div0.mod_mul, Nat.div_mul by done.
Qed.

Lemma chunk_repr_reopen b l :
  repr b l -> inner_wf (t_dirty b) ->
  open_or_create (Some (fsync b).1) (Some (fsync b).2) = Ok b.
Proof.
  intros Hr Hi. cbn [fsync fst snd]. rewrite (chunk_file_reopen b l) by done.
  unfold open_tracker, DirtyPages.open_or_create. rewrite load_persist by done. by destruct b.
Qed.

Lemma chunk_repr_create b : open_or_create None None = Ok b -> repr b [] /\ inner_wf (t_dirty b).
Proof.
  unfold open_or_create. cbn -[index_header write_at mark_range]. intros [= <-].
  split; [by split|]. apply mark_range_wf; [done|done|vm_compute; discriminate|apply inner_wf_empty].
Qed.

Lemma chunk_fits_small b l : repr b l -> fits (length l) -> small_file (t_file b).
Proof.
  intros Hr Hf. pose proof (t_repr_length _ _ chunk_record_size_pos _ _ _ _ _ Hr) as Hn.
  destruct Hr as [Hw _ _ _]. unfold small_file. by rewrite Hw, Hn.
Qed.

Lemma append_ok b r :
  chunk_ok r -> append b r = Ok (t_append HEADER_SIZE RECORD_SIZE b (chunk_bytes r), t_next b).
Proof. intros Hr. unfold append. cbv zeta. by rewrite (proj1 (chunk_bytes_ok r Hr)). Qed.

Lemma overwrite_ok b id r :
  chunk_ok r -> id < t_next b ->
  overwrite b id r = Ok (t_overwrite HEADER_SIZE RECORD_SIZE b id (chunk_bytes r)).
Proof.
  intros Hr Hid. unfold overwrite. rewrite bool_decide_eq_false_2 by lia.
  by rewrite (proj1 (chunk_bytes_ok r Hr)).
Qed.

(** An index in memory with the records it holds. *)
Definition live (b : ChunkIndexFile) (l : list ChunkRec) : Prop :=
  repr b l /\ inner_wf (t_dirty b) /\ fits (length l).

Lemma chunk_live_next b l : live b l -> t_next b = length l.
Proof. intros (Hr & _). exact (t_repr_length _ _ chunk_record_size_pos _ _ _ _ _ Hr). Qed.

Lemma chunk_live_read b l id : live b l -> read b id = read_spec l id.
Proof. intros (Hr & _). by apply chunk_repr_read. Qed.

Lemma chunk_live_append b l r :
  live b l -> chunk_ok r -> fits (S (length l)) ->
  exists b', append b r = Ok (b', length l) /\ live b' (l ++ [r]).
Proof.
  intros Hl Ho Hfit. pose proof (chunk_live_next b l Hl) as Hn. destruct Hl as (Hr & Hi & Hf).
  rewrite append_ok, Hn by done. eexists. split; [done|].
  assert (Hr' : repr (t_append HEADER_SIZE RECORD_SIZE b (chunk_bytes r)) (l ++ [r]))
    by (apply t_repr_append; (done || exact chunk_bytes_len)).
  assert (Hf' : fits (length (l ++ [r]))) by (by rewrite length_app, Nat.add_comm).
  split_and!; [done| |done]. apply t_append_inner; [done|apply Hr|auto|by eapply chunk_fits_small|done].
Qed.

Lemma chunk_live_overwrite b l id r :
  live b l -> chunk_ok r -> id < length l ->
  exists b', overwrite b id r = Ok b' /\ live b' (<[id := r]> l).
Proof.
  intros Hl Ho Hid. pose proof (chunk_live_next b l Hl) as Hn. destruct Hl as (Hr & Hi & Hf).
  rewrite overwrite_ok by (done || lia). eexists. split; [done|]. split_and!.
  - apply t_repr_overwrite; (done || auto || lia).
  - apply t_overwrite_inner; [done|apply Hr|auto|lia|by eapply chunk_fits_small|done].
  - by rewrite length_insert.
Qed.

Lemma chunk_live_truncate b l n :
  live b l -> fits n -> live (truncate_to b n) (take n l ++ replicate (n - length l) staging).
Proof.
  intros (Hr & Hi & Hf) Hfit. destruct staging_ok as [Hs1 Hs2]. split_and!.
  - by apply t_repr_truncate.
  - by apply truncate_wf.
  - rewrite length_app, length_take, length_replicate.
    replace (n `min` length l + (n - length l)) with n by lia. done.
Qed.

Lemma chunk_live_create sidecar d :
  open_tracker sidecar = Ok d -> inner_wf d -> exists b, open_or_create None sidecar = Ok b /\ live b [].
Proof.
  intros E Hd. unfold open_or_create. cbn -[index_header write_at mark_range]. rewrite E.
  eexists. split; [done|]. split_and!; [by split| |vm_compute; discriminate].
  apply mark_range_wf; [done|done|vm_compute; discriminate|done].
Qed.

(** The file reopened beside a sidecar that loads: the records are the same,
    the marks are the sidecar's. *)
Lemma chunk_live_reopen b l sidecar d :
  live b l -> open_tracker sidecar = Ok d -> inner_wf d ->
  exists b', open_or_create (Some (t_file b)) sidecar = Ok b' /\ live b' l.
Proof.
  intros (Hr & Hi & Hf) E Hd.
  assert (Hd' : open_or_create (Some (t_file b)) sidecar = Ok (mkTracked (t_file b) (t_next b) d)).
  { rewrite (chunk_file_reopen b l), E by done. done. }
  rewrite Hd'. eexists. split; [done|]. split_and!; [by destruct Hr|done|done].
Qed.

(** What holds along every history. *)
Lemma chunk_history_inv b l : history b l -> live b l.
Proof.
  induction 1 as [b E|b l r b' id Hh IH Ho Hfit E|b l id r b' Hh IH Ho E|b l n Hh IH Hfit|b l b' Hh IH E].
  - destruct (chunk_repr_create b E). split_and!; [done|done|]. vm_compute. discriminate.
  - destruct (chunk_live_append b l r IH Ho Hfit) as (b2 & E2 & H2). rewrite E in E2. by injection E2 as -> _.
  - destruct (decide (id < length l)) as [Hlt|Hge].
    + destruct (chunk_live_overwrite b l id r IH Ho Hlt) as (b2 & E2 & H2). rewrite E in E2. by injection E2 as ->.
    + unfold overwrite in E. rewrite (chunk_live_next b l IH) in E. by rewrite bool_decide_eq_true_2 in E by lia.
  - by apply chunk_live_truncate.
  - destruct IH as (Hr & Hi & Hf). rewrite (chunk_repr_reopen b l) in E by done. by injection E as <-.
Qed.

(** The chunk index file is the list of records its callers put there:
    after any history of appends, overwrites, truncations (past the end they
    add staging records) and synced reopenings, [next_id] counts them,
    [read] returns exactly them or the past-the-end error, a record that
    encodes is appended at the next id, one that does not encode is refused
    with the encoder's error, and closing and reopening gives back the same
    index with the same dirty marks. *)
Theorem chunk_index_refines b l :
  history b l ->
  t_next b = length l /\
  (forall id, read b id = read_spec l id) /\
  (forall r, chunk_ok r -> exists b', append b r = Ok (b', length l)) /\
  (forall r e, chunk_encode r = Err e -> append b r = Err e) /\
  (forall id r, length l <= id ->
    overwrite b id r = Err (InvalidOp "chunk index overwrite past next_id")) /\
  open_or_create (Some (fsync b).1) (Some (fsync b).2) = Ok b.
Proof.
  intros Hh. destruct (chunk_history_inv b l Hh) as (Hr & Hi & Hf).
  pose proof (t_repr_length _ _ chunk_record_size_pos _ _ _ _ _ Hr) as Hn.
  split_and!; [done|by intros; apply chunk_repr_read| | | |by eapply chunk_repr_reopen].
  - intros r Ho. rewrite append_ok, Hn by done. by eexists.
  - intros r e E. unfold append. by rewrite E.
  - intros id r Hid. unfold overwrite. by rewrite Hn, bool_decide_eq_true_2.
Qed.

(** ** The scan *)

Section scan.
Context (b : ChunkIndexFile) (l : list ChunkRec) (Hrep : repr b l).

(** The buffer holds a run of records around the cursor. *)
Definition iter_inv (it : ChunkIndexIter) : Prop :=
  end_id it = length l /\ buf_start_id it <= next_id it /\
  exists k, length (buf it) = k * RECORD_SIZE /\ next_id it <= buf_start_id it + k <= length l /\
    forall j r, j < k -> l !! (buf_start_id it + j) = Some r ->
      sl (j * RECORD_SIZE) RECORD_SIZE (buf it) = chunk_bytes r.

Lemma iter_inv_start : iter_inv (iter b).
Proof.
  pose proof (t_repr_length _ _ chunk_record_size_pos _ _ _ _ _ Hrep) as Hn.
  split_and!; [done|done|]. exists 0. split_and!; simpl; [done|lia|lia|lia].
Qed.

(** A refill succeeds and puts the cursor inside the buffer. *)
Lemma refill_inv it :
  iter_inv it -> next_id it < length l ->
  exists it', refill (t_file b) it = (it', true) /\ iter_inv it' /\ next_id it' = next_id it /\
    next_id it < buf_start_id it' + length (buf it') / RECORD_SIZE.
Proof.
  intros (He & Hs & _) Hlt. unfold refill. cbv zeta. rewrite He.
  set (k := (length l - next_id it) `min` ITER_BATCH_RECORDS).
  assert (Hk : 0 < k <= length l - next_id it) by (unfold k, ITER_BATCH_RECORDS; lia).
  destruct (t_repr_run _ _ chunk_record_size_pos _ _ _ b l (next_id it) k Hrep ltac:(lia)) as (data & E & Hd).
  change (rec_off HEADER_SIZE RECORD_SIZE (next_id it)) with (record_offset (next_id it)) in E.
  assert (Hl : length data = k * RECORD_SIZE).
  { revert E. unfold read_exact_at. cbv zeta. case_bool_decide as Hb; [done|]. intros [= <-].
    unfold read_at, sl in *. rewrite length_take in *. lia. }
  rewrite E. eexists. split; [done|]. unfold iter_inv. cbn [next_id end_id buf buf_start_id].
  rewrite Hl, Nat.div_mul by done. split_and!; [done|done| |done|lia].
  exists k. split_and!; [done|lia|lia|done].
Qed.

Lemma next_inv it r :
  iter_inv it -> l !! next_id it = Some r ->
  exists it', next (t_file b) it = (Some (Ok (next_id it, r)), it') /\ iter_inv it' /\
    next_id it' = S (next_id it).
Proof.
  intros Hinv Hr. pose proof (lookup_lt_Some _ _ _ Hr) as Hlt. unfold next.
  rewrite bool_decide_eq_false_2 by (destruct Hinv; lia). cbv zeta.
  assert (exists it', (if bool_decide (buf_start_id it + length (buf it) / RECORD_SIZE <= next_id it)
      then refill (t_file b) it else (it, true)) = (it', true) /\ iter_inv it' /\
      next_id it' = next_id it /\ next_id it < buf_start_id it' + length (buf it') / RECORD_SIZE)
    as (it' & -> & (He & Hs & k & Hk & Hb & Hj) & Hn & Hin).
  { case_bool_decide; [by apply refill_inv|]. exists it. split_and!; [done|done|done|lia]. }
  rewrite Hk, Nat.div_mul in Hin by done. rewrite <- Hn in *.
  rewrite (Hj (next_id it' - buf_start_id it') r) by
    (try lia; by replace (buf_start_id it' + (next_id it' - buf_start_id it')) with (next_id it') by lia).
  assert (Hok : chunk_ok r) by (destruct Hrep as [_ _ _ Hok]; by eapply Forall_lookup_1).
  destruct (chunk_bytes_ok r Hok) as (_ & _ & ->). eexists. split; [done|].
  split; [|done]. split_and!; cbn [next_id end_id buf buf_start_id]; [done|lia|].
  exists k. split_and!; [done|lia|lia|done].
Qed.

Lemma drain_inv fuel it :
  iter_inv it -> length l - next_id it < fuel ->
  drain fuel (t_file b) it =
    imap (fun i r => Ok (next_id it + i, r)) (drop (next_id it) l).
Proof.
  revert it. induction fuel as [|fuel IH]; intros it Hinv Hf; [lia|].
  destruct (l !! next_id it) as [r|] eqn:Er.
  - destruct (next_inv it r Hinv Er) as (it' & E & Hinv' & Hn). cbn [drain]. rewrite E.
    pose proof (lookup_lt_Some _ _ _ Er). rewrite IH by (done || lia).
    rewrite (drop_S l r (next_id it)) by done. rewrite Hn. cbn [imap]. rewrite Nat.add_0_r. f_equal.
    apply imap_ext. intros i x _. simpl. do 2 f_equal. lia.
  - apply lookup_ge_None in Er. rewrite drop_ge by lia. cbn [drain].
    unfold next. rewrite bool_decide_eq_true_2 by (destruct Hinv; lia). done.
Qed.

End scan.

Lemma chunk_live_iter b l : live b l -> iter_all b = imap (fun id r => Ok (id, r)) l.
Proof.
  intros (Hr & _). pose proof (t_repr_length _ _ chunk_record_size_pos _ _ _ _ _ Hr) as Hn.
  unfold iter_all. rewrite (drain_inv b l) by (done || (by apply iter_inv_start) || (simpl; lia)).
  simpl. by rewrite drop_0.
Qed.

(** The batched scan of the chunk index yields every record once, in id
    order, paired with its id, and nothing else: refills of 1024 records
    neither skip nor repeat one. *)
Theorem chunk_iter_exact b l :
  history b l -> iter_all b = imap (fun id r => Ok (id, r)) l.
Proof. intros Hh. by apply chunk_live_iter, chunk_history_inv. Qed.

End chunk_index.

(** A staging chunk and an uploaded one with its digest. *)
Definition sample_hash : list Z := hex_encode (replicate 32 171%Z).
Definition sealed_chunk : ChunkRec := mkChunk 4194304 (Some sample_hash) Both true (Some Lz4).

Definition or_else {A : Type} (x : result A SmcError) (d : A) : A :=
  match x with Ok a => a | Err _ => d end.

Definition index_0 : ChunkIndexFile := or_else (open_or_create None None) (mkTracked [] 0 (mkInner [] 0)).
Definition index_1 : ChunkIndexFile := (or_else (append index_0 staging) (index_0, 0)).1.
Definition index_2 : ChunkIndexFile := (or_else (append index_1 staging) (index_1, 0)).1.
Definition sample_index : ChunkIndexFile := or_else (overwrite index_2 1 sealed_chunk) index_2.

Lemma sealed_chunk_ok : chunk_ok sealed_chunk.
Proof.
  split; [vm_compute; split; discriminate|]. exists (replicate 32 171%Z).
  split_and!; [|done|done]. apply Forall_replicate. vm_compute. split; [discriminate|done].
Qed.

Lemma sample_history : history sample_index [staging; sealed_chunk].
Proof.
  assert (Hs : chunk_ok staging) by apply staging_ok.
  apply (h_overwrite index_2 [staging; staging] 1 sealed_chunk);
    [|exact sealed_chunk_ok|vm_compute; reflexivity].
  apply (h_append index_1 [staging] staging _ 1); [|done|vm_compute; discriminate|vm_compute; reflexivity].
  apply (h_append index_0 [] staging _ 0); [|done|vm_compute; discriminate|vm_compute; reflexivity].
  by apply h_create.
Qed.

Lemma chunk_index_refines_witness :
  read sample_index 1 = Ok sealed_chunk /\
  append sample_index (mkChunk 4294967296 None LocalOnly false None) =
    Err (InvalidOp "chunk index encode: size exceeds u32::MAX (chunk too large)") /\
  append sample_index (mkChunk 1 (Some [103; 103]%Z) LocalOnly false None) =
    Err (InvalidOp "chunk index encode: hash is not valid hex").
Proof.
  destruct (chunk_index_refines _ _ sample_history) as (_ & Hr & _ & He & _).
  split_and!; [apply Hr|by apply He|by apply He].
Defined.

Lemma chunk_iter_exact_witness :
  iter_all sample_index = [Ok (0, staging); Ok (1, sealed_chunk)].
Proof. exact (chunk_iter_exact _ _ sample_history). Defined.
