(* ===== verification/IndexBackup.v ===== *)
(** * Delta backup of the index files ([core/stream/src/index_backup.rs])

    The upload pass ships the dirty 1 MiB pages of an index file to one
    object per page, and the restore stitches the pages back into a file.
    The object store is a map from page numbers to payloads (one index file
    has one key per page); whether the store accepts a PUT is an argument of
    the pass.  The theorems: after any history of index mutations, syncs,
    restarts and passes, failed ones included, a pass over a synced index
    followed by a restore gives back the file; and two histories for which
    that is false, a truncation after a restore and a pass that stops before
    its sentinel. *)

From Stdlib Require Import String.
From stdpp Require Import gmap.
From S2P Require Import BlockIndex ChunkIndex.
From S2P Require Import Prelude Bytes ByteFile DirtyPages IndexCodec TrackedFile.

Local Open Scope nat_scope.
Local Open Scope thur_scope.

Record IndexEpoch : Type := mkEpoch {
  ie_pages : Z;
  ie_page_size : Z;
  ie_epoch : Z;
  ie_file_size : nat;
}.

(** What the pass has done so far: the store, the tracker of the handle it
    runs on, the page objects PUT and the pages it may clear. *)
Record Pass : Type := mkPass {
  p_store : Store;
  p_tracker : Inner;
  p_keys : list Z;
  p_handled : list Z;
}.

(** The payload length of a page of a file of [file_size] bytes. *)
Definition page_len (file_size : nat) (page : Z) : nat :=
  Z.to_nat (Z.min (Z.of_nat file_size - page * PAGE_SIZE) PAGE_SIZE).

(** The body of the loop for one page: [None] goes on, [Some e] aborts. *)
Definition upload_page (f : list Z) (file_size : nat) (put : Z -> bool) (page : Z) (p : Pass) :
    Pass * option SmcError :=
  if (Z.of_nat file_size <=? page * PAGE_SIZE)%Z then
    (mkPass (p_store p) (clear_pages (p_tracker p) [page]) (p_keys p) (p_handled p ++ [page]), None)
  else
    let off := Z.to_nat (page * PAGE_SIZE) in
    match read_exact_at f off (page_len file_size page) with
    | None => (p, Some IoUnexpectedEof)
    | Some buf =>
        if put page then
          (mkPass (<[Z.to_nat page := buf]> (p_store p)) (clear_pages (p_tracker p) [page])
             (p_keys p ++ [page]) (p_handled p ++ [page]), None)
        else (p, Some StorageError)
    end.

Fixpoint upload_pages (f : list Z) (file_size : nat) (put : Z -> bool) (ps : list Z) (p : Pass) :
    Pass * option SmcError :=
  match ps with
  | [] => (p, None)
  | page :: ps =>
      match upload_page f file_size put page p with
      | (p, None) => upload_pages f file_size put ps p
      | (p, Some e) => (p, Some e)
      end
  end.

(** The outcome of a pass: what storage, the handle's tracker and the
    on-disk sidecar hold, and what the call returned. *)
Record Outcome : Type := mkOutcome {
  o_store : Store;
  o_tracker : Inner;
  o_sidecar : option (list Z);
  o_result : result (IndexEpoch * list Z) SmcError;
}.

Definition upload_one_index (tracker : Inner) (f : list Z) (file_size : nat)
    (sidecar : option (list Z)) (put : Z -> bool) (store : Store) : Outcome :=
  let total_pages := wrap32 (div_ceil (Z.of_nat file_size) PAGE_SIZE) in
  let '(p, err) := upload_pages f file_size put (pages (snapshot tracker))
    (mkPass store tracker [] []) in
  match err with
  | Some e => mkOutcome (p_store p) (p_tracker p) sidecar (Err e)
  | None =>
      match open_tracker sidecar with
      | Err e => mkOutcome (p_store p) (p_tracker p) sidecar (Err e)
      | Ok on_disk =>
          let on_disk := clear_pages on_disk (p_handled p) in
          let on_disk := bump_epoch on_disk in
          mkOutcome (p_store p) (p_tracker p) (Some (persist on_disk))
            (Ok (mkEpoch total_pages PAGE_SIZE (epoch on_disk) file_size, p_keys p))
      end
  end.

(** The download loop over the pages still to fetch, on the file so far. *)
Fixpoint restore_pages (store : Store) (file_size : nat) (ps : list Z) (f : list Z) :
    list Z * option SmcError :=
  match ps with
  | [] => (f, None)
  | page :: ps =>
      if (Z.of_nat file_size <=? page * PAGE_SIZE)%Z then (f, None)
      else
        match store !! Z.to_nat page with
        | None => (f, Some StorageError)
        | Some bytes =>
            if negb (bool_decide (length bytes = page_len file_size page))
            then (f, Some (InvalidOp "index page restore: page payload size disagrees with sentinel"))
            else restore_pages store file_size ps (write_at f (Z.to_nat (page * PAGE_SIZE)) bytes)
        end
  end.

(** The destination file as the call leaves it, and the sidecar it persists
    or its error.  [dest] is the file that was there, [sidecar] its sidecar. *)
Definition restore_one_index (dest : list Z) (sidecar : option (list Z)) (ep : IndexEpoch)
    (store : Store) : list Z * result (list Z) SmcError :=
  if negb (ie_page_size ep =? PAGE_SIZE)%Z
  then (dest, Err (InvalidOp "index page restore: page size mismatch with build"))
  else
    let f := set_len [] (ie_file_size ep) in
    match restore_pages store (ie_file_size ep) (seqZ 0 (ie_pages ep)) f with
    | (f, Some e) => (f, Err e)
    | (f, None) =>
        match open_tracker sidecar with
        | Err e => (f, Err e)
        | Ok tracker => (f, Ok (persist tracker))
        end
    end.

(** ** What the index promises the backup *)

Definition with_tracker (t : Tracked) (d : Inner) : Tracked := mkTracked (t_file t) (t_next t) d.

(** An index file whose every mutation marks the pages it changes: [created]
    are the states [open_or_create] makes on an empty directory, [inv] is the
    index's own invariant, [mut] its mutations. *)
Class MarksWrites (created inv : Tracked -> Prop) (mut : Tracked -> Tracked -> Prop) : Prop := {
  mw_created t : created t ->
    inv t /\ inner_wf (t_dirty t) /\ covers t /\ forall store, synced store t;
  mw_tracker t d : inv t -> inv (with_tracker t d);
  mw_inv t t' : inv t -> mut t t' -> inv t';
  mw_inner t t' : inv t -> mut t t' -> inner_wf (t_dirty t) -> inner_wf (t_dirty t');
  mw_covers t t' : inv t -> mut t t' -> covers t -> covers t';
  mw_synced t t' store : inv t -> mut t t' -> covers t -> synced store t -> synced store t';
  mw_small t : inv t -> small_file (t_file t);
}.

(** ** The upload pass *)

(** Page [q] of [f] is in the store as it is. *)
Definition stored (store : Store) (f : list Z) (q : nat) : Prop :=
  store !! q = Some (page_bytes f q).

(** [store'] differs from [store] only in pages that are now as in [f]. *)
Definition improves (f : list Z) (store store' : Store) : Prop :=
  forall q, q * PAGE < length f -> store' !! q = store !! q \/ stored store' f q.

Lemma page_Z p : (0 <= p)%Z -> Z.to_nat (p * PAGE_SIZE) = Z.to_nat p * PAGE.
Proof. intros. pose proof PAGE_Z. pose proof PAGE_SIZE_pos. nia. Qed.

Lemma page_in p n : (0 <= p)%Z -> (Z.of_nat n <=? p * PAGE_SIZE)%Z = bool_decide (n <= Z.to_nat p * PAGE).
Proof.
  intros. pose proof PAGE_Z. pose proof PAGE_SIZE_pos.
  apply eq_bool_prop_intro. rewrite bool_decide_spec, Is_true_true, Z.leb_le. nia.
Qed.

(** The payload read for a page is the page. *)
Lemma page_len_nat n p :
  (0 <= p)%Z -> Z.to_nat p * PAGE < n -> page_len n p = PAGE `min` (n - Z.to_nat p * PAGE).
Proof. intros. unfold page_len. pose proof PAGE_Z. pose proof PAGE_SIZE_pos. nia. Qed.

Lemma length_page_bytes f q : length (page_bytes f q) = PAGE `min` (length f - q * PAGE).
Proof. unfold page_bytes, sl. by rewrite length_take, length_drop. Qed.

Lemma page_read f p :
  (0 <= p)%Z -> Z.to_nat p * PAGE < length f ->
  read_exact_at f (Z.to_nat (p * PAGE_SIZE)) (page_len (length f) p) =
    Some (page_bytes f (Z.to_nat p)).
Proof.
  intros Hp Hin. rewrite page_Z, page_len_nat by done. unfold read_exact_at, read_at, sl. cbv zeta.
  rewrite length_take, length_drop, bool_decide_eq_false_2 by lia. f_equal.
  unfold page_bytes, sl. destruct (Nat.min_spec PAGE (length f - Z.to_nat p * PAGE)) as [[? ->]|[? ->]]; [done|].
  rewrite !take_ge by (rewrite length_drop; lia). done.
Qed.

Lemma improves_refl f store : improves f store store.
Proof. intros q _. by left. Qed.

Lemma improves_stored f store store' q :
  improves f store store' -> q * PAGE < length f -> stored store f q -> stored store' f q.
Proof. intros Hi Hq Hs. destruct (Hi q Hq) as [E|]; [|done]. unfold stored. by rewrite E. Qed.

Lemma improves_trans f s1 s2 s3 : improves f s1 s2 -> improves f s2 s3 -> improves f s1 s3.
Proof.
  intros H12 H23 q Hq. destruct (H23 q Hq) as [E|]; [|by right].
  destruct (H12 q Hq) as [E'|Hs]; [left; congruence|]. right. unfold stored. by rewrite E.
Qed.

Lemma improves_insert f store q : improves f store (<[q := page_bytes f q]> store).
Proof.
  intros q' _. destruct (decide (q' = q)) as [->|Hne].
  - right. apply lookup_insert_eq.
  - left. by apply lookup_insert_ne.
Qed.

(** What a run of the loop has done: [ds] are the pages it handled. *)
Definition progress (f : list Z) (p p' : Pass) (ds : list Z) : Prop :=
  p_handled p' = p_handled p ++ ds /\ p_tracker p' = clear_pages (p_tracker p) ds /\
  improves f (p_store p) (p_store p') /\
  Forall (fun d => Z.to_nat d * PAGE < length f -> stored (p_store p') f (Z.to_nat d)) ds.

Lemma progress_refl f p : progress f p p [].
Proof.
  split_and!; [by rewrite app_nil_r|by destruct p as [? [? ?] ? ?]|apply improves_refl|done].
Qed.

Lemma upload_page_spec f put page p :
  (0 <= page)%Z ->
  exists p' err, upload_page f (length f) put page p = (p', err) /\
    match err with
    | None => progress f p p' [page]
    | Some e => p' = p /\ e = StorageError /\ put page = false
    end.
Proof.
  intros Hp. unfold upload_page. rewrite page_in by done. case_bool_decide as Hin.
  - do 2 eexists. split; [done|]. split_and!; [done|done|apply improves_refl|].
    repeat constructor. lia.
  - rewrite page_read by (done || lia). destruct (put page) eqn:Eput; do 2 eexists; (split; [done|]); [|done].
    split_and!; [done|done|apply improves_insert|]. repeat constructor. intros _. apply lookup_insert_eq.
Qed.

Lemma progress_trans f p1 p2 p3 ds es :
  progress f p1 p2 ds -> progress f p2 p3 es -> progress f p1 p3 (ds ++ es).
Proof.
  intros (H1 & T1 & I1 & S1) (H2 & T2 & I2 & S2). split_and!.
  - by rewrite H2, H1, app_assoc.
  - by rewrite T2, T1, clear_pages_app.
  - by eapply improves_trans.
  - apply Forall_app_2; [|done]. eapply Forall_impl; [exact S1|].
    intros d Hd Hq. eapply improves_stored; eauto.
Qed.

Lemma upload_pages_spec f put ps p :
  Forall (fun q => 0 <= q)%Z ps ->
  exists p' err ds, upload_pages f (length f) put ps p = (p', err) /\
    progress f p p' ds /\ Forall (fun q => 0 <= q)%Z ds /\
    match err with
    | None => ds = ps
    | Some e => e = StorageError /\ Exists (fun q => put q = false) ps
    end.
Proof.
  intros Hps. revert p. induction Hps as [|q ps Hq Hps IH]; intros p; cbn [upload_pages].
  - exists p, None, []. split; [done|]. split; [apply progress_refl|done].
  - destruct (upload_page_spec f put q p Hq) as (p1 & [e|] & -> & H1).
    + destruct H1 as (-> & -> & Hput). exists p, (Some StorageError), [].
      split; [done|]. split; [apply progress_refl|]. split; [done|]. split; [done|by left].
    + destruct (IH p1) as (p2 & err & ds & -> & H2 & Hds & He).
      exists p2, err, ([q] ++ ds). split; [done|]. split; [by eapply progress_trans|].
      split; [by constructor|].
      destruct err; [|by subst]. destruct He. split; [done|by right].
Qed.

(** ** The restore *)

(** A file rebuilt up to byte [o]. *)
Definition partial (f : list Z) (o : nat) : list Z := take o f ++ zeros (length f - o).

Lemma partial_write f q :
  q * PAGE < length f ->
  write_at (partial f (q * PAGE)) (q * PAGE) (page_bytes f q) = partial f (S q * PAGE).
Proof.
  intros Hq. pose proof PAGE_pos as HP. pose proof (length_page_bytes f q) as Hl.
  assert (Hne : page_bytes f q <> []) by (intros E; rewrite E in Hl; simpl in Hl; lia).
  assert (Ht : length (take (q * PAGE) f) = q * PAGE) by (rewrite length_take; lia).
  rewrite write_at_nonnil by done. unfold partial.
  rewrite <- app_assoc, take_app_length' by done.
  rewrite Hl. rewrite (drop_app_ge (take (q * PAGE) f)) by lia. rewrite Ht.
  unfold zeros. rewrite drop_replicate.
  replace (S q * PAGE) with (q * PAGE + PAGE) by lia.
  rewrite <- take_take_drop. rewrite <- app_assoc. unfold page_bytes, sl. f_equal. f_equal. f_equal. lia.
Qed.

Lemma restore_pages_spec store f k q :
  (forall q', q' * PAGE < length f -> stored store f q') ->
  length f <= (q + k) * PAGE ->
  restore_pages store (length f) (seqZ (Z.of_nat q) (Z.of_nat k)) (partial f (q * PAGE)) = (f, None).
Proof.
  intros Hs. revert q. induction k as [|k IH]; intros q Hk.
  - cbn. unfold partial. rewrite take_ge by lia. replace (length f - q * PAGE) with 0 by lia.
    by rewrite app_nil_r.
  - rewrite seqZ_cons by lia. cbn [restore_pages]. rewrite page_in, Nat2Z.id by lia.
    case_bool_decide as Hin.
    + unfold partial. rewrite take_ge by lia. replace (length f - q * PAGE) with 0 by lia.
      by rewrite app_nil_r.
    + rewrite (Hs q) by lia. rewrite page_len_nat, length_page_bytes, Nat2Z.id by lia.
      rewrite bool_decide_eq_true_2 by done. cbn [negb]. rewrite page_Z, Nat2Z.id, partial_write by lia.
      replace (Z.succ (Z.of_nat q)) with (Z.of_nat (S q)) by lia.
      replace (Z.pred (Z.of_nat (S k))) with (Z.of_nat k) by lia. apply IH. lia.
Qed.

(** A store that holds every page restores the file. *)
Lemma restore_full store f dest ep :
  (forall q, q * PAGE < length f -> stored store f q) -> small_file f ->
  ie_file_size ep = length f -> ie_page_size ep = PAGE_SIZE ->
  ie_pages ep = wrap32 (div_ceil (Z.of_nat (length f)) PAGE_SIZE) ->
  restore_one_index dest None ep store = (f, Ok (persist (mkInner [] 0))).
Proof.
  intros Hs Hsm Hf Hp Hn. unfold restore_one_index. rewrite Hp, Z.eqb_refl. cbn [negb]. cbv zeta.
  rewrite Hf, Hn. pose proof (pages_for_bounds (length f)) as [Hb H0].
  fold (pages_for (length f)). pose proof PAGE_SIZE_pos. pose proof PAGE_Z.
  assert (wrap32 (pages_for (length f)) = pages_for (length f)) as ->.
  { apply Z.mod_small. unfold small_file in Hsm. nia. }
  pose proof (restore_pages_spec store f (Z.to_nat (pages_for (length f))) 0 Hs ltac:(nia)) as Hr.
  rewrite Z2Nat.id in Hr by done. unfold partial in Hr. rewrite take_0 in Hr.
  unfold set_len. rewrite take_nil. cbn [length app]. rewrite Nat.sub_0_r in *.
  cbn [app Nat.mul] in Hr. rewrite ?Nat.sub_0_r in Hr. change (Z.of_nat 0) with 0%Z in Hr. by rewrite Hr.
Qed.

(** ** Histories *)

(** One index file with everything around it: the primary handle (file,
    count, in-memory tracker), the sidecar on disk, the page objects, and
    whether nothing was written since the last [fsync]. *)
Record World : Type := mkWorld {
  w_index : Tracked;
  w_sidecar : option (list Z);
  w_store : Store;
  w_quiet : bool;
}.

(** The pass on a handle with tracker [d]. *)
Definition run_pass (w : World) (d : Inner) (put : Z -> bool) : Outcome :=
  let f := t_file (w_index w) in
  upload_one_index d f (length f) (w_sidecar w) put (w_store w).

Definition after_primary (w : World) (o : Outcome) : World :=
  mkWorld (with_tracker (w_index w) (o_tracker o)) (o_sidecar o) (o_store o) (w_quiet w).

Section history.
Context {created inv : Tracked -> Prop} {mut : Tracked -> Tracked -> Prop}.
Context `{!MarksWrites created inv mut}.

(** Mutations and syncs by the primary; restarts with nothing unsynced; and
    passes, by the upload worker on a view handle whose tracker is loaded
    from the sidecar, or on the primary itself.  A pass may fail at any PUT. *)
Inductive step : World -> World -> Prop :=
  | s_mutate w t' : mut (w_index w) t' ->
      step w (mkWorld t' (w_sidecar w) (w_store w) false)
  | s_fsync w :
      step w (mkWorld (w_index w) (Some (persist (t_dirty (w_index w)))) (w_store w) true)
  | s_restart w d : w_quiet w = true -> open_tracker (w_sidecar w) = Ok d ->
      step w (mkWorld (with_tracker (w_index w) d) (w_sidecar w) (w_store w) true)
  | s_view_pass w d put : open_tracker (w_sidecar w) = Ok d ->
      step w (mkWorld (w_index w) (o_sidecar (run_pass w d put)) (o_store (run_pass w d put)) (w_quiet w))
  | s_primary_pass w put :
      step w (after_primary w (run_pass w (t_dirty (w_index w)) put)).

Inductive reachable : World -> Prop :=
  | r_create t store : created t -> reachable (mkWorld t None store false)
  | r_step w w' : reachable w -> step w w' -> reachable w'.

(** The tracker on disk, and what it guarantees while the index is quiet. *)
Definition disk_ok (w : World) : Prop :=
  exists d, open_tracker (w_sidecar w) = Ok d /\ inner_wf d /\
    (w_quiet w = true -> covers (with_tracker (w_index w) d) /\
       synced (w_store w) (with_tracker (w_index w) d)).

Definition world_ok (w : World) : Prop :=
  inv (w_index w) /\ inner_wf (t_dirty (w_index w)) /\ covers (w_index w) /\
  synced (w_store w) (w_index w) /\ disk_ok w.

Lemma open_persist d : inner_wf d -> open_tracker (Some (persist d)) = Ok d.
Proof.
  intros Hd. unfold open_tracker, DirtyPages.open_or_create. by rewrite load_persist.
Qed.

Lemma synced_improves store store' t :
  improves (t_file t) store store' -> synced store t -> synced store' t.
Proof.
  intros Hi Hs q Hq Hd. destruct (Hi q Hq) as [->|]; [|done]. by apply Hs.
Qed.

(** Clearing pages that are stored keeps the invariant. *)
Lemma synced_clear store t d ds :
  Forall (fun q => 0 <= q)%Z ds ->
  Forall (fun q => Z.to_nat q * PAGE < length (t_file t) -> stored store (t_file t) (Z.to_nat q)) ds ->
  synced store (with_tracker t d) -> synced store (with_tracker t (clear_pages d ds)).
Proof.
  intros Hds Hst Hs q Hq Hd. cbn [t_dirty with_tracker] in Hd.
  rewrite clear_pages_exact in Hd by (done || lia).
  destruct (decide (Z.of_nat q ∈ ds)) as [Hin|Hin].
  - rewrite Forall_forall in Hst. specialize (Hst _ Hin). rewrite Nat2Z.id in Hst. by apply Hst.
  - rewrite bool_decide_eq_true_2, andb_true_r in Hd by done. by apply Hs.
Qed.

Lemma covers_clear t d ds : covers (with_tracker t d) -> covers (with_tracker t (clear_pages d ds)).
Proof. unfold covers. cbn [t_dirty t_file with_tracker]. by rewrite length_clear. Qed.

(** What a pass on tracker [d] does. *)
Lemma pass_spec w d put :
  disk_ok w -> inner_wf d ->
  exists ds, Forall (fun q => 0 <= q)%Z ds /\
    improves (t_file (w_index w)) (w_store w) (o_store (run_pass w d put)) /\
    Forall (fun q => Z.to_nat q * PAGE < length (t_file (w_index w)) ->
      stored (o_store (run_pass w d put)) (t_file (w_index w)) (Z.to_nat q)) ds /\
    o_tracker (run_pass w d put) = clear_pages d ds /\
    match o_result (run_pass w d put) with
    | Ok (ep, _) => ds = pages (snapshot d) /\
        ie_file_size ep = length (t_file (w_index w)) /\ ie_page_size ep = PAGE_SIZE /\
        ie_pages ep = wrap32 (div_ceil (Z.of_nat (length (t_file (w_index w)))) PAGE_SIZE) /\
        exists s, open_tracker (w_sidecar w) = Ok s /\
          o_sidecar (run_pass w d put) = Some (persist (bump_epoch (clear_pages s ds)))
    | Err e => e = StorageError /\ Exists (fun q => put q = false) (pages (snapshot d)) /\
        o_sidecar (run_pass w d put) = w_sidecar w
    end.
Proof.
  intros (s & Es & Hs & _) Hd. pose proof (snapshot_nonneg d Hd) as Hnn.
  destruct (upload_pages_spec (t_file (w_index w)) put (pages (snapshot d))
    (mkPass (w_store w) d [] []) Hnn) as (p' & err & ds & E & (Hh & Ht & Hi & Hst) & Hds & He).
  unfold run_pass, upload_one_index. cbv zeta. rewrite E. cbn in Hh, Ht, Hi.
  exists ds. destruct err as [e|].
  - cbn. by destruct He.
  - rewrite Es. cbn. split_and!; try done. exists s. by rewrite Hh.
Qed.

Lemma view_disk_ok w d put :
  disk_ok w -> inner_wf d -> disk_ok (mkWorld (w_index w) (o_sidecar (run_pass w d put))
    (o_store (run_pass w d put)) (w_quiet w)).
Proof.
  intros Hdisk Hd. destruct (pass_spec w d put Hdisk Hd) as (ds & Hds & Hi & Hst & Ht & Hr).
  destruct Hdisk as (s & Es & Hs & Hq).
  assert (Himp : w_quiet w = true -> covers (with_tracker (w_index w) s) /\
    synced (o_store (run_pass w d put)) (with_tracker (w_index w) s)).
  { intros Hqt. destruct (Hq Hqt). split; [done|]. by eapply synced_improves. }
  destruct (o_result (run_pass w d put)) as [[ep keys]|e].
  - destruct Hr as (_ & _ & _ & _ & s' & Es' & Eo). rewrite Es in Es'. injection Es' as <-.
    exists (bump_epoch (clear_pages s ds)). cbn [w_sidecar w_index w_store w_quiet]. rewrite Eo.
    assert (Hwf : inner_wf (bump_epoch (clear_pages s ds))) by (by apply bump_epoch_wf, clear_pages_wf).
    split; [by apply open_persist|]. split; [done|]. intros Hqt. destruct (Himp Hqt) as [Hc Hsy].
    split; [by apply covers_clear|]. by apply (synced_clear _ (w_index w) s ds).
  - destruct Hr as (_ & _ & Eo). exists s. cbn [w_sidecar w_index w_store w_quiet]. by rewrite Eo.
Qed.

Lemma tracker_eta t : with_tracker t (t_dirty t) = t.
Proof. by destruct t. Qed.

Lemma step_ok w w' : world_ok w -> step w w' -> world_ok w'.
Proof.
  intros (Hinv & Hin & Hc & Hs & Hdisk). destruct 1 as [w t' Hm|w|w d Hq Ed|w d put Ed|w put].
  - split_and!; cbn; [by eapply mw_inv|by eapply mw_inner|by eapply mw_covers|by eapply mw_synced|].
    destruct Hdisk as (d & Ed & Hd & _). by exists d.
  - split_and!; cbn; [done..|]. exists (t_dirty (w_index w)). cbn. rewrite tracker_eta.
    split; [by apply open_persist|done].
  - destruct Hdisk as (d' & Ed' & Hd & Hcs). rewrite Ed in Ed'. injection Ed' as <-.
    destruct (Hcs Hq). split_and!; cbn; [|done..|].
    + by eapply mw_tracker.
    + by exists d.
  - destruct (Hdisk) as (d' & Ed' & Hd & _). rewrite Ed in Ed'. injection Ed' as <-.
    pose proof (pass_spec w d put Hdisk Hd) as (ds & _ & Hi & _).
    split_and!; cbn; [done..|by eapply synced_improves|by apply view_disk_ok].
  - pose proof (pass_spec w _ put Hdisk Hin) as (ds & Hds & Hi & Hst & Ht & _).
    pose proof (view_disk_ok w _ put Hdisk Hin) as (s & Es & Hs' & Hq'). cbn in Es, Hs', Hq'.
    split_and!; cbn [w_index w_store w_sidecar after_primary].
    + by eapply mw_tracker.
    + rewrite Ht. by apply clear_pages_wf.
    + rewrite Ht. apply covers_clear. by rewrite tracker_eta.
    + rewrite Ht. apply synced_clear; [done|done|]. rewrite tracker_eta. by eapply synced_improves.
    + by exists s.
Qed.

Lemma reachable_ok w : reachable w -> world_ok w.
Proof.
  induction 1 as [t store Hc|w w' _ IH Hstep]; [|by eapply step_ok].
  destruct (mw_created t Hc) as (? & ? & ? & ?). split_and!; cbn; auto.
  exists (mkInner [] 0). split; [done|]. split; [apply inner_wf_empty|done].
Qed.

(** A pass over a quiet index leaves every page in the store. *)
Lemma pass_complete w d put ep keys :
  world_ok w -> w_quiet w = true -> open_tracker (w_sidecar w) = Ok d ->
  o_result (run_pass w d put) = Ok (ep, keys) ->
  forall q, q * PAGE < length (t_file (w_index w)) ->
    stored (o_store (run_pass w d put)) (t_file (w_index w)) q.
Proof.
  intros (_ & _ & _ & _ & Hdisk) Hq Ed Er q Hin.
  destruct (Hdisk) as (d' & Ed' & Hd & Hcs). rewrite Ed in Ed'. injection Ed' as <-.
  destruct (Hcs Hq) as [_ Hs]. destruct (pass_spec w d put Hdisk Hd) as (ds & _ & Hi & Hst & _ & Hr).
  rewrite Er in Hr. destruct Hr as [Hr _]. destruct (dirty (bits d) (Z.of_nat q)) eqn:Edq.
  - rewrite Forall_forall in Hst. specialize (Hst (Z.of_nat q)). rewrite Nat2Z.id in Hst.
    apply Hst; [|done]. rewrite Hr. apply snapshot_in; [done|lia|done].
  - eapply improves_stored; [done|done|]. by apply Hs.
Qed.


End history.

(** ** The two index files keep the promise *)

Section tracked_mutations.
Context (hdr rsz : nat) (rsz_pos : 0 < rsz).

(** Shrinking truncations, as the cartridge calls them. *)
Inductive t_mut : Tracked -> Tracked -> Prop :=
  | tm_append t bs : length bs = rsz -> small_file (t_file (t_append hdr rsz t bs)) ->
      t_mut t (t_append hdr rsz t bs)
  | tm_overwrite t id bs : length bs = rsz -> id < t_next t ->
      t_mut t (t_overwrite hdr rsz t id bs)
  | tm_truncate t n : n <= t_next t -> t_mut t (t_truncate hdr rsz t n).

Definition t_inv (t : Tracked) : Prop := t_wf hdr rsz t /\ small_file (t_file t).

Lemma truncate_len t n : t_wf hdr rsz t -> n <= t_next t -> rec_off hdr rsz n <= length (t_file t).
Proof. intros Hw Hn. rewrite Hw. unfold rec_off. nia. Qed.

Lemma overwrite_small t id bs :
  t_inv t -> length bs = rsz -> id < t_next t -> small_file (t_file (t_overwrite hdr rsz t id bs)).
Proof.
  intros [Hw Hs] Hb Hid. pose proof (t_overwrite_wf hdr rsz rsz_pos t id bs Hw Hb Hid) as Hw'.
  unfold small_file in *. rewrite Hw'. cbn [t_overwrite t_next]. by rewrite <- Hw.
Qed.

Lemma t_mut_inv t t' : t_inv t -> t_mut t t' -> t_inv t'.
Proof.
  intros [Hw Hs] Hm. destruct Hm as [t bs Hb Hsm|t id bs Hb Hid|t n Hn].
  - split; [by apply t_append_wf|done].
  - split; [by apply t_overwrite_wf|by apply overwrite_small].
  - split; [apply t_truncate_wf|]. pose proof (truncate_len t n Hw Hn).
    unfold small_file in *. cbn [t_truncate t_file]. rewrite length_set_len. lia.
Qed.

Lemma t_mut_inner t t' : t_inv t -> t_mut t t' -> inner_wf (t_dirty t) -> inner_wf (t_dirty t').
Proof.
  intros [Hw Hs] Hm Hi. destruct Hm as [t bs Hb Hsm|t id bs Hb Hid|t n Hn].
  - by apply t_append_inner.
  - by apply t_overwrite_inner.
  - by apply truncate_wf.
Qed.

(** A mutation that writes [bs] inside or at the end of the file. *)
Lemma t_mut_write t t' :
  t_inv t -> t_mut t t' ->
  (exists off bs n, off <= length (t_file t) /\ bs <> [] /\ small_file (write_at (t_file t) off bs) /\
    t' = mkTracked (write_at (t_file t) off bs) n (mark (t_dirty t) off (length bs))) \/
  (exists n, rec_off hdr rsz n <= length (t_file t) /\ t' = t_truncate hdr rsz t n).
Proof.
  intros [Hw Hs] Hm. destruct Hm as [t bs Hb Hsm|t id bs Hb Hid|t n Hn].
  - left. exists (rec_off hdr rsz (t_next t)), bs, (S (t_next t)).
    split_and!; [by rewrite Hw|by apply (write_rec_nonnil rsz)|done|]. unfold t_append. by rewrite Hb.
  - left. exists (rec_off hdr rsz id), bs, (t_next t).
    split_and!; [apply (truncate_len t id Hw); lia|by apply (write_rec_nonnil rsz)
      |by apply overwrite_small|]. unfold t_overwrite. by rewrite Hb.
  - right. exists n. split; [by apply truncate_len|done].
Qed.

Lemma t_mut_covers t t' : t_inv t -> t_mut t t' -> covers t -> covers t'.
Proof.
  intros Hi Hm Hc. destruct (t_mut_write t t' Hi Hm) as [(off & bs & n & ? & ? & ? & ->)|(n & ? & ->)].
  - by apply covers_write.
  - apply covers_truncate; [done|apply Hi|done].
Qed.

Lemma t_mut_synced t t' store :
  t_inv t -> t_mut t t' -> covers t -> synced store t -> synced store t'.
Proof.
  intros Hi Hm Hc Hs. destruct (t_mut_write t t' Hi Hm) as [(off & bs & n & ? & ? & ? & ->)|(n & ? & ->)].
  - by apply synced_write.
  - apply synced_truncate; [done|apply Hi|done|done].
Qed.

End tracked_mutations.

(** *** The block index *)

Inductive block_mut : Tracked -> Tracked -> Prop :=
  | bm_append b r : small_file (t_file (BlockIndex.append b r).1) -> block_mut b (BlockIndex.append b r).1
  | bm_overwrite b lba r b' : BlockIndex.overwrite b lba r = Ok b' -> block_mut b b'
  | bm_truncate b n : n <= t_next b -> block_mut b (BlockIndex.truncate_to b n).

Lemma block_mut_tracked b b' :
  block_mut b b' -> t_mut BlockIndex.HEADER_SIZE BlockIndex.RECORD_SIZE b b'.
Proof.
  intros Hm. destruct Hm as [b r Hs|b lba r b' E|b n Hn].
  - apply tm_append; [apply length_block_encode|done].
  - unfold BlockIndex.overwrite in E. case_bool_decide as Hlt; [done|]. injection E as <-.
    apply (tm_overwrite _ _ b lba (block_encode r)); [apply length_block_encode|lia].
  - by apply tm_truncate.
Qed.

(** A fresh file: one header page, marked. *)
Lemma header_synced store t :
  length (t_file t) <= PAGE -> dirty (bits (t_dirty t)) 0 = true -> synced store t.
Proof.
  intros Hl Hd q Hq Hn. assert (q = 0) as -> by nia. change (Z.of_nat 0) with 0%Z in Hn. congruence.
Qed.

Lemma small_PAGE n : (Z.of_nat n <= PAGE_SIZE)%Z -> n <= PAGE.
Proof. pose proof PAGE_Z. lia. Qed.

#[export] Instance block_marks :
  MarksWrites (fun b => BlockIndex.open_or_create None None = Ok b)
    (t_inv BlockIndex.HEADER_SIZE BlockIndex.RECORD_SIZE) block_mut.
Proof.
  pose proof BlockIndex.block_record_size_pos as Hp. split.
  - intros t [= <-]. split_and!; [by split|by apply BlockIndex.block_repr_create|by vm_compute|].
    intros store. apply header_synced; [|done]. by apply small_PAGE.
  - by intros t d [Hw Hs].
  - intros t t' Hi Hm. eapply t_mut_inv; eauto using block_mut_tracked.
  - intros t t' Hi Hm. eapply t_mut_inner; eauto using block_mut_tracked.
  - intros t t' Hi Hm. eapply t_mut_covers; eauto using block_mut_tracked.
  - intros t t' store Hi Hm. eapply t_mut_synced; eauto using block_mut_tracked.
  - by intros t [_ Hs].
Qed.

(** *** The chunk index *)

Inductive chunk_mut `{HexCodec} : Tracked -> Tracked -> Prop :=
  | cm_append b r b' id : ChunkIndex.append b r = Ok (b', id) -> small_file (t_file b') -> chunk_mut b b'
  | cm_overwrite b id r b' : ChunkIndex.overwrite b id r = Ok b' -> chunk_mut b b'
  | cm_truncate b n : n <= t_next b -> chunk_mut b (ChunkIndex.truncate_to b n).

Lemma chunk_mut_tracked `{HexCodec} b b' :
  chunk_mut b b' -> t_mut ChunkIndex.HEADER_SIZE ChunkIndex.RECORD_SIZE b b'.
Proof.
  intros Hm. destruct Hm as [b r b' id E Hs|b id r b' E|b n Hn].
  - unfold ChunkIndex.append in E. cbv zeta in E. destruct (chunk_encode r) as [bs|] eqn:Eb; [|done].
    injection E as <- <-. apply (tm_append _ _ b bs); [by eapply length_chunk_encode|done].
  - unfold ChunkIndex.overwrite in E. case_bool_decide as Hlt; [done|].
    destruct (chunk_encode r) as [bs|] eqn:Eb; [|done]. injection E as <-.
    apply (tm_overwrite _ _ b id bs); [by eapply length_chunk_encode|lia].
  - by apply tm_truncate.
Qed.

#[export] Instance chunk_marks `{HexCodec} :
  MarksWrites (fun b => ChunkIndex.open_or_create None None = Ok b)
    (t_inv ChunkIndex.HEADER_SIZE ChunkIndex.RECORD_SIZE) chunk_mut.
Proof.
  pose proof ChunkIndex.chunk_record_size_pos as Hp. split.
  - intros t [= <-]. split_and!; [by split| |by vm_compute|].
    + apply mark_range_wf; [done|done|vm_compute; discriminate|apply inner_wf_empty].
    + intros store. apply header_synced; [|done]. by apply small_PAGE.
  - by intros t d [Hw Hs].
  - intros t t' Hi Hm. eapply t_mut_inv; eauto using chunk_mut_tracked.
  - intros t t' Hi Hm. eapply t_mut_inner; eauto using chunk_mut_tracked.
  - intros t t' Hi Hm. eapply t_mut_covers; eauto using chunk_mut_tracked.
  - intros t t' store Hi Hm. eapply t_mut_synced; eauto using chunk_mut_tracked.
  - by intros t [_ Hs].
Qed.

(** ** Where the backup does not hold *)

Definition size_disagrees : SmcError :=
  InvalidOp "index page restore: page payload size disagrees with sentinel".

(** The loop stops at the first page whose object has the wrong length. *)
Lemma restore_pages_stuck store len bad k q f :
  (forall q', q <= q' < bad -> exists bs, store !! q' = Some bs /\ length bs = page_len len (Z.of_nat q')) ->
  (exists bs, store !! bad = Some bs /\ length bs <> page_len len (Z.of_nat bad)) ->
  bad * PAGE < len -> q <= bad < q + k ->
  (restore_pages store len (seqZ (Z.of_nat q) (Z.of_nat k)) f).2 = Some size_disagrees.
Proof.
  intros Hgood (bs & Ebad & Hbad) Hlen. revert q f Hgood. induction k as [|k IH]; intros q f Hgood Hq; [lia|].
  rewrite seqZ_cons by lia. cbn [restore_pages]. rewrite page_in, Nat2Z.id by lia.
  rewrite bool_decide_eq_false_2 by nia. destruct (decide (q = bad)) as [->|Hne].
  - rewrite Ebad, bool_decide_eq_false_2 by done. done.
  - destruct (Hgood q ltac:(lia)) as (bs' & -> & Hl). rewrite bool_decide_eq_true_2 by done. cbn [negb].
    replace (Z.succ (Z.of_nat q)) with (Z.of_nat (S q)) by lia.
    replace (Z.pred (Z.of_nat (S k))) with (Z.of_nat k) by lia.
    apply IH; [|lia]. intros q' Hq'. apply Hgood. lia.
Qed.

(** A sentinel for fewer bytes than the page objects now hold cannot be
    restored, unless it ends on a page boundary. *)
Lemma restore_shorter store f dest sidecar ep :
  (forall q, q * PAGE < length f -> stored store f q) -> small_file f ->
  ie_file_size ep < length f -> ie_file_size ep mod PAGE <> 0 -> ie_page_size ep = PAGE_SIZE ->
  ie_pages ep = wrap32 (div_ceil (Z.of_nat (ie_file_size ep)) PAGE_SIZE) ->
  (restore_one_index dest sidecar ep store).2 = Err size_disagrees.
Proof.
  intros Hs Hsm Hlt Hmod Hps Hn. set (len := ie_file_size ep) in *. pose proof PAGE_pos as HP.
  pose proof PAGE_Z as HZ. pose proof PAGE_SIZE_pos. pose proof (pages_for_bounds len) as [Hb Hnn].
  pose proof (Nat.div_mod len PAGE ltac:(lia)) as Hdm.
  pose proof (Nat.mod_upper_bound len PAGE ltac:(lia)) as Hub. set (bad := len / PAGE) in *.
  unfold restore_one_index. rewrite Hps, Z.eqb_refl. cbn [negb]. cbv zeta. fold len. rewrite Hn.
  fold (pages_for len). assert (wrap32 (pages_for len) = Z.of_nat (Z.to_nat (pages_for len))) as ->.
  { rewrite Z2Nat.id by done. apply Z.mod_small. unfold small_file in Hsm. nia. }
  change 0%Z with (Z.of_nat 0).
  pose proof (restore_pages_stuck store len bad (Z.to_nat (pages_for len)) 0 (set_len [] len)) as Hst.
  destruct (restore_pages _ _ _ _) as [f' err]. cbn [snd] in Hst. rewrite Hst; [done| | |lia|nia].
  - intros q' Hq'. exists (page_bytes f q'). split; [apply Hs; nia|].
    rewrite page_len_nat, length_page_bytes, Nat2Z.id by (rewrite ?Nat2Z.id; nia).
    assert (q' * PAGE + PAGE <= len) by nia. lia.
  - exists (page_bytes f bad). split; [apply Hs; nia|].
    rewrite page_len_nat, length_page_bytes, Nat2Z.id by (rewrite ?Nat2Z.id; nia). nia.
Qed.

(** A pass with nothing to ship. *)
Lemma pass_nothing w d s put :
  pages (snapshot d) = [] -> open_tracker (w_sidecar w) = Ok s ->
  let len := length (t_file (w_index w)) in
  exists ep, o_result (run_pass w d put) = Ok (ep, []) /\ o_store (run_pass w d put) = w_store w /\
    ie_file_size ep = len /\ ie_page_size ep = PAGE_SIZE /\
    ie_pages ep = wrap32 (div_ceil (Z.of_nat len) PAGE_SIZE).
Proof.
  intros Hp Hs. unfold run_pass, upload_one_index. cbv zeta. rewrite Hp. cbn [upload_pages].
  rewrite Hs. cbn. eexists. split_and!; done.
Qed.

(** Opening an index that exists. *)
Lemma block_open_existing f sc b :
  f <> [] -> BlockIndex.open_or_create (Some f) sc = Ok b ->
  t_file b = f /\ t_wf BlockIndex.HEADER_SIZE BlockIndex.RECORD_SIZE b /\
  open_tracker sc = Ok (t_dirty b).
Proof.
  intros Hne. unfold BlockIndex.open_or_create. change (default [] (Some f)) with f. cbv zeta.
  rewrite bool_decide_eq_false_2 by (by destruct f).
  case_bool_decide as Hl; [done|]. case_bool_decide; [done|]. destruct (negb _); [done|].
  destruct (negb _); [done|]. case_bool_decide as Hm; [|done]. cbn [negb].
  destruct (open_tracker sc) as [d|]; [|done].
  set (k := (length f - BlockIndex.HEADER_SIZE) / BlockIndex.RECORD_SIZE) in *.
  intros [= <-]. split_and!; [done| |done].
  unfold t_wf, rec_off. cbn [t_file t_next].
  pose proof (Nat.div_mod (length f - BlockIndex.HEADER_SIZE) BlockIndex.RECORD_SIZE ltac:(done)) as Hdm.
  fold k in Hdm. rewrite Hm in *. clearbody k. unfold BlockIndex.RECORD_SIZE, BlockIndex.HEADER_SIZE in *. lia.
Qed.

(** Truncating a restored index breaks its next backup: a restore leaves
    a tracker with an empty bitmap, [truncate_to] does not mark the boundary
    page there, the next pass ships nothing and still publishes the shorter
    size, and restoring that fails on the page's payload size. *)
Theorem restored_truncate_breaks_backup store f b n put :
  f <> [] -> small_file f -> (forall q, q * PAGE < length f -> stored store f q) ->
  BlockIndex.open_or_create (Some f) (Some (persist (mkInner [] 0))) = Ok b ->
  n < t_next b -> BlockIndex.record_offset n mod PAGE <> 0 ->
  let b' := BlockIndex.truncate_to b n in
  let w := mkWorld b' (Some (BlockIndex.fsync b').2) store true in
  exists ep, o_result (run_pass w (t_dirty b') put) = Ok (ep, []) /\
    forall dest sidecar, (restore_one_index dest sidecar ep
      (o_store (run_pass w (t_dirty b') put))).2 = Err size_disagrees.
Proof.
  intros Hne Hsm Hst Ho Hn Hmod. cbv zeta. apply block_open_existing in Ho as (Hf & Hw & Ht); [|done].
  rewrite open_persist in Ht by apply inner_wf_empty. injection Ht as Ht.
  set (b' := BlockIndex.truncate_to b n). set (w := mkWorld _ _ _ _).
  assert (Hd : t_dirty b' = mkInner [] 0).
  { unfold b', BlockIndex.truncate_to. cbn [t_dirty]. rewrite <- Ht. unfold truncate_to_pages. cbn [bits epoch].
    assert (E : forall m, cut [] m = []) by (intros; apply nil_length_inv; by rewrite length_cut).
    cbv zeta. change (if negb _ && _ then _ else _) with (cut [] (wrap32 (div_ceil
      (Z.of_nat (BlockIndex.HEADER_SIZE + n * BlockIndex.RECORD_SIZE)) PAGE_SIZE))). rewrite E.
    destruct (0 <? _)%Z; done. }
  destruct (pass_nothing w (t_dirty b') (t_dirty b') put) as (ep & E & Es & H1 & H2 & H3).
  { by rewrite Hd. }
  { change (open_tracker (Some (persist (t_dirty b'))) = Ok (t_dirty b')).
    rewrite Hd. apply open_persist, inner_wf_empty. }
  exists ep. split; [done|]. intros dest sidecar. rewrite Es. cbn [w_store].
  assert (Hlen : length (t_file b') = BlockIndex.record_offset n)
    by (unfold b', BlockIndex.truncate_to; cbn [t_file]; apply length_set_len).
  cbn [w_index w] in H1, H3. rewrite Hlen in *.
  apply (restore_shorter store f); [done|done| |by rewrite H1|done|by rewrite H1].
  rewrite H1, <- Hf, Hw. unfold BlockIndex.record_offset, rec_off, BlockIndex.RECORD_SIZE. lia.
Qed.

Section torn.
Context {created inv : Tracked -> Prop} {mut : Tracked -> Tracked -> Prop}.
Context `{!MarksWrites created inv mut}.

Lemma pass_epoch w d put ep keys :
  disk_ok w -> open_tracker (w_sidecar w) = Ok d -> o_result (run_pass w d put) = Ok (ep, keys) ->
  ie_file_size ep = length (t_file (w_index w)) /\ ie_page_size ep = PAGE_SIZE /\
  ie_pages ep = wrap32 (div_ceil (Z.of_nat (length (t_file (w_index w)))) PAGE_SIZE).
Proof.
  intros Hdisk Ed Er. destruct (Hdisk) as (d' & Ed' & Hd & _). rewrite Ed in Ed'. injection Ed' as <-.
  destruct (pass_spec w d put Hdisk Hd) as (ds & _ & _ & _ & _ & Hp). rewrite Er in Hp. naive_solver.
Qed.

(** A later pass that stops before its sentinel breaks the sentinel that
    is there: pages are overwritten in place, so once the index has grown
    and a pass has shipped its pages, restoring an earlier sentinel whose
    size was not a page multiple fails. *)
Theorem torn_pass_breaks_sentinel w d put ep keys w' d' put' ep' keys' dest sidecar :
  reachable (created := created) (mut := mut) w ->
  open_tracker (w_sidecar w) = Ok d -> o_result (run_pass w d put) = Ok (ep, keys) ->
  reachable (created := created) (mut := mut) w' -> w_quiet w' = true ->
  open_tracker (w_sidecar w') = Ok d' -> o_result (run_pass w' d' put') = Ok (ep', keys') ->
  length (t_file (w_index w)) < length (t_file (w_index w')) ->
  length (t_file (w_index w)) mod PAGE <> 0 ->
  (restore_one_index dest sidecar ep (o_store (run_pass w' d' put'))).2 = Err size_disagrees.
Proof.
  intros Hr Ed Er Hr' Hq' Ed' Er' Hlt Hmod.
  pose proof (reachable_ok w Hr) as (_ & _ & _ & _ & Hdisk).
  pose proof (reachable_ok w' Hr') as Hok'.
  destruct (pass_epoch w d put ep keys Hdisk Ed Er) as (H1 & H2 & H3).
  apply (restore_shorter _ (t_file (w_index w'))); [by eapply pass_complete|eapply mw_small, Hok'
    |by rewrite H1|by rewrite H1|done|by rewrite H1].
Qed.

End torn.

(** A write that a crash separates from its [fsync] is lost to the
    backup: with every page backed up, overwriting a record and restarting
    on the same file reloads a tracker without the mark, so the next pass
    ships nothing and restores to the index before the write. *)
Theorem unsynced_restart_loses_write w d lba r t' put dest :
  reachable (created := fun b => BlockIndex.open_or_create None None = Ok b) (mut := block_mut) w ->
  w_quiet w = true -> open_tracker (w_sidecar w) = Ok d -> pages (snapshot d) = [] ->
  BlockIndex.overwrite (w_index w) lba r = Ok t' ->
  let w' := mkWorld (with_tracker t' d) (w_sidecar w) (w_store w) true in
  exists ep, o_result (run_pass w' d put) = Ok (ep, []) /\
    restore_one_index dest None ep (o_store (run_pass w' d put)) =
      (t_file (w_index w), Ok (persist (mkInner [] 0))).
Proof.
  intros Hr Hq Ed Hp Ho. cbv zeta. set (w' := mkWorld _ _ _ _).
  pose proof (reachable_ok w Hr) as (Hinv & _ & _ & _ & Hdisk).
  destruct (pass_nothing w' d d put Hp Ed) as (ep & E & Es & H1 & H2 & H3).
  assert (Hlen : length (t_file (w_index w')) = length (t_file (w_index w))).
  { assert (Hm : block_mut (w_index w) t') by (by eapply bm_overwrite).
    pose proof (mw_inv _ _ Hinv Hm) as [Hw' _]. destruct Hinv as [Hw _].
    unfold t_wf in *. cbn [w_index w' with_tracker t_file]. rewrite Hw', Hw. f_equal.
    unfold BlockIndex.overwrite in Ho. case_bool_decide; [done|]. by injection Ho as <-. }
  rewrite Hlen in *. exists ep. split; [done|]. rewrite Es.
  apply restore_full; [|apply Hinv|done..].
  destruct Hdisk as (d' & Ed' & Hd & Hs). rewrite Ed in Ed'. injection Ed' as <-.
  intros q Hin. apply (Hs Hq); [done|]. destruct (dirty (bits d) (Z.of_nat q)) eqn:Edq; [|done].
  apply (snapshot_in d (Z.of_nat q) Hd ltac:(lia)) in Edq. rewrite Hp in Edq. by apply not_elem_of_nil in Edq.
Qed.

(** ** Instances *)

Definition always (q : Z) : bool := true.
Definition never (q : Z) : bool := false.

Definition rec_a : BlockRec := mkBlock 1 0 512 Data ENone None.
Definition rec_b : BlockRec := mkBlock 1 512 0 Filemark ENone None.

Definition block_0 : Tracked :=
  match BlockIndex.open_or_create None None with
  | Ok b => b
  | Err _ => mkTracked [] 0 (mkInner [] 0)
  end.
Definition block_1 : Tracked := (BlockIndex.append block_0 rec_a).1.
Definition block_2 : Tracked := (BlockIndex.append block_1 rec_b).1.
Definition marks : Inner := mkInner [1%Z] 0.

Definition after_fsync (t : Tracked) (store : Store) : World :=
  mkWorld t (Some (persist (t_dirty t))) store true.
Definition after_view (w : World) (o : Outcome) : World :=
  mkWorld (w_index w) (o_sidecar o) (o_store o) (w_quiet w).

(** One record synced; a pass that fails; one that does not; a second record. *)
Definition world_1 : World := after_fsync block_1 ∅.
Definition world_failed : World := after_view world_1 (run_pass world_1 marks never).
Definition world_backed : World := after_view world_failed (run_pass world_failed marks always).
Definition world_2 : World :=
  after_fsync (BlockIndex.append (w_index world_backed) rec_b).1 (w_store world_backed).

Notation block_reachable :=
  (reachable (created := fun b => BlockIndex.open_or_create None None = Ok b) (mut := block_mut)).

Lemma reach_append w r :
  block_reachable w -> small_file (t_file (BlockIndex.append (w_index w) r).1) ->
  block_reachable (after_fsync (BlockIndex.append (w_index w) r).1 (w_store w)).
Proof.
  intros Hw Hs. set (t := (BlockIndex.append (w_index w) r).1) in *.
  apply (r_step (mkWorld t (w_sidecar w) (w_store w) false)); [|apply s_fsync].
  apply (r_step w); [exact Hw|]. apply s_mutate. by apply bm_append.
Qed.

Lemma reach_view w d put :
  block_reachable w -> open_tracker (w_sidecar w) = Ok d ->
  block_reachable (after_view w (run_pass w d put)).
Proof. intros Hw Hd. eapply r_step; [exact Hw|]. by apply s_view_pass. Qed.

Lemma world_1_reachable : block_reachable world_1.
Proof. apply (reach_append (mkWorld block_0 None ∅ false)); [by apply r_create|vm_compute; discriminate]. Qed.

Lemma world_failed_reachable : block_reachable world_failed.
Proof. apply reach_view; [exact world_1_reachable|vm_compute; reflexivity]. Qed.

Lemma world_backed_reachable : block_reachable world_backed.
Proof. apply reach_view; [exact world_failed_reachable|vm_compute; reflexivity]. Qed.

Lemma world_2_reachable : block_reachable world_2.
Proof. apply reach_append; [exact world_backed_reachable|vm_compute; discriminate]. Qed.

Lemma under_page n : n <> 0 -> (Z.of_nat n < PAGE_SIZE)%Z -> n mod PAGE <> 0.
Proof. intros Hn Hl. pose proof PAGE_Z. by rewrite Nat.mod_small by lia. Qed.


Lemma restored_truncate_breaks_backup_witness :
  let b' := BlockIndex.truncate_to (mkTracked (t_file block_2) 2 (mkInner [] 0)) 1 in
  let w := mkWorld b' (Some (BlockIndex.fsync b').2) (<[0 := t_file block_2]> ∅) true in
  exists ep, o_result (run_pass w (t_dirty b') always) = Ok (ep, []) /\
    (restore_one_index [] None ep (o_store (run_pass w (t_dirty b') always))).2 = Err size_disagrees.
Proof.
  destruct (restored_truncate_breaks_backup (<[0 := t_file block_2]> ∅) (t_file block_2)
    (mkTracked (t_file block_2) 2 (mkInner [] 0)) 1 always) as (ep & E & Hr).
  - discriminate.
  - vm_compute. discriminate.
  - intros q Hq. assert (q = 0) as ->.
    { pose proof PAGE_Z. unfold PAGE_SIZE in *. destruct q; [done|]. exfalso.
      assert (length (t_file block_2) = 64) as Hl by reflexivity. rewrite Hl in Hq. lia. }
    unfold stored. etrans; [apply lookup_insert_eq|]. f_equal.
  - vm_compute. reflexivity.
  - simpl. lia.
  - apply under_page; [done|reflexivity].
  - exists ep. split; [exact E|apply Hr].
Defined.

Lemma torn_pass_breaks_sentinel_witness :
  exists ep keys, o_result (run_pass world_failed marks always) = Ok (ep, keys) /\
    (restore_one_index [] None ep (o_store (run_pass world_2 marks always))).2 = Err size_disagrees.
Proof.
  destruct (o_result (run_pass world_failed marks always)) as [[ep keys]|] eqn:E; [|by vm_compute in E].
  destruct (o_result (run_pass world_2 marks always)) as [[ep' keys']|] eqn:E'; [|by vm_compute in E'].
  exists ep, keys. split; [done|].
  eapply (torn_pass_breaks_sentinel (created := fun b => BlockIndex.open_or_create None None = Ok b)
    (mut := block_mut) world_failed marks always ep keys world_2 marks always ep' keys');
    [apply world_failed_reachable|vm_compute; reflexivity|done|apply world_2_reachable|reflexivity
    |vm_compute; reflexivity|done|vm_compute; lia|by apply under_page].
Defined.

Lemma unsynced_restart_loses_write_witness :
  exists t' ep, BlockIndex.overwrite block_1 0 rec_b = Ok t' /\ t_file t' <> t_file block_1 /\
    let w' := mkWorld (with_tracker t' (mkInner [0%Z] 1)) (w_sidecar world_backed)
      (w_store world_backed) true in
    o_result (run_pass w' (mkInner [0%Z] 1) always) = Ok (ep, []) /\
    restore_one_index [] None ep (o_store (run_pass w' (mkInner [0%Z] 1) always)) =
      (t_file block_1, Ok (persist (mkInner [] 0))).
Proof.
  destruct (BlockIndex.overwrite block_1 0 rec_b) as [t'|] eqn:E; [|by vm_compute in E].
  destruct (unsynced_restart_loses_write world_backed (mkInner [0%Z] 1) 0 rec_b t' always []
    world_backed_reachable) as (ep & E1 & E2); [reflexivity|vm_compute; reflexivity|reflexivity|done|].
  exists t', ep. split; [done|]. split; [|split; [exact E1|exact E2]].
  intros Hf. vm_compute in E. injection E as <-. by vm_compute in Hf.
Defined.
