(* ===== verification/StreamLru.v ===== *)
(** * The cartridge LRU sidecar ([core/stream/src/lru_index.rs])

    [lru.idx]: one 8-byte timestamp per chunk, positional with [chunks.idx].
    A cache hint: a header that does not match or a torn tail is repaired on
    open rather than refused.  The theorem: the file refines a list of
    timestamps, grown, truncated and reopened like the chunk index. *)

From S2P Require Import Prelude Bytes ByteFile.

Local Open Scope nat_scope.

Definition RECORD_SIZE : nat := 8.
Definition HEADER_SIZE : nat := 32.
Definition MAGIC : list Z := [84; 86; 76; 73]%Z.
Definition VERSION : Z := 1.

Record LruIndexFile : Type := mkLru { file : list Z; next_id : nat }.

Definition header : list Z := index_header MAGIC VERSION (Z.of_nat RECORD_SIZE) HEADER_SIZE.

Definition write_header (f : list Z) : list Z := write_at f 0 header.

Definition open_or_create (existing : option (list Z)) : LruIndexFile :=
  let f := default [] existing in
  let len := length f in
  if bool_decide (len = 0) then mkLru (write_header f) 0
  else if bool_decide (len < HEADER_SIZE) then mkLru (write_header (set_len f 0)) 0
  else
    let hdr := sl 0 HEADER_SIZE f in
    let magic_ok := bool_decide (header_magic hdr = MAGIC) in
    let ver := header_version hdr in
    let rec_sz := header_rsz hdr in
    if negb magic_ok || negb (ver =? VERSION)%Z || negb (rec_sz =? Z.of_nat RECORD_SIZE)%Z
    then mkLru (write_header (set_len f 0)) 0
    else
      let records_bytes := len - HEADER_SIZE in
      if negb (bool_decide (records_bytes mod RECORD_SIZE = 0)) then
        let truncated := records_bytes - records_bytes mod RECORD_SIZE in
        mkLru (set_len f (HEADER_SIZE + truncated)) (truncated / RECORD_SIZE)
      else mkLru f (records_bytes / RECORD_SIZE).

Definition record_offset (id : nat) : nat := HEADER_SIZE + id * RECORD_SIZE.

Definition grow_to (l : LruIndexFile) (target : nat) : LruIndexFile :=
  if bool_decide (target <= next_id l) then l
  else
    let new_len := HEADER_SIZE + target * RECORD_SIZE in
    mkLru (set_len (file l) new_len) target.

Definition append (l : LruIndexFile) (ts : Z) : LruIndexFile * nat :=
  let id := next_id l in
  let off := record_offset id in
  (mkLru (write_at (file l) off (u64_le ts)) (S id), id).

Inductive TouchError : Type := TouchPastNextId.

Definition touch (l : LruIndexFile) (id : nat) (ts : Z) : result LruIndexFile TouchError :=
  if bool_decide (next_id l <= id) then Err TouchPastNextId
  else
    let off := record_offset id in
    Ok (mkLru (write_at (file l) off (u64_le ts)) (next_id l)).

(** [None] is the [read_exact_at] error of a file shorter than its count. *)
Definition read (l : LruIndexFile) (id : nat) : option Z :=
  if bool_decide (next_id l <= id) then Some 0%Z
  else match read_exact_at (file l) (record_offset id) RECORD_SIZE with
    | None => None
    | Some buf => Some (le_val buf)
    end.

Definition truncate_to (l : LruIndexFile) (new_next_id : nat) : LruIndexFile :=
  let new_len := HEADER_SIZE + new_next_id * RECORD_SIZE in
  mkLru (set_len (file l) new_len) new_next_id.

(** ** Refinement to a list of timestamps *)

Lemma slru_record_size_pos : 0 < RECORD_SIZE.
Proof. unfold RECORD_SIZE. lia. Qed.
#[local] Hint Resolve slru_record_size_pos : core.

Record repr (l : LruIndexFile) (ts : list Z) : Prop := {
  rp_len : length (file l) = rec_off HEADER_SIZE RECORD_SIZE (next_id l);
  rp_header : sl 0 HEADER_SIZE (file l) = header;
  rp_records : records HEADER_SIZE RECORD_SIZE (file l) = map u64_le ts;
  rp_ok : Forall in_u64 ts;
}.

Lemma repr_wf l ts : repr l ts -> rf_wf HEADER_SIZE RECORD_SIZE (file l).
Proof. intros [Hl _ _ _]. by exists (next_id l). Qed.

Lemma repr_count l ts : repr l ts -> rec_count HEADER_SIZE RECORD_SIZE (file l) = next_id l.
Proof. intros [Hl _ _ _]. by apply rec_count_eq. Qed.

Lemma repr_next l ts : repr l ts -> next_id l = length ts.
Proof.
  intros H. rewrite <- (repr_count l ts H). destruct H as [_ _ Hr _].
  by rewrite <- (length_records HEADER_SIZE RECORD_SIZE), Hr, length_map.
Qed.

(** The sidecar as a list: growing pads with zeros, truncation past the end
    too. *)
Inductive op : Type := Grow (n : nat) | Append (ts : Z) | Touch (id : nat) (ts : Z) | Truncate (n : nat).

Definition op_ok (o : op) : Prop :=
  match o with Append t | Touch _ t => in_u64 t | _ => True end.

Definition run_op (l : LruIndexFile) (o : op) : LruIndexFile :=
  match o with
  | Grow n => grow_to l n
  | Append t => (append l t).1
  | Touch id t => match touch l id t with Ok l => l | Err _ => l end
  | Truncate n => truncate_to l n
  end.

Definition spec_op (ts : list Z) (o : op) : list Z :=
  match o with
  | Grow n => ts ++ zeros (n - length ts)
  | Append t => ts ++ [t]
  | Touch id t => <[id := t]> ts
  | Truncate n => take n ts ++ zeros (n - length ts)
  end.

Lemma zero_ts n : map u64_le (zeros n) = replicate n (zeros RECORD_SIZE).
Proof. unfold zeros. by rewrite (fmap_replicate u64_le). Qed.

Lemma repr_set_len l ts n :
  repr l ts -> repr (mkLru (set_len (file l) (rec_off HEADER_SIZE RECORD_SIZE n)) n)
    (take n ts ++ zeros (n - length ts)).
Proof.
  intros H. pose proof (repr_wf l ts H) as Hw. pose proof (repr_next l ts H) as Hn.
  pose proof (repr_count l ts H) as Hc. destruct H as [Hl Hh Hr Hok]. split; cbn [file next_id].
  - apply length_set_len.
  - by rewrite sl_header_set_len.
  - rewrite records_set_len by done. rewrite Hr, Hc, Hn, map_app, <- firstn_map. f_equal. by rewrite zero_ts.
  - apply Forall_app_2; [by apply Forall_take|]. apply Forall_replicate. unfold in_u64, u64_max. lia.
Qed.

Lemma repr_write l ts id t n :
  repr l ts -> in_u64 t -> id <= length ts -> n = next_id l `max` S id ->
  repr (mkLru (write_at (file l) (record_offset id) (u64_le t)) n)
    (if bool_decide (id < length ts) then <[id := t]> ts else ts ++ [t]).
Proof.
  intros H Ht Hid ->. pose proof (repr_wf l ts H) as Hw. pose proof (repr_next l ts H) as Hn.
  pose proof (repr_count l ts H) as Hc. destruct H as [Hl Hh Hr Hok].
  assert (Hb : length (u64_le t) = RECORD_SIZE) by apply length_u64_le. split; cbn [file next_id].
  - rewrite length_write_at by (by apply (write_rec_nonnil RECORD_SIZE)).
    rewrite Hl, Hb. unfold record_offset, rec_off. nia.
  - change (record_offset id) with (rec_off HEADER_SIZE RECORD_SIZE id). by rewrite sl_header_write.
  - case_bool_decide.
    + rewrite records_overwrite by (done || lia). by rewrite Hr, list_fmap_insert.
    + assert (id = next_id l) as -> by lia. change (record_offset (next_id l))
        with (rec_off HEADER_SIZE RECORD_SIZE (next_id l)).
      rewrite <- Hl, records_append by done. by rewrite Hr, map_app.
  - case_bool_decide; [by apply Forall_insert|]. apply Forall_app_2; auto.
Qed.

Lemma repr_op l ts o : repr l ts -> op_ok o -> repr (run_op l o) (spec_op ts o).
Proof.
  intros H Ho. pose proof (repr_next l ts H) as Hn. destruct o as [n|t|id t|n]; cbn [run_op spec_op].
  - unfold grow_to. case_bool_decide.
    + replace (n - length ts) with 0 by lia. by rewrite app_nil_r.
    + pose proof (repr_set_len l ts n H) as H'. by rewrite take_ge in H' by lia.
  - pose proof (repr_write l ts (next_id l) t (S (next_id l)) H Ho ltac:(lia) ltac:(lia)) as H'.
    by rewrite bool_decide_eq_false_2 in H' by lia.
  - unfold touch. case_bool_decide.
    + by rewrite list_insert_ge by lia.
    + pose proof (repr_write l ts id t (next_id l) H Ho ltac:(lia) ltac:(lia)) as H'.
      by rewrite bool_decide_eq_true_2 in H' by lia.
  - by apply repr_set_len.
Qed.

Lemma repr_ops l ts os :
  repr l ts -> Forall op_ok os -> repr (fold_left run_op os l) (fold_left spec_op os ts).
Proof.
  intros H Hos. revert l ts H. induction Hos as [|o os Ho Hos IH]; intros l ts H; [done|].
  cbn [fold_left]. by apply IH, repr_op.
Qed.

Lemma slru_repr_read l ts id : repr l ts -> read l id = Some (default 0%Z (ts !! id)).
Proof.
  intros H. pose proof (repr_next l ts H) as Hn. pose proof (repr_count l ts H) as Hc.
  destruct H as [Hl Hh Hr Hok]. unfold read. case_bool_decide as Hid.
  - by rewrite lookup_ge_None_2 by lia.
  - destruct (lookup_lt_is_Some_2 ts id ltac:(lia)) as [t Ht]. rewrite Ht. cbn [default].
    assert (E : records HEADER_SIZE RECORD_SIZE (file l) !! id = Some (u64_le t))
      by (rewrite Hr, list_lookup_fmap, Ht; done).
    rewrite lookup_records, bool_decide_eq_true_2 in E by (done || lia). injection E as E.
    assert (Hin : rec_off HEADER_SIZE RECORD_SIZE id + RECORD_SIZE <= length (file l))
      by (rewrite Hl; unfold rec_off; nia).
    rewrite rec_in in E by done. unfold read_exact_at, read_at. cbv zeta.
    change (record_offset id) with (rec_off HEADER_SIZE RECORD_SIZE id).
    rewrite length_sl, bool_decide_eq_false_2 by lia. rewrite E. f_equal. apply u64_le_val.
    by eapply Forall_lookup_1.
Qed.

(** Opening a file that is a valid one with [tail] torn off its next record. *)
Lemma slru_repr_reopen l ts tail :
  repr l ts -> length tail < RECORD_SIZE -> open_or_create (Some (file l ++ tail)) = l.
Proof.
  intros [Hl Hh Hr Hok] Ht. unfold open_or_create. cbv zeta.
  change (default [] (Some (file l ++ tail))) with (file l ++ tail).
  rewrite length_app, Hl. unfold rec_off. rewrite !bool_decide_eq_false_2 by (unfold HEADER_SIZE; lia).
  assert (Hhd : sl 0 HEADER_SIZE (file l ++ tail) = header)
    by (rewrite sl_app_l by (rewrite Hl; unfold rec_off; lia); done).
  destruct (index_header_fields_file MAGIC VERSION (Z.of_nat RECORD_SIZE) HEADER_SIZE
    ltac:(done) ltac:(by unfold HEADER_SIZE; lia) ltac:(done) ltac:(done) (file l ++ tail) Hhd) as (-> & -> & ->).
  rewrite bool_decide_eq_true_2, !Z.eqb_refl by done. cbn [negb orb].
  replace (HEADER_SIZE + next_id l * RECORD_SIZE + length tail - HEADER_SIZE)
    with (length tail + next_id l * RECORD_SIZE) by lia.
  rewrite Nat.Div0.mod_add, Nat.mod_small by done. case_bool_decide as Hz; cbn [negb].
  - rewrite Nat.div_add by done. apply length_zero_iff_nil in Hz as ->.
    rewrite app_nil_r. by destruct l.
  - replace (length tail + next_id l * RECORD_SIZE - length tail) with (next_id l * RECORD_SIZE) by lia.
    rewrite Nat.div_mul by done. unfold set_len. rewrite take_app_length' by (rewrite Hl; done).
    replace (_ - _) with 0 by (rewrite length_app, Hl; unfold rec_off; lia).
    rewrite app_nil_r. by destruct l.
Qed.

(** The LRU sidecar is the list of timestamps its callers put there:
    after any sequence of grows, appends, touches and truncations on a fresh
    sidecar, [read] returns each chunk's timestamp and 0 past the end, and
    reopening the file, also with a torn record at its end, gives back the
    same sidecar. *)
Theorem stream_lru_refines os tail :
  Forall op_ok os -> length tail < RECORD_SIZE ->
  let l := fold_left run_op os (open_or_create None) in
  let ts := fold_left spec_op os [] in
  next_id l = length ts /\ (forall id, read l id = Some (default 0%Z (ts !! id))) /\
  open_or_create (Some (file l ++ tail)) = l.
Proof.
  intros Hos Ht. cbv zeta.
  assert (H : repr (fold_left run_op os (open_or_create None)) (fold_left spec_op os []))
    by (apply repr_ops; [by split|done]).
  split_and!; [by apply repr_next|by intros; apply slru_repr_read|by eapply slru_repr_reopen].
Qed.

Lemma stream_lru_refines_witness :
  let l := fold_left run_op [Append 7; Grow 3; Touch 1 9; Truncate 2]%Z (open_or_create None) in
  next_id l = 2 /\ read l 1 = Some 9%Z /\ open_or_create (Some (file l ++ [1; 2; 3]%Z)) = l.
Proof.
  destruct (stream_lru_refines [Append 7; Grow 3; Touch 1 9; Truncate 2]%Z [1; 2; 3]%Z) as (H1 & H2 & H3).
  - repeat constructor; unfold op_ok, in_u64, u64_max; simpl; lia.
  - unfold RECORD_SIZE. simpl. lia.
  - cbv zeta. split; [exact H1|]. split; [exact (H2 1)|exact H3].
Defined.
