(* ===== verification/FastCdc.v ===== *)
(** * Content-defined chunking ([core/stream/src/fastcdc.rs])

    FastCDC: a rolling Gear hash over the input bytes, cut where the hash
    has zeros under a mask.  The implementation skips the bytes that the
    64-bit hash has forgotten by the time the first cut is possible, and
    splits its loops by phase.  The theorems: both chunkers cut where the
    from-zero byte-by-byte references cut, for every input and every split
    of the input into calls; cuts respect the bounds; and a chunker whose
    minimum equals its maximum never cuts when streaming. *)

From S2P Require Import Prelude Bytes.

Local Open Scope nat_scope.

Definition DEFAULT_MIN_SIZE : nat := Z.to_nat 0x100000.
Definition DEFAULT_AVG_SIZE : nat := Z.to_nat 0x800000.
Definition DEFAULT_MAX_SIZE : nat := Z.to_nat 0x2000000.

(** ** The Gear table *)

Definition wrapping_mul64 (a b : Z) : Z := wrap64 (a * b).

(** One splitmix64 output for state [s]. *)
Definition splitmix_mix (s : Z) : Z :=
  let z := s in
  let z := wrapping_mul64 (Z.lxor z (Z.shiftr z 30)) 0xbf58476d1ce4e5b9 in
  let z := wrapping_mul64 (Z.lxor z (Z.shiftr z 27)) 0x94d049bb133111eb in
  Z.lxor z (Z.shiftr z 31).

Fixpoint gear_entries (n : nat) (s : Z) : list Z :=
  match n with
  | O => []
  | S n => let s := wrap64 (s + 0x9e3779b97f4a7c15) in splitmix_mix s :: gear_entries n s
  end.

Definition build_gear_table (seed : Z) : list Z := gear_entries 256 seed.
Definition GEAR : list Z := build_gear_table 0x4e696d627573564c.
Definition gear (b : Z) : Z := nth (Z.to_nat b) GEAR 0%Z.

Definition GEAR_WINDOW : nat := 64.

(** [h.wrapping_shl(1).wrapping_add(GEAR[b])]. *)
Definition gear_step (h b : Z) : Z := wrap64 (wrap64 (Z.shiftl h 1) + gear b).

(** ** Masks *)

Definition BIT_ORDER : list Z :=
  [24; 32; 16; 40; 8; 48; 26; 30; 18; 38; 10; 46; 25; 33; 17; 41; 9; 49; 27; 31; 19; 39; 11;
   47; 28; 34; 20; 42; 12; 50; 29; 35; 21; 43; 13; 51; 14; 52; 15; 53; 22; 44; 23; 45; 36; 54;
   37; 55]%Z.

Definition build_cut_mask (nbits : Z) : Z :=
  let n := Z.to_nat (if (48 <? nbits)%Z then 48 else nbits) in
  fold_left (fun m b => Z.lor m (Z.shiftl 1 b)) (take n BIT_ORDER) 0%Z.

(** [while e > 1 { e >>= 1; k += 1 }] on a 64-bit [usize]: at most 64 turns. *)
Fixpoint halvings (fuel : nat) (e k : Z) : Z :=
  match fuel with
  | O => k
  | S fuel => if (1 <? e)%Z then halvings fuel (Z.shiftr e 1) (k + 1) else k
  end.

Definition bits_for_distance (expected_bytes : Z) : Z :=
  let k := halvings 64 expected_bytes 0 in
  let k := if (Z.shiftl 1 k <? expected_bytes)%Z then (k + 1)%Z else k in
  if (48 <? k)%Z then 48%Z else k.

(** ** The chunker *)

Record FastCdc : Type := mkCdc {
  min : nat;
  avg : nat;
  max : nat;
  mask_s : Z;
  mask_l : Z;
}.

(** [None] is the panic of an assertion. *)
Definition new (mn av mx : nat) : option FastCdc :=
  if bool_decide (0 < mn) && bool_decide (mn <= av) && bool_decide (av <= mx) then
    let a := Z.of_nat av in
    let mask_s := build_cut_mask (bits_for_distance (Z.min (a * 2) u64_max)) in
    let mask_l := build_cut_mask (Z.max (bits_for_distance (a / 2)) 1) in
    Some (mkCdc mn av mx mask_s mask_l)
  else None.

Definition hash_bytes (h : Z) (bs : list Z) : Z := fold_left gear_step bs h.

(** A checked loop over the bytes [bs] at positions [i], [i + 1], ...: the
    position after the byte that cuts with the hash there, or the position
    and the hash at the end of [bs]. *)
Fixpoint scan (mask h : Z) (i : nat) (bs : list Z) : (nat * Z) + (nat * Z) :=
  match bs with
  | [] => inr (i, h)
  | b :: bs =>
      let h := gear_step h b in
      if (Z.land h mask =? 0)%Z then inl (S i, h) else scan mask h (S i) bs
  end.

(** The body after the entry check, hashing from position [i0]. *)
Definition cut_from (c : FastCdc) (i0 : nat) (data : list Z) : nat :=
  let n := length data in
  let upper := n `min` max c in
  let stop := min c `min` upper in
  let h := hash_bytes 0 (sl i0 (stop - i0) data) in
  let i := i0 `max` stop in
  let avg_boundary := upper `min` avg c in
  match scan (mask_s c) h i (sl i (avg_boundary - i) data) with
  | inl (cut, _) => cut
  | inr (i, h) =>
      match scan (mask_l c) h i (sl i (upper - i) data) with
      | inl (cut, _) => cut
      | inr _ => if bool_decide (upper = max c) then upper else n
      end
  end.

Definition find_cut (c : FastCdc) (data : list Z) : nat :=
  if bool_decide (length data <= min c) then length data
  else cut_from c (min c - GEAR_WINDOW) data.

(** The from-zero reference of the tests. *)
Definition reference_find_cut (c : FastCdc) (data : list Z) : nat :=
  if bool_decide (length data <= min c) then length data else cut_from c 0 data.

(** ** The streaming chunker *)

Record StreamingChunker : Type := mkStream {
  chunker : FastCdc;
  hash : Z;
  pos : nat;
}.

Definition stream_new (c : FastCdc) : StreamingChunker := mkStream c 0 0.

(** Phases 2 to 4: the checked bytes. *)
Definition feed_checked (c : FastCdc) (h : Z) (p : nat) (bytes : list Z) : bool * StreamingChunker :=
  let k := avg c - 1 - p in
  match scan (mask_s c) h p (take k bytes) with
  | inl (p, h) => (true, mkStream c h p)
  | inr (p, h) =>
      let bytes := drop k bytes in
      let k := max c - 1 - p in
      match scan (mask_l c) h p (take k bytes) with
      | inl (p, h) => (true, mkStream c h p)
      | inr (p, h) =>
          match drop k bytes with
          | b :: _ =>
              if bool_decide (p + 1 = max c)
              then (true, mkStream c (gear_step h b) (p + 1))
              else (false, mkStream c h p)
          | [] => (false, mkStream c h p)
          end
      end
  end.

(** Phases 1 to 4 on the bytes that are left. *)
Definition feed_phases (c : FastCdc) (h : Z) (p : nat) (bytes : list Z) : bool * StreamingChunker :=
  let k := min c - p in
  let h := hash_bytes h (take k bytes) in
  let p := p + length (take k bytes) in
  feed_checked c h p (drop k bytes).

Definition feed (sc : StreamingChunker) (bytes : list Z) : bool * StreamingChunker :=
  let c := chunker sc in
  let pre_hash_threshold := min c - GEAR_WINDOW in
  if bool_decide (pos sc < pre_hash_threshold) then
    let skip := (pre_hash_threshold - pos sc) `min` length bytes in
    let p := pos sc + skip in
    let h := if bool_decide (p = pre_hash_threshold) then 0%Z else hash sc in
    if bool_decide (skip = length bytes) then (false, mkStream c h p)
    else feed_phases c h p (drop skip bytes)
  else feed_phases c (hash sc) (pos sc) bytes.

Definition reset (sc : StreamingChunker) : StreamingChunker := mkStream (chunker sc) 0 0.

(** The write path's use of [feed]: block after block until it says cut. *)
Fixpoint feed_until (sc : StreamingChunker) (blocks : list (list Z)) : option nat :=
  match blocks with
  | [] => None
  | b :: blocks =>
      let (cut, sc) := feed sc b in
      if cut then Some (pos sc) else feed_until sc blocks
  end.

(** The byte-by-byte reference of the tests. *)
Fixpoint ref_go (c : FastCdc) (h : Z) (p : nat) (data : list Z) : option nat :=
  match data with
  | [] => None
  | b :: data =>
      let p := S p in
      let h := gear_step h b in
      if bool_decide (p <= min c) then ref_go c h p data
      else if bool_decide (max c <= p) then Some p
      else
        let mask := if bool_decide (p < avg c) then mask_s c else mask_l c in
        if (Z.land h mask =? 0)%Z then Some p else ref_go c h p data
  end.

Definition reference_feed (c : FastCdc) (data : list Z) : option nat := ref_go c 0 0 data.

(** ** The hash forgets *)

#[global] Opaque gear.

Lemma gear_step_range h b : (0 <= gear_step h b < 2 ^ 64)%Z.
Proof. apply Z.mod_pos_bound. lia. Qed.

Lemma gear_step_shift h b : exists k, (gear_step h b = 2 * h + gear b + k * 2 ^ 64)%Z.
Proof.
  assert (E : (gear_step h b mod 2 ^ 64 = (2 * h + gear b) mod 2 ^ 64)%Z).
  { unfold gear_step, wrap64. change (u64_max + 1)%Z with (2 ^ 64)%Z.
    rewrite Z.mod_mod, Z.add_mod_idemp_l, Z.shiftl_mul_pow2 by lia. f_equal. lia. }
  exists (gear_step h b / 2 ^ 64 - (2 * h + gear b) / 2 ^ 64)%Z.
  pose proof (Z.div_mod (gear_step h b) (2 ^ 64) ltac:(lia)).
  pose proof (Z.div_mod (2 * h + gear b) (2 ^ 64) ltac:(lia)). lia.
Qed.

(** The start hash is shifted out one bit per byte. *)
Lemma hash_shift bs h :
  exists k, (hash_bytes h bs = h * 2 ^ Z.of_nat (length bs) + hash_bytes 0 bs + k * 2 ^ 64)%Z.
Proof.
  revert h. induction bs as [|b bs IH]; intros h.
  - exists 0%Z. cbn. lia.
  - change (hash_bytes h (b :: bs)) with (hash_bytes (gear_step h b) bs).
    change (hash_bytes 0 (b :: bs)) with (hash_bytes (gear_step 0 b) bs).
    destruct (IH (gear_step h b)) as [k1 ->], (IH (gear_step 0 b)) as [k2 ->].
    destruct (gear_step_shift h b) as [k3 ->], (gear_step_shift 0 b) as [k4 ->].
    cbn [length]. rewrite Nat2Z.inj_succ, Z.pow_succ_r by lia.
    exists (k1 - k2 + (k3 - k4) * 2 ^ Z.of_nat (length bs))%Z. ring.
Qed.

Lemma hash_bytes_range h bs : bs <> [] -> (0 <= hash_bytes h bs < 2 ^ 64)%Z.
Proof.
  intros Hne. destruct bs as [|b bs] using rev_ind; [done|].
  unfold hash_bytes. rewrite fold_left_app. apply gear_step_range.
Qed.

Lemma hash_window bs h h' :
  GEAR_WINDOW <= length bs -> hash_bytes h bs = hash_bytes h' bs.
Proof.
  intros Hl. assert (Hne : bs <> []) by (intros ->; unfold GEAR_WINDOW in Hl; simpl in Hl; lia).
  assert (E : forall g, hash_bytes g bs = (hash_bytes 0 bs mod 2 ^ 64)%Z).
  { intros g. rewrite <- (Z.mod_small (hash_bytes g bs) (2 ^ 64)) by (by apply hash_bytes_range).
    destruct (hash_shift bs g) as [k ->].
    replace (Z.of_nat (length bs)) with (64 + Z.of_nat (length bs - 64))%Z
      by (unfold GEAR_WINDOW in Hl; lia).
    rewrite Z.pow_add_r by lia.
    replace (g * (2 ^ 64 * 2 ^ Z.of_nat (length bs - 64)) + hash_bytes 0 bs + k * 2 ^ 64)%Z
      with (hash_bytes 0 bs + (g * 2 ^ Z.of_nat (length bs - 64) + k) * 2 ^ 64)%Z by ring.
    by rewrite Z.mod_add by lia. }
  by rewrite (E h), (E h').
Qed.

Lemma hash_bytes_app h bs cs : hash_bytes h (bs ++ cs) = hash_bytes (hash_bytes h bs) cs.
Proof. apply fold_left_app. Qed.

(** What [new]'s assertions establish. *)
Definition cdc_ok (c : FastCdc) : Prop := 0 < min c /\ min c <= avg c /\ avg c <= max c.

Lemma new_ok mn av mx c : new mn av mx = Some c -> cdc_ok c.
Proof.
  unfold new. do 3 case_bool_decide; [|done..]. intros [= <-]. by split_and!.
Qed.

(** The skip is invisible: [find_cut], which starts hashing 64 bytes
    before the minimum size, returns the same cut as the reference that
    hashes every byte from the start, for every input and all bounds. *)
Theorem find_cut_bit_exact mn av mx c data :
  new mn av mx = Some c -> find_cut c data = reference_find_cut c data.
Proof.
  intros Hc%new_ok. destruct Hc as (H0 & H1 & H2).
  unfold find_cut, reference_find_cut. case_bool_decide as Hn; [done|]. unfold cut_from. cbv zeta.
  assert (min c `min` (length data `min` max c) = min c) as -> by lia.
  set (i0 := min c - GEAR_WINDOW).
  assert (i0 `max` min c = min c) as -> by lia. rewrite Nat.max_r by lia.
  assert (hash_bytes 0 (sl i0 (min c - i0) data) = hash_bytes 0 (sl 0 (min c - 0) data)) as ->; [|done].
  unfold sl. rewrite Nat.sub_0_r, drop_0.
  replace (take (min c) data) with (take i0 data ++ take (min c - i0) (drop i0 data)).
  - rewrite hash_bytes_app. destruct (decide (GEAR_WINDOW <= min c)).
    + apply hash_window. rewrite length_take, length_drop. lia.
    + replace i0 with 0 by lia. done.
  - rewrite take_take_drop. f_equal. lia.
Qed.

Definition small_cdc : FastCdc := mkCdc 100 128 200 (build_cut_mask 8) (build_cut_mask 6).
Definition sample_data : list Z := map (fun i => (Z.of_nat i * 37 + 11) mod 256)%Z (seq 0 300).

Lemma find_cut_bit_exact_witness :
  find_cut small_cdc sample_data = reference_find_cut small_cdc sample_data.
Proof. apply (find_cut_bit_exact 100 128 200). vm_compute. reflexivity. Defined.

(** ** Bounds *)

Lemma scan_bounds mask h i bs :
  match scan mask h i bs with
  | inl (cut, _) => i < cut <= i + length bs
  | inr (i', h') => i' = i + length bs /\ h' = hash_bytes h bs
  end.
Proof.
  revert h i. induction bs as [|b bs IH]; intros h i; cbn [scan length].
  - by rewrite Nat.add_0_r.
  - cbv zeta. destruct (_ =? 0)%Z; [lia|]. specialize (IH (gear_step h b) (S i)).
    destruct (scan _ _ _ _) as [[cut ?]|[i' h']]; [lia|]. destruct IH as [-> ->]. split; [lia|done].
Qed.

Lemma length_sl_le i n (l : list Z) : length (sl i n l) <= n.
Proof. unfold sl. rewrite length_take. lia. Qed.

(** [find_cut] stays in its bounds: it never returns past the data; data
    of at most [min] bytes is left whole; otherwise the cut is at least
    [min] and at most [max], or all of the data was searched without a cut
    and its whole length is returned; and data of [max] bytes or more always
    has a cut of at most [max] bytes. *)
Theorem find_cut_bounds mn av mx c data :
  new mn av mx = Some c ->
  find_cut c data <= length data /\
  (length data <= mn -> find_cut c data = length data) /\
  (mn < length data -> mn <= find_cut c data) /\
  (mx <= length data -> mn < length data -> find_cut c data <= mx) /\
  (mn < mx -> mn < length data -> mn < find_cut c data).
Proof.
  intros E. pose proof (new_ok _ _ _ _ E) as (H0 & H1 & H2).
  assert (min c = mn /\ max c = mx) as [<- <-].
  { unfold new in E. destruct (_ && _); [|done]. by injection E as <-. }
  destruct (decide (length data <= min c)) as [Hn|Hn].
  - unfold find_cut. rewrite bool_decide_eq_true_2 by done. split_and!; lia.
  - assert (Hc : min c <= find_cut c data <= length data `min` max c /\
      (min c < max c -> min c < find_cut c data) \/
      find_cut c data = length data /\ length data < max c).
    { unfold find_cut. rewrite bool_decide_eq_false_2 by done. unfold cut_from. cbv zeta.
      assert (min c `min` (length data `min` max c) = min c) as -> by lia.
      rewrite Nat.max_r by lia. set (upper := length data `min` max c).
      set (h := hash_bytes _ _).
      pose proof (scan_bounds (mask_s c) h (min c) (sl (min c) (upper `min` avg c - min c) data)) as Hs.
      pose proof (length_sl_le (min c) (upper `min` avg c - min c) data).
      destruct (scan (mask_s c) _ _ _) as [[cut ?]|[i h']]; [left; lia|]. destruct Hs as [-> _].
      set (i := min c + _) in *.
      pose proof (scan_bounds (mask_l c) h' i (sl i (upper - i) data)) as Hl.
      pose proof (length_sl_le i (upper - i) data).
      destruct (scan (mask_l c) _ _ _) as [[cut ?]|[i' h'']]; [left; lia|].
      case_bool_decide as Hu; [left; lia|right; lia]. }
    split_and!; lia.
Qed.

Lemma find_cut_bounds_witness : 100 < find_cut small_cdc sample_data <= 200.
Proof.
  destruct (find_cut_bounds 100 128 200 small_cdc sample_data) as (_ & _ & _ & H1 & H2).
  - vm_compute. reflexivity.
  - assert (length sample_data = 300) as Hl by reflexivity. rewrite Hl in *.
    split; [apply H2; lia|apply H1; lia].
Defined.

(** ** Streaming *)

Lemma take_bound {A : Type} k (l : list A) : length (take k l) <= k.
Proof. rewrite length_take. lia. Qed.

Lemma take_short {A : Type} k (l : list A) : drop k l <> [] -> length (take k l) = k.
Proof.
  intros Hne. rewrite length_take. destruct (decide (length l <= k)); [|lia].
  by rewrite drop_ge in Hne.
Qed.

Section streaming.
Context (c : FastCdc).

Lemma ref_warm h p bs rest :
  p + length bs <= min c -> ref_go c h p (bs ++ rest) = ref_go c (hash_bytes h bs) (p + length bs) rest.
Proof.
  revert h p. induction bs as [|b bs IH]; intros h p Hp; cbn [app length] in *.
  - by rewrite Nat.add_0_r.
  - cbn [ref_go]. cbv zeta. rewrite bool_decide_eq_true_2 by lia. rewrite IH by lia.
    by rewrite Nat.add_succ_comm.
Qed.

(** A phase of the reference that checks one mask. *)
Lemma ref_scan mask h p bs rest :
  min c <= p -> p + length bs < max c ->
  (forall q, p < q <= p + length bs -> (if bool_decide (q < avg c) then mask_s c else mask_l c) = mask) ->
  ref_go c h p (bs ++ rest) =
    match scan mask h p bs with
    | inl (cut, _) => Some cut
    | inr (p', h') => ref_go c h' p' rest
    end.
Proof.
  revert h p. induction bs as [|b bs IH]; intros h p Hp Hm Hq; cbn [app length scan] in *; [done|].
  cbn [ref_go]. cbv zeta. rewrite !(bool_decide_eq_false_2 (_ <= _)) by lia. rewrite (Hq (S p)) by lia.
  destruct (_ =? 0)%Z; [done|]. apply IH; [lia|lia|]. intros q Hqq. apply Hq. lia.
Qed.

(** Before the window of the first check the hash is irrelevant. *)
Lemma ref_drained h h' p data :
  p + GEAR_WINDOW <= min c -> ref_go c h p data = ref_go c h' p data.
Proof.
  intros Hp. rewrite <- (take_drop (min c - p) data).
  rewrite !ref_warm by (rewrite length_take; lia).
  destruct (decide (length data <= min c - p)) as [Hl|Hl].
  - by rewrite drop_ge by lia.
  - by rewrite (hash_window _ h h') by (rewrite length_take; lia).
Qed.

Context (Hok : cdc_ok c) (Hlt : min c < max c).

(** What one call promises about the rest of the stream. *)
Definition feeds (h : Z) (p : nat) (bytes : list Z) (r : bool * StreamingChunker) : Prop :=
  chunker r.2 = c /\
  if r.1 then forall rest, ref_go c h p (bytes ++ rest) = Some (pos r.2)
  else (forall rest, ref_go c h p (bytes ++ rest) = ref_go c (hash r.2) (pos r.2) rest) /\
    pos r.2 = p + length bytes /\ pos r.2 < max c.

Lemma feeds_nil h p : p < max c -> feeds h p [] (false, mkStream c h p).
Proof. intros Hp. split; [done|]. cbn. split_and!; [done|lia|done]. Qed.

Lemma feeds_warm h p bs rest r :
  p + length bs <= min c -> feeds (hash_bytes h bs) (p + length bs) rest r -> feeds h p (bs ++ rest) r.
Proof.
  intros Hp [Hc Hr]. split; [done|]. destruct (r.1).
  - intros rs. by rewrite <- app_assoc, ref_warm.
  - destruct Hr as (Hr & Hq & Hm). split_and!; [|rewrite length_app; lia|done].
    intros rs. by rewrite <- app_assoc, ref_warm.
Qed.

Lemma feeds_scan mask h p bs rest r :
  min c <= p -> p + length bs < max c ->
  (forall q, p < q <= p + length bs -> (if bool_decide (q < avg c) then mask_s c else mask_l c) = mask) ->
  (forall p' h', p' = p + length bs -> feeds h' p' rest (r p' h')) ->
  feeds h p (bs ++ rest)
    match scan mask h p bs with
    | inl (p, h) => (true, mkStream c h p)
    | inr (p, h) => r p h
    end.
Proof.
  intros Hp Hm Hq Hr.
  pose proof (fun rs => ref_scan mask h p bs (rest ++ rs) Hp Hm Hq) as Href.
  pose proof (scan_bounds mask h p bs) as Hb. destruct (scan mask h p bs) as [[cut h']|[p' h']].
  - split; [done|]. cbn. intros rs. by rewrite <- app_assoc.
  - destruct Hb as [-> _]. destruct (Hr (p + length bs) h' eq_refl) as [Hc Hrest]. split; [done|].
    destruct ((r (p + length bs) h').1).
    + intros rs. by rewrite <- app_assoc, Href.
    + destruct Hrest as (Hrest & Hpos & Hmax). split_and!; [|rewrite length_app; lia|done].
      intros rs. by rewrite <- app_assoc, Href.
Qed.

Lemma feeds_forced h p bytes :
  p < max c -> (bytes <> [] -> p + 1 = max c) ->
  feeds h p bytes match bytes with
    | b :: _ => if bool_decide (p + 1 = max c) then (true, mkStream c (gear_step h b) (p + 1))
                else (false, mkStream c h p)
    | [] => (false, mkStream c h p)
    end.
Proof.
  intros Hp Hf. destruct bytes as [|b bs]; [by apply feeds_nil|].
  specialize (Hf ltac:(done)). rewrite bool_decide_eq_true_2 by done. split; [done|]. cbn [fst snd pos].
  intros rs. cbn [app ref_go]. cbv zeta. rewrite bool_decide_eq_false_2, bool_decide_eq_true_2 by lia.
  f_equal. lia.
Qed.

Lemma feed_checked_nil h p : feed_checked c h p [] = (false, mkStream c h p).
Proof. unfold feed_checked. cbv zeta. rewrite take_nil. cbn [scan]. by rewrite drop_nil, take_nil, drop_nil. Qed.

Lemma feed_checked_spec h p bytes :
  min c <= p -> p < max c -> feeds h p bytes (feed_checked c h p bytes).
Proof.
  intros Hp Hm. unfold feed_checked. cbv zeta. destruct Hok as (H0 & H1 & H2).
  pose proof (take_short (avg c - 1 - p) bytes) as Hf1.
  pose proof (take_bound (avg c - 1 - p) bytes) as Hl1.
  rewrite <- (take_drop (avg c - 1 - p) bytes) at 1.
  set (b1 := take (avg c - 1 - p) bytes) in *. set (r1 := drop (avg c - 1 - p) bytes) in *.
  apply (feeds_scan (mask_s c) h p b1 r1); [done|lia| |].
  { intros q Hq. by rewrite bool_decide_eq_true_2 by lia. }
  intros p1 h1 Hp1. destruct (decide (r1 = [])) as [->|Hne].
  { rewrite take_nil, drop_nil. cbn [scan]. apply feeds_nil. lia. }
  specialize (Hf1 Hne). pose proof (take_short (max c - 1 - p1) r1) as Hf2.
  pose proof (take_bound (max c - 1 - p1) r1) as Hl2.
  rewrite <- (take_drop (max c - 1 - p1) r1) at 1.
  apply (feeds_scan (mask_l c)); [lia|lia| |].
  { intros q Hq. by rewrite bool_decide_eq_false_2 by lia. }
  intros p2 h2 Hp2. apply feeds_forced; [lia|]. intros Hne2. specialize (Hf2 Hne2). lia.
Qed.

Lemma feed_phases_spec h p bytes : p < max c -> feeds h p bytes (feed_phases c h p bytes).
Proof.
  intros Hp. unfold feed_phases. cbv zeta. destruct (decide (min c <= p)) as [Hge|Hl].
  - replace (min c - p) with 0 by lia. cbn [take hash_bytes fold_left length].
    rewrite Nat.add_0_r, drop_0. by apply feed_checked_spec.
  - pose proof (take_short (min c - p) bytes) as Hf. pose proof (take_bound (min c - p) bytes) as Hle.
    rewrite <- (take_drop (min c - p) bytes) at 1. apply feeds_warm; [lia|].
    destruct (decide (drop (min c - p) bytes = [])) as [->|Hne].
    + rewrite feed_checked_nil. apply feeds_nil. lia.
    + specialize (Hf Hne). apply feed_checked_spec; lia.
Qed.

Lemma feed_spec sc bytes :
  chunker sc = c -> pos sc < max c -> feeds (hash sc) (pos sc) bytes (feed sc bytes).
Proof.
  intros Hc Hp. unfold feed. cbv zeta. rewrite Hc. case_bool_decide as Ht; [|by apply feed_phases_spec].
  set (t := min c - GEAR_WINDOW) in *. set (k := (t - pos sc) `min` length bytes).
  set (h := if bool_decide (pos sc + k = t) then 0%Z else hash sc).
  assert (Href : forall rs, ref_go c (hash sc) (pos sc) (bytes ++ rs) =
      ref_go c h (pos sc + k) (drop k bytes ++ rs)).
  { intros rs. rewrite <- (take_drop k bytes) at 1. rewrite <- app_assoc.
    rewrite ref_warm by (rewrite length_take; lia). rewrite length_take, Nat.min_l by lia.
    apply ref_drained. lia. }
  case_bool_decide as Hk.
  - split; [done|]. cbn [fst snd hash pos]. split_and!; [|lia|lia].
    intros rs. rewrite Href, drop_ge by lia. done.
  - destruct (feed_phases_spec h (pos sc + k) (drop k bytes) ltac:(lia)) as [E Hr]. split; [done|].
    destruct ((feed_phases c h (pos sc + k) (drop k bytes)).1); [intros rs; by rewrite Href|].
    destruct Hr as (Hr & Hpos & Hm). rewrite length_drop in Hpos. split_and!; [|lia|done].
    intros rs. by rewrite Href.
Qed.

Lemma feed_until_spec blocks sc :
  chunker sc = c -> pos sc < max c ->
  feed_until sc blocks = ref_go c (hash sc) (pos sc) (concat blocks).
Proof.
  revert sc. induction blocks as [|b blocks IH]; intros sc Hc Hp; [done|]. cbn [feed_until concat].
  destruct (feed_spec sc b Hc Hp) as [Hc' Hr]. destruct (feed sc b) as [cut sc']. cbn [fst snd] in *.
  destruct cut; [by rewrite Hr|]. destruct Hr as (Hr & _ & Hm). rewrite Hr. by apply IH.
Qed.

End streaming.

(** C21: Streaming is bit-exact: for bounds with [min < max], feeding a
    stream in blocks of any sizes until [feed] asks for a cut stops at the
    position where the byte-by-byte reference cuts the concatenated stream,
    and does not stop when the reference does not. *)
Theorem feed_bit_exact mn av mx c blocks :
  new mn av mx = Some c -> mn < mx ->
  feed_until (stream_new c) blocks = reference_feed c (concat blocks).
Proof.
  intros E Hlt. pose proof (new_ok _ _ _ _ E) as Hok.
  assert (min c = mn /\ max c = mx) as [<- <-].
  { unfold new in E. destruct (_ && _); [|done]. by injection E as <-. }
  by rewrite (feed_until_spec c Hok Hlt) by (done || (cbn; lia)).
Qed.

Lemma feed_bit_exact_witness :
  feed_until (stream_new small_cdc) [take 7 sample_data; []; drop 7 sample_data] =
    reference_feed small_cdc sample_data.
Proof.
  rewrite <- (take_drop 7 sample_data) at 3.
  rewrite (feed_bit_exact 100 128 200 small_cdc); [reflexivity|vm_compute; reflexivity|lia].
Defined.

Lemma checked_past_max c h p bytes :
  avg c <= p -> max c <= p -> feed_checked c h p bytes = (false, mkStream c h p).
Proof.
  intros Ha Hm. unfold feed_checked. cbv zeta.
  replace (avg c - 1 - p) with 0 by lia. rewrite take_0, drop_0. cbn [scan].
  replace (max c - 1 - p) with 0 by lia. rewrite take_0, drop_0. cbn [scan].
  destruct bytes; [done|]. by rewrite bool_decide_eq_false_2 by lia.
Qed.

Lemma feed_equal_bounds c sc bytes :
  avg c = min c -> max c = min c -> chunker sc = c ->
  (feed sc bytes).1 = false /\ chunker (feed sc bytes).2 = c.
Proof.
  intros Ha Hm Hc.
  assert (Hph : forall h p bs, (feed_phases c h p bs).1 = false /\ chunker (feed_phases c h p bs).2 = c).
  { intros h p bs. unfold feed_phases. cbv zeta.
    destruct (decide (drop (min c - p) bs = [])) as [->|Hne].
    - by rewrite feed_checked_nil.
    - pose proof (take_short _ _ Hne). by rewrite checked_past_max by lia. }
  unfold feed. cbv zeta. rewrite Hc. repeat case_bool_decide; auto.
Qed.

(** With [min = max], which [new] accepts, the streaming chunker never
    cuts: the warmup runs through [max] and no later phase applies, however
    much is fed, while [find_cut] forces a cut at [max]. *)
Theorem feed_never_cuts_at_equal_bounds n c blocks :
  new n n n = Some c ->
  feed_until (stream_new c) blocks = None /\
  forall data, n < length data -> find_cut c data = n.
Proof.
  intros E. assert (min c = n /\ avg c = n /\ max c = n) as (E1 & E2 & E3).
  { unfold new in E. destruct (_ && _); [|done]. by injection E as <-. }
  split.
  - assert (Hf : forall sc, chunker sc = c -> feed_until sc blocks = None); [|by apply Hf].
    induction blocks as [|b blocks IH]; intros sc Hc; [done|]. cbn [feed_until].
    destruct (feed_equal_bounds c sc b ltac:(congruence) ltac:(congruence) Hc) as [H1 H2].
    destruct (feed sc b) as [cut sc']. cbn [fst snd] in *. subst cut. by apply IH.
  - intros data Hl. unfold find_cut. rewrite bool_decide_eq_false_2 by lia. unfold cut_from. cbv zeta.
    rewrite E1, E2, E3. replace (n `min` (length data `min` n)) with n by lia.
    replace ((length data `min` n) `min` n) with n by lia.
    rewrite Nat.max_r, Nat.sub_diag by lia. unfold sl at 2. rewrite take_0. cbn [scan].
    replace (length data `min` n) with n by lia. rewrite Nat.sub_diag. unfold sl. rewrite take_0. cbn [scan].
    by rewrite bool_decide_eq_true_2.
Qed.

Definition equal_cdc : FastCdc :=
  mkCdc 8 8 8 (build_cut_mask (bits_for_distance 16)) (build_cut_mask (bits_for_distance 4)).

Lemma feed_never_cuts_at_equal_bounds_witness :
  feed_until (stream_new equal_cdc) [sample_data; sample_data] = None /\
  find_cut equal_cdc sample_data = 8.
Proof.
  destruct (feed_never_cuts_at_equal_bounds 8 equal_cdc [sample_data; sample_data]) as [H1 H2];
    [vm_compute; reflexivity|].
  split; [exact H1|]. apply H2. assert (length sample_data = 300) as -> by reflexivity. lia.
Defined.

(** ** Masks *)

(** Number of one bits. *)
Fixpoint pop_count (p : positive) : nat :=
  match p with
  | xH => 1
  | xO p => pop_count p
  | xI p => S (pop_count p)
  end.

Definition count_ones (m : Z) : nat := match m with Zpos p => pop_count p | _ => 0 end.

Lemma halvings_spec fuel e k :
  (1 <= e < 2 ^ Z.of_nat fuel)%Z -> halvings fuel e k = (k + Z.log2 e)%Z.
Proof.
  revert e k. induction fuel as [|fuel IH]; intros e k He; [simpl in He; lia|].
  cbn [halvings]. destruct (Z.ltb_spec 1 e) as [H1|H1].
  - rewrite IH.
    + rewrite Z.log2_shiftr by lia. pose proof (Z.log2_pos e H1). lia.
    + rewrite Z.shiftr_div_pow2 by lia. rewrite Nat2Z.inj_succ, Z.pow_succ_r in He by lia.
      change (2 ^ 1)%Z with 2%Z. split; [apply Z.div_le_lower_bound; lia|apply Z.div_lt_upper_bound; lia].
  - assert (e = 1)%Z as -> by lia. simpl. lia.
Qed.

Lemma bits_for_distance_spec e :
  (1 <= e <= u64_max)%Z -> bits_for_distance e = Z.min 48 (Z.log2_up e).
Proof.
  intros He. unfold bits_for_distance. cbv zeta.
  rewrite halvings_spec by (unfold u64_max in He; simpl; lia). rewrite Z.add_0_l, Z.shiftl_1_l.
  pose proof (Z.log2_spec e ltac:(lia)) as [Hl Hu].
  assert (E : (if (2 ^ Z.log2 e <? e)%Z then Z.log2 e + 1 else Z.log2 e)%Z = Z.log2_up e).
  { destruct (Z.ltb_spec (2 ^ Z.log2 e) e) as [Hlt|Hge].
    - symmetry. apply Z.log2_up_unique; [pose proof (Z.log2_nonneg e); lia|].
      rewrite Z.add_1_r in *. rewrite Z.pred_succ. lia.
    - assert (e = 2 ^ Z.log2 e)%Z as He2 by lia. rewrite He2 at 2.
      rewrite Z.log2_up_pow2 by apply Z.log2_nonneg. done. }
  rewrite E. destruct (Z.ltb_spec 48 (Z.log2_up e)); lia.
Qed.

(** Every mask the table can produce, by its bit count. *)
Lemma mask_ones k :
  (0 <= k)%Z -> count_ones (build_cut_mask k) = Z.to_nat (Z.min 48 k) /\
    Z.land (build_cut_mask k) (2 ^ 56 - 2 ^ 8) = build_cut_mask k.
Proof.
  intros Hk. set (k' := Z.to_nat (Z.min 48 k)).
  assert (E : build_cut_mask k = build_cut_mask (Z.of_nat k')).
  { unfold build_cut_mask. cbv zeta. f_equal. f_equal. unfold k'.
    destruct (Z.ltb_spec 48 k), (Z.ltb_spec 48 (Z.of_nat (Z.to_nat (Z.min 48 k)))); lia. }
  rewrite E. assert (Hle : k' < 49) by (unfold k'; lia).
  assert (Hall : forallb (fun i => bool_decide (count_ones (build_cut_mask (Z.of_nat i)) = i) &&
    (Z.land (build_cut_mask (Z.of_nat i)) (2 ^ 56 - 2 ^ 8) =? build_cut_mask (Z.of_nat i))%Z)
    (seq 0 49) = true) by (vm_compute; reflexivity).
  rewrite forallb_forall in Hall. specialize (Hall k' ltac:(apply in_seq; lia)).
  apply andb_true_iff in Hall as [H1 H2]. apply Z.eqb_eq in H2. by apply bool_decide_eq_true in H1.
Qed.

(** The cut masks are calibrated to the average: the strict mask of [new]
    has as many one bits as the base-2 logarithm, rounded up, of twice the
    average (at most 48), the loose mask as that of half of it (at least
    one), and both lie in the middle 48 bits of the hash. *)
Theorem cut_masks_calibrated mn av mx c :
  new mn av mx = Some c -> 2 <= av -> (Z.of_nat av <= u64_max)%Z ->
  count_ones (mask_s c) = Z.to_nat (Z.min 48 (Z.log2_up (Z.min (2 * Z.of_nat av) u64_max))) /\
  count_ones (mask_l c) = Z.to_nat (Z.max 1 (Z.min 48 (Z.log2_up (Z.of_nat av / 2)))) /\
  Z.land (mask_s c) (2 ^ 56 - 2 ^ 8) = mask_s c /\ Z.land (mask_l c) (2 ^ 56 - 2 ^ 8) = mask_l c.
Proof.
  intros E Ha Hu. unfold new in E. destruct (_ && _); [|done]. cbv zeta in E. injection E as <-.
  cbn [mask_s mask_l].
  assert (1 <= Z.of_nat av / 2)%Z by (apply Z.div_le_lower_bound; lia).
  assert (Z.of_nat av / 2 <= Z.of_nat av)%Z by (apply Z.div_le_upper_bound; lia).
  rewrite !bits_for_distance_spec by (unfold u64_max in *; lia). rewrite (Z.mul_comm 2).
  pose proof (Z.log2_up_nonneg (Z.min (Z.of_nat av * 2) u64_max)).
  pose proof (Z.log2_up_nonneg (Z.of_nat av / 2)).
  destruct (mask_ones (Z.min 48 (Z.log2_up (Z.min (Z.of_nat av * 2) u64_max)))) as [-> Hs]; [lia|].
  destruct (mask_ones (Z.max (Z.min 48 (Z.log2_up (Z.of_nat av / 2))) 1)) as [-> Hl]; [lia|].
  split_and!; [f_equal; lia|f_equal; lia|done|done].
Qed.

Definition default_like : option FastCdc := new 4 64 128.

Lemma cut_masks_calibrated_witness :
  exists c, default_like = Some c /\ count_ones (mask_s c) = 7 /\ count_ones (mask_l c) = 5.
Proof.
  destruct default_like as [c|] eqn:E; [|by vm_compute in E]. exists c. split; [done|].
  assert (Hz : Z.of_nat 64 = 64%Z) by reflexivity.
  destruct (cut_masks_calibrated 4 64 128 c E) as (H1 & H2 & _);
    [apply Nat2Z.inj_le; rewrite Hz; lia|rewrite Hz; unfold u64_max; lia|].
  rewrite Hz in H1, H2. split; [exact H1|exact H2].
Defined.
