(* ===== verification/Library.v ===== *)
(** * The library inventory ([core/mediachanger/src/library])

    The elements of the chassis (storage slots, mail slots, drives), the
    deferred, version-gated inventory writer ([mod.rs]) and the verbs that
    move cartridges between elements ([inventory.rs]).  A barcode is the
    bytes of its string; the JSON text of [inventory.json] stands for the
    inventory it encodes.  A verb is a state-and-error computation over the
    library, so that what a failing verb leaves behind is visible. *)

From Stdlib Require Import String.
From S2P Require Import Prelude IndexCodec.

Local Open Scope Z_scope.

Definition Barcode : Type := list Z.

(** ** Elements *)

Record SlotInfo : Type := mkSlot {
  s_id : Z;
  s_barcode : option Barcode;
  s_occupied : bool;
}.

Record MailSlotInfo : Type := mkMail {
  m_id : Z;
  m_barcode : option Barcode;
  m_occupied : bool;
  m_accessible : bool;
}.

Record DriveInfo : Type := mkDrive {
  d_id : Z;
  d_barcode : option Barcode;
  d_occupied : bool;
  home_slot : option Z;
  mfg_serial : option Barcode;
}.

Record LibraryInventory : Type := mkInv {
  inv_version : Z;
  storage_slots : list SlotInfo;
  mail_slots : list MailSlotInfo;
  drives : list DriveInfo;
}.

(** What the three element types have in common. *)
Class Element (A : Type) : Type := {
  el_id : A -> Z;
  el_barcode : A -> option Barcode;
  el_occupied : A -> bool;
}.

#[export] Instance SlotInfo_element : Element SlotInfo :=
  {| el_id := s_id; el_barcode := s_barcode; el_occupied := s_occupied |}.
#[export] Instance MailSlotInfo_element : Element MailSlotInfo :=
  {| el_id := m_id; el_barcode := m_barcode; el_occupied := m_occupied |}.
#[export] Instance DriveInfo_element : Element DriveInfo :=
  {| el_id := d_id; el_barcode := d_barcode; el_occupied := d_occupied |}.

(** [iter().find(|s| s.id == id)]. *)
Definition find_id `{Element A} (l : list A) (id : Z) : option A :=
  List.find (fun a => el_id a =? id) l.

(** Assignment through the [&mut] that [iter_mut().find(..)] returns: the
    first element that satisfies the test is replaced. *)
Fixpoint upd_first {A} (p : A -> bool) (f : A -> A) (l : list A) : list A :=
  match l with
  | [] => []
  | a :: l => if p a then f a :: l else a :: upd_first p f l
  end.

Definition upd_id `{Element A} (id : Z) (f : A -> A) (l : list A) : list A :=
  upd_first (fun a => el_id a =? id) f l.

Definition put_slot (bc : option Barcode) (occ : bool) (s : SlotInfo) : SlotInfo := mkSlot (s_id s) bc occ.
Definition put_mail (bc : option Barcode) (occ : bool) (m : MailSlotInfo) : MailSlotInfo :=
  mkMail (m_id m) bc occ (m_accessible m).
Definition put_drive (bc : option Barcode) (occ : bool) (home : option Z) (d : DriveInfo) : DriveInfo :=
  mkDrive (d_id d) bc occ home (mfg_serial d).

Definition on_slots (f : list SlotInfo -> list SlotInfo) (i : LibraryInventory) : LibraryInventory :=
  mkInv (inv_version i) (f (storage_slots i)) (mail_slots i) (drives i).
Definition on_mail (f : list MailSlotInfo -> list MailSlotInfo) (i : LibraryInventory) : LibraryInventory :=
  mkInv (inv_version i) (storage_slots i) (f (mail_slots i)) (drives i).
Definition on_drives (f : list DriveInfo -> list DriveInfo) (i : LibraryInventory) : LibraryInventory :=
  mkInv (inv_version i) (storage_slots i) (mail_slots i) (f (drives i)).

(** ** Topology and partitions *)

(** A half-open band of element ids. *)
Record SlotRange : Type := mkRange { r_start : Z; r_end : Z }.

Record LibraryPartition : Type := mkPart {
  p_name : Barcode;
  p_storage_slots : SlotRange;
  p_mail_slots : SlotRange;
  p_drives : list Z;
}.

(** Of [library.json]; the firmware and serial strings and the element bases,
    which only the address configuration reads, are left out. *)
Record LibraryTopology : Type := mkTopo {
  num_storage_slots : Z;
  num_mail_slots : Z;
  num_drives : Z;
  lto_generation : Z;
  partitions : list LibraryPartition;
}.

(** ** The library and its inventory writer *)

(** [InventoryPersister] and the file it writes.  [write_locked] writes a
    temporary file and renames it over [inventory.json]: a failure comes
    before the rename and leaves the file as it was.  [disk_ok] says whether
    the write that is under way succeeds. *)
Record InventoryPersister : Type := mkPersister {
  last_written : Z;
  inventory_json : LibraryInventory;
  disk_ok : bool;
}.

(** The directory paths of the library are left out. *)
Record Library : Type := mkLib {
  topology : LibraryTopology;
  inventory : LibraryInventory;
  persist_version : Z;
  persist_deferred : bool;
  pending_persist : bool;
  persister : InventoryPersister;
}.

Record InventorySnapshot : Type := mkSnap { snap_version : Z; content : LibraryInventory }.

Definition set_inventory (i : LibraryInventory) (l : Library) : Library :=
  mkLib (topology l) i (persist_version l) (persist_deferred l) (pending_persist l) (persister l).
Definition set_version (v : Z) (l : Library) : Library :=
  mkLib (topology l) (inventory l) v (persist_deferred l) (pending_persist l) (persister l).
Definition set_deferred (b : bool) (l : Library) : Library :=
  mkLib (topology l) (inventory l) (persist_version l) b (pending_persist l) (persister l).
Definition set_pending (b : bool) (l : Library) : Library :=
  mkLib (topology l) (inventory l) (persist_version l) (persist_deferred l) b (persister l).
Definition set_persister (p : InventoryPersister) (l : Library) : Library :=
  mkLib (topology l) (inventory l) (persist_version l) (persist_deferred l) (pending_persist l) p.

Definition write_if_newer (p : InventoryPersister) (version : Z) (c : LibraryInventory) :
    InventoryPersister * result unit SmcError :=
  if version <=? last_written p then (p, Ok tt)
  else if disk_ok p then (mkPersister version c (disk_ok p), Ok tt)
  else (p, Err Io).

(** *** State and error *)

Definition M (A : Type) : Type := Library -> Library * result A SmcError.

Definition ret {A} (a : A) : M A := fun l => (l, Ok a).
Definition throw {A} (e : SmcError) : M A := fun l => (l, Err e).
Definition bind {A B} (m : M A) (k : A -> M B) : M B := fun l =>
  match m l with
  | (l', Ok a) => k a l'
  | (l', Err e) => (l', Err e)
  end.
Definition ask {A} (f : Library -> result A SmcError) : M A := fun l => (l, f l).
Definition update (f : LibraryInventory -> LibraryInventory) : M unit := fun l =>
  (set_inventory (f (inventory l)) l, Ok tt).

Declare Scope lib_scope.
Delimit Scope lib_scope with lib.
Notation "'let!' x := m 'in' k" := (bind m (fun x => k))
  (at level 10, x pattern, k at level 200) : lib_scope.
Notation "m ;; k" := (bind m (fun _ => k)) (at level 100, k at level 200, right associativity) : lib_scope.
Local Open Scope lib_scope.

Definition persist : M unit := fun l =>
  if persist_deferred l then (set_pending true l, Ok tt)
  else
    let l := set_version (persist_version l + 1) l in
    let '(p, r) := write_if_newer (persister l) (persist_version l) (inventory l) in
    (set_persister p l, r).

Definition mutate_deferred {T} (f : M T) : M (T * option InventorySnapshot) := fun l =>
  let l := set_pending false (set_deferred true l) in
  let '(l, r) := f l in
  let l := set_deferred false l in
  match r with
  | Err e => (l, Err e)
  | Ok out =>
      if pending_persist l then
        let l := set_version (persist_version l + 1) (set_pending false l) in
        (l, Ok (out, Some (mkSnap (persist_version l) (inventory l))))
      else (l, Ok (out, None))
  end.

(** [InventorySnapshot::persist], which touches only the shared writer. *)
Definition snap_persist (s : InventorySnapshot) : M unit := fun l =>
  let '(p, r) := write_if_newer (persister l) (snap_version s) (content s) in
  (set_persister p l, r).

Definition parse_inventory_file (l : Library) : LibraryInventory := inventory_json (persister l).

Definition apply_reloaded_inventory (i : LibraryInventory) (l : Library) : Library * (nat * nat) :=
  let t := topology l in
  let i := on_slots (List.filter (fun s => s_id s <? num_storage_slots t)) i in
  let i := on_mail (List.filter (fun m => m_id m <? num_mail_slots t)) i in
  let i := on_drives (List.filter (fun d => d_id d <? num_drives t)) i in
  let l := set_inventory i l in
  (l, (length (List.filter s_occupied (storage_slots i)), length (List.filter d_occupied (drives i)))).

(** *** Accessors *)

Definition get_storage_slot (l : Library) (id : Z) : option SlotInfo := find_id (storage_slots (inventory l)) id.
Definition get_mail_slot (l : Library) (id : Z) : option MailSlotInfo := find_id (mail_slots (inventory l)) id.
Definition get_drive (l : Library) (id : Z) : option DriveInfo := find_id (drives (inventory l)) id.

Definition storage_slot_mut (id : Z) : M SlotInfo :=
  ask (fun l => ok_or (get_storage_slot l id) (InvalidOp "invalid cartridge slot id")).
Definition mail_slot_mut (id : Z) : M MailSlotInfo :=
  ask (fun l => ok_or (get_mail_slot l id) (InvalidOp "invalid mail slot id")).
Definition drive_slot_mut (id : Z) : M DriveInfo :=
  ask (fun l => ok_or (get_drive l id) (InvalidOp "invalid drive id")).

(** [let s = self.storage_slot_mut(id)?; s.barcode = ..; s.occupied = ..;] *)
Definition assign_slot (id : Z) (bc : option Barcode) (occ : bool) : M unit :=
  storage_slot_mut id ;; update (on_slots (upd_id id (put_slot bc occ))).
Definition assign_mail (id : Z) (bc : option Barcode) (occ : bool) : M unit :=
  mail_slot_mut id ;; update (on_mail (upd_id id (put_mail bc occ))).
Definition assign_drive (id : Z) (bc : option Barcode) (occ : bool) (home : option Z) : M unit :=
  drive_slot_mut id ;; update (on_drives (upd_id id (put_drive bc occ home))).

(** The test of a source element: occupied, with a barcode. *)
Definition take_barcode `{Element A} (a : A) (empty missing : string) : M Barcode :=
  if negb (el_occupied a) then throw (InvalidOp empty)
  else ask (fun _ => ok_or (el_barcode a) (InvalidOp missing)).

(** The test of a destination element. *)
Definition refuse (b : bool) (msg : string) : M unit :=
  if b then throw (InvalidOp msg) else ret tt.

(** ** The verbs *)

(** [ensured] is the outcome of creating the cartridge directory where it is
    missing. *)
Definition seat_one_tape (ensured : result unit SmcError) (barcode : Barcode) : M Z :=
  ask (fun _ => ensured) ;;
  let! slot := ask (fun l => ok_or (List.find (fun s => negb (s_occupied s)) (storage_slots (inventory l)))
                               (InvalidOp "no empty cartridge slots")) in
  update (on_slots (upd_first (fun s => negb (s_occupied s)) (put_slot (Some barcode) true))) ;;
  ret (s_id slot).

Definition add_or_create_tape (ensured : result unit SmcError) (barcode : Barcode) : M Z :=
  let! slot_id := seat_one_tape ensured barcode in
  persist ;;
  ret slot_id.

Fixpoint seat_tapes (barcodes : list (result unit SmcError * Barcode)) : M (list Z) :=
  match barcodes with
  | [] => ret []
  | (ensured, b) :: bs =>
      let! id := seat_one_tape ensured b in
      let! ids := seat_tapes bs in
      ret (id :: ids)
  end.

Definition add_or_create_tapes (barcodes : list (result unit SmcError * Barcode)) : M (list Z) :=
  let! slot_ids := seat_tapes barcodes in
  persist ;;
  ret slot_ids.

Definition remove_from_slot (slot_id : Z) : M unit :=
  assign_slot slot_id None false ;;
  persist.

Definition load_to_drive (storage_slot_id drive_id : Z) : M unit :=
  let! s := storage_slot_mut storage_slot_id in
  let! barcode := take_barcode s "storage slot empty" "slot occupied but barcode missing" in
  let! d := drive_slot_mut drive_id in
  refuse (d_occupied d) "drive already has cartridge" ;;
  assign_slot storage_slot_id None false ;;
  assign_drive drive_id (Some barcode) true (Some (wrap16 storage_slot_id)) ;;
  persist.

Definition unload_from_drive (drive_id storage_slot_id : Z) : M unit :=
  let! d := drive_slot_mut drive_id in
  let! barcode := take_barcode d "drive has no cartridge" "drive occupied but barcode missing" in
  let! s := storage_slot_mut storage_slot_id in
  refuse (s_occupied s) "storage slot occupied" ;;
  assign_drive drive_id None false None ;;
  assign_slot storage_slot_id (Some barcode) true ;;
  persist.

Definition move_cartridge (from_slot_id to_slot_id : Z) : M unit :=
  refuse (from_slot_id =? to_slot_id) "source and destination slots must be different" ;;
  let! s := storage_slot_mut from_slot_id in
  let! barcode := take_barcode s "source slot empty" "slot occupied but barcode missing" in
  let! s := storage_slot_mut to_slot_id in
  refuse (s_occupied s) "destination slot occupied" ;;
  assign_slot from_slot_id None false ;;
  assign_slot to_slot_id (Some barcode) true ;;
  persist.

Definition export_to_mail (storage_slot_id mail_slot_id : Z) : M unit :=
  let! s := storage_slot_mut storage_slot_id in
  let! barcode := take_barcode s "storage slot empty" "slot occupied but barcode missing" in
  let! m := mail_slot_mut mail_slot_id in
  refuse (m_occupied m) "mail slot occupied" ;;
  assign_slot storage_slot_id None false ;;
  assign_mail mail_slot_id (Some barcode) true ;;
  persist.

Definition import_from_mail (mail_slot_id storage_slot_id : Z) : M unit :=
  let! m := mail_slot_mut mail_slot_id in
  let! barcode := take_barcode m "mail slot empty" "mail slot occupied but barcode missing" in
  let! s := storage_slot_mut storage_slot_id in
  refuse (s_occupied s) "storage slot occupied" ;;
  assign_mail mail_slot_id None false ;;
  assign_slot storage_slot_id (Some barcode) true ;;
  persist.

(** *** EXCHANGE MEDIUM *)

Inductive ExchangeSlot : Type := Storage (id : Z) | Mail (id : Z).

#[export] Instance ExchangeSlot_eq_dec : EqDecision ExchangeSlot.
Proof. solve_decision. Defined.

Definition exchange_slot_barcode (slot : ExchangeSlot) : M Barcode :=
  let empty := "exchange element empty"%string in
  let missing := "exchange element occupied but barcode missing"%string in
  match slot with
  | Storage id => let! s := storage_slot_mut id in take_barcode s empty missing
  | Mail id => let! m := mail_slot_mut id in take_barcode m empty missing
  end.

Definition exchange_slot_occupied (slot : ExchangeSlot) : M bool :=
  match slot with
  | Storage id => let! s := storage_slot_mut id in ret (s_occupied s)
  | Mail id => let! m := mail_slot_mut id in ret (m_occupied m)
  end.

Definition exchange_slot_assign (slot : ExchangeSlot) (barcode : option Barcode) : M unit :=
  let occ := bool_decide (is_Some barcode) in
  match slot with
  | Storage id => assign_slot id barcode occ
  | Mail id => assign_mail id barcode occ
  end.

Definition exchange_medium (src dst1 dst2 : ExchangeSlot) : M unit :=
  refuse (bool_decide (src = dst1)) "exchange source and first destination must differ" ;;
  refuse (bool_decide (dst1 = dst2)) "exchange first and second destination must differ" ;;
  let! src_barcode := exchange_slot_barcode src in
  let! dst1_barcode := exchange_slot_barcode dst1 in
  let! blocked := if bool_decide (dst2 = src) then ret false else exchange_slot_occupied dst2 in
  refuse blocked "exchange second destination occupied" ;;
  (if bool_decide (dst2 = src) then ret tt else exchange_slot_assign src None) ;;
  exchange_slot_assign dst1 (Some src_barcode) ;;
  exchange_slot_assign dst2 (Some dst1_barcode) ;;
  persist.
