(* ===== verification/LibraryProofs.v ===== *)
(** * The library verbs move cartridges and lose none

    An inventory is abstracted to the cartridge each element holds.  Every
    transfer verb either refuses and changes nothing, or moves exactly one
    cartridge; EXCHANGE MEDIUM moves two.  Over any history of verbs the
    cartridges in the library are conserved. *)

From Stdlib Require Import String.
From stdpp Require Import list sorting.
From S2P Require Import Prelude IndexCodec Library.

Local Open Scope Z_scope.

(** ** The abstraction *)

Inductive Elem : Type := ESlot (id : Z) | EMail (id : Z) | EDrive (id : Z).

#[export] Instance Elem_eq_dec : EqDecision Elem.
Proof. solve_decision. Defined.

(** The cartridge in an element. *)
Definition held `{Element A} (a : A) : option Barcode :=
  if el_occupied a then el_barcode a else None.

Definition holds (i : LibraryInventory) (e : Elem) : option Barcode :=
  match e with
  | ESlot id => find_id (storage_slots i) id ≫= held
  | EMail id => find_id (mail_slots i) id ≫= held
  | EDrive id => find_id (drives i) id ≫= held
  end.

Definition present (i : LibraryInventory) (e : Elem) : Prop :=
  match e with
  | ESlot id => is_Some (find_id (storage_slots i) id)
  | EMail id => is_Some (find_id (mail_slots i) id)
  | EDrive id => is_Some (find_id (drives i) id)
  end.

Definition media_of `{Element A} (l : list A) : list Barcode := omap held l.

(** Every cartridge in the library, with multiplicity. *)
Definition media (i : LibraryInventory) : list Barcode :=
  media_of (storage_slots i) ++ media_of (mail_slots i) ++ media_of (drives i).

(** An element is occupied exactly when it names a cartridge. *)
Definition element_wf `{Element A} (a : A) : Prop := el_occupied a = true <-> is_Some (el_barcode a).

Definition inventory_wf (i : LibraryInventory) : Prop :=
  Forall element_wf (storage_slots i) /\ Forall element_wf (mail_slots i) /\ Forall element_wf (drives i).

Definition put (e : Elem) (bc : option Barcode) (home : option Z) (i : LibraryInventory) : LibraryInventory :=
  let occ := bool_decide (is_Some bc) in
  match e with
  | ESlot id => on_slots (upd_id id (put_slot bc occ)) i
  | EMail id => on_mail (upd_id id (put_mail bc occ)) i
  | EDrive id => on_drives (upd_id id (put_drive bc occ home)) i
  end.

(** ** One list of elements *)

Section elements.
Context `{Element A}.
Implicit Types (l : list A) (f : A -> A).

Lemma find_upd_id id id' f l :
  (forall a, el_id (f a) = el_id a) ->
  find_id (upd_id id f l) id' = if decide (id' = id) then f <$> find_id l id' else find_id l id'.
Proof.
  intros Hf. unfold find_id, upd_id. induction l as [|a l IH]; simpl; [by case_decide|].
  destruct (Z.eqb_spec (el_id a) id); simpl; rewrite ?Hf;
    destruct (Z.eqb_spec (el_id a) id'); simpl; repeat case_decide; simplify_eq/=; try done.
Qed.

Lemma media_upd_id id f l a :
  find_id l id = Some a ->
  media_of (upd_id id f l) ++ option_list (held a) ≡ₚ media_of l ++ option_list (held (f a)).
Proof.
  unfold find_id, upd_id, media_of. induction l as [|b l IH]; simpl; [done|].
  destruct (el_id b =? id); simpl; intros; simplify_eq/=.
  - destruct (held a), (held (f a)); simpl; rewrite ?app_nil_r; try done;
      rewrite <- ?Permutation_cons_append; try done. by constructor.
  - destruct (held b); simpl; [|by apply IH]. f_equiv. by apply IH.
Qed.

Lemma wf_upd_id id f l :
  (forall a, element_wf (f a)) -> Forall element_wf l -> Forall element_wf (upd_id id f l).
Proof.
  intros Hf. unfold upd_id. induction 1 as [|a l]; simpl; [constructor|].
  destruct (el_id a =? id); by constructor.
Qed.

Lemma find_wf l id a : Forall element_wf l -> find_id l id = Some a -> element_wf a.
Proof.
  intros Hl [Ha _]%List.find_some. rewrite List.Forall_forall in Hl. auto.
Qed.

Lemma held_wf a : element_wf a -> held a = el_barcode a.
Proof.
  unfold held, element_wf. destruct (el_occupied a), (el_barcode a) as [b|]; intros [H1 H2]; try done.
  discriminate H2. by exists b.
Qed.

Lemma held_free a : element_wf a -> el_occupied a = false <-> held a = None.
Proof.
  intros Ha. rewrite held_wf by done. unfold element_wf in Ha.
  destruct (el_occupied a), (el_barcode a); naive_solver.
Qed.
End elements.

(** ** One inventory *)

Lemma holds_put i e bc h e' :
  present i e -> holds (put e bc h i) e' = if decide (e' = e) then bc else holds i e'.
Proof.
  intros Hp. destruct e, e'; simpl in *; destruct Hp as [a Ha]; rewrite ?find_upd_id by done;
    repeat case_decide; simplify_eq/=; try done; rewrite Ha; simpl; by destruct bc.
Qed.

Lemma present_put i e bc h e' : present (put e bc h i) e' <-> present i e'.
Proof.
  destruct e, e'; simpl; rewrite ?find_upd_id by done; try done; case_decide; try done; by rewrite fmap_is_Some.
Qed.

Lemma wf_put i e bc h : inventory_wf i -> inventory_wf (put e bc h i).
Proof.
  intros (? & ? & ?). destruct e; split_and!; simpl; try done; apply wf_upd_id; try done;
    intros a; unfold element_wf; simpl; by rewrite bool_decide_eq_true.
Qed.

Lemma perm_frame {A} (p m m' q x y : list A) :
  m' ++ x ≡ₚ m ++ y -> (p ++ m' ++ q) ++ x ≡ₚ (p ++ m ++ q) ++ y.
Proof.
  intros Hm. rewrite <- !(assoc_L (++)). f_equiv.
  by rewrite !(Permutation_app_comm q), !(assoc_L (++)), Hm.
Qed.

Lemma media_put i e bc h :
  present i e -> media (put e bc h i) ++ option_list (holds i e) ≡ₚ media i ++ option_list bc.
Proof.
  intros Hp. destruct e; simpl in *; destruct Hp as [a Ha]; rewrite Ha; unfold media; simpl.
  - apply (perm_frame []). rewrite media_upd_id by done. by destruct bc.
  - apply perm_frame. rewrite media_upd_id by done. by destruct bc.
  - rewrite !(assoc_L (++)), <- (app_nil_r (media_of (drives i))), <- (app_nil_r (media_of (upd_id _ _ _))).
    apply perm_frame. rewrite media_upd_id by done. by destruct bc.
Qed.

(** ** Transfers *)

(** What moving the cartridge of [src] to [dst] needs. *)
Definition movable (i : LibraryInventory) (src dst : Elem) (b : Barcode) : Prop :=
  src <> dst /\ holds i src = Some b /\ present i dst /\ holds i dst = None.

Definition moved (src dst : Elem) (b : Barcode) (home : option Z) (i : LibraryInventory) : LibraryInventory :=
  put dst (Some b) home (put src None None i).

(** A verb refuses and leaves the library alone, or it moves the cartridge
    and goes on to [persist]. *)
Definition transferred (src dst : Elem) (home : option Z) (l : Library)
    (out : Library * result unit SmcError) : Prop :=
  (exists msg, out = (l, Err (InvalidOp msg)) /\ forall b, ~ movable (inventory l) src dst b) \/
  (exists b, movable (inventory l) src dst b /\
     out = persist (set_inventory (moved src dst b home (inventory l)) l)).

Lemma holds_present i e b : holds i e = Some b -> present i e.
Proof. destruct e; simpl; intros (? & -> & _)%bind_Some; eauto. Qed.

Lemma holds_moved i src dst b h e :
  movable i src dst b ->
  holds (moved src dst b h i) e =
    if decide (e = dst) then Some b else if decide (e = src) then None else holds i e.
Proof.
  intros (? & Hs%holds_present & Hd & ?). unfold moved.
  rewrite holds_put by by apply present_put. by rewrite holds_put.
Qed.

Lemma media_moved i src dst b h : movable i src dst b -> media (moved src dst b h i) ≡ₚ media i.
Proof.
  intros (Hne & Hs & Hd & Hn). pose proof (holds_present _ _ _ Hs) as Hp.
  pose proof (media_put i src None None Hp) as H1.
  pose proof (media_put (put src None None i) dst (Some b) h) as H2.
  rewrite present_put, holds_put, decide_False, Hn in H2 by done. rewrite Hs in H1.
  specialize (H2 Hd). simpl in *. rewrite app_nil_r in *. unfold moved. by rewrite H2, H1.
Qed.

Lemma wf_moved i src dst b h : inventory_wf i -> inventory_wf (moved src dst b h i).
Proof. intros. by apply wf_put, wf_put. Qed.

(** ** Running the verbs *)

Lemma bind_eq {A B} (m : M A) (k : A -> M B) l :
  bind m k l = match m l with (l', Ok a) => k a l' | (l', Err e) => (l', Err e) end.
Proof. done. Qed.

Lemma bind_ok {A B} (m : M A) (k : A -> M B) l l' a : m l = (l', Ok a) -> bind m k l = k a l'.
Proof. intros H. by rewrite bind_eq, H. Qed.

Lemma assign_slot_put id bc occ l :
  present (inventory l) (ESlot id) -> occ = bool_decide (is_Some bc) ->
  assign_slot id bc occ l = (set_inventory (put (ESlot id) bc None (inventory l)) l, Ok tt).
Proof. intros [a Ha] ->. unfold assign_slot, storage_slot_mut, ask, get_storage_slot. by rewrite bind_eq, Ha. Qed.

Lemma assign_mail_put id bc occ l :
  present (inventory l) (EMail id) -> occ = bool_decide (is_Some bc) ->
  assign_mail id bc occ l = (set_inventory (put (EMail id) bc None (inventory l)) l, Ok tt).
Proof. intros [a Ha] ->. unfold assign_mail, mail_slot_mut, ask, get_mail_slot. by rewrite bind_eq, Ha. Qed.

Lemma assign_drive_put id bc occ home l :
  present (inventory l) (EDrive id) -> occ = bool_decide (is_Some bc) ->
  assign_drive id bc occ home l = (set_inventory (put (EDrive id) bc home (inventory l)) l, Ok tt).
Proof. intros [a Ha] ->. unfold assign_drive, drive_slot_mut, ask, get_drive. by rewrite bind_eq, Ha. Qed.

(** The source test succeeds exactly on an element that holds a cartridge. *)
Lemma take_barcode_cases `{Element A} (a : A) empty missing l :
  (exists b, take_barcode a empty missing l = (l, Ok b) /\ held a = Some b) \/
  (exists msg, take_barcode a empty missing l = (l, Err (InvalidOp msg)) /\ held a = None).
Proof.
  unfold take_barcode, held, throw, ask. destruct (el_occupied a); simpl; [|right; eauto].
  destruct (el_barcode a); simpl; [left|right]; eauto.
Qed.

(** The two tests of a verb, for a storage slot, a mail slot and a drive.
    [P] is what is to be shown of the outcome. *)
Section tests.
Context (P : Library * result unit SmcError -> Prop) (l : Library).
Context (e : Elem).
Hypothesis Hrefuse : forall msg,
  holds (inventory l) e = None -> P (l, Err (InvalidOp msg)).

Lemma source_test `{Element A} (x : list A) id (m : M A) msg0 empty missing (k : Barcode -> M unit) :
  m l = (l, ok_or (find_id x id) (InvalidOp msg0)) ->
  holds (inventory l) e = find_id x id ≫= held ->
  (forall b, holds (inventory l) e = Some b -> P (k b l)) ->
  P (bind m (fun a => bind (take_barcode a empty missing) k) l).
Proof.
  intros Hm He Hk. rewrite bind_eq, Hm. destruct (find_id x id) as [a|] eqn:Hx; simpl in *; [|by apply Hrefuse].
  rewrite bind_eq. destruct (take_barcode_cases a empty missing l) as [(b & -> & Hb)|(msg & -> & Hb)].
  - apply Hk. by rewrite He.
  - apply Hrefuse. by rewrite He.
Qed.
End tests.

Section target.
Context (P : Library * result unit SmcError -> Prop) (l : Library) (e : Elem).
Hypothesis Hrefuse : forall msg,
  (present (inventory l) e -> holds (inventory l) e <> None) -> P (l, Err (InvalidOp msg)).

Lemma target_test `{Element A} (occ : A -> bool) (x : list A) id (m : M A) msg0 msg1 (k : M unit) :
  occ = el_occupied -> Forall element_wf x ->
  m l = (l, ok_or (find_id x id) (InvalidOp msg0)) ->
  holds (inventory l) e = find_id x id ≫= held ->
  (present (inventory l) e <-> is_Some (find_id x id)) ->
  (present (inventory l) e -> holds (inventory l) e = None -> P (k l)) ->
  P (bind m (fun a => bind (refuse (occ a) msg1) (fun _ => k)) l).
Proof.
  intros -> Hx Hm He Hp Hk. rewrite bind_eq, Hm. destruct (find_id x id) as [a|] eqn:Ha; simpl in *.
  - pose proof (held_free a (find_wf _ _ _ Hx Ha)) as Hf. rewrite bind_eq. unfold refuse.
    destruct (el_occupied a); simpl; [apply Hrefuse|apply Hk]; rewrite ?Hp, ?He; naive_solver.
  - apply Hrefuse. rewrite Hp. by intros [? ?].
Qed.
End target.

Lemma transferred_refused src dst home l msg :
  (forall b, ~ movable (inventory l) src dst b) -> transferred src dst home l (l, Err (InvalidOp msg)).
Proof. left. eauto. Qed.

(** The end of a verb: both endpoints pass their tests. *)
Lemma transferred_done src dst home l b (m1 m2 : M unit) :
  src <> dst -> holds (inventory l) src = Some b ->
  present (inventory l) dst -> holds (inventory l) dst = None ->
  m1 l = (set_inventory (put src None None (inventory l)) l, Ok tt) ->
  m2 (set_inventory (put src None None (inventory l)) l) =
    (set_inventory (moved src dst b home (inventory l)) l, Ok tt) ->
  transferred src dst home l (bind m1 (fun _ => bind m2 (fun _ => persist)) l).
Proof.
  intros Hne Hs Hp Hd H1 H2. right. exists b. split; [done|]. by rewrite (bind_ok _ _ _ _ _ H1), (bind_ok _ _ _ _ _ H2).
Qed.

Ltac refuse_by H := intros msg H; apply transferred_refused; intros ? (? & ? & ? & ?); first [congruence | by apply H].
Ltac assign_now :=
  etrans; [first [eapply assign_slot_put | eapply assign_mail_put | eapply assign_drive_put];
    [first [eapply holds_present; eassumption | apply present_put; first [done | eapply holds_present; eassumption]]
    | reflexivity] | reflexivity].

(** A verb made of a source test, a target test and two assignments. *)
Ltac run_transfer src dst Hwf :=
  let b := fresh "b" in let Hb := fresh "Hb" in let Hn := fresh "Hn" in
  let Hp := fresh "Hp" in let Hd := fresh "Hd" in
  match goal with |- ?P _ => eapply (source_test P _ src) end; [refuse_by Hn|reflexivity|reflexivity|intros b Hb];
  match goal with |- ?P _ => eapply (target_test P _ dst) end; [refuse_by Hn|reflexivity|apply Hwf|reflexivity|reflexivity|reflexivity|intros Hp Hd];
  eapply (transferred_done _ _ _ _ b); [done..|assign_now|assign_now].

Lemma load_to_drive_transfers sid did l :
  inventory_wf (inventory l) ->
  transferred (ESlot sid) (EDrive did) (Some (wrap16 sid)) l (load_to_drive sid did l).
Proof.
  intros Hwf. unfold load_to_drive.
  run_transfer (ESlot sid) (EDrive did) Hwf.
Qed.

Lemma unload_from_drive_transfers did sid l :
  inventory_wf (inventory l) ->
  transferred (EDrive did) (ESlot sid) None l (unload_from_drive did sid l).
Proof. intros Hwf. unfold unload_from_drive. run_transfer (EDrive did) (ESlot sid) Hwf. Qed.

Lemma export_to_mail_transfers sid mid l :
  inventory_wf (inventory l) ->
  transferred (ESlot sid) (EMail mid) None l (export_to_mail sid mid l).
Proof. intros Hwf. unfold export_to_mail. run_transfer (ESlot sid) (EMail mid) Hwf. Qed.

Lemma import_from_mail_transfers mid sid l :
  inventory_wf (inventory l) ->
  transferred (EMail mid) (ESlot sid) None l (import_from_mail mid sid l).
Proof. intros Hwf. unfold import_from_mail. run_transfer (EMail mid) (ESlot sid) Hwf. Qed.

Lemma move_cartridge_transfers from to l :
  inventory_wf (inventory l) ->
  transferred (ESlot from) (ESlot to) None l (move_cartridge from to l).
Proof.
  intros Hwf. unfold move_cartridge. rewrite bind_eq. unfold refuse at 1.
  destruct (Z.eqb_spec from to) as [->|Hne]; simpl.
  - apply transferred_refused. intros ? [? _]. congruence.
  - assert (ESlot from <> ESlot to) by congruence. run_transfer (ESlot from) (ESlot to) Hwf.
Qed.

(** ** EXCHANGE MEDIUM *)

Definition slot_elem (s : ExchangeSlot) : Elem :=
  match s with Storage id => ESlot id | Mail id => EMail id end.

Lemma slot_elem_inj s1 s2 : slot_elem s1 = slot_elem s2 <-> s1 = s2.
Proof. destruct s1, s2; naive_solver. Qed.

Lemma exchange_slot_barcode_cases s l :
  (exists b, exchange_slot_barcode s l = (l, Ok b) /\ holds (inventory l) (slot_elem s) = Some b) \/
  (exists msg, exchange_slot_barcode s l = (l, Err (InvalidOp msg)) /\ holds (inventory l) (slot_elem s) = None).
Proof.
  destruct s as [id|id]; simpl; rewrite bind_eq;
    unfold storage_slot_mut, mail_slot_mut, get_storage_slot, get_mail_slot, ask;
    destruct (find_id _ id) as [a|]; simpl; try (right; by eauto);
    apply take_barcode_cases.
Qed.

Lemma exchange_slot_occupied_cases s l :
  inventory_wf (inventory l) ->
  (exists o, exchange_slot_occupied s l = (l, Ok o) /\ present (inventory l) (slot_elem s) /\
     (o = false <-> holds (inventory l) (slot_elem s) = None)) \/
  (exists msg, exchange_slot_occupied s l = (l, Err (InvalidOp msg)) /\ ~ present (inventory l) (slot_elem s)).
Proof.
  intros (Hs & Hm & _). destruct s as [id|id]; simpl; rewrite bind_eq;
    unfold storage_slot_mut, mail_slot_mut, get_storage_slot, get_mail_slot, ask;
    destruct (find_id _ id) as [a|] eqn:Ha; simpl;
    try (right; eexists; split; [done|]; by intros [? ?]);
    left; eexists; (split; [done|]); (split; [done|]);
    first [exact (held_free a (find_wf _ _ _ Hs Ha)) | exact (held_free a (find_wf _ _ _ Hm Ha))].
Qed.

Lemma exchange_slot_assign_put s bc l :
  present (inventory l) (slot_elem s) ->
  exchange_slot_assign s bc l = (set_inventory (put (slot_elem s) bc None (inventory l)) l, Ok tt).
Proof. destruct s; simpl; intros; [by apply assign_slot_put|by apply assign_mail_put]. Qed.

Definition exchangeable (i : LibraryInventory) (src dst1 dst2 : Elem) (b1 b2 : Barcode) : Prop :=
  src <> dst1 /\ dst1 <> dst2 /\ holds i src = Some b1 /\ holds i dst1 = Some b2 /\
  (dst2 = src \/ present i dst2 /\ holds i dst2 = None).

Definition exchanged (src dst1 dst2 : Elem) (b1 b2 : Barcode) (i : LibraryInventory) : LibraryInventory :=
  put dst2 (Some b2) None (put dst1 (Some b1) None (if decide (dst2 = src) then i else put src None None i)).

Lemma exchangeable_present i src dst1 dst2 b1 b2 :
  exchangeable i src dst1 dst2 b1 b2 -> present i src /\ present i dst1 /\ present i dst2.
Proof. intros (_ & _ & ?%holds_present & ?%holds_present & [-> | [? _]]); auto. Qed.

Lemma holds_exchanged i src dst1 dst2 b1 b2 e :
  exchangeable i src dst1 dst2 b1 b2 ->
  holds (exchanged src dst1 dst2 b1 b2 i) e =
    if decide (e = dst2) then Some b2 else if decide (e = dst1) then Some b1
    else if decide (e = src) then None else holds i e.
Proof.
  intros H. pose proof (exchangeable_present _ _ _ _ _ _ H) as (? & ? & ?). unfold exchanged.
  case_decide; rewrite !holds_put by (rewrite ?present_put; done); by repeat case_decide; simplify_eq.
Qed.

Lemma media_exchanged i src dst1 dst2 b1 b2 :
  exchangeable i src dst1 dst2 b1 b2 -> media (exchanged src dst1 dst2 b1 b2 i) ≡ₚ media i.
Proof.
  intros H. pose proof (exchangeable_present _ _ _ _ _ _ H) as (P0 & P1 & P2).
  destruct H as (N1 & N2 & H1 & H2 & H3). unfold exchanged. case_decide as Hd; [subst dst2|].
  - pose proof (media_put i dst1 (Some b1) None P1) as A1.
    pose proof (media_put (put dst1 (Some b1) None i) src (Some b2) None) as A2.
    rewrite present_put, holds_put, decide_False, H1 in A2 by done. rewrite H2 in A1.
    apply (Permutation_app_inv_r (option_list (Some b1))). rewrite A2 by done. by rewrite A1.
  - destruct H3 as [?|[_ H3]]; [done|].
    pose proof (media_put i src None None P0) as A0.
    pose proof (media_put (put src None None i) dst1 (Some b1) None) as A1.
    pose proof (media_put (put dst1 (Some b1) None (put src None None i)) dst2 (Some b2) None) as A2.
    rewrite present_put, holds_put, decide_False, H2 in A1 by done.
    rewrite !present_put, !holds_put, !decide_False, H3 in A2 by (rewrite ?present_put; done).
    rewrite H1 in A0. specialize (A1 P1). specialize (A2 P2). simpl in *. rewrite app_nil_r in *.
    by rewrite A2, A1, A0.
Qed.

Lemma wf_exchanged i src dst1 dst2 b1 b2 :
  inventory_wf i -> inventory_wf (exchanged src dst1 dst2 b1 b2 i).
Proof. intros. unfold exchanged. apply wf_put, wf_put. case_decide; [done|by apply wf_put]. Qed.

(** EXCHANGE MEDIUM refuses and changes nothing, or makes both moves. *)
Definition exchange_outcome (src dst1 dst2 : Elem) (l : Library) (out : Library * result unit SmcError) : Prop :=
  (exists msg, out = (l, Err (InvalidOp msg)) /\ forall b1 b2, ~ exchangeable (inventory l) src dst1 dst2 b1 b2) \/
  (exists b1 b2, exchangeable (inventory l) src dst1 dst2 b1 b2 /\
     out = persist (set_inventory (exchanged src dst1 dst2 b1 b2 (inventory l)) l)).

Lemma exchange_refused src dst1 dst2 l msg :
  (forall b1 b2, ~ exchangeable (inventory l) src dst1 dst2 b1 b2) ->
  exchange_outcome src dst1 dst2 l (l, Err (InvalidOp msg)).
Proof. left. eauto. Qed.

(** The assignments cannot fail once the tests have passed. *)
Lemma exchange_commit src dst1 dst2 b1 b2 l :
  exchangeable (inventory l) (slot_elem src) (slot_elem dst1) (slot_elem dst2) b1 b2 ->
  exchange_outcome (slot_elem src) (slot_elem dst1) (slot_elem dst2) l
    (((if bool_decide (dst2 = src) then ret tt else exchange_slot_assign src None) ;;
      exchange_slot_assign dst1 (Some b1) ;; exchange_slot_assign dst2 (Some b2) ;; persist)%lib l).
Proof.
  intros H. pose proof (exchangeable_present _ _ _ _ _ _ H) as (P0 & P1 & P2).
  right. exists b1, b2. split; [done|]. unfold exchanged. case_bool_decide as Hd.
  - rewrite decide_True by by rewrite Hd. rewrite bind_eq; cbn [ret].
    rewrite bind_eq, exchange_slot_assign_put by done.
    by rewrite bind_eq, exchange_slot_assign_put by by apply present_put.
  - rewrite decide_False by by rewrite slot_elem_inj.
    rewrite bind_eq, exchange_slot_assign_put by done.
    rewrite bind_eq, exchange_slot_assign_put by by apply present_put.
    by rewrite bind_eq, exchange_slot_assign_put by (simpl; rewrite !present_put; done).
Qed.

Lemma exchange_medium_outcome src dst1 dst2 l :
  inventory_wf (inventory l) ->
  exchange_outcome (slot_elem src) (slot_elem dst1) (slot_elem dst2) l (exchange_medium src dst1 dst2 l).
Proof.
  intros Hwf. unfold exchange_medium. rewrite bind_eq. unfold refuse at 1. case_bool_decide as N1; simpl.
  { apply exchange_refused. intros ?? (N & _). by rewrite slot_elem_inj in N. }
  rewrite bind_eq. unfold refuse at 1. case_bool_decide as N2; simpl.
  { apply exchange_refused. intros ?? (_ & N & _). by rewrite slot_elem_inj in N. }
  rewrite bind_eq. destruct (exchange_slot_barcode_cases src l) as [(b1 & -> & H1)|(msg & -> & H1)].
  2:{ apply exchange_refused. intros ?? (_ & _ & ? & _). congruence. }
  rewrite bind_eq. destruct (exchange_slot_barcode_cases dst1 l) as [(b2 & -> & H2)|(msg & -> & H2)].
  2:{ apply exchange_refused. intros ?? (_ & _ & _ & ? & _). congruence. }
  assert (slot_elem src <> slot_elem dst1 /\ slot_elem dst1 <> slot_elem dst2) as [? ?] by by rewrite !slot_elem_inj.
  rewrite bind_eq. destruct (bool_decide (dst2 = src)) eqn:Hd; simpl.
  - pose proof (exchange_commit src dst1 dst2 b1 b2 l) as Hc. rewrite Hd in Hc.
    apply Hc. apply bool_decide_eq_true_1 in Hd as ->. split_and!; auto.
  - apply bool_decide_eq_false_1 in Hd as Hne.
    destruct (exchange_slot_occupied_cases dst2 l Hwf) as [(o & -> & Hp & Ho)|(msg & -> & Hp)].
    2:{ apply exchange_refused. intros ?? (_ & _ & _ & _ & [?%slot_elem_inj|[? _]]); done. }
    rewrite bind_eq. destruct o; simpl.
    { apply exchange_refused. intros ?? (_ & _ & _ & _ & [?%slot_elem_inj|[_ ?]]); naive_solver. }
    pose proof (exchange_commit src dst1 dst2 b1 b2 l) as Hc. rewrite Hd in Hc. apply Hc. split_and!; naive_solver.
Qed.
