(* ===== verification/LibraryHistory.v ===== *)
(** * Histories of library verbs and inventory writes

    Changer commands run a verb under the library lock and write the
    snapshot after the lock is released, in any order and with any outcome.
    The theorems: each verb is one abstract move (or exchange), memory and
    [inventory.json] always hold the same cartridges the library started
    with, and the file only moves forward. *)

From Stdlib Require Import String.
From stdpp Require Import list sorting.
From S2P Require Import Prelude IndexCodec Library LibraryProofs.

Local Open Scope Z_scope.

(** ** The verbs of the changer *)

Inductive Verb : Type :=
  | VLoad (sid did : Z)
  | VUnload (did sid : Z)
  | VMove (from to : Z)
  | VExport (sid mid : Z)
  | VImport (mid sid : Z)
  | VExchange (src dst1 dst2 : ExchangeSlot).

Definition run_verb (v : Verb) : M unit :=
  match v with
  | VLoad s d => load_to_drive s d
  | VUnload d s => unload_from_drive d s
  | VMove a b => move_cartridge a b
  | VExport s m => export_to_mail s m
  | VImport m s => import_from_mail m s
  | VExchange a b c => exchange_medium a b c
  end.

(** The endpoints of a verb that moves one cartridge. *)
Definition ends (v : Verb) : option (Elem * Elem) :=
  match v with
  | VLoad s d => Some (ESlot s, EDrive d)
  | VUnload d s => Some (EDrive d, ESlot s)
  | VMove a b => Some (ESlot a, ESlot b)
  | VExport s m => Some (ESlot s, EMail m)
  | VImport m s => Some (EMail m, ESlot s)
  | VExchange _ _ _ => None
  end.

Lemma persist_inventory l : inventory (persist l).1 = inventory l.
Proof. unfold persist. case_all; try done. Qed.

Lemma persist_result l : (persist l).2 = Ok tt \/ (persist l).2 = Err Io.
Proof. unfold persist, write_if_newer. case_all; auto. Qed.

(** Every verb refuses without effect, or reaches [persist] with an
    inventory that holds the same cartridges. *)
Lemma run_verb_cases v l :
  inventory_wf (inventory l) ->
  (exists msg, run_verb v l = (l, Err (InvalidOp msg))) \/
  (exists i, run_verb v l = persist (set_inventory i l) /\ inventory_wf i /\ media i ≡ₚ media (inventory l)).
Proof.
  intros Hwf. destruct v; simpl;
    [ destruct (load_to_drive_transfers sid did l Hwf) as [(? & ? & _)|(? & ? & ?)]
    | destruct (unload_from_drive_transfers did sid l Hwf) as [(? & ? & _)|(? & ? & ?)]
    | destruct (move_cartridge_transfers from to l Hwf) as [(? & ? & _)|(? & ? & ?)]
    | destruct (export_to_mail_transfers sid mid l Hwf) as [(? & ? & _)|(? & ? & ?)]
    | destruct (import_from_mail_transfers mid sid l Hwf) as [(? & ? & _)|(? & ? & ?)]
    | destruct (exchange_medium_outcome src dst1 dst2 l Hwf) as [(? & ? & _)|(? & ? & ? & ?)] ];
    first [ left; eexists; eassumption
          | right; eexists; split; [eassumption|];
            split; [first [by apply wf_moved | by apply wf_exchanged]
                   |first [by apply media_moved | by apply media_exchanged]] ].
Qed.

Lemma run_verb_transfers v src dst l :
  inventory_wf (inventory l) -> ends v = Some (src, dst) ->
  exists home, transferred src dst home l (run_verb v l).
Proof.
  intros Hwf He. destruct v; simplify_eq/=;
    eauto using load_to_drive_transfers, unload_from_drive_transfers, move_cartridge_transfers,
      export_to_mail_transfers, import_from_mail_transfers.
Qed.

(** A transfer verb of the library (load, unload, move, export, import)
    on an inventory whose occupied flags and barcodes agree either refuses
    with [InvalidOp], exactly when the move is impossible, and leaves the
    whole library as it was; or it moves the one cartridge of the source to
    the destination, touches no other element, loses and duplicates no
    cartridge and keeps the invariant, whatever the inventory write then
    does. *)
Theorem transfer_verb_moves_one (v : Verb) (src dst : Elem) (l l' : Library) (r : result unit SmcError) :
  inventory_wf (inventory l) -> ends v = Some (src, dst) -> run_verb v l = (l', r) ->
  match r with
  | Err (InvalidOp _) => l' = l /\ forall b, ~ movable (inventory l) src dst b
  | Ok tt | Err Io =>
      exists b, movable (inventory l) src dst b /\ inventory_wf (inventory l') /\
        media (inventory l') ≡ₚ media (inventory l) /\
        forall e, holds (inventory l') e =
          if decide (e = dst) then Some b else if decide (e = src) then None else holds (inventory l) e
  | _ => False
  end.
Proof.
  intros Hwf He Hr. destruct (run_verb_transfers v src dst l Hwf He) as [home [(msg & Ho & Hn)|(b & Hb & Ho)]].
  { rewrite Hr in Ho. by simplify_eq. }
  rewrite Hr in Ho. pose proof (persist_inventory (set_inventory (moved src dst b home (inventory l)) l)) as Hi.
  pose proof (persist_result (set_inventory (moved src dst b home (inventory l)) l)) as Hres.
  rewrite <- Ho in Hi, Hres. simpl in Hi, Hres.
  assert (exists b, movable (inventory l) src dst b /\ inventory_wf (inventory l') /\
        media (inventory l') ≡ₚ media (inventory l) /\
        forall e, holds (inventory l') e =
          if decide (e = dst) then Some b else if decide (e = src) then None else holds (inventory l) e).
  { exists b. rewrite Hi. split_and!; auto using wf_moved, media_moved, holds_moved. }
  by destruct Hres as [-> | ->].
Qed.

(** EXCHANGE MEDIUM either refuses with [InvalidOp], exactly when the
    exchange is impossible, and leaves the library as it was; or it puts the
    medium of the source in the first destination and the medium of the
    first destination in the second, which may be the source itself, and
    touches nothing else. *)
Theorem exchange_medium_moves_two (src dst1 dst2 : ExchangeSlot) (l l' : Library) (r : result unit SmcError) :
  inventory_wf (inventory l) -> exchange_medium src dst1 dst2 l = (l', r) ->
  let '(a, b, c) := (slot_elem src, slot_elem dst1, slot_elem dst2) in
  match r with
  | Err (InvalidOp _) => l' = l /\ forall x y, ~ exchangeable (inventory l) a b c x y
  | Ok tt | Err Io =>
      exists x y, exchangeable (inventory l) a b c x y /\ inventory_wf (inventory l') /\
        media (inventory l') ≡ₚ media (inventory l) /\
        forall e, holds (inventory l') e =
          if decide (e = c) then Some y else if decide (e = b) then Some x
          else if decide (e = a) then None else holds (inventory l) e
  | _ => False
  end.
Proof.
  intros Hwf Hr. destruct (exchange_medium_outcome src dst1 dst2 l Hwf) as [(msg & Ho & Hn)|(x & y & Hb & Ho)];
    rewrite Hr in Ho; [by simplify_eq|].
  pose proof (persist_inventory (set_inventory (exchanged (slot_elem src) (slot_elem dst1) (slot_elem dst2) x y (inventory l)) l)) as Hi.
  pose proof (persist_result (set_inventory (exchanged (slot_elem src) (slot_elem dst1) (slot_elem dst2) x y (inventory l)) l)) as Hres.
  rewrite <- Ho in Hi, Hres. simpl in Hi, Hres.
  destruct Hres as [-> | ->]; exists x, y; rewrite Hi;
    (split_and!; [done|by apply wf_exchanged|by apply media_exchanged|intros; by apply holds_exchanged]).
Qed.

(** ** Interleavings of commands and writes *)

(** The library and the snapshots whose write is still to come. *)
Record World : Type := mkWorld { lib : Library; in_flight : list InventorySnapshot }.

(** A changer command under the lock: the snapshot it returns is written
    later. *)
Definition deferred_verb (v : Verb) (w : World) : World :=
  match mutate_deferred (run_verb v) (lib w) with
  | (l, Ok (_, Some s)) => mkWorld l (s :: in_flight w)
  | (l, _) => mkWorld l (in_flight w)
  end.

(** An administrative verb, which writes before it returns. *)
Definition inline_verb (v : Verb) (w : World) : World := mkWorld (run_verb v (lib w)).1 (in_flight w).

(** The write of one snapshot, which may fail and be given up. *)
Definition write_snapshot (s : InventorySnapshot) (w : World) : World :=
  mkWorld (snap_persist s (lib w)).1 (in_flight w).

Definition set_disk (ok : bool) (w : World) : World :=
  mkWorld (set_persister (mkPersister (last_written (persister (lib w)))
    (inventory_json (persister (lib w))) ok) (lib w)) (in_flight w).

Inductive wstep (w : World) : World -> Prop :=
  | WDeferred v : wstep w (deferred_verb v w)
  | WInline v : wstep w (inline_verb v w)
  | WWrite s : s ∈ in_flight w -> wstep w (write_snapshot s w)
  | WDisk ok : wstep w (set_disk ok w).

(** A library just opened: the file and memory agree. *)
Definition opened (t : LibraryTopology) (i : LibraryInventory) : World :=
  mkWorld (mkLib t i 0 false false (mkPersister 0 i true)) [].

(** The inventories of a history by version: [h v] is memory when version
    [v] was assigned. *)
Record world_inv (i0 : LibraryInventory) (h : Z -> LibraryInventory) (w : World) : Prop := {
  wi_idle : persist_deferred (lib w) = false;
  wi_memory : inventory (lib w) = h (persist_version (lib w));
  wi_file : inventory_json (persister (lib w)) = h (last_written (persister (lib w)));
  wi_last : 0 <= last_written (persister (lib w)) <= persist_version (lib w);
  wi_flight s : s ∈ in_flight w ->
    content s = h (snap_version s) /\ 0 < snap_version s <= persist_version (lib w);
  wi_sound v : inventory_wf (h v) /\ media (h v) ≡ₚ media i0;
}.

(** The history extended by the next version. *)
Definition extend (h : Z -> LibraryInventory) (n : Z) (i : LibraryInventory) : Z -> LibraryInventory :=
  fun v => if v <? n then h v else i.

Lemma extend_old h n i v : v < n -> extend h n i v = h v.
Proof. intros. unfold extend. by rewrite (proj2 (Z.ltb_lt _ _)). Qed.

Lemma extend_new h n i : extend h n i n = i.
Proof. unfold extend. by rewrite Z.ltb_irrefl. Qed.

Lemma extend_sound (P : LibraryInventory -> Prop) h n i : (forall v, P (h v)) -> P i -> forall v, P (extend h n i v).
Proof. intros ?? v. unfold extend. by destruct (v <? n). Qed.

(** How far a world has come. *)
Definition version (w : World) : Z := persist_version (lib w).
Definition written (w : World) : Z := last_written (persister (lib w)).
Definition memory (w : World) : LibraryInventory := inventory (lib w).
Definition file (w : World) : LibraryInventory := inventory_json (persister (lib w)).

(** One step keeps the invariant for a history that extends the old one. *)
Definition advances (i0 : LibraryInventory) (h : Z -> LibraryInventory) (w w' : World) : Prop :=
  exists h', world_inv i0 h' w' /\ (forall v, v <= version w -> h' v = h v) /\
    version w <= version w' /\ written w <= written w'.

Lemma advances_same i0 h w w' :
  world_inv i0 h w' -> version w' = version w -> written w <= written w' -> advances i0 h w w'.
Proof. intros ? Hv ?. exists h. rewrite Hv. split_and!; auto with lia. Qed.

(** A new version with a new inventory, the file untouched or current. *)
Lemma advances_next i0 h w w' i :
  world_inv i0 h w -> inventory_wf i -> media i ≡ₚ media i0 ->
  persist_deferred (lib w') = false -> memory w' = i -> version w' = version w + 1 ->
  (written w' = written w /\ file w' = file w \/ written w' = version w' /\ file w' = i) ->
  (forall s, s ∈ in_flight w' -> s ∈ in_flight w \/ s = mkSnap (version w') i) ->
  advances i0 h w w'.
Proof.
  intros [Hid Hm Hf Hl Hs Hh] Hwf Hp Hid' Hm' Hv Hw Hfl. unfold version, written, memory, file in *.
  exists (extend h (version w') i). unfold version, written in *. split_and!; [split|..].
  - done.
  - by rewrite extend_new.
  - destruct Hw as [[-> ->]|[-> ->]]; [by rewrite extend_old by lia|by rewrite extend_new].
  - lia.
  - intros s [Hin| ->]%Hfl; [|simpl; rewrite extend_new; split; [done|lia]].
    destruct (Hs s Hin). rewrite extend_old by lia. split; [done|lia].
  - by apply (extend_sound (fun j => inventory_wf j /\ media j ≡ₚ media i0)).
  - intros v ?. apply extend_old. lia.
  - lia.
  - lia.
Qed.

Lemma inline_verb_advances i0 h v w : world_inv i0 h w -> advances i0 h w (inline_verb v w).
Proof.
  intros Hi. pose proof Hi as [Hid Hm Hf Hl Hs Hh]. destruct (Hh (persist_version (lib w))) as [Hwf Hp].
  rewrite <- Hm in Hwf, Hp. unfold inline_verb.
  destruct (run_verb_cases v (lib w) Hwf) as [(msg & ->)|(i & -> & Hi' & Hp')].
  { apply advances_same; [by destruct w|done|done]. }
  unfold persist. simpl. rewrite Hid. unfold write_if_newer. simpl.
  rewrite (proj2 (Z.leb_gt _ _)) by lia.
  eapply (advances_next _ _ _ _ i); [done|done|by rewrite Hp'|..];
    unfold memory, version, written, file; destruct (disk_ok _); simpl; auto.
Qed.

Lemma deferred_verb_advances i0 h v w : world_inv i0 h w -> advances i0 h w (deferred_verb v w).
Proof.
  intros Hi. pose proof Hi as [Hid Hm Hf Hl Hs Hh]. destruct (Hh (persist_version (lib w))) as [Hwf Hp].
  rewrite <- Hm in Hwf, Hp. unfold deferred_verb, mutate_deferred.
  destruct (run_verb_cases v (set_pending false (set_deferred true (lib w))) Hwf) as [(msg & ->)|(i & -> & Hi' & Hp')].
  { apply advances_same; [|done|done]. by split. }
  unfold persist. simpl. simpl in Hp'.
  eapply (advances_next _ _ _ _ i); [done|done|by rewrite Hp'|..];
    unfold memory, version, written, file; simpl; auto.
  intros s [->|?]%elem_of_cons; auto.
Qed.

Lemma write_snapshot_advances i0 h s w :
  world_inv i0 h w -> s ∈ in_flight w -> advances i0 h w (write_snapshot s w).
Proof.
  intros Hi Hin. pose proof Hi as [Hid Hm Hf Hl Hs Hh]. destruct (Hs s Hin) as [Hc Hb].
  unfold write_snapshot, snap_persist, write_if_newer.
  destruct (Z.leb_spec (snap_version s) (last_written (persister (lib w)))) as [?|Hlt]; simpl.
  - apply advances_same; [by split|done|unfold written; simpl; lia].
  - destruct (disk_ok (persister (lib w))); simpl;
      (apply advances_same; [split; simpl; auto with lia|done|unfold written; simpl; lia]).
Qed.

Lemma wstep_advances i0 h w w' : world_inv i0 h w -> wstep w w' -> advances i0 h w w'.
Proof.
  intros Hi Hs. destruct Hs; auto using inline_verb_advances, deferred_verb_advances, write_snapshot_advances.
  destruct Hi. apply advances_same; [by split|done|unfold written; simpl; lia].
Qed.

Lemma wsteps_advance i0 h w w' : world_inv i0 h w -> rtc wstep w w' -> advances i0 h w w'.
Proof.
  intros Hi Hs. revert h Hi. induction Hs as [w|w w1 w2 H1 _ IH]; intros h Hi.
  - apply advances_same; done || lia.
  - destruct (wstep_advances _ _ _ _ Hi H1) as (h1 & Hi1 & He1 & ? & ?).
    destruct (IH h1 Hi1) as (h2 & Hi2 & He2 & ? & ?). exists h2. split_and!; [done| |lia|lia].
    intros v ?. rewrite He2 by lia. by apply He1.
Qed.

Lemma opened_inv t i : inventory_wf i -> world_inv i (fun _ => i) (opened t i).
Proof. intros. split; simpl; try done; try lia. intros s Hs. by apply elem_of_nil in Hs. Qed.

(** C23: Through any interleaving of changer commands, administrative verbs
    and snapshot writes, in any order and whether or not the writes succeed,
    memory and [inventory.json] both hold exactly the cartridges the library
    was opened with, and both keep occupied flags and barcodes in agreement. *)
Theorem cartridges_conserved (t : LibraryTopology) (i0 : LibraryInventory) (w : World) :
  inventory_wf i0 -> rtc wstep (opened t i0) w ->
  inventory_wf (memory w) /\ media (memory w) ≡ₚ media i0 /\
  inventory_wf (file w) /\ media (file w) ≡ₚ media i0.
Proof.
  intros Hwf Hs. destruct (wsteps_advance _ _ _ _ (opened_inv t i0 Hwf) Hs) as (h & [_ Hm Hf _ _ Hh] & _).
  unfold memory, file. rewrite Hm, Hf. split_and!; apply Hh.
Qed.


(** ** A small library *)

Definition demo_topology : LibraryTopology := mkTopo 3 1 1 9 [].
Definition demo_inventory : LibraryInventory :=
  mkInv 1 [mkSlot 0 (Some [65; 49]) true; mkSlot 1 (Some [66; 49]) true; mkSlot 2 None false]
    [mkMail 0 None false true] [mkDrive 0 None false None None].
Definition demo_world : World := opened demo_topology demo_inventory.

Lemma demo_inventory_wf : inventory_wf demo_inventory.
Proof.
  split_and!; repeat constructor; simpl; intros; try done; try (by eexists); by destruct H.
Qed.

Lemma transfer_verb_moves_one_witness :
  exists b, movable demo_inventory (ESlot 0) (EDrive 0) b /\
    media (inventory (run_verb (VLoad 0 0) (lib demo_world)).1) ≡ₚ media demo_inventory.
Proof.
  destruct (transfer_verb_moves_one (VLoad 0 0) (ESlot 0) (EDrive 0) (lib demo_world)
    (run_verb (VLoad 0 0) (lib demo_world)).1 (Ok tt) demo_inventory_wf eq_refl eq_refl) as (b & H1 & _ & H2 & _).
  by exists b.
Defined.

Lemma exchange_medium_moves_two_witness :
  exists x y, exchangeable demo_inventory (ESlot 0) (ESlot 1) (ESlot 0) x y /\
    media (inventory (exchange_medium (Storage 0) (Storage 1) (Storage 0) (lib demo_world)).1) ≡ₚ media demo_inventory.
Proof.
  destruct (exchange_medium_moves_two (Storage 0) (Storage 1) (Storage 0) (lib demo_world)
    (exchange_medium (Storage 0) (Storage 1) (Storage 0) (lib demo_world)).1 (Ok tt) demo_inventory_wf eq_refl)
    as (x & y & H1 & _ & H2 & _).
  by exists x, y.
Defined.

(** A load whose write is in flight, then an export that is written first. *)
Definition demo_trace : World := deferred_verb (VExport 1 0) (deferred_verb (VLoad 0 0) demo_world).

Lemma demo_trace_reachable : rtc wstep demo_world demo_trace.
Proof. eapply rtc_l; [apply (WDeferred _ (VLoad 0 0))|]. eapply rtc_once, (WDeferred _ (VExport 1 0)). Qed.

Lemma cartridges_conserved_witness : media (memory demo_trace) ≡ₚ [[65; 49]; [66; 49]].
Proof.
  exact (proj1 (proj2 (cartridges_conserved demo_topology demo_inventory demo_trace
    demo_inventory_wf demo_trace_reachable))).
Defined.


(** ** INITIALIZE ELEMENT STATUS races a MOVE MEDIUM *)

(** [handle_initialize_element_status] parses the file before it takes the
    lock; [between] is what other sessions do in that window. *)
Definition initialize_element_status (between : World -> World) (w : World) : World :=
  let parsed := parse_inventory_file (lib w) in
  let w := between w in
  mkWorld (apply_reloaded_inventory parsed (lib w)).1 (in_flight w).

Definition move_and_write (v : Verb) (w : World) : World :=
  let w := deferred_verb v w in
  match in_flight w with s :: _ => write_snapshot s w | [] => w end.

(** INITIALIZE ELEMENT STATUS undoes a move that completes between its
    parse and its swap-in.  The command's snapshot is in [inventory.json],
    which has the cartridge in the drive, but memory has it in its old slot
    again; the next move writes that stale memory over the file, so the
    acknowledged move is lost on disk as well. *)
Theorem reload_undoes_concurrent_move :
  let w := initialize_element_status (move_and_write (VLoad 0 0)) demo_world in
  let w' := move_and_write (VExport 1 0) w in
  (holds (file w) (EDrive 0) = Some [65; 49] /\ holds (file w) (ESlot 0) = None) /\
  (holds (memory w) (EDrive 0) = None /\ holds (memory w) (ESlot 0) = Some [65; 49]) /\
  (holds (file w') (EDrive 0) = None /\ holds (file w') (ESlot 0) = Some [65; 49]).
Proof. vm_compute. done. Qed.
