(* ===== verification/Partitions.v ===== *)
(** * Logical partitions ([core/mediachanger/src/library/mod.rs],
    [core/mediachanger/src/library/partitions.rs])

    The validation of a partition layout and the owner lookups the changer
    fences with.  A partition name is the list of its Unicode scalar values.
    The theorems: validation accepts exactly the layouts that tile the
    chassis, and in an accepted layout the owner of an element is unique. *)

From Stdlib Require Import String.
From stdpp Require Import list sorting.
From S2P Require Import Prelude IndexCodec Library.

Local Open Scope Z_scope.

(** ** Names *)

(** [char::is_whitespace]: the Unicode [White_Space] property. *)
Definition is_whitespace (c : Z) : bool :=
  ((9 <=? c) && (c <=? 13)) || (c =? 0x20) || (c =? 0x85) || (c =? 0xA0) || (c =? 0x1680)
  || ((0x2000 <=? c) && (c <=? 0x200A)) || (c =? 0x2028) || (c =? 0x2029) || (c =? 0x202F)
  || (c =? 0x205F) || (c =? 0x3000).

Fixpoint trim_start (s : list Z) : list Z :=
  match s with
  | [] => []
  | c :: s' => if is_whitespace c then trim_start s' else s
  end.

(** [str::trim]. *)
Definition trim (s : list Z) : list Z := rev (trim_start (rev (trim_start s))).

(** [str::len]: bytes of the UTF-8 encoding. *)
Definition utf8_width (c : Z) : Z :=
  if c <? 0x80 then 1 else if c <? 0x800 then 2 else if c <? 0x10000 then 3 else 4.
Definition str_len (s : list Z) : Z := foldr (fun c n => utf8_width c + n) 0 s.

(** ** Validation *)

Definition range_is_empty (r : SlotRange) : bool := r_end r <=? r_start r.
Definition range_len (r : SlotRange) : Z := sat_sub (r_end r) (r_start r).
Definition range_contains (r : SlotRange) (id : Z) : bool := (r_start r <=? id) && (id <? r_end r).

(** The ids of [start..end]. *)
Definition range_ids (r : SlotRange) : list Z := seqZ (r_start r) (r_end r - r_start r).

(** The cells [seen] of one element type: marking an id fails when it is
    marked already (or out of bounds, where the source would panic). *)
Definition mark_one (seen : list bool) (id : Z) : option (list bool) :=
  match seen !! Z.to_nat id with
  | Some false => Some (<[Z.to_nat id := true]> seen)
  | _ => None
  end.

Fixpoint mark_all (seen : list bool) (ids : list Z) : option (list bool) :=
  match ids with
  | [] => Some seen
  | id :: ids => match mark_one seen id with Some seen => mark_all seen ids | None => None end
  end.

Record Seen : Type := mkSeen {
  names : list (list Z);
  storage_seen : list bool;
  mail_seen : list bool;
  drive_seen : list bool;
}.

Local Open Scope thur_scope.

Definition config_unless (b : bool) (msg : string) : result unit SmcError :=
  if b then Ok tt else Err (LibraryConfig msg).

(** One range: its bounds against the element count, then its cells. *)
Definition check_range (r : SlotRange) (n : Z) (seen : list bool) : result (list bool) SmcError :=
  try _ := config_unless (r_start r <=? r_end r) "range start > end" in
  try _ := config_unless (r_end r <=? n) "range exceeds the chassis" in
  ok_or (mark_all seen (range_ids r)) (LibraryConfig "range overlaps another partition").

Fixpoint check_drives (ds : list Z) (n : Z) (seen : list bool) : result (list bool) SmcError :=
  match ds with
  | [] => Ok seen
  | d :: ds =>
      try _ := config_unless (d <? n) "no such drive" in
      try seen := ok_or (mark_one seen d) (LibraryConfig "drive overlaps another partition") in
      check_drives ds n seen
  end.

Definition check_partition (ns nm nd : Z) (st : Seen) (p : LibraryPartition) : result Seen SmcError :=
  let trimmed := trim (p_name p) in
  try _ := config_unless (negb (bool_decide (trimmed = []))) "partition name must be non-empty" in
  try _ := config_unless (str_len trimmed <=? 64) "partition name too long (max 64 chars)" in
  try _ := config_unless (negb (bool_decide (trimmed ∈ names st))) "duplicate partition name" in
  try ss := check_range (p_storage_slots p) ns (storage_seen st) in
  try ms := check_range (p_mail_slots p) nm (mail_seen st) in
  try ds := check_drives (p_drives p) nd (drive_seen st) in
  Ok (mkSeen (trimmed :: names st) ss ms ds).

Fixpoint check_partitions (ns nm nd : Z) (st : Seen) (ps : list LibraryPartition) : result Seen SmcError :=
  match ps with
  | [] => Ok st
  | p :: ps => try st := check_partition ns nm nd st p in check_partitions ns nm nd st ps
  end.

Definition unseen (n : Z) : list bool := replicate (Z.to_nat n) false.

Definition validate_partitions (ps : list LibraryPartition) (ns nm nd : Z) : result unit SmcError :=
  match ps with
  | [] => Ok tt
  | _ =>
      try st := check_partitions ns nm nd (mkSeen [] (unseen ns) (unseen nm) (unseen nd)) ps in
      try _ := config_unless (forallb id (storage_seen st)) "storage slot not covered" in
      try _ := config_unless (forallb id (mail_seen st)) "mail slot not covered" in
      config_unless (forallb id (drive_seen st)) "drive not covered"
  end.

(** ** Lookups *)

Definition partition_for_storage_slot (t : LibraryTopology) (id : Z) : option (list Z) :=
  p_name <$> List.find (fun p => range_contains (p_storage_slots p) id) (partitions t).
Definition partition_for_mail_slot (t : LibraryTopology) (id : Z) : option (list Z) :=
  p_name <$> List.find (fun p => range_contains (p_mail_slots p) id) (partitions t).
Definition partition_for_drive (t : LibraryTopology) (id : Z) : option (list Z) :=
  p_name <$> List.find (fun p => bool_decide (id ∈ p_drives p)) (partitions t).
Definition get_partition (t : LibraryTopology) (name : list Z) : option LibraryPartition :=
  List.find (fun p => bool_decide (p_name p = name)) (partitions t).

(** One-based index, at most 99, 1 where there is no such partition. *)
Definition partition_index_one_based (t : LibraryTopology) (name : option (list Z)) : Z :=
  match name with
  | None => 1
  | Some name =>
      match list_find (fun p => p_name p = name) (partitions t) with
      | Some (i, _) => Z.min (Z.of_nat i + 1) 99
      | None => 1
      end
  end.

(** [set_partitions]; [written] is the outcome of writing [library.json].
    The layout in memory is replaced before the write. *)
Definition set_partitions (ps : list LibraryPartition) (written : result unit SmcError) (t : LibraryTopology) :
    LibraryTopology * result unit SmcError :=
  match validate_partitions ps (num_storage_slots t) (num_mail_slots t) (num_drives t) with
  | Err e => (t, Err e)
  | Ok _ => (mkTopo (num_storage_slots t) (num_mail_slots t) (num_drives t) (lto_generation t) ps, written)
  end.

(** ** Marking cells *)

Lemma mark_all_app seen xs ys :
  mark_all seen (xs ++ ys) = mark_all seen xs ≫= fun s => mark_all s ys.
Proof. revert seen. induction xs as [|x xs IH]; intros seen; simpl; [done|]. destruct (mark_one seen x); simpl; auto. Qed.

Lemma mark_one_lookup seen id seen' k :
  0 <= id -> mark_one seen id = Some seen' ->
  seen !! Z.to_nat id = Some false /\
  seen' !! k = if decide (Z.of_nat k = id) then Some true else seen !! k.
Proof.
  unfold mark_one. intros Hid H. destruct (seen !! Z.to_nat id) as [[]|] eqn:E; simplify_eq.
  split; [done|]. case_decide; subst.
  - rewrite Nat2Z.id in *. apply list_lookup_insert_eq. by eapply lookup_lt_Some.
  - apply list_lookup_insert_ne. lia.
Qed.

Lemma mark_all_sound ids : Forall (Z.le 0) ids -> forall seen seen',
  mark_all seen ids = Some seen' ->
  NoDup ids /\ (forall id, id ∈ ids -> seen !! Z.to_nat id = Some false) /\
  forall k, seen' !! k = if decide (Z.of_nat k ∈ ids) then Some true else seen !! k.
Proof.
  induction 1 as [|id ids Hid _ IH]; intros seen seen' H; simpl in H.
  { simplify_eq. split_and!; [constructor|intros ? []%elem_of_nil|done]. }
  destruct (mark_one seen id) as [s1|] eqn:E; [|done].
  destruct (IH s1 seen' H) as (Hnd & Hf & Hl).
  pose proof (fun k => proj2 (mark_one_lookup _ _ _ k Hid E)) as H1.
  pose proof (proj1 (mark_one_lookup _ _ _ 0%nat Hid E)) as H0.
  assert (id ∉ ids) as Hni.
  { intros Hin%Hf. rewrite H1, decide_True in Hin by lia. done. }
  split_and!; [by constructor| |].
  - intros j [->|Hj]%elem_of_cons; [done|]. specialize (Hf j Hj). rewrite H1 in Hf. by case_decide.
  - intros k. rewrite Hl, H1. repeat case_decide; set_solver.
Qed.

Lemma mark_all_complete ids : Forall (Z.le 0) ids -> forall seen,
  NoDup ids -> (forall id, id ∈ ids -> seen !! Z.to_nat id = Some false) -> is_Some (mark_all seen ids).
Proof.
  induction 1 as [|id ids Hid Hids IH]; intros seen Hnd Hf; simpl; [eauto|].
  apply NoDup_cons in Hnd as [Hni Hnd].
  destruct (mark_one seen id) as [s1|] eqn:E.
  - apply IH; [done|]. intros j Hj. destruct (mark_one_lookup _ _ _ (Z.to_nat j) Hid E) as [_ ->].
    rewrite Forall_forall in Hids. specialize (Hids j Hj).
    case_decide; [|apply Hf; set_solver]. rewrite Z2Nat.id in * by done. by subst.
  - exfalso. unfold mark_one in E. by rewrite (Hf id) in E by set_solver.
Qed.

(** The ids are each of [0..n] once. *)
Definition tiles (n : Z) (ids : list Z) : Prop := ids ≡ₚ seqZ 0 n.

Lemma unseen_lookup n k : unseen n !! k = if decide (Z.of_nat k < n) then Some false else None.
Proof.
  unfold unseen. case_decide; [apply lookup_replicate_2; lia|apply lookup_replicate_None; lia].
Qed.

Lemma mark_all_tiles n ids :
  Forall (Z.le 0) ids ->
  (exists s, mark_all (unseen n) ids = Some s /\ forallb id s = true) <-> tiles n ids.
Proof.
  intros Hids. pose proof Hids as Hf. rewrite Forall_forall in Hf. split.
  - intros (s & Hm & Hs). destruct (mark_all_sound _ Hids _ _ Hm) as (Hnd & Hu & Hl).
    apply NoDup_Permutation; [done|apply NoDup_seqZ|]. intros x. rewrite elem_of_seqZ. split.
    + intros Hx. specialize (Hu x Hx). rewrite unseen_lookup in Hu. specialize (Hf x Hx). case_decide; lia || done.
    + intros Hx. specialize (Hl (Z.to_nat x)). rewrite Z2Nat.id, unseen_lookup, Z2Nat.id in Hl by lia.
      case_decide as Hin; [done|]. rewrite decide_True in Hl by lia.
      rewrite List.forallb_forall in Hs. specialize (Hs false). simpl in Hs.
      discriminate Hs. apply list_elem_of_In. by eapply list_elem_of_lookup_2.
  - intros Ht. assert (NoDup ids) as Hnd by (rewrite Ht; apply NoDup_seqZ).
    assert (forall x, x ∈ ids <-> 0 <= x < n) as Hx by (intros x; rewrite Ht, elem_of_seqZ; lia).
    destruct (mark_all_complete _ Hids (unseen n) Hnd) as [s Hs].
    { intros x Hin%Hx. rewrite unseen_lookup, decide_True; [done|lia]. }
    exists s. split; [done|]. destruct (mark_all_sound _ Hids _ _ Hs) as (_ & _ & Hl).
    apply List.forallb_forall. intros b Hb%list_elem_of_In.
    apply list_elem_of_lookup in Hb as [k Hk]. rewrite Hl in Hk.
    case_decide as Hin; simplify_eq; [done|]. rewrite unseen_lookup in Hk. case_decide; [|done].
    destruct Hin. apply Hx. lia.
Qed.

(** ** What validation accepts *)

Definition p_storage_ids (p : LibraryPartition) : list Z := range_ids (p_storage_slots p).
Definition p_mail_ids (p : LibraryPartition) : list Z := range_ids (p_mail_slots p).

Definition range_fits (n : Z) (r : SlotRange) : Prop := r_start r <= r_end r <= n.

(** The fields of a partition are unsigned. *)
Definition unsigned (p : LibraryPartition) : Prop :=
  0 <= r_start (p_storage_slots p) /\ 0 <= r_start (p_mail_slots p) /\ Forall (Z.le 0) (p_drives p).

Definition name_ok (p : LibraryPartition) : Prop := trim (p_name p) <> [] /\ str_len (trim (p_name p)) <= 64.

Record layout_ok (ps : list LibraryPartition) (ns nm nd : Z) : Prop := {
  lo_names : Forall name_ok ps;
  lo_distinct : NoDup ((trim ∘ p_name) <$> ps);
  lo_storage_fits : Forall (range_fits ns ∘ p_storage_slots) ps;
  lo_mail_fits : Forall (range_fits nm ∘ p_mail_slots) ps;
  lo_storage : tiles ns (ps ≫= p_storage_ids);
  lo_mail : tiles nm (ps ≫= p_mail_ids);
  lo_drives : tiles nd (ps ≫= p_drives);
}.

Lemma config_bind_ok {T} b msg (r : result T SmcError) t :
  result_bind (config_unless b msg) (fun _ => r) = Ok t <-> b = true /\ r = Ok t.
Proof. destruct b; simpl; naive_solver. Qed.

Lemma ok_or_ok {T} (o : option T) e t : ok_or o e = Ok t <-> o = Some t.
Proof. destruct o; simpl; naive_solver. Qed.

Lemma check_range_ok r n seen s :
  check_range r n seen = Ok s <-> range_fits n r /\ mark_all seen (range_ids r) = Some s.
Proof.
  unfold check_range, range_fits. rewrite !config_bind_ok, ok_or_ok, !Z.leb_le. tauto.
Qed.

Lemma check_drives_ok ds n seen s :
  check_drives ds n seen = Ok s <-> Forall (fun d => d < n) ds /\ mark_all seen ds = Some s.
Proof.
  revert seen. induction ds as [|d ds IH]; intros seen; simpl.
  { split; [intros; simplify_eq; auto|intros [_ ?]; simplify_eq; auto]. }
  rewrite config_bind_ok, Forall_cons, Z.ltb_lt.
  destruct (mark_one seen d); simpl; [rewrite IH; tauto|naive_solver].
Qed.

(** One partition, then all of them: names, bounds and cells. *)
Lemma check_partition_ok ns nm nd st p st' :
  check_partition ns nm nd st p = Ok st' <->
  name_ok p /\ (trim (p_name p) ∉ names st) /\
  range_fits ns (p_storage_slots p) /\ range_fits nm (p_mail_slots p) /\ Forall (fun d => d < nd) (p_drives p) /\
  names st' = trim (p_name p) :: names st /\
  mark_all (storage_seen st) (p_storage_ids p) = Some (storage_seen st') /\
  mark_all (mail_seen st) (p_mail_ids p) = Some (mail_seen st') /\
  mark_all (drive_seen st) (p_drives p) = Some (drive_seen st').
Proof.
  unfold check_partition, name_ok. rewrite !config_bind_ok, !negb_true_iff, !bool_decide_eq_false, Z.leb_le.
  split.
  - intros (? & ? & ? & (ss & [? ?]%check_range_ok & Ha)%result_bind_ok).
    apply result_bind_ok in Ha as (ms & [? ?]%check_range_ok & Hb).
    apply result_bind_ok in Hb as (ds & [? ?]%check_drives_ok & Hc). by simplify_eq/=.
  - intros ([? ?] & ? & ? & ? & ? & En & ? & ? & ?). split_and!; try done.
    rewrite (proj2 (check_range_ok _ _ _ (storage_seen st'))) by done. simpl.
    rewrite (proj2 (check_range_ok _ _ _ (mail_seen st'))) by done. simpl.
    rewrite (proj2 (check_drives_ok _ _ _ (drive_seen st'))) by done. destruct st'; simpl in *. by subst.
Qed.

Lemma check_partitions_ok ns nm nd ps st st' :
  check_partitions ns nm nd st ps = Ok st' ->
  Forall name_ok ps /\ NoDup ((trim ∘ p_name) <$> ps) /\ (forall x, x ∈ (trim ∘ p_name) <$> ps -> x ∉ names st) /\
  Forall (range_fits ns ∘ p_storage_slots) ps /\ Forall (range_fits nm ∘ p_mail_slots) ps /\
  mark_all (storage_seen st) (ps ≫= p_storage_ids) = Some (storage_seen st') /\
  mark_all (mail_seen st) (ps ≫= p_mail_ids) = Some (mail_seen st') /\
  mark_all (drive_seen st) (ps ≫= p_drives) = Some (drive_seen st').
Proof.
  revert st. induction ps as [|p ps IH]; intros st; cbn [check_partitions].
  { intros; simplify_eq. split_and!; try constructor. intros ? []%elem_of_nil. }
  rewrite result_bind_ok. intros (s1 & Hp & H). apply check_partition_ok in Hp.
  destruct Hp as (? & ? & ? & ? & _ & En & E1 & E2 & E3).
  destruct (IH s1 H) as (? & ? & Hn & ? & ? & F1 & F2 & F3). rewrite En in Hn.
  rewrite !bind_cons, !mark_all_app, E1, E2, E3. simpl. rewrite F1, F2, F3.
  split_and!; try done; try (by constructor).
  - constructor; [|done]. intros Hin. apply (Hn _ Hin). by left.
  - intros x [->|Hx]%elem_of_cons; [done|]. specialize (Hn x Hx). set_solver.
Qed.

Lemma check_partitions_complete ns nm nd ps st ss ms ds :
  Forall name_ok ps -> NoDup ((trim ∘ p_name) <$> ps) -> (forall x, x ∈ (trim ∘ p_name) <$> ps -> x ∉ names st) ->
  Forall (range_fits ns ∘ p_storage_slots) ps -> Forall (range_fits nm ∘ p_mail_slots) ps ->
  Forall (fun d => d < nd) (ps ≫= p_drives) ->
  mark_all (storage_seen st) (ps ≫= p_storage_ids) = Some ss ->
  mark_all (mail_seen st) (ps ≫= p_mail_ids) = Some ms ->
  mark_all (drive_seen st) (ps ≫= p_drives) = Some ds ->
  exists nms, check_partitions ns nm nd st ps = Ok (mkSeen nms ss ms ds).
Proof.
  revert st. induction ps as [|p ps IH]; intros st.
  { simpl. intros. simplify_eq. exists (names st). by destruct st. }
  rewrite !Forall_cons, !bind_cons, !mark_all_app, Forall_app, fmap_cons, NoDup_cons.
  intros [? ?] [Hni ?] Hn [? ?] [? ?] [? ?] (s1 & E1 & ?)%bind_Some (m1 & E2 & ?)%bind_Some (d1 & E3 & ?)%bind_Some.
  destruct (IH (mkSeen (trim (p_name p) :: names st) s1 m1 d1)) as [nms Hnms]; try done.
  { simpl. intros x Hx [->|Hin]%elem_of_cons; [done|]. apply (Hn x); [by right|done]. }
  exists nms. cbn [check_partitions].
  rewrite (proj2 (check_partition_ok ns nm nd st p (mkSeen (trim (p_name p) :: names st) s1 m1 d1))); [done|].
  split_and!; try done. apply Hn. by left.
Qed.

Lemma unsigned_ids ps :
  Forall unsigned ps ->
  Forall (Z.le 0) (ps ≫= p_storage_ids) /\ Forall (Z.le 0) (ps ≫= p_mail_ids) /\ Forall (Z.le 0) (ps ≫= p_drives).
Proof.
  intros H. rewrite Forall_forall in H. split_and!; apply Forall_forall; intros x (p & Hx & Hp)%list_elem_of_bind;
    destruct (H p Hp) as (H1 & H2 & H3).
  - apply elem_of_seqZ in Hx. lia.
  - apply elem_of_seqZ in Hx. lia.
  - rewrite Forall_forall in H3. by apply H3.
Qed.

Lemma validate_partitions_exact_core (ps : list LibraryPartition) (ns nm nd : Z) :
  ps <> [] -> Forall unsigned ps ->
  validate_partitions ps ns nm nd = Ok tt <-> layout_ok ps ns nm nd.
Proof.
  intros Hne Hu. destruct (unsigned_ids ps Hu) as (U1 & U2 & U3).
  replace (validate_partitions ps ns nm nd) with
    (result_bind (check_partitions ns nm nd (mkSeen [] (unseen ns) (unseen nm) (unseen nd)) ps) (fun st =>
      result_bind (config_unless (forallb id (storage_seen st)) "storage slot not covered") (fun _ =>
      result_bind (config_unless (forallb id (mail_seen st)) "mail slot not covered") (fun _ =>
      config_unless (forallb id (drive_seen st)) "drive not covered")))) by by destruct ps.
  rewrite result_bind_ok. split.
  - intros (st & H & Hc). rewrite !config_bind_ok in Hc. destruct Hc as (C1 & C2 & C3).
    destruct (check_partitions_ok _ _ _ _ _ _ H) as (? & ? & _ & ? & ? & M1 & M2 & M3). simpl in *.
    split; try done; apply mark_all_tiles; eauto. exists (drive_seen st). split; [done|].
    by destruct (forallb id (drive_seen st)).
  - intros [L1 L2 L3 L4 T1 T2 T3].
    assert (Forall (fun d => d < nd) (ps ≫= p_drives)) as Hd.
    { apply Forall_forall. intros x Hx. unfold tiles in T3. rewrite T3 in Hx. apply elem_of_seqZ in Hx. lia. }
    apply mark_all_tiles in T1 as (ss & M1 & C1); [|done].
    apply mark_all_tiles in T2 as (ms & M2 & C2); [|done].
    apply mark_all_tiles in T3 as (ds & M3 & C3); [|done].
    destruct (check_partitions_complete ns nm nd ps (mkSeen [] (unseen ns) (unseen nm) (unseen nd)) ss ms ds)
      as [nms H]; try done; [intros ? _ []%elem_of_nil|].
    eexists. split; [exact H|]. rewrite !config_bind_ok. simpl. by rewrite C3.
Qed.

(** [validate_partitions] accepts a non-empty layout exactly when the
    names are non-empty, at most 64 bytes and distinct once trimmed, every
    range is well formed and inside the chassis, and the storage slots, the
    mail slots and the drives of the partitions are each the whole chassis,
    every element once.  In particular it never runs out of cells. *)
Theorem validate_partitions_exact (ps : list LibraryPartition) (ns nm nd : Z) :
  ps <> [] -> Forall unsigned ps ->
  validate_partitions ps ns nm nd = Ok tt <-> layout_ok ps ns nm nd.
Proof. apply validate_partitions_exact_core. Qed.

(** ** Owners *)

Lemma NoDup_bind_owner {A} (f : A -> list Z) ps x i j p q :
  NoDup (ps ≫= f) -> ps !! i = Some p -> ps !! j = Some q -> x ∈ f p -> x ∈ f q -> i = j.
Proof.
  revert i j. induction ps as [|r ps IH]; intros i j; [done|].
  rewrite bind_cons. intros (_ & Hd & Hnd)%NoDup_app Hi Hj Hp Hq.
  assert (forall k s, ps !! k = Some s -> x ∈ f r -> x ∉ f s) as Hx.
  { intros k s Hk Hr Hs. apply (Hd x Hr). apply list_elem_of_bind. eauto using list_elem_of_lookup_2. }
  destruct i, j; simplify_eq/=; [done|by destruct (Hx j q)|by destruct (Hx i p)|]. f_equal. eauto.
Qed.

(** The first owner is the only one. *)
Lemma tiles_owner {A} (f : A -> list Z) (b : A -> bool) ps n x :
  (forall p, b p = true <-> x ∈ f p) -> tiles n (ps ≫= f) -> 0 <= x < n ->
  exists i p, ps !! i = Some p /\ List.find b ps = Some p /\ x ∈ f p /\
    forall j q, ps !! j = Some q -> x ∈ f q -> j = i.
Proof.
  intros Hb Ht Hx. assert (NoDup (ps ≫= f)) as Hnd by (rewrite Ht; apply NoDup_seqZ).
  assert (x ∈ ps ≫= f) as (p & Hp & Hin)%list_elem_of_bind by (rewrite Ht; apply elem_of_seqZ; lia).
  destruct (List.find b ps) as [q|] eqn:Hq.
  - pose proof (List.find_some _ _ Hq) as [Hin' Hbq%Hb].
    apply list_elem_of_In, list_elem_of_lookup in Hin' as [i Hi]. exists i, q. split_and!; try done.
    intros j r Hj Hr. by eapply NoDup_bind_owner.
  - apply list_elem_of_In in Hin. pose proof (List.find_none _ _ Hq _ Hin). apply Hb in Hp. congruence.
Qed.

Lemma range_contains_ids r x : range_contains r x = true <-> x ∈ range_ids r.
Proof. unfold range_contains, range_ids. rewrite andb_true_iff, Z.leb_le, Z.ltb_lt, elem_of_seqZ. lia. Qed.

(** In a layout [validate_partitions] accepted, every storage slot, mail
    slot and drive of the chassis has exactly one owning partition, and the
    lookups the changer fences with return the name of that owner. *)
Theorem owner_is_unique (t : LibraryTopology) :
  partitions t <> [] -> Forall unsigned (partitions t) ->
  validate_partitions (partitions t) (num_storage_slots t) (num_mail_slots t) (num_drives t) = Ok tt ->
  (forall x, 0 <= x < num_storage_slots t -> exists i p, partitions t !! i = Some p /\
     partition_for_storage_slot t x = Some (p_name p) /\
     forall j q, partitions t !! j = Some q -> range_contains (p_storage_slots q) x = true <-> j = i) /\
  (forall x, 0 <= x < num_mail_slots t -> exists i p, partitions t !! i = Some p /\
     partition_for_mail_slot t x = Some (p_name p) /\
     forall j q, partitions t !! j = Some q -> range_contains (p_mail_slots q) x = true <-> j = i) /\
  (forall x, 0 <= x < num_drives t -> exists i p, partitions t !! i = Some p /\
     partition_for_drive t x = Some (p_name p) /\
     forall j q, partitions t !! j = Some q -> x ∈ p_drives q <-> j = i).
Proof.
  intros Hne Hu Hv.
  assert (layout_ok (partitions t) (num_storage_slots t) (num_mail_slots t) (num_drives t)) as [_ _ _ _ T1 T2 T3].
  { by apply validate_partitions_exact_core. }
  unfold partition_for_storage_slot, partition_for_mail_slot, partition_for_drive. split_and!; intros x Hx.
  - destruct (tiles_owner p_storage_ids (fun p => range_contains (p_storage_slots p) x) _ _ x
      (fun p => range_contains_ids _ x) T1 Hx) as (i & p & Hi & -> & Hp & Huq).
    exists i, p. split_and!; try done. intros j q Hj. rewrite range_contains_ids.
    split; [by apply Huq|intros ->; by simplify_eq].
  - destruct (tiles_owner p_mail_ids (fun p => range_contains (p_mail_slots p) x) _ _ x
      (fun p => range_contains_ids _ x) T2 Hx) as (i & p & Hi & -> & Hp & Huq).
    exists i, p. split_and!; try done. intros j q Hj. rewrite range_contains_ids.
    split; [by apply Huq|intros ->; by simplify_eq].
  - destruct (tiles_owner p_drives (fun p => bool_decide (x ∈ p_drives p)) _ _ x
      (fun p => bool_decide_eq_true _) T3 Hx) as (i & p & Hi & -> & Hp & Huq).
    exists i, p. split_and!; try done. intros j q Hj.
    split; [by apply Huq|intros ->; by simplify_eq].
Qed.

(** Two partitions of a chassis with three slots, one mail slot and two drives. *)
Definition demo_partitions : list LibraryPartition :=
  [mkPart [97] (mkRange 0 2) (mkRange 0 0) [1]; mkPart [98; 32] (mkRange 2 3) (mkRange 0 1) [0]].

Lemma demo_unsigned : Forall unsigned demo_partitions.
Proof. repeat constructor; simpl; lia. Qed.

Lemma validate_partitions_exact_witness : layout_ok demo_partitions 3 1 2.
Proof. apply (validate_partitions_exact demo_partitions 3 1 2); [done|apply demo_unsigned|reflexivity]. Defined.

Lemma owner_is_unique_witness :
  partition_for_drive (mkTopo 3 1 2 9 demo_partitions) 0 = Some [98; 32] /\
  exists i p, demo_partitions !! i = Some p /\ partition_for_drive (mkTopo 3 1 2 9 demo_partitions) 0 = Some (p_name p).
Proof.
  split; [reflexivity|].
  destruct (owner_is_unique (mkTopo 3 1 2 9 demo_partitions) ltac:(done) demo_unsigned eq_refl) as (_ & _ & H).
  destruct (H 0) as (i & p & ? & ? & _); [simpl; lia|]. by exists i, p.
Defined.
