(* ===== verification/Changer.v ===== *)
(** * The medium changer ([scsi/smc/src/changer.rs],
    [scsi/smc/src/dispatch/handlers.rs])

    SMC element addresses, MOVE MEDIUM and EXCHANGE MEDIUM: the partition
    fence, PREVENT MEDIUM REMOVAL, the deferred inventory write, the mirror
    into the drive manager and the rollback of a failed drive load.  The
    drive manager is an interface.  A [u16] sum wraps, as in a release build.
    Logging, audit records and broadcast events are left out; nothing reads
    them back. *)

From Stdlib Require Import String.
From stdpp Require Import list sorting.
From S2P Require Import Prelude Bytes IndexCodec Library LibraryProofs LibraryHistory Partitions.

Local Open Scope Z_scope.

(** ** Element addresses *)

Inductive ElementType : Type :=
  | AllElements | MediumTransport | StorageElement | ImportExport | DataTransfer.

#[export] Instance ElementType_eq_dec : EqDecision ElementType.
Proof. solve_decision. Defined.

Definition element_type_from_u8 (v : Z) : option ElementType :=
  if v =? 0 then Some AllElements else if v =? 1 then Some MediumTransport
  else if v =? 2 then Some StorageElement else if v =? 3 then Some ImportExport
  else if v =? 4 then Some DataTransfer else None.

Record ElementAddressConfig : Type := mkConfig {
  transport_start : Z;
  storage_start : Z;
  storage_count : Z;
  import_export_start : Z;
  import_export_count : Z;
  data_transfer_start : Z;
  data_transfer_count : Z;
}.

(** [address >= start && address < start + count] in [u16]. *)
Definition in_band (start count address : Z) : bool :=
  (start <=? address) && (address <? wrap16 (start + count)).

Definition element_type_from_address (c : ElementAddressConfig) (address : Z) : option ElementType :=
  if address =? transport_start c then Some MediumTransport
  else if in_band (storage_start c) (storage_count c) address then Some StorageElement
  else if in_band (import_export_start c) (import_export_count c) address then Some ImportExport
  else if in_band (data_transfer_start c) (data_transfer_count c) address then Some DataTransfer
  else None.

Definition id_to_address (start id : Z) : Z := wrap16 (start + wrap16 id).
Definition address_to_id (start count address : Z) : option Z :=
  if in_band start count address then Some (address - start) else None.

Definition storage_id_to_address (c : ElementAddressConfig) (id : Z) : Z := id_to_address (storage_start c) id.
Definition address_to_storage_id (c : ElementAddressConfig) (a : Z) : option Z :=
  address_to_id (storage_start c) (storage_count c) a.
Definition mail_id_to_address (c : ElementAddressConfig) (id : Z) : Z := id_to_address (import_export_start c) id.
Definition address_to_mail_id (c : ElementAddressConfig) (a : Z) : option Z :=
  address_to_id (import_export_start c) (import_export_count c) a.
Definition drive_id_to_address (c : ElementAddressConfig) (id : Z) : Z := id_to_address (data_transfer_start c) id.
Definition address_to_drive_id (c : ElementAddressConfig) (a : Z) : option Z :=
  address_to_id (data_transfer_start c) (data_transfer_count c) a.

Local Open Scope thur_scope.

(** [validate_element_address_layout]: each band fits below 65536, no two
    overlap. *)
Definition band (base count : Z) : result (Z * Z) SmcError :=
  let e := base + count in
  if 65536 <? e then Err (LibraryConfig "element range exceeds u16 address space") else Ok (base, e).

Definition bands_overlap (a b : Z * Z) : bool := (fst a <? snd b) && (fst b <? snd a).

Fixpoint no_overlap (l : list (Z * Z)) : bool :=
  match l with
  | [] => true
  | a :: l => negb (existsb (bands_overlap a) l) && no_overlap l
  end.

Definition validate_element_address_layout (transport_base storage_base ns mail_base nm drive_base nd : Z) :
    result unit SmcError :=
  try t := band transport_base 1 in
  try s := band storage_base ns in
  try m := band mail_base nm in
  try d := band drive_base nd in
  if no_overlap [t; s; m; d] then Ok tt else Err (LibraryConfig "element address ranges overlap").

(** ** MOVE MEDIUM on the library *)

Local Open Scope lib_scope.

Definition need {A} (o : option A) (msg : string) : M A := ask (fun _ => ok_or o (InvalidOp msg)).

Definition changer_move_medium (c : ElementAddressConfig) (source destination : Z) : M unit :=
  let! st := need (element_type_from_address c source) "invalid source address" in
  let! dt := need (element_type_from_address c destination) "invalid destination address" in
  match st, dt with
  | StorageElement, DataTransfer =>
      let! sid := need (address_to_storage_id c source) "invalid storage slot" in
      let! did := need (address_to_drive_id c destination) "invalid drive" in
      load_to_drive sid did
  | DataTransfer, StorageElement =>
      let! did := need (address_to_drive_id c source) "invalid drive" in
      let! sid := need (address_to_storage_id c destination) "invalid storage slot" in
      unload_from_drive did sid
  | StorageElement, ImportExport =>
      let! sid := need (address_to_storage_id c source) "invalid storage slot" in
      let! mid := need (address_to_mail_id c destination) "invalid mail slot" in
      export_to_mail sid mid
  | ImportExport, StorageElement =>
      let! mid := need (address_to_mail_id c source) "invalid mail slot" in
      let! sid := need (address_to_storage_id c destination) "invalid storage slot" in
      import_from_mail mid sid
  | StorageElement, StorageElement =>
      let! a := need (address_to_storage_id c source) "invalid source storage slot" in
      let! b := need (address_to_storage_id c destination) "invalid destination storage slot" in
      move_cartridge a b
  | _, _ => throw (InvalidOp "unsupported element type combination for MOVE MEDIUM")
  end.

(** ** The dispatcher *)

(** What the changer asks of the drive manager. *)
Class DriveManager (D : Type) : Type := {
  is_data_transport_prevented : D -> Z -> bool;
  load_cartridge : D -> Z -> Barcode -> D * result unit SmcError;
  unload_cartridge : D -> Z -> D * result unit SmcError;
}.

Inductive Sense : Type :=
  | IllegalRequest (asc ascq : Z)
  | ErrorSense (e : SmcError).

Inductive Status : Type := Good | CheckCondition (sense : option Sense).

(** The reply, with the drive LUNs on which every session gets MEDIUM MAY
    HAVE CHANGED. *)
Record Reply : Type := mkReply { status : Status; ua_luns : list Z }.

Definition check_condition : Reply := mkReply (CheckCondition None) [].
Definition check_sense (s : Sense) : Reply := mkReply (CheckCondition (Some s)) [].

Definition INVALID_ELEMENT_ADDRESS : Sense := IllegalRequest 0x21 0x01.
Definition MEDIUM_REMOVAL_PREVENTED : Sense := IllegalRequest 0x53 0x02.
Definition INVALID_FIELD_IN_CDB : Sense := IllegalRequest 0x24 0x00.

Definition in_partition (c : ElementAddressConfig) (t : LibraryTopology) (part : list Z) (addr : Z)
    (kind : option ElementType) : bool :=
  match kind with
  | Some StorageElement =>
      match address_to_storage_id c addr with
      | Some id => bool_decide (partition_for_storage_slot t id = Some part) | None => false end
  | Some ImportExport =>
      match address_to_mail_id c addr with
      | Some id => bool_decide (partition_for_mail_slot t id = Some part) | None => false end
  | Some DataTransfer =>
      match address_to_drive_id c addr with
      | Some id => bool_decide (partition_for_drive t id = Some part) | None => false end
  | Some MediumTransport => true
  | _ => false
  end.

(** A session without a partition is not fenced. *)
Definition fenced_off (c : ElementAddressConfig) (t : LibraryTopology) (session : option (list Z)) (addrs : list Z) : bool :=
  match session with
  | None => false
  | Some part => negb (forallb (fun a => in_partition c t part a (element_type_from_address c a)) addrs)
  end.

Inductive Mirror : Type :=
  | MirrorLoad (drive_id : Z) (barcode : Barcode) (src_storage : Z)
  | MirrorUnload (drive_id : Z)
  | MirrorNone.

(** Computed under the lock, after the move. *)
Definition mirror_of (c : ElementAddressConfig) (source destination : Z) (l : Library) : Mirror :=
  match element_type_from_address c source, element_type_from_address c destination with
  | Some StorageElement, Some DataTransfer =>
      match address_to_drive_id c destination, address_to_storage_id c source with
      | Some did, Some sid =>
          match get_drive l did ≫= d_barcode with
          | Some b => MirrorLoad did b sid
          | None => MirrorNone
          end
      | _, _ => MirrorNone
      end
  | Some DataTransfer, Some StorageElement =>
      match address_to_drive_id c source with Some did => MirrorUnload did | None => MirrorNone end
  | _, _ => MirrorNone
  end.

Definition drive_at (c : ElementAddressConfig) (a : Z) : list Z :=
  match element_type_from_address c a with
  | Some DataTransfer => option_list (address_to_drive_id c a)
  | _ => []
  end.

(** The drives whose cartridge changed, each once. *)
Definition affected_drives (c : ElementAddressConfig) (source destination : Z) : list Z :=
  let src := drive_at c source in
  src ++ List.filter (fun d => negb (bool_decide (d ∈ src))) (drive_at c destination).

(** [(drive_id as u8) + 1] in [u8]. *)
Definition drive_lun (id : Z) : Z := (id mod 256 + 1) mod 256.

Definition cdb_u16 (cdb : list Z) (i : nat) : Z := be_val (take 2 (drop i cdb)).

Section dispatch.
Context `{DriveManager D}.

(** [Mirror::Load] after a written inventory: a failed load rolls the
    inventory back under a fresh lock. *)
Definition mirror_drive (m : Mirror) (l : Library) (dm : D) : Library * D * result unit SmcError :=
  match m with
  | MirrorLoad did b sid =>
      match load_cartridge dm did b with
      | (dm, Err e) => ((unload_from_drive did sid l).1, dm, Err e)
      | (dm, Ok _) => (l, dm, Ok tt)
      end
  | MirrorUnload did => (l, (unload_cartridge dm did).1, Ok tt)
  | MirrorNone => (l, dm, Ok tt)
  end.

(** The write of the snapshot, if there is one. *)
Definition persist_snapshot (s : option InventorySnapshot) (l : Library) : Library * result unit SmcError :=
  match s with Some s => snap_persist s l | None => (l, Ok tt) end.

Definition handle_move_medium (c : ElementAddressConfig) (session : option (list Z)) (lun : Z)
    (cdb : list Z) (l : Library) (dm : D) : Library * D * Reply :=
  if negb (lun =? 0) then (l, dm, check_condition)
  else
    let source := cdb_u16 cdb 4 in
    let destination := cdb_u16 cdb 6 in
    if fenced_off c (topology l) session [source; destination]
    then (l, dm, check_sense INVALID_ELEMENT_ADDRESS)
    else if existsb (is_data_transport_prevented dm) (drive_at c source)
    then (l, dm, check_sense MEDIUM_REMOVAL_PREVENTED)
    else
      match mutate_deferred (changer_move_medium c source destination) l with
      | (l, Err e) => (l, dm, check_condition)
      | (l, Ok (_, snap)) =>
          let mirror := mirror_of c source destination l in
          match persist_snapshot snap l with
          | (l, Err e) => (l, dm, check_condition)
          | (l, Ok _) =>
              match mirror_drive mirror l dm with
              | (l, dm, Err e) => (l, dm, check_sense (ErrorSense e))
              | (l, dm, Ok _) =>
                  (l, dm, mkReply Good (drive_lun <$> affected_drives c source destination))
              end
          end
      end.

Definition to_exchange_slot (c : ElementAddressConfig) (addr : Z) : option ExchangeSlot :=
  match element_type_from_address c addr with
  | Some StorageElement => Storage <$> address_to_storage_id c addr
  | Some ImportExport => Mail <$> address_to_mail_id c addr
  | _ => None
  end.

Definition is_drive (c : ElementAddressConfig) (addr : Z) : bool :=
  bool_decide (element_type_from_address c addr = Some DataTransfer).

Definition handle_exchange_medium (c : ElementAddressConfig) (session : option (list Z)) (lun : Z)
    (cdb : list Z) (l : Library) : Library * Reply :=
  if negb (lun =? 0) then (l, check_condition)
  else
    let source := cdb_u16 cdb 4 in
    let first_dest := cdb_u16 cdb 6 in
    let second_dest := cdb_u16 cdb 8 in
    if existsb (is_drive c) [source; first_dest; second_dest]
    then (l, check_sense INVALID_FIELD_IN_CDB)
    else if fenced_off c (topology l) session [source; first_dest; second_dest]
    then (l, check_sense INVALID_ELEMENT_ADDRESS)
    else
      match to_exchange_slot c source, to_exchange_slot c first_dest, to_exchange_slot c second_dest with
      | Some a, Some b, Some d =>
          match mutate_deferred (exchange_medium a b d) l with
          | (l, Err e) => (l, check_sense (ErrorSense e))
          | (l, Ok (_, snap)) =>
              match persist_snapshot snap l with
              | (l, Err e) => (l, check_sense (ErrorSense e))
              | (l, Ok _) => (l, mkReply Good [])
              end
          end
      | _, _, _ => (l, check_sense INVALID_ELEMENT_ADDRESS)
      end.
End dispatch.

(** ** Address lemmas *)

Lemma wrap16_small z : 0 <= z < 65536 -> wrap16 z = z.
Proof. intros. unfold wrap16, u16_max. apply Z.mod_small. lia. Qed.

Lemma in_band_iff start count a :
  0 <= start -> 0 <= count -> start + count <= 65535 ->
  in_band start count a = true <-> start <= a < start + count.
Proof.
  intros. unfold in_band. rewrite wrap16_small by lia. rewrite andb_true_iff, Z.leb_le, Z.ltb_lt. lia.
Qed.

Lemma in_band_false start count a :
  0 <= start -> 0 <= count -> start + count <= 65535 ->
  ~ (start <= a < start + count) -> in_band start count a = false.
Proof. intros. apply not_true_iff_false. by rewrite in_band_iff. Qed.

Lemma id_to_address_small start id :
  0 <= start -> 0 <= id -> start + id <= 65535 -> id_to_address start id = start + id.
Proof. intros. unfold id_to_address. by rewrite (wrap16_small id), wrap16_small by lia. Qed.

Lemma address_to_id_small start count a :
  0 <= start -> 0 <= count -> start + count <= 65535 ->
  start <= a < start + count -> address_to_id start count a = Some (a - start).
Proof. intros. unfold address_to_id. by rewrite (proj2 (in_band_iff start count a ltac:(done) ltac:(done) ltac:(done))). Qed.

(** The configuration of a chassis whose layout was validated and whose
    bands end below the last address. *)
Record config_ok (c : ElementAddressConfig) : Prop := {
  co_valid : validate_element_address_layout (transport_start c) (storage_start c) (storage_count c)
    (import_export_start c) (import_export_count c) (data_transfer_start c) (data_transfer_count c) = Ok tt;
  co_transport : 0 <= transport_start c;
  co_storage : 0 <= storage_start c /\ 0 <= storage_count c /\ storage_start c + storage_count c <= 65535;
  co_mail : 0 <= import_export_start c /\ 0 <= import_export_count c /\
    import_export_start c + import_export_count c <= 65535;
  co_drives : 0 <= data_transfer_start c /\ 0 <= data_transfer_count c /\
    data_transfer_start c + data_transfer_count c <= 65535;
}.

Lemma band_ok base count b : band base count = Ok b <-> b = (base, base + count) /\ base + count <= 65536.
Proof. unfold band. destruct (Z.ltb_spec 65536 (base + count)); naive_solver lia. Qed.

Lemma bands_overlap_false a b : bands_overlap a b = false -> forall x, ~ (a.1 <= x < a.2 /\ b.1 <= x < b.2).
Proof. unfold bands_overlap. rewrite andb_false_iff, !Z.ltb_ge. lia. Qed.

Definition in_storage (c : ElementAddressConfig) (a : Z) : Prop :=
  storage_start c <= a < storage_start c + storage_count c.
Definition in_mail (c : ElementAddressConfig) (a : Z) : Prop :=
  import_export_start c <= a < import_export_start c + import_export_count c.
Definition in_drives (c : ElementAddressConfig) (a : Z) : Prop :=
  data_transfer_start c <= a < data_transfer_start c + data_transfer_count c.

#[export] Instance in_storage_dec c a : Decision (in_storage c a).
Proof. unfold in_storage. apply _. Defined.
#[export] Instance in_mail_dec c a : Decision (in_mail c a).
Proof. unfold in_mail. apply _. Defined.
#[export] Instance in_drives_dec c a : Decision (in_drives c a).
Proof. unfold in_drives. apply _. Defined.

(** No address lies in two bands. *)
Lemma config_disjoint c a :
  config_ok c ->
  (a = transport_start c -> ~ in_storage c a /\ ~ in_mail c a /\ ~ in_drives c a) /\
  (in_storage c a -> ~ in_mail c a /\ ~ in_drives c a) /\ (in_mail c a -> ~ in_drives c a).
Proof.
  intros [Hv _ _ _ _]. unfold validate_element_address_layout in Hv.
  apply result_bind_ok in Hv as (t & [-> _]%band_ok & Hv). apply result_bind_ok in Hv as (s & [-> _]%band_ok & Hv1).
  apply result_bind_ok in Hv1 as (m & [-> _]%band_ok & Hv2). apply result_bind_ok in Hv2 as (d & [-> _]%band_ok & Hv3).
  destruct (no_overlap _) eqn:Ho; [|done]. simpl in Ho. rewrite !orb_false_r in Ho.
  repeat match goal with
    | H : _ && _ = true |- _ => apply andb_true_iff in H as [? ?]
    | H : negb _ = true |- _ => apply negb_true_iff in H
    | H : _ || _ = false |- _ => apply orb_false_iff in H as [? ?]
    | H : bands_overlap _ _ = false |- _ => apply (fun E => bands_overlap_false _ _ E a) in H; simpl in H
    end.
  unfold in_storage, in_mail, in_drives. lia.
Qed.

(** Addresses and element types correspond. *)
Lemma element_type_spec c a :
  config_ok c ->
  element_type_from_address c a =
    if decide (a = transport_start c) then Some MediumTransport
    else if decide (in_storage c a) then Some StorageElement
    else if decide (in_mail c a) then Some ImportExport
    else if decide (in_drives c a) then Some DataTransfer else None.
Proof.
  intros [_ _ (? & ? & ?) (? & ? & ?) (? & ? & ?)]. unfold element_type_from_address.
  destruct (Z.eqb_spec a (transport_start c)); [by rewrite decide_True|rewrite decide_False by done].
  assert (forall s k P `{Decision P}, 0 <= s -> 0 <= k -> s + k <= 65535 -> (P <-> s <= a < s + k) ->
    in_band s k a = bool_decide P) as Hb.
  { intros s k P ? ? ? ? HP. apply eq_true_iff_eq. rewrite bool_decide_eq_true, HP. by apply in_band_iff. }
  rewrite (Hb _ _ (in_storage c a) _), (Hb _ _ (in_mail c a) _), (Hb _ _ (in_drives c a) _) by done.
  by repeat case_bool_decide; repeat case_decide.
Qed.

(** The bands of one type, as the conversions see them. *)
Lemma band_roundtrip start count id :
  0 <= start -> 0 <= count -> start + count <= 65535 -> 0 <= id < count ->
  id_to_address start id = start + id /\ address_to_id start count (id_to_address start id) = Some id.
Proof.
  intros. rewrite id_to_address_small by lia. split; [done|].
  rewrite address_to_id_small by lia. f_equal. lia.
Qed.

(** On a chassis whose address layout was validated and whose bands end
    below 65536, element addresses are a bijection: every slot, mail slot
    and drive id has an address that is classified as its type and converts
    back to the id, and every address classified as a type is the address of
    exactly the id it converts to. *)
Theorem element_addresses_bijective (c : ElementAddressConfig) :
  config_ok c ->
  (forall id, 0 <= id < storage_count c ->
     element_type_from_address c (storage_id_to_address c id) = Some StorageElement /\
     address_to_storage_id c (storage_id_to_address c id) = Some id) /\
  (forall id, 0 <= id < import_export_count c ->
     element_type_from_address c (mail_id_to_address c id) = Some ImportExport /\
     address_to_mail_id c (mail_id_to_address c id) = Some id) /\
  (forall id, 0 <= id < data_transfer_count c ->
     element_type_from_address c (drive_id_to_address c id) = Some DataTransfer /\
     address_to_drive_id c (drive_id_to_address c id) = Some id) /\
  (forall a, match element_type_from_address c a with
     | Some StorageElement => exists id, address_to_storage_id c a = Some id /\ storage_id_to_address c id = a
     | Some ImportExport => exists id, address_to_mail_id c a = Some id /\ mail_id_to_address c id = a
     | Some DataTransfer => exists id, address_to_drive_id c a = Some id /\ drive_id_to_address c id = a
     | Some MediumTransport => a = transport_start c
     | Some AllElements => False
     | None => address_to_storage_id c a = None /\ address_to_mail_id c a = None /\ address_to_drive_id c a = None
     end).
Proof.
  intros Hc. pose proof Hc as [_ _ (? & ? & ?) (? & ? & ?) (? & ? & ?)].
  unfold storage_id_to_address, mail_id_to_address, drive_id_to_address,
    address_to_storage_id, address_to_mail_id, address_to_drive_id. split_and!.
  - intros id ?. destruct (band_roundtrip (storage_start c) (storage_count c) id) as [-> ?]; auto.
    split; [|done]. rewrite element_type_spec by done.
    pose proof (config_disjoint c (storage_start c + id) Hc). unfold in_storage, in_mail, in_drives in *.
    repeat case_decide; naive_solver lia.
  - intros id ?. destruct (band_roundtrip (import_export_start c) (import_export_count c) id) as [-> ?]; auto.
    split; [|done]. rewrite element_type_spec by done.
    pose proof (config_disjoint c (import_export_start c + id) Hc). unfold in_storage, in_mail, in_drives in *.
    repeat case_decide; naive_solver lia.
  - intros id ?. destruct (band_roundtrip (data_transfer_start c) (data_transfer_count c) id) as [-> ?]; auto.
    split; [|done]. rewrite element_type_spec by done.
    pose proof (config_disjoint c (data_transfer_start c + id) Hc). unfold in_storage, in_mail, in_drives in *.
    repeat case_decide; naive_solver lia.
  - intros a. rewrite element_type_spec by done. unfold in_storage, in_mail, in_drives.
    repeat case_decide; try done;
      try (eexists; rewrite address_to_id_small by lia; split; [done|]; rewrite id_to_address_small; lia).
    unfold address_to_id. rewrite !in_band_false by lia. done.
Qed.
