(* ===== verification/ChangerProofs.v ===== *)
(** * MOVE MEDIUM is fenced and atomic

    The dispatcher's MOVE MEDIUM, from the CDB to the reply: a session bound
    to a partition cannot change an element of another partition, a command
    that does not report GOOD leaves every element as it was (the rollback of
    a failed drive load included), and a GOOD move is in [inventory.json].
    Two limits are shown as well: a failed inventory write, and a band that
    ends at the last address. *)

From Stdlib Require Import String.
From stdpp Require Import list sorting.
From S2P Require Import Prelude Bytes IndexCodec Library LibraryProofs LibraryHistory Partitions Changer.

Local Open Scope Z_scope.

(** The element at an address. *)
Definition elem_at (c : ElementAddressConfig) (a : Z) : option Elem :=
  match element_type_from_address c a with
  | Some StorageElement => ESlot <$> address_to_storage_id c a
  | Some ImportExport => EMail <$> address_to_mail_id c a
  | Some DataTransfer => EDrive <$> address_to_drive_id c a
  | _ => None
  end.

(** The partition that owns an element. *)
Definition owner (t : LibraryTopology) (e : Elem) : option (list Z) :=
  match e with
  | ESlot id => partition_for_storage_slot t id
  | EMail id => partition_for_mail_slot t id
  | EDrive id => partition_for_drive t id
  end.

Lemma changer_move_cases c a b l :
  (exists msg, changer_move_medium c a b l = (l, Err (InvalidOp msg))) \/
  (exists v s d, changer_move_medium c a b l = run_verb v l /\ ends v = Some (s, d) /\
     elem_at c a = Some s /\ elem_at c b = Some d).
Proof.
  unfold changer_move_medium, elem_at, need, ask, throw, bind.
  destruct (element_type_from_address c a) as [[]|]; simpl; try (left; by eauto);
    destruct (element_type_from_address c b) as [[]|]; simpl; try (left; by eauto);
    repeat match goal with
      | |- context [ok_or (address_to_storage_id c ?x) _] => destruct (address_to_storage_id c x); simpl; try (left; by eauto)
      | |- context [ok_or (address_to_mail_id c ?x) _] => destruct (address_to_mail_id c x); simpl; try (left; by eauto)
      | |- context [ok_or (address_to_drive_id c ?x) _] => destruct (address_to_drive_id c x); simpl; try (left; by eauto)
      end; right.
  - by eexists (VMove _ _), _, _.
  - by eexists (VExport _ _), _, _.
  - by eexists (VLoad _ _), _, _.
  - by eexists (VImport _ _), _, _.
  - by eexists (VUnload _ _), _, _.
Qed.

(** The command under the lock: refused without effect, or one move with a
    snapshot of the result. *)
Definition lock_refused (l l' : Library) : Prop :=
  inventory l' = inventory l /\ persister l' = persister l /\ topology l' = topology l.

Record lock_moved (c : ElementAddressConfig) (a b : Z) (l l' : Library) (snap : InventorySnapshot)
    (s d : Elem) (bc : Barcode) (home : option Z) : Prop := {
  lm_src : elem_at c a = Some s;
  lm_dst : elem_at c b = Some d;
  lm_movable : movable (inventory l) s d bc;
  lm_inventory : inventory l' = moved s d bc home (inventory l);
  lm_snap : snap = mkSnap (persist_version l + 1) (inventory l');
  lm_version : persist_version l' = persist_version l + 1;
  lm_idle : persist_deferred l' = false;
  lm_rest : persister l' = persister l /\ topology l' = topology l;
}.

Lemma mutate_deferred_move c a b l l' r :
  inventory_wf (inventory l) ->
  mutate_deferred (changer_move_medium c a b) l = (l', r) ->
  (exists e, r = Err e /\ lock_refused l l') \/
  (exists snap s d bc home, r = Ok (tt, Some snap) /\ lock_moved c a b l l' snap s d bc home).
Proof.
  intros Hwf. unfold mutate_deferred. set (l1 := set_pending false (set_deferred true l)).
  destruct (changer_move_cases c a b l1) as [(msg & ->)|(v & s & d & -> & He & Ha & Hb)].
  { intros. simplify_eq. left. by eexists. }
  destruct (run_verb_transfers v s d l1 Hwf He) as [home [(msg & -> & _)|(bc & Hm & ->)]].
  { intros. simplify_eq. left. by eexists. }
  intros H. right. unfold persist in H. simpl in H. simplify_eq.
  by exists (mkSnap (persist_version l + 1) (moved s d bc home (inventory l))), s, d, bc, home.
Qed.

Lemma snap_persist_inventory s l : inventory (snap_persist s l).1 = inventory l.
Proof. unfold snap_persist. by destruct (write_if_newer _ _ _). Qed.

(** Which elements the mirror and its rollback may touch. *)
Lemma mirror_of_load c a b l did bc sid :
  mirror_of c a b l = MirrorLoad did bc sid ->
  elem_at c a = Some (ESlot sid) /\ elem_at c b = Some (EDrive did) /\ (get_drive l did ≫= d_barcode) = Some bc.
Proof.
  unfold mirror_of, elem_at. destruct (element_type_from_address c a) as [[]|]; try done;
    destruct (element_type_from_address c b) as [[]|]; try done; intros; case_all; naive_solver.
Qed.

(** The rollback undoes the move, element by element. *)
Lemma rollback_undoes i l sid did bc home :
  inventory_wf i -> movable i (ESlot sid) (EDrive did) bc ->
  inventory l = moved (ESlot sid) (EDrive did) bc home i ->
  let l' := (unload_from_drive did sid l).1 in
  inventory_wf (inventory l') /\ media (inventory l') ≡ₚ media i /\ forall e, holds (inventory l') e = holds i e.
Proof.
  intros Hwf Hm Hl. assert (inventory_wf (inventory l)) as Hwf1 by (rewrite Hl; by apply wf_moved).
  assert (movable (inventory l) (EDrive did) (ESlot sid) bc) as Hm'.
  { rewrite Hl. unfold movable. rewrite !holds_moved by done. destruct Hm as (_ & Hs%holds_present & _).
    unfold moved. rewrite !present_put. by repeat case_decide. }
  destruct (unload_from_drive_transfers did sid l Hwf1) as [(? & _ & Hn)|(b & Hb & ->)]; [by destruct (Hn bc)|].
  cbv zeta. rewrite !persist_inventory. cbn [inventory set_inventory].
  assert (b = bc) as -> by (destruct Hb as (_ & ? & _), Hm' as (_ & ? & _); congruence).
  split_and!; [by apply wf_moved|by rewrite media_moved, Hl, media_moved|].
  intros e. rewrite holds_moved, Hl, holds_moved by done. destruct Hm as (_ & ? & _ & ?).
  by repeat case_decide; simplify_eq.
Qed.

(** ** The whole command *)

Section move.
Context `{DriveManager D}.
Context (c : ElementAddressConfig) (session : option (list Z)) (cdb : list Z) (l : Library) (dm : D).
Hypothesis Hwf : inventory_wf (inventory l).

Definition src_addr : Z := cdb_u16 cdb 4.
Definition dst_addr : Z := cdb_u16 cdb 6.

(** The four ways the command can leave the inventory. *)
Inductive move_outcome (l' : Library) (rep : Reply) : Prop :=
  | MORefused : inventory l' = inventory l -> status rep <> Good -> move_outcome l' rep
  | MOUnwritten l1 snap s d bc home :
      lock_moved c src_addr dst_addr l l1 snap s d bc home ->
      (snap_persist snap l1).2 <> Ok tt -> inventory l' = inventory l1 -> status rep <> Good ->
      move_outcome l' rep
  | MORolledBack l1 snap sid did bc home l2 :
      lock_moved c src_addr dst_addr l l1 snap (ESlot sid) (EDrive did) bc home ->
      inventory l2 = inventory l1 -> l' = (unload_from_drive did sid l2).1 -> status rep <> Good ->
      move_outcome l' rep
  | MODone l1 snap s d bc home :
      lock_moved c src_addr dst_addr l l1 snap s d bc home ->
      snap_persist snap l1 = (l', Ok tt) ->
      rep = mkReply Good (drive_lun <$> affected_drives c src_addr dst_addr) -> move_outcome l' rep.

Lemma handle_move_medium_outcome lun l' dm' rep :
  handle_move_medium c session lun cdb l dm = (l', dm', rep) -> move_outcome l' rep.
Proof.
  unfold handle_move_medium. destruct (negb (lun =? 0)); [intros; simplify_eq; by apply MORefused|].
  fold src_addr dst_addr. destruct (fenced_off _ _ _ _); [intros; simplify_eq; by apply MORefused|].
  destruct (existsb _ _); [intros; simplify_eq; by apply MORefused|].
  destruct (mutate_deferred _ l) as [l1 r] eqn:Hmut.
  destruct (mutate_deferred_move _ _ _ _ _ _ Hwf Hmut) as [(e & -> & Hr & _)|(snap & s & d & bc & home & -> & Hmv)].
  { intros; simplify_eq. by apply MORefused. }
  simpl. destruct (snap_persist snap l1) as [l2 r2] eqn:Hp.
  assert (inventory l2 = inventory l1) as Hi2 by (rewrite <- (snap_persist_inventory snap l1); by rewrite Hp).
  destruct r2 as [[]|e].
  2:{ intros; simplify_eq. eapply MOUnwritten; [done| |done|done]. by rewrite Hp. }
  destruct (mirror_of c src_addr dst_addr l1) as [did b sid|did|] eqn:Hmir; simpl;
    [|intros; simplify_eq; by eapply MODone..].
  destruct (load_cartridge dm did b) as [dm1 [[]|e]]; intros; simplify_eq; [by eapply MODone|].
  destruct (mirror_of_load _ _ _ _ _ _ _ Hmir) as (Ha & Hb & _).
  pose proof Hmv as [Ha' Hb' _ _ _ _ _ _]. simplify_eq. by eapply MORolledBack.
Qed.
End move.

(** ** The fence *)

Lemma in_partition_owner c t part a e :
  in_partition c t part a (element_type_from_address c a) = true -> elem_at c a = Some e -> owner t e = Some part.
Proof.
  unfold in_partition, elem_at. destruct (element_type_from_address c a) as [[]|]; intros; case_all; by bool_to_prop.
Qed.

Lemma fence_owner c t part a b s d :
  fenced_off c t (Some part) [a; b] = false -> elem_at c a = Some s -> elem_at c b = Some d ->
  owner t s = Some part /\ owner t d = Some part.
Proof.
  simpl. rewrite negb_false_iff, !andb_true_iff. intros (? & ? & _) ? ?. eauto using in_partition_owner.
Qed.

(** C15: MOVE MEDIUM from a session bound to a partition, whatever the CDB,
    the drive manager and the disk do, changes no element owned by another
    partition or by none, loses no cartridge and keeps the inventory
    invariant, also when the move is rolled back or its write fails. *)
Theorem move_medium_fenced `{DriveManager D} (c : ElementAddressConfig) (part : list Z) (lun : Z) (cdb : list Z)
    (l l' : Library) (dm dm' : D) (rep : Reply) :
  inventory_wf (inventory l) ->
  handle_move_medium c (Some part) lun cdb l dm = (l', dm', rep) ->
  inventory_wf (inventory l') /\ media (inventory l') ≡ₚ media (inventory l) /\
  forall e, owner (topology l) e <> Some part -> holds (inventory l') e = holds (inventory l) e.
Proof.
  intros Hwf Hh. pose proof (handle_move_medium_outcome c _ cdb l dm Hwf lun l' dm' rep Hh) as Ho.
  assert (inventory l' = inventory l \/ fenced_off c (topology l) (Some part) [src_addr cdb; dst_addr cdb] = false)
    as [Hl|Hf].
  { unfold handle_move_medium in Hh. destruct (negb (lun =? 0)); simplify_eq; [by left|].
    unfold src_addr, dst_addr. destruct (fenced_off _ _ _ _); simplify_eq; [by left|by right]. }
  { by rewrite Hl. }
  assert (forall s d l1 snap bc home, lock_moved c (src_addr cdb) (dst_addr cdb) l l1 snap s d bc home ->
    inventory_wf (inventory l1) /\ media (inventory l1) ≡ₚ media (inventory l) /\
    forall e, owner (topology l) e <> Some part -> holds (inventory l1) e = holds (inventory l) e) as Hmv.
  { intros s d l1 snap bc home [Ha Hb Hm Hi _ _ _ _]. rewrite Hi.
    destruct (fence_owner _ _ _ _ _ _ _ Hf Ha Hb) as [Os Od].
    split_and!; [by apply wf_moved|by apply media_moved|]. intros e He. rewrite holds_moved by done.
    by repeat case_decide; simplify_eq. }
  destruct Ho as [Hi _|l1 snap s d bc home Hm _ Hi _|l1 snap sid did bc home l2 Hm Hi -> _|l1 snap s d bc home Hm Hp _].
  - by rewrite Hi.
  - rewrite Hi. by eapply Hmv.
  - destruct Hm as [_ _ Hmov Hi1 _ _ _ _].
    destruct (rollback_undoes (inventory l) l2 sid did bc home) as (? & ? & ?); [done|done|by rewrite Hi, Hi1|].
    by split_and!.
  - pose proof (snap_persist_inventory snap l1) as Hi. rewrite Hp in Hi. simpl in Hi. rewrite Hi. by eapply Hmv.
Qed.

(** ** Atomicity *)

Lemma drive_at_elem c a id : elem_at c a = Some (EDrive id) -> drive_at c a = [id].
Proof.
  unfold elem_at, drive_at. destruct (element_type_from_address c a) as [[]|]; try done;
    intros (x & Hx & ?)%fmap_Some; simplify_eq; by rewrite Hx.
Qed.

Lemma affected_in c a b id :
  elem_at c a = Some (EDrive id) \/ elem_at c b = Some (EDrive id) -> id ∈ affected_drives c a b.
Proof.
  unfold affected_drives. rewrite elem_of_app. intros [Ha|Hb]; [left; rewrite (drive_at_elem _ _ _ Ha); set_solver|].
  rewrite (drive_at_elem _ _ _ Hb). destruct (decide (id ∈ drive_at c a)); [by left|right].
  simpl. rewrite bool_decide_false by done. simpl. set_solver.
Qed.

(** C14: With a disk that accepts the write, MOVE MEDIUM is atomic.  A reply
    other than GOOD leaves the cartridge of every element as it was, and
    this includes a load the drive refused after the inventory was moved and
    written.  A GOOD reply means the cartridge at the source address is now
    at the destination address and nothing else moved, [inventory.json] is
    the inventory in memory, and every drive whose cartridge changed is
    named in the unit attentions. *)
Theorem move_medium_atomic `{DriveManager D} (c : ElementAddressConfig) (session : option (list Z)) (lun : Z)
    (cdb : list Z) (l l' : Library) (dm dm' : D) (rep : Reply) :
  inventory_wf (inventory l) -> disk_ok (persister l) = true -> last_written (persister l) <= persist_version l ->
  handle_move_medium c session lun cdb l dm = (l', dm', rep) ->
  match status rep with
  | CheckCondition _ => forall e, holds (inventory l') e = holds (inventory l) e
  | Good =>
      exists s d bc, elem_at c (src_addr cdb) = Some s /\ elem_at c (dst_addr cdb) = Some d /\
        movable (inventory l) s d bc /\
        (forall e, holds (inventory l') e =
           if decide (e = d) then Some bc else if decide (e = s) then None else holds (inventory l) e) /\
        inventory_json (persister l') = inventory l' /\
        forall id, holds (inventory l') (EDrive id) <> holds (inventory l) (EDrive id) -> drive_lun id ∈ ua_luns rep
  end.
Proof.
  intros Hwf Hd Hv Hh. pose proof (handle_move_medium_outcome c _ cdb l dm Hwf lun l' dm' rep Hh) as Ho.
  destruct Ho as [Hi Hs|l1 snap s d bc home Hm Hp Hi Hs|l1 snap sid did bc home l2 Hm Hi -> Hs|l1 snap s d bc home Hm Hp ->].
  - destruct (status rep); [done|]. by rewrite Hi.
  - destruct Hm as [_ _ _ _ -> _ _ [Hpe _]]. destruct Hp.
    unfold snap_persist, write_if_newer. simpl. rewrite Hpe, (proj2 (Z.leb_gt _ _)) by lia. by rewrite Hd.
  - destruct Hm as [_ _ Hmov Hi1 _ _ _ _]. destruct (status rep); [done|].
    destruct (rollback_undoes (inventory l) l2 sid did bc home) as (? & ? & ?); [done|done|by rewrite Hi, Hi1|done].
  - destruct Hm as [Ha Hb Hmov Hi1 -> _ _ [Hpe _]].
    unfold snap_persist, write_if_newer in Hp. simpl in Hp.
    rewrite Hpe, (proj2 (Z.leb_gt _ _)), Hd in Hp by lia. injection Hp as <-. cbn [status].
    exists s, d, bc. cbn [inventory set_persister persister inventory_json ua_luns]. rewrite Hi1. split_and!; try done; [intros; by apply holds_moved|].
    intros id. rewrite holds_moved by done. intros Hne. apply list_elem_of_fmap. exists id. split; [done|].
    apply affected_in. repeat case_decide; subst; auto. done.
Qed.

(** ** EXCHANGE MEDIUM *)

Lemma to_exchange_slot_elem c a s : to_exchange_slot c a = Some s -> elem_at c a = Some (slot_elem s).
Proof.
  unfold to_exchange_slot, elem_at. destruct (element_type_from_address c a) as [[]|]; try done;
    intros (x & Hx & ->)%fmap_Some; by rewrite Hx.
Qed.

(** The exchange under the lock. *)
Lemma mutate_deferred_exchange a b d l l' r :
  inventory_wf (inventory l) -> mutate_deferred (exchange_medium a b d) l = (l', r) ->
  inventory l' = inventory l \/
  exists x y, exchangeable (inventory l) (slot_elem a) (slot_elem b) (slot_elem d) x y /\
    inventory l' = exchanged (slot_elem a) (slot_elem b) (slot_elem d) x y (inventory l).
Proof.
  intros Hwf. unfold mutate_deferred. set (l1 := set_pending false (set_deferred true l)).
  destruct (exchange_medium_outcome a b d l1 Hwf) as [(msg & -> & _)|(x & y & He & ->)].
  { intros. simplify_eq. by left. }
  intros Hr. right. exists x, y. unfold persist in Hr. simpl in Hr. by simplify_eq.
Qed.

Lemma persist_snapshot_inventory s l : inventory (persist_snapshot s l).1 = inventory l.
Proof. destruct s; simpl; [apply snap_persist_inventory|done]. Qed.

(** EXCHANGE MEDIUM touches no drive, from any session; from a session
    bound to a partition it changes no element owned by another partition or
    by none.  It loses no cartridge and keeps the inventory invariant
    whatever the disk does. *)
Theorem exchange_medium_fenced (c : ElementAddressConfig) (session : option (list Z)) (lun : Z) (cdb : list Z)
    (l l' : Library) (rep : Reply) :
  inventory_wf (inventory l) -> handle_exchange_medium c session lun cdb l = (l', rep) ->
  inventory_wf (inventory l') /\ media (inventory l') ≡ₚ media (inventory l) /\
  (forall id, holds (inventory l') (EDrive id) = holds (inventory l) (EDrive id)) /\
  forall part e, session = Some part -> owner (topology l) e <> Some part ->
    holds (inventory l') e = holds (inventory l) e.
Proof.
  intros Hwf. unfold handle_exchange_medium.
  set (a := cdb_u16 cdb 4). set (b := cdb_u16 cdb 6). set (d := cdb_u16 cdb 8).
  destruct (negb (lun =? 0)); [intros; by simplify_eq|].
  destruct (existsb _ _); [intros; by simplify_eq|].
  destruct (fenced_off c (topology l) session [a; b; d]) eqn:Hf; [intros; by simplify_eq|].
  destruct (to_exchange_slot c a) as [sa|] eqn:Ea; [|intros; by simplify_eq].
  destruct (to_exchange_slot c b) as [sb|] eqn:Eb; [|intros; by simplify_eq].
  destruct (to_exchange_slot c d) as [sd|] eqn:Ed; [|intros; by simplify_eq].
  destruct (mutate_deferred (exchange_medium sa sb sd) l) as [l1 r] eqn:Hm. intros Hh.
  assert (inventory l' = inventory l1) as Hi.
  { destruct r as [[[] snap]|e]; [|by simplify_eq].
    pose proof (persist_snapshot_inventory snap l1) as Hp. destruct (persist_snapshot snap l1) as [l2 [[]|e]]; by simplify_eq. }
  rewrite Hi. destruct (mutate_deferred_exchange _ _ _ _ _ _ Hwf Hm) as [->|(x & y & Hx & ->)]; [done|].
  split_and!; [by apply wf_exchanged|by apply media_exchanged| |].
  - intros id. rewrite holds_exchanged by done. destruct sa, sb, sd; by repeat case_decide.
  - intros part e -> He. simpl in Hf. rewrite negb_false_iff, !andb_true_iff in Hf. destruct Hf as (Fa & Fb & Fd & _).
    apply to_exchange_slot_elem in Ea, Eb, Ed.
    pose proof (in_partition_owner _ _ _ _ _ Fa Ea). pose proof (in_partition_owner _ _ _ _ _ Fb Eb).
    pose proof (in_partition_owner _ _ _ _ _ Fd Ed). rewrite holds_exchanged by done. by repeat case_decide; subst.
Qed.

(** While any session prevents the removal of a drive's medium, MOVE
    MEDIUM out of that drive never succeeds and changes neither the library
    nor the drive manager. *)
Theorem prevented_drive_keeps_medium `{DriveManager D} (c : ElementAddressConfig) (session : option (list Z))
    (lun : Z) (cdb : list Z) (l l' : Library) (dm dm' : D) (rep : Reply) (id : Z) :
  elem_at c (src_addr cdb) = Some (EDrive id) -> is_data_transport_prevented dm id = true ->
  handle_move_medium c session lun cdb l dm = (l', dm', rep) ->
  l' = l /\ dm' = dm /\ status rep <> Good.
Proof.
  intros Hs Hp. unfold handle_move_medium. destruct (negb (lun =? 0)); [intros; by simplify_eq|].
  destruct (fenced_off _ _ _ _); [intros; by simplify_eq|].
  fold (src_addr cdb). rewrite (drive_at_elem _ _ _ Hs). cbn [existsb]. rewrite Hp. cbn [orb]. intros; by simplify_eq.
Qed.

(** ** A concrete changer *)

(** Drives by id: the cartridge in each, and whether its removal is
    prevented; loading the barcode [[0]] fails. *)
#[export] Instance demo_drives : DriveManager (list (Z * Barcode) * list Z) := {|
  is_data_transport_prevented dm id := bool_decide (id ∈ dm.2);
  load_cartridge dm id b :=
    if bool_decide (b = [0]) then (dm, Err StorageError) else (((id, b) :: dm.1, dm.2), Ok tt);
  unload_cartridge dm id := ((List.filter (fun x => negb (x.1 =? id)) dm.1, dm.2), Ok tt);
|}.

Definition demo_config : ElementAddressConfig := mkConfig 0 1001 3 101 1 1 2.

Definition demo_library (bc : Barcode) (ok : bool) : Library :=
  let i := mkInv 1 [mkSlot 0 (Some bc) true; mkSlot 1 None false; mkSlot 2 None false]
             [mkMail 0 None false true] [mkDrive 0 None false None None; mkDrive 1 None false None None] in
  mkLib (mkTopo 3 1 2 9 demo_partitions) i 0 false false (mkPersister 0 i ok).

(** MOVE MEDIUM of slot 0 to the drive with id 1, and back. *)
Definition demo_load_cdb : list Z := [0xA5; 0; 0; 0; 0x03; 0xE9; 0; 2; 0; 0; 0; 0].
Definition demo_unload_cdb : list Z := [0xA5; 0; 0; 0; 0; 2; 0x03; 0xE9; 0; 0; 0; 0].

Lemma demo_library_wf bc ok : inventory_wf (inventory (demo_library bc ok)).
Proof.
  split_and!; repeat (apply Forall_cons; split; [unfold element_wf; simpl; split; [by eauto|by intros [? ?]]|]); constructor.
Qed.

Lemma demo_config_ok : config_ok demo_config.
Proof. split; [reflexivity|simpl; lia..]. Qed.

Lemma element_addresses_bijective_witness :
  address_to_storage_id demo_config (storage_id_to_address demo_config 2) = Some 2.
Proof. apply (element_addresses_bijective demo_config demo_config_ok). simpl. lia. Defined.

Lemma move_medium_fenced_witness :
  let l' := (handle_move_medium demo_config (Some [97]) 0 demo_load_cdb (demo_library [65] true) ([], [])).1.1 in
  media (inventory l') ≡ₚ [[65]] /\ holds (inventory l') (EDrive 1) = Some [65].
Proof.
  cbv zeta. destruct (handle_move_medium demo_config (Some [97]) 0 demo_load_cdb (demo_library [65] true) ([], []))
    as [[l' dm'] rep] eqn:E.
  split; [|vm_compute in E; injection E as <- _ _; reflexivity].
  exact (proj1 (proj2 (move_medium_fenced demo_config [97] 0 demo_load_cdb (demo_library [65] true) l' ([], []) dm' rep
    (demo_library_wf _ _) E))).
Defined.

(** The drive refuses the cartridge: the inventory is as before. *)
Lemma move_medium_atomic_witness :
  let '(l', _, rep) := handle_move_medium demo_config None 0 demo_load_cdb (demo_library [0] true) ([], []) in
  status rep = CheckCondition (Some (ErrorSense StorageError)) /\
  holds (inventory l') (ESlot 0) = Some [0] /\ holds (inventory l') (EDrive 1) = None.
Proof.
  destruct (handle_move_medium demo_config None 0 demo_load_cdb (demo_library [0] true) ([], []))
    as [[l' dm'] rep] eqn:E.
  pose proof (move_medium_atomic demo_config None 0 demo_load_cdb (demo_library [0] true) l' ([], []) dm' rep
    (demo_library_wf _ _) eq_refl (Z.le_refl 0) E) as H.
  assert (status rep = CheckCondition (Some (ErrorSense StorageError))) as Hs
    by (vm_compute in E; injection E as _ _ <-; reflexivity).
  rewrite Hs in H. split; [done|]. split; [exact (H (ESlot 0))|exact (H (EDrive 1))].
Defined.

Lemma exchange_medium_fenced_witness :
  let l' := (handle_exchange_medium demo_config None 0 demo_load_cdb (demo_library [65] true)).1 in
  holds (inventory l') (EDrive 1) = None.
Proof.
  cbv zeta. destruct (handle_exchange_medium demo_config None 0 demo_load_cdb (demo_library [65] true))
    as [l' rep] eqn:E.
  exact (proj1 (proj2 (proj2 (exchange_medium_fenced demo_config None 0 demo_load_cdb (demo_library [65] true) l' rep
    (demo_library_wf _ _) E))) 1).
Defined.

Lemma prevented_drive_keeps_medium_witness :
  let out := handle_move_medium demo_config None 0 demo_unload_cdb (demo_library [65] true) ([], [1]) in
  out.1.1 = demo_library [65] true.
Proof.
  cbv zeta. destruct (handle_move_medium demo_config None 0 demo_unload_cdb (demo_library [65] true) ([], [1]))
    as [[l' dm'] rep] eqn:E.
  exact (proj1 (prevented_drive_keeps_medium demo_config None 0 demo_unload_cdb (demo_library [65] true) l'
    ([], [1]) dm' rep 1 eq_refl eq_refl E)).
Defined.

(** ** Two limits *)

(** When the inventory write of a load fails, MOVE MEDIUM reports CHECK
    CONDITION and leaves the drive manager alone, but the cartridge stays in
    the drive in memory: library and drive disagree, and the slot it came
    from reads as empty. *)
Theorem failed_write_leaves_move :
  let '(l', dm', rep) := handle_move_medium demo_config None 0 demo_load_cdb (demo_library [65] false) ([], []) in
  status rep = CheckCondition None /\ dm' = ([], []) /\
  holds (inventory l') (EDrive 1) = Some [65] /\ holds (inventory l') (ESlot 0) = None /\
  inventory_json (persister l') = inventory (demo_library [65] false).
Proof. vm_compute. done. Qed.

(** A layout whose storage band ends at address 65535, which validation
    accepts, has no reachable slot: the exclusive end of the band wraps to 0,
    so no address at all is taken for a storage element. *)
Theorem top_band_unreachable :
  validate_element_address_layout 0 1001 64535 101 5 1 3 = Ok tt /\
  let c := mkConfig 0 1001 64535 101 5 1 3 in
  forall a, address_to_storage_id c a = None /\ element_type_from_address c a <> Some StorageElement.
Proof.
  split; [reflexivity|]. intros c a.
  assert (in_band (storage_start c) (storage_count c) a = false) as Hb.
  { unfold in_band. simpl. change (wrap16 (1001 + 64535)) with 0.
    apply andb_false_iff. rewrite Z.leb_gt, Z.ltb_ge. lia. }
  unfold address_to_storage_id, address_to_id, element_type_from_address. rewrite Hb. split; [done|].
  by repeat case_match.
Qed.
