(* ===== verification/ElementStatus.v ===== *)
(** * READ ELEMENT STATUS ([scsi/smc/src/changer.rs])

    The response of READ ELEMENT STATUS: the element status header, one page
    per element type and one fixed-length descriptor per element, with the
    volume-tag, device-identifier and mixed-media extensions.  The theorems:
    the response parses back to the elements that were asked for, and a type-0
    request returns the first [count] elements at or above the start. *)

From stdpp Require Import list.
From S2P Require Import Prelude Bytes IndexCodec Library LibraryProofs LibraryHistory Partitions Changer ChangerProofs.

Local Open Scope Z_scope.

Record ReadElementStatusOpts : Type := mkOpts {
  voltag : bool;
  dvcid : bool;
  mixed : bool;
  opt_lto_generation : Z;
}.

(** ** Pieces of a descriptor *)

(** The last two bytes of a barcode that has them. *)
Definition suffix (bc : Barcode) : option (Z * Z) :=
  match reverse bc with b :: a :: _ => Some (a, b) | _ => None end.

Definition in_range (lo hi b : Z) : bool := (lo <=? b) && (b <=? hi).

(** Medium type by suffix: [L1]..[L9] data, [LU]..[LZ] WORM, [C?] cleaning,
    data otherwise. *)
Definition derive_medium_type (barcode : option Barcode) : Z :=
  match barcode with
  | None => 0
  | Some bc =>
      match suffix bc with
      | None => 1
      | Some (a, b) =>
          if (a =? 76) && in_range 49 57 b then 1
          else if (a =? 76) && in_range 85 90 b then 4
          else if a =? 67 then 2
          else 1
      end
  end.

Definition mixed_extension (barcode : option Barcode) (lto : Z) : list Z :=
  let '(x, y) :=
    match barcode with
    | None => (0x7F, 0x7F)
    | Some bc =>
        match suffix bc with
        | None => (0, 0)
        | Some (a, b) =>
            if (a =? 76) && in_range 48 57 b then (0x4C, b)
            else if (a =? 76) && in_range 85 90 b then (0x57, b)
            else if a =? 67 then (0x43, 67)
            else (0x4C, (48 + lto) mod 256)
        end
    end in
  [x; y; 0; 0; 0; 0; 0; 0].

Definition MIXED_EXT_LEN : Z := 8.
Definition VOLTAG_LEN : Z := 36.
Definition DVCID_LEN : Z := 38.

(** Decimal digits of a number below [10^fuel]. *)
Fixpoint digits (fuel : nat) (z : Z) : list Z :=
  match fuel with
  | O => []
  | S fuel => if z <? 10 then [48 + z] else digits fuel (z / 10) ++ [48 + z mod 10]
  end.

(** Zero-padded to [w] digits ([{:03}]). *)
Definition digits_padded (w : nat) (z : Z) : list Z :=
  let d := digits 10 z in replicate (w - length d) 48 ++ d.

(** A field of [n] bytes: the bytes that fit, then spaces. *)
Definition space_field (n : nat) (s : list Z) : list Z := take n (s ++ replicate n 32).

Definition VENDOR_INQUIRY : list Z := [77; 66].

Definition build_dvcid (drive_id lto : Z) : list Z :=
  let product := [85; 108; 116; 114; 105; 117; 109; 32] ++ digits 10 lto ++ [45; 83; 67; 83; 73] in
  let serial := [84; 86; 76; 45; 68; 82; 86] ++ digits_padded 3 drive_id in
  [2; 1; 0; 34] ++ space_field 8 VENDOR_INQUIRY ++ space_field 16 product ++ space_field 10 serial.

Definition volume_tag (barcode : option Barcode) : list Z :=
  space_field 32 (default [] barcode) ++ [32; 32; 32; 32].

Definition descriptor_length (et : ElementType) (opts : ReadElementStatusOpts) : Z :=
  12 + (if voltag opts then VOLTAG_LEN else 0)
  + (if dvcid opts && bool_decide (et = DataTransfer) then DVCID_LEN else 0)
  + (if mixed opts then MIXED_EXT_LEN else 0).

(** The twelve fixed bytes of a descriptor. *)
Definition descriptor_base (address flags byte9 source : Z) : list Z :=
  u16_be address ++ [flags; 0; 0; 0; 0; 0; 0; byte9] ++ u16_be source.

Definition extensions (opts : ReadElementStatusOpts) (barcode : option Barcode) (device : list Z) : list Z :=
  (if voltag opts then volume_tag barcode else [])
  ++ (if dvcid opts then device else [])
  ++ (if mixed opts then mixed_extension barcode (opt_lto_generation opts) else []).

Definition medium_type (occupied : bool) (barcode : option Barcode) : Z :=
  Z.land (if occupied then derive_medium_type barcode else 0) 15.

Definition storage_descriptor (c : ElementAddressConfig) (opts : ReadElementStatusOpts) (s : SlotInfo) : list Z :=
  descriptor_base (storage_id_to_address c (s_id s)) (Z.lor 8 (if s_occupied s then 1 else 0))
    (medium_type (s_occupied s) (s_barcode s)) 0
  ++ extensions opts (s_barcode s) [].

Definition import_export_descriptor (c : ElementAddressConfig) (opts : ReadElementStatusOpts) (m : MailSlotInfo) : list Z :=
  descriptor_base (mail_id_to_address c (m_id m))
    (Z.lor (Z.lor 0x32 (if m_occupied m then 1 else 0)) (if m_accessible m then 8 else 0))
    (medium_type (m_occupied m) (m_barcode m)) 0
  ++ extensions opts (m_barcode m) [].

Definition data_transfer_descriptor (c : ElementAddressConfig) (opts : ReadElementStatusOpts) (d : DriveInfo) : list Z :=
  let svalid := match home_slot d with Some _ => 0x80 | None => 0 end in
  descriptor_base (drive_id_to_address c (d_id d)) (Z.lor 8 (if d_occupied d then 1 else 0))
    (Z.lor svalid (medium_type (d_occupied d) (d_barcode d))) (default 0 (home_slot d))
  ++ extensions opts (d_barcode d) (build_dvcid (d_id d) (opt_lto_generation opts)).

(** ** Pages *)

(** [to_be_bytes()[1..4]] of a [u32]: its three low bytes. *)
Definition u24_be : Z -> list Z := be_bytes 3.

(** A page: eight bytes of header, then its descriptors. *)
Definition page (code : Z) (opts : ReadElementStatusOpts) (len : Z) (descriptors : list (list Z)) : list Z :=
  let body := concat descriptors in
  [code; if voltag opts then 0x80 else 0] ++ u16_be len ++ [0] ++ u24_be (Z.of_nat (length body)) ++ body.

(** [while i < slots.len() && *budget > 0]: the elements emitted and the
    budget left. *)
Fixpoint emit {A} (keep : A -> bool) (l : list A) (budget : Z) : list A * Z :=
  match l with
  | [] => ([], budget)
  | a :: l =>
      if budget <=? 0 then ([], budget)
      else if keep a then let '(out, b) := emit keep l (budget - 1) in (a :: out, b)
      else emit keep l budget
  end.

(** The elements from [start_id] on, none when the start is past the band. *)
Definition emit_from {A} (keep : A -> bool) (start_id : option Z) (l : list A) (budget : Z) : list A * Z :=
  match start_id with
  | None => ([], budget)
  | Some i => emit keep (drop (Z.to_nat i) l) budget
  end.

Definition resolve_start_id (start_address type_start type_count : Z) : option Z :=
  if type_count =? 0 then None
  else
    let type_end := Z.min u16_max (type_start + type_count) in
    if start_address <? type_start then Some 0
    else if start_address <? type_end then Some (start_address - type_start)
    else None.

(** The partition test of one element. *)
Definition keeps (filter : option (list Z)) (owner : option (list Z)) : bool :=
  match filter with None => true | Some part => bool_decide (owner = Some part) end.

Section render.
Context (l : Library) (c : ElementAddressConfig) (opts : ReadElementStatusOpts) (filter : option (list Z)).

Definition append_transport_element : list Z :=
  let len := descriptor_length MediumTransport opts in
  [1; if voltag opts then 0x80 else 0] ++ u16_be len ++ [0; 0] ++ u16_be len
  ++ descriptor_base (transport_start c) 0 0 0
  ++ (if voltag opts then volume_tag None else [])
  ++ (if mixed opts then mixed_extension None (opt_lto_generation opts) else []).

Definition append_storage_elements (start_id : option Z) (budget : Z) : list Z * Z :=
  let '(es, b) := emit_from (fun s => keeps filter (partition_for_storage_slot (topology l) (s_id s)))
                    start_id (storage_slots (inventory l)) budget in
  (page 2 opts (descriptor_length StorageElement opts) (storage_descriptor c opts <$> es), b).

Definition append_import_export_elements (start_id : option Z) (budget : Z) : list Z * Z :=
  let '(es, b) := emit_from (fun m => keeps filter (partition_for_mail_slot (topology l) (m_id m)))
                    start_id (mail_slots (inventory l)) budget in
  (page 3 opts (descriptor_length ImportExport opts) (import_export_descriptor c opts <$> es), b).

Definition append_data_transfer_elements (start_id : option Z) (budget : Z) : list Z * Z :=
  let '(es, b) := emit_from (fun d => keeps filter (partition_for_drive (topology l) (d_id d)))
                    start_id (drives (inventory l)) budget in
  (page 4 opts (descriptor_length DataTransfer opts) (data_transfer_descriptor c opts <$> es), b).

(** One type of a type-0 request: skipped when the budget is spent or the
    type lies below the start. *)
Definition all_part (append : option Z -> Z -> list Z * Z) (start_id : option Z) (budget : Z) : list Z * Z :=
  match start_id with
  | Some i => if 0 <? budget then append (Some i) budget else ([], budget)
  | None => ([], budget)
  end.

Definition storage_sid (start : Z) : option Z := resolve_start_id start (storage_start c) (storage_count c).
Definition mail_sid (start : Z) : option Z := resolve_start_id start (import_export_start c) (import_export_count c).
Definition drive_sid (start : Z) : option Z := resolve_start_id start (data_transfer_start c) (data_transfer_count c).

Definition status_pages (et : ElementType) (start count : Z) : list Z :=
  match et with
  | AllElements =>
      let budget := if count =? 0 then u32_max else count in
      let '(p1, budget) := all_part append_storage_elements (storage_sid start) budget in
      let '(p2, budget) := all_part append_import_export_elements (mail_sid start) budget in
      let '(p3, _) := all_part append_data_transfer_elements (drive_sid start) budget in
      p1 ++ p2 ++ p3
  | MediumTransport => append_transport_element
  | StorageElement => (append_storage_elements (storage_sid start) count).1
  | ImportExport => (append_import_export_elements (mail_sid start) count).1
  | DataTransfer => (append_data_transfer_elements (drive_sid start) count).1
  end.

Definition handle_read_element_status (et : ElementType) (start count : Z) : list Z :=
  let pages := status_pages et start count in
  u16_be start ++ u16_be count ++ u32_be (Z.of_nat (length pages)) ++ pages.
End render.

(** ** Lengths *)

Lemma length_space_field n s : length (space_field n s) = n.
Proof. unfold space_field. rewrite length_take, length_app, length_replicate. lia. Qed.

Lemma length_volume_tag b : length (volume_tag b) = 36%nat.
Proof. unfold volume_tag. by rewrite length_app, length_space_field. Qed.

Lemma length_mixed b lto : length (mixed_extension b lto) = 8%nat.
Proof. unfold mixed_extension. by case_match. Qed.

Lemma length_dvcid id lto : length (build_dvcid id lto) = 38%nat.
Proof. unfold build_dvcid. by rewrite !length_app, !length_space_field. Qed.

Lemma length_base a f b s : length (descriptor_base a f b s) = 12%nat.
Proof. unfold descriptor_base. by rewrite !length_app, !length_u16_be. Qed.

(** Every descriptor has the length its page announces. *)
Lemma status_length_descriptor opts et a f b s bc dev :
  length dev = (if decide (et = DataTransfer) then 38%nat else 0%nat) ->
  Z.of_nat (length (descriptor_base a f b s ++ extensions opts bc dev)) = descriptor_length et opts.
Proof.
  intros Hd. unfold extensions, descriptor_length, VOLTAG_LEN, DVCID_LEN, MIXED_EXT_LEN.
  rewrite length_app, length_base, !length_app.
  destruct (voltag opts), (dvcid opts), (mixed opts); simpl;
    rewrite ?length_volume_tag, ?length_mixed, ?Hd; case_decide; subst;
    rewrite ?bool_decide_true, ?bool_decide_false by done; simpl; lia.
Qed.

Definition sized (len : Z) (ds : list (list Z)) : Prop := Forall (fun d => Z.of_nat (length d) = len) ds.

Lemma storage_sized c opts es : sized (descriptor_length StorageElement opts) (storage_descriptor c opts <$> es).
Proof. apply Forall_fmap, Forall_true. intros s. by apply status_length_descriptor. Qed.
Lemma import_export_sized c opts es : sized (descriptor_length ImportExport opts) (import_export_descriptor c opts <$> es).
Proof. apply Forall_fmap, Forall_true. intros s. by apply status_length_descriptor. Qed.
Lemma data_transfer_sized c opts es : sized (descriptor_length DataTransfer opts) (data_transfer_descriptor c opts <$> es).
Proof. apply Forall_fmap, Forall_true. intros s. apply status_length_descriptor. apply length_dvcid. Qed.

Lemma descriptor_length_range et opts : 12 <= descriptor_length et opts <= 94.
Proof. unfold descriptor_length, VOLTAG_LEN, DVCID_LEN, MIXED_EXT_LEN. repeat case_match; lia. Qed.

Lemma length_concat_sized len ds : sized len ds -> Z.of_nat (length (concat ds)) = len * Z.of_nat (length ds).
Proof. induction 1 as [|d ds Hd _ IH]; simpl; [lia|]. rewrite length_app. lia. Qed.

(** ** Reading a response *)

Fixpoint chunks (fuel : nat) (len : nat) (l : list Z) : list (list Z) :=
  match fuel, l with
  | S fuel, _ :: _ => take len l :: chunks fuel len (drop len l)
  | _, _ => []
  end.

(** What an initiator reads of an element: its address, the Full bit, the
    source element address where SVALID is set, the volume tag where the page
    carries one. *)
Record View : Type := mkView {
  v_address : Z;
  v_full : bool;
  v_source : option Z;
  v_tag : option (list Z);
}.

Definition read_descriptor (pvoltag : bool) (d : list Z) : View :=
  mkView (be_val (sl 0 2 d)) (Z.testbit (nth 2 d 0) 0)
    (if Z.testbit (nth 9 d 0) 7 then Some (be_val (sl 10 2 d)) else None)
    (if pvoltag then Some (sl 12 32 d) else None).

Fixpoint read_pages (fuel : nat) (l : list Z) : list (Z * list View) :=
  match fuel, l with
  | S fuel, code :: _ =>
      let pvoltag := Z.testbit (nth 1 l 0) 7 in
      let len := Z.to_nat (be_val (sl 2 2 l)) in
      let n := Z.to_nat (be_val (sl 5 3 l)) in
      let body := sl 8 n l in
      (code, read_descriptor pvoltag <$> chunks (length body) len body) :: read_pages fuel (drop (8 + n) l)
  | _, _ => []
  end.

(** The pages of a response, up to the byte count of its header. *)
Definition read_response (l : list Z) : list (Z * list View) :=
  let body := sl 8 (Z.to_nat (be_val (sl 4 4 l))) l in read_pages (length body) body.

Lemma chunks_concat len ds fuel :
  0 < len -> sized len ds -> (length ds <= fuel)%nat -> chunks fuel (Z.to_nat len) (concat ds) = ds.
Proof.
  intros Hl. revert fuel. induction ds as [|d ds IH]; intros fuel Hs Hf; [by destruct fuel|].
  apply Forall_cons in Hs as [Hd Hs]. destruct fuel as [|fuel]; [simpl in Hf; lia|].
  assert (length d = Z.to_nat len) as Hd' by lia.
  destruct d as [|x d]; [simpl in Hd; lia|]. cbn [concat chunks app].
  change (x :: d ++ concat ds) with ((x :: d) ++ concat ds).
  rewrite take_app_length' by done. rewrite drop_app_length' by done. f_equal. apply IH; [done|simpl in Hf; lia].
Qed.

Lemma u24_be_val z : 0 <= z < 16777216 -> be_val (u24_be z) = z.
Proof. intros. apply be_val_bytes. simpl. lia. Qed.

(** What [page] renders, [read_pages] reads. *)
Definition page_ok (code : Z) (len : Z) (ds : list (list Z)) : Prop :=
  12 <= len <= 94 /\ sized len ds /\ Z.of_nat (length ds) <= 65535.

Lemma page_ok_size code len ds : page_ok code len ds -> 0 <= Z.of_nat (length (concat ds)) < 16777216.
Proof. intros (? & ? & ?). rewrite (length_concat_sized len) by done. nia. Qed.

Lemma sl_page_header code opts len ds rest :
  page_ok code len ds ->
  let l := page code opts len ds ++ rest in
  nth 1 l 0 = (if voltag opts then 0x80 else 0) /\ be_val (sl 2 2 l) = len /\
  be_val (sl 5 3 l) = Z.of_nat (length (concat ds)) /\ sl 8 (length (concat ds)) l = concat ds /\
  drop (8 + length (concat ds)) l = rest.
Proof.
  intros Hok. pose proof (page_ok_size _ _ _ Hok) as Hn. destruct Hok as (Hl & _).
  unfold page. set (body := concat ds) in *.
  assert (length (u24_be (Z.of_nat (length body))) = 3%nat) as L3 by apply length_be_bytes.
  assert (length (u16_be len) = 2%nat) as L2 by apply length_u16_be.
  assert (be_val (u16_be len) = len) as V2 by (apply u16_be_val; unfold in_u16, u16_max; lia).
  assert (be_val (u24_be (Z.of_nat (length body))) = Z.of_nat (length body)) as V3 by by apply u24_be_val.
  destruct (u16_be len) as [|x0 [|x1 []]]; try done. destruct (u24_be _) as [|y0 [|y1 [|y2 []]]]; try done.
  unfold sl. split_and!; try done.
  - simpl. by apply take_app_length'.
  - simpl. by apply drop_app_length'.
Qed.

Lemma read_pages_page code opts len ds rest fuel :
  page_ok code len ds ->
  read_pages (S fuel) (page code opts len ds ++ rest) =
    (code, read_descriptor (voltag opts) <$> ds) :: read_pages fuel rest.
Proof.
  intros Hok. pose proof (sl_page_header code opts len ds rest Hok) as (H1 & H2 & H3 & H4 & H5).
  destruct (page code opts len ds ++ rest) as [|x l'] eqn:E; [done|].
  assert (x = code) as -> by (unfold page in E; simpl in E; congruence).
  cbn [read_pages]. rewrite H1, H2, H3, Nat2Z.id, H4, H5.
  replace (Z.testbit (if voltag opts then 128 else 0) 7) with (voltag opts) by by destruct (voltag opts).
  pose proof Hok as (Hl & Hs & _). rewrite chunks_concat; [done|lia|done|].
  pose proof (length_concat_sized _ _ Hs). nia.
Qed.

(** Pages as data, and the bytes they render to. *)
Record Page : Type := mkPage { pg_code : Z; pg_len : Z; pg_descriptors : list (list Z) }.

Definition render_pages (opts : ReadElementStatusOpts) (ps : list Page) : list Z :=
  concat (map (fun p => page (pg_code p) opts (pg_len p) (pg_descriptors p)) ps).

Definition view_pages (opts : ReadElementStatusOpts) (ps : list Page) : list (Z * list View) :=
  map (fun p => (pg_code p, map (read_descriptor (voltag opts)) (pg_descriptors p))) ps.

Definition pages_ok (ps : list Page) : Prop :=
  Forall (fun p => page_ok (pg_code p) (pg_len p) (pg_descriptors p)) ps.

Lemma length_page code opts len ds : length (page code opts len ds) = (8 + length (concat ds))%nat.
Proof. unfold page, u24_be. rewrite !length_app, length_u16_be, length_be_bytes. simpl. lia. Qed.

Lemma read_pages_all opts ps fuel :
  pages_ok ps -> (length ps <= fuel)%nat -> read_pages fuel (render_pages opts ps) = view_pages opts ps.
Proof.
  intros Hok. revert fuel. induction Hok as [|p ps Hp _ IH]; intros fuel Hf; [by destruct fuel|].
  destruct fuel as [|fuel]; [simpl in Hf; lia|]. unfold render_pages, view_pages in *. cbn [map concat].
  rewrite read_pages_page by done. rewrite IH by (simpl in Hf; lia). done.
Qed.

Lemma length_render opts ps : (length ps <= length (render_pages opts ps))%nat.
Proof.
  unfold render_pages. induction ps as [|p ps IH]; [done|]. cbn [map concat].
  rewrite length_app, length_page. simpl length. lia.
Qed.

Lemma size_render opts ps :
  pages_ok ps -> Z.of_nat (length (render_pages opts ps)) <= 16777224 * Z.of_nat (length ps).
Proof.
  unfold render_pages. induction 1 as [|p ps Hp _ IH]; [done|]. cbn [map concat].
  rewrite length_app, length_page. pose proof (page_ok_size _ _ _ Hp). simpl length. lia.
Qed.

Lemma read_response_render opts start count ps :
  pages_ok ps -> (length ps <= 4)%nat ->
  read_response (u16_be start ++ u16_be count ++ u32_be (Z.of_nat (length (render_pages opts ps)))
                 ++ render_pages opts ps) = view_pages opts ps.
Proof.
  intros Hok Hn. pose proof (size_render opts ps Hok) as Hsz. pose proof (length_render opts ps) as Hln.
  rewrite <- (read_pages_all opts ps (length (render_pages opts ps)) Hok Hln).
  set (body := render_pages opts ps) in *. unfold read_response.
  rewrite (sl_skip 2 4), (sl_skip 2 (4 - 2)), (sl_head 4);
    [|apply length_u32_be|apply length_u16_be|lia|apply length_u16_be|lia].
  rewrite u32_be_val by (unfold in_u32, u32_max; lia). rewrite Nat2Z.id.
  rewrite (sl_skip 2 8), (sl_skip 2 (8 - 2)), (sl_skip 4 (8 - 2 - 2));
    [|apply length_u32_be|lia|apply length_u16_be|lia|apply length_u16_be|lia].
  simpl Nat.sub. by rewrite sl_all.
Qed.

(** ** Descriptors read back *)

Definition base_view (opts : ReadElementStatusOpts) (address : Z) (full : bool) (source : option Z)
    (bc : option Barcode) : View :=
  mkView address full source (if voltag opts then Some (space_field 32 (default [] bc)) else None).

Lemma read_base opts a f b src bc dev :
  in_u16 a -> in_u16 src ->
  read_descriptor (voltag opts) (descriptor_base a f b src ++ extensions opts bc dev) =
    mkView a (Z.testbit f 0) (if Z.testbit b 7 then Some src else None)
      (if voltag opts then Some (space_field 32 (default [] bc)) else None).
Proof.
  intros Ha Hs. unfold read_descriptor, descriptor_base. f_equal.
  - rewrite <- !(assoc_L (++)), (sl_head 2) by apply length_u16_be. by apply u16_be_val.
  - replace (be_val (sl 10 2 _)) with src.
    + replace (nth 9 _ 0) with b; [done|]. pose proof (length_u16_be a). by destruct (u16_be a) as [|x [|y []]].
    + rewrite <- !(assoc_L (++)), (sl_skip 2) by (apply length_u16_be || lia).
      rewrite (sl_skip 8) by (done || lia). cbn [Nat.sub]. rewrite (sl_head 2) by apply length_u16_be.
      symmetry. by apply u16_be_val.
  - destruct (voltag opts) eqn:Hv; [|done]. f_equal. fold (descriptor_base a f b src).
    rewrite (sl_skip 12) by (apply length_base || lia). cbn [Nat.sub]. unfold extensions, volume_tag. rewrite Hv.
    rewrite <- !(assoc_L (++)). apply sl_head, length_space_field.
Qed.

Lemma wrap16_range z : in_u16 (wrap16 z).
Proof. unfold wrap16, in_u16, u16_max. pose proof (Z.mod_pos_bound z (65535 + 1) eq_refl). lia. Qed.

Lemma medium_type_bit7 occ bc : Z.testbit (medium_type occ bc) 7 = false.
Proof. unfold medium_type. rewrite Z.land_spec. apply andb_false_r. Qed.

Definition storage_view (c : ElementAddressConfig) (opts : ReadElementStatusOpts) (s : SlotInfo) : View :=
  base_view opts (storage_id_to_address c (s_id s)) (s_occupied s) None (s_barcode s).
Definition mail_view (c : ElementAddressConfig) (opts : ReadElementStatusOpts) (m : MailSlotInfo) : View :=
  base_view opts (mail_id_to_address c (m_id m)) (m_occupied m) None (m_barcode m).
Definition drive_view (c : ElementAddressConfig) (opts : ReadElementStatusOpts) (d : DriveInfo) : View :=
  base_view opts (drive_id_to_address c (d_id d)) (d_occupied d) (home_slot d) (d_barcode d).

Lemma read_storage c opts s : read_descriptor (voltag opts) (storage_descriptor c opts s) = storage_view c opts s.
Proof.
  unfold storage_descriptor. rewrite read_base by (apply wrap16_range || by unfold in_u16, u16_max).
  rewrite medium_type_bit7. unfold storage_view, base_view. f_equal. by destruct (s_occupied s).
Qed.

Lemma read_mail c opts m : read_descriptor (voltag opts) (import_export_descriptor c opts m) = mail_view c opts m.
Proof.
  unfold import_export_descriptor. rewrite read_base by (apply wrap16_range || by unfold in_u16, u16_max).
  rewrite medium_type_bit7. unfold mail_view, base_view. f_equal. by destruct (m_occupied m), (m_accessible m).
Qed.

(** The home slot of a drive is a [u16]. *)
Definition home_ok (d : DriveInfo) : Prop := forall h, home_slot d = Some h -> in_u16 h.

Lemma read_drive c opts d :
  home_ok d -> read_descriptor (voltag opts) (data_transfer_descriptor c opts d) = drive_view c opts d.
Proof.
  intros Hh. unfold data_transfer_descriptor. rewrite read_base.
  - rewrite !Z.lor_spec, medium_type_bit7, orb_false_r. unfold drive_view, base_view.
    f_equal; [by destruct (d_occupied d)|by destruct (home_slot d)].
  - apply wrap16_range.
  - destruct (home_slot d) eqn:E; [by apply Hh|by unfold in_u16, u16_max].
Qed.

(** ** Which elements are reported *)

(** The elements of one type at or above the start, past the partition
    filter. *)
Definition eligible {A} (keep : A -> bool) (start_id : option Z) (l : list A) : list A :=
  match start_id with None => [] | Some i => List.filter keep (drop (Z.to_nat i) l) end.

Lemma emit_spec {A} (keep : A -> bool) l b :
  0 <= b -> emit keep l b =
    (take (Z.to_nat b) (List.filter keep l), b - Z.of_nat (length (take (Z.to_nat b) (List.filter keep l)))).
Proof.
  revert b. induction l as [|a l IH]; intros b Hb; simpl; [rewrite take_nil; simpl; f_equal; lia|].
  destruct (Z.leb_spec b 0) as [Hb0|Hb0].
  { replace (Z.to_nat b) with 0%nat by lia. rewrite take_0. simpl. f_equal. lia. }
  destruct (keep a); [|by apply IH]. rewrite IH by lia.
  replace (Z.to_nat b) with (S (Z.to_nat (b - 1))) by lia. simpl. f_equal. lia.
Qed.

Lemma emit_from_spec {A} (keep : A -> bool) sid l b :
  0 <= b -> emit_from keep sid l b =
    (take (Z.to_nat b) (eligible keep sid l), b - Z.of_nat (length (take (Z.to_nat b) (eligible keep sid l)))).
Proof. intros. destruct sid; simpl; [by apply emit_spec|]. rewrite take_nil. simpl. f_equal. lia. Qed.

Lemma length_eligible {A} (keep : A -> bool) sid l : (length (eligible keep sid l) <= length l)%nat.
Proof.
  destruct sid as [i|]; simpl; [|lia]. transitivity (length (drop (Z.to_nat i) l)).
  - apply List.filter_length_le.
  - rewrite length_drop. lia.
Qed.

Section report.
Context (l : Library) (c : ElementAddressConfig) (opts : ReadElementStatusOpts) (filter : option (list Z)).

Definition storage_eligible (start : Z) : list SlotInfo :=
  eligible (fun s => keeps filter (partition_for_storage_slot (topology l) (s_id s))) (storage_sid c start)
    (storage_slots (inventory l)).
Definition mail_eligible (start : Z) : list MailSlotInfo :=
  eligible (fun m => keeps filter (partition_for_mail_slot (topology l) (m_id m))) (mail_sid c start)
    (mail_slots (inventory l)).
Definition drive_eligible (start : Z) : list DriveInfo :=
  eligible (fun d => keeps filter (partition_for_drive (topology l) (d_id d))) (drive_sid c start)
    (drives (inventory l)).

(** A chassis of at most 65535 elements of each type, as validation
    enforces. *)
Record chassis_ok : Prop := {
  ch_storage : Z.of_nat (length (storage_slots (inventory l))) <= 65535;
  ch_mail : Z.of_nat (length (mail_slots (inventory l))) <= 65535;
  ch_drives : Z.of_nat (length (drives (inventory l))) <= 65535;
  ch_homes : Forall home_ok (drives (inventory l));
}.
Hypothesis Hch : chassis_ok.

Definition storage_page (es : list SlotInfo) : Page :=
  mkPage 2 (descriptor_length StorageElement opts) (map (storage_descriptor c opts) es).
Definition mail_page (es : list MailSlotInfo) : Page :=
  mkPage 3 (descriptor_length ImportExport opts) (map (import_export_descriptor c opts) es).
Definition drive_page (es : list DriveInfo) : Page :=
  mkPage 4 (descriptor_length DataTransfer opts) (map (data_transfer_descriptor c opts) es).

Lemma storage_page_ok start n : pages_ok [storage_page (take n (storage_eligible start))].
Proof.
  constructor; [|done]. split_and!; simpl; [apply descriptor_length_range..|apply storage_sized|].
  rewrite length_map, length_take. pose proof (ch_storage Hch). unfold storage_eligible.
  match goal with |- context [eligible ?k ?s ?x] => pose proof (length_eligible k s x) end. lia.
Qed.
Lemma mail_page_ok start n : pages_ok [mail_page (take n (mail_eligible start))].
Proof.
  constructor; [|done]. split_and!; simpl; [apply descriptor_length_range..|apply import_export_sized|].
  rewrite length_map, length_take. pose proof (ch_mail Hch). unfold mail_eligible.
  match goal with |- context [eligible ?k ?s ?x] => pose proof (length_eligible k s x) end. lia.
Qed.
Lemma drive_page_ok start n : pages_ok [drive_page (take n (drive_eligible start))].
Proof.
  constructor; [|done]. split_and!; simpl; [apply descriptor_length_range..|apply data_transfer_sized|].
  rewrite length_map, length_take. pose proof (ch_drives Hch). unfold drive_eligible.
  match goal with |- context [eligible ?k ?s ?x] => pose proof (length_eligible k s x) end. lia.
Qed.

Lemma drive_eligible_homes start n : Forall home_ok (take n (drive_eligible start)).
Proof.
  apply Forall_take. unfold drive_eligible, eligible. destruct (drive_sid c start); [|constructor].
  apply List.Forall_forall. intros d [Hd _]%List.filter_In. pose proof (ch_homes Hch) as Hh.
  rewrite Forall_forall in Hh. apply Hh. apply list_elem_of_In in Hd.
  eapply subseteq_drop, Hd.
Qed.

Lemma storage_bytes start b :
  0 <= b -> append_storage_elements l c opts filter (storage_sid c start) b =
    (render_pages opts [storage_page (take (Z.to_nat b) (storage_eligible start))],
     b - Z.of_nat (length (take (Z.to_nat b) (storage_eligible start)))).
Proof. intros. unfold append_storage_elements, render_pages. rewrite emit_from_spec by done. simpl. by rewrite app_nil_r. Qed.
Lemma mail_bytes start b :
  0 <= b -> append_import_export_elements l c opts filter (mail_sid c start) b =
    (render_pages opts [mail_page (take (Z.to_nat b) (mail_eligible start))],
     b - Z.of_nat (length (take (Z.to_nat b) (mail_eligible start)))).
Proof. intros. unfold append_import_export_elements, render_pages. rewrite emit_from_spec by done. simpl. by rewrite app_nil_r. Qed.
Lemma drive_bytes start b :
  0 <= b -> append_data_transfer_elements l c opts filter (drive_sid c start) b =
    (render_pages opts [drive_page (take (Z.to_nat b) (drive_eligible start))],
     b - Z.of_nat (length (take (Z.to_nat b) (drive_eligible start)))).
Proof. intros. unfold append_data_transfer_elements, render_pages. rewrite emit_from_spec by done. simpl. by rewrite app_nil_r. Qed.

Lemma storage_page_view es : view_pages opts [storage_page es] = [(2, map (storage_view c opts) es)].
Proof. unfold view_pages. simpl. rewrite map_map. do 2 f_equal. apply map_ext, read_storage. Qed.
Lemma mail_page_view es : view_pages opts [mail_page es] = [(3, map (mail_view c opts) es)].
Proof. unfold view_pages. simpl. rewrite map_map. do 2 f_equal. apply map_ext, read_mail. Qed.
Lemma drive_page_view es : Forall home_ok es -> view_pages opts [drive_page es] = [(4, map (drive_view c opts) es)].
Proof.
  intros Hes. unfold view_pages. simpl. rewrite map_map. do 2 f_equal. apply List.map_ext_Forall.
  eapply Forall_impl; [exact Hes|]. intros d. apply read_drive.
Qed.

(** The single page of the transport element. *)
Definition transport_page : Page :=
  mkPage 1 (descriptor_length MediumTransport opts)
    [descriptor_base (transport_start c) 0 0 0 ++ extensions opts None []].

Lemma transport_bytes : append_transport_element c opts = render_pages opts [transport_page].
Proof.
  unfold append_transport_element, render_pages, transport_page, extensions. simpl. rewrite !app_nil_r.
  by destruct opts as [[] [] [] lto].
Qed.

(** A type-0 request: the pages it renders, at most three. *)
Definition part_pages {A} (pg : list A -> Page) (sid : option Z) (es : list A) (b : Z) : list Page :=
  match sid with Some _ => if 0 <? b then [pg (take (Z.to_nat b) es)] else [] | None => [] end.

Definition budget_left {A} (es : list A) (b : Z) : Z := b - Z.of_nat (length (take (Z.to_nat b) es)).

Lemma budget_left_nonneg {A} (es : list A) b : 0 <= b -> 0 <= budget_left es b.
Proof. intros. unfold budget_left. rewrite length_take. lia. Qed.

Definition all_pages (start b : Z) : list Page :=
  let b1 := budget_left (storage_eligible start) b in
  let b2 := budget_left (mail_eligible start) b1 in
  part_pages storage_page (storage_sid c start) (storage_eligible start) b
  ++ part_pages mail_page (mail_sid c start) (mail_eligible start) b1
  ++ part_pages drive_page (drive_sid c start) (drive_eligible start) b2.

(** One type of it, for any of the three. *)
Lemma all_part_pages {A} (pg : list A -> Page) (append : option Z -> Z -> list Z * Z) sid (es : list A) b :
  0 <= b -> (sid = None -> es = []) ->
  append sid b = (render_pages opts [pg (take (Z.to_nat b) es)], budget_left es b) ->
  all_part append sid b = (render_pages opts (part_pages pg sid es b), budget_left es b).
Proof.
  intros Hb Hn Ha. unfold all_part, part_pages. destruct sid as [i|].
  - destruct (Z.ltb_spec 0 b); [done|]. f_equal. unfold budget_left.
    replace (Z.to_nat b) with 0%nat by lia. rewrite take_0. simpl. lia.
  - rewrite Hn by done. unfold budget_left. rewrite take_nil. simpl. f_equal. lia.
Qed.

Lemma all_bytes start count :
  0 <= count ->
  status_pages l c opts filter AllElements start count =
    render_pages opts (all_pages start (if count =? 0 then u32_max else count)).
Proof.
  intros Hc. unfold status_pages. set (b := if count =? 0 then u32_max else count).
  assert (0 <= b) as Hb by (subst b; destruct (count =? 0); [by unfold u32_max|done]).
  rewrite (all_part_pages storage_page _ _ (storage_eligible start) b); [|done| |by apply storage_bytes];
    [|unfold storage_eligible; by intros ->].
  rewrite (all_part_pages mail_page _ _ (mail_eligible start)); [|by apply budget_left_nonneg| |];
    [|unfold mail_eligible; by intros ->|apply mail_bytes; by apply budget_left_nonneg].
  rewrite (all_part_pages drive_page _ _ (drive_eligible start)); [|by apply budget_left_nonneg, budget_left_nonneg| |];
    [|unfold drive_eligible; by intros ->|apply drive_bytes; by apply budget_left_nonneg, budget_left_nonneg].
  unfold all_pages, render_pages. by rewrite !map_app, !concat_app.
Qed.

Lemma part_views {A} (pg : list A -> Page) (view : A -> View) code sid (es : list A) b :
  0 <= b -> (sid = None -> es = []) ->
  view_pages opts [pg (take (Z.to_nat b) es)] = [(code, map view (take (Z.to_nat b) es))] ->
  (view_pages opts (part_pages pg sid es b)) ≫= snd = map view (take (Z.to_nat b) es).
Proof.
  intros Hb Hn Hv. unfold part_pages. destruct sid as [i|]; [|by rewrite Hn, take_nil].
  destruct (Z.ltb_spec 0 b); [rewrite Hv; simpl; by rewrite app_nil_r|].
  by replace (Z.to_nat b) with 0%nat by lia.
Qed.

Lemma all_pages_ok start b : pages_ok (all_pages start b) /\ (length (all_pages start b) <= 4)%nat.
Proof.
  assert (forall A (pg : list A -> Page) sid es b, pages_ok [pg (take (Z.to_nat b) es)] ->
    pages_ok (part_pages pg sid es b) /\ (length (part_pages pg sid es b) <= 1)%nat) as Hp.
  { intros A pg [i|] es b' H; simpl; [destruct (0 <? b')|]; split; try done; try constructor; simpl; lia. }
  unfold all_pages, pages_ok. rewrite !Forall_app, !length_app.
  destruct (Hp _ storage_page (storage_sid c start) (storage_eligible start) b (storage_page_ok _ _)).
  destruct (Hp _ mail_page (mail_sid c start) (mail_eligible start) (budget_left (storage_eligible start) b) (mail_page_ok _ _)).
  destruct (Hp _ drive_page (drive_sid c start) (drive_eligible start)
    (budget_left (mail_eligible start) (budget_left (storage_eligible start) b)) (drive_page_ok _ _)).
  split; [done|lia].
Qed.
End report.

(** The response to a request for one element type parses back, by the
    byte counts and descriptor lengths it carries, to a single page with
    exactly the elements of that type at or above the starting address, past
    the partition filter and at most [count] of them, each with its address,
    Full bit, source and volume tag. *)
Theorem read_element_status_typed (l : Library) (c : ElementAddressConfig) (opts : ReadElementStatusOpts)
    (filter : option (list Z)) (start count : Z) :
  chassis_ok l -> 0 <= count ->
  let n := Z.to_nat count in
  let response et := read_response (handle_read_element_status l c opts filter et start count) in
  response StorageElement = [(2, map (storage_view c opts) (take n (storage_eligible l c filter start)))] /\
  response ImportExport = [(3, map (mail_view c opts) (take n (mail_eligible l c filter start)))] /\
  response DataTransfer = [(4, map (drive_view c opts) (take n (drive_eligible l c filter start)))].
Proof.
  intros Hch Hc. cbv zeta. unfold handle_read_element_status, status_pages.
  rewrite storage_bytes, mail_bytes, drive_bytes by done. cbn [fst].
  rewrite !read_response_render;
    [|by apply drive_page_ok|simpl; lia|by apply mail_page_ok|simpl; lia|by apply storage_page_ok|simpl; lia].
  rewrite storage_page_view, mail_page_view, drive_page_view by by apply drive_eligible_homes. done.
Qed.

(** A type-0 request reports, over its pages in order, the first [count]
    elements (all of them when [count] is 0) of the storage slots, then the
    mail slots, then the drives, at or above the starting address and past
    the partition filter. *)
Theorem read_element_status_all (l : Library) (c : ElementAddressConfig) (opts : ReadElementStatusOpts)
    (filter : option (list Z)) (start count : Z) :
  chassis_ok l -> 0 <= count ->
  (read_response (handle_read_element_status l c opts filter AllElements start count)) ≫= snd =
    take (Z.to_nat (if count =? 0 then u32_max else count))
      (map (storage_view c opts) (storage_eligible l c filter start)
       ++ map (mail_view c opts) (mail_eligible l c filter start)
       ++ map (drive_view c opts) (drive_eligible l c filter start)).
Proof.
  intros Hch Hc. unfold handle_read_element_status. rewrite all_bytes by done.
  destruct (all_pages_ok l c opts filter Hch start (if count =? 0 then u32_max else count)) as [Hok Hln].
  rewrite read_response_render by done. clear Hok Hln.
  set (b := if count =? 0 then u32_max else count).
  assert (0 <= b) as Hb by (subst b; destruct (count =? 0); [by unfold u32_max|done]).
  generalize dependent b. intros b Hb. unfold all_pages, view_pages. rewrite !map_app, !bind_app.
  set (S := storage_eligible l c filter start). set (T := mail_eligible l c filter start). set (U := drive_eligible l c filter start).
  change (map (fun p => (pg_code p, map (read_descriptor (voltag opts)) (pg_descriptors p)))) with (view_pages opts).
  rewrite (part_views opts (storage_page c opts) (storage_view c opts) 2); [|done| |apply storage_page_view];
    [|unfold S, storage_eligible; by intros ->].
  rewrite (part_views opts (mail_page c opts) (mail_view c opts) 3); [|by apply budget_left_nonneg| |apply mail_page_view];
    [|unfold T, mail_eligible; by intros ->].
  rewrite (part_views opts (drive_page c opts) (drive_view c opts) 4);
    [|by apply budget_left_nonneg, budget_left_nonneg| |apply drive_page_view; by apply drive_eligible_homes];
    [|unfold U, drive_eligible; by intros ->].
  rewrite !take_app, !length_map, <- !firstn_map. unfold budget_left. rewrite !length_take.
  do 3 f_equal; f_equal; lia.
Qed.

(** ** On the small chassis *)

Definition demo_opts : ReadElementStatusOpts := mkOpts true true false 9.

Lemma demo_chassis_ok : chassis_ok (demo_library [65] true).
Proof. split; simpl; try lia. constructor; [by intros h|constructor; [by intros h|constructor]]. Qed.

Lemma read_element_status_typed_witness :
  read_response (handle_read_element_status (demo_library [65] true) demo_config demo_opts None StorageElement 1002 1)
    = [(2, [mkView 1002 false None (Some (replicate 32 32))])].
Proof.
  etrans; [exact (proj1 (read_element_status_typed (demo_library [65] true) demo_config demo_opts None 1002 1
    demo_chassis_ok ltac:(lia)))|reflexivity].
Defined.

Lemma read_element_status_all_witness :
  v_address <$> (read_response (handle_read_element_status (demo_library [65] true) demo_config demo_opts None
    AllElements 1002 3) ≫= snd) = [1002; 1003].
Proof.
  rewrite (read_element_status_all (demo_library [65] true) demo_config demo_opts None 1002 3
    demo_chassis_ok ltac:(lia)). reflexivity.
Defined.

(** The source storage element address of a loaded drive is the id of
    the slot, not its element address: after slot 0 (address 1001) is loaded,
    the drive reports source 0 with SVALID set, which is the address of the
    medium transport. *)
Theorem drive_source_is_slot_id :
  let '(l', r) := load_to_drive 0 1 (demo_library [65] true) in
  r = Ok tt /\
  read_response (handle_read_element_status l' demo_config demo_opts None DataTransfer 2 1) =
    [(4, [mkView 2 true (Some 0) (Some (65 :: replicate 31 32))])] /\
  storage_id_to_address demo_config 0 = 1001 /\
  element_type_from_address demo_config 0 = Some MediumTransport.
Proof. vm_compute. done. Qed.
