(* ===== verification/PageLru.v ===== *)
(** * The volume cache's page table and recency list ([core/block/src/cache.rs])

    [CacheInner]: the cached pages, a doubly-linked recency list threaded
    through them by page id, and the set of dirty ids.  The list operations
    are shown to act as the list operations their names promise, on every
    history, and the victim search to stop and to find the least recently
    used (clean) page. *)

From stdpp Require Export gmap.
From S2P Require Import Prelude.

Local Open Scope Z_scope.

Inductive PageState : Type := Clean | Dirty.

#[export] Instance PageState_eq_dec : EqDecision PageState.
Proof. solve_decision. Defined.

Record CacheEntry : Type := mkEntry {
  bytes : list Z;
  state : PageState;
  version : Z;
  newer : option nat;
  older : option nat;
}.

Record CacheInner : Type := mkInner {
  pages : gmap nat CacheEntry;
  lru_head : option nat;
  lru_tail : option nat;
  dirty : gset nat;
}.

Definition inner_new : CacheInner := mkInner ∅ None None ∅.

Definition set_newer (n : option nat) (e : CacheEntry) : CacheEntry :=
  mkEntry (bytes e) (state e) (version e) n (older e).
Definition set_older (o : option nat) (e : CacheEntry) : CacheEntry :=
  mkEntry (bytes e) (state e) (version e) (newer e) o.

Definition with_pages (c : CacheInner) (m : gmap nat CacheEntry) : CacheInner :=
  mkInner m (lru_head c) (lru_tail c) (dirty c).
Definition with_head (c : CacheInner) (h : option nat) : CacheInner :=
  mkInner (pages c) h (lru_tail c) (dirty c).
Definition with_tail (c : CacheInner) (t : option nat) : CacheInner :=
  mkInner (pages c) (lru_head c) t (dirty c).
Definition with_dirty (c : CacheInner) (d : gset nat) : CacheInner :=
  mkInner (pages c) (lru_head c) (lru_tail c) d.

(** [if let Some(e) = self.pages.get_mut(&p) { f e }]. *)
Definition update_page (f : CacheEntry -> CacheEntry) (p : nat) (c : CacheInner) : CacheInner :=
  with_pages c (alter f p (pages c)).

Definition lru_unlink (c : CacheInner) (page_id : nat) : CacheInner :=
  match pages c !! page_id with
  | None => c
  | Some e =>
      let n := newer e in
      let o := older e in
      if bool_decide (n = None) && bool_decide (o = None)
         && bool_decide (lru_head c <> Some page_id)
      then c
      else
        let c1 := match n with
                  | Some q => update_page (set_older o) q c
                  | None => with_head c o
                  end in
        let c2 := match o with
                  | Some q => update_page (set_newer n) q c1
                  | None => with_tail c1 n
                  end in
        update_page (fun e => set_older None (set_newer None e)) page_id c2
  end.

Definition lru_push_front (c : CacheInner) (page_id : nat) : CacheInner :=
  match pages c !! page_id with
  | None => c
  | Some _ =>
      let old_head := lru_head c in
      let c1 := update_page (fun e => set_older old_head (set_newer None e)) page_id c in
      let c2 := match old_head with
                | Some h => update_page (set_newer (Some page_id)) h c1
                | None => with_tail c1 (Some page_id)
                end in
      with_head c2 (Some page_id)
  end.

Definition lru_touch (c : CacheInner) (page_id : nat) : CacheInner :=
  if bool_decide (lru_head c = Some page_id) then c
  else lru_push_front (lru_unlink c page_id) page_id.

Definition drop_entry (c : CacheInner) (page_id : nat) : CacheInner * bool :=
  match pages c !! page_id with
  | Some _ =>
      let c1 := lru_unlink c page_id in
      let c2 := with_pages c1 (delete page_id (pages c1)) in
      (with_dirty c2 (dirty c2 ∖ {[page_id]}), true)
  | None => (c, false)
  end.

Definition invalidate_all (c : CacheInner) : CacheInner := mkInner ∅ None None ∅.

(** The victim search walks from the tail toward the head; [None] is a walk
    that has not ended within its fuel. *)
Fixpoint lru_walk (fuel : nat) (m : gmap nat CacheEntry) (clean_only : bool)
    (cur : option nat) : option (option nat) :=
  match cur with
  | None => Some None
  | Some pid =>
      match fuel with
      | O => None
      | S fuel =>
          match m !! pid with
          | None => Some None
          | Some entry =>
              if negb clean_only || bool_decide (state entry = Clean) then Some (Some pid)
              else lru_walk fuel m clean_only (newer entry)
          end
      end
  end.

Definition lru_pick (c : CacheInner) (clean_only : bool) : option (option nat) :=
  lru_walk (size (pages c)) (pages c) clean_only (lru_tail c).

(** ** The critical sections of [PageCache]

    What the cache operations do to [CacheInner] between taking and releasing
    its lock. *)

Definition splice_bytes (offset : nat) (src dst : list Z) : list Z :=
  take offset dst ++ src ++ drop (offset + length src) dst.

(** End of [load_page_miss]: an entry that appeared meanwhile wins. *)
Definition commit_loaded (c : CacheInner) (page_id : nat) (bs : list Z) : CacheInner * list Z :=
  match pages c !! page_id with
  | Some entry => (lru_touch c page_id, bytes entry)
  | None =>
      (lru_touch (with_pages c (<[page_id := mkEntry bs Clean 0 None None]> (pages c))) page_id, bs)
  end.

(** The tail [install_full_page] and [modify_page] share. *)
Definition put_dirty (c : CacheInner) (page_id : nat) (entry : CacheEntry) (bs : list Z) : CacheInner :=
  let entry' := mkEntry bs Dirty (wrap64 (version entry + 1)) (newer entry) (older entry) in
  let c1 := with_pages c (<[page_id := entry']> (pages c)) in
  lru_touch (with_dirty c1 ({[page_id]} ∪ dirty c1)) page_id.

Definition commit_install (c : CacheInner) (page_id : nat) (bs : list Z) : CacheInner :=
  put_dirty c page_id (default (mkEntry [] Clean 0 None None) (pages c !! page_id)) bs.

Definition commit_splice (c : CacheInner) (page_id offset : nat) (bs : list Z) : option CacheInner :=
  match pages c !! page_id with
  | Some entry => Some (put_dirty c page_id entry (splice_bytes offset bs (bytes entry)))
  | None => None
  end.

(** End of [flush_one]: clean only if the bytes written are still current. *)
Definition commit_flushed (c : CacheInner) (page_id : nat) (v : Z) : CacheInner :=
  match pages c !! page_id with
  | Some entry =>
      if version entry =? v then
        let entry' := mkEntry (bytes entry) Clean (version entry) (newer entry) (older entry) in
        let c1 := with_pages c (<[page_id := entry']> (pages c)) in
        with_dirty c1 (dirty c1 ∖ {[page_id]})
      else c
  | None => c
  end.

(** End of a dirty eviction in [evict_to_fit]. *)
Definition commit_evicted (c : CacheInner) (page_id : nat) (v : Z) : CacheInner :=
  match pages c !! page_id with
  | Some entry => if version entry =? v then (drop_entry c page_id).1 else c
  | None => let c1 := lru_unlink c page_id in with_dirty c1 (dirty c1 ∖ {[page_id]})
  end.

(** ** The list the links represent

    [dseg m nw l od]: the pages of [l], most recent first, are linked in
    that order in [m], with [nw] before the first and [od] after the last. *)

Fixpoint dseg (m : gmap nat CacheEntry) (nw : option nat) (l : list nat) (od : option nat) : Prop :=
  match l with
  | [] => True
  | p :: l' =>
      (exists e, m !! p = Some e /\ newer e = nw /\
        older e = match l' with [] => od | q :: _ => Some q end) /\
      dseg m (Some p) l' od
  end.

Record linked (c : CacheInner) (l : list nat) : Prop := {
  linked_nodup : NoDup l;
  linked_seg : dseg (pages c) None l None;
  linked_head : lru_head c = head l;
  linked_tail : lru_tail c = last l;
  linked_detached : forall p e, pages c !! p = Some e -> p ∉ l -> newer e = None /\ older e = None;
}.

(** What the list operations leave alone: contents, states and versions. *)
Definition payload (e : CacheEntry) : list Z * PageState * Z := (bytes e, state e, version e).
Definition view (c : CacheInner) : gmap nat (list Z * PageState * Z) := payload <$> pages c.

Definition first_or {A} (l : list A) (d : option A) : option A :=
  match l with [] => d | x :: _ => Some x end.
Definition last_or {A} (l : list A) (d : option A) : option A :=
  match last l with Some x => Some x | None => d end.

Lemma last_or_cons {A} (x : A) l d : last_or (x :: l) d = last_or l (Some x).
Proof. unfold last_or. rewrite last_cons. by destruct (last l). Qed.

Lemma dseg_app m nw l1 l2 od :
  dseg m nw (l1 ++ l2) od <->
  dseg m nw l1 (first_or l2 od) /\ dseg m (last_or l1 nw) l2 od.
Proof.
  revert nw. induction l1 as [|p l1 IH]; intros nw; [by split; [intros ?|intros [_ ?]]|].
  rewrite last_or_cons. simpl. rewrite IH.
  assert (match l1 ++ l2 with [] => od | q :: _ => Some q end =
    match l1 with [] => first_or l2 od | q :: _ => Some q end) as -> by (destruct l1, l2; done).
  naive_solver.
Qed.

Lemma dseg_in m nw l od p : dseg m nw l od -> p ∈ l -> is_Some (m !! p).
Proof.
  revert nw. induction l as [|q l IH]; intros nw; simpl; [set_solver|].
  intros [(e & He & _) Hd] [->|Hin]%elem_of_cons; [by eexists|by eapply IH].
Qed.

Lemma dseg_frame m m' nw l od :
  (forall p, p ∈ l -> m' !! p = m !! p) -> dseg m nw l od -> dseg m' nw l od.
Proof.
  revert nw. induction l as [|q l IH]; intros nw Hf; simpl; [done|].
  intros [(e & He & Hn & Ho) Hd]. split; [exists e; rewrite Hf by set_solver; done|].
  apply IH; [|done]. set_solver.
Qed.

Lemma dseg_alter_out m f q nw l od : q ∉ l -> dseg m nw l od -> dseg (alter f q m) nw l od.
Proof.
  intros Hq. apply dseg_frame. intros p Hp. apply lookup_alter_ne. set_solver.
Qed.

Lemma dseg_set_last m nw l n od od' :
  NoDup (l ++ [n]) -> dseg m nw (l ++ [n]) od -> dseg (alter (set_older od') n m) nw (l ++ [n]) od'.
Proof.
  intros Hnd. rewrite !dseg_app. simpl. intros [Hl [(e & He & Hn & _) _]].
  apply NoDup_app in Hnd as (_ & Hd & _). split; [apply dseg_alter_out; [set_solver|done]|].
  split; [|done]. exists (set_older od' e). by rewrite lookup_alter_eq, He.
Qed.

Lemma dseg_set_head m nw nw' h l od :
  NoDup (h :: l) -> dseg m nw (h :: l) od -> dseg (alter (set_newer nw') h m) nw' (h :: l) od.
Proof.
  intros [Hh _]%NoDup_cons. simpl. intros [(e & He & _ & Ho) Hd].
  split; [|by apply dseg_alter_out]. exists (set_newer nw' e). by rewrite lookup_alter_eq, He.
Qed.

Lemma linked_in c l p : linked c l -> p ∈ l -> is_Some (pages c !! p).
Proof. intros Hl. by eapply dseg_in, linked_seg. Qed.

Lemma linked_node c l1 p l2 :
  linked c (l1 ++ p :: l2) ->
  exists e, pages c !! p = Some e /\ newer e = last l1 /\ older e = head l2.
Proof.
  intros [_ Hs _ _ _]. apply dseg_app in Hs as [_ [(e & He & Hn & Ho) _]].
  exists e. split; [done|]. rewrite Hn, Ho. unfold last_or. destruct (last l1), l2; done.
Qed.

Lemma lru_unlink_out c l p : linked c l -> p ∉ l -> lru_unlink c p = c.
Proof.
  intros Hl Hp. unfold lru_unlink. destruct (pages c !! p) as [e|] eqn:He; [|done].
  destruct (linked_detached _ _ Hl p e He Hp) as [-> ->].
  rewrite !bool_decide_eq_true_2; [done| |done].
  rewrite (linked_head _ _ Hl). intros Hh. apply Hp. destruct l; simplify_eq/=. set_solver.
Qed.

(** The page map after an unlink between [l1] and [l2]. *)
Definition patch_last (l1 : list nat) (o : option nat) (m : gmap nat CacheEntry) :=
  match last l1 with Some q => alter (set_older o) q m | None => m end.
Definition patch_head (l2 : list nat) (n : option nat) (m : gmap nat CacheEntry) :=
  match head l2 with Some q => alter (set_newer n) q m | None => m end.

Lemma patch_last_out l1 o m q : q ∉ l1 -> patch_last l1 o m !! q = m !! q.
Proof.
  intros Hq. unfold patch_last. destruct (last l1) as [n|] eqn:E; [|done].
  apply lookup_alter_ne. intros ->. apply Hq, last_Some_elem_of, E.
Qed.

Lemma patch_head_out l2 n m q : q ∉ l2 -> patch_head l2 n m !! q = m !! q.
Proof.
  intros Hq. unfold patch_head. destruct l2 as [|o l2]; [done|].
  apply lookup_alter_ne. set_solver.
Qed.

Lemma patch_last_seg m nw l1 od od' :
  NoDup l1 -> dseg m nw l1 od -> dseg (patch_last l1 od' m) nw l1 od'.
Proof.
  destruct l1 as [|n l1 _] using rev_ind; [done|]. intros Hnd Hs.
  unfold patch_last. rewrite last_snoc. by apply dseg_set_last with od.
Qed.

Lemma patch_head_seg m nw nw' l2 od :
  NoDup l2 -> dseg m nw l2 od -> dseg (patch_head l2 nw' m) nw' l2 od.
Proof. destruct l2; [done|]. intros. by eapply dseg_set_head. Qed.

Lemma lru_unlink_pages c l1 p l2 :
  linked c (l1 ++ p :: l2) ->
  lru_unlink c p =
    mkInner (alter (fun e => set_older None (set_newer None e)) p
               (patch_head l2 (last l1) (patch_last l1 (head l2) (pages c))))
      (head (l1 ++ l2)) (last (l1 ++ l2)) (dirty c).
Proof.
  intros Hl. destruct (linked_node _ _ _ _ Hl) as (e & He & Hn & Ho).
  destruct Hl as [Hnd _ Hh Ht _]. unfold lru_unlink. rewrite He, Hn, Ho. cbv zeta.
  unfold patch_head, patch_last, update_page, with_head, with_tail, with_pages.
  rewrite last_app in Ht. rewrite last_app.
  destruct l1 as [|n l1 _] using rev_ind.
  - simpl in *. destruct l2 as [|o l2]; simpl.
    + by rewrite (bool_decide_eq_false_2 (lru_head c <> Some p)) by (by intros []).
    + rewrite last_cons_cons in Ht. by rewrite Ht, last_cons; destruct (last l2).
  - rewrite last_snoc. simpl. rewrite <- app_assoc in Hh. rewrite <- app_assoc.
    destruct l2 as [|o l2]; simpl.
    + rewrite Hh. f_equal. by destruct l1.
    + rewrite Hh, Ht, !last_cons. f_equal; [by destruct l1|]. by destruct (last l2).
Qed.

Lemma NoDup_middle {A} (l1 : list A) x l2 :
  NoDup (l1 ++ x :: l2) <-> (x ∉ l1) /\ (x ∉ l2) /\ NoDup (l1 ++ l2).
Proof. rewrite !NoDup_app, NoDup_cons. set_solver. Qed.

Lemma lru_unlink_in c l1 p l2 : linked c (l1 ++ p :: l2) -> linked (lru_unlink c p) (l1 ++ l2).
Proof.
  intros Hl. rewrite (lru_unlink_pages _ _ _ _ Hl). destruct Hl as [Hnd Hs Hh Ht Hd].
  apply NoDup_middle in Hnd as (Hp1 & Hp2 & Hnd). apply NoDup_app in Hnd as Hnd'.
  destruct Hnd' as (Hnd1 & Hdj & Hnd2).
  apply dseg_app in Hs as [Hs1 [_ Hs2]]. split; simpl; try done.
  - apply dseg_alter_out; [set_solver|]. apply dseg_app. split.
    + eapply dseg_frame; [intros; apply patch_head_out; set_solver|].
      assert (first_or l2 None = head l2) as -> by by destruct l2. by eapply patch_last_seg.
    + assert (last_or l1 None = last l1) as -> by (unfold last_or; by destruct (last l1)).
      eapply patch_head_seg; [done|].
      eapply dseg_frame; [intros; apply patch_last_out; set_solver|done].
  - intros q e Hq Hnin. destruct (decide (q = p)) as [->|Hne].
    + rewrite lookup_alter_eq in Hq. apply fmap_Some in Hq as (? & _ & ->). done.
    + rewrite lookup_alter_ne, patch_head_out, patch_last_out in Hq by set_solver.
      apply (Hd q e Hq). set_solver.
Qed.

Lemma lru_push_front_linked c l p :
  linked c l -> p ∉ l -> is_Some (pages c !! p) -> linked (lru_push_front c p) (p :: l).
Proof.
  intros [Hnd Hs Hh Ht Hd] Hp [e He]. unfold lru_push_front. rewrite He, Hh. cbv zeta.
  set (m1 := alter (fun e => set_older (head l) (set_newer None e)) p (pages c)).
  assert (Hm1 : m1 !! p = Some (set_older (head l) (set_newer None e))).
  { unfold m1. by rewrite lookup_alter_eq, He. }
  assert (Hs1 : dseg m1 None l None) by (by apply dseg_alter_out).
  assert (forall q x, m1 !! q = Some x -> q ∉ p :: l -> newer x = None /\ older x = None) as Hd1.
  { intros q x Hq Hn. unfold m1 in Hq. rewrite lookup_alter_ne in Hq by set_solver.
    apply (Hd q x Hq). set_solver. }
  destruct l as [|h l]; simpl in *.
  - split; simpl; try done; [apply NoDup_singleton|]. split; [by eexists|done].
  - split; simpl.
    + by apply NoDup_cons.
    + split; [|by apply (dseg_set_head m1 None)].
      exists (set_older (Some h) (set_newer None e)). split; [|done]. etrans; [apply lookup_alter_ne; set_solver|exact Hm1].
    + done.
    + exact Ht.
    + intros q x Hq Hn. rewrite lookup_alter_ne in Hq by set_solver. by eapply Hd1.
Qed.

Definition others (p : nat) (l : list nat) : list nat := filter (fun q => q <> p) l.

Lemma others_out p l : p ∉ l -> others p l = l.
Proof.
  unfold others. induction l as [|q l IH]; [done|]. intros [Hq Hl]%not_elem_of_cons.
  by rewrite filter_cons_True, IH by auto.
Qed.

Lemma others_middle l1 p l2 : p ∉ l1 -> p ∉ l2 -> others p (l1 ++ p :: l2) = l1 ++ l2.
Proof.
  intros H1 H2. unfold others. rewrite filter_app, filter_cons_False by auto.
  f_equal; by apply others_out.
Qed.

Lemma lru_unlink_linked c l p : linked c l -> linked (lru_unlink c p) (others p l).
Proof.
  intros Hl. destruct (decide (p ∈ l)) as [Hin|Hout].
  - apply list_elem_of_split in Hin as (l1 & l2 & ->).
    pose proof (linked_nodup _ _ Hl) as (H1 & H2 & _)%NoDup_middle.
    rewrite others_middle by done. by apply lru_unlink_in.
  - by rewrite (lru_unlink_out _ _ _ Hl), others_out.
Qed.

(** Neither links nor the order reach what is stored. *)
Lemma alter_view (f : CacheEntry -> CacheEntry) (p : nat) (m : gmap nat CacheEntry) :
  (forall e, payload (f e) = payload e) -> payload <$> alter f p m = payload <$> m.
Proof.
  intros Hf. apply map_eq. intros q. rewrite !lookup_fmap.
  destruct (decide (q = p)) as [->|Hne]; [|by rewrite lookup_alter_ne].
  rewrite lookup_alter_eq. destruct (m !! p); simpl; [by rewrite Hf|done].
Qed.

Lemma lru_unlink_view c p : view (lru_unlink c p) = view c /\ dirty (lru_unlink c p) = dirty c.
Proof.
  unfold lru_unlink, view. destruct (pages c !! p) as [e|]; [|done]. cbv zeta.
  case_match; [done|]. destruct (newer e), (older e); simpl; split; try done;
    by rewrite !alter_view.
Qed.

Lemma lru_push_front_view c p :
  view (lru_push_front c p) = view c /\ dirty (lru_push_front c p) = dirty c.
Proof.
  unfold lru_push_front, view. destruct (pages c !! p) as [e|]; [|done]. cbv zeta.
  destruct (lru_head c); simpl; split; try done; by rewrite !alter_view.
Qed.

Lemma lru_touch_view c p : view (lru_touch c p) = view c /\ dirty (lru_touch c p) = dirty c.
Proof.
  unfold lru_touch. case_bool_decide; [done|].
  destruct (lru_unlink_view c p) as [<- <-]. apply lru_push_front_view.
Qed.

Lemma view_dom c c' p : view c = view c' -> is_Some (pages c !! p) <-> is_Some (pages c' !! p).
Proof.
  intros Hv. pose proof (f_equal (lookup p) Hv) as Hp. unfold view in Hp.
  rewrite !lookup_fmap in Hp. destruct (pages c !! p), (pages c' !! p); done.
Qed.

Lemma lru_touch_linked c l p :
  linked c l -> is_Some (pages c !! p) -> linked (lru_touch c p) (p :: others p l).
Proof.
  intros Hl Hp. unfold lru_touch. case_bool_decide as Hh.
  - rewrite (linked_head _ _ Hl) in Hh. destruct l as [|q l]; simplify_eq/=.
    pose proof (linked_nodup _ _ Hl) as [Hn _]%NoDup_cons.
    assert (others p (p :: l) = l) as -> by (apply (others_middle [] p l); [set_solver|done]). done.
  - apply lru_push_front_linked; [by apply lru_unlink_linked| |].
    + unfold others. rewrite list_elem_of_filter. by intros [].
    + by rewrite (view_dom _ c) by apply lru_unlink_view.
Qed.

Lemma linked_delete c l p :
  linked c l -> p ∉ l -> linked (with_pages c (delete p (pages c))) l.
Proof.
  intros [Hnd Hs Hh Ht Hd] Hp. split; simpl; try done.
  - eapply dseg_frame; [|done]. intros q Hq. apply lookup_delete_ne. by intros ->.
  - intros q e [_ Hq]%lookup_delete_Some. by apply Hd.
Qed.

(** ** The invariant of the cache

    Every cached page is on the list, and the dirty set is the set of the
    entries in state [Dirty]. *)

Record inner_wf (c : CacheInner) (l : list nat) : Prop := {
  wf_linked : linked c l;
  wf_dom : forall p, p ∈ l <-> is_Some (pages c !! p);
  wf_dirty : forall p, p ∈ dirty c <-> exists e, pages c !! p = Some e /\ state e = Dirty;
}.

Lemma dseg_put m p e' nw l od :
  (forall e, m !! p = Some e -> newer e' = newer e /\ older e' = older e) ->
  dseg m nw l od -> dseg (<[p := e']> m) nw l od.
Proof.
  intros He. revert nw. induction l as [|q l IH]; intros nw; simpl; [done|].
  intros [(e & Hq & Hn & Ho) Hd]. split; [|by apply IH].
  destruct (decide (q = p)) as [->|Hne].
  - destruct (He e Hq) as [E1 E2]. exists e'. rewrite lookup_insert_eq, E1, E2. done.
  - exists e. by rewrite lookup_insert_ne.
Qed.

(** Storing an entry with the links the page had, or none. *)
Lemma linked_put c l p e' :
  linked c l ->
  (forall e, pages c !! p = Some e -> newer e' = newer e /\ older e' = older e) ->
  (pages c !! p = None -> newer e' = None /\ older e' = None) ->
  linked (with_pages c (<[p := e']> (pages c))) l.
Proof.
  intros [Hnd Hs Hh Ht Hd] He Hn. split; simpl; try done; [by apply dseg_put|].
  intros q x [[<- <-]|[Hne Hq]]%lookup_insert_Some Hout; [|by apply (Hd q x)].
  destruct (pages c !! p) as [e|] eqn:E; [|by apply Hn].
  destruct (He e eq_refl) as [-> ->]. by apply (Hd p e).
Qed.

Lemma linked_dirty c l d : linked c l -> linked (with_dirty c d) l.
Proof. by intros []. Qed.

Lemma view_state c p bs st v :
  view c !! p = Some (bs, st, v) -> exists e, pages c !! p = Some e /\ bytes e = bs /\
    state e = st /\ version e = v.
Proof. unfold view. rewrite lookup_fmap_Some. unfold payload. intros (e & ? & ?). simplify_eq. eauto 10. Qed.

Lemma lookup_view c p : view c !! p = payload <$> pages c !! p.
Proof. apply lookup_fmap. Qed.

Definition is_dirty (x : option (list Z * PageState * Z)) : Prop :=
  exists bs v, x = Some (bs, Dirty, v).

Lemma is_dirty_view c p :
  is_dirty (view c !! p) <-> exists e, pages c !! p = Some e /\ state e = Dirty.
Proof.
  rewrite lookup_view. split.
  - intros (bs & v & (e & He & Hx)%fmap_Some). exists e. unfold payload in Hx. by simplify_eq.
  - intros (e & -> & He). exists (bytes e), (version e). unfold payload. simpl. by rewrite He.
Qed.

(** The invariant in terms of [linked], [view] and [dirty]. *)
Lemma inner_wf_intro c l :
  linked c l -> (forall p, p ∈ l <-> is_Some (view c !! p)) ->
  (forall p, p ∈ dirty c <-> is_dirty (view c !! p)) -> inner_wf c l.
Proof.
  intros H1 H2 H3. split; [done| |].
  - intros p. by rewrite H2, lookup_view, fmap_is_Some.
  - intros p. by rewrite H3, is_dirty_view.
Qed.

Lemma inner_wf_elim c l :
  inner_wf c l -> linked c l /\ (forall p, p ∈ l <-> is_Some (view c !! p)) /\
  (forall p, p ∈ dirty c <-> is_dirty (view c !! p)).
Proof.
  intros [H1 H2 H3]. split_and!; [done| |].
  - intros p. by rewrite H2, lookup_view, fmap_is_Some.
  - intros p. by rewrite H3, is_dirty_view.
Qed.

Lemma elem_of_others p q l : q ∈ others p l <-> q <> p /\ q ∈ l.
Proof. unfold others. by rewrite list_elem_of_filter. Qed.

Lemma view_put c p e : view (with_pages c (<[p := e]> (pages c))) = <[p := payload e]> (view c).
Proof. apply fmap_insert. Qed.

Lemma view_delete c p : view (with_pages c (delete p (pages c))) = delete p (view c).
Proof. apply fmap_delete. Qed.

(** Touching a page whose entry was just stored re-establishes the
    invariant, given the dirty set is right. *)
Lemma touch_wf c l p :
  linked c l -> is_Some (pages c !! p) ->
  (forall q, q <> p -> q ∈ l <-> is_Some (view c !! q)) ->
  (forall q, q ∈ dirty c <-> is_dirty (view c !! q)) ->
  inner_wf (lru_touch c p) (p :: others p l).
Proof.
  intros Hl Hp Hdom Hd. destruct (lru_touch_view c p) as [Ev Ed].
  apply inner_wf_intro; [by apply lru_touch_linked| |].
  - intros q. rewrite Ev, elem_of_cons, elem_of_others.
    destruct (decide (q = p)) as [->|Hne]; [|rewrite <- (Hdom q Hne); naive_solver].
    rewrite lookup_view, fmap_is_Some. naive_solver.
  - intros q. by rewrite Ed, Ev.
Qed.

Lemma lru_touch_wf c l p :
  inner_wf c l -> is_Some (pages c !! p) -> inner_wf (lru_touch c p) (p :: others p l).
Proof. intros (Hl & H1 & H2)%inner_wf_elim Hp. by apply touch_wf. Qed.

Lemma commit_loaded_wf c l p bs :
  inner_wf c l ->
  inner_wf (commit_loaded c p bs).1 (p :: others p l) /\
  view (commit_loaded c p bs).1 =
    match view c !! p with Some _ => view c | None => <[p := (bs, Clean, 0)]> (view c) end /\
  (commit_loaded c p bs).2 = match view c !! p with Some (b, _, _) => b | None => bs end.
Proof.
  intros Hw. unfold commit_loaded. rewrite lookup_view.
  destruct (pages c !! p) as [e|] eqn:E; simpl.
  - split; [apply lru_touch_wf; eauto|]. by split; [apply lru_touch_view|].
  - apply inner_wf_elim in Hw as (Hl & H1 & H2).
    set (c1 := with_pages c _). assert (Hv : view c1 = <[p := (bs, Clean, 0)]> (view c)) by apply view_put.
    split; [|split; [|done]].
    + apply touch_wf.
      * apply linked_put; [done|congruence|done].
      * simpl. rewrite lookup_insert_eq. eauto.
      * intros q Hq. rewrite Hv, lookup_insert_ne by done. apply H1.
      * intros q. rewrite Hv. simpl. rewrite H2. destruct (decide (q = p)) as [->|Hne].
        -- rewrite lookup_insert_eq, lookup_view, E. split; intros (? & ? & ?); done.
        -- by rewrite lookup_insert_ne.
    + by rewrite (proj1 (lru_touch_view c1 p)), Hv.
Qed.

Lemma put_dirty_wf c l p e bs :
  inner_wf c l -> e = default (mkEntry [] Clean 0 None None) (pages c !! p) ->
  inner_wf (put_dirty c p e bs) (p :: others p l) /\
  view (put_dirty c p e bs) = <[p := (bs, Dirty, wrap64 (version e + 1))]> (view c).
Proof.
  intros (Hl & H1 & H2)%inner_wf_elim He. unfold put_dirty. cbv zeta.
  set (e' := mkEntry bs Dirty _ _ _). set (c1 := with_pages c _).
  assert (Hv : view (with_dirty c1 ({[p]} ∪ dirty c1)) = <[p := payload e']> (view c)) by apply view_put.
  split; [|by rewrite (proj1 (lru_touch_view _ p)), Hv].
  apply touch_wf.
  - apply linked_dirty, linked_put; [done| |]; intros; subst e; simpl in *.
    + by match goal with H : _ = Some _ |- _ => rewrite H end.
    + by match goal with H : _ = None |- _ => rewrite H end.
  - simpl. rewrite lookup_insert_eq. eauto.
  - intros q Hq. rewrite Hv, lookup_insert_ne by done. apply H1.
  - intros q. rewrite Hv. simpl. destruct (decide (q = p)) as [->|Hne].
    + rewrite lookup_insert_eq. split; [by eexists _, _|set_solver].
    + rewrite lookup_insert_ne by done. rewrite <- H2. set_solver.
Qed.

Lemma drop_entry_wf c l p :
  inner_wf c l ->
  inner_wf (drop_entry c p).1 (others p l) /\ view (drop_entry c p).1 = delete p (view c).
Proof.
  intros Hw. pose proof Hw as (Hl & H1 & H2)%inner_wf_elim. unfold drop_entry.
  destruct (pages c !! p) as [e|] eqn:E; simpl.
  - destruct (lru_unlink_view c p) as [Ev Ed]. set (c1 := lru_unlink c p) in *.
    assert (Hv : view (with_dirty (with_pages c1 (delete p (pages c1))) (dirty c1 ∖ {[p]}))
                 = delete p (view c)) by (rewrite <- Ev; apply view_delete).
    split; [|done]. apply inner_wf_intro.
    + apply linked_dirty, linked_delete; [by apply lru_unlink_linked|]. rewrite elem_of_others. naive_solver.
    + intros q. rewrite Hv, elem_of_others, H1, lookup_delete. case_decide; naive_solver.
    + intros q. rewrite Hv. simpl. rewrite Ed, elem_of_difference, H2, elem_of_singleton, lookup_delete.
      case_decide; [|naive_solver]. split; [naive_solver|]. by intros (? & ? & ?).
  - assert (p ∉ l) as Hn by (rewrite H1, lookup_view, E; by intros []).
    rewrite others_out by done. split; [done|]. symmetry. apply delete_id. by rewrite lookup_view, E.
Qed.

Lemma commit_flushed_wf c l p v :
  inner_wf c l ->
  inner_wf (commit_flushed c p v) l /\
  view (commit_flushed c p v) =
    match view c !! p with
    | Some (b, _, v') => if v' =? v then <[p := (b, Clean, v')]> (view c) else view c
    | None => view c
    end.
Proof.
  intros Hw. pose proof Hw as (Hl & H1 & H2)%inner_wf_elim. unfold commit_flushed. rewrite lookup_view.
  destruct (pages c !! p) as [e|] eqn:E; simpl; [|done]. destruct (version e =? v); [|done].
  cbv zeta. set (c1 := with_pages c _).
  assert (Hv : view (with_dirty c1 (dirty c ∖ {[p]})) = <[p := (bytes e, Clean, version e)]> (view c))
    by apply view_put.
  split; [|done]. apply inner_wf_intro.
  - apply linked_dirty, linked_put; [done| |]; intros; simplify_eq; done.
  - intros q. rewrite Hv, H1, lookup_insert. case_decide; [|done]. subst.
    rewrite lookup_view, E. split; eauto.
  - intros q. rewrite Hv. simpl. rewrite elem_of_difference, H2, elem_of_singleton, lookup_insert.
    case_decide; [|naive_solver]. subst. split; [naive_solver|]. by intros (? & ? & ?).
Qed.

Lemma commit_evicted_wf c l p v :
  inner_wf c l ->
  exists l', inner_wf (commit_evicted c p v) l' /\
  l' = (match view c !! p with Some (_, _, v') => if v' =? v then others p l else l | None => l end) /\
  view (commit_evicted c p v) =
    match view c !! p with
    | Some (_, _, v') => if v' =? v then delete p (view c) else view c
    | None => view c
    end.
Proof.
  intros Hw. pose proof Hw as (Hl & H1 & H2)%inner_wf_elim. unfold commit_evicted.
  rewrite lookup_view. destruct (pages c !! p) as [e|] eqn:E; simpl.
  - destruct (version e =? v); [|eauto]. destruct (drop_entry_wf c l p Hw). eauto.
  - exists l. split; [|split; [done|apply lru_unlink_view]].
    assert (p ∉ l) as Hn by (rewrite H1, lookup_view, E; by intros []).
    rewrite (lru_unlink_out _ _ _ Hl Hn). apply inner_wf_intro; [by apply linked_dirty|done|].
    intros q. simpl. rewrite elem_of_difference, H2, elem_of_singleton.
    destruct (decide (q = p)) as [->|]; [|naive_solver].
    change (view (with_dirty c _)) with (view c). rewrite lookup_view, E.
    split; [naive_solver|]. by intros (? & ? & ?).
Qed.

(** ** The victim search *)

Definition evictable (c : CacheInner) (clean_only : bool) (p : nat) : Prop :=
  clean_only = false \/ ~ is_dirty (view c !! p).

#[export] Instance is_dirty_dec x : Decision (is_dirty x).
Proof.
  refine (match x with Some (_, Dirty, _) => left _ | _ => right _ end); [by intros (? & ? & ?)..| |].
  - by eexists _, _.
  - by intros (? & ? & ?).
Defined.

#[export] Instance evictable_dec c co p : Decision (evictable c co p).
Proof. unfold evictable. apply _. Defined.

Lemma evictable_entry c co p e :
  pages c !! p = Some e ->
  negb co || bool_decide (state e = Clean) = bool_decide (evictable c co p).
Proof.
  intros He. assert (Hd : is_dirty (view c !! p) <-> state e = Dirty)
    by (rewrite is_dirty_view, He; naive_solver).
  destruct co; [|symmetry; apply bool_decide_eq_true_2; by left].
  apply bool_decide_ext. unfold evictable. rewrite Hd. destruct (state e); naive_solver.
Qed.

Lemma lru_walk_spec c co l od fuel :
  dseg (pages c) None l od -> (length l <= fuel)%nat ->
  lru_walk fuel (pages c) co (last l) = Some (last (filter (evictable c co) l)).
Proof.
  revert od fuel. induction l as [|p l IH] using rev_ind; intros od fuel Hs Hf; [by destruct fuel|].
  rewrite length_app in Hf. simpl in Hf. destruct fuel as [|fuel]; [lia|].
  apply dseg_app in Hs as [Hs [(e & He & Hn & _) _]].
  rewrite last_snoc. cbn [lru_walk]. rewrite He, (evictable_entry c co p e He), filter_app.
  case_bool_decide as Hev.
  - by rewrite filter_cons_True, filter_nil, last_snoc by done.
  - rewrite filter_cons_False, filter_nil, app_nil_r by done.
    assert (newer e = last l) as -> by (rewrite Hn; unfold last_or; by destruct (last l)).
    apply (IH _ _ Hs). lia.
Qed.

Lemma wf_size c l : inner_wf c l -> size (pages c) = length l.
Proof.
  intros [Hl Hd _]. rewrite <- size_dom.
  assert (dom (pages c) = list_to_set l) as ->.
  { apply set_eq. intros p. by rewrite elem_of_dom, elem_of_list_to_set, Hd. }
  apply size_list_to_set, Hl.
Qed.

Lemma lru_pick_spec c l co :
  inner_wf c l -> lru_pick c co = Some (last (filter (evictable c co) l)).
Proof.
  intros Hw. unfold lru_pick. rewrite (wf_size _ _ Hw), (linked_tail _ _ (wf_linked _ _ Hw)).
  by apply (lru_walk_spec c co l None); [apply Hw|].
Qed.

(** ** Histories

    The reference: the cached pages as a list, most recently used first, of
    page ids with contents, state and version. *)

Inductive InnerOp : Type :=
  | OpHit (p : nat)
  | OpLoad (p : nat) (bs : list Z)
  | OpInstall (p : nat) (bs : list Z)
  | OpSplice (p offset : nat) (bs : list Z)
  | OpDrop (p : nat)
  | OpFlushed (p : nat) (v : Z)
  | OpEvicted (p : nat) (v : Z)
  | OpInvalidateAll.

Definition inner_op (c : CacheInner) (op : InnerOp) : CacheInner :=
  match op with
  | OpHit p => match pages c !! p with Some _ => lru_touch c p | None => c end
  | OpLoad p bs => (commit_loaded c p bs).1
  | OpInstall p bs => commit_install c p bs
  | OpSplice p off bs => default c (commit_splice c p off bs)
  | OpDrop p => (drop_entry c p).1
  | OpFlushed p v => commit_flushed c p v
  | OpEvicted p v => commit_evicted c p v
  | OpInvalidateAll => invalidate_all c
  end.

Definition Recency : Type := list (nat * (list Z * PageState * Z)).

Fixpoint assoc (p : nat) (s : Recency) : option (list Z * PageState * Z) :=
  match s with
  | [] => None
  | (q, x) :: s => if decide (p = q) then Some x else assoc p s
  end.

Definition remove (p : nat) (s : list (nat * (list Z * PageState * Z))) : Recency :=
  filter (fun y => y.1 <> p) s.

Definition to_front (p : nat) (x : list Z * PageState * Z) (s : Recency) : Recency :=
  (p, x) :: remove p s.

Definition recency_op (s : Recency) (op : InnerOp) : Recency :=
  match op with
  | OpHit p => match assoc p s with Some x => to_front p x s | None => s end
  | OpLoad p bs => to_front p (default (bs, Clean, 0) (assoc p s)) s
  | OpInstall p bs =>
      to_front p (bs, Dirty, wrap64 (match assoc p s with Some (_, _, v) => v | None => 0 end + 1)) s
  | OpSplice p off bs =>
      match assoc p s with
      | Some (b, _, v) => to_front p (splice_bytes off bs b, Dirty, wrap64 (v + 1)) s
      | None => s
      end
  | OpDrop p => remove p s
  | OpFlushed p v =>
      map (fun '(q, (b, st, v')) =>
        (q, (b, if bool_decide (q = p) && (v' =? v) then Clean else st, v'))) s
  | OpEvicted p v =>
      match assoc p s with
      | Some (_, _, v') => if v' =? v then remove p s else s
      | None => s
      end
  | OpInvalidateAll => []
  end.

Definition represents (c : CacheInner) (s : Recency) : Prop :=
  inner_wf c s.*1 /\ forall p, view c !! p = assoc p s.

Lemma assoc_remove p q s : assoc q (remove p s) = if decide (q = p) then None else assoc q s.
Proof.
  unfold remove. induction s as [|[r x] s IH]; [by case_decide|].
  rewrite filter_cons. simpl.
  destruct (decide (r <> p)) as [Hr|Hr]; simpl; rewrite IH; repeat case_decide; naive_solver.
Qed.

Lemma fst_remove p s : (remove p s).*1 = others p s.*1.
Proof.
  unfold remove, others. induction s as [|[q x] s IH]; [done|].
  rewrite fmap_cons, !filter_cons. cbn [fst].
  destruct (decide (q <> p)); rewrite ?fmap_cons; by rewrite IH.
Qed.

Lemma represents_to_front c c' s p x :
  inner_wf c' (p :: others p s.*1) -> view c' = <[p := x]> (view c) ->
  (forall q, view c !! q = assoc q s) -> represents c' (to_front p x s).
Proof.
  intros Hw Hv Hs. split; [unfold to_front; simpl; by rewrite fst_remove|].
  intros q. rewrite Hv. unfold to_front. simpl. rewrite assoc_remove, lookup_insert, Hs.
  repeat case_decide; naive_solver.
Qed.

Lemma represents_remove c c' s p :
  inner_wf c' (others p s.*1) -> view c' = delete p (view c) ->
  (forall q, view c !! q = assoc q s) -> represents c' (remove p s).
Proof.
  intros Hw Hv Hs. split; [by rewrite fst_remove|].
  intros q. rewrite Hv, assoc_remove, lookup_delete, Hs. repeat case_decide; naive_solver.
Qed.

Definition flushed (p : nat) (v : Z) (q : nat) (x : list Z * PageState * Z) : list Z * PageState * Z :=
  let '(b, st, v') := x in (b, if bool_decide (q = p) && (v' =? v) then Clean else st, v').

Lemma recency_flushed s p v :
  let s' := recency_op s (OpFlushed p v) in
  s'.*1 = s.*1 /\ forall q, assoc q s' = flushed p v q <$> assoc q s.
Proof.
  cbv zeta. simpl. induction s as [|[q [[b st] w]] s [IH1 IH2]]; [done|]. split.
  - simpl. f_equal. exact IH1.
  - intros r. simpl. case_decide as Hr; [by subst|apply IH2].
Qed.

Lemma represents_flushed c s p v :
  represents c s -> represents (commit_flushed c p v) (recency_op s (OpFlushed p v)).
Proof.
  intros [Hw Hs]. destruct (commit_flushed_wf c _ p v Hw) as [Hw' Hv].
  destruct (recency_flushed s p v) as [E1 E2]. split; [by rewrite E1|].
  intros q. rewrite E2, <- Hs, Hv. destruct (view c !! p) as [[[b st] w]|] eqn:E.
  - destruct (decide (q = p)) as [->|Hne].
    + rewrite E. simpl. rewrite bool_decide_eq_true_2 by done. simpl.
      destruct (w =? v); [by rewrite lookup_insert_eq|done].
    + assert (flushed p v q <$> view c !! q = view c !! q) as ->.
      { destruct (view c !! q) as [[[? ?] ?]|]; [|done]. simpl. by rewrite bool_decide_eq_false_2. }
      destruct (w =? v); [by rewrite lookup_insert_ne|done].
  - destruct (view c !! q) as [[[? ?] ?]|] eqn:Eq; [|done]. simpl.
    by rewrite bool_decide_eq_false_2 by congruence.
Qed.

Lemma represents_empty c : represents (invalidate_all c) [].
Proof.
  split; [|done]. apply inner_wf_intro.
  - split; simpl; try done; constructor.
  - intros p. simpl. rewrite elem_of_nil. split; [done|]. by intros [].
  - intros p. simpl. rewrite elem_of_empty. split; [done|]. by intros (? & ? & ?).
Qed.

Lemma represents_op c s op : represents c s -> represents (inner_op c op) (recency_op s op).
Proof.
  intros Hr. pose proof Hr as [Hw Hs]. destruct op as [p|p bs|p bs|p off bs|p|p v|p v|].
  6: by apply represents_flushed.
  all: cbn [inner_op recency_op].
  - pose proof (Hs p) as Hp. rewrite lookup_view in Hp.
    destruct (pages c !! p) as [e|] eqn:E; simpl in Hp; rewrite <- Hp; [|by split].
    apply (represents_to_front c); [apply lru_touch_wf; eauto| |done].
    rewrite (proj1 (lru_touch_view c p)), insert_id; [done|]. by rewrite Hs.
  - destruct (commit_loaded_wf c _ p bs Hw) as (Hw' & Hv & _).
    apply (represents_to_front c); [done| |done]. rewrite Hv, Hs.
    destruct (assoc p s) eqn:E; [|done]. simpl. rewrite insert_id; [done|]. by rewrite Hs.
  - destruct (put_dirty_wf c _ p _ bs Hw eq_refl) as [Hw' Hv].
    apply (represents_to_front c); [done| |done]. unfold commit_install. rewrite Hv, <- Hs, lookup_view.
    by destruct (pages c !! p).
  - unfold commit_splice. pose proof (Hs p) as Hp. rewrite lookup_view in Hp.
    destruct (pages c !! p) as [e|] eqn:E; simpl in Hp; rewrite <- Hp; [|by split]. simpl.
    destruct (put_dirty_wf c _ p e (splice_bytes off bs (bytes e)) Hw) as [Hw' Hv]; [by rewrite E|].
    by apply (represents_to_front c).
  - destruct (drop_entry_wf c _ p Hw) as [Hw' Hv]. by apply (represents_remove c).
  - destruct (commit_evicted_wf c _ p v Hw) as (l' & Hw' & El & Hv). rewrite Hs in El, Hv.
    destruct (assoc p s) as [[[b st] w]|]; [destruct (w =? v)|]; subst l';
      [by apply (represents_remove c)|split; [done|by rewrite Hv]..].
  - apply represents_empty.
Qed.

Definition run_inner (ops : list InnerOp) : CacheInner := fold_left inner_op ops inner_new.
Definition run_recency (ops : list InnerOp) : Recency := fold_left recency_op ops [].

Lemma run_represents ops : represents (run_inner ops) (run_recency ops).
Proof.
  unfold run_inner, run_recency. pose proof (represents_empty inner_new) as H.
  change (invalidate_all inner_new) with inner_new in H. revert H. generalize inner_new, (@nil (nat * (list Z * PageState * Z))).
  induction ops as [|op ops IH]; intros c s H; [done|]. simpl. by apply IH, represents_op.
Qed.

(** after any history of the cache's critical sections the linked pages
    are the most-recently-used-first list the history describes, with the
    contents, states and versions it describes, and the dirty set holds
    exactly the dirty pages. *)
Theorem page_lru_refines ops :
  let c := run_inner ops in
  let s := run_recency ops in
  linked c s.*1 /\ (forall p, view c !! p = assoc p s) /\
  (forall p, p ∈ dirty c <-> exists b v, assoc p s = Some (b, Dirty, v)).
Proof.
  cbv zeta. destruct (run_represents ops) as [(Hl & _ & Hd)%inner_wf_elim Hs].
  split_and!; [done|done|]. intros p. by rewrite Hd, Hs.
Qed.

(** the victim search of [evict_to_fit] always ends, within as many
    steps as there are cached pages, and returns the least recently used
    page, or the least recently used one that is not dirty. *)
Theorem lru_pick_terminates ops clean_only :
  lru_pick (run_inner ops) clean_only =
  Some (last (filter (fun p => clean_only = false \/ p ∉ dirty (run_inner ops))
    (run_recency ops).*1)).
Proof.
  destruct (run_represents ops) as [Hw _]. rewrite (lru_pick_spec _ _ _ Hw).
  do 2 f_equal. apply list_filter_iff. intros p.
  apply inner_wf_elim in Hw as (_ & _ & Hd). unfold evictable. by rewrite Hd.
Qed.
