(* ===== verification/PoolBudget.v ===== *)
(** * The chunk-pool budget ([shared/pool/src/budget.rs])

    Byte accounting per backend and namespace, and the gate a page seal waits
    at when the pool is full.  The accounting is shown exact over histories
    of matched reservations, and the wait to lose no wake-up. *)

From stdpp Require Export gmap.
From S2P Require Import Prelude.

Local Open Scope Z_scope.

(** [None] is the shared pool, [Some uuid] a volume's or cartridge's own. *)
Notation Namespace := (option (list Z)) (only parsing).

Record PoolState : Type := mkPool {
  total : Z;
  per_namespace : gmap Namespace Z;
}.

Definition pool_new : PoolState := mkPool 0 ∅.

Definition add (s : PoolState) (ns : Namespace) (bytes : Z) : PoolState :=
  let slot := default 0 (per_namespace s !! ns) in
  mkPool (sat_add64 (total s) bytes) (<[ns := sat_add64 slot bytes]> (per_namespace s)).

Definition sub (s : PoolState) (ns : Namespace) (bytes : Z) : PoolState :=
  mkPool (sat_sub (total s) bytes)
    (match per_namespace s !! ns with
     | Some slot =>
         let slot' := sat_sub slot bytes in
         if slot' =? 0 then delete ns (per_namespace s) else <[ns := slot']> (per_namespace s)
     | None => per_namespace s
     end).

Record PoolBudget : Type := mkBudget {
  cap_bytes : Z;
  disk_free_min_bytes : Z;
  pstate : PoolState;
}.

Definition with_state (b : PoolBudget) (s : PoolState) : PoolBudget :=
  mkBudget (cap_bytes b) (disk_free_min_bytes b) s.

Definition unbounded : PoolBudget := mkBudget 0 0 pool_new.

Definition current_bytes (b : PoolBudget) : Z := total (pstate b).

Definition set_cap_bytes (b : PoolBudget) (new_cap : Z) : PoolBudget :=
  mkBudget new_cap (disk_free_min_bytes b) (pstate b).

Definition force_reserve (b : PoolBudget) (bytes : Z) (ns : Namespace) : PoolBudget :=
  with_state b (add (pstate b) ns bytes).

Definition release (b : PoolBudget) (bytes : Z) (ns : Namespace) : PoolBudget :=
  with_state b (sub (pstate b) ns bytes).

Definition map_sum (m : gmap Namespace Z) : Z := map_fold (fun _ v acc => v + acc) 0 m.

Definition set_pool_buckets (b : PoolBudget) (buckets : gmap Namespace Z) : PoolBudget :=
  with_state b (mkPool (map_sum buckets) buckets).

Definition pool_room_ok (b : PoolBudget) (bytes : Z) : bool :=
  (cap_bytes b =? 0) || (sat_add64 (total (pstate b)) bytes <=? cap_bytes b).

(** [disk_free] is what the file system reports, if it reports. *)
Definition disk_room_ok (b : PoolBudget) (disk_free : option Z) : bool :=
  (disk_free_min_bytes b =? 0) || (disk_free_min_bytes b <=? default u64_max disk_free).

Definition ungated (b : PoolBudget) : bool :=
  (cap_bytes b =? 0) && (disk_free_min_bytes b =? 0).

(** One turn of the loop of [try_reserve_async]: the section under the
    mutex. *)
Definition try_room (b : PoolBudget) (disk_free : option Z) (bytes : Z) (ns : Namespace) :
    option PoolBudget :=
  if pool_room_ok b bytes && disk_room_ok b disk_free
  then Some (with_state b (add (pstate b) ns bytes)) else None.

(** ** Accounting

    [reserved s o]: the pool state [s] is reached by reservations of which
    those in [o] are still held; a release gives back one that is held. *)

Definition held (o : list (Namespace * Z)) : Z := foldr (fun x acc => x.2 + acc) 0 o.

Definition held_in (ns : Namespace) (o : list (Namespace * Z)) : Z :=
  held (filter (fun x => x.1 = ns) o).

Inductive reserved : PoolState -> list (Namespace * Z) -> Prop :=
  | reserved_new : reserved pool_new []
  | reserved_add s o ns b :
      reserved s o -> 0 <= b -> held o + b <= u64_max -> reserved (add s ns b) ((ns, b) :: o)
  | reserved_sub s o1 ns b o2 :
      reserved s (o1 ++ (ns, b) :: o2) -> reserved (sub s ns b) (o1 ++ o2).

Lemma held_app o1 o2 : held (o1 ++ o2) = held o1 + held o2.
Proof. induction o1 as [|x o1 IH]; simpl; [done|]. rewrite IH. lia. Qed.

Lemma held_in_app ns o1 o2 : held_in ns (o1 ++ o2) = held_in ns o1 + held_in ns o2.
Proof. unfold held_in. by rewrite filter_app, held_app. Qed.

Lemma held_in_cons ns x o :
  held_in ns (x :: o) = (if decide (x.1 = ns) then x.2 else 0) + held_in ns o.
Proof. unfold held_in. rewrite filter_cons. by case_decide. Qed.

Lemma held_nonneg o : Forall (fun x => 0 <= x.2) o -> 0 <= held o.
Proof. induction 1; simpl; lia. Qed.

Lemma held_in_bound ns o : Forall (fun x => 0 <= x.2) o -> 0 <= held_in ns o <= held o.
Proof.
  induction 1 as [|x o Hx _ IH]; [unfold held_in; simpl; lia|].
  rewrite held_in_cons. simpl. case_decide; lia.
Qed.

Lemma sub_slot s ns b ns' :
  0 <= b -> 0 <= default 0 (per_namespace s !! ns) - b ->
  default 0 (per_namespace (sub s ns b) !! ns') =
    default 0 (per_namespace s !! ns') - (if decide (ns = ns') then b else 0).
Proof.
  intros Hb0 Hb. unfold sub. simpl. destruct (per_namespace s !! ns) as [v|] eqn:E; simpl in Hb.
  - unfold sat_sub. rewrite Z.max_r by lia. destruct (decide (ns = ns')) as [<-|Hne].
    + rewrite E. destruct (v - b =? 0) eqn:Ez; bool_to_prop;
        [rewrite lookup_delete_eq|rewrite lookup_insert_eq]; simpl; lia.
    + destruct (v - b =? 0); [rewrite lookup_delete_ne by done|rewrite lookup_insert_ne by done]; lia.
  - case_decide; [subst; rewrite E; simpl; lia|lia].
Qed.

Definition accounts (s : PoolState) (o : list (Namespace * Z)) : Prop :=
  total s = held o /\ held o <= u64_max /\ Forall (fun x => 0 <= x.2) o /\
  forall ns, default 0 (per_namespace s !! ns) = held_in ns o.

Lemma add_accounts s o ns b :
  accounts s o -> 0 <= b -> held o + b <= u64_max -> accounts (add s ns b) ((ns, b) :: o).
Proof.
  intros (Ht & Hm & Hp & Hn) Hb Hle. pose proof (held_nonneg o Hp).
  split_and!; [|simpl; lia|by constructor|].
  - simpl. unfold sat_add64. rewrite Ht, Z.min_r by lia. lia.
  - intros ns'. simpl. rewrite held_in_cons, lookup_insert. simpl.
    case_decide; simpl; [|rewrite Hn; lia]. subst ns'. rewrite Hn. pose proof (held_in_bound ns o Hp).
    unfold sat_add64. rewrite Z.min_r by lia. lia.
Qed.

Lemma sub_accounts s o1 ns b o2 :
  accounts s (o1 ++ (ns, b) :: o2) -> accounts (sub s ns b) (o1 ++ o2).
Proof.
  intros (Ht & Hm & Hp & Hn). rewrite held_app in *. simpl in *.
  apply Forall_app in Hp as [Hp1 [Hb Hp2]%Forall_cons]. simpl in Hb.
  pose proof (held_nonneg o1 Hp1). pose proof (held_nonneg o2 Hp2).
  assert (Hsp : forall ns', held_in ns' (o1 ++ (ns, b) :: o2) =
    held_in ns' (o1 ++ o2) + (if decide (ns = ns') then b else 0)).
  { intros ns'. rewrite !held_in_app, held_in_cons. simpl. lia. }
  assert (Forall (fun x => 0 <= x.2) (o1 ++ o2)) as Hp by (by apply Forall_app).
  split_and!; [|rewrite held_app; lia|done|].
  - simpl. unfold sat_sub. rewrite held_app. lia.
  - intros ns'. rewrite sub_slot; [|done|].
    + rewrite Hn, Hsp. lia.
    + rewrite Hn, Hsp, decide_True by done. pose proof (held_in_bound ns _ Hp). lia.
Qed.

(** the budget's total and its per-namespace breakdown are exactly the
    bytes of the reservations still held, after any history of reservations
    and releases. *)
Theorem budget_accounts s o :
  reserved s o ->
  total s = held o /\ forall ns, default 0 (per_namespace s !! ns) = held_in ns o.
Proof.
  intros Hr. enough (accounts s o) as (? & _ & _ & ?) by done.
  induction Hr as [|s o ns b _ IH Hb Hle|s o1 ns b o2 _ IH].
  - split_and!; simpl; unfold u64_max; try lia; [constructor|done].
  - by apply add_accounts.
  - by apply sub_accounts.
Qed.

Lemma budget_accounts_witness :
  let s := sub (add (add pool_new (Some [1]) 10) None 5) (Some [1]) 10 in
  total s = 5 /\ default 0 (per_namespace s !! None) = 5 /\
  default 0 (per_namespace s !! Some [1]) = 0.
Proof.
  cbv zeta. assert (reserved (sub (add (add pool_new (Some [1]) 10) None 5) (Some [1]) 10) [(None, 5)]) as Hr.
  { apply (reserved_sub _ [(None, 5)] (Some [1]) 10 []). simpl.
    repeat constructor; simpl; unfold u64_max; lia. }
  destruct (budget_accounts _ _ Hr) as [Ht Hn]. split_and!; [exact Ht|exact (Hn None)|exact (Hn (Some [1]))].
Defined.

(** ** The gate

    Reservers run [try_reserve_async] side by side.  A task registers for
    notification, looks for room under the mutex, and parks when there is
    none; [release], [set_cap_bytes] and [set_pool_buckets] notify every
    registered task. *)

Inductive Phase : Type :=
  | Entering
  | Registered (woken : bool)
  | Parked (woken : bool)
  | Granted
  | Refused.

Record Task : Type := mkTask { want : Z; tag : Namespace; phase : Phase }.

Definition at_phase (t : Task) (ph : Phase) : Task := mkTask (want t) (tag t) ph.

Definition notified (t : Task) : Task :=
  match phase t with
  | Registered _ => at_phase t (Registered true)
  | Parked _ => at_phase t (Parked true)
  | _ => t
  end.

Record Gate : Type := mkGate { bud : PoolBudget; free : option Z; tasks : list Task }.

Definition set_task (g : Gate) (b : PoolBudget) (i : nat) (t : Task) : Gate :=
  mkGate b (free g) (<[i := t]> (tasks g)).

Definition notify_waiters (g : Gate) (b : PoolBudget) : Gate :=
  mkGate b (free g) (map notified (tasks g)).

Inductive gate_step : Gate -> Gate -> Prop :=
  | gs_enter g i t :
      tasks g !! i = Some t -> phase t = Entering ->
      gate_step g
        (if ungated (bud g)
         then set_task g (force_reserve (bud g) (want t) (tag t)) i (at_phase t Granted)
         else set_task g (bud g) i (at_phase t (Registered false)))
  | gs_check g i t w late :
      tasks g !! i = Some t -> phase t = Registered w ->
      gate_step g
        (match try_room (bud g) (free g) (want t) (tag t) with
         | Some b => set_task g b i (at_phase t Granted)
         | None => set_task g (bud g) i (at_phase t (if late : bool then Refused else Parked w))
         end)
  | gs_wake g i t :
      tasks g !! i = Some t -> phase t = Parked true ->
      gate_step g (set_task g (bud g) i (at_phase t (Registered false)))
  | gs_timer g i t w :
      tasks g !! i = Some t -> phase t = Parked w ->
      gate_step g (set_task g (bud g) i (at_phase t (Registered false)))
  | gs_release g bytes ns :
      0 <= bytes -> gate_step g (notify_waiters g (release (bud g) bytes ns))
  | gs_cap g cap :
      gate_step g
        (if cap_bytes (bud g) =? cap then g else notify_waiters g (set_cap_bytes (bud g) cap))
  | gs_buckets g m : gate_step g (notify_waiters g (set_pool_buckets (bud g) m))
  | gs_force g bytes ns :
      0 <= bytes -> gate_step g (mkGate (force_reserve (bud g) bytes ns) (free g) (tasks g))
  | gs_disk g f : gate_step g (mkGate (bud g) f (tasks g)).

Definition gate_start (b : PoolBudget) (wants : list (Z * Namespace)) : Gate :=
  mkGate b None (map (fun x => mkTask x.1 x.2 Entering) wants).

(** What a parked task that nobody has woken knows. *)
Definition gate_inv (g : Gate) : Prop :=
  forall i t, tasks g !! i = Some t ->
    0 <= want t /\
    (phase t = Parked false -> disk_free_min_bytes (bud g) = 0 -> pool_room_ok (bud g) (want t) = false).

Lemma room_shrinks b bytes ns w :
  0 <= bytes -> 0 <= w -> pool_room_ok b w = false -> pool_room_ok (force_reserve b bytes ns) w = false.
Proof.
  unfold pool_room_ok. simpl. intros Hb Hw [Hc Hl]%orb_false_iff. apply orb_false_iff. split; [done|].
  bool_to_prop. apply Z.leb_gt. unfold sat_add64 in *. lia.
Qed.

(** Storing task [i] in a phase that is not unwoken parking, with a budget
    that leaves no more room than before. *)
Lemma gate_inv_set g b i t ph :
  gate_inv g -> tasks g !! i = Some t ->
  disk_free_min_bytes b = disk_free_min_bytes (bud g) ->
  (forall w, 0 <= w -> pool_room_ok (bud g) w = false -> pool_room_ok b w = false) ->
  (ph = Parked false -> disk_free_min_bytes b = 0 -> pool_room_ok b (want t) = false) ->
  gate_inv (set_task g b i (at_phase t ph)).
Proof.
  intros Hi Ht Hd Hr Hp j u Hj. simpl in *. destruct (Hi i t Ht) as [Hw _].
  apply list_lookup_insert_Some in Hj as [(<- & <- & _)|[_ Hj]]; simpl; [by split|].
  destruct (Hi j u Hj) as [Hu Hpu]. split; [done|]. intros E Hz. apply Hr; [done|].
  apply Hpu; [done|]. congruence.
Qed.

Lemma gate_inv_notify g b :
  gate_inv g -> gate_inv (notify_waiters g b).
Proof.
  intros Hi j u Hj. simpl in *. apply list_lookup_fmap_Some in Hj as (t & -> & Ht).
  destruct (Hi j t Ht) as [Hw _]. unfold notified. destruct (phase t) eqn:E; simpl; split; congruence || done.
Qed.

Lemma gate_inv_force g bytes ns :
  0 <= bytes -> gate_inv g -> gate_inv (mkGate (force_reserve (bud g) bytes ns) (free g) (tasks g)).
Proof.
  intros Hb Hi j u Hj. destruct (Hi j u Hj) as [Hw Hp]. split; [done|].
  intros E Hz. apply room_shrinks; [done..|]. by apply Hp.
Qed.

Lemma gate_inv_step g g' : gate_inv g -> gate_step g g' -> gate_inv g'.
Proof.
  intros Hi Hs. destruct Hs as [g i t Ht Hph|g i t w late Ht Hph|g i t Ht Hph|g i t w Ht Hph
    |g bytes ns Hb|g cap|g m|g bytes ns Hb|g f].
  - destruct (Hi i t Ht) as [Hw _].
    destruct (ungated (bud g)); apply gate_inv_set; try done. intros. by apply room_shrinks.
  - destruct (Hi i t Ht) as [Hw _]. unfold try_room.
    destruct (pool_room_ok (bud g) (want t)) eqn:Er; simpl.
    + destruct (disk_room_ok (bud g) (free g)) eqn:Ed; apply gate_inv_set; try done.
      * intros. by apply room_shrinks.
      * intros _ Hz. unfold disk_room_ok in Ed. by rewrite Hz in Ed.
    + by apply gate_inv_set.
  - by apply gate_inv_set.
  - by apply gate_inv_set.
  - by apply gate_inv_notify.
  - case_match; [done|]. by apply gate_inv_notify.
  - by apply gate_inv_notify.
  - by apply gate_inv_force.
  - done.
Qed.

Lemma gate_step_min g g' :
  gate_step g g' -> disk_free_min_bytes (bud g') = disk_free_min_bytes (bud g).
Proof.
  intros Hs. destruct Hs; simpl; try done; [by case_match| |by case_match].
  unfold try_room. case_match; [|done]. case_match; by simplify_eq.
Qed.

Lemma gate_inv_reach b wants g :
  Forall (fun x => 0 <= x.1) wants -> rtc gate_step (gate_start b wants) g ->
  gate_inv g /\ disk_free_min_bytes (bud g) = disk_free_min_bytes b.
Proof.
  intros Hw Hr. assert (gate_inv (gate_start b wants)) as H0.
  { intros j u Hj. simpl in Hj. apply list_lookup_fmap_Some in Hj as (x & -> & Hx). simpl.
    split; [|done]. by eapply (Forall_lookup_1 _ _ _ _ Hw) in Hx. }
  change (disk_free_min_bytes b) with (disk_free_min_bytes (bud (gate_start b wants))).
  induction Hr as [|x y z Hs _ IH]; [done|].
  rewrite <- (gate_step_min _ _ Hs). apply IH. by eapply gate_inv_step.
Qed.

(** no wake-up is lost.  In every reachable state of concurrent
    reservers, releases and cap changes, a reserver that is parked and has no
    wake-up on the way still finds no room in the pool, so it misses nothing
    by waiting; when it has one, it can step back to the room check. *)
Theorem no_lost_wakeup b wants g i t :
  disk_free_min_bytes b = 0 -> Forall (fun x => 0 <= x.1) wants ->
  rtc gate_step (gate_start b wants) g -> tasks g !! i = Some t ->
  (phase t = Parked false -> try_room (bud g) (free g) (want t) (tag t) = None) /\
  (phase t = Parked true ->
     gate_step g (set_task g (bud g) i (at_phase t (Registered false)))).
Proof.
  intros Hd Hw Hr Ht. split; [|by constructor].
  destruct (gate_inv_reach _ _ _ Hw Hr) as [Hi Hm].
  intros Hp. destruct (Hi i t Ht) as [_ Hn]. unfold try_room. rewrite Hn by congruence. done.
Qed.

Lemma no_lost_wakeup_witness :
  let b := mkBudget 10 0 (mkPool 10 {[None := 10]}) in
  let g := mkGate b None [mkTask 5 None (Parked false)] in
  rtc gate_step (gate_start b [(5, None)]) g /\ try_room b None 5 None = None.
Proof.
  cbv zeta. set (b := mkBudget 10 0 _).
  assert (rtc gate_step (gate_start b [(5, None)]) (mkGate b None [mkTask 5 None (Parked false)])) as Hr.
  { eapply rtc_l; [exact (gs_enter (gate_start b [(5, None)]) 0 (mkTask 5 None Entering) eq_refl eq_refl)|].
    eapply rtc_l; [|apply rtc_refl].
    exact (gs_check (mkGate b None [mkTask 5 None (Registered false)]) 0
      (mkTask 5 None (Registered false)) false false eq_refl eq_refl). }
  split; [exact Hr|].
  destruct (no_lost_wakeup b [(5, None)] _ 0 (mkTask 5 None (Parked false)) eq_refl
    ltac:(repeat constructor; simpl; lia) Hr eq_refl) as [H _]. exact (H eq_refl).
Defined.
