(* ===== verification/StateError.v ===== *)
(** * State and errors

    The monad of the volume's operations: a [&self] method returning
    [Result<T, E>] is a function from the state to the state it leaves and
    the result.  An early return keeps the effects before it. *)

From S2P Require Import Prelude.

Definition EM (S E A : Type) : Type := S -> S * result A E.

#[export] Instance EM_ret S E : MRet (EM S E) := fun A a s => (s, Ok a).
#[export] Instance EM_bind S E : MBind (EM S E) := fun A B k m s =>
  match m s with
  | (s1, Ok a) => k a s1
  | (s1, Err e) => (s1, Err e)
  end.

Definition fail {S E A} (e : E) : EM S E A := fun s => (s, Err e).
Definition get {S E} : EM S E S := fun s => (s, Ok s).
Definition modify {S E} (f : S -> S) : EM S E unit := fun s => (f s, Ok tt).
Definition of_result {S E A} (r : result A E) : EM S E A := fun s => (s, r).

(** [m.map_err] with a clean-up: undoes on the error path. *)
Definition on_error {S E A} (f : S -> S) (m : EM S E A) : EM S E A := fun s =>
  match m s with
  | (s1, Err e) => (f s1, Err e)
  | r => r
  end.

(** [map_err]. *)
Definition map_err {S E F A} (f : E -> F) (m : EM S E A) : EM S F A := fun s =>
  match m s with
  | (s1, Ok a) => (s1, Ok a)
  | (s1, Err e) => (s1, Err (f e))
  end.

(** Runs a computation on a part of the state. *)
Definition zoom {S T E A} (proj : S -> T) (upd : T -> S -> S) (m : EM T E A) : EM S E A :=
  fun s => let '(t, r) := m (proj s) in (upd t s, r).

Section laws.
Context {S E A B : Type}.
Implicit Types (m : EM S E A) (k : A -> EM S E B).

Lemma run_bind m k s :
  (m ≫= k) s = match m s with (s1, Ok a) => k a s1 | (s1, Err e) => (s1, Err e) end.
Proof. done. Qed.

(** A run of a sequence either stops in the first part or reaches the
    second. *)
Lemma bind_inv m k s s' r :
  (m ≫= k) s = (s', r) ->
  (exists e, m s = (s', Err e) /\ r = Err e) \/
  (exists s1 a, m s = (s1, Ok a) /\ k a s1 = (s', r)).
Proof. rewrite run_bind. destruct (m s) as [s1 [a|e]]; naive_solver. Qed.

(** Invariants of the parts are invariants of the sequence. *)
Lemma bind_preserves (P : S -> Prop) m k s :
  (forall s, P s -> P (m s).1) -> (forall a s, P s -> P (k a s).1) -> P s -> P ((m ≫= k) s).1.
Proof.
  intros Hm Hk Hp. rewrite run_bind. specialize (Hm s Hp). destruct (m s) as [s1 [a|e]]; [|done].
  by apply Hk.
Qed.
End laws.

(** Splits a hypothesis that runs a sequence. *)
Ltac bind_inv H :=
  let s1 := fresh "s" in let a := fresh "a" in let e := fresh "e" in
  let H1 := fresh "Hm" in
  apply bind_inv in H as [(e & H1 & H)|(s1 & a & H1 & H)].

(** ** Weakest preconditions *)

(** Every run of [m] from [s] ends in [Q]. *)
Definition wp {S E A} (m : EM S E A) (Q : S -> result A E -> Prop) (s : S) : Prop :=
  let '(s', r) := m s in Q s' r.

Section wp.
Context {S E : Type}.

Lemma wp_bind {A B} (m : EM S E A) (k : A -> EM S E B) Q s :
  wp m (fun s1 r => match r with Ok a => wp (k a) Q s1 | Err e => Q s1 (Err e) end) s ->
  wp (m ≫= k) Q s.
Proof. unfold wp. rewrite run_bind. by destruct (m s) as [s1 [a|e]]. Qed.

Lemma wp_mono {A} (m : EM S E A) (Q Q' : S -> result A E -> Prop) s :
  wp m Q s -> (forall s' r, Q s' r -> Q' s' r) -> wp m Q' s.
Proof. unfold wp. destruct (m s). eauto. Qed.

Lemma wp_get {B} (k : S -> EM S E B) Q s : wp (k s) Q s -> wp (get ≫= k) Q s.
Proof. done. Qed.

Lemma wp_modify {B} (f : S -> S) (k : unit -> EM S E B) Q s : wp (k tt) Q (f s) -> wp (modify f ≫= k) Q s.
Proof. done. Qed.

Lemma wp_of_result {A B} (r : result A E) (k : A -> EM S E B) Q s :
  match r with Ok a => wp (k a) Q s | Err e => Q s (Err e) end -> wp (of_result r ≫= k) Q s.
Proof. by destruct r. Qed.

Lemma wp_result {A} (r : result A E) (Q : S -> result A E -> Prop) s : Q s r -> wp (of_result r) Q s.
Proof. done. Qed.

Lemma wp_on_error {A} (f : S -> S) (m : EM S E A) Q s :
  wp m (fun s1 r => match r with Ok a => Q s1 (Ok a) | Err e => Q (f s1) (Err e) end) s -> wp (on_error f m) Q s.
Proof. unfold wp, on_error. by destruct (m s) as [s1 [a|e]]. Qed.

Lemma wp_if {A} (b : bool) (m1 m2 : EM S E A) Q s :
  (b = true -> wp m1 Q s) -> (b = false -> wp m2 Q s) -> wp (if b then m1 else m2) Q s.
Proof. destruct b; auto. Qed.

Lemma wp_map_err {F A} (f : E -> F) (m : EM S E A) (Q : S -> result A F -> Prop) s :
  wp m (fun s1 r => Q s1 (match r with Ok a => Ok a | Err e => Err (f e) end)) s -> wp (map_err f m) Q s.
Proof. unfold wp, map_err. by destruct (m s) as [s1 [a|e]]. Qed.
End wp.

(** Steps over the reads and updates of the state at the head. *)
Ltac wp_state := repeat first [apply wp_get | apply wp_modify].
