(* ===== verification/Crypto.v ===== *)
(** * Hashing and encryption ([shared/crypto/src/lib.rs])

    BLAKE3 and AES-256-GCM are parameters of every component that seals
    chunks; the wrappers of [shared-crypto] around them are the source's. *)

From S2P Require Import Prelude Bytes ByteFile.
From stdpp Require Import gmap.

Local Open Scope Z_scope.

Definition KEY_LEN : Z := 32.
Definition IV_LEN : nat := 12.
Definition TAG_LEN : nat := 16.

Class VolumeCrypto : Type := {
  blake3 : list Z -> list Z;
  aes_encrypt : list Z -> list Z -> list Z -> option (list Z);
  aes_decrypt : list Z -> list Z -> list Z -> option (list Z);
}.

(** AES-GCM opens what it sealed and appends a tag. *)
Class CipherLaws `{VolumeCrypto} : Prop := {
  aes_open key iv p c : aes_encrypt key iv p = Some c -> aes_decrypt key iv c = Some p;
  aes_tag key iv p c : aes_encrypt key iv p = Some c -> length c = (length p + TAG_LEN)%nat;
}.

(** For volumes, a digest is 32 long and identifies its input. *)
Class VolumeCryptoLaws `{VolumeCrypto} : Prop := {
  blake3_length x : length (blake3 x) = 32%nat;
  blake3_inj : Inj (=) (=) blake3;
  volume_cipher : CipherLaws;
}.
#[export] Existing Instance blake3_inj.
#[export] Existing Instance volume_cipher.

(** For cartridges, whose index stores digests, a digest is 32 bytes; that
    no two chunks of a history collide is said of the history. *)
Class TapeCryptoLaws `{VolumeCrypto} : Prop := {
  digest_length x : length (blake3 x) = 32%nat;
  digest_bytes x : bytes_ok (blake3 x);
  tape_cipher : CipherLaws;
}.
#[export] Existing Instance tape_cipher.

(** A concrete instance: a digest that spells out its input, a cipher that
    appends an empty tag. *)
Definition model_crypto : VolumeCrypto := {|
  blake3 x := Zpos (encode x) :: replicate 31 0;
  aes_encrypt key iv p := Some (p ++ replicate TAG_LEN 0);
  aes_decrypt key iv c := Some (take (length c - TAG_LEN) c);
|}.

(** Another, with digests of 32 bytes. *)
Definition tape_crypto : VolumeCrypto := {|
  blake3 x := le_bytes 8 (wrap64 (foldl (fun a b => 257 * a + b + 1) 7 x)) ++ zeros 24;
  aes_encrypt key iv p := Some (p ++ replicate TAG_LEN 0);
  aes_decrypt key iv c := Some (take (length c - TAG_LEN) c);
|}.

Lemma tag_roundtrip (p : list Z) : take (length (p ++ replicate TAG_LEN 0) - TAG_LEN) (p ++ replicate TAG_LEN 0) = p.
Proof. rewrite length_app, length_replicate, Nat.add_sub. apply take_app_length. Qed.

Lemma model_cipher : @CipherLaws model_crypto.
Proof.
  split; intros key iv p c E; injection E as <-; simpl.
  - f_equal. apply tag_roundtrip.
  - by rewrite length_app.
Qed.

Lemma model_crypto_laws : @VolumeCryptoLaws model_crypto.
Proof. split; [done| |exact model_cipher]. intros x y [= E]. by apply (inj encode). Qed.

Lemma tape_crypto_laws : @TapeCryptoLaws tape_crypto.
Proof.
  split.
  - intros x. done.
  - intros x. cbn [blake3 tape_crypto]. apply Forall_app. split; [apply le_bytes_ok|]. apply zeros_ok.
  - split; intros key iv p c E; injection E as <-; simpl; [f_equal; apply tag_roundtrip|by rewrite length_app].
Qed.

Inductive CryptoError : Type := CryptoInput | CryptoEncrypt | CryptoDecrypt.

Section crypto.
Context `{VolumeCrypto}.

Definition derive_iv (uuid : list Z) (counter_a counter_b : Z) : list Z :=
  take IV_LEN (blake3 (uuid ++ u64_le counter_a ++ u64_le counter_b)).

Definition encrypt_block (key iv plaintext : list Z) : result (list Z) CryptoError :=
  if negb (Z.of_nat (length key) =? KEY_LEN) then Err CryptoInput
  else if bool_decide (length iv <> IV_LEN) then Err CryptoInput
  else match aes_encrypt key iv plaintext with Some c => Ok c | None => Err CryptoEncrypt end.

Definition decrypt_block (key iv ciphertext_with_tag : list Z) : result (list Z) CryptoError :=
  if negb (Z.of_nat (length key) =? KEY_LEN) then Err CryptoDecrypt
  else if bool_decide (length iv <> IV_LEN) then Err CryptoDecrypt
  else if bool_decide (length ciphertext_with_tag < TAG_LEN)%nat then Err CryptoDecrypt
  else match aes_decrypt key iv ciphertext_with_tag with Some p => Ok p | None => Err CryptoDecrypt end.

Lemma decrypt_encrypt `{!CipherLaws} key iv p c :
  encrypt_block key iv p = Ok c -> decrypt_block key iv c = Ok p.
Proof.
  unfold encrypt_block, decrypt_block. case_match; [done|]. case_bool_decide; [done|].
  case_match eqn:E; [|done]. intros [= ->]. rewrite bool_decide_eq_false_2.
  - by rewrite (aes_open _ _ _ _ E).
  - rewrite (aes_tag _ _ _ _ E). lia.
Qed.

Lemma encrypt_length `{!CipherLaws} key iv p c : encrypt_block key iv p = Ok c -> length c = (length p + TAG_LEN)%nat.
Proof.
  unfold encrypt_block. case_match; [done|]. case_bool_decide; [done|]. case_match eqn:E; [|done].
  intros [= ->]. by apply aes_tag in E.
Qed.
End crypto.
