(* ===== verification/VolumeWriter.v ===== *)
(** * The volume writer ([core/block/src/uploader.rs])

    One volume with its chunk pool, index files, upload tracker and storage
    backend: sealing and reading pages, the asynchronous upload worker of the
    daemon ([vsa/daemon/src/upload_worker.rs]) with its recovery scan, and
    resizing.  Index files are the byte files of [PageIndex], [UploadIndex]
    and [BlockLru].

    BLAKE3 and AES-GCM are parameters.  What the outside world decides (a
    PUT or GET failing, disk space, the random salt, the clock) is read from
    the [env] field, so that a theorem about every state is a theorem about
    every behaviour of the outside world. *)

From S2P Require Import Prelude Bytes ByteFile PageIndex UploadIndex BlockLru PoolBudget StateError Crypto.

Local Open Scope Z_scope.

(** ** Errors *)

Inductive UploaderError : Type :=
  | EChunkPoolIo
  | EHashMismatch
  | EPageIndex (e : PageIndexError)
  | ELruIndex
  | EUploadIndex
  | EVolume
  | EStorage
  | EUploadWorker
  | UploadChannelClosed
  | UploadsFailed
  | EIo
  | EEncrypt
  | EDecrypt
  | MissingKey
  | KeyWrongLength (got : Z)
  | EPageSizeMismatch (len page_size : Z)
  | PageOutOfRange (page_id page_size size_bytes : Z)
  | IncompatiblePageSize (src dst : Z)
  | ResizeNotSectorAligned (size_bytes sector_bytes : Z)
  | ResizeBelowPage (size_bytes page_size : Z)
  | ResizeExceedsAddressable (size_bytes page_size : Z)
  | ResizeNoChange (size_bytes : Z)
  | ResizeWormForbidden
  | ResizeWouldDiscardData (new_size highest_page occupied_through : Z)
  | BadHash
  | Backpressured (used cap : Z).

Inductive FaultClass : Type := Validation | Transient | Integrity | Infrastructure.

Definition fault_class (e : UploaderError) : FaultClass :=
  match e with
  | EPageSizeMismatch _ _ | PageOutOfRange _ _ _ | IncompatiblePageSize _ _
  | ResizeNotSectorAligned _ _ | ResizeBelowPage _ _ | ResizeExceedsAddressable _ _
  | ResizeNoChange _ | ResizeWormForbidden | ResizeWouldDiscardData _ _ _ => Validation
  | Backpressured _ _ => Transient
  | EHashMismatch | EDecrypt => Integrity
  | EChunkPoolIo | EPageIndex _ | ELruIndex | EUploadIndex | EVolume | EStorage | EUploadWorker
  | UploadChannelClosed | UploadsFailed | EIo | EEncrypt | MissingKey | KeyWrongLength _
  | BadHash => Infrastructure
  end.

(** ** The upload tracker

    [depth] is the volume's share of the backlog gauge. *)

Record PendingUploads : Type := mkPending {
  pending : gset nat;
  failed : gset nat;
  depth : Z;
}.

Inductive DrainOutcome : Type := DrainClean | DrainFailed.

Definition uploads_new : PendingUploads := mkPending ∅ ∅ 0.

Definition mark_pending (s : PendingUploads) (p : nat) : PendingUploads * bool :=
  let newly := bool_decide (p ∉ pending s) in
  (mkPending ({[p]} ∪ pending s) (failed s ∖ {[p]}) (if newly then depth s + 1 else depth s), newly).

Definition mark_done (s : PendingUploads) (p : nat) : PendingUploads * bool :=
  let was_present := bool_decide (p ∈ pending s) in
  (mkPending (pending s ∖ {[p]}) (failed s ∖ {[p]}) (if was_present then depth s - 1 else depth s),
   was_present).

Definition mark_failed (s : PendingUploads) (p : nat) : PendingUploads :=
  let was_pending := bool_decide (p ∈ pending s) in
  mkPending (pending s ∖ {[p]}) ({[p]} ∪ failed s) (if was_pending then depth s - 1 else depth s).

Definition clear_failed (s : PendingUploads) (p : nat) : PendingUploads :=
  mkPending (pending s) (failed s ∖ {[p]}) (depth s).

Definition clear_all_failed (s : PendingUploads) : PendingUploads :=
  mkPending (pending s) ∅ (depth s).

Definition in_range (range : Z * Z) (p : nat) : bool :=
  (range.1 <=? Z.of_nat p) && (Z.of_nat p <=? range.2).

Definition failed_in_range (s : PendingUploads) (range : Z * Z) : list nat :=
  filter (fun p => in_range range p = true) (elements (failed s)).

(** One turn of [wait_for_range]; [None] goes back to waiting for a
    notification. *)
Definition wait_for_range (s : PendingUploads) (range : Z * Z) : option DrainOutcome :=
  let any l := existsb (in_range range) l in
  if any (elements (failed s)) then Some DrainFailed
  else if any (elements (pending s)) then None
  else Some DrainClean.

(** ** The volume *)

Inductive DedupScope : Type := Global | Local.

Record Manifest : Type := mkManifest {
  uuid : list Z;
  size_bytes : Z;
  sector_bytes : Z;
  page_size : Z;
  dedup_scope : DedupScope;
  worm : bool;
  encrypted : bool;
  dedup_namespace : option (list Z);
  crypto_uuid : option (list Z);
}.

Definition dek_uuid (m : Manifest) : list Z := default (uuid m) (crypto_uuid m).

Definition dedup_namespace_uuid (m : Manifest) : list Z := default (uuid m) (dedup_namespace m).

Definition pool_namespace (m : Manifest) : option (list Z) :=
  match dedup_scope m with Global => None | Local => Some (dedup_namespace_uuid m) end.

(** Sizes [VolumeManifest::new] refuses. *)
Inductive VolumeError : Type :=
  | InvalidPageSize (page_size : Z)
  | SizeBelowPage (page_size : Z)
  | SizeNotSectorAligned (size_bytes sector_bytes : Z)
  | SizeExceedsAddressable (size_bytes page_size : Z).

Definition is_power_of_two (n : Z) : bool := negb (n =? 0) && (Z.land n (n - 1) =? 0).

Definition validate_page_size (page_size sector : Z) : result unit VolumeError :=
  if negb (is_power_of_two page_size) then Err (InvalidPageSize page_size)
  else if (sector =? 0) || negb (page_size mod sector =? 0) then Err (InvalidPageSize page_size)
  else Ok tt.

Definition last_page_id_fits (size page_size : Z) : bool :=
  if page_size =? 0 then false else sat_sub size 1 / page_size <=? u32_max.

Definition manifest_new (id : list Z) (size sector page_size : Z) (scope : DedupScope) (worm : bool) :
    result Manifest VolumeError :=
  match validate_page_size page_size sector with
  | Err e => Err e
  | Ok _ =>
      if size <? page_size then Err (SizeBelowPage page_size)
      else if negb (size mod sector =? 0) then Err (SizeNotSectorAligned size sector)
      else if negb (last_page_id_fits size page_size) then Err (SizeExceedsAddressable size page_size)
      else Ok (mkManifest id size sector page_size scope worm false None None)
  end.

Definition with_encryption (m : Manifest) : Manifest :=
  mkManifest (uuid m) (size_bytes m) (sector_bytes m) (page_size m) (dedup_scope m) (worm m) true
    (dedup_namespace m) (crypto_uuid m).

(** A queued upload: the page and the digest of the chunk it was bound to. *)
Record UploadTask : Type := mkUpload { item_id : nat; task_hash : list Z }.

(** The outside world: the answers of fallible calls in order (a call past
    the end succeeds), the salts [OsRng] will give, the clock. *)
Record Env : Type := mkEnv { script : list bool; salts : list Z; now : Z }.

(** [pool] and [backend] map a digest to the chunk stored under the file and
    object names derived from it.  [sender] is [None] for inline uploads and
    tells otherwise whether the worker still listens; [queue] holds the tasks
    sent and [acked] those whose PUT succeeded and whose outcome is not yet
    applied.  [disk_size] is the size in [manifest.json]. *)
Record VolumeWriter : Type := mkWriter {
  manifest : Manifest;
  encryption_key : option (list Z);
  pool : gmap (list Z) (list Z);
  budget : PoolBudget;
  page_index : PageIndex;
  lru_index : LruIndexFile;
  upload_index : UploadIndexFile;
  backend : gmap (list Z) (list Z);
  sender : option bool;
  queue : list UploadTask;
  acked : list UploadTask;
  uploads : PendingUploads;
  disk_size : Z;
  live_size_bytes : Z;
  env : Env;
}.

Definition with_pool (x : gmap (list Z) (list Z)) (w : VolumeWriter) : VolumeWriter :=
  mkWriter (manifest w) (encryption_key w) x (budget w) (page_index w) (lru_index w)
    (upload_index w) (backend w) (sender w) (queue w) (acked w) (uploads w) (disk_size w) (live_size_bytes w) (env w).
Definition with_budget (x : PoolBudget) (w : VolumeWriter) : VolumeWriter :=
  mkWriter (manifest w) (encryption_key w) (pool w) x (page_index w) (lru_index w)
    (upload_index w) (backend w) (sender w) (queue w) (acked w) (uploads w) (disk_size w) (live_size_bytes w) (env w).
Definition with_page_index (x : PageIndex) (w : VolumeWriter) : VolumeWriter :=
  mkWriter (manifest w) (encryption_key w) (pool w) (budget w) x (lru_index w) (upload_index w)
    (backend w) (sender w) (queue w) (acked w) (uploads w) (disk_size w) (live_size_bytes w) (env w).
Definition with_lru_index (x : LruIndexFile) (w : VolumeWriter) : VolumeWriter :=
  mkWriter (manifest w) (encryption_key w) (pool w) (budget w) (page_index w) x (upload_index w)
    (backend w) (sender w) (queue w) (acked w) (uploads w) (disk_size w) (live_size_bytes w) (env w).
Definition with_upload_index (x : UploadIndexFile) (w : VolumeWriter) : VolumeWriter :=
  mkWriter (manifest w) (encryption_key w) (pool w) (budget w) (page_index w) (lru_index w) x
    (backend w) (sender w) (queue w) (acked w) (uploads w) (disk_size w) (live_size_bytes w) (env w).
Definition with_backend (x : gmap (list Z) (list Z)) (w : VolumeWriter) : VolumeWriter :=
  mkWriter (manifest w) (encryption_key w) (pool w) (budget w) (page_index w) (lru_index w)
    (upload_index w) x (sender w) (queue w) (acked w) (uploads w) (disk_size w) (live_size_bytes w) (env w).
Definition with_sender (x : option bool) (w : VolumeWriter) : VolumeWriter :=
  mkWriter (manifest w) (encryption_key w) (pool w) (budget w) (page_index w) (lru_index w)
    (upload_index w) (backend w) x (queue w) (acked w) (uploads w) (disk_size w) (live_size_bytes w) (env w).
Definition with_queue (x : list UploadTask) (w : VolumeWriter) : VolumeWriter :=
  mkWriter (manifest w) (encryption_key w) (pool w) (budget w) (page_index w) (lru_index w)
    (upload_index w) (backend w) (sender w) x (acked w) (uploads w) (disk_size w) (live_size_bytes w) (env w).
Definition with_acked (x : list UploadTask) (w : VolumeWriter) : VolumeWriter :=
  mkWriter (manifest w) (encryption_key w) (pool w) (budget w) (page_index w) (lru_index w)
    (upload_index w) (backend w) (sender w) (queue w) x (uploads w) (disk_size w) (live_size_bytes w) (env w).
Definition with_uploads (x : PendingUploads) (w : VolumeWriter) : VolumeWriter :=
  mkWriter (manifest w) (encryption_key w) (pool w) (budget w) (page_index w) (lru_index w)
    (upload_index w) (backend w) (sender w) (queue w) (acked w) x (disk_size w) (live_size_bytes w) (env w).
Definition with_disk_size (x : Z) (w : VolumeWriter) : VolumeWriter :=
  mkWriter (manifest w) (encryption_key w) (pool w) (budget w) (page_index w) (lru_index w)
    (upload_index w) (backend w) (sender w) (queue w) (acked w) (uploads w) x (live_size_bytes w) (env w).
Definition with_live_size_bytes (x : Z) (w : VolumeWriter) : VolumeWriter :=
  mkWriter (manifest w) (encryption_key w) (pool w) (budget w) (page_index w) (lru_index w)
    (upload_index w) (backend w) (sender w) (queue w) (acked w) (uploads w) (disk_size w) x (env w).
Definition with_env (x : Env) (w : VolumeWriter) : VolumeWriter :=
  mkWriter (manifest w) (encryption_key w) (pool w) (budget w) (page_index w) (lru_index w)
    (upload_index w) (backend w) (sender w) (queue w) (acked w) (uploads w) (disk_size w) (live_size_bytes w) x.

(** [open_inner] on the files and stores found. *)
Definition open_inner (m : Manifest) (key : option (list Z)) (pages_idx upload_idx lru_idx : option (list Z))
    (chunks objects : gmap (list Z) (list Z)) (e : Env) : result VolumeWriter UploaderError :=
  if encrypted m && bool_decide (key = None) then Err MissingKey
  else
    match PageIndex.open pages_idx (uuid m) (page_size m) with
    | Err err => Err (EPageIndex err)
    | Ok idx =>
        Ok (mkWriter m (if encrypted m then key else None) chunks unbounded idx
              (BlockLru.open_or_create lru_idx) (UploadIndex.open_or_create upload_idx) objects
              None [] [] uploads_new (size_bytes m) (size_bytes m) e)
    end.

Definition with_pool_budget (b : PoolBudget) (w : VolumeWriter) : VolumeWriter := with_budget b w.
Definition with_upload_sender (w : VolumeWriter) : VolumeWriter := with_sender (Some true) w.

Section writer.
Context `{VolumeCrypto}.

Notation M := (EM VolumeWriter UploaderError).

(** The next answer of the outside world. *)
Definition answer : M bool := fun w =>
  match script (env w) with
  | [] => (w, Ok true)
  | b :: rest => (with_env (mkEnv rest (salts (env w)) (now (env w))) w, Ok b)
  end.

(** A call that fails with [e] when the outside world says so. *)
Definition external (e : UploaderError) : M unit :=
  b ← answer; if b : bool then mret tt else fail e.

Definition next_u64 : M Z := fun w =>
  match salts (env w) with
  | [] => (w, Ok 0)
  | s :: rest => (with_env (mkEnv (script (env w)) rest (now (env w))) w, Ok (wrap64 s))
  end.

Definition last_page_id (w : VolumeWriter) : Z :=
  sat_sub (live_size_bytes w / page_size (manifest w)) 1.

(** [try_reserve_async], as it ends: admitted, or refused at the deadline. *)
Definition try_reserve (bytes : Z) (ns : option (list Z)) : M unit :=
  w ← get;
  enough_disk ← answer;
  let disk_free := if enough_disk : bool then None else Some 0 in
  match (if ungated (budget w) then Some (force_reserve (budget w) bytes ns)
         else try_room (budget w) disk_free bytes ns) with
  | Some b => modify (with_budget b)
  | None => fail (Backpressured (current_bytes (budget w)) (cap_bytes (budget w)))
  end.

Definition release_bytes (bytes : Z) (w : VolumeWriter) : VolumeWriter :=
  with_budget (release (budget w) bytes (pool_namespace (manifest w))) w.

(** [ChunkPool::insert_bytes]: the digest, and whether the file is new. *)
Definition insert_bytes (bytes : list Z) : M (list Z * bool) :=
  w ← get;
  let h := blake3 bytes in
  match pool w !! h with
  | Some _ => mret (h, false)
  | None =>
      external EChunkPoolIo;;
      modify (fun w => with_pool (<[h := bytes]> (pool w)) w);;
      mret (h, true)
  end.

(** [ChunkPool::insert_verified_bytes]: whether the file is new. *)
Definition insert_verified_bytes (expected : list Z) (bytes : list Z) : M bool :=
  w ← get;
  match pool w !! expected with
  | Some _ => mret false
  | None =>
      if bool_decide (blake3 bytes <> expected) then fail EHashMismatch
      else
        external EChunkPoolIo;;
        modify (fun w => with_pool (<[expected := bytes]> (pool w)) w);;
        mret true
  end.

(** Reserves room for the payload and inserts it; the reservation is given
    back when nothing new is stored. *)
Definition seal_chunk (payload : list Z) : M (list Z * bool) :=
  w ← get;
  let reserved_bytes := Z.of_nat (length payload) in
  try_reserve reserved_bytes (pool_namespace (manifest w));;
  inserted ← on_error (release_bytes reserved_bytes) (insert_bytes payload);
  (if inserted.2 : bool then mret tt else modify (release_bytes reserved_bytes));;
  mret inserted.

(** Encrypt-on-write: the bytes to store and the salt for the record. *)
Definition seal_payload (p : nat) (bytes : list Z) : M (list Z * Z) :=
  w ← get;
  match encryption_key w with
  | Some key =>
      iv_salt ← next_u64;
      match encrypt_block key (derive_iv (dek_uuid (manifest w)) (Z.of_nat p) iv_salt) bytes with
      | Ok c => mret (c, iv_salt)
      | Err _ => fail EEncrypt
      end
  | None => mret (bytes, 0)
  end.

Definition touch_lru (p : nat) : M unit :=
  ok ← answer;
  if ok : bool
  then modify (fun w => with_lru_index (BlockLru.touch (lru_index w) p (now (env w))) w)
  else mret tt.

(** [upload_chunk_inert]: whether the object was already there, and the size
    of the PUT otherwise. *)
Definition upload_chunk_inert (t : UploadTask) : M (bool * option Z) :=
  w ← get;
  hit ← (match dedup_scope (manifest w) with
         | Global => external EUploadWorker;; mret (bool_decide (is_Some (backend w !! task_hash t)))
         | Local => mret false
         end);
  if hit : bool then mret (true, None)
  else
    match pool w !! task_hash t with
    | None => fail EUploadWorker
    | Some data =>
        external EUploadWorker;;
        modify (fun w => with_backend (<[task_hash t := data]> (backend w)) w);;
        mret (false, Some (Z.of_nat (length data)))
    end.

Definition set_upload_state (p : nat) (st : UploadState) : M unit :=
  modify (fun w => with_upload_index (UploadIndex.set (upload_index w) p st) w).

Definition update_uploads (f : PendingUploads -> PendingUploads) : M unit :=
  modify (fun w => with_uploads (f (uploads w)) w).

Definition apply_page_upload_outcome (t : UploadTask) : M unit :=
  w ← get;
  if u32_max <? Z.of_nat (item_id t) then mret tt
  else if bool_decide (PageIndex.get (page_index w) (item_id t) <> Some (task_hash t)) then mret tt
  else
    set_upload_state (item_id t) Uploaded;;
    update_uploads (fun u => (mark_done u (item_id t)).1).

(** Sends a task into the worker's channel: whether anyone listens. *)
Definition send (t : UploadTask) : M bool :=
  w ← get;
  match sender w with
  | Some true => modify (fun w => with_queue (queue w ++ [t]) w);; mret true
  | _ => mret false
  end.

Record WritePageOutcome : Type := mkOutcome {
  hash_of_page : list Z;
  local_dedup_hit : bool;
  storage_dedup_hit : bool;
  put_bytes : option Z;
}.

(** The hand-off of a bound page, asynchronous or inline. *)
Definition dispatch_upload (p : nat) (h : list Z) : M (bool * option Z) :=
  w ← get;
  match sender w with
  | Some _ =>
      update_uploads (fun u => (mark_pending u p).1);;
      sent ← send (mkUpload p h);
      if sent : bool then mret (false, None)
      else
        update_uploads (fun u => (mark_done u p).1);;
        set_upload_state p Uploaded;;
        fail UploadChannelClosed
  | None =>
      outcome ← upload_chunk_inert (mkUpload p h);
      apply_page_upload_outcome (mkUpload p h);;
      mret outcome
  end.

(** Records the page's chunk in [pages.idx] and marks it [LocalOnly]. *)
Definition bind_page (p : nat) (h : list Z) (iv_salt : Z) : M unit :=
  modify (fun w => with_page_index (set_unsynced_salted (page_index w) p h iv_salt) w);;
  modify (fun w => with_upload_index (UploadIndex.set_unsynced (upload_index w) p LocalOnly) w).

Definition write_page_unsynced (p : nat) (bytes : list Z) : M WritePageOutcome :=
  w ← get;
  let m := manifest w in
  if negb (Z.of_nat (length bytes) =? page_size m)
  then fail (EPageSizeMismatch (Z.of_nat (length bytes)) (page_size m))
  else if last_page_id w <? Z.of_nat p
  then fail (PageOutOfRange (Z.of_nat p) (page_size m) (live_size_bytes w))
  else
    sealed ← seal_payload p bytes;
    let '(payload, iv_salt) := sealed in
    inserted ← seal_chunk payload;
    let '(h, was_new) := inserted in
    bind_page p h iv_salt;;
    sent ← dispatch_upload p h;
    touch_lru p;;
    mret (mkOutcome h (negb was_new) sent.1 sent.2).

(** Fetches a chunk, from the pool or from storage, and opens it; with the
    number of bytes downloaded. *)
Definition fetch_and_decrypt (p : nat) (h : list Z) (iv_salt : Z) : M (list Z * Z) :=
  w ← get;
  fetched ← (match pool w !! h with
             | Some payload => external EChunkPoolIo;; mret (payload, 0)
             | None =>
                 external EStorage;;
                 match backend w !! h with
                 | None => fail EStorage
                 | Some bytes =>
                     was_new ← insert_verified_bytes h bytes;
                     (if was_new : bool
                      then modify (fun w => with_budget (force_reserve (budget w)
                             (Z.of_nat (length bytes)) (pool_namespace (manifest w))) w)
                      else mret tt);;
                     mret (bytes, Z.of_nat (length bytes))
                 end
             end);
  let '(payload, storage_bytes) := fetched in
  match encryption_key w with
  | Some key =>
      match decrypt_block key (derive_iv (dek_uuid (manifest w)) (Z.of_nat p) iv_salt) payload with
      | Ok plaintext => mret (plaintext, storage_bytes)
      | Err _ => fail EDecrypt
      end
  | None => mret (payload, storage_bytes)
  end.

Definition read_page (p : nat) : M (option (list Z * Z)) :=
  w ← get;
  match get_entry (page_index w) p with
  | None => mret None
  | Some entry =>
      touch_lru p;;
      out ← fetch_and_decrypt p (hash entry) (iv_salt entry);
      mret (Some out)
  end.

Definition clear_page (p : nat) : M unit :=
  modify (fun w => with_page_index (clear_unsynced (page_index w) p) w).

(** ** Failed uploads *)

Definition pending_upload_payload (w : VolumeWriter) (p : nat) : option UploadTask :=
  match PageIndex.get (page_index w) p with
  | None => None
  | Some h => Some (mkUpload p h)
  end.

Fixpoint retry_pages (ps : list nat) (retried : Z) : M Z :=
  match ps with
  | [] => mret retried
  | p :: ps =>
      w ← get;
      match pending_upload_payload w p with
      | None => update_uploads (fun u => clear_failed u p);; retry_pages ps retried
      | Some t =>
          update_uploads (fun u => (mark_pending u p).1);;
          sent ← send t;
          if sent : bool then retry_pages ps (retried + 1)
          else update_uploads (fun u => mark_failed u p);; fail UploadChannelClosed
      end
  end.

Definition retry_failed_uploads_in_range (range : Z * Z) : M Z :=
  w ← get;
  match sender w with
  | None => mret 0
  | Some _ => retry_pages (failed_in_range (uploads w) range) 0
  end.

(** ** The daemon's upload worker

    Tasks finish in any order.  [worker_put i] takes the [i]th queued task
    through the lookups and the PUT of [run_one_task]; [worker_apply i]
    applies the outcome of the [i]th task that got there. *)

Definition worker_put (i : nat) (w : VolumeWriter) : VolumeWriter :=
  match queue w !! i with
  | None => w
  | Some t =>
      let w := with_queue (delete i (queue w)) w in
      let attempt := external EUploadWorker;; external EVolume;; upload_chunk_inert t in
      match attempt w with
      | (w1, Ok _) => with_acked (acked w1 ++ [t]) w1
      | (w1, Err _) => with_uploads (mark_failed (uploads w1) (item_id t)) w1
      end
  end.

Definition worker_apply (i : nat) (w : VolumeWriter) : VolumeWriter :=
  match acked w !! i with
  | None => w
  | Some t => (apply_page_upload_outcome t (with_acked (delete i (acked w)) w)).1
  end.

(** [enqueue_one_volume]: the scan of [upload.idx] at boot. *)
Fixpoint enqueue_states (l : list (nat * UploadState)) (w : VolumeWriter) : VolumeWriter :=
  match l with
  | [] => w
  | (_, Uploaded) :: l => enqueue_states l w
  | (p, LocalOnly) :: l =>
      match pending_upload_payload w p with
      | None =>
          enqueue_states l (with_upload_index (UploadIndex.set (upload_index w) p Uploaded) w)
      | Some t =>
          let w1 := with_uploads (mark_pending (uploads w) p).1 w in
          match send t w1 with
          | (w2, Ok true) => enqueue_states l w2
          | (w2, _) => with_uploads (mark_done (uploads w2) p).1 w2
          end
      end
  end.

Definition enqueue_one_volume (w : VolumeWriter) : VolumeWriter :=
  enqueue_states (UploadIndex.iter_all (upload_index w)) w.

(** A daemon restart: the files and the storage stay, the tracker and the
    channel are new; [scan_and_enqueue_localonly] runs before host I/O. *)
Definition restart (w : VolumeWriter) : VolumeWriter :=
  enqueue_one_volume
    (with_sender (Some true) (with_uploads uploads_new (with_acked [] (with_queue []
      (with_live_size_bytes (disk_size w) w))))).

(** ** Resizing *)

Definition persist_manifest_size (new_size : Z) : M unit :=
  external EVolume;; modify (with_disk_size new_size).

Definition set_size (new_size : Z) : M unit :=
  w ← get;
  let m := manifest w in
  let page_size := page_size m in
  if (sector_bytes m =? 0) || negb (new_size mod sector_bytes m =? 0)
  then fail (ResizeNotSectorAligned new_size (sector_bytes m))
  else if new_size <? page_size then fail (ResizeBelowPage new_size page_size)
  else if negb (last_page_id_fits new_size page_size)
  then fail (ResizeExceedsAddressable new_size page_size)
  else if new_size =? live_size_bytes w then fail (ResizeNoChange new_size)
  else if live_size_bytes w <? new_size then
    persist_manifest_size new_size;;
    modify (with_live_size_bytes new_size)
  else if worm m then fail ResizeWormForbidden
  else
    let new_page_count := new_size / page_size in
    let shrink :=
      modify (fun w => with_page_index (truncate_from (page_index w) (Z.to_nat new_page_count)) w);;
      persist_manifest_size new_size;;
      modify (with_live_size_bytes new_size) in
    match highest_allocated_page (page_index w) with
    | Some highest =>
        if new_page_count <=? Z.of_nat highest
        then fail (ResizeWouldDiscardData new_size (Z.of_nat highest)
                     ((Z.of_nat highest + 1) * page_size))
        else shrink
    | None => shrink
    end.

Definition min_size_to_fit (w : VolumeWriter) : Z :=
  match highest_allocated_page (page_index w) with
  | Some highest => (Z.of_nat highest + 1) * page_size (manifest w)
  | None => page_size (manifest w)
  end.

End writer.
