(* ===== verification/VolumeProofs.v ===== *)
(** * Proofs about the volume writer

    The invariant of a volume, what each operation does to the contents of
    its pages, and the histories of host I/O, upload worker, eviction and
    restarts built from them. *)

From S2P Require Import Prelude Bytes ByteFile PageIndex UploadIndex BlockLru PoolBudget StateError Crypto VolumeWriter.

Local Open Scope Z_scope.

(** The outside world only advances. *)
Lemma answer_env w : exists e b, answer w = (with_env e w, Ok b).
Proof.
  unfold answer. destruct (script (env w)) as [|b l].
  - exists (env w), true. by destruct w.
  - by eexists _, b.
Qed.

Lemma external_env err w :
  exists e, external err w = (with_env e w, Ok tt) \/ external err w = (with_env e w, Err err).
Proof.
  unfold external. rewrite run_bind. destruct (answer_env w) as (e & b & ->). exists e. destruct b; auto.
Qed.

(** Runs an external call: both its answers. *)
Ltac run_external :=
  rewrite run_bind;
  match goal with
  | |- context [external ?err ?w] =>
      let e := fresh "e" in destruct (external_env err w) as (e & [-> | ->])
  end.

Section proofs.
Context `{VolumeCryptoLaws}.

Notation entry w p := (get_entry (page_index w) p).

(** ** Contents *)

(** The chunk with a digest, wherever it is. *)
Definition chunk (w : VolumeWriter) (h : list Z) : option (list Z) :=
  match pool w !! h with Some x => Some x | None => backend w !! h end.

Definition open_payload (w : VolumeWriter) (p : nat) (salt : Z) (x : list Z) : option (list Z) :=
  match encryption_key w with
  | Some key =>
      match decrypt_block key (derive_iv (dek_uuid (manifest w)) (Z.of_nat p) salt) x with
      | Ok bs => Some bs
      | Err _ => None
      end
  | None => Some x
  end.

Definition page_content (w : VolumeWriter) (p : nat) : option (list Z) :=
  e ← entry w p; x ← chunk w (hash e); open_payload w p (iv_salt e) x.

Record chunks_ok (w : VolumeWriter) : Prop := {
  pool_digest h x : pool w !! h = Some x -> blake3 x = h;
  backend_digest h x : backend w !! h = Some x -> blake3 x = h;
}.

(** Content-addressing: two stores that hold a digest hold the same bytes. *)
Lemma chunk_unique w h x :
  chunks_ok w -> pool w !! h = Some x \/ backend w !! h = Some x -> chunk w h = Some x.
Proof.
  intros [Hp Hb] Hx. unfold chunk. destruct (pool w !! h) as [y|] eqn:E; [|destruct Hx; congruence].
  f_equal. apply (inj blake3). rewrite (Hp _ _ E). destruct Hx as [Hx|Hx]; symmetry;
    [apply Hp; congruence|by apply Hb].
Qed.

Lemma chunk_digest w h x : chunks_ok w -> chunk w h = Some x -> blake3 x = h.
Proof. intros [Hp Hb]. unfold chunk. case_match; naive_solver. Qed.

(** ** What an operation may do short of rebinding pages *)

Record grows (w w' : VolumeWriter) : Prop := {
  g_manifest : manifest w' = manifest w;
  g_key : encryption_key w' = encryption_key w;
  g_index : page_index w' = page_index w;
  g_upload : upload_index w' = upload_index w;
  g_sender : sender w' = sender w;
  g_queue : queue w' = queue w;
  g_acked : acked w' = acked w;
  g_uploads : uploads w' = uploads w;
  g_disk : disk_size w' = disk_size w;
  g_live : live_size_bytes w' = live_size_bytes w;
  g_pool : pool w ⊆ pool w';
  g_backend : backend w ⊆ backend w';
  g_chunks : chunks_ok w -> chunks_ok w';
}.

#[global] Instance grows_po : PreOrder grows.
Proof.
  split.
  - intros w. by split.
  - intros w1 w2 w3 [] []. split; try congruence; try (etrans; eassumption). auto.
Qed.

Lemma grows_env w e : grows w (with_env e w).
Proof. split; simpl; try done. by intros []. Qed.

Lemma grows_budget w b : grows w (with_budget b w).
Proof. split; simpl; try done. by intros []. Qed.

Lemma grows_lru w l : grows w (with_lru_index l w).
Proof. split; simpl; try done. by intros []. Qed.

Lemma grows_pool w h x :
  blake3 x = h -> pool w !! h = None -> grows w (with_pool (<[h := x]> (pool w)) w).
Proof.
  intros Hx Hn. split; simpl; try done; [by apply insert_subseteq|].
  intros [Hp Hb]. split; simpl; [|done]. intros k y [[<- <-]|[_ Hk]]%lookup_insert_Some; auto.
Qed.

Lemma grows_backend w h x :
  chunks_ok w -> blake3 x = h -> grows w (with_backend (<[h := x]> (backend w)) w).
Proof.
  intros [Hp Hb] Hx. split; simpl; try done.
  - destruct (backend w !! h) as [y|] eqn:E; [|by apply insert_subseteq].
    rewrite insert_id; [done|]. rewrite E. f_equal. apply (inj blake3). rewrite Hx. by apply Hb.
  - intros _. split; simpl; [done|]. intros k y [[<- <-]|[_ Hk]]%lookup_insert_Some; auto.
Qed.

Lemma next_u64_env w : exists e s, next_u64 w = (with_env e w, Ok s) /\ in_u64 s.
Proof.
  unfold next_u64. destruct (salts (env w)) as [|s l].
  - exists (env w), 0. split; [by destruct w|]. unfold in_u64, u64_max. lia.
  - eexists _, _. split; [done|]. apply wrap64_range.
Qed.

Lemma seal_payload_spec w p bs :
  exists e, (exists x salt, seal_payload p bs w = (with_env e w, Ok (x, salt)) /\
     in_u64 salt /\ open_payload w p salt x = Some bs) \/
    seal_payload p bs w = (with_env e w, Err EEncrypt).
Proof.
  unfold seal_payload, open_payload. rewrite run_bind. simpl. destruct (encryption_key w) as [key|] eqn:Ek.
  - rewrite run_bind. destruct (next_u64_env w) as (e & s & -> & Hs). exists e.
    destruct (encrypt_block _ _ _) as [c|] eqn:Ec; [left|by right].
    eexists _, _. split; [done|]. split; [done|]. by rewrite (decrypt_encrypt _ _ _ _ Ec).
  - exists (env w). left. exists bs, 0. split; [by destruct w|]. split; [|done].
    unfold in_u64, u64_max. lia.
Qed.

Lemma try_reserve_spec n ns w :
  exists w' r, try_reserve n ns w = (w', r) /\ grows w w' /\ pool w' = pool w.
Proof.
  unfold try_reserve. rewrite run_bind. simpl. rewrite run_bind.
  destruct (answer_env w) as (e & b & ->). cbv zeta.
  case_match; eexists _, _; (split; [reflexivity|]); (split; [|done]).
  - etrans; [apply grows_env|apply grows_budget].
  - apply grows_env.
Qed.

Lemma insert_bytes_spec w x :
  chunks_ok w ->
  exists w' r, insert_bytes x w = (w', r) /\ grows w w' /\
    forall h new, r = Ok (h, new) -> h = blake3 x /\ pool w' !! h = Some x.
Proof.
  intros Hok. unfold insert_bytes. rewrite run_bind. simpl. cbv zeta.
  destruct (pool w !! blake3 x) as [y|] eqn:E.
  - eexists _, _. split; [reflexivity|]. split; [reflexivity|]. intros h new [= <- <-].
    rewrite E. split; [done|]. f_equal. apply (inj blake3), (pool_digest _ Hok), E.
  - run_external.
    + rewrite run_bind. simpl. eexists _, _. split; [reflexivity|]. split.
      * etrans; [apply (grows_env w e)|exact (grows_pool (with_env e w) _ x eq_refl E)].
      * intros h new [= <- <-]. simpl. by rewrite lookup_insert_eq.
    + eexists _, _. split; [reflexivity|]. by split; [apply grows_env|].
Qed.

Lemma seal_chunk_spec w x :
  chunks_ok w ->
  exists w' r, seal_chunk x w = (w', r) /\ grows w w' /\
    forall h new, r = Ok (h, new) -> h = blake3 x /\ pool w' !! h = Some x.
Proof.
  intros Hok. unfold seal_chunk. rewrite run_bind. simpl. rewrite run_bind.
  destruct (try_reserve_spec (Z.of_nat (length x)) (pool_namespace (manifest w)) w)
    as (w1 & r1 & -> & Hg1 & _).
  destruct r1 as [[]|err]; [|by eexists _, _].
  rewrite run_bind. unfold on_error.
  destruct (insert_bytes_spec w1 x (g_chunks _ _ Hg1 Hok)) as (w2 & r2 & -> & Hg2 & Hr2).
  assert (grows w w2) as Hg by (by etrans).
  destruct r2 as [[h new]|err].
  - rewrite run_bind. destruct (Hr2 h new eq_refl) as [Hh Hp]. destruct new; simpl.
    + eexists _, _. split; [reflexivity|]. split; [done|]. by intros ? ? [= <- <-].
    + eexists _, _. split; [reflexivity|]. split; [etrans; [exact Hg|apply grows_budget]|].
      by intros ? ? [= <- <-].
  - eexists _, _. split; [reflexivity|]. by split; [etrans; [exact Hg|apply grows_budget]|].
Qed.

Lemma touch_lru_spec w p : exists w', touch_lru p w = (w', Ok tt) /\ grows w w'.
Proof.
  unfold touch_lru. rewrite run_bind. destruct (answer_env w) as (e & [] & ->); simpl.
  - eexists. split; [reflexivity|]. etrans; [apply grows_env|apply grows_lru].
  - eexists. split; [reflexivity|]. apply grows_env.
Qed.

Lemma upload_chunk_inert_spec w t :
  chunks_ok w ->
  exists w' r, upload_chunk_inert t w = (w', r) /\ grows w w' /\
    forall o, r = Ok o -> is_Some (backend w' !! task_hash t).
Proof.
  intros Hok. unfold upload_chunk_inert. rewrite run_bind. simpl.
  assert (Hput : forall e, exists w' r,
    (match pool w !! task_hash t with
     | None => fail EUploadWorker
     | Some data =>
         external EUploadWorker;;
         modify (fun w => with_backend (<[task_hash t := data]> (backend w)) w);;
         mret (false, Some (Z.of_nat (length data)))
     end : EM VolumeWriter UploaderError (bool * option Z)) (with_env e w) = (w', r) /\ grows w w' /\
    forall o, r = Ok o -> is_Some (backend w' !! task_hash t)).
  { intros e. destruct (pool w !! task_hash t) as [data|] eqn:E.
    - run_external; [rewrite run_bind|]; simpl; eexists _, _; (split; [reflexivity|]); split; try done.
      + etrans; [apply (grows_env w e0)|].
        exact (grows_backend (with_env e0 w) _ data (g_chunks _ _ (grows_env w e0) Hok) (pool_digest _ Hok _ _ E)).
      + intros o _. simpl. rewrite lookup_insert_eq. eauto.
      + apply (grows_env w e0).
    - eexists _, _. split; [reflexivity|]. by split; [apply grows_env|]. }
  rewrite run_bind. destruct (dedup_scope (manifest w)).
  - run_external; simpl.
    + case_bool_decide as Hb; [|apply Hput].
      eexists _, _. split; [reflexivity|]. by split; [apply grows_env|].
    + eexists _, _. split; [reflexivity|]. by split; [apply grows_env|].
  - specialize (Hput (env w)). replace (with_env (env w) w) with w in Hput by (by destruct w).
    exact Hput.
Qed.

Lemma insert_verified_spec w h x :
  chunks_ok w ->
  exists w' r, insert_verified_bytes h x w = (w', r) /\ grows w w' /\
    (forall b, r = Ok b -> pool w !! h = None -> blake3 x = h).
Proof.
  intros Hok. unfold insert_verified_bytes. rewrite run_bind. simpl.
  destruct (pool w !! h) as [y|] eqn:E; [by eexists _, _|].
  case_bool_decide as Hb; [by eexists _, _|].
  run_external; [rewrite run_bind|]; simpl; eexists _, _; (split; [reflexivity|]); split; try done.
  - etrans; [apply (grows_env w e)|exact (grows_pool (with_env e w) h x Hb E)].
  - apply grows_env.
Qed.

Lemma fetch_and_decrypt_spec w p h salt :
  chunks_ok w ->
  exists w' r, fetch_and_decrypt p h salt w = (w', r) /\ grows w w' /\
    forall bs n, r = Ok (bs, n) -> exists x, chunk w h = Some x /\ open_payload w p salt x = Some bs.
Proof.
  intros Hok. unfold fetch_and_decrypt. rewrite run_bind. simpl. rewrite run_bind.
  assert (Hopen : forall w1 x n, grows w w1 -> chunk w h = Some x ->
    exists w' r, (match encryption_key w with
      | Some key =>
          match decrypt_block key (derive_iv (dek_uuid (manifest w)) (Z.of_nat p) salt) x with
          | Ok plaintext => mret (plaintext, n)
          | Err _ => fail EDecrypt
          end
      | None => mret (x, n)
      end : EM VolumeWriter UploaderError (list Z * Z)) w1 = (w', r) /\ grows w w' /\
    forall bs n, r = Ok (bs, n) -> exists x, chunk w h = Some x /\ open_payload w p salt x = Some bs).
  { intros w1 x n Hg Hx. unfold open_payload.
    destruct (encryption_key w) as [key|]; [destruct (decrypt_block _ _ x) eqn:Ed|];
      eexists _, _; (split; [reflexivity|]); (split; [done|]); intros bs m [=]; subst;
      eexists; (split; [exact Hx|]); by rewrite ?Ed. }
  unfold chunk in *. destruct (pool w !! h) as [x|] eqn:E.
  - run_external; [apply Hopen; [apply grows_env|done]|].
    eexists _, _. split; [reflexivity|]. by split; [apply grows_env|].
  - run_external; [|eexists _, _; (split; [reflexivity|]); by split; [apply grows_env|]].
    destruct (backend w !! h) as [x|] eqn:Eb;
      [|eexists _, _; (split; [reflexivity|]); by split; [apply grows_env|]].
    rewrite run_bind. destruct (insert_verified_spec (with_env e w) h x) as (w1 & r & -> & Hg & _).
    { by apply (g_chunks w); [apply grows_env|]. }
    assert (grows w w1) as Hg1 by (etrans; [apply grows_env|done]).
    destruct r as [[]|err]; [| |by eexists _, _].
    + rewrite run_bind. simpl. apply Hopen; [etrans; [exact Hg1|apply grows_budget]|done].
    + rewrite run_bind. simpl. by apply Hopen.
Qed.

(** ** The invariant *)

Notation pcount f := (rec_count PageIndex.HEADER_SIZE PageIndex.RECORD_SIZE f).
Notation ucount f := (rec_count UploadIndex.HEADER_SIZE UploadIndex.RECORD_SIZE f).
Notation state_at w p := (UploadIndex.read (upload_index w) p).

(** The page ids of a volume of [size] bytes are below [u32::MAX]. *)
Definition size_ok (w : VolumeWriter) (size : Z) : Prop := size / page_size (manifest w) <= u32_max.

Record vol_wf (w : VolumeWriter) : Prop := {
  v_chunks : chunks_ok w;
  v_index : idx_wf (page_index w);
  v_sidecar : UploadIndex.wf (upload_index w);
  v_count : Z.of_nat (ucount (upload_index w)) <= u32_max;
  v_live : size_ok w (live_size_bytes w);
  v_disk : size_ok w (disk_size w);
  v_bound p e : entry w p = Some e -> Z.of_nat p < u32_max;
  v_pages p e : entry w p = Some e ->
    exists bs, page_content w p = Some bs /\ Z.of_nat (length bs) = page_size (manifest w);
  v_uploaded p e : entry w p = Some e -> state_at w p = Uploaded -> is_Some (backend w !! hash e);
  v_acked t : t ∈ acked w -> is_Some (backend w !! task_hash t);
  v_depth : depth (uploads w) = Z.of_nat (size (pending (uploads w)));
  v_pcount : Z.of_nat (pcount (PageIndex.file (page_index w))) <= u32_max;
  v_key : encrypted (manifest w) = false -> encryption_key w = None;
  v_salt p e : entry w p = Some e -> in_u64 (iv_salt e);
}.

(** Every page whose chunk is not in storage has an upload in flight or on
    the failed list. *)
Definition tracked (w : VolumeWriter) : Prop :=
  forall p e, entry w p = Some e -> backend w !! hash e = None ->
    p ∈ pending (uploads w) ∪ failed (uploads w).

(** Every page in flight has a task for the chunk it is bound to. *)
Definition served (w : VolumeWriter) : Prop :=
  forall p, p ∈ pending (uploads w) ->
    exists t, t ∈ queue w ++ acked w /\ item_id t = p /\
      PageIndex.get (page_index w) p = Some (task_hash t).

(** A page in flight that no task will settle. *)
Definition stranded (p : nat) (w : VolumeWriter) : Prop :=
  p ∈ pending (uploads w) /\ entry w p = None /\ forall t, t ∈ queue w ++ acked w -> item_id t <> p.

Lemma chunk_grows w w' h x : grows w w' -> chunks_ok w -> chunk w h = Some x -> chunk w' h = Some x.
Proof.
  intros Hg Hok Hx. apply chunk_unique; [by apply (g_chunks w)|]. unfold chunk in Hx.
  destruct (pool w !! h) eqn:E; simplify_eq.
  - left. by eapply lookup_weaken, g_pool.
  - right. by eapply lookup_weaken, g_backend.
Qed.

Lemma open_grows w w' p salt x : grows w w' -> open_payload w' p salt x = open_payload w p salt x.
Proof. intros []. unfold open_payload. by rewrite g_key0, g_manifest0. Qed.

Lemma page_content_grows w w' p : vol_wf w -> grows w w' -> page_content w' p = page_content w p.
Proof.
  intros Hw Hg. unfold page_content. rewrite (g_index _ _ Hg).
  destruct (entry w p) as [e|] eqn:E; [|done]. simpl.
  destruct (v_pages _ Hw p e E) as (bs & Hc & _). unfold page_content in Hc. rewrite E in Hc. simpl in Hc.
  destruct (chunk w (hash e)) as [x|] eqn:Ex; [|done].
  rewrite (chunk_grows _ _ _ _ Hg (v_chunks _ Hw) Ex). simpl. by apply open_grows.
Qed.

Lemma vol_wf_grows w w' : vol_wf w -> grows w w' -> vol_wf w'.
Proof.
  intros Hw Hg. pose proof Hw as [Hc Hi Hs Hn Hl Hd Hb Hp Hu Ha Hdep Hpn].
  assert (forall p, page_content w' p = page_content w p) as Hpc by (intros; by apply page_content_grows).
  unfold size_ok in *. destruct Hg as [Em Ek Ei Eu Es Eq Ea Eup Ed El Hpo Hba Hch].
  split; unfold size_ok; rewrite ?Em, ?Ei, ?Eu, ?Ea, ?Eup, ?Ed, ?El, ?Ek; auto.
  - intros p e He. rewrite Hpc. eauto.
  - intros p e He Hst. destruct (Hu p e He Hst) as [x Hx]. exists x. by eapply lookup_weaken.
  - intros t Ht. destruct (Ha t Ht) as [x Hx]. exists x. by eapply lookup_weaken.
Qed.

Lemma tracked_grows w w' : tracked w -> grows w w' -> tracked w'.
Proof.
  intros Ht [Em Ek Ei Eu Es Eq Ea Eup Ed El Hpo Hba Hch] p e. rewrite Ei, Eup. intros He Hn.
  apply (Ht p e He). by eapply lookup_weaken_None.
Qed.

Lemma served_grows w w' : served w -> grows w w' -> served w'.
Proof.
  intros Hs [Em Ek Ei Eu Es Eq Ea Eup Ed El _ _ _] p. rewrite Ei, Eq, Ea, Eup. apply Hs.
Qed.

(** Changes of the sidecar, the tracker and the queues. *)
Lemma stranded_grows p w w' : stranded p w -> grows w w' -> stranded p w'.
Proof. intros Hs [_ _ Ei _ _ Eq Ea Eu _ _ _ _ _]. unfold stranded. by rewrite Ei, Eq, Ea, Eu. Qed.

Lemma sidecar_set f p st :
  UploadIndex.wf f -> Z.of_nat (ucount f) <= u32_max -> Z.of_nat p < u32_max ->
  UploadIndex.wf (UploadIndex.set_unsynced f p st) /\
  Z.of_nat (ucount (UploadIndex.set_unsynced f p st)) <= u32_max.
Proof.
  intros Hs Hn Hp. destruct (upload_op_step f (USet p st) Hs) as [Hs' _]. simpl in Hs'. split; [done|].
  pose proof (length_rf _ Hs') as E1. pose proof (length_rf _ Hs) as E2.
  assert (length (UploadIndex.set_unsynced f p st) =
    (length f `max` (UploadIndex.record_offset p + 1))%nat) as E3
    by (unfold UploadIndex.set_unsynced; by rewrite length_write_at by done).
  unfold UploadIndex.record_offset, UploadIndex.RECORD_SIZE in E3. lia.
Qed.

Lemma vol_wf_state w p st :
  vol_wf w -> Z.of_nat p < u32_max ->
  (st = Uploaded -> forall e, entry w p = Some e -> is_Some (backend w !! hash e)) ->
  vol_wf (with_upload_index (UploadIndex.set_unsynced (upload_index w) p st) w).
Proof.
  intros [Hc Hi Hs Hn Hl Hd Hb Hp Hu Ha Hdep Hpn] Hlt Hst.
  destruct (upload_op_step (upload_index w) (USet p st) Hs) as [Hs' Hr]. simpl in *.
  split; simpl; auto.
  - by destruct Hc.
  - by apply sidecar_set.
  - intros q e He. rewrite Hr. case_bool_decide as Hq; [subst q; intros ->; by apply Hst|by apply Hu].
Qed.

Lemma vol_wf_uploads w u :
  vol_wf w -> depth u = Z.of_nat (size (pending u)) -> vol_wf (with_uploads u w).
Proof. intros [] Hu. split; simpl; auto. by destruct v_chunks0. Qed.

Lemma vol_wf_queue w q : vol_wf w -> vol_wf (with_queue q w).
Proof. intros []. split; simpl; auto. by destruct v_chunks0. Qed.

Lemma vol_wf_acked w l :
  vol_wf w -> (forall t, t ∈ l -> is_Some (backend w !! task_hash t)) -> vol_wf (with_acked l w).
Proof. intros [] Hl. split; simpl; auto. by destruct v_chunks0. Qed.

Lemma size_minus (X : gset nat) p :
  size (X ∖ {[p]}) = (if decide (p ∈ X) then size X - 1 else size X)%nat.
Proof.
  case_decide as Hp.
  - rewrite size_difference by set_solver. by rewrite size_singleton.
  - f_equal. set_solver.
Qed.

Lemma size_plus (X : gset nat) p :
  size ({[p]} ∪ X) = (if decide (p ∈ X) then size X else S (size X))%nat.
Proof.
  case_decide as Hp; [f_equal; set_solver|].
  rewrite size_union by set_solver. by rewrite size_singleton.
Qed.

Lemma size_pos_in (X : gset nat) p : p ∈ X -> (0 < size X)%nat.
Proof. intros Hp. assert (size X <> 0%nat); [|lia]. rewrite size_non_empty_iff. set_solver. Qed.

(** The gauge counts the pages in flight. *)
Lemma depth_marks u p :
  depth u = Z.of_nat (size (pending u)) ->
  depth (mark_pending u p).1 = Z.of_nat (size (pending (mark_pending u p).1)) /\
  depth (mark_done u p).1 = Z.of_nat (size (pending (mark_done u p).1)) /\
  depth (mark_failed u p) = Z.of_nat (size (pending (mark_failed u p))) /\
  depth (clear_failed u p) = Z.of_nat (size (pending (clear_failed u p))).
Proof.
  intros Hd. unfold mark_pending, mark_done, mark_failed, clear_failed. cbn [fst depth pending].
  rewrite size_minus, size_plus, Hd. destruct (decide (p ∈ pending u)) as [Hp|Hp].
  - rewrite bool_decide_eq_false_2, bool_decide_eq_true_2 by auto.
    pose proof (size_pos_in _ _ Hp). split_and!; lia.
  - rewrite bool_decide_eq_true_2, bool_decide_eq_false_2 by auto. split_and!; lia.
Qed.

(** ** Binding a page *)

Definition set_entry (w : VolumeWriter) (p : nat) (h : list Z) (salt : Z) : VolumeWriter :=
  with_page_index (set_unsynced_salted (page_index w) p h salt) w.

Definition bound (w : VolumeWriter) (p : nat) (h : list Z) (salt : Z) : VolumeWriter :=
  with_upload_index (UploadIndex.set_unsynced (upload_index w) p LocalOnly) (set_entry w p h salt).

Lemma bind_page_eq w p h salt : bind_page p h salt w = (bound w p h salt, Ok tt).
Proof. done. Qed.

Lemma entry_bound w p h salt q :
  idx_wf (page_index w) -> length h = 32%nat -> in_u64 salt ->
  entry (bound w p h salt) q = if bool_decide (q = p) then Some (PageIndex.mkEntry h salt) else entry w q.
Proof. intros Hi Hh Hs. simpl. by apply (page_op_step (page_index w) (OSet p h salt) Hi). Qed.

(** The contents after a change of the index alone. *)
Lemma page_content_index w w' p :
  manifest w' = manifest w -> encryption_key w' = encryption_key w -> pool w' = pool w ->
  backend w' = backend w -> entry w' p = entry w p -> page_content w' p = page_content w p.
Proof.
  intros Em Ek Ep Eb Ee. unfold page_content, chunk, open_payload. by rewrite Em, Ek, Ep, Eb, Ee.
Qed.

(** Naming a chunk the volume can open. *)
Lemma set_entry_spec w p h salt x bs :
  vol_wf w -> Z.of_nat p < u32_max -> in_u64 salt -> length h = 32%nat ->
  chunk w h = Some x -> (state_at w p = Uploaded -> is_Some (backend w !! h)) ->
  open_payload w p salt x = Some bs -> Z.of_nat (length bs) = page_size (manifest w) ->
  let w' := set_entry w p h salt in
  vol_wf w' /\ page_content w' p = Some bs /\
  (forall q, q <> p -> page_content w' q = page_content w q) /\
  forall q, entry w' q = if bool_decide (q = p) then Some (PageIndex.mkEntry h salt) else entry w q.
Proof.
  intros Hw Hp Hs Hh Hx Hb Ho Hl w'.
  pose proof (fun q => entry_bound w p h salt q (v_index _ Hw) Hh Hs) as He.
  change (forall q, entry w' q = if bool_decide (q = p) then Some (PageIndex.mkEntry h salt) else entry w q) in He.
  assert (Hcp : page_content w' p = Some bs).
  { unfold page_content. rewrite He, bool_decide_eq_true_2 by done. simpl.
    change (chunk w' h) with (chunk w h). rewrite Hx. exact Ho. }
  assert (Hcq : forall q, q <> p -> page_content w' q = page_content w q).
  { intros q Hq. apply page_content_index; try done. rewrite He. by rewrite bool_decide_eq_false_2. }
  split_and!; try done.
  pose proof Hw as [Hc Hi Hsc Hn Hl' Hd Hb' Hpg Hu Ha Hdep Hpn Hk Hsa].
  split; auto.
  - by destruct Hc.
  - by apply (page_op_step (page_index w) (OSet p h salt) Hi).
  - intros q e. rewrite He. case_bool_decide; [by subst|apply Hb'].
  - intros q e. rewrite He. case_bool_decide as Hq; [subst|intros Hqe].
    + intros _. by exists bs.
    + rewrite Hcq by done. by apply (Hpg q e).
  - intros q e. rewrite He. case_bool_decide; [subst; by intros [= <-]|apply Hu].
  - simpl. change (page_offset p) with (rec_off PageIndex.HEADER_SIZE PageIndex.RECORD_SIZE p).
    rewrite rec_count_write; [lia|apply page_record_size_pos|apply Hi|by apply length_encode_record].
  - intros q e. rewrite He. case_bool_decide; [by intros [= <-]|apply Hsa].
Qed.

Lemma bound_spec w p h salt x bs :
  vol_wf w -> Z.of_nat p < u32_max -> in_u64 salt -> length h = 32%nat ->
  chunk w h = Some x -> open_payload w p salt x = Some bs ->
  Z.of_nat (length bs) = page_size (manifest w) ->
  let w' := bound w p h salt in
  vol_wf w' /\ page_content w' p = Some bs /\
  (forall q, q <> p -> page_content w' q = page_content w q) /\
  entry w' p = Some (PageIndex.mkEntry h salt).
Proof.
  intros Hw Hp Hs Hh Hx Ho Hl w'. set (w1 := with_upload_index (UploadIndex.set_unsynced (upload_index w) p LocalOnly) w).
  assert (vol_wf w1) as Hw1 by (by apply vol_wf_state).
  pose proof (upload_op_step (upload_index w) (USet p LocalOnly) (v_sidecar _ Hw)) as [_ Hr]. simpl in Hr.
  destruct (set_entry_spec w1 p h salt x bs) as (H1 & H2 & H3 & H4); try done.
  { simpl. rewrite Hr. by rewrite bool_decide_eq_true_2. }
  split_and!; [done..|]. etrans; [apply H4|]. by rewrite bool_decide_eq_true_2.
Qed.

(** The same volume later: the same identity, and storage keeps what it has. *)
Record volume_le (w w' : VolumeWriter) : Prop := {
  le_manifest : manifest w' = manifest w;
  le_key : encryption_key w' = encryption_key w;
  le_backend : backend w ⊆ backend w';
}.

#[export] Instance volume_le_order : PreOrder volume_le.
Proof.
  split; [by split|]. intros w1 w2 w3 [H1 H2 H3] [H4 H5 H6]. split; [congruence..|by etrans].
Qed.

Lemma grows_le w w' : grows w w' -> volume_le w w'.
Proof. by intros []. Qed.

(** Nothing about chunks or the page table changes. *)
Record same_data (w w' : VolumeWriter) : Prop := {
  s_manifest : manifest w' = manifest w;
  s_key : encryption_key w' = encryption_key w;
  s_index : page_index w' = page_index w;
  s_pool : pool w' = pool w;
  s_backend : backend w' = backend w;
  s_sender : sender w' = sender w;
}.

Lemma same_data_le w w' : same_data w w' -> volume_le w w'.
Proof. intros [Em Ek _ _ Eb _]. split; [done..|]. by rewrite Eb. Qed.

Lemma page_content_same w w' p : same_data w w' -> page_content w' p = page_content w p.
Proof. intros []. apply page_content_index; congruence. Qed.

Lemma get_is_entry w p h : PageIndex.get (page_index w) p = Some h -> exists e, entry w p = Some e /\ hash e = h.
Proof. unfold PageIndex.get. intros (e & He & ->)%fmap_Some. eauto. Qed.

Lemma apply_outcome_spec w t :
  vol_wf w -> is_Some (backend w !! task_hash t) ->
  let w' := (apply_page_upload_outcome t w).1 in
  (apply_page_upload_outcome t w).2 = Ok tt /\
  vol_wf w' /\ same_data w w' /\ (tracked w -> tracked w') /\
  queue w' = queue w /\ acked w' = acked w /\
  live_size_bytes w' = live_size_bytes w /\ disk_size w' = disk_size w.
Proof.
  intros Hw Hb. unfold apply_page_upload_outcome. rewrite run_bind. simpl.
  destruct (u32_max <? Z.of_nat (item_id t)); [by split_and!|].
  case_bool_decide as Hg; [by split_and!|]. rewrite run_bind. simpl.
  destruct (get_is_entry w _ _ Hg) as (e & He & Heh).
  split_and!; try done.
  - apply (vol_wf_uploads (with_upload_index (UploadIndex.set_unsynced (upload_index w) (item_id t) Uploaded) w)).
    + apply vol_wf_state; [done|by apply (v_bound w Hw _ e)|]. intros _ e' He'.
      rewrite He in He'. injection He' as <-. by rewrite Heh.
    + apply depth_marks, Hw.
  - intros Ht p e' Hp Hn. simpl in *. specialize (Ht p e' Hp Hn). destruct (decide (p = item_id t)) as [->|Hne].
    + rewrite He in Hp. injection Hp as <-. rewrite Heh in Hn. rewrite Hn in Hb. by destruct Hb.
    + set_solver.
Qed.

Lemma send_open w t : sender w = Some true -> send t w = (with_queue (queue w ++ [t]) w, Ok true).
Proof. intros Hs. unfold send. rewrite run_bind. simpl. by rewrite Hs. Qed.

(** With a worker that listens, or none. *)
Definition channel_ok (w : VolumeWriter) : Prop := sender w <> Some false.

Lemma dispatch_spec w p h e :
  vol_wf w -> channel_ok w -> entry w p = Some e -> hash e = h ->
  exists w' r, dispatch_upload p h w = (w', r) /\ vol_wf w' /\ sender w' = sender w /\
    (forall q, page_content w' q = page_content w q) /\
    page_index w' = page_index w /\ volume_le w w' /\
    live_size_bytes w' = live_size_bytes w /\ disk_size w' = disk_size w /\
    (sender w = Some true ->
      queue w' = queue w ++ [mkUpload p h] /\ uploads w' = (mark_pending (uploads w) p).1 /\
      (exists o, r = Ok o) /\ backend w' = backend w /\ pool w' = pool w /\
      acked w' = acked w).
Proof.
  intros Hw Hch He Hh. unfold dispatch_upload. rewrite run_bind. simpl.
  destruct (sender w) as [[]|] eqn:Es; [|done|].
  - rewrite run_bind. simpl. rewrite run_bind, send_open by done. simpl.
    eexists _, _. split; [reflexivity|]. split_and!; try done.
    + apply vol_wf_queue, vol_wf_uploads; [done|]. apply depth_marks, Hw.
    + intros _. split_and!; eauto.
  - rewrite run_bind. destruct (upload_chunk_inert_spec w (mkUpload p h) (v_chunks _ Hw))
      as (w1 & r1 & -> & Hg & Hr). pose proof (vol_wf_grows _ _ Hw Hg) as Hw1.
    destruct r1 as [o|err].
    + rewrite run_bind. destruct (apply_outcome_spec w1 (mkUpload p h) Hw1 (Hr o eq_refl))
        as (Hok & Hw2 & Hs & _ & _ & _ & Hlv & Hdk). destruct (apply_page_upload_outcome _ w1) as [w2 r2]. simpl in *. subst r2.
      assert (forall q, page_content w2 q = page_content w q) as Hpc.
      { intros q. by rewrite (page_content_same _ _ _ Hs), (page_content_grows w). }
      assert (volume_le w w2) by (etrans; [by apply grows_le|by apply same_data_le]).
      eexists _, _. split; [reflexivity|]. destruct Hg, Hs. split_and!; congruence || done.
    + assert (forall q, page_content w1 q = page_content w q) as Hpc
        by (intros q; by apply page_content_grows).
      pose proof (grows_le _ _ Hg). eexists _, _. split; [reflexivity|]. destruct Hg. split_and!; congruence || done.
Qed.

(** The bytes and page id a write must have. *)
Definition write_fits (w : VolumeWriter) (p : nat) (bs : list Z) : Prop :=
  Z.of_nat (length bs) = page_size (manifest w) /\ Z.of_nat p <= last_page_id w.

(** What a write of page [p] leaves: the new contents or, on some errors,
    the old. *)
Record write_result (w : VolumeWriter) (p : nat) (bs : list Z) (w' : VolumeWriter)
    (r : result WritePageOutcome UploaderError) : Prop := {
  wr_wf : vol_wf w';
  wr_sender : sender w' = sender w;
  wr_manifest : manifest w' = manifest w;
  wr_live : live_size_bytes w' = live_size_bytes w;
  wr_disk : disk_size w' = disk_size w;
  wr_others q : q <> p -> page_content w' q = page_content w q;
  wr_page : page_content w' p = page_content w p \/ page_content w' p = Some bs;
  wr_ok o : r = Ok o -> page_content w' p = Some bs /\ write_fits w p bs;
  wr_tracked : sender w = Some true -> tracked w -> tracked w';
  wr_served : sender w = Some true -> served w -> served w';
  wr_stranded q : sender w = Some true -> q <> p -> stranded q w -> stranded q w';
  wr_le : volume_le w w';
}.

Lemma write_result_err w p bs w' err : vol_wf w -> grows w w' -> write_result w p bs w' (Err err).
Proof.
  intros Hw Hg. split; try done; try apply Hg.
  - by eapply vol_wf_grows.
  - intros q _. by apply page_content_grows.
  - left. by apply page_content_grows.
  - intros _ Ht. by eapply tracked_grows.
  - intros _ Ht. by eapply served_grows.
  - intros q _ _ Ht. by eapply stranded_grows.
  - by apply grows_le.
Qed.

Lemma tracked_bound w p h salt :
  idx_wf (page_index w) -> length h = 32%nat -> in_u64 salt -> tracked w ->
  tracked (with_uploads (mark_pending (uploads w) p).1 (bound w p h salt)).
Proof.
  intros Hi Hh Hs Ht q e. change (entry (with_uploads _ (bound w p h salt)) q) with (entry (bound w p h salt) q).
  rewrite entry_bound by done. case_bool_decide as Hq; [set_solver|].
  intros He Hn. simpl in *. specialize (Ht q e He Hn). set_solver.
Qed.

Lemma served_bound w w' p h salt :
  idx_wf (page_index w) -> length h = 32%nat -> in_u64 salt -> served w ->
  page_index w' = page_index (bound w p h salt) -> acked w' = acked w ->
  uploads w' = (mark_pending (uploads w) p).1 -> queue w' = queue w ++ [mkUpload p h] -> served w'.
Proof.
  intros Hi Hh Hs Hsv Ei Ea Eu Eq q. rewrite Ei, Ea, Eu, Eq. unfold PageIndex.get.
  rewrite entry_bound by done. case_bool_decide as Hq.
  - intros _. exists (mkUpload p h). subst q. split; [set_solver|done].
  - intros Hp. assert (q ∈ pending (uploads w)) as Hq' by (simpl in Hp; set_solver).
    destruct (Hsv q Hq') as (t & Ht & Hti & Hg). exists t. split; [set_solver|]. by split.
Qed.

Lemma stranded_bound q w w' p h salt :
  idx_wf (page_index w) -> length h = 32%nat -> in_u64 salt -> q <> p -> stranded q w ->
  page_index w' = page_index (bound w p h salt) -> acked w' = acked w ->
  uploads w' = (mark_pending (uploads w) p).1 -> queue w' = queue w ++ [mkUpload p h] -> stranded q w'.
Proof.
  intros Hi Hh Hs Hne (Hq & He & Ht) Ei Ea Eu Eq. unfold stranded. rewrite Ei, Ea, Eu, Eq.
  rewrite entry_bound, bool_decide_eq_false_2 by done. split_and!; [simpl; set_solver|done|].
  intros t Hin. apply elem_of_app in Hin as [[Hin| ->%list_elem_of_singleton]%elem_of_app|Hin]; [|done|];
    apply Ht; set_solver.
Qed.

Lemma write_bound_result w w1 p bs h x salt :
  vol_wf w -> channel_ok w -> grows w w1 -> write_fits w p bs -> Z.of_nat p < u32_max ->
  in_u64 salt -> h = blake3 x -> pool w1 !! h = Some x -> open_payload w p salt x = Some bs ->
  forall new, exists w' r,
  (bind_page p h salt;;
   sent ← dispatch_upload p h; touch_lru p;; mret (mkOutcome h (negb new) sent.1 sent.2)) w1 = (w', r) /\
  write_result w p bs w' r.
Proof.
  intros Hw Hch Hg Hf Hp Hs Hh Hx Ho new. rewrite run_bind, bind_page_eq, run_bind.
  pose proof (vol_wf_grows _ _ Hw Hg) as Hw1. assert (length h = 32%nat) as Hl by (subst; apply blake3_length).
  destruct (bound_spec w1 p h salt x bs) as (Hw2 & Hc & Hcq & He); try done.
  { by apply chunk_unique; [apply Hw1|left]. } { by rewrite (open_grows w w1). } { rewrite (g_manifest _ _ Hg). apply Hf. }
  destruct (dispatch_spec (bound w1 p h salt) p h (PageIndex.mkEntry h salt) Hw2)
    as (w3 & r3 & -> & Hw3 & Hs3 & Hc3 & Hi3 & Hle3 & Hlv3 & Hdk3 & Hopen);
    [by unfold channel_ok; simpl; rewrite (g_sender _ _ Hg)|exact He|done|].
  assert (forall w4 r4, grows w3 w4 -> write_result w p bs w4 r4) as Hdone.
  { intros w4 r4 Hg4. assert (forall q, page_content w4 q = page_content (bound w1 p h salt) q) as Hc4.
    { intros q. by rewrite (page_content_grows w3 w4), Hc3. }
    split.
    - by eapply vol_wf_grows.
    - rewrite (g_sender _ _ Hg4), Hs3. apply (g_sender _ _ Hg).
    - rewrite (g_manifest _ _ Hg4), (le_manifest _ _ Hle3). apply (g_manifest _ _ Hg).
    - rewrite (g_live _ _ Hg4), Hlv3. apply (g_live _ _ Hg).
    - rewrite (g_disk _ _ Hg4), Hdk3. apply (g_disk _ _ Hg).
    - intros q Hq. rewrite Hc4, Hcq by done. by apply page_content_grows.
    - right. by rewrite Hc4.
    - intros o _. by rewrite Hc4.
    - intros Hsn Ht. eapply tracked_grows; [|exact Hg4].
      destruct Hopen as (_ & Hu & _ & Hb & _); [simpl; by rewrite (g_sender _ _ Hg)|].
      pose proof (tracked_bound w1 p h salt (v_index _ Hw1) Hl Hs (tracked_grows _ _ Ht Hg)) as Htb.
      intros q e'. rewrite Hi3, Hu, Hb. apply (Htb q e').
    - intros Hsn Ht. eapply served_grows; [|exact Hg4].
      destruct Hopen as (Hq & Hu & _ & _ & _ & Ha); [simpl; by rewrite (g_sender _ _ Hg)|].
      apply (served_bound w1 w3 p h salt (v_index _ Hw1) Hl Hs); try done. by eapply served_grows.
    - intros q Hsn Hne Ht. eapply stranded_grows; [|exact Hg4].
      destruct Hopen as (Hq & Hu & _ & _ & _ & Ha); [simpl; by rewrite (g_sender _ _ Hg)|].
      apply (stranded_bound q w1 w3 p h salt (v_index _ Hw1) Hl Hs); try done. by eapply stranded_grows.
    - etrans; [by apply grows_le|]. transitivity (bound w1 p h salt); [by split|].
      etrans; [exact Hle3|by apply grows_le]. }
  destruct r3 as [o|err]; [|eexists _, _; split; [reflexivity|]; by apply Hdone].
  rewrite run_bind. destruct (touch_lru_spec w3 p) as (w4 & -> & Hg4).
  eexists _, _. split; [reflexivity|]. by apply Hdone.
Qed.

Lemma write_page_spec w p bs :
  vol_wf w -> channel_ok w -> 0 < page_size (manifest w) <= live_size_bytes w ->
  exists w' r, write_page_unsynced p bs w = (w', r) /\ write_result w p bs w' r.
Proof.
  intros Hw Hch Hpos. unfold write_page_unsynced. rewrite run_bind. simpl.
  destruct (Z.of_nat (length bs) =? page_size (manifest w)) eqn:El; simpl; bool_to_prop;
    [|eexists _, _; split; [reflexivity|]; by apply write_result_err].
  destruct (last_page_id w <? Z.of_nat p) eqn:Ep; bool_to_prop;
    [eexists _, _; split; [reflexivity|]; by apply write_result_err|].
  pose proof (v_live _ Hw) as Hlive. assert (Z.of_nat p < u32_max) as Hp.
  { unfold last_page_id, sat_sub, size_ok in *.
    assert (0 < live_size_bytes w / page_size (manifest w)) by (apply Z.div_str_pos; lia). lia. }
  rewrite run_bind. destruct (seal_payload_spec w p bs) as (e & [(x & salt & -> & Hs & Ho)| ->]);
    [|eexists _, _; split; [reflexivity|]; apply write_result_err; [done|apply grows_env]].
  rewrite run_bind. destruct (seal_chunk_spec (with_env e w) x) as (w1 & r1 & -> & Hg1 & Hr1).
  { apply (g_chunks w); [apply grows_env|apply Hw]. }
  assert (grows w w1) as Hg by (etrans; [apply grows_env|exact Hg1]).
  destruct r1 as [[h new]|err]; [|eexists _, _; split; [reflexivity|]; by apply write_result_err].
  destruct (Hr1 h new eq_refl) as [Hh Hx]. by apply (write_bound_result w w1 p bs h x salt).
Qed.

(** ** Reading *)

Lemma read_page_spec w p :
  vol_wf w ->
  exists w' r, read_page p w = (w', r) /\ grows w w' /\
    forall o, r = Ok o -> fst <$> o = page_content w p.
Proof.
  intros Hw. unfold read_page. rewrite run_bind. simpl. unfold page_content.
  destruct (entry w p) as [e|] eqn:E; [|eexists _, _; split; [reflexivity|]; split; [done|]; by intros ? [= <-]].
  rewrite run_bind. destruct (touch_lru_spec w p) as (w1 & -> & Hg1). rewrite run_bind.
  destruct (fetch_and_decrypt_spec w1 p (hash e) (iv_salt e)) as (w2 & r & -> & Hg2 & Hr).
  { by apply (g_chunks w), Hw. }
  assert (grows w w2) as Hg by (by etrans).
  destruct r as [[bs n]|err]; [|by eexists _, _]. eexists _, _. split; [reflexivity|]. split; [done|].
  intros o [= <-]. simpl. destruct (Hr bs n eq_refl) as (x & Hx & Ho).
  destruct (v_pages _ Hw p e E) as (b & Hb & _). unfold page_content in Hb. rewrite E in Hb. simpl in Hb.
  destruct (chunk w (hash e)) as [y|] eqn:Ey; [|done]. simpl in *.
  rewrite (chunk_grows _ _ _ _ Hg1 (v_chunks _ Hw) Ey) in Hx. injection Hx as ->.
  by rewrite <- Ho, (open_grows w w1).
Qed.

Lemma answer_quiet w : script (env w) = [] -> answer w = (w, Ok true).
Proof. unfold answer. by intros ->. Qed.

Lemma external_quiet w e : script (env w) = [] -> external e w = (w, Ok tt).
Proof. intros Hq. unfold external. by rewrite run_bind, answer_quiet. Qed.

(** When no outside call fails, reading any page succeeds. *)
Lemma read_page_returns w p :
  vol_wf w -> script (env w) = [] -> exists w' o, read_page p w = (w', Ok o).
Proof.
  intros Hw Hq. unfold read_page. rewrite run_bind. simpl.
  destruct (entry w p) as [e|] eqn:E; [|by eexists _, _]. rewrite run_bind.
  unfold touch_lru. rewrite run_bind, answer_quiet by done. simpl.
  destruct (v_pages _ Hw p e E) as (b & Hb & _). unfold page_content, chunk, open_payload in Hb.
  rewrite E in Hb. simpl in Hb. set (w1 := with_lru_index _ w).
  rewrite run_bind. unfold fetch_and_decrypt. rewrite run_bind. simpl. rewrite run_bind.
  assert (Hfin : forall (w2 : VolumeWriter) x n, pool w !! hash e = Some x \/ (pool w !! hash e = None /\ backend w !! hash e = Some x) ->
    exists o w3, (match encryption_key w with
      | Some key =>
          match decrypt_block key (derive_iv (dek_uuid (manifest w)) (Z.of_nat p) (iv_salt e)) x with
          | Ok plaintext => mret (plaintext, n)
          | Err _ => fail EDecrypt
          end
      | None => mret (x, n)
      end : EM VolumeWriter UploaderError (list Z * Z)) w2 = (w3, Ok o)).
  { intros w2 x n Hx. assert ((match pool w !! hash e with Some y => Some y | None => backend w !! hash e end) = Some x)
      as Hy by (destruct Hx as [->|[-> ->]]; done).
    rewrite Hy in Hb. simpl in Hb. destruct (encryption_key w); [|by eexists _, _].
    destruct (decrypt_block _ _ _); [by eexists _, _|done]. }
  destruct (pool w !! hash e) as [x|] eqn:Ep.
  - rewrite run_bind, external_quiet by done. simpl.
    destruct (Hfin w1 x 0 (or_introl eq_refl)) as (o & w3 & ->). by eexists _, _.
  - rewrite run_bind, external_quiet by done. destruct (backend w !! hash e) as [x|] eqn:Eb; [|done].
    rewrite run_bind. unfold insert_verified_bytes. rewrite run_bind. simpl. rewrite Ep.
    rewrite bool_decide_eq_false_2 by (intros Hn; apply Hn; by apply (backend_digest _ (v_chunks _ Hw))).
    rewrite run_bind, external_quiet by done. rewrite run_bind. simpl.
    match goal with |- context [match encryption_key w with _ => _ end ?w2] =>
      destruct (Hfin w2 x (Z.of_nat (length x)) (or_intror (conj eq_refl eq_refl))) as (o & w3 & ->) end.
    by eexists _, _.
Qed.
End proofs.
