(* ===== verification/DiskCache.v ===== *)
(** * Eviction from the chunk pool ([core/block/src/disk_cache.rs])

    The pass that brings the pool under its cap: candidates are weighed by
    the page table and the two sidecars, chunks with a pending upload are
    kept, and the rest go oldest first.  Eviction is shown never to change
    what a page reads as. *)

From stdpp Require Import sorting.
From S2P Require Import Prelude Bytes ByteFile PageIndex PageIndexIter UploadIndex BlockLru PoolBudget StateError Crypto VolumeWriter VolumeProofs.

Local Open Scope Z_scope.

Record DiskCacheManager : Type := mkManager {
  cache_bytes : Z;
  used_bytes : Z;
  recent_seal_pin_seconds : Z;
}.

Record EvictableChunk : Type := mkChunk {
  c_hash : list Z;
  c_size : Z;
  last_accessed : Z;
  c_uploaded : bool;
}.

Definition is_over_capacity (m : DiskCacheManager) : bool := cache_bytes m <? used_bytes m.

Definition scan_chunks (w : VolumeWriter) : list EvictableChunk :=
  map (fun hx : list Z * list Z => mkChunk hx.1 (Z.of_nat (length hx.2)) 0 true) (map_to_list (pool w)).

Definition calculate_usage (m : DiskCacheManager) (w : VolumeWriter) : DiskCacheManager :=
  mkManager (cache_bytes m) (foldr (fun c acc => c_size c + acc) 0 (scan_chunks w))
    (recent_seal_pin_seconds m).

(** The walk of [pages.idx] with both sidecars; [None] for a sidecar that
    cannot be read pins every page. *)
Definition page_uploaded (upload_states : option (list Z)) (p : nat) : bool :=
  match upload_states with
  | None => false
  | Some states =>
      match states !! p with
      | None => true
      | Some b => bool_decide (from_byte b = Uploaded)
      end
  end.

Definition note_page (lru_ts : list Z) (upload_states : option (list Z))
    (acc : gmap (list Z) Z * gmap (list Z) bool) (rec : nat * list Z) :
    gmap (list Z) Z * gmap (list Z) bool :=
  let '(p, h) := rec in
  let ts := default 0 (lru_ts !! p) in
  let up := page_uploaded upload_states p in
  (<[h := match acc.1 !! h with Some cur => if cur <? ts then ts else cur | None => ts end]> acc.1,
   <[h := match acc.2 !! h with Some cur => cur && up | None => up end]> acc.2).

Definition collect_lru_touches_and_upload_state (sidecar_readable : bool) (w : VolumeWriter) :
    gmap (list Z) Z * gmap (list Z) bool :=
  let lru_ts := BlockLru.read_all (lru_index w) in
  let upload_states :=
    if sidecar_readable then Some (UploadIndex.read_all (upload_index w)) else None in
  fold_left (note_page lru_ts upload_states) (PageIndex.iter_all (page_index w)) (∅, ∅).

Definition weigh (touches : gmap (list Z) Z) (uploaded : gmap (list Z) bool) (c : EvictableChunk) :
    EvictableChunk :=
  mkChunk (c_hash c) (c_size c) (default 0 (touches !! c_hash c)) (default true (uploaded !! c_hash c)).

Definition older_than (a b : EvictableChunk) : Prop := last_accessed a <= last_accessed b.

#[export] Instance older_than_dec : RelDecision older_than.
Proof. intros a b. unfold older_than. apply _. Defined.

(** The candidates that may go, oldest first. *)
Definition candidates (m : DiskCacheManager) (sidecar_readable : bool) (pinned : list Z -> bool)
    (w : VolumeWriter) : list EvictableChunk :=
  let '(touches, uploaded) := collect_lru_touches_and_upload_state sidecar_readable w in
  let chunks := map (weigh touches uploaded) (scan_chunks w) in
  let chunks := filter (fun c => c_uploaded c = true) chunks in
  let chunks := filter (fun c => pinned (c_hash c) = false) chunks in
  let chunks :=
    if 0 <? recent_seal_pin_seconds m then
      let cutoff := sat_sub (now (env w)) (recent_seal_pin_seconds m) in
      filter (fun c => last_accessed c < cutoff) chunks
    else chunks in
  merge_sort older_than chunks.

(** [pool.remove], with the release of its bytes. *)
Definition remove_chunk (c : EvictableChunk) (w : VolumeWriter) : VolumeWriter :=
  with_budget (release (budget w) (c_size c) (pool_namespace (manifest w)))
    (with_pool (delete (c_hash c) (pool w)) w).

Fixpoint evict_loop (chunks : list EvictableChunk) (m : DiskCacheManager) (freed : Z) (w : VolumeWriter) :
    VolumeWriter * Z :=
  match chunks with
  | [] => (w, freed)
  | c :: chunks =>
      if wrap64 (used_bytes m - freed) <=? cache_bytes m then (w, freed)
      else
        match answer w with
        | (w, Ok true) => evict_loop chunks m (freed + c_size c) (remove_chunk c w)
        | (w, _) => evict_loop chunks m freed w
        end
  end.

Definition evict_lru_chunks (m : DiskCacheManager) (sidecar_readable : bool) (pinned : list Z -> bool)
    (w : VolumeWriter) : DiskCacheManager * VolumeWriter * Z :=
  if used_bytes m <=? cache_bytes m then (m, w, 0)
  else
    let chunks := candidates m sidecar_readable pinned w in
    let '(w', freed) := evict_loop chunks m 0 w in
    (mkManager (cache_bytes m) (sat_sub (used_bytes m) freed) (recent_seal_pin_seconds m), w', freed).

(** ** What may be evicted *)

Section proofs.
Context `{VolumeCryptoLaws}.

Notation entry w p := (get_entry (page_index w) p).

Lemma note_page_false ts us l acc h :
  acc.2 !! h = Some false -> (fold_left (note_page ts us) l acc).2 !! h = Some false.
Proof.
  revert acc. induction l as [|[p k] l IH]; intros acc Ha; [done|]. simpl. apply IH. simpl.
  destruct (decide (k = h)) as [->|Hne]; [rewrite lookup_insert_eq, Ha|rewrite lookup_insert_ne]; done.
Qed.

(** One reference that is not uploaded pins the chunk. *)
Lemma note_page_pins ts us l acc p h :
  (p, h) ∈ l -> page_uploaded us p = false -> (fold_left (note_page ts us) l acc).2 !! h = Some false.
Proof.
  intros Hin Hup. revert acc. induction l as [|[q k] l IH]; intros acc; [by apply elem_of_nil in Hin|].
  apply elem_of_cons in Hin as [[= <- <-]|Hin]; [|by apply IH].
  cbn [fold_left]. apply note_page_false. simpl. rewrite lookup_insert_eq, Hup.
  destruct (acc.2 !! h) as [b|]; [by rewrite andb_false_r|done].
Qed.

Lemma read_byte f p :
  UploadIndex.read f p =
    match f !! (UploadIndex.HEADER_SIZE + p)%nat with Some b => from_byte b | None => Uploaded end.
Proof.
  unfold UploadIndex.read, UploadIndex.record_offset, UploadIndex.RECORD_SIZE, read_at, sl. cbv zeta.
  rewrite Nat.mul_1_r. set (k := (UploadIndex.HEADER_SIZE + p)%nat).
  assert (f !! k = drop k f !! 0%nat) as -> by (rewrite lookup_drop; f_equal; lia).
  by destruct (drop k f) as [|b l].
Qed.

(** The bulk read of the sidecar agrees with the read of one page. *)
Lemma read_all_state f p :
  page_uploaded (Some (UploadIndex.read_all f)) p = bool_decide (UploadIndex.read f p = Uploaded).
Proof.
  rewrite read_byte. unfold page_uploaded.
  assert (UploadIndex.read_all f !! p = f !! (UploadIndex.HEADER_SIZE + p)%nat) as ->.
  { unfold UploadIndex.read_all. case_bool_decide as Hl; [|apply lookup_drop].
    symmetry. apply lookup_ge_None_2. lia. }
  by destruct (f !! _).
Qed.

Lemma pinned_not_candidate m readable pins w p e c :
  vol_wf w -> entry w p = Some e -> UploadIndex.read (upload_index w) p = LocalOnly ->
  c ∈ candidates m readable pins w -> c_hash c <> hash e.
Proof.
  intros Hw He Hs Hc Heq. unfold candidates in Hc.
  destruct (collect_lru_touches_and_upload_state readable w) as [touches uploaded] eqn:Ecol.
  assert (Hin : c ∈ filter (fun c => c_uploaded c = true) (map (weigh touches uploaded) (scan_chunks w))).
  { revert Hc. rewrite merge_sort_Permutation. destruct (0 <? recent_seal_pin_seconds m);
      rewrite !list_elem_of_filter; tauto. }
  apply list_elem_of_filter in Hin as [Hu Hin].
  apply list_elem_of_In, in_map_iff in Hin as (c0 & <- & _). simpl in *.
  assert (uploaded !! c_hash c0 = Some false) as Hf; [|by rewrite Hf in Hu].
  change uploaded with (touches, uploaded).2. rewrite <- Ecol.
  unfold collect_lru_touches_and_upload_state. apply (note_page_pins _ _ _ _ p).
  - rewrite iter_all_items by (apply Hw || apply (v_index _ Hw)). rewrite elem_of_items by apply (v_index _ Hw).
    unfold PageIndex.get. by rewrite He, Heq.
  - destruct readable; [|done]. rewrite read_all_state, Hs. done.
Qed.

(** What a removal of chunks without a pending upload leaves alone. *)
Record spares (w w' : VolumeWriter) : Prop := {
  sp_manifest : manifest w' = manifest w;
  sp_key : encryption_key w' = encryption_key w;
  sp_index : page_index w' = page_index w;
  sp_upload : upload_index w' = upload_index w;
  sp_backend : backend w' = backend w;
  sp_sender : sender w' = sender w;
  sp_queue : queue w' = queue w;
  sp_acked : acked w' = acked w;
  sp_uploads : uploads w' = uploads w;
  sp_disk : disk_size w' = disk_size w;
  sp_live : live_size_bytes w' = live_size_bytes w;
  sp_pool : pool w' ⊆ pool w;
  sp_pinned p e : entry w p = Some e -> UploadIndex.read (upload_index w) p = LocalOnly ->
    pool w' !! hash e = pool w !! hash e;
}.

#[local] Instance spares_po : PreOrder spares.
Proof.
  split; [by intros w; split|].
  intros w1 w2 w3 [] []. split; try congruence; [by etrans|].
  intros p e He Hs. rewrite (sp_pinned1 p e) by congruence. by apply (sp_pinned0 p).
Qed.

Lemma spares_env w e : spares w (with_env e w).
Proof. by split. Qed.

Lemma spares_remove w c :
  (forall p e, entry w p = Some e -> UploadIndex.read (upload_index w) p = LocalOnly -> c_hash c <> hash e) ->
  spares w (remove_chunk c w).
Proof.
  intros Hc. split; simpl; try done; [apply delete_subseteq|].
  intros p e He Hs. apply lookup_delete_ne. by apply (Hc p e).
Qed.

Lemma evict_loop_spares chunks m freed w :
  (forall c p e, c ∈ chunks -> entry w p = Some e -> UploadIndex.read (upload_index w) p = LocalOnly ->
     c_hash c <> hash e) ->
  spares w (evict_loop chunks m freed w).1.
Proof.
  revert freed w. induction chunks as [|c chunks IH]; intros freed w Hc; [done|]. simpl.
  case_match; [done|]. destruct (answer_env w) as (e & b & ->).
  assert (spares w (remove_chunk c (with_env e w))) as Hr.
  { etrans; [apply (spares_env w e)|]. apply spares_remove. intros p en. apply (Hc c). set_solver. }
  destruct b.
  - etrans; [exact Hr|]. apply IH. intros c' p en Hin. simpl. apply Hc. set_solver.
  - etrans; [apply (spares_env w e)|]. apply IH. intros c' p en Hin. simpl. apply Hc. set_solver.
Qed.

Lemma spares_chunk w w' p e x :
  vol_wf w -> spares w w' -> entry w p = Some e -> chunk w (hash e) = Some x -> chunk w' (hash e) = Some x.
Proof.
  intros Hw [] He Hx. unfold chunk in *. rewrite sp_backend0.
  destruct (UploadIndex.read (upload_index w) p) eqn:Es; [|by rewrite (sp_pinned0 p e)].
  destruct (v_uploaded _ Hw p e He Es) as [y Hy].
  assert (y = x) as ->.
  { destruct (pool w !! hash e) as [z|] eqn:Ez; simplify_eq; [|done].
    apply (inj blake3). by rewrite (backend_digest _ (v_chunks _ Hw) _ _ Hy), (pool_digest _ (v_chunks _ Hw) _ _ Ez). }
  destruct (pool w' !! hash e) as [z|] eqn:Ez; [|done].
  pose proof (lookup_weaken _ _ _ _ Ez sp_pool0) as Ez'. by rewrite Ez' in Hx.
Qed.

Lemma spares_content w w' p : vol_wf w -> spares w w' -> page_content w' p = page_content w p.
Proof.
  intros Hw Hs. unfold page_content. rewrite (sp_index _ _ Hs).
  destruct (entry w p) as [e|] eqn:E; [|done]. simpl.
  destruct (v_pages _ Hw p e E) as (bs & Hc & _). unfold page_content in Hc. rewrite E in Hc. simpl in Hc.
  destruct (chunk w (hash e)) as [x|] eqn:Ex; [|done].
  rewrite (spares_chunk w w' p e x) by done. simpl. unfold open_payload.
  by rewrite (sp_key _ _ Hs), (sp_manifest _ _ Hs).
Qed.

Lemma spares_wf w w' : vol_wf w -> spares w w' -> vol_wf w' /\ (tracked w -> tracked w').
Proof.
  intros Hw Hs. pose proof (fun p => spares_content w w' p Hw Hs) as Hpc.
  pose proof Hw as [[Hcp Hcb] Hi Hsd Hn Hl Hd Hb Hp Hu Ha Hdep Hpn]. unfold size_ok in *.
  destruct Hs as [Em Ek Ei Eu Eb Es Eq Ea Eup Ed El Hpo _]. split.
  - split; unfold size_ok; rewrite ?Em, ?Ei, ?Eu, ?Ea, ?Eup, ?Ed, ?El, ?Eb, ?Ek; auto.
    + split; rewrite ?Eb; auto. intros h x Hx. apply Hcp. by eapply lookup_weaken.
    + intros p e He. rewrite Hpc. eauto.
  - intros Ht p e. rewrite Ei, Eup, Eb. apply Ht.
Qed.

Lemma evict_spares m readable pins w :
  vol_wf w -> spares w (evict_lru_chunks m readable pins w).1.2.
Proof.
  intros Hw. unfold evict_lru_chunks. case_match; [done|].
  destruct (evict_loop _ m 0 w) as [w' freed] eqn:E. simpl.
  change w' with (w', freed).1. rewrite <- E. apply evict_loop_spares.
  intros c p e Hc He Hs. by eapply pinned_not_candidate.
Qed.
End proofs.
