(* ===== verification/VolumeHistory.v ===== *)
(** * Histories of a volume

    Host writes, reads and UNMAPs, upload-worker steps, retries, evictions,
    resizes and restarts in any order, with a worker that listens.  Pages
    stay readable, [Uploaded] and a clean drain mean stored, and without
    UNMAP the upload queue always drains; the last sections show what UNMAP,
    a closed channel and an eviction in the middle of a seal do. *)

From S2P Require Import Prelude Bytes ByteFile PageIndex PageIndexIter UploadIndex BlockLru PoolBudget StateError Crypto VolumeWriter VolumeProofs DiskCache.

Local Open Scope Z_scope.

Inductive VolumeEvent : Type :=
  | EvWrite (p : nat) (bs : list Z)
  | EvRead (p : nat)
  | EvClear (p : nat)
  | EvPut (i : nat)
  | EvApply (i : nat)
  | EvRetry (range : Z * Z)
  | EvEvict (m : DiskCacheManager) (sidecar_readable : bool) (pinned : list Z -> bool)
  | EvSetSize (new_size : Z)
  | EvRestart
  | EvEnv (e : Env).

Section history.
Context `{VolumeCryptoLaws}.

Notation entry w p := (get_entry (page_index w) p).
Notation state_at w p := (UploadIndex.read (upload_index w) p).

Definition volume_event (ev : VolumeEvent) (w : VolumeWriter) : VolumeWriter :=
  match ev with
  | EvWrite p bs => (write_page_unsynced p bs w).1
  | EvRead p => (read_page p w).1
  | EvClear p => (clear_page p w).1
  | EvPut i => worker_put i w
  | EvApply i => worker_apply i w
  | EvRetry range => (retry_failed_uploads_in_range range w).1
  | EvEvict m readable pins => (evict_lru_chunks m readable pins w).1.2
  | EvSetSize n => (set_size n w).1
  | EvRestart => restart w
  | EvEnv e => with_env e w
  end.

(** Page ids of the model are those of the source, and a volume has fewer
    than 2^32 pages. *)
Definition event_ok (ps : Z) (ev : VolumeEvent) : Prop :=
  match ev with
  | EvClear p => Z.of_nat p < u32_max
  | EvSetSize n => n / ps <= u32_max
  | _ => True
  end.

Record good (w : VolumeWriter) : Prop := {
  good_wf : vol_wf w;
  good_tracked : tracked w;
  good_sender : sender w = Some true;
  good_page : 0 < page_size (manifest w);
  good_live : page_size (manifest w) <= live_size_bytes w;
  good_disk : page_size (manifest w) <= disk_size w;
}.

(** What an event does to the contents. *)
Definition contents_after (ev : VolumeEvent) (w w' : VolumeWriter) (q : nat) : Prop :=
  match ev with
  | EvWrite p bs =>
      page_content w' q = page_content w q \/ (q = p /\ page_content w' q = Some bs)
  | EvClear p => page_content w' q = if bool_decide (q = p) then None else page_content w q
  | _ => page_content w' q = page_content w q
  end.

Definition step_ok (ev : VolumeEvent) (w w' : VolumeWriter) : Prop :=
  good w' /\ manifest w' = manifest w /\ forall q, contents_after ev w w' q.

Lemma good_grows w w' : good w -> grows w w' -> good w'.
Proof.
  intros [Hw Ht Hs Hp Hl Hd] Hg. pose proof Hg as [Em Ek Ei Eu Es Eq Ea Eup Ed El _ _ _].
  split; rewrite ?Em, ?El, ?Ed; try done; [by eapply vol_wf_grows|by eapply tracked_grows|congruence].
Qed.

Lemma write_step w p bs : good w -> step_ok (EvWrite p bs) w (volume_event (EvWrite p bs) w).
Proof.
  intros [Hw Ht Hs Hp Hl Hd]. simpl.
  destruct (write_page_spec w p bs Hw) as (w' & r & -> & Hr); [unfold channel_ok; congruence|done|].
  simpl. destruct Hr as [Hwf Hsn Hm Hlv Hdk Hot Hpg _ Htr _ _]. split_and!; [|done|].
  - split; rewrite ?Hm, ?Hlv, ?Hdk; auto. congruence.
  - intros q. simpl. destruct (decide (q = p)) as [->|Hq]; [naive_solver|left; by apply Hot].
Qed.

Lemma read_step w p : good w -> step_ok (EvRead p) w (volume_event (EvRead p) w).
Proof.
  intros Hw. simpl. destruct (read_page_spec w p (good_wf _ Hw)) as (w' & r & -> & Hg & _). simpl.
  split_and!; [by eapply good_grows|apply Hg|]. intros q. simpl. apply page_content_grows; [apply Hw|done].
Qed.

Lemma clear_step w p :
  good w -> Z.of_nat p < u32_max -> step_ok (EvClear p) w (volume_event (EvClear p) w).
Proof.
  intros [Hw Ht Hs Hp Hl Hd] Hlt. simpl. set (w' := with_page_index _ w).
  destruct (page_op_step (page_index w) (OClear p) (v_index _ Hw) I) as [Hi He]. simpl in *.
  assert (He' : forall q, entry w' q = if bool_decide (q = p) then None else entry w q) by exact He.
  assert (Hc : forall q, page_content w' q = if bool_decide (q = p) then None else page_content w q).
  { intros q. case_bool_decide as Hq.
    - unfold page_content. rewrite He', bool_decide_eq_true_2 by done. done.
    - apply page_content_index; try done. by rewrite He', bool_decide_eq_false_2. }
  split_and!; [|done|exact Hc]. split; try done.
  - pose proof Hw as [Hch Hix Hsd Hn Hlv Hdk Hb Hpg Hu Ha Hdep Hpn]. split; simpl; auto.
    + by destruct Hch.
    + intros q e. rewrite He. case_bool_decide; [done|]. apply Hb.
    + intros q e Hq. rewrite Hc. rewrite He in Hq. case_bool_decide; [done|]. by apply (Hpg q e).
    + intros q e. rewrite He. case_bool_decide; [done|]. apply Hu.
    + unfold clear_unsynced. simpl. change (page_offset p) with (rec_off PageIndex.HEADER_SIZE PageIndex.RECORD_SIZE p).
      rewrite rec_count_write; [lia|apply page_record_size_pos|apply Hix|done].
    + intros q e. rewrite He. case_bool_decide; [done|]. eauto using v_salt.
  - intros q e. rewrite He'. case_bool_decide; [done|]. apply Ht.
Qed.

Lemma union_marks u p q :
  q ∈ pending u ∪ failed u ->
  q ∈ pending (mark_pending u p).1 ∪ failed (mark_pending u p).1 /\
  q ∈ pending (mark_failed u p) ∪ failed (mark_failed u p) /\
  (q <> p -> q ∈ pending (clear_failed u p) ∪ failed (clear_failed u p)).
Proof.
  unfold mark_pending, mark_failed, clear_failed. cbn [fst pending failed].
  rewrite !elem_of_union, !elem_of_difference, !elem_of_singleton.
  destruct (decide (q = p)); tauto.
Qed.

Lemma good_uploads w u :
  good w -> depth u = Z.of_nat (size (pending u)) ->
  (forall p e, entry w p = Some e -> backend w !! hash e = None ->
     p ∈ pending (uploads w) ∪ failed (uploads w) -> p ∈ pending u ∪ failed u) ->
  good (with_uploads u w).
Proof.
  intros [Hw Ht Hs Hp Hl Hd] Hdep Hu. split; try done; [by apply vol_wf_uploads|].
  intros p e He Hn. simpl in *. eauto.
Qed.

Lemma good_queue w q : good w -> good (with_queue q w).
Proof. intros [Hw Ht Hs Hp Hl Hd]. split; try done. by apply vol_wf_queue. Qed.

Lemma good_acked w l :
  good w -> (forall t, t ∈ l -> is_Some (backend w !! task_hash t)) -> good (with_acked l w).
Proof. intros [Hw Ht Hs Hp Hl Hd] Hb. split; try done. by apply vol_wf_acked. Qed.

(** The worker's attempt at a task. *)
Definition attempt (t : UploadTask) : EM VolumeWriter UploaderError (bool * option Z) :=
  external EUploadWorker;; external EVolume;; upload_chunk_inert t.

Lemma attempt_spec w t :
  chunks_ok w ->
  exists w' r, attempt t w = (w', r) /\ grows w w' /\
    forall o, r = Ok o -> is_Some (backend w' !! task_hash t).
Proof.
  intros Hok. unfold attempt.
  run_external; [|eexists _, _; split; [reflexivity|]; by split; [apply grows_env|]].
  run_external; [|eexists _, _; split; [reflexivity|]; by split; [etrans; apply grows_env|]].
  destruct (upload_chunk_inert_spec (with_env e0 (with_env e w)) t) as (w' & r & -> & Hg & Hr).
  { by apply (g_chunks w); [etrans; apply grows_env|]. }
  eexists _, _. split; [reflexivity|]. split; [|done].
  etrans; [apply (grows_env w e)|]. etrans; [apply (grows_env _ e0)|done].
Qed.

Lemma put_step w i : good w -> step_ok (EvPut i) w (volume_event (EvPut i) w).
Proof.
  intros Hw. simpl. unfold worker_put. destruct (queue w !! i) as [t|] eqn:Eq; [|by split_and!].
  set (w0 := with_queue (delete i (queue w)) w). assert (good w0) as Hw0 by (by apply good_queue).
  cbv zeta. fold (attempt t). destruct (attempt_spec w0 t) as (w1 & r & -> & Hg & Hr); [apply Hw0|].
  pose proof (good_grows _ _ Hw0 Hg) as Hw1'.
  assert (forall q, page_content w1 q = page_content w q) as Hc.
  { intros q. etrans; [by apply (page_content_grows w0); [apply Hw0|]|done]. }
  destruct r as [o|err]; split_and!; try exact Hc; try exact (g_manifest _ _ Hg).
  - apply good_acked; [done|]. intros t' [Ht'| ->%list_elem_of_singleton]%elem_of_app.
    + by apply (v_acked _ (good_wf _ Hw1')).
    + by apply (Hr o).
  - apply good_uploads; [done|apply depth_marks, Hw1'|]. intros p e _ _. apply union_marks.
Qed.

Lemma apply_step w i : good w -> step_ok (EvApply i) w (volume_event (EvApply i) w).
Proof.
  intros Hw. simpl. unfold worker_apply. destruct (acked w !! i) as [t|] eqn:Ea; [|by split_and!].
  set (w0 := with_acked (delete i (acked w)) w).
  pose proof (v_acked _ (good_wf _ Hw)) as Hac.
  assert (good w0) as Hw0.
  { apply good_acked; [done|]. intros t' Ht'. apply Hac.
    eapply elem_of_submseteq; [exact Ht'|]. apply sublist_submseteq, sublist_delete. }
  assert (is_Some (backend w0 !! task_hash t)) as Hb by (apply Hac; by eapply list_elem_of_lookup_2).
  destruct (apply_outcome_spec w0 t (good_wf _ Hw0) Hb) as (_ & Hwf1 & Hs & Ht1 & _ & _ & Hl & Hd).
  destruct Hw0 as [H01 H02 H03 H04 H05 H06]. split_and!; [|apply Hs|].
  - pose proof Hs as [Em Ek Ei Ep Eb Es]. split; rewrite ?Em, ?Hl, ?Hd; auto. congruence.
  - intros q. simpl. etrans; [by apply page_content_same|done].
Qed.

Lemma same_data_refl w : same_data w w.
Proof. done. Qed.

Lemma same_data_trans w1 w2 w3 : same_data w1 w2 -> same_data w2 w3 -> same_data w1 w3.
Proof. intros [] []. split; congruence. Qed.

Lemma payload_none w p : pending_upload_payload w p = None -> entry w p = None.
Proof.
  unfold pending_upload_payload, PageIndex.get. destruct (entry w p); [done|done].
Qed.

Lemma payload_some w p t :
  pending_upload_payload w p = Some t ->
  item_id t = p /\ PageIndex.get (page_index w) p = Some (task_hash t).
Proof. unfold pending_upload_payload. case_match; [|done]. by intros [= <-]. Qed.

Lemma retry_pages_spec ps n w :
  good w -> good (retry_pages ps n w).1 /\ same_data w (retry_pages ps n w).1.
Proof.
  revert n w. induction ps as [|p ps IH]; intros n w Hw; [by split|].
  simpl. rewrite run_bind. simpl. destruct (pending_upload_payload w p) as [t|] eqn:Et.
  - rewrite run_bind. simpl. rewrite run_bind, send_open by apply Hw. simpl.
    set (w1 := with_queue _ _). assert (good w1) as Hw1.
    { apply good_queue, good_uploads; [done|apply depth_marks, Hw|]. intros q e _ _. apply union_marks. }
    destruct (IH (n + 1) w1 Hw1) as [Hg Hs]. split; [done|].
    eapply same_data_trans; [|exact Hs]. done.
  - rewrite run_bind. simpl. set (w1 := with_uploads _ w). assert (good w1) as Hw1.
    { apply good_uploads; [done|apply depth_marks, Hw|]. intros q e He _ Hq.
      apply union_marks; [done|]. intros ->. by rewrite (payload_none _ _ Et) in He. }
    destruct (IH n w1 Hw1) as [Hg Hs]. split; [done|].
    eapply same_data_trans; [|exact Hs]. done.
Qed.

Lemma retry_step w range : good w -> step_ok (EvRetry range) w (volume_event (EvRetry range) w).
Proof.
  intros Hw. simpl. unfold retry_failed_uploads_in_range. rewrite run_bind. simpl.
  rewrite (good_sender _ Hw). destruct (retry_pages_spec (failed_in_range (uploads w) range) 0 w Hw) as [Hg Hs].
  split_and!; [done|apply Hs|]. intros q. simpl. by apply page_content_same.
Qed.

Lemma evict_step w m readable pins :
  good w -> step_ok (EvEvict m readable pins) w (volume_event (EvEvict m readable pins) w).
Proof.
  intros Hw. pose proof (evict_spares m readable pins w (good_wf _ Hw)) as Hs.
  destruct (spares_wf _ _ (good_wf _ Hw) Hs) as [Hwf Ht].
  split_and!; [|apply Hs|intros q; apply spares_content; [apply Hw|done]].
  destruct Hw as [H01 H02 H03 H04 H05 H06]. pose proof Hs as [Em _ _ _ _ Es _ _ _ Ed El _ _].
  simpl. split; rewrite ?Em, ?Ed, ?El; auto. congruence.
Qed.

Lemma env_step w e : good w -> step_ok (EvEnv e) w (volume_event (EvEnv e) w).
Proof.
  intros Hw. pose proof (grows_env w e) as Hg. split_and!; [by eapply good_grows|done|].
  intros q. apply page_content_grows; [apply Hw|done].
Qed.

(** *** Resizing *)

Lemma good_disk_size w n :
  good w -> page_size (manifest w) <= n -> size_ok w n -> good (with_disk_size n w).
Proof.
  intros [Hw Ht Hs Hp Hl Hd] Hn Hz. split; try done.
  destruct Hw. split; simpl; auto. by destruct v_chunks.
Qed.

Lemma good_live_size w n :
  good w -> page_size (manifest w) <= n -> size_ok w n -> good (with_live_size_bytes n w).
Proof.
  intros [Hw Ht Hs Hp Hl Hd] Hn Hz. split; try done.
  destruct Hw. split; simpl; auto. by destruct v_chunks.
Qed.

Lemma truncate_count f n :
  rf_wf PageIndex.HEADER_SIZE PageIndex.RECORD_SIZE (PageIndex.file f) ->
  (rec_count PageIndex.HEADER_SIZE PageIndex.RECORD_SIZE (PageIndex.file (truncate_from f n)) <=
   rec_count PageIndex.HEADER_SIZE PageIndex.RECORD_SIZE (PageIndex.file f))%nat.
Proof.
  intros Hf. unfold truncate_from. cbv zeta. case_bool_decide as Hl; [done|]. simpl.
  change (page_offset n) with (rec_off PageIndex.HEADER_SIZE PageIndex.RECORD_SIZE n) in *.
  rewrite rec_count_set_len by apply page_record_size_pos.
  rewrite (rec_count_wf _ _ page_record_size_pos _ Hf) in Hl. unfold rec_off, PageIndex.RECORD_SIZE in *. lia.
Qed.

(** Truncating where nothing is allocated changes no page. *)
Lemma good_truncate w n :
  good w -> (forall p e, entry w p = Some e -> (p < n)%nat) ->
  let w' := with_page_index (truncate_from (page_index w) n) w in
  good w' /\ (forall q, page_content w' q = page_content w q) /\ forall q, entry w' q = entry w q.
Proof.
  intros Hg Hn w'. pose proof Hg as [Hw Ht Hs Hp Hl Hd].
  destruct (truncate_step (page_index w) n (v_index _ Hw)) as [Hi He].
  assert (He' : forall q, entry w' q = entry w q).
  { intros q. etrans; [apply He|]. simpl. case_bool_decide as Hq; [done|].
    destruct (entry w q) as [e|] eqn:E; [|done]. by apply Hn in E. }
  assert (Hc : forall q, page_content w' q = page_content w q) by (intros q; by apply page_content_index).
  split_and!; [|done..]. split; try done; [|intros q e; rewrite He'; apply Ht].
  pose proof Hw as [Hch Hix Hsd Hnn Hlv Hdk Hb Hpg Hu Ha Hdep Hpn]. split; simpl; auto.
  - by destruct Hch.
  - intros q e Hq. apply (Hb q e). by rewrite <- He'.
  - intros q e Hq. rewrite Hc. apply (Hpg q e). by rewrite <- He'.
  - intros q e Hq. apply (Hu q e). by rewrite <- He'.
  - pose proof (truncate_count (page_index w) n (iw_file _ Hix)). lia.
  - intros q e Hq. eapply v_salt. rewrite <- He'. exact Hq.
Qed.

(** The pages bound and the uploads in flight. *)
Record frame (w w' : VolumeWriter) : Prop := {
  fr_entry q : entry w' q = entry w q;
  fr_queue : queue w' = queue w;
  fr_acked : acked w' = acked w;
  fr_uploads : uploads w' = uploads w;
  fr_key : encryption_key w' = encryption_key w;
  fr_backend : backend w' = backend w;
}.

(** A volume resize changes no page: growing adds none, and shrinking is
    refused while a page past the new end is allocated. *)
Record resize_result (w : VolumeWriter) (n : Z) (out : VolumeWriter * result unit UploaderError) : Prop := {
  rr_good : good out.1;
  rr_content q : page_content out.1 q = page_content w q;
  rr_manifest : manifest out.1 = manifest w;
  rr_frame : frame w out.1;
  rr_ok : out.2 = Ok tt -> live_size_bytes out.1 = n /\ disk_size out.1 = n;
  rr_err e : out.2 = Err e -> live_size_bytes out.1 = live_size_bytes w /\ disk_size out.1 = disk_size w;
}.

Lemma resize_err w n e : good w -> resize_result w n (w, Err e).
Proof. by split. Qed.

Lemma persist_size w w0 n :
  good w0 -> page_size (manifest w) <= n -> size_ok w n ->
  manifest w0 = manifest w -> live_size_bytes w0 = live_size_bytes w ->
  disk_size w0 = disk_size w -> (forall q, page_content w0 q = page_content w q) -> frame w w0 ->
  resize_result w n ((persist_manifest_size n;; modify (with_live_size_bytes n)) w0).
Proof.
  intros Hg0 Hn Hz Em El Ed Hc Hf. unfold persist_manifest_size. rewrite run_bind.
  assert (forall e, good (with_env e w0)) as Hge by (intros e; eapply good_grows; [exact Hg0|apply grows_env]).
  run_external; [|split; simpl; [apply Hge|exact Hc|done|by destruct Hf|done..]]. simpl.
  split; simpl; [|exact Hc|done|by destruct Hf|done..].
  apply good_live_size; [apply good_disk_size|..]; unfold size_ok in *; simpl; rewrite ?Em; done.
Qed.

Lemma allocated_below w n :
  vol_wf w ->
  match highest_allocated_page (page_index w) with Some hi => Z.of_nat hi < n | None => True end ->
  forall p e, entry w p = Some e -> (p < Z.to_nat n)%nat.
Proof.
  intros Hw Hn p e He.
  pose proof (highest_allocated_page_spec _ (iw_file _ (v_index _ Hw)) (v_pcount _ Hw)) as Hh.
  destruct (highest_allocated_page (page_index w)) as [hi|].
  - destruct Hh as (_ & Hh & _). destruct (le_lt_dec p hi); [lia|].
    specialize (Hh p l). unfold PageIndex.get in Hh. by rewrite He in Hh.
  - specialize (Hh p). unfold PageIndex.get in Hh. by rewrite He in Hh.
Qed.

Lemma set_size_spec w n :
  good w -> size_ok w n -> resize_result w n (set_size n w).
Proof.
  intros Hg Hn. unfold set_size. rewrite run_bind. simpl.
  case_match; [by apply resize_err|]. case_match; [by apply resize_err|].
  case_match; [by apply resize_err|]. case_match; [by apply resize_err|]. bool_to_prop.
  case_match; [by apply persist_size|]. case_match; [by apply resize_err|].
  assert (Hsh : (forall p e, entry w p = Some e -> (p < Z.to_nat (n / page_size (manifest w)))%nat) ->
    resize_result w n ((modify (fun w0 => with_page_index
        (truncate_from (page_index w0) (Z.to_nat (n / page_size (manifest w)))) w0);;
      persist_manifest_size n;; modify (with_live_size_bytes n)) w)).
  { intros Hall. rewrite run_bind. simpl. destruct (good_truncate w _ Hg Hall) as (Hgt & Hct & Het). by apply persist_size. }
  pose proof (allocated_below w (n / page_size (manifest w)) (good_wf _ Hg)) as Hh.
  destruct (highest_allocated_page (page_index w)) as [hi|]; [|by apply Hsh, Hh].
  case_match; [by apply resize_err|]. bool_to_prop. by apply Hsh, Hh.
Qed.

Lemma size_step w n :
  good w -> n / page_size (manifest w) <= u32_max -> step_ok (EvSetSize n) w (volume_event (EvSetSize n) w).
Proof.
  intros Hg Hn. destruct (set_size_spec w n Hg Hn) as [Hg' Hc Hm _ _ _]. by split_and!.
Qed.

(** *** Restart and the recovery scan *)

Lemma vol_wf_sender w x : vol_wf w -> vol_wf (with_sender x w).
Proof. intros []. split; simpl; auto. by destruct v_chunks. Qed.

Definition scan_covers (l : list (nat * UploadState)) (w : VolumeWriter) : Prop :=
  forall p e, entry w p = Some e -> state_at w p = LocalOnly ->
    p ∈ pending (uploads w) \/ (p, LocalOnly) ∈ l.

Lemma enqueue_spec l w :
  vol_wf w -> sender w = Some true -> Forall (fun x => Z.of_nat x.1 < u32_max) l -> scan_covers l w ->
  let w' := enqueue_states l w in
  vol_wf w' /\ same_data w w' /\ live_size_bytes w' = live_size_bytes w /\ disk_size w' = disk_size w /\
  scan_covers [] w'.
Proof.
  revert w. induction l as [|[p st] l IH]; intros w Hw Hs Hl Hc; [by split_and!|].
  apply Forall_cons in Hl as [Hp Hl]. simpl in Hp. destruct st; simpl.
  - apply IH; [done..|]. intros q e He Hq. destruct (Hc q e He Hq) as [?|[[=]|?]%elem_of_cons]; auto.
  - destruct (pending_upload_payload w p) as [t|] eqn:Et.
    + rewrite send_open by done. set (w1 := with_queue _ _).
      destruct (IH w1) as (H1 & H2 & H3 & H4 & H5); try done.
      * apply vol_wf_queue, vol_wf_uploads; [done|apply depth_marks, Hw].
      * intros q e He Hq. destruct (Hc q e He Hq) as [Hq'|[[= ->]|Hq']%elem_of_cons]; [left|left|by right];
          simpl; set_solver.
      * split_and!; try done. by eapply same_data_trans; [|exact H2].
    + set (w1 := with_upload_index _ w).
      pose proof (upload_op_step (upload_index w) (USet p Uploaded) (v_sidecar _ Hw)) as [_ Hr].
      destruct (IH w1) as (H1 & H2 & H3 & H4 & H5); try done.
      * apply vol_wf_state; [done..|]. intros _ e He. by rewrite (payload_none _ _ Et) in He.
      * intros q e He Hq. change (UploadIndex.read (UploadIndex.set_unsynced (upload_index w) p Uploaded) q = LocalOnly) in Hq.
        simpl in Hr. rewrite Hr in Hq. case_bool_decide; [done|].
        destruct (Hc q e He Hq) as [Hq'|[[= ->]|Hq']%elem_of_cons]; [by left|done|by right].
      * split_and!; try done. by eapply same_data_trans; [|exact H2].
Qed.

Lemma iter_all_bounds f :
  UploadIndex.wf f -> Z.of_nat (rec_count UploadIndex.HEADER_SIZE UploadIndex.RECORD_SIZE f) <= u32_max ->
  Forall (fun x : nat * UploadState => Z.of_nat x.1 < u32_max) (UploadIndex.iter_all f).
Proof.
  intros Hf Hu. destruct (upload_scan_exact f Hf Hu) as [-> _]. apply Forall_forall.
  intros x (q & <- & Hq%in_seq)%list_elem_of_In%in_map_iff. simpl. lia.
Qed.

Lemma restart_step w : good w -> step_ok EvRestart w (volume_event EvRestart w).
Proof.
  intros [Hw Ht Hs Hp Hl Hd]. simpl. unfold restart, enqueue_one_volume.
  set (w0 := with_sender (Some true) _). change (upload_index w0) with (upload_index w).
  assert (vol_wf w0) as Hw0.
  { pose proof Hw as [Hch Hix Hsd Hnn Hlv Hdk Hb Hpg Hu Ha Hdep Hpn]. split; simpl; auto.
    - by destruct Hch.
    - intros t Hin. by apply elem_of_nil in Hin. }
  destruct (upload_scan_exact (upload_index w) (v_sidecar _ Hw) (v_count _ Hw)) as [_ Hscan].
  destruct (enqueue_spec (UploadIndex.iter_all (upload_index w)) w0 Hw0 eq_refl) as (Hw' & Hsd & El & Ed & Hc).
  { apply iter_all_bounds; apply Hw. } { intros p e _ Hq. right. by apply Hscan. }
  set (w' := enqueue_states _ w0) in *. pose proof Hsd as [Em Ek Ei Epo Eb Es]. split_and!; [|done|].
  - split; rewrite ?Em, ?El, ?Ed; try done. intros p e He Hn. apply elem_of_union_l.
    destruct (state_at w' p) eqn:Est.
    + destruct (v_uploaded _ Hw' p e He Est) as [x Hx]. congruence.
    + destruct (Hc p e He Est) as [|Hin]; [done|by apply elem_of_nil in Hin].
  - intros q. simpl. etrans; [by apply page_content_same|]. by apply page_content_index.
Qed.

(** ** Every history *)

Lemma volume_step w ev :
  good w -> event_ok (page_size (manifest w)) ev -> step_ok ev w (volume_event ev w).
Proof.
  intros Hw Hev. destruct ev.
  - by apply write_step.
  - by apply read_step.
  - by apply clear_step.
  - by apply put_step.
  - by apply apply_step.
  - by apply retry_step.
  - by apply evict_step.
  - by apply size_step.
  - by apply restart_step.
  - by apply env_step.
Qed.

(** A daemon at work never takes an object out of storage. *)
Lemma event_le w ev :
  good w -> event_ok (page_size (manifest w)) ev ->
  match ev with EvWrite _ _ | EvClear _ | EvRestart => False | _ => True end -> volume_le w (volume_event ev w).
Proof.
  intros Hw Hn Hk. destruct ev; try done; simpl.
  - destruct (read_page_spec w p (good_wf _ Hw)) as (w' & r & -> & Hg & _). by apply grows_le.
  - unfold worker_put. destruct (queue w !! i) as [t|]; [|done]. cbv zeta. fold (attempt t).
    set (w0 := with_queue (delete i (queue w)) w). destruct (attempt_spec w0 t) as (w1 & r & -> & Hg & _).
    { by apply good_queue. }
    pose proof (grows_le _ _ Hg) as [L1 L2 L3]. by destruct r.
  - unfold worker_apply. destruct (acked w !! i) as [t|] eqn:Ea; [|done].
    set (w0 := with_acked (delete i (acked w)) w). assert (good w0) as Hw0.
    { apply good_acked; [done|]. intros t' Ht'. apply (v_acked _ (good_wf _ Hw)).
      eapply elem_of_submseteq; [exact Ht'|]. apply sublist_submseteq, sublist_delete. }
    destruct (apply_outcome_spec w0 t (good_wf _ Hw0)) as (_ & _ & Hs & _).
    { apply (v_acked _ (good_wf _ Hw)). by eapply list_elem_of_lookup_2. }
    pose proof (same_data_le _ _ Hs) as [L1 L2 L3]. done.
  - unfold retry_failed_uploads_in_range. rewrite run_bind. simpl. rewrite (good_sender _ Hw).
    apply same_data_le, retry_pages_spec, Hw.
  - destruct (evict_spares m sidecar_readable pinned w (good_wf _ Hw)) as [E1 E2 _ _ E3 _ _ _ _ _ _ _ _].
    split; [done..|]. by rewrite E3.
  - destruct (set_size_spec w new_size Hw Hn) as [_ _ E1 [_ _ _ _ E2 E3] _ _]. split; [done..|]. by rewrite E3.
Qed.

(** A volume as the daemon makes it: an accepted manifest, a new page index,
    no sidecars, and the upload worker's channel. *)
Definition new_volume (m : Manifest) (key : option (list Z)) (b : PoolBudget) (e : Env) :
    option VolumeWriter :=
  match PageIndex.create None (uuid m) (page_size m) with
  | Ok idx =>
      match open_inner m key (Some (PageIndex.file idx)) None None ∅ ∅ e with
      | Ok w => Some (with_upload_sender (with_pool_budget b w))
      | Err _ => None
      end
  | Err _ => None
  end.

Record manifest_ok (m : Manifest) : Prop := {
  mo_uuid : length (uuid m) = 16%nat;
  mo_page : 0 < page_size m <= u32_max;
  mo_size : page_size m <= size_bytes m;
  mo_count : size_bytes m / page_size m <= u32_max;
}.

Lemma new_volume_good m key b e w :
  manifest_ok m -> new_volume m key b e = Some w ->
  good w /\ served w /\ manifest w = m /\ forall p, page_content w p = None.
Proof.
  intros [Hu Hp Hs Hc] Hn. unfold new_volume in Hn.
  destruct (idx_wf_create (uuid m) (page_size m) Hu) as (idx & Hi & Hwf & Hno & Ev & Ep).
  { unfold in_u64, u64_max. unfold u32_max in *. lia. }
  rewrite Hi in Hn. unfold open_inner in Hn.
  destruct (encrypted m && bool_decide (key = None)); [done|].
  rewrite <- Ev, <- Ep in Hn. rewrite reopen in Hn by done. injection Hn as <-.
  pose proof upload_fresh_spec as [Hfw Hfr].
  assert (pcount0 : rec_count PageIndex.HEADER_SIZE PageIndex.RECORD_SIZE (PageIndex.file idx) = 0%nat).
  { unfold PageIndex.create in Hi. injection Hi as <-. simpl. apply rec_count_eq; [apply page_record_size_pos|].
    rewrite length_write_at by (intros E; by apply (f_equal length) in E; rewrite length_build_header in E).
    by rewrite length_build_header. }
  assert (forall p, page_content (with_upload_sender (with_pool_budget b (mkWriter m
    (if encrypted m then key else None) ∅ unbounded idx (BlockLru.open_or_create None)
    (UploadIndex.open_or_create None) ∅ None [] [] uploads_new (size_bytes m) (size_bytes m) e))) p = None) as Hpc.
  { intros p. unfold page_content. simpl. by rewrite Hno. }
  split_and!; try done; simpl.
  split; simpl; try done; try lia.
  - split; unfold size_ok; simpl; try done.
    + intros p en Hen. by rewrite Hno in Hen.
    + intros p en Hen. by rewrite Hno in Hen.
    + intros p en Hen. by rewrite Hno in Hen.
    + intros t Ht. by apply elem_of_nil in Ht.
    + rewrite pcount0. unfold u32_max. lia.
    + by intros ->.
    + intros p en Hen. by rewrite Hno in Hen.
  - intros p en Hen. simpl in Hen. by rewrite Hno in Hen.
Qed.

Definition run_volume (evs : list VolumeEvent) (w : VolumeWriter) : VolumeWriter :=
  fold_left (fun w ev => volume_event ev w) evs w.

Lemma run_good evs w :
  good w -> Forall (event_ok (page_size (manifest w))) evs ->
  good (run_volume evs w) /\ manifest (run_volume evs w) = manifest w.
Proof.
  revert w. induction evs as [|ev evs IH]; intros w Hw Hev; [done|].
  apply Forall_cons in Hev as [He Hev]. destruct (volume_step w ev Hw He) as (Hw' & Hm & _).
  rewrite <- Hm. apply IH; [done|]. by rewrite Hm.
Qed.

Lemma run_new_volume m key b e evs w0 :
  manifest_ok m -> new_volume m key b e = Some w0 -> Forall (event_ok (page_size m)) evs ->
  good (run_volume evs w0) /\ manifest (run_volume evs w0) = m.
Proof.
  intros Hm Hn Hev. destruct (new_volume_good m key b e w0 Hm Hn) as (Hg & _ & Em & _).
  rewrite <- Em in Hev |- *. by apply run_good.
Qed.

(** *** The volume as a map of pages

    The abstract volume maps pages to contents.  A write that fails may or
    may not have taken effect; nothing but writes and UNMAPs changes it. *)

Definition write_succeeds (ev : VolumeEvent) (w : VolumeWriter) : bool :=
  match ev with
  | EvWrite p bs => match (write_page_unsynced p bs w).2 with Ok _ => true | Err _ => false end
  | _ => true
  end.

Fixpoint volume_trace (evs : list VolumeEvent) (w : VolumeWriter) : list (VolumeEvent * bool) :=
  match evs with
  | [] => []
  | ev :: evs => (ev, write_succeeds ev w) :: volume_trace evs (volume_event ev w)
  end.

Inductive abs_step : VolumeEvent * bool -> (nat -> option (list Z)) -> (nat -> option (list Z)) -> Prop :=
  | as_write p bs ok m m' :
      (forall q, m' q = if bool_decide (q = p) then Some bs else m q) -> abs_step (EvWrite p bs, ok) m m'
  | as_write_failed p bs m m' : (forall q, m' q = m q) -> abs_step (EvWrite p bs, false) m m'
  | as_clear p m m' :
      (forall q, m' q = if bool_decide (q = p) then None else m q) -> abs_step (EvClear p, true) m m'
  | as_internal ev m m' :
      match ev with EvWrite _ _ | EvClear _ => False | _ => True end ->
      (forall q, m' q = m q) -> abs_step (ev, true) m m'.

Inductive abs_run : list (VolumeEvent * bool) -> (nat -> option (list Z)) -> (nat -> option (list Z)) -> Prop :=
  | ar_nil m m' : (forall q, m' q = m q) -> abs_run [] m m'
  | ar_cons x l m1 m2 m3 : abs_step x m1 m2 -> abs_run l m2 m3 -> abs_run (x :: l) m1 m3.

Lemma write_effect w p bs :
  good w ->
  abs_step (EvWrite p bs, write_succeeds (EvWrite p bs) w) (page_content w)
    (page_content (volume_event (EvWrite p bs) w)).
Proof.
  intros [Hw Ht Hs Hp Hl Hd]. simpl.
  destruct (write_page_spec w p bs Hw) as (w' & r & -> & [_ _ _ _ _ Hot Hpg Hok _ _]);
    [unfold channel_ok; congruence|done|]. simpl.
  assert (page_content w' p = Some bs -> forall ok, abs_step (EvWrite p bs, ok) (page_content w) (page_content w')) as Hset.
  { intros Hbs ok. apply as_write. intros q. case_bool_decide; [by subst|by apply Hot]. }
  destruct r as [o|err]; [by apply Hset, (Hok o)|]. destruct Hpg as [Hpg|Hpg]; [|by apply Hset].
  apply as_write_failed. intros q. destruct (decide (q = p)) as [->|Hq]; [done|by apply Hot].
Qed.

Lemma event_effect w ev :
  good w -> event_ok (page_size (manifest w)) ev ->
  abs_step (ev, write_succeeds ev w) (page_content w) (page_content (volume_event ev w)).
Proof.
  intros Hw He. destruct (volume_step w ev Hw He) as (_ & _ & Hc).
  destruct ev; try (apply as_internal; [done|exact Hc]); [by apply write_effect|].
  apply as_clear. exact Hc.
Qed.

Lemma run_effect evs w :
  good w -> Forall (event_ok (page_size (manifest w))) evs ->
  abs_run (volume_trace evs w) (page_content w) (page_content (run_volume evs w)).
Proof.
  revert w. induction evs as [|ev evs IH]; intros w Hw Hev; [by constructor|].
  apply Forall_cons in Hev as [He Hev]. destruct (volume_step w ev Hw He) as (Hw' & Hm & _).
  simpl. econstructor; [by apply event_effect|]. apply IH; [done|]. by rewrite Hm.
Qed.

Lemma abs_run_ext l m1 m1' m2 : (forall q, m1' q = m1 q) -> abs_run l m1 m2 -> abs_run l m1' m2.
Proof.
  intros Hx Hr. destruct Hr as [m m' Hm|x l m1 m2 m3 Hs Hr]; [constructor; intros; by rewrite Hm|].
  eapply ar_cons; [|exact Hr]. destruct Hs; constructor; try done; intros q;
    rewrite ?Hx; match goal with H : forall q, _ = _ |- _ => rewrite H end; done.
Qed.

(** C18: the volume is a map from pages to contents.  From a new volume, over
    any history of writes, UNMAPs, reads, upload-worker steps, retries,
    evictions, resizes and restarts, and whatever fails, the contents are
    those the writes and UNMAPs describe (a write that reports an error may
    have taken effect); a read that returns, returns them; and a read returns
    when no outside call fails, wherever the chunk is by then. *)
Theorem volume_refines m key b e evs w0 :
  manifest_ok m -> new_volume m key b e = Some w0 -> Forall (event_ok (page_size m)) evs ->
  let w := run_volume evs w0 in
  abs_run (volume_trace evs w0) (fun _ => None) (page_content w) /\
  (forall p w' o, read_page p w = (w', Ok o) -> fst <$> o = page_content w p) /\
  (forall p, script (env w) = [] -> exists w' o, read_page p w = (w', Ok o)).
Proof.
  intros Hm Hn Hev w. destruct (new_volume_good m key b e w0 Hm Hn) as (Hg & _ & Em & Hc).
  destruct (run_new_volume m key b e evs w0 Hm Hn Hev) as [Hw _]. rewrite <- Em in Hev. split_and!.
  - eapply abs_run_ext; [|by apply run_effect]. intros q. by rewrite Hc.
  - intros p w' o Hr. destruct (read_page_spec w p (good_wf _ Hw)) as (w1 & r & E & _ & Hspec).
    rewrite E in Hr. simplify_eq. by apply Hspec.
  - intros p Hq. apply read_page_returns; [apply Hw|done].
Qed.

(** A clean drain of a range means its pages are stored. *)
Lemma drained_stored w range p en :
  good w -> wait_for_range (uploads w) range = Some DrainClean -> in_range range p = true ->
  entry w p = Some en -> is_Some (backend w !! hash en).
Proof.
  intros Hw Hd Hp He. destruct (backend w !! hash en) as [x|] eqn:Eb; [eauto|exfalso].
  pose proof (good_tracked _ Hw p en He Eb) as Htr. unfold wait_for_range in Hd.
  destruct (existsb (in_range range) (elements (failed (uploads w)))) eqn:Ef; [done|].
  destruct (existsb (in_range range) (elements (pending (uploads w)))) eqn:Ep; [done|].
  apply elem_of_union in Htr as [Hin|Hin]; apply elem_of_elements, list_elem_of_In in Hin;
    [rewrite <- not_true_iff_false in Ep; apply Ep|rewrite <- not_true_iff_false in Ef; apply Ef];
    apply existsb_exists; by exists p.
Qed.


(** a resize never loses a page.  On a reachable volume, [set_size]
    leaves every page as it was, whether it succeeds or is refused; when it
    succeeds the live and the persisted size are the new one, when it fails
    both are the old one. *)
Theorem set_size_keeps_pages m key b e evs w0 n :
  manifest_ok m -> new_volume m key b e = Some w0 -> Forall (event_ok (page_size m)) evs ->
  n / page_size m <= u32_max ->
  let w := run_volume evs w0 in
  let '(w', r) := set_size n w in
  (forall p, page_content w' p = page_content w p) /\
  match r with
  | Ok _ => live_size_bytes w' = n /\ disk_size w' = n
  | Err _ => live_size_bytes w' = live_size_bytes w /\ disk_size w' = disk_size w
  end.
Proof.
  intros Hm Hn Hev Hz w. destruct (run_new_volume m key b e evs w0 Hm Hn Hev) as [Hw Emw].
  fold w in Hw, Emw.
  destruct (set_size_spec w n Hw) as [_ Hc _ _ Hok Herr]; [unfold size_ok; by rewrite Emw|].
  destruct (set_size n w) as [w' [[]|err]]; simpl in *; split; auto. by apply (Herr err).
Qed.
End history.

(** ** A small volume *)

Definition small_manifest : Manifest :=
  mkManifest (replicate 16 1) 12 2 4 Local false false None None.

Definition quiet : Env := mkEnv [] [] 0.

Definition small_volume : VolumeWriter :=
  match @new_volume small_manifest None unbounded quiet with
  | Some w => w
  | None => mkWriter small_manifest None ∅ unbounded (PageIndex.mkIndex [] [] 0)
      (BlockLru.open_or_create None) [] ∅ None [] [] uploads_new 0 0 quiet
  end.

Lemma small_manifest_ok : manifest_ok small_manifest.
Proof. split; unfold u32_max; simpl; try lia; done. Qed.

Definition small_history : list VolumeEvent :=
  [EvWrite 0 [1; 2; 3; 4]; EvPut 0; EvApply 0; EvEvict (mkManager 0 4 0) true (fun _ => false);
   EvWrite 1 [5; 6; 7; 8]; EvClear 1].

Lemma small_history_ok : Forall (event_ok (page_size small_manifest)) small_history.
Proof. repeat constructor. Qed.

Lemma volume_refines_witness :
  let run := @run_volume model_crypto small_history small_volume in
  @page_content model_crypto run 0 = Some [1; 2; 3; 4] /\ pool run !! @blake3 model_crypto [1; 2; 3; 4] = None /\
  exists w' o, @read_page model_crypto 0 run = (w', Ok o) /\ fst <$> o = Some [1; 2; 3; 4].
Proof.
  cbv zeta. destruct (@volume_refines model_crypto model_crypto_laws small_manifest None unbounded quiet
    small_history small_volume small_manifest_ok eq_refl small_history_ok) as (_ & Hr & Hx).
  assert (E : @page_content model_crypto (@run_volume model_crypto small_history small_volume) 0 = Some [1; 2; 3; 4])
    by (vm_compute; reflexivity).
  split; [exact E|]. split; [vm_compute; reflexivity|].
  destruct (Hx 0%nat) as (w' & o & Ho); [vm_compute; reflexivity|].
  exists w', o. split; [exact Ho|]. rewrite (Hr _ _ _ Ho). exact E.
Defined.


Lemma set_size_keeps_pages_witness :
  let run := @run_volume model_crypto small_history small_volume in
  @page_content model_crypto (set_size 4 run).1 0 = Some [1; 2; 3; 4] /\ (set_size 4 run).2 = Ok tt.
Proof.
  cbv zeta.
  pose proof (@set_size_keeps_pages model_crypto model_crypto_laws small_manifest None unbounded quiet
    small_history small_volume 4 small_manifest_ok eq_refl small_history_ok ltac:(vm_compute; discriminate)) as H.
  cbv zeta in H.
  assert (E : (set_size 4 (@run_volume model_crypto small_history small_volume)).2 = Ok tt)
    by (vm_compute; reflexivity).
  destruct (set_size 4 _) as [w' r]. simpl in E. destruct H as [Hc _]. split; [|exact E].
  etrans; [apply Hc|]. vm_compute. reflexivity.
Defined.
