(* ===== verification/VolumeUploads.v ===== *)
(** * Draining the uploads of a volume

    Without UNMAP every page in flight has a task in the channel or in the
    worker's hands, so the queue drains and a SYNCHRONIZE CACHE returns.  An
    UNMAP of a page in flight breaks this for good; a closed channel and an
    eviction inside a seal lose the only copy of a page. *)

From S2P Require Import Prelude Bytes ByteFile PageIndex UploadIndex BlockLru PoolBudget StateError Crypto VolumeWriter VolumeProofs DiskCache VolumeHistory.

Local Open Scope Z_scope.

Section drain.
Context `{VolumeCryptoLaws}.

Notation entry w p := (get_entry (page_index w) p).
Notation state_at w p := (UploadIndex.read (upload_index w) p).

Lemma served_frame w w' : frame w w' -> served w -> served w'.
Proof. intros [Ee Eq Ea Eu] Hs p. unfold PageIndex.get. rewrite Ee, Eq, Ea, Eu. apply Hs. Qed.

Lemma stranded_frame p w w' : frame w w' -> stranded p w -> stranded p w'.
Proof. intros [Ee Eq Ea Eu]. unfold stranded. by rewrite Ee, Eq, Ea, Eu. Qed.

Lemma evict_frame m readable pins w : vol_wf w -> frame w (evict_lru_chunks m readable pins w).1.2.
Proof. intros Hw. destruct (evict_spares m readable pins w Hw). split; congruence. Qed.

Lemma delete_split {A} (l : list A) i x y : l !! i = Some x -> y ∈ l -> y = x \/ y ∈ delete i l.
Proof.
  intros Hi Hy. apply list_elem_of_lookup in Hy as [j Hj]. rewrite delete_take_drop.
  destruct (decide (j = i)) as [->|Hji]; [left; congruence|right].
  apply elem_of_app. destruct (decide (j < i)%nat).
  - left. apply list_elem_of_lookup. exists j. by rewrite lookup_take_lt.
  - right. apply list_elem_of_lookup. exists (j - S i)%nat. rewrite lookup_drop. by replace (S i + (j - S i))%nat with j by lia.
Qed.

Lemma in_delete {A} (l : list A) i x y : l !! i = Some x -> y ∈ l -> y <> x -> y ∈ delete i l.
Proof. intros Hi Hy Hne. by destruct (delete_split l i x y Hi Hy). Qed.

Lemma put_served w i : good w -> served w -> served (worker_put i w).
Proof.
  intros Hw Hs. unfold worker_put. destruct (queue w !! i) as [t|] eqn:Eq; [|done].
  set (w0 := with_queue (delete i (queue w)) w). cbv zeta. fold (attempt t).
  destruct (attempt_spec w0 t) as (w1 & r & -> & Hg & _); [apply (good_queue w), Hw|].
  pose proof Hg as [_ _ Ei _ _ Eq1 Ea Eu _ _ _ _ _]. destruct r as [o|err]; intros p; simpl.
  - rewrite Ei, Eq1, Ea, Eu. intros Hp. destruct (Hs p Hp) as (t' & Ht' & Hrest). exists t'. split; [|done].
    apply elem_of_app in Ht' as [Ht'|Ht']; [|set_solver].
    destruct (delete_split _ _ _ _ Eq Ht') as [->|Hd]; set_solver.
  - rewrite Ei, Eq1, Ea, Eu. intros Hp. assert (p ∈ pending (uploads w) /\ p <> item_id t) as [Hp' Hne] by set_solver.
    destruct (Hs p Hp') as (t' & Ht' & Hid & Hrest). exists t'. split; [|done].
    apply elem_of_app in Ht' as [Ht'|Ht']; [|set_solver]. apply elem_of_app. left.
    eapply in_delete; [done..|]. intros ->. done.
Qed.

Lemma apply_served w i : good w -> served w -> served (worker_apply i w).
Proof.
  intros Hw Hs. unfold worker_apply. destruct (acked w !! i) as [t|] eqn:Ea; [|done].
  set (w0 := with_acked (delete i (acked w)) w). unfold apply_page_upload_outcome. rewrite run_bind. simpl.
  assert (Hkeep : forall p, p ∈ pending (uploads w) ->
    (forall t', PageIndex.get (page_index w) p = Some (task_hash t') -> item_id t' = p -> t' <> t) ->
    exists t', t' ∈ queue w ++ delete i (acked w) /\ item_id t' = p /\
      PageIndex.get (page_index w) p = Some (task_hash t')).
  { intros p Hp Hne. destruct (Hs p Hp) as (t' & Ht' & Hid & Hg). exists t'. split; [|done].
    apply elem_of_app. apply elem_of_app in Ht' as [Ht'|Ht']; [by left|right].
    eapply in_delete; [done..|]. by apply Hne. }
  destruct (u32_max <? Z.of_nat (item_id t)) eqn:Eu.
  - intros p Hp. simpl in *. apply Hkeep; [done|]. intros t' Hg <- ->. bool_to_prop.
    apply get_is_entry in Hg as (e & He & _). pose proof (v_bound _ (good_wf _ Hw) _ _ He). lia.
  - case_bool_decide as Hg.
    + intros p Hp. simpl in *. apply Hkeep; [done|]. intros t' Hg' <- ->. done.
    + rewrite run_bind. simpl. intros p Hp. simpl in *. apply Hkeep; [set_solver|]. intros t' _ <- ->. set_solver.
Qed.

Lemma retry_served ps n w : good w -> served w -> served (retry_pages ps n w).1.
Proof.
  revert n w. induction ps as [|p ps IH]; intros n w Hw Hs; [done|].
  simpl. rewrite run_bind. simpl. destruct (pending_upload_payload w p) as [t|] eqn:Et.
  - rewrite run_bind. simpl. rewrite run_bind, send_open by apply Hw. simpl. apply IH.
    + apply good_queue, good_uploads; [done|apply depth_marks, Hw|]. intros q e _ _. apply union_marks.
    + apply payload_some in Et as [Hid Hg]. intros q Hq. simpl in *. destruct (decide (q = p)) as [->|Hne].
      * exists t. split; [set_solver|done].
      * destruct (Hs q ltac:(set_solver)) as (t' & Ht' & Hrest). exists t'. split; [set_solver|done].
  - rewrite run_bind. simpl. apply IH; [|done].
    apply good_uploads; [done|apply depth_marks, Hw|]. intros q e He _ Hq.
    apply union_marks; [done|]. intros ->. by rewrite (payload_none _ _ Et) in He.
Qed.

Lemma enqueue_served l w :
  sender w = Some true -> served w -> served (enqueue_states l w).
Proof.
  revert w. induction l as [|[p st] l IH]; intros w Hsn Hs; [done|]. simpl. destruct st; [by apply IH|].
  destruct (pending_upload_payload w p) as [t|] eqn:Et; [|by apply IH].
  rewrite send_open by done. apply IH; [done|]. apply payload_some in Et as [Hid Hg].
  intros q Hq. simpl in *. destruct (decide (q = p)) as [->|Hne].
  - exists t. split; [set_solver|done].
  - destruct (Hs q ltac:(set_solver)) as (t' & Ht' & Hrest). exists t'. split; [set_solver|done].
Qed.

(** A host that never unmaps. *)
Definition no_unmap (ev : VolumeEvent) : Prop := match ev with EvClear _ => False | _ => True end.

Lemma event_served ev w :
  good w -> event_ok (page_size (manifest w)) ev -> no_unmap ev -> served w -> served (volume_event ev w).
Proof.
  intros Hw Hev Hu Hs. destruct ev; simpl in *.
  - destruct (write_page_spec w p bs (good_wf _ Hw)) as (w' & r & -> & Hr); [|by destruct Hw|].
    + unfold channel_ok. by rewrite (good_sender _ Hw).
    + by apply Hr; [apply Hw|].
  - destruct (read_page_spec w p (good_wf _ Hw)) as (w' & r & -> & Hg & _). by eapply served_grows.
  - done.
  - by apply put_served.
  - by apply apply_served.
  - unfold retry_failed_uploads_in_range. rewrite run_bind. simpl. rewrite (good_sender _ Hw). by apply retry_served.
  - eapply served_frame; [apply evict_frame, Hw|done].
  - eapply served_frame; [by apply set_size_spec|done].
  - apply enqueue_served; [done|]. intros p Hp. simpl in Hp. set_solver.
  - done.
Qed.

Lemma run_served evs w :
  good w -> Forall (event_ok (page_size (manifest w))) evs -> Forall no_unmap evs -> served w ->
  served (run_volume evs w).
Proof.
  revert w. induction evs as [|ev evs IH]; intros w Hw Hev Hu Hs; [done|].
  apply Forall_cons in Hev as [He Hev]. apply Forall_cons in Hu as [Hu Hus].
  destruct (volume_step w ev Hw He) as (Hw' & Hm & _). simpl. apply IH; [done|by rewrite Hm|done|].
  by apply event_served.
Qed.

(** The upload workers left alone: each pick takes a PUT or an outcome to
    apply, from anywhere in the channel or the worker set. *)
Definition settle_event (pick : bool * nat) (w : VolumeWriter) : VolumeEvent :=
  let put := EvPut (pick.2 mod length (queue w))%nat in
  let apply := EvApply (pick.2 mod length (acked w))%nat in
  match queue w, acked w with
  | [], _ => apply
  | _, [] => put
  | _, _ => if pick.1 then put else apply
  end.

Definition settle (picks : list (bool * nat)) (w : VolumeWriter) : VolumeWriter :=
  fold_left (fun w pick => volume_event (settle_event pick w) w) picks w.

Definition work_left (w : VolumeWriter) : nat := (2 * length (queue w) + length (acked w))%nat.

Lemma put_work w i : good w -> (i < length (queue w))%nat -> (work_left (worker_put i w) < work_left w)%nat.
Proof.
  intros Hw Hi. unfold worker_put. destruct (lookup_lt_is_Some_2 _ _ Hi) as [t Ht]. rewrite Ht.
  set (w0 := with_queue (delete i (queue w)) w). cbv zeta. fold (attempt t).
  destruct (attempt_spec w0 t) as (w1 & r & -> & Hg & _); [apply (good_queue w), Hw|].
  pose proof Hg as [_ _ _ _ _ Eq Ea _ _ _ _ _ _]. unfold work_left.
  destruct r; simpl; rewrite Eq, Ea; simpl; rewrite ?length_app, length_delete by done; simpl; lia.
Qed.

Lemma apply_work w i : good w -> (i < length (acked w))%nat -> (work_left (worker_apply i w) < work_left w)%nat.
Proof.
  intros Hw Hi. unfold worker_apply. destruct (lookup_lt_is_Some_2 _ _ Hi) as [t Ht]. rewrite Ht.
  set (w0 := with_acked (delete i (acked w)) w).
  assert (queue (apply_page_upload_outcome t w0).1 = queue w0 /\ acked (apply_page_upload_outcome t w0).1 = acked w0)
    as [Eq Ea].
  { unfold apply_page_upload_outcome. rewrite run_bind. simpl. by repeat case_match. }
  unfold work_left. rewrite Eq, Ea. simpl. rewrite length_delete by done. lia.
Qed.

Lemma settle_step w pick :
  good w -> let w' := volume_event (settle_event pick w) w in
  event_ok (page_size (manifest w)) (settle_event pick w) /\ no_unmap (settle_event pick w) /\
  ((work_left w' < work_left w)%nat \/ work_left w = 0%nat /\ w' = w).
Proof.
  intros Hw. destruct pick as [b i].
  pose proof (fun n (Hn : n <> 0%nat) => put_work w (i mod n) Hw) as Hp.
  pose proof (fun n (Hn : n <> 0%nat) => apply_work w (i mod n) Hw) as Ha.
  pose proof (fun n => Nat.mod_upper_bound i n) as Hm. unfold settle_event, work_left in *. simpl in *.
  destruct (queue w) as [|t q] eqn:Eq, (acked w) as [|t' l] eqn:El; simpl in *; split_and!; try done;
    try (destruct b; done).
  - right. split; [done|]. unfold worker_apply. by rewrite El.
  - left. apply (Ha (S (length l))); [done|]. by apply Hm.
  - left. apply (Hp (S (length q))); [done|]. by apply Hm.
  - left. destruct b; [apply (Hp (S (length q)))|apply (Ha (S (length l)))]; try done; by apply Hm.
Qed.

Lemma settle_drains picks w :
  good w -> served w -> (work_left w <= length picks)%nat ->
  let w' := settle picks w in good w' /\ served w' /\ work_left w' = 0%nat.
Proof.
  revert w. induction picks as [|pick picks IH]; intros w Hw Hs Hl; simpl in *; [split_and!; auto; lia|].
  destruct (settle_step w pick Hw) as (He & Hu & Hd). destruct (volume_step w _ Hw He) as (Hw' & _ & _).
  apply IH; [done|by apply event_served|]. destruct Hd as [Hd|[Hd ->]]; lia.
Qed.

Lemma drained_clean w : served w -> work_left w = 0%nat -> pending (uploads w) = ∅.
Proof.
  intros Hs Hz. unfold work_left in Hz. apply set_eq. intros p. split; [|set_solver].
  intros (t & Ht & _)%Hs. destruct (queue w), (acked w); simpl in *; try lia. by apply elem_of_nil in Ht.
Qed.

End drain.

(** ** What breaks the drain and the data *)

Section strands.
Context `{VolumeCryptoLaws}.

Notation entry w p := (get_entry (page_index w) p).

Lemma elem_of_delete_mono {A} (l : list A) i x : x ∈ delete i l -> x ∈ l.
Proof. intros Hx. eapply elem_of_submseteq; [exact Hx|]. apply sublist_submseteq, sublist_delete. Qed.

Lemma put_stranded p w i : good w -> stranded p w -> stranded p (worker_put i w).
Proof.
  intros Hw (Hp & He & Ht). unfold worker_put. destruct (queue w !! i) as [t|] eqn:Eq; [|done].
  assert (item_id t <> p) as Hne by (apply Ht, elem_of_app; left; by eapply list_elem_of_lookup_2).
  set (w0 := with_queue (delete i (queue w)) w). cbv zeta. fold (attempt t).
  destruct (attempt_spec w0 t) as (w1 & r & -> & Hg & _); [apply (good_queue w), Hw|].
  assert (stranded p w1) as (Hp1 & He1 & Ht1).
  { eapply stranded_grows; [|exact Hg]. split_and!; [done..|]. intros t' Hin. apply Ht. simpl in Hin.
    apply elem_of_app in Hin as [Hin%elem_of_delete_mono|Hin]; set_solver. }
  destruct r; split_and!; simpl; try done; set_solver.
Qed.

Lemma apply_stranded p w i : stranded p w -> stranded p (worker_apply i w).
Proof.
  intros (Hp & He & Ht). unfold worker_apply. destruct (acked w !! i) as [t|] eqn:Ea; [|done].
  assert (item_id t <> p) as Hne by (apply Ht, elem_of_app; right; by eapply list_elem_of_lookup_2).
  assert (Hin : forall t', t' ∈ queue w ++ delete i (acked w) -> item_id t' <> p).
  { intros t' [Hin|Hin%elem_of_delete_mono]%elem_of_app; apply Ht; set_solver. }
  unfold apply_page_upload_outcome. rewrite run_bind. simpl. case_match; [by split_and!|].
  case_match; [by split_and!|]. split_and!; simpl; [set_solver|done..].
Qed.

Lemma retry_stranded p ps n w : sender w = Some true -> stranded p w -> stranded p (retry_pages ps n w).1.
Proof.
  revert n w. induction ps as [|q ps IH]; intros n w Hs (Hp & He & Ht); [done|].
  simpl. rewrite run_bind. simpl. destruct (pending_upload_payload w q) as [t|] eqn:Et.
  - rewrite run_bind. simpl. rewrite run_bind, send_open by done. simpl. apply IH; [done|].
    apply payload_some in Et as [Hid Hg]. split_and!; simpl; [set_solver|done|].
    intros t' [[Hin| ->%list_elem_of_singleton]%elem_of_app|Hin]%elem_of_app; [apply Ht; set_solver| |apply Ht; set_solver].
    rewrite Hid. intros ->. unfold PageIndex.get in Hg. by rewrite He in Hg.
  - rewrite run_bind. simpl. by apply IH.
Qed.

(** Neither a write of the page nor a restart. *)
Definition leaves_page (p : nat) (ev : VolumeEvent) : Prop :=
  match ev with EvWrite q _ => q <> p | EvRestart => False | _ => True end.

Lemma event_stranded p ev w :
  good w -> event_ok (page_size (manifest w)) ev -> leaves_page p ev -> stranded p w ->
  stranded p (volume_event ev w).
Proof.
  intros Hw Hev Hl Hs. destruct ev; simpl in *.
  - destruct (write_page_spec w p0 bs (good_wf _ Hw)) as (w' & r & -> & Hr); [|by destruct Hw|].
    + unfold channel_ok. by rewrite (good_sender _ Hw).
    + apply Hr; [apply Hw|congruence|done].
  - destruct (read_page_spec w p0 (good_wf _ Hw)) as (w' & r & -> & Hg & _). by eapply stranded_grows.
  - destruct Hs as (Hp & He & Ht). split_and!; [done| |done]. simpl.
    destruct (page_op_step (page_index w) (OClear p0) (v_index _ (good_wf _ Hw)) I) as [_ Hg]. simpl in Hg. rewrite Hg. by case_bool_decide.
  - by apply put_stranded.
  - by apply apply_stranded.
  - unfold retry_failed_uploads_in_range. rewrite run_bind. simpl. rewrite (good_sender _ Hw).
    apply retry_stranded; [apply Hw|done].
  - eapply stranded_frame; [apply evict_frame, Hw|done].
  - eapply stranded_frame; [by apply set_size_spec|done].
  - done.
  - done.
Qed.

(** an UNMAP of a page in flight leaves SYNCHRONIZE CACHE waiting.  Once
    the page is unmapped and its task is gone, its pending marker outlives
    every later event but a new write of that page or a restart, so a drain
    of any range over it never reports clean. *)
Theorem unmap_strands_upload m key b e evs w0 p evs' :
  manifest_ok m -> new_volume m key b e = Some w0 ->
  Forall (event_ok (page_size m)) evs -> Forall (event_ok (page_size m)) evs' ->
  let w := run_volume evs w0 in
  p ∈ pending (uploads w) -> entry w p = None -> (forall t, t ∈ queue w ++ acked w -> item_id t <> p) ->
  Forall (leaves_page p) evs' ->
  let w' := run_volume evs' w in
  p ∈ pending (uploads w') /\
  forall range, in_range range p = true -> wait_for_range (uploads w') range <> Some DrainClean.
Proof.
  intros Hm Hn Hev Hev' w Hp He Ht Hl w'.
  destruct (run_new_volume m key b e evs w0 Hm Hn Hev) as [Hw Em]. fold w in Hw, Em.
  assert (stranded p w') as (Hp' & _ & _).
  { subst w'. rewrite <- Em in Hev'. assert (Hs : stranded p w) by done. clearbody w.
    revert w Hw Em Hs Hev' Hp He Ht. induction evs' as [|ev evs' IH]; intros w Hw Em Hs Hev'; [done|].
    apply Forall_cons in Hev' as [Ho Hev']. apply Forall_cons in Hl as [Hl Hls].
    destruct (volume_step w ev Hw Ho) as (Hw' & Hmw & _).
    pose proof (event_stranded p ev w Hw Ho Hl Hs) as Hs'. intros _ _ _. simpl.
    apply IH; [done|done|congruence|done|by rewrite Hmw|apply Hs'..]. }
  split; [done|]. intros range Hr. unfold wait_for_range.
  destruct (existsb _ (elements (failed _))); [done|].
  assert (existsb (in_range range) (elements (pending (uploads w'))) = true) as ->; [|done].
  apply existsb_exists. exists p. split; [|done]. by apply list_elem_of_In, elem_of_elements.
Qed.
End strands.


Lemma unmap_strands_upload_witness :
  let w := @run_volume model_crypto [EvWrite 0 [1; 2; 3; 4]; EvClear 0; EvPut 0; EvApply 0] small_volume in
  queue w = [] /\ acked w = [] /\
  wait_for_range (uploads (@run_volume model_crypto
    [EvWrite 1 [5; 6; 7; 8]; EvPut 0; EvApply 0; EvRetry (0, 2)] w)) (0, 1) <> Some DrainClean.
Proof.
  cbv zeta. split; [vm_compute; reflexivity|]. split; [vm_compute; reflexivity|].
  refine (proj2 (@unmap_strands_upload model_crypto model_crypto_laws small_manifest None unbounded quiet
    [EvWrite 0 [1; 2; 3; 4]; EvClear 0; EvPut 0; EvApply 0] small_volume 0
    [EvWrite 1 [5; 6; 7; 8]; EvPut 0; EvApply 0; EvRetry (0, 2)]
    small_manifest_ok eq_refl _ _ _ _ _ _) (0, 1) eq_refl).
  - repeat constructor.
  - repeat constructor.
  - by vm_compute.
  - by vm_compute.
  - intros t Ht. by apply elem_of_nil in Ht.
  - repeat constructor. discriminate.
Defined.

(** ** Losing the only copy *)

Definition one_page : list Z := [1; 2; 3; 4].

Definition full_cache : DiskCacheManager := mkManager 0 4 300.

(** a write onto a closed channel can lose the page.  The write fails with
    [UploadChannelClosed] after binding the page, and marks it [Uploaded]
    although its chunk is in the pool only; the recovery scan of the next
    start therefore skips it, and an eviction deletes the last copy. *)
Theorem closed_channel_loses_page :
  let w0 := with_env (mkEnv [] [] 1000) small_volume in
  let w := @write_page_unsynced model_crypto 0 one_page (with_sender (Some false) w0) in
  let w1 := restart w.1 in
  let w2 := (evict_lru_chunks full_cache true (fun _ => false) w1).1.2 in
  w.2 = Err UploadChannelClosed /\
  @page_content model_crypto w.1 0 = Some one_page /\
  UploadIndex.read (upload_index w.1) 0 = Uploaded /\ backend w.1 = ∅ /\
  queue w1 = [] /\ @page_content model_crypto w2 0 = None /\
  is_Some (get_entry (page_index w2) 0).
Proof. vm_compute. split_and!; eauto. Qed.

(** The two halves of [write_page_unsynced] around the gap between the pool
    insert and the bind. *)
Definition write_before_bind (p : nat) (bytes : list Z) : @EM VolumeWriter UploaderError (list Z * Z) :=
  sealed ← @seal_payload model_crypto p bytes;
  inserted ← @seal_chunk model_crypto sealed.1;
  mret (inserted.1, sealed.2).

Definition write_from_bind (p : nat) (hs : list Z * Z) : @EM VolumeWriter UploaderError unit :=
  bind_page p hs.1 hs.2;; (sent ← dispatch_upload p hs.1; touch_lru p).

(** an eviction between a write's pool insert and its bind loses the
    page.  The new chunk has no page yet, so the evictor takes it for an
    uploaded one last used at time 0, which the recent-seal pin does not
    cover; the write then binds the deleted chunk and reports success. *)
Theorem seal_races_eviction :
  let w0 := with_env (mkEnv [] [] 1000) small_volume in
  let '(w1, r1) := write_before_bind 0 one_page w0 in
  let w2 := (evict_lru_chunks full_cache true (fun _ => false) w1).1.2 in
  match r1 with
  | Err _ => False
  | Ok hs =>
      let '(w3, r3) := write_from_bind 0 hs w2 in
      r3 = Ok tt /\ is_Some (get_entry (page_index w3) 0) /\ @page_content model_crypto w3 0 = None /\
      queue (worker_put 0 w3) = [] /\ acked (worker_put 0 w3) = [] /\ backend (worker_put 0 w3) = ∅
  end.
Proof. vm_compute. split_and!; eauto. Qed.
