(* ===== verification/PageCache.v ===== *)
(** * The volume cache ([core/block/src/cache.rs])

    [PageCache] between the SCSI and NVMe data paths and a volume: byte reads
    and writes over cached pages, eviction, flushing, UNMAP, COMPARE AND
    WRITE and SYNCHRONIZE CACHE.  The volume under it is the [PageStore]
    interface, so nothing here depends on how pages are stored.

    An operation is one step: what other tasks do while it waits is in the
    histories and, for the gaps that matter, in [CacheRaces]. *)

From stdpp Require Import sorting.
From S2P Require Import Prelude StateError PageLru Crypto VolumeWriter.

Local Open Scope Z_scope.

Inductive SyncAfter : Type := Storage | Disk | Memory.

(** ** The volume as the cache sees it *)

Class PageStore (W : Type) : Type := {
  st_read : nat -> EM W UploaderError (option (list Z * Z));
  st_write : nat -> list Z -> EM W UploaderError WritePageOutcome;
  st_clear : nat -> EM W UploaderError unit;
  st_sync : EM W UploaderError unit;
  st_persist_runtime : EM W UploaderError unit;
  st_size : W -> Z;
  st_wait_for_range : W -> Z * Z -> option DrainOutcome;
  st_retry : Z * Z -> EM W UploaderError Z;
}.

Record VolumeRuntime : Type := mkRuntime {
  rt_host_bytes_written : Z;
  rt_host_bytes_read : Z;
  rt_backend_bytes_written : Z;
  rt_backend_bytes_read : Z;
  rt_sync_after : SyncAfter;
}.

(** [writer]'s durability tier and the volume's [runtime.json] are here. *)
Record PageCache (W : Type) : Type := mkCache {
  writer : W;
  inner : CacheInner;
  flush_permit : bool;
  budget_pages : nat;
  cache_page_size : Z;
  cache_sector_size : Z;
  live : VolumeRuntime;
  counter_dirty : bool;
  max_concurrent_flushes : nat;
  runtime_json : VolumeRuntime;
}.
Arguments mkCache {W}.
Arguments writer {W}.
Arguments inner {W}.
Arguments flush_permit {W}.
Arguments budget_pages {W}.
Arguments cache_page_size {W}.
Arguments cache_sector_size {W}.
Arguments live {W}.
Arguments counter_dirty {W}.
Arguments max_concurrent_flushes {W}.
Arguments runtime_json {W}.

Inductive RangeError : Type := BadSectorSize | OutOfRange.

Definition zeros (n : Z) : list Z := replicate (Z.to_nat n) 0.

Section cache.
Context {W : Type} `{!PageStore W}.

Notation M := (EM (PageCache W) UploaderError).

Definition with_writer (w : W) (c : PageCache W) : PageCache W :=
  mkCache w (inner c) (flush_permit c) (budget_pages c) (cache_page_size c) (cache_sector_size c)
    (live c) (counter_dirty c) (max_concurrent_flushes c) (runtime_json c).
Definition with_inner (i : CacheInner) (c : PageCache W) : PageCache W :=
  mkCache (writer c) i (flush_permit c) (budget_pages c) (cache_page_size c) (cache_sector_size c)
    (live c) (counter_dirty c) (max_concurrent_flushes c) (runtime_json c).
Definition with_permit (b : bool) (c : PageCache W) : PageCache W :=
  mkCache (writer c) (inner c) b (budget_pages c) (cache_page_size c) (cache_sector_size c)
    (live c) (counter_dirty c) (max_concurrent_flushes c) (runtime_json c).
Definition with_live (l : VolumeRuntime) (d : bool) (c : PageCache W) : PageCache W :=
  mkCache (writer c) (inner c) (flush_permit c) (budget_pages c) (cache_page_size c)
    (cache_sector_size c) l d (max_concurrent_flushes c) (runtime_json c).
Definition with_runtime_json (r : VolumeRuntime) (c : PageCache W) : PageCache W :=
  mkCache (writer c) (inner c) (flush_permit c) (budget_pages c) (cache_page_size c)
    (cache_sector_size c) (live c) (counter_dirty c) (max_concurrent_flushes c) r.

(** A call on the volume. *)
Definition on_writer {A} (m : EM W UploaderError A) : M A := zoom writer with_writer m.

Definition cache_with_budget_and_concurrency (w : W) (page_size sector_size : Z) (rt : VolumeRuntime)
    (budget_bytes : Z) (max_flushes : nat) : PageCache W :=
  mkCache w inner_new false (Nat.max 1 (Z.to_nat (budget_bytes / page_size))) page_size sector_size
    rt false (Nat.max max_flushes 1) rt.

(** ** Counters *)

Definition bump (add : Z -> VolumeRuntime -> VolumeRuntime) (n : Z) : M unit :=
  if n =? 0 then mret tt else modify (fun c => with_live (add n (live c)) true c).

Definition add_host_written (n : Z) (r : VolumeRuntime) : VolumeRuntime :=
  mkRuntime (wrap64 (rt_host_bytes_written r + n)) (rt_host_bytes_read r)
    (rt_backend_bytes_written r) (rt_backend_bytes_read r) (rt_sync_after r).
Definition add_host_read (n : Z) (r : VolumeRuntime) : VolumeRuntime :=
  mkRuntime (rt_host_bytes_written r) (wrap64 (rt_host_bytes_read r + n))
    (rt_backend_bytes_written r) (rt_backend_bytes_read r) (rt_sync_after r).
Definition add_backend_written (n : Z) (r : VolumeRuntime) : VolumeRuntime :=
  mkRuntime (rt_host_bytes_written r) (rt_host_bytes_read r)
    (wrap64 (rt_backend_bytes_written r + n)) (rt_backend_bytes_read r) (rt_sync_after r).
Definition add_backend_read (n : Z) (r : VolumeRuntime) : VolumeRuntime :=
  mkRuntime (rt_host_bytes_written r) (rt_host_bytes_read r)
    (rt_backend_bytes_written r) (wrap64 (rt_backend_bytes_read r + n)) (rt_sync_after r).

Definition bump_host_bytes : Z -> M unit := bump add_host_written.
Definition bump_host_bytes_read : Z -> M unit := bump add_host_read.
Definition bump_backend_bytes_written : Z -> M unit := bump add_backend_written.
Definition bump_backend_bytes_read : Z -> M unit := bump add_backend_read.

(** [put_bytes]: the inline upload's count, absent under asynchronous
    dispatch. *)
Definition bump_put (o : option Z) : M unit :=
  match o with Some n => bump_backend_bytes_written n | None => mret tt end.

Definition persist_runtime_if_dirty : M unit :=
  c ← get;
  if negb (counter_dirty c) then mret tt
  else
    modify (with_live (live c) false);;
    on_error (fun c => with_live (live c) true c) (on_writer st_persist_runtime);;
    modify (fun c => with_runtime_json (live c) c).

(** [VolumeWriter::set_sync_after]: reads [runtime.json] back, so only the
    tier changes on disk. *)
Definition set_tier (mode : SyncAfter) (r : VolumeRuntime) : VolumeRuntime :=
  mkRuntime (rt_host_bytes_written r) (rt_host_bytes_read r) (rt_backend_bytes_written r)
    (rt_backend_bytes_read r) mode.

Definition set_sync_after (mode : SyncAfter) : M unit :=
  on_writer st_persist_runtime;;
  modify (fun c => with_runtime_json (set_tier mode (runtime_json c)) c);;
  modify (fun c => with_live (set_tier mode (live c)) (counter_dirty c) c).

(** ** Ranges *)

Definition checked_add64 (a b : Z) : option Z := if a + b <=? u64_max then Some (a + b) else None.
Definition checked_mul64 (a b : Z) : option Z := if a * b <=? u64_max then Some (a * b) else None.

Definition resolve_range (c : PageCache W) (lba blocks : Z) : result (Z * Z) RangeError :=
  let sector := cache_sector_size c in
  if sector =? 0 then Err BadSectorSize
  else
    let total_blocks := st_size (writer c) / sector in
    match checked_add64 lba blocks with
    | None => Err OutOfRange
    | Some e =>
        if total_blocks <? e then Err OutOfRange
        else
          match checked_mul64 lba sector, checked_mul64 blocks sector with
          | Some byte_off, Some len => Ok (byte_off, len)
          | _, _ => Err OutOfRange
          end
    end.

Definition page_id_for_offset (byte_offset : Z) : M nat :=
  c ← get;
  let pid := byte_offset / cache_page_size c in
  if u32_max <? pid then fail (PageOutOfRange pid (cache_page_size c) (st_size (writer c)))
  else mret (Z.to_nat pid).

Definition page_range_for_bytes (c : PageCache W) (byte_offset len : Z) : option (Z * Z) :=
  if len =? 0 then None
  else
    let first := byte_offset / cache_page_size c in
    match checked_add64 byte_offset (len - 1) with
    | None => None
    | Some last_byte =>
        let last := last_byte / cache_page_size c in
        if u32_max <? first then None
        else Some (first, Z.min last u32_max)
    end.

(** ** Pages *)

Definition on_inner (f : CacheInner -> CacheInner) : M unit := modify (fun c => with_inner (f (inner c)) c).

Definition maybe_signal_worker : M unit :=
  modify (fun c =>
    if (budget_pages c * 1 / 2 <=? size (dirty (inner c)))%nat then with_permit true c else c).

Inductive EvictStep : Type :=
  | StepDone
  | StepCleaned (i : CacheInner)
  | StepDrift (i : CacheInner)
  | StepDirty (pid : nat) (bs : list Z) (v : Z).

(** The victim, picked under the lock. *)
Definition evict_step (c : PageCache W) (wanted : nat) : EvictStep :=
  let i := inner c in
  if (size (pages i) + wanted <=? budget_pages c)%nat then StepDone
  else
    match lru_pick i true with
    | Some (Some pid) => StepCleaned (drop_entry i pid).1
    | _ =>
        match lru_pick i false with
        | Some (Some pid) =>
            match pages i !! pid with
            | Some entry => StepDirty pid (bytes entry) (version entry)
            | None =>
                let i1 := lru_unlink i pid in
                StepDrift (with_dirty i1 (dirty i1 ∖ {[pid]}))
            end
        | _ => StepDone
        end
    end.

Fixpoint evict_turns (fuel : nat) (wanted : nat) : M unit :=
  match fuel with
  | O => mret tt
  | S fuel =>
      c ← get;
      match evict_step c wanted with
      | StepDone => mret tt
      | StepCleaned i => on_inner (fun _ => i);; evict_turns fuel wanted
      | StepDrift i => on_inner (fun _ => i);; evict_turns fuel wanted
      | StepDirty pid bs v =>
          out ← on_writer (st_write pid bs);
          bump_put (put_bytes out);;
          on_inner (fun i => commit_evicted i pid v);;
          evict_turns fuel wanted
      end
  end.

(** Every turn that does not end the loop drops a page. *)
Definition evict_to_fit (wanted : nat) : M unit :=
  c ← get; evict_turns (S (size (pages (inner c)))) wanted.

Definition load_page_miss (p : nat) : M (list Z) :=
  c ← get;
  loaded ← on_writer (st_read p);
  bs ← (match loaded with
        | Some (bs, storage_bytes) => bump_backend_bytes_read storage_bytes;; mret bs
        | None => mret (zeros (cache_page_size c))
        end);
  if negb (Z.of_nat (length bs) =? cache_page_size c)
  then fail (EPageSizeMismatch (Z.of_nat (length bs)) (cache_page_size c))
  else
    evict_to_fit 1;;
    c ← get;
    let '(i, out) := commit_loaded (inner c) p bs in
    on_inner (fun _ => i);; mret out.

Definition acquire_page (p : nat) : M (list Z) :=
  c ← get;
  match pages (inner c) !! p with
  | Some entry => on_inner (fun i => lru_touch i p);; mret (bytes entry)
  | None => load_page_miss p
  end.

Definition install_full_page (p : nat) (bs : list Z) : M unit :=
  c ← get;
  if negb (Z.of_nat (length bs) =? cache_page_size c)
  then fail (EPageSizeMismatch (Z.of_nat (length bs)) (cache_page_size c))
  else
    (if bool_decide (is_Some (pages (inner c) !! p)) then mret tt else evict_to_fit 1);;
    on_inner (fun i => commit_install i p bs);;
    maybe_signal_worker.

Definition modify_page (p offset : nat) (bs : list Z) : M unit :=
  c ← get;
  match commit_splice (inner c) p offset bs with
  | Some i => on_inner (fun _ => i);; maybe_signal_worker
  | None =>
      acquire_page p;;
      c ← get;
      match commit_splice (inner c) p offset bs with
      | Some i => on_inner (fun _ => i);; maybe_signal_worker
      | None => fail (PageOutOfRange (Z.of_nat p) (cache_page_size c) (st_size (writer c)))
      end
  end.

Definition unmap_full_page (p : nat) : M unit :=
  on_inner (fun i => (drop_entry i p).1);; on_writer (st_clear p).

(** ** Bytes *)

(** One turn of a byte loop: the page, the offset in it and the length. *)
Definition turn (cursor remaining : Z) : M (nat * nat * nat) :=
  c ← get;
  page_id ← page_id_for_offset cursor;
  let off_in_page := cursor mod cache_page_size c in
  mret (page_id, Z.to_nat off_in_page, Z.to_nat (Z.min remaining (cache_page_size c - off_in_page))).

(** The loops take at least a byte a turn, so the length is enough fuel. *)
Fixpoint read_turns (fuel : nat) (cursor : Z) (remaining : nat) (out : list Z) : M (list Z) :=
  match fuel, remaining with
  | O, _ | _, O => mret out
  | S fuel, _ =>
      t ← turn cursor (Z.of_nat remaining);
      let '(page_id, off, chunk) := t in
      bs ← acquire_page page_id;
      read_turns fuel (cursor + Z.of_nat chunk) (remaining - chunk) (out ++ take chunk (drop off bs))
  end.

Definition read_bytes (byte_offset : Z) (len : nat) : M (list Z) :=
  if bool_decide (len = O) then mret []
  else
    out ← read_turns len byte_offset len [];
    bump_host_bytes_read (Z.of_nat (length out));;
    mret out.

Fixpoint write_turns (fuel : nat) (cursor : Z) (data : list Z) : M unit :=
  match fuel, data with
  | O, _ | _, [] => mret tt
  | S fuel, _ =>
      c ← get;
      t ← turn cursor (Z.of_nat (length data));
      let '(page_id, off, chunk) := t in
      let slice := take chunk data in
      (if bool_decide (off = O) && (Z.of_nat chunk =? cache_page_size c)
       then install_full_page page_id slice
       else modify_page page_id off slice);;
      write_turns fuel (cursor + Z.of_nat chunk) (drop chunk data)
  end.

Definition write_bytes (byte_offset : Z) (data : list Z) : M unit :=
  if bool_decide (data = []) then mret tt
  else write_turns (length data) byte_offset data;; bump_host_bytes (Z.of_nat (length data)).

Fixpoint compare_turns (fuel : nat) (cursor : Z) (expected : list Z) : M bool :=
  match fuel, expected with
  | O, _ | _, [] => mret true
  | S fuel, _ =>
      t ← turn cursor (Z.of_nat (length expected));
      let '(page_id, off, chunk) := t in
      bs ← acquire_page page_id;
      if bool_decide (take chunk (drop off bs) = take chunk expected)
      then compare_turns fuel (cursor + Z.of_nat chunk) (drop chunk expected)
      else mret false
  end.

Definition compare_and_write_bytes (byte_offset : Z) (expected new : list Z) : M bool :=
  if bool_decide (expected = []) then mret true
  else
    equal ← compare_turns (length expected) byte_offset expected;
    if equal : bool then write_bytes byte_offset new;; mret true else mret false.

Fixpoint unmap_turns (fuel : nat) (cursor : Z) (remaining : nat) (cleared : bool) : M bool :=
  match fuel, remaining with
  | O, _ | _, O => mret cleared
  | S fuel, _ =>
      c ← get;
      t ← turn cursor (Z.of_nat remaining);
      let '(page_id, off, chunk) := t in
      full ← (if bool_decide (off = O) && (Z.of_nat chunk =? cache_page_size c)
              then unmap_full_page page_id;; mret true
              else modify_page page_id off (zeros (Z.of_nat chunk));; mret cleared);
      unmap_turns fuel (cursor + Z.of_nat chunk) (remaining - chunk) full
  end.

Definition unmap_bytes (byte_offset : Z) (len : nat) : M unit :=
  if bool_decide (len = O) then mret tt
  else
    cleared ← unmap_turns len byte_offset len false;
    (if cleared : bool then on_writer st_sync else mret tt);;
    bump_host_bytes (Z.of_nat len).

(** ** Flushing *)

Definition flush_one (p : nat) : M bool :=
  c ← get;
  match pages (inner c) !! p with
  | Some entry =>
      if bool_decide (state entry = Dirty) then
        out ← on_writer (st_write p (bytes entry));
        bump_put (put_bytes out);;
        on_inner (fun i => commit_flushed i p (version entry));;
        mret true
      else mret false
  | None => mret false
  end.

(** [buffer_unordered] over a batch: every page is tried, the first error is
    kept. *)
Fixpoint flush_batch (batch : list nat) (wrote_any : bool) (first_err : option UploaderError)
    (c : PageCache W) : PageCache W * (bool * option UploaderError) :=
  match batch with
  | [] => (c, (wrote_any, first_err))
  | p :: batch =>
      match flush_one p c with
      | (c, Ok wrote) => flush_batch batch (wrote_any || wrote) first_err c
      | (c, Err e) =>
          flush_batch batch wrote_any (match first_err with Some e0 => Some e0 | None => Some e end) c
      end
  end.

(** The dirty ids in order, as a [BTreeSet] iterates. *)
Definition pick_dirty (sel : nat -> bool) (n : nat) (i : CacheInner) : list nat :=
  take n (List.filter sel (merge_sort le (elements (dirty i)))).

(** Every batch without an error cleans its pages, so the number of dirty
    pages and one more turn is enough fuel. *)
Fixpoint drain_turns (fuel : nat) (sel : nat -> bool) (wrote_any : bool) (c : PageCache W) :
    PageCache W * (bool * option UploaderError) :=
  match fuel with
  | O => (c, (wrote_any, None))
  | S fuel =>
      match pick_dirty sel (Nat.max 1 (max_concurrent_flushes c)) (inner c) with
      | [] => (c, (wrote_any, None))
      | batch =>
          let '(c, (wrote_any, first_err)) := flush_batch batch wrote_any None c in
          match first_err with
          | Some e => (c, (wrote_any, Some e))
          | None => drain_turns fuel sel wrote_any c
          end
      end
  end.

Definition flush_drain (sel : nat -> bool) : M unit := fun c =>
  let '(c, (wrote_any, first_err)) := drain_turns (S (size (dirty (inner c)))) sel false c in
  ((if wrote_any : bool then on_writer st_sync else mret tt);;
   match first_err with Some e => fail e | None => mret tt end) c.

Definition flush_pages_in_range (first last : Z) : M unit := flush_drain (in_range (first, last)).

Definition invalidate_cached_page (p : nat) : M unit := on_inner (fun i => (drop_entry i p).1).

Definition cache_invalidate_all : M unit := on_inner invalidate_all.

(** The wait at the end of a fence, one look at the tracker: [None] goes on
    waiting. *)
Definition fence_turn (range : Z * Z) : M (option unit) :=
  c ← get;
  match st_wait_for_range (writer c) range with
  | None => mret None
  | Some DrainFailed => on_writer (st_retry range);; fail UploadsFailed
  | Some DrainClean => mret (Some tt)
  end.

(** SYNCHRONIZE CACHE: [None] is still waiting for uploads. *)
Definition synchronize_bytes (byte_offset len : Z) : M (option unit) :=
  c ← get;
  match rt_sync_after (live c) with
  | Memory => mret (Some tt)
  | tier =>
      match page_range_for_bytes c byte_offset len with
      | None => mret (Some tt)
      | Some (first, last) =>
          flush_pages_in_range first last;;
          match tier with
          | Storage => fence_turn (first, last)
          | _ => mret (Some tt)
          end
      end
  end.

Definition all_pages : Z * Z := (0, u32_max).

Definition flush_all : M (option unit) :=
  flush_drain (fun _ => true);; persist_runtime_if_dirty;; fence_turn all_pages.

(** One wake-up of [run_flush_worker]: errors are dropped. *)
Definition flush_worker_tick (c : PageCache W) : PageCache W :=
  let c := (flush_drain (fun _ => true) (with_permit false c)).1 in
  (persist_runtime_if_dirty c).1.
End cache.
