(* ===== verification/PageCacheProofs.v ===== *)
(** * The volume cache is a byte array

    Against the [PageStore] interface: what the cache holds and what the
    volume holds together are one array of bytes, which reads return, writes
    and UNMAPs overlay, and eviction and flushing leave alone. *)

From stdpp Require Import sorting.
From S2P Require Import Prelude StateError PageLru Crypto VolumeWriter PageCache.

Local Open Scope Z_scope.

(** ** What the volume promises *)

Class PageStoreModel (W : Type) : Type := {
  st_ok : W -> Prop;
  st_content : W -> nat -> option (list Z);
  st_le : W -> W -> Prop;
}.

Section interface.
Context {W : Type} `{!PageStore W, !PageStoreModel W}.

Record st_keeps (w w' : W) : Prop := {
  sk_ok : st_ok w';
  sk_size : st_size w' = st_size w;
  sk_content p : st_content w' p = st_content w p;
  sk_le : st_le w w';
}.

(** The contents of one page change, or not. *)
Record st_puts (p : nat) (x : option (list Z)) (w w' : W) : Prop := {
  sp_ok : st_ok w';
  sp_size : st_size w' = st_size w;
  sp_others q : q <> p -> st_content w' q = st_content w q;
  sp_page : st_content w' p = st_content w p \/ st_content w' p = x;
  sp_le : st_le w w';
}.
End interface.

Class PageStoreLaws (W : Type) `{!PageStore W, !PageStoreModel W} (ps : Z) : Prop := {
  st_page_pos : 0 < ps;
  st_size_fits w : st_ok w -> st_size w / ps <= u32_max;
  st_size_range w : st_ok w -> 0 <= st_size w <= u64_max;
  st_content_length w p bs : st_ok w -> st_content w p = Some bs -> Z.of_nat (length bs) = ps;
  st_read_law w p : st_ok w ->
    st_keeps w (st_read p w).1 /\
    forall o, (st_read p w).2 = Ok o -> fst <$> o = st_content w p;
  st_write_law w p bs : st_ok w -> Z.of_nat (length bs) = ps ->
    st_puts p (Some bs) w (st_write p bs w).1 /\
    forall o, (st_write p bs w).2 = Ok o -> st_content (st_write p bs w).1 p = Some bs;
  st_clear_law w p : st_ok w -> (Z.of_nat p + 1) * ps <= st_size w ->
    st_puts p None w (st_clear p w).1 /\
    ((st_clear p w).2 = Ok tt -> st_content (st_clear p w).1 p = None);
  st_sync_law w : st_ok w -> st_keeps w (st_sync w).1;
  st_persist_law w : st_ok w -> st_keeps w (st_persist_runtime w).1;
  st_retry_law w range : st_ok w -> st_keeps w (st_retry range w).1;
  st_le_order :: PreOrder st_le;
}.

Section proofs.
Context {W : Type} (ps : Z) `{PageStoreLaws W ps}.
Implicit Types c : PageCache W.

Lemma puts_keeps p x (w w1 w2 : W) : st_puts p x w w1 -> st_keeps w1 w2 -> st_puts p x w w2.
Proof.
  intros [H1 H2 H3 H4 H5] [K1 K2 K3 K4]. split; [done|congruence| | |by etrans].
  - intros q Hq. rewrite K3. auto.
  - by rewrite K3.
Qed.

Lemma keeps_puts p x (w w1 w2 : W) : st_keeps w w1 -> st_puts p x w1 w2 -> st_puts p x w w2.
Proof.
  intros [K1 K2 K3 K4] [H1 H2 H3 H4 H5]. split; [done|congruence| | |by etrans].
  - intros q Hq. rewrite H3 by done. auto.
  - by rewrite <- (K3 p).
Qed.

Definition stored (w : W) (p : nat) : list Z := default (zeros ps) (st_content w p).

Definition page_bytes c (p : nat) : list Z :=
  match view (inner c) !! p with Some (b, _, _) => b | None => stored (writer c) p end.

Record cache_ok c : Prop := {
  ck_lru : exists l, inner_wf (inner c) l;
  ck_store : st_ok (writer c);
  ck_page : cache_page_size c = ps;
  ck_len p b st v : view (inner c) !! p = Some (b, st, v) -> Z.of_nat (length b) = ps;
  ck_clean p b v : view (inner c) !! p = Some (b, Clean, v) -> b = stored (writer c) p;
  ck_budget : (size (view (inner c)) <= budget_pages c)%nat;
  ck_room : (1 <= budget_pages c)%nat;
}.

Record same_config c c' : Prop := {
  sc_page : cache_page_size c' = cache_page_size c;
  sc_sector : cache_sector_size c' = cache_sector_size c;
  sc_budget : budget_pages c' = budget_pages c;
  sc_flushes : max_concurrent_flushes c' = max_concurrent_flushes c;
  sc_size : st_size (writer c') = st_size (writer c);
  sc_le : st_le (writer c) (writer c');
}.

Lemma same_config_trans c1 c2 c3 : same_config c1 c2 -> same_config c2 c3 -> same_config c1 c3.
Proof. intros [] []. split; (congruence || by etrans). Qed.

(** A step that changes one page to [x], or none. *)
Record changes (f : nat -> list Z -> list Z) c c' : Prop := {
  ch_ok : cache_ok c';
  ch_conf : same_config c c';
  ch_bytes p : page_bytes c' p = f p (page_bytes c p);
}.

Definition keeps : PageCache W -> PageCache W -> Prop := changes (fun _ b => b).

Lemma keeps_refl c : cache_ok c -> keeps c c.
Proof. by split. Qed.

Lemma keeps_changes f c1 c2 c3 : keeps c1 c2 -> changes f c2 c3 -> changes f c1 c3.
Proof.
  intros [H1 H2 H3] [H4 H5 H6]. split; [done|by eapply same_config_trans|]. intros p. by rewrite H6, H3.
Qed.

Lemma changes_keeps f c1 c2 c3 : changes f c1 c2 -> keeps c2 c3 -> changes f c1 c3.
Proof.
  intros [H1 H2 H3] [H4 H5 H6]. split; [done|by eapply same_config_trans|]. intros p. by rewrite H6, H3.
Qed.

Lemma stored_length w p : st_ok w -> Z.of_nat (length (stored w p)) = ps.
Proof.
  intros Hw. unfold stored. destruct (st_content w p) as [bs|] eqn:E; simpl.
  - by eapply st_content_length.
  - unfold zeros. rewrite length_replicate. pose proof (st_page_pos (W:=W)). lia.
Qed.

Lemma page_bytes_length c p : cache_ok c -> Z.of_nat (length (page_bytes c p)) = ps.
Proof.
  intros Hc. unfold page_bytes. destruct (view (inner c) !! p) as [[[b st] v]|] eqn:E.
  - by eapply ck_len.
  - apply stored_length, Hc.
Qed.

(** The components the invariant is about. *)
Lemma ok_build c c' :
  cache_ok c -> same_config c c' -> (exists l, inner_wf (inner c') l) -> st_ok (writer c') ->
  (forall p b st v, view (inner c') !! p = Some (b, st, v) ->
     Z.of_nat (length b) = ps /\ (st = Clean -> b = stored (writer c') p)) ->
  (size (view (inner c')) <= budget_pages c)%nat -> cache_ok c'.
Proof.
  intros Hc [Ep _ Eb _ _] Hl Hw Hv Hs. pose proof (ck_page _ Hc). pose proof (ck_room _ Hc).
  split; try done; try congruence.
  - intros p b st v Hp. by apply (Hv _ _ _ _ Hp).
  - intros p b v Hp. by apply (Hv _ _ _ _ Hp).
Qed.

Lemma view_size (i : CacheInner) : size (view i) = size (pages i).
Proof. apply map_size_fmap. Qed.

(** *** Steps that change neither pages nor volume *)

Lemma keeps_frame c c' :
  cache_ok c -> writer c' = writer c -> inner c' = inner c -> same_config c c' -> keeps c c'.
Proof.
  intros Hc Ew Ei Hs. split; [|done|].
  - apply (ok_build c); try done; rewrite ?Ew, ?Ei; try apply Hc.
    intros p b st v Hp. split; [by eapply ck_len|]. intros ->. by eapply ck_clean.
  - intros p. unfold page_bytes. by rewrite Ew, Ei.
Qed.

Lemma bump_keeps add n c : cache_ok c -> exists c', bump add n c = (c', Ok tt) /\ keeps c c'.
Proof.
  intros Hc. unfold bump. destruct (n =? 0); eexists; (split; [reflexivity|]).
  - by apply keeps_refl.
  - by apply keeps_frame.
Qed.

Lemma signal_keeps c : cache_ok c -> exists c', maybe_signal_worker c = (c', Ok tt) /\ keeps c c'.
Proof.
  intros Hc. eexists. split; [reflexivity|]. simpl. case_match; [by apply keeps_frame|by apply keeps_refl].
Qed.

Lemma bump_put_keeps o c : cache_ok c -> exists c', bump_put o c = (c', Ok tt) /\ keeps c c'.
Proof. intros Hc. destruct o; [by apply bump_keeps|]. eexists. split; [reflexivity|by apply keeps_refl]. Qed.

(** *** Volume calls *)

Lemma keeps_writer c w : cache_ok c -> st_keeps (writer c) w -> keeps c (with_writer w c).
Proof.
  intros Hc [Ho Hs Hw]. assert (forall p, stored w p = stored (writer c) p) as Hst
    by (intros p; unfold stored; by rewrite Hw).
  split; [|by split|].
  - apply (ok_build c); try done; try apply Hc. simpl. intros p b st v Hp. rewrite Hst.
    split; [by eapply ck_len|]. intros ->. by eapply ck_clean.
  - intros p. unfold page_bytes. simpl. by rewrite Hst.
Qed.

(** A write of the bytes a cached page has. *)
Lemma keeps_write_back c p b st v w :
  cache_ok c -> view (inner c) !! p = Some (b, st, v) -> st_puts p (Some b) (writer c) w ->
  keeps c (with_writer w c).
Proof.
  intros Hc Hp [Ho Hs Hq Hx]. split; [|by split|].
  - apply (ok_build c); try done; try apply Hc. simpl. intros q b' st' v' Hv.
    split; [by eapply ck_len|]. intros ->. pose proof (ck_clean _ Hc _ _ _ Hv) as Hcl.
    destruct (decide (q = p)) as [->|Hne]; [|by unfold stored; rewrite Hq].
    rewrite Hp in Hv. injection Hv as -> -> ->. unfold stored in *. by destruct Hx as [->| ->].
  - intros q. unfold page_bytes. simpl. destruct (decide (q = p)) as [->|Hne]; [by rewrite Hp|].
    unfold stored. by rewrite Hq.
Qed.

(** ** Pages *)

(** Dropping a page whose bytes the volume has. *)
Lemma keeps_drop c i p :
  cache_ok c -> (exists l, inner_wf i l) -> view i = delete p (view (inner c)) ->
  page_bytes c p = stored (writer c) p -> keeps c (with_inner i c).
Proof.
  intros Hc Hl Hv Hp. split; [|by split|].
  - apply (ok_build c); try done; try apply Hc; simpl; rewrite Hv.
    + intros q b st v [_ Hq]%lookup_delete_Some. split; [by eapply ck_len|]. intros ->. by eapply ck_clean.
    + etrans; [apply map_subseteq_size, delete_subseteq|apply Hc].
  - intros q. unfold page_bytes in *. simpl. rewrite Hv. destruct (decide (q = p)) as [->|Hne].
    + by rewrite lookup_delete_eq.
    + by rewrite lookup_delete_ne.
Qed.

Lemma pick_in (i : CacheInner) l co p :
  inner_wf i l -> lru_pick i co = Some (Some p) ->
  exists b st v, view i !! p = Some (b, st, v) /\ evictable i co p.
Proof.
  intros Hl Hp. rewrite (lru_pick_spec _ _ _ Hl) in Hp. injection Hp as Hp.
  apply last_Some_elem_of, list_elem_of_filter in Hp as [He Hin].
  apply inner_wf_elim in Hl as (_ & Hd & _). apply Hd in Hin as [[[b st] v] Hx]. eauto 10.
Qed.

Lemma pick_none (i : CacheInner) l : inner_wf i l -> lru_pick i false = Some None -> view i = ∅.
Proof.
  intros Hl Hp. rewrite (lru_pick_spec _ _ _ Hl) in Hp. injection Hp as Hp.
  apply last_None in Hp. apply inner_wf_elim in Hl as (_ & Hd & _). apply map_empty. intros p.
  destruct (view i !! p) as [x|] eqn:E; [|done]. assert (p ∈ l) as Hin by (apply Hd; eauto).
  exfalso. apply (not_elem_of_nil (p)). rewrite <- Hp. apply list_elem_of_filter. split; [by left|done].
Qed.

Definition roomy (wanted : nat) c : Prop :=
  (size (view (inner c)) + wanted <= budget_pages c)%nat \/ view (inner c) = ∅.

(** The victim of a turn, and that dropping it makes progress. *)
Lemma evict_step_spec c wanted :
  cache_ok c ->
  match evict_step c wanted with
  | StepDone => roomy wanted c
  | StepCleaned i => keeps c (with_inner i c) /\ (size (view i) < size (view (inner c)))%nat
  | StepDrift _ => False
  | StepDirty p b v => exists st, view (inner c) !! p = Some (b, st, v)
  end.
Proof.
  intros Hc. destruct (ck_lru _ Hc) as [l Hl]. unfold evict_step.
  destruct (_ <=? _)%nat eqn:E; [left; apply Nat.leb_le in E; by rewrite view_size|].
  assert (Hno : match lru_pick (inner c) false with
      | Some (Some pid) => match pages (inner c) !! pid with
          | Some entry => exists st, view (inner c) !! pid = Some (bytes entry, st, version entry)
          | None => False end
      | _ => roomy wanted c end).
  { rewrite (lru_pick_spec _ _ _ Hl). destruct (last _) as [p|] eqn:Ep.
    - destruct (pick_in (inner c) l false p Hl) as (b & st & v & Hv & _); [by rewrite (lru_pick_spec _ _ _ Hl), Ep|].
      apply view_state in Hv as Hv'. destruct Hv' as (e & -> & <- & <- & <-). eauto.
    - right. eapply pick_none; [done|]. by rewrite (lru_pick_spec _ _ _ Hl), Ep. }
  destruct (lru_pick (inner c) true) as [[p|]|] eqn:Ep.
  - destruct (pick_in _ _ _ _ Hl Ep) as (b & st & v & Hv & [He|He]); [done|].
    destruct (drop_entry_wf (inner c) l p Hl) as [Hw' Hd]. split.
    + apply (keeps_drop _ _ p); [done|by eexists|done|]. unfold page_bytes. rewrite Hv. destruct st.
      * by eapply ck_clean.
      * destruct He. by exists b, v.
    + rewrite Hd, map_size_delete, Hv. pose proof (map_size_ne_0_lookup_2 (view (inner c)) p ltac:(eauto)). lia.
  - repeat case_match; try done.
  - repeat case_match; try done.
Qed.

(** Writing a cached page back and dropping it. *)
Lemma evict_dirty_spec c p b st v :
  cache_ok c -> view (inner c) !! p = Some (b, st, v) ->
  exists c' r, (out ← on_writer (st_write p b); bump_put (put_bytes out);;
                on_inner (fun i => commit_evicted i p v)) c = (c', r) /\
  keeps c c' /\ (r = Ok tt -> (size (view (inner c')) < size (view (inner c)))%nat).
Proof.
  intros Hc Hv. rewrite run_bind. unfold on_writer, zoom.
  destruct (st_write_law (writer c) p b (ck_store _ Hc)) as [Hp Hok]; [by eapply ck_len|].
  destruct (st_write p b (writer c)) as [w r]. simpl in *.
  pose proof (keeps_write_back c p b st v w Hc Hv Hp) as Hk1. destruct r as [o|err]; [|by eexists _, _].
  specialize (Hok o eq_refl).
  rewrite run_bind. destruct (bump_put_keeps (put_bytes o) (with_writer w c)) as (c2 & Ec2 & Hk2); [apply Hk1|].
  rewrite Ec2. assert (inner c2 = inner c /\ writer c2 = w) as [Ei Ew].
  { unfold bump_put, bump_backend_bytes_written, bump in Ec2. destruct (put_bytes o) as [n|].
    - destruct (n =? 0); injection Ec2 as <-; done.
    - injection Ec2 as <-. done. }
  eexists _, _. split; [reflexivity|]. pose proof (ch_ok _ _ _ Hk2) as Hc2. destruct (ck_lru _ Hc2) as [l Hl].
  destruct (commit_evicted_wf (inner c2) l p v Hl) as (l' & Hl' & _ & Hv').
  rewrite Ei, Hv, Z.eqb_refl in Hv'. rewrite Ei in *. simpl. split.
  - eapply keeps_changes; [exact Hk1|]. eapply keeps_changes; [exact Hk2|].
    apply (keeps_drop _ _ p); [done|by eexists|by rewrite Ei|].
    unfold page_bytes, stored. by rewrite Ei, Ew, Hv, Hok.
  - intros _. rewrite Hv', map_size_delete, Hv.
    pose proof (map_size_ne_0_lookup_2 (view (inner c)) p ltac:(eauto)). lia.
Qed.

Lemma evict_turns_spec fuel wanted c :
  cache_ok c -> (size (view (inner c)) < fuel)%nat ->
  exists c' r, evict_turns fuel wanted c = (c', r) /\ keeps c c' /\ (r = Ok tt -> roomy wanted c').
Proof.
  revert c. induction fuel as [|fuel IH]; intros c Hc Hf; [lia|].
  cbn [evict_turns]. rewrite run_bind. cbn [get]. pose proof (evict_step_spec c wanted Hc) as Hs.
  destruct (evict_step c wanted) as [|i|i|p b v]; [| |done|].
  - eexists _, _. split; [reflexivity|]. split; [by apply keeps_refl|done].
  - destruct Hs as [Hk Hlt]. rewrite run_bind. simpl.
    destruct (IH (with_inner i c)) as (c' & r & E & Hk' & Hr); [apply Hk|simpl; lia|].
    eexists _, _. split; [exact E|]. split; [by eapply keeps_changes|done].
  - destruct Hs as [st Hv]. destruct (evict_dirty_spec c p b st v Hc Hv) as (c1 & r1 & E1 & Hk1 & Hr1).
    rewrite run_bind in E1 |- *. destruct (on_writer (st_write p b) c) as [c2 [o|e]];
      [|injection E1 as <- <-; by eexists _, _].
    rewrite run_bind in E1 |- *. destruct (bump_put (put_bytes o) c2) as [c3 [[]|e]];
      [|injection E1 as <- <-; by eexists _, _].
    rewrite run_bind. rewrite E1. injection E1 as <- <-. specialize (Hr1 eq_refl). simpl in Hr1.
    destruct (IH _ (ch_ok _ _ _ Hk1)) as (c' & r & E & Hk' & Hr); [simpl; lia|].
    eexists _, _. split; [exact E|]. split; [by eapply keeps_changes|done].
Qed.

Lemma evict_to_fit_spec wanted c :
  cache_ok c -> exists c' r, evict_to_fit wanted c = (c', r) /\ keeps c c' /\ (r = Ok tt -> roomy wanted c').
Proof.
  intros Hc. unfold evict_to_fit. rewrite run_bind. cbn [get]. apply evict_turns_spec; [done|].
  rewrite view_size. lia.
Qed.

Definition put_page (p : nat) (b : list Z) : nat -> list Z -> list Z :=
  fun q x => if bool_decide (q = p) then b else x.

Lemma changes_put c i p b st v :
  cache_ok c -> (exists l, inner_wf i l) -> view i = <[p := (b, st, v)]> (view (inner c)) ->
  Z.of_nat (length b) = ps -> (st = Clean -> b = stored (writer c) p) ->
  is_Some (view (inner c) !! p) \/ roomy 1 c -> changes (put_page p b) c (with_inner i c).
Proof.
  intros Hc Hl Hv Hb Hcl Hr. split; [|by split|].
  - apply (ok_build c); try done; try apply Hc; simpl; rewrite Hv.
    + intros q b' st' v' [[<- [= <- <- <-]]|[_ Hq]]%lookup_insert_Some; [done|].
      split; [by eapply ck_len|]. intros ->. by eapply ck_clean.
    + rewrite map_size_insert. pose proof (ck_budget _ Hc). pose proof (ck_room _ Hc).
      destruct (view (inner c) !! p) eqn:E; [done|].
      destruct Hr as [[? ?]|[Hr|Hr]]; [done|lia|]. rewrite Hr, map_size_empty. lia.
  - intros q. unfold put_page, page_bytes. simpl. rewrite Hv. case_bool_decide as Hq; subst.
    + by rewrite lookup_insert_eq.
    + by rewrite lookup_insert_ne.
Qed.

Lemma put_same c c' p : changes (put_page p (page_bytes c p)) c c' -> keeps c c'.
Proof.
  intros [H1 H2 H3]. split; [done..|]. intros q. rewrite H3. unfold put_page. by case_bool_decide; subst.
Qed.

(** A touched page. *)
Lemma keeps_touch c p :
  cache_ok c -> is_Some (view (inner c) !! p) ->
  keeps c (with_inner (lru_touch (inner c) p) c) /\ view (lru_touch (inner c) p) = view (inner c).
Proof.
  intros Hc [[[b st] v] Hv]. destruct (ck_lru _ Hc) as [l Hl]. destruct (lru_touch_view (inner c) p) as [Ev _].
  split; [|done]. apply view_state in Hv as Hv'. destruct Hv' as (e & He & _).
  pose proof (lru_touch_wf _ _ p Hl ltac:(eauto)) as Hw.
  apply (put_same _ _ p). unfold page_bytes. rewrite Hv. apply (changes_put _ _ _ _ st v); eauto.
  - by rewrite Ev, insert_id.
  - by eapply ck_len.
  - intros ->. by eapply ck_clean.
Qed.

Lemma load_spec c p :
  cache_ok c -> view (inner c) !! p = None ->
  exists c' r, load_page_miss p c = (c', r) /\ keeps c c' /\
    forall b, r = Ok b -> b = page_bytes c p /\ is_Some (view (inner c') !! p).
Proof.
  intros Hc Hp. unfold load_page_miss. rewrite run_bind. cbn [get]. rewrite run_bind. unfold on_writer, zoom.
  destruct (st_read_law (writer c) p (ck_store _ Hc)) as [Hk Hr].
  destruct (st_read p (writer c)) as [w r]. simpl in Hk, Hr. pose proof (keeps_writer _ _ Hc Hk) as Hk1.
  destruct r as [o|err]; [|by eexists _, _]. specialize (Hr o eq_refl).
  rewrite run_bind.
  assert (exists c2, (match o with
     | Some (bs, n) => bump_backend_bytes_read n;; mret bs
     | None => mret (zeros (cache_page_size c)) end) (with_writer w c) = (c2, Ok (page_bytes c p)) /\ keeps c c2)
    as (c2 & -> & Hk2).
  { unfold page_bytes, stored. rewrite Hp, <- Hr. destruct o as [[bs n]|]; simpl.
    - rewrite run_bind. destruct (bump_keeps add_backend_read n (with_writer w c)) as (c2 & E & Hk2); [apply Hk1|].
      unfold bump_backend_bytes_read. rewrite E. eexists. split; [reflexivity|]. by eapply keeps_changes.
    - rewrite (ck_page _ Hc). by eexists. }
  rewrite page_bytes_length, (ck_page _ Hc), Z.eqb_refl by done. simpl.
  rewrite run_bind. destruct (evict_to_fit_spec 1 c2 (ch_ok _ _ _ Hk2)) as (c3 & r3 & -> & Hk3 & Hr3).
  assert (keeps c c3) as Hk4 by (by eapply keeps_changes). destruct r3 as [[]|err]; [|by eexists _, _].
  specialize (Hr3 eq_refl). rewrite run_bind. cbn [get].
  pose proof (ch_ok _ _ _ Hk4) as Hc3. destruct (ck_lru _ Hc3) as [l Hl].
  destruct (commit_loaded_wf (inner c3) l p (page_bytes c p) Hl) as (Hw & Hv & Hout).
  destruct (commit_loaded (inner c3) p (page_bytes c p)) as [i out]. simpl in *.
  rewrite run_bind. simpl. eexists _, _. split; [reflexivity|].
  assert (out = page_bytes c p /\ exists st v, view i = <[p := (page_bytes c p, st, v)]> (view (inner c3)) /\
    (st = Clean -> page_bytes c p = stored (writer c3) p)) as (-> & st & v & Hvi & Hcl).
  { pose proof (ch_bytes _ _ _ Hk4 p) as Hb. unfold page_bytes at 1 in Hb.
    destruct (view (inner c3) !! p) as [[[b st] v]|] eqn:E.
    - subst b. rewrite Hb. split; [done|]. rewrite Hb in E. exists st, v. rewrite Hv, insert_id by done. split; [done|].
      intros ->. by eapply ck_clean.
    - split; [done|]. exists Clean, 0. by rewrite Hv, Hb. }
  split; [|intros b [= <-]; split; [done|]; simpl; rewrite Hvi, lookup_insert_eq; eauto].
  eapply keeps_changes; [exact Hk4|]. apply (put_same _ _ p). rewrite (ch_bytes _ _ _ Hk4).
  apply (changes_put _ _ _ _ st v); eauto. by apply page_bytes_length.
Qed.

Lemma acquire_spec c p :
  cache_ok c ->
  exists c' r, acquire_page p c = (c', r) /\ keeps c c' /\
    forall b, r = Ok b -> b = page_bytes c p /\ is_Some (view (inner c') !! p).
Proof.
  intros Hc. unfold acquire_page. rewrite run_bind. cbn [get].
  destruct (pages (inner c) !! p) as [e|] eqn:E.
  - assert (view (inner c) !! p = Some (payload e)) as Hv by (by rewrite lookup_view, E).
    destruct (keeps_touch c p Hc ltac:(eauto)) as [Hk Hvt]. rewrite run_bind. simpl.
    eexists _, _. split; [reflexivity|]. split; [done|]. intros b [= <-]. simpl. rewrite Hvt.
    unfold page_bytes. rewrite Hv. eauto.
  - apply load_spec; [done|]. by rewrite lookup_view, E.
Qed.

Lemma install_spec c p bs :
  cache_ok c -> Z.of_nat (length bs) = ps ->
  exists c' r, install_full_page p bs c = (c', r) /\
    (r = Ok tt /\ changes (put_page p bs) c c' \/ (exists e, r = Err e) /\ keeps c c').
Proof.
  intros Hc Hb. unfold install_full_page. rewrite run_bind. cbn [get].
  rewrite (ck_page _ Hc), Hb, Z.eqb_refl. simpl. rewrite run_bind.
  assert (exists c1 r, (if bool_decide (is_Some (pages (inner c) !! p)) then mret tt else evict_to_fit 1) c = (c1, r) /\
    keeps c c1 /\ (r = Ok tt -> is_Some (view (inner c1) !! p) \/ roomy 1 c1)) as (c1 & r & -> & Hk & Hr).
  { case_bool_decide as Hp.
    - eexists _, _. split; [reflexivity|]. split; [by apply keeps_refl|]. intros _. left.
      by rewrite lookup_view, fmap_is_Some.
    - destruct (evict_to_fit_spec 1 c Hc) as (c1 & r & -> & Hk & Hr). eexists _, _. split; [reflexivity|]. eauto. }
  destruct r as [[]|e]; [|eexists _, _; split; [reflexivity|]; right; eauto]. specialize (Hr eq_refl).
  rewrite run_bind. simpl. pose proof (ch_ok _ _ _ Hk) as Hc1. destruct (ck_lru _ Hc1) as [l Hl].
  set (e0 := default (mkEntry [] Clean 0 None None) (pages (inner c1) !! p)).
  destruct (put_dirty_wf (inner c1) l p e0 bs Hl eq_refl) as [Hw Hv].
  assert (changes (put_page p bs) c1 (with_inner (commit_install (inner c1) p bs) c1)) as Hch.
  { apply (changes_put _ _ _ _ Dirty (wrap64 (version e0 + 1))); try done. by eexists. }
  destruct (signal_keeps _ (ch_ok _ _ _ Hch)) as (c2 & -> & Hk2). eexists _, _. split; [reflexivity|]. left.
  split; [done|]. eapply changes_keeps; [|exact Hk2]. by eapply keeps_changes.
Qed.

Lemma splice_length off (src dst : list Z) :
  (off + length src <= length dst)%nat -> length (splice_bytes off src dst) = length dst.
Proof. intros Hl. unfold splice_bytes. rewrite !length_app, length_take, length_drop. lia. Qed.

Lemma splice_spec c p off bs :
  cache_ok c -> is_Some (view (inner c) !! p) -> (off + length bs <= Z.to_nat ps)%nat ->
  exists i c', commit_splice (inner c) p off bs = Some i /\
    maybe_signal_worker (with_inner i c) = (c', Ok tt) /\
    changes (put_page p (splice_bytes off bs (page_bytes c p))) c c'.
Proof.
  intros Hc [x Hv] Hl. rewrite lookup_view in Hv. unfold commit_splice. unfold page_bytes at 1.
  destruct (pages (inner c) !! p) as [e|] eqn:E; [|done]. destruct (ck_lru _ Hc) as [l Hw].
  assert (view (inner c) !! p = Some (payload e)) as Hv' by (by rewrite lookup_view, E). rewrite Hv'. simpl.
  destruct (put_dirty_wf (inner c) l p e (splice_bytes off bs (bytes e)) Hw) as [Hw' Hvn]; [by rewrite E|].
  set (i := put_dirty (inner c) p e _) in *.
  assert (changes (put_page p (splice_bytes off bs (bytes e))) c (with_inner i c)) as Hch.
  { pose proof (ck_len _ Hc _ _ _ _ Hv'). apply (changes_put _ _ _ _ Dirty (wrap64 (version e + 1))); try done.
    - by eexists.
    - simpl in *. rewrite splice_length; lia.
    - left; eauto. }
  destruct (signal_keeps _ (ch_ok _ _ _ Hch)) as (c' & Es & Hk). exists i, c'. split; [done|]. split; [done|].
  by eapply changes_keeps.
Qed.

Lemma modify_spec c p off bs :
  cache_ok c -> (off + length bs <= Z.to_nat ps)%nat ->
  exists c' r, modify_page p off bs c = (c', r) /\
    (r = Ok tt /\ changes (put_page p (splice_bytes off bs (page_bytes c p))) c c' \/
     (exists e, r = Err e) /\ keeps c c').
Proof.
  intros Hc Hl. unfold modify_page. rewrite run_bind. cbn [get].
  destruct (view (inner c) !! p) as [x|] eqn:Hv.
  - destruct (splice_spec c p off bs Hc ltac:(eauto) Hl) as (i & c' & -> & Es & Hch). rewrite run_bind. simpl.
    eexists _, _. split; [exact Es|]. by left.
  - assert (commit_splice (inner c) p off bs = None) as ->.
    { unfold commit_splice. rewrite lookup_view in Hv. by destruct (pages (inner c) !! p). }
    rewrite run_bind. destruct (acquire_spec c p Hc) as (c1 & r & -> & Hk & Hr).
    destruct r as [b|e]; [|eexists _, _; split; [reflexivity|]; right; eauto].
    destruct (Hr b eq_refl) as [_ Hs]. rewrite run_bind. cbn [get].
    destruct (splice_spec c1 p off bs (ch_ok _ _ _ Hk) Hs Hl) as (i & c' & -> & Es & Hch). rewrite run_bind. simpl.
    eexists _, _. split; [exact Es|]. left. split; [done|].
    rewrite <- (ch_bytes _ _ _ Hk). by eapply keeps_changes.
Qed.

(** A page rewritten under its dropped cache entry. *)
Lemma drop_replace c p x w :
  cache_ok c -> st_puts p x (writer c) w ->
  changes (put_page p (stored w p)) c (with_writer w (with_inner (drop_entry (inner c) p).1 c)).
Proof.
  intros Hc [Ho Hs Hq Hx]. destruct (ck_lru _ Hc) as [l Hl].
  destruct (drop_entry_wf (inner c) l p Hl) as [Hw Hv]. split; [|by split|].
  - apply (ok_build c); try done; simpl; [by eexists| |].
    + intros q b' st v. rewrite Hv. intros [Hne Hq']%lookup_delete_Some.
      split; [by eapply ck_len|]. intros ->. unfold stored. rewrite Hq by done. by apply (ck_clean _ Hc q b' v).
    + rewrite Hv. etrans; [apply map_subseteq_size, delete_subseteq|apply Hc].
  - intros q. unfold put_page, page_bytes. simpl. rewrite Hv. case_bool_decide as E; subst.
    + by rewrite lookup_delete_eq.
    + rewrite lookup_delete_ne by done. unfold stored. by rewrite Hq.
Qed.

Lemma unmap_page_spec c p :
  cache_ok c -> (Z.of_nat p + 1) * ps <= st_size (writer c) ->
  exists c' r, unmap_full_page p c = (c', r) /\
    (changes (put_page p (zeros ps)) c c' \/
     (exists e, r = Err e) /\ changes (put_page p (stored (writer c) p)) c c').
Proof.
  intros Hc Hp. unfold unmap_full_page. rewrite run_bind. simpl. unfold on_writer, zoom. simpl.
  destruct (st_clear_law (writer c) p (ck_store _ Hc) Hp) as [Hk Hr].
  destruct (st_clear p (writer c)) as [w r]. simpl in *. eexists _, _. split; [reflexivity|].
  pose proof (drop_replace c p _ w Hc Hk) as Hch. unfold stored at 1 in Hch.
  destruct r as [[]|e]; [rewrite (Hr eq_refl) in Hch; by left|].
  destruct (sp_page _ _ _ _ Hk) as [Hx|Hx]; rewrite Hx in Hch; [right; eauto|by left].
Qed.
End proofs.
