(* ===== verification/CacheBytes.v ===== *)
(** * The byte operations of the cache

    Reads, writes, COMPARE AND WRITE and UNMAP as operations on the array of
    bytes the cache and the volume hold together; page boundaries, read
    and write paths, evictions and write-backs do not show. *)

From S2P Require Import Prelude StateError PageLru Crypto VolumeWriter PageCache PageCacheProofs.

Local Open Scope Z_scope.

(** [data] over the bytes [f] from [off] on. *)
Definition overlay (off : Z) (data : list Z) (f : Z -> Z) (i : Z) : Z :=
  if bool_decide (off <= i < off + Z.of_nat (length data))
  then default 0 (data !! Z.to_nat (i - off)) else f i.

Lemma overlay_nil off f i : overlay off [] f i = f i.
Proof. unfold overlay. rewrite bool_decide_eq_false_2; [done|]. simpl. lia. Qed.

Lemma overlay_out off data f i :
  ~ (off <= i < off + Z.of_nat (length data)) -> overlay off data f i = f i.
Proof. intros Hi. unfold overlay. by rewrite bool_decide_eq_false_2. Qed.

Lemma overlay_app off a b f i :
  overlay off (a ++ b) f i = overlay (off + Z.of_nat (length a)) b (overlay off a f) i.
Proof.
  unfold overlay. rewrite length_app, lookup_app.
  repeat case_bool_decide; try lia; try done.
  - rewrite lookup_ge_None_2 by lia. do 2 f_equal. lia.
  - destruct (lookup_lt_is_Some_2 a (Z.to_nat (i - off))) as [x ->]; [lia|done].
Qed.

Lemma overlay_ext off data f g i : f i = g i -> overlay off data f i = overlay off data g i.
Proof. intros Hf. unfold overlay. by case_bool_decide. Qed.

(** The bytes of [f] in a range. *)
Definition slice_of (f : Z -> Z) (off : Z) (n : nat) : list Z :=
  map (fun k => f (off + Z.of_nat k)) (seq 0 n).

Lemma slice_of_length f off n : length (slice_of f off n) = n.
Proof. unfold slice_of. by rewrite length_map, length_seq. Qed.

Lemma slice_of_lookup f off n k : (k < n)%nat -> slice_of f off n !! k = Some (f (off + Z.of_nat k)).
Proof.
  intros Hk. unfold slice_of. rewrite list_lookup_fmap, lookup_seq_lt by done. simpl. do 2 f_equal.
Qed.

Lemma slice_of_app f off m n :
  slice_of f off (m + n) = slice_of f off m ++ slice_of f (off + Z.of_nat m) n.
Proof.
  apply (list_eq_same_length _ _ (m + n)); [rewrite length_app, !slice_of_length; lia|apply slice_of_length|].
  intros k x y Hk. rewrite slice_of_lookup by done. rewrite lookup_app.
  destruct (decide (k < m)%nat) as [Hm|Hm].
  - rewrite slice_of_lookup by done. congruence.
  - rewrite lookup_ge_None_2 by (rewrite slice_of_length; lia).
    rewrite slice_of_length, slice_of_lookup by lia. intros [= <-] [= <-]. f_equal. lia.
Qed.

Lemma slice_of_ext f g off n :
  (forall i, off <= i < off + Z.of_nat n -> f i = g i) -> slice_of f off n = slice_of g off n.
Proof.
  intros Hf. apply map_ext_in. intros k Hk%in_seq. apply Hf. lia.
Qed.

Lemma splice_lookup off (src dst : list Z) r :
  (off + length src <= length dst)%nat ->
  splice_bytes off src dst !! r =
    if bool_decide (off <= r < off + length src)%nat then src !! (r - off)%nat else dst !! r.
Proof.
  intros Hl. unfold splice_bytes. destruct (decide (r < off)%nat) as [H1|H1].
  - rewrite lookup_app_l by (rewrite length_take; lia). rewrite lookup_take_lt by done.
    by rewrite bool_decide_eq_false_2 by lia.
  - rewrite lookup_app_r by (rewrite length_take; lia). rewrite length_take, Nat.min_l by lia.
    destruct (decide (r < off + length src)%nat) as [H2|H2].
    + rewrite lookup_app_l by lia. by rewrite bool_decide_eq_true_2 by lia.
    + rewrite lookup_app_r, lookup_drop by lia. rewrite bool_decide_eq_false_2 by lia. f_equal. lia.
Qed.

Lemma splice_full (src dst : list Z) : length src = length dst -> splice_bytes 0 src dst = src.
Proof. intros Hl. unfold splice_bytes. rewrite take_0, Nat.add_0_l, Hl, drop_all. apply app_nil_r. Qed.

Section bytes.
Context {W : Type} (ps : Z) `{PageStoreLaws W ps}.
Implicit Types c : PageCache W.

Notation cache_ok := (cache_ok ps).
Notation keeps := (keeps ps).
Notation changes := (changes ps).
Notation page_bytes := (page_bytes ps).

(** The array of bytes. *)
Definition byte_at c (i : Z) : Z :=
  default 0 (page_bytes c (Z.to_nat (i / ps)) !! Z.to_nat (i mod ps)).

Lemma keeps_byte c c' i : keeps c c' -> byte_at c' i = byte_at c i.
Proof. intros Hk. unfold byte_at. by rewrite (ch_bytes _ _ _ _ Hk). Qed.

Lemma page_split i p r : 0 < ps -> 0 <= r < ps -> i = p * ps + r -> i / ps = p /\ i mod ps = r.
Proof.
  intros Hp Hr ->. rewrite Z.div_add_l, Z.div_small, (Z.add_comm (p * ps)), Z_mod_plus_full, Z.mod_small by lia. lia.
Qed.

(** A spliced page is the data laid over the bytes. *)
Lemma put_overlay c c' p off bs i :
  cache_ok c -> changes (put_page p (splice_bytes off bs (page_bytes c p))) c c' ->
  (off + length bs <= Z.to_nat ps)%nat -> 0 <= i ->
  byte_at c' i = overlay (Z.of_nat p * ps + Z.of_nat off) bs (byte_at c) i.
Proof.
  intros Hc Hch Hl Hi. pose proof (st_page_pos (W:=W) (ps:=ps)) as Hp.
  pose proof (Z.div_mod i ps ltac:(lia)) as Hdm. pose proof (Z.mod_pos_bound i ps Hp) as Hm.
  pose proof (Z.div_pos i ps Hi Hp) as Hd. unfold byte_at at 1. rewrite (ch_bytes _ _ _ _ Hch).
  unfold put_page. case_bool_decide as Hq.
  - rewrite splice_lookup by (pose proof (page_bytes_length ps c p Hc); lia).
    assert (i / ps = Z.of_nat p) as Hip by lia. unfold overlay. rewrite Hip in Hdm.
    case_bool_decide as H1; case_bool_decide as H2; try lia.
    + do 2 f_equal. lia.
    + unfold byte_at. by rewrite Hip, Nat2Z.id.
  - rewrite overlay_out; [done|]. intros Hr. apply Hq.
    destruct (page_split i (Z.of_nat p) (i - Z.of_nat p * ps)) as [E _]; lia.
Qed.

(** The bytes of a page. *)
Lemma page_slice c p off n :
  cache_ok c -> (off + n <= Z.to_nat ps)%nat ->
  take n (drop off (page_bytes c p)) = slice_of (byte_at c) (Z.of_nat p * ps + Z.of_nat off) n.
Proof.
  intros Hc Hl. pose proof (st_page_pos (W:=W) (ps:=ps)) as Hp. pose proof (page_bytes_length ps c p Hc) as Hb.
  apply (list_eq_same_length _ _ n); [apply slice_of_length|rewrite length_take, length_drop; lia|].
  intros k x y Hk. rewrite lookup_take_lt, lookup_drop, slice_of_lookup by done. intros Hx [= <-].
  unfold byte_at.
  destruct (page_split (Z.of_nat p * ps + Z.of_nat off + Z.of_nat k) (Z.of_nat p) (Z.of_nat (off + k))) as [-> ->];
    [lia..|]. by rewrite !Nat2Z.id, Hx.
Qed.

(** ** A turn of a loop *)

Record turn_at (cursor remaining : Z) (p off chunk : nat) : Prop := {
  ta_cursor : cursor = Z.of_nat p * ps + Z.of_nat off;
  ta_chunk : (1 <= chunk)%nat /\ Z.of_nat chunk <= remaining;
  ta_page : (off + chunk <= Z.to_nat ps)%nat;
}.

Lemma byte_turn_spec c cursor remaining :
  cache_ok c -> 0 <= cursor -> 0 < remaining -> cursor + remaining <= st_size (writer c) ->
  exists p off chunk, turn cursor remaining c = (c, Ok (p, off, chunk)) /\ turn_at cursor remaining p off chunk.
Proof.
  intros Hc H0 Hr Hs. pose proof (st_page_pos (W:=W) (ps:=ps)) as Hp.
  pose proof (Z.div_mod cursor ps ltac:(lia)). pose proof (Z.mod_pos_bound cursor ps Hp).
  pose proof (Z.div_pos cursor ps H0 Hp). unfold turn, page_id_for_offset.
  rewrite !run_bind. cbn [get]. rewrite !run_bind. cbn [get]. rewrite (ck_page _ _ Hc).
  assert (cursor / ps <= u32_max) as Hf.
  { etrans; [|apply (st_size_fits (writer c)), Hc]. apply Z.div_le_mono; lia. }
  rewrite (proj2 (Z.ltb_ge _ _) Hf). simpl. eexists _, _, _. split; [reflexivity|]. split; lia.
Qed.

Lemma in_size c c' x : same_config c c' -> x <= st_size (writer c) -> x <= st_size (writer c').
Proof. intros [_ _ _ _ ->]. done. Qed.

(** ** Reading *)

Lemma read_turns_spec fuel c cursor remaining out :
  cache_ok c -> 0 <= cursor -> cursor + Z.of_nat remaining <= st_size (writer c) -> (remaining <= fuel)%nat ->
  exists c' r, read_turns fuel cursor remaining out c = (c', r) /\ keeps c c' /\
    forall o, r = Ok o -> o = out ++ slice_of (byte_at c) cursor remaining.
Proof.
  revert c cursor remaining out. induction fuel as [|fuel IH]; intros c cursor remaining out Hc H0 Hs Hf.
  - assert (remaining = O) as -> by lia. eexists _, _. split; [reflexivity|]. split; [by apply keeps_refl|].
    intros o [= <-]. by rewrite app_nil_r.
  - destruct remaining as [|n]; [eexists _, _; split; [reflexivity|]; split; [by apply keeps_refl|];
      intros o [= <-]; by rewrite app_nil_r|].
    cbn [read_turns]. rewrite run_bind.
    destruct (byte_turn_spec c cursor (Z.of_nat (S n)) Hc H0 ltac:(lia) Hs) as (p & off & chunk & -> & [Hcur Hch Hpg]).
    rewrite run_bind. destruct (acquire_spec ps c p Hc) as (c1 & r & -> & Hk & Hr).
    destruct r as [b|e]; [|by eexists _, _]. destruct (Hr b eq_refl) as [-> _].
    destruct (IH c1 (cursor + Z.of_nat chunk) (S n - chunk)%nat (out ++ take chunk (drop off (page_bytes c p))))
      as (c2 & r2 & -> & Hk2 & Hr2); [apply Hk|lia| |lia|].
    { eapply in_size; [apply Hk|lia]. }
    eexists _, _. split; [reflexivity|]. split; [by eapply keeps_changes|]. intros o ->.
    rewrite (Hr2 o eq_refl), <- app_assoc, page_slice by done. f_equal.
    replace (S n) with (chunk + (S n - chunk))%nat by lia. rewrite slice_of_app, Hcur. f_equal.
    replace (chunk + (S n - chunk) - chunk)%nat with (S n - chunk)%nat by lia.
    apply slice_of_ext. intros i _. by apply keeps_byte.
Qed.

Lemma read_bytes_spec c off len :
  cache_ok c -> 0 <= off -> off + Z.of_nat len <= st_size (writer c) ->
  exists c' r, read_bytes off len c = (c', r) /\ keeps c c' /\
    forall o, r = Ok o -> o = slice_of (byte_at c) off len.
Proof.
  intros Hc H0 Hs. unfold read_bytes. case_bool_decide as Hl.
  - subst. eexists _, _. split; [reflexivity|]. split; [by apply keeps_refl|]. by intros o [= <-].
  - rewrite run_bind. destruct (read_turns_spec len c off len [] Hc H0 Hs ltac:(lia)) as (c1 & r & -> & Hk & Hr).
    destruct r as [o|e]; [|by eexists _, _]. rewrite run_bind.
    destruct (bump_keeps ps add_host_read (Z.of_nat (length o)) c1 (ch_ok _ _ _ _ Hk)) as (c2 & E & Hk2).
    unfold bump_host_bytes_read. rewrite E. eexists _, _. split; [reflexivity|].
    split; [by eapply keeps_changes|]. intros o' [= <-]. by apply Hr.
Qed.

(** ** Writing *)

Record overlaid (off : Z) (data : list Z) c c' : Prop := {
  ov_ok : cache_ok c';
  ov_conf : same_config c c';
  ov_bytes i : 0 <= i -> byte_at c' i = overlay off data (byte_at c) i;
}.

Lemma keeps_overlaid off c c' : keeps c c' -> overlaid off [] c c'.
Proof. intros Hk. split; [apply Hk..|]. intros i _. rewrite overlay_nil. by apply keeps_byte. Qed.

Lemma overlaid_app off a b c1 c2 c3 :
  overlaid off a c1 c2 -> overlaid (off + Z.of_nat (length a)) b c2 c3 -> overlaid off (a ++ b) c1 c3.
Proof.
  intros [H1 H2 H3] [H4 H5 H6]. split; [done|by eapply (same_config_trans ps)|]. intros i Hi.
  rewrite overlay_app, H6 by done. by apply overlay_ext, H3.
Qed.

Lemma overlaid_keeps off a c1 c2 c3 : overlaid off a c1 c2 -> keeps c2 c3 -> overlaid off a c1 c3.
Proof.
  intros Ho Hk. rewrite <- (app_nil_r a). eapply overlaid_app; [exact Ho|by apply keeps_overlaid].
Qed.

Lemma changes_overlaid c c' p off bs :
  cache_ok c -> changes (put_page p (splice_bytes off bs (page_bytes c p))) c c' ->
  (off + length bs <= Z.to_nat ps)%nat -> overlaid (Z.of_nat p * ps + Z.of_nat off) bs c c'.
Proof. intros Hc Hch Hl. split; [apply Hch..|]. intros i Hi. by apply put_overlay. Qed.

(** The part of a page a turn writes, whole or spliced. *)
Lemma write_turn_spec c p off bs :
  cache_ok c -> (off + length bs <= Z.to_nat ps)%nat ->
  exists c' r, (if bool_decide (off = O) && (Z.of_nat (length bs) =? cache_page_size c)
                then install_full_page p bs else modify_page p off bs) c = (c', r) /\
    (r = Ok tt /\ overlaid (Z.of_nat p * ps + Z.of_nat off) bs c c' \/
     (exists e, r = Err e) /\ keeps c c').
Proof.
  intros Hc Hl. rewrite (ck_page _ _ Hc). destruct (bool_decide (off = O) && _) eqn:E.
  - apply andb_true_iff in E as [Eo%bool_decide_eq_true El%Z.eqb_eq]. subst off.
    destruct (install_spec ps c p bs Hc El) as (c' & r & -> & [[-> Hch]|[He Hk]]); eexists _, _;
      (split; [reflexivity|]); [left|by right]. split; [done|]. apply changes_overlaid; [done| |done].
    rewrite splice_full; [done|]. pose proof (page_bytes_length ps c p Hc). lia.
  - destruct (modify_spec ps c p off bs Hc Hl) as (c' & r & -> & [[-> Hch]|[He Hk]]); eexists _, _;
      (split; [reflexivity|]); [left|by right]. split; [done|]. by apply changes_overlaid.
Qed.

Lemma write_turns_spec fuel c cursor data :
  cache_ok c -> 0 <= cursor -> cursor + Z.of_nat (length data) <= st_size (writer c) -> (length data <= fuel)%nat ->
  exists c' r n, write_turns fuel cursor data c = (c', r) /\ overlaid cursor (take n data) c c' /\
    (r = Ok tt -> take n data = data).
Proof.
  revert c cursor data. induction fuel as [|fuel IH]; intros c cursor data Hc H0 Hs Hf.
  - destruct data; simpl in Hf; [|lia]. exists c, (Ok tt), O. split; [done|]. split; [|done].
    by apply keeps_overlaid, keeps_refl.
  - destruct data as [|x data']; [exists c, (Ok tt), O; split; [done|]; split; [|done];
      by apply keeps_overlaid, keeps_refl|].
    cbn [write_turns]. set (data := x :: data') in *. rewrite run_bind. cbn [get]. rewrite run_bind.
    destruct (byte_turn_spec c cursor (Z.of_nat (length data)) Hc H0 ltac:(subst data; simpl; lia) Hs)
      as (p & off & chunk & -> & [Hcur Hch Hpg]).
    rewrite run_bind. assert (length (take chunk data) = chunk) as Hlen by (rewrite length_take; lia).
    destruct (write_turn_spec c p off (take chunk data) Hc) as (c1 & r & E & Hr); [by rewrite Hlen|].
    rewrite Hlen in E. rewrite E, Hcur. destruct Hr as [[-> Ho]|[[e ->] Hk]].
    + destruct (IH c1 (cursor + Z.of_nat chunk) (drop chunk data)) as (c2 & r2 & n & E2 & Ho2 & Hr2);
        [apply Ho|lia| |rewrite length_drop; lia|].
      { eapply in_size; [apply Ho|]. rewrite length_drop. lia. }
      rewrite <- Hcur, E2. exists c2, r2, (chunk + n)%nat. split; [done|].
      assert (take (chunk + n) data = take chunk data ++ take n (drop chunk data)) as ->.
      { rewrite <- (take_drop chunk data) at 1. rewrite take_app, Hlen, take_take.
        f_equal; f_equal; lia. }
      split; [|intros ->; by rewrite (Hr2 eq_refl), take_drop].
      rewrite Hcur. eapply overlaid_app; [exact Ho|]. by rewrite Hlen, <- Hcur.
    + exists c1, (Err e), O. split; [done|]. split; [by apply keeps_overlaid|done].
Qed.

Lemma write_bytes_spec c off data :
  cache_ok c -> 0 <= off -> off + Z.of_nat (length data) <= st_size (writer c) ->
  exists c' r n, write_bytes off data c = (c', r) /\ overlaid off (take n data) c c' /\
    (r = Ok tt -> take n data = data).
Proof.
  intros Hc H0 Hs. unfold write_bytes. case_bool_decide as Hl.
  - subst. exists c, (Ok tt), O. split; [done|]. split; [|done]. by apply keeps_overlaid, keeps_refl.
  - rewrite run_bind. destruct (write_turns_spec (length data) c off data Hc H0 Hs ltac:(lia))
      as (c1 & r & n & -> & Ho & Hr). destruct r as [[]|e]; [|by exists c1, (Err e), n].
    destruct (bump_keeps ps add_host_written (Z.of_nat (length data)) c1 (ov_ok _ _ _ _ Ho)) as (c2 & E & Hk2).
    unfold bump_host_bytes. rewrite E. exists c2, (Ok tt), n. split; [done|]. split; [|done].
    by eapply overlaid_keeps.
Qed.

(** ** COMPARE AND WRITE *)

Lemma compare_turns_spec fuel c cursor expected :
  cache_ok c -> 0 <= cursor -> cursor + Z.of_nat (length expected) <= st_size (writer c) ->
  (length expected <= fuel)%nat ->
  exists c' r, compare_turns fuel cursor expected c = (c', r) /\ keeps c c' /\
    forall same, r = Ok same -> same = bool_decide (slice_of (byte_at c) cursor (length expected) = expected).
Proof.
  revert c cursor expected. induction fuel as [|fuel IH]; intros c cursor data Hc H0 Hs Hf.
  - destruct data; simpl in Hf; [|lia]. eexists _, _. split; [reflexivity|]. split; [by apply keeps_refl|].
    by intros same [= <-].
  - destruct data as [|x data']; [eexists _, _; split; [reflexivity|]; split; [by apply keeps_refl|];
      by intros same [= <-]|].
    cbn [compare_turns]. set (data := x :: data') in *. rewrite run_bind.
    destruct (byte_turn_spec c cursor (Z.of_nat (length data)) Hc H0 ltac:(subst data; simpl; lia) Hs)
      as (p & off & chunk & -> & [Hcur Hch Hpg]).
    rewrite run_bind. destruct (acquire_spec ps c p Hc) as (c1 & r & -> & Hk & Hr).
    destruct r as [b|e]; [|by eexists _, _]. destruct (Hr b eq_refl) as [-> _].
    rewrite page_slice by done. rewrite <- Hcur.
    assert (slice_of (byte_at c) cursor (length data) =
      slice_of (byte_at c) cursor chunk ++ slice_of (byte_at c) (cursor + Z.of_nat chunk) (length data - chunk)) as Hsl.
    { rewrite <- slice_of_app. f_equal. lia. }
    case_bool_decide as Heq.
    + destruct (IH c1 (cursor + Z.of_nat chunk) (drop chunk data)) as (c2 & r2 & -> & Hk2 & Hr2);
        [apply Hk|lia| |rewrite length_drop; lia|].
      { eapply in_size; [apply Hk|]. rewrite length_drop. lia. }
      eexists _, _. split; [reflexivity|]. split; [by eapply keeps_changes|]. intros same ->.
      rewrite (Hr2 same eq_refl). apply bool_decide_ext. rewrite Hsl, Heq, length_drop.
      rewrite (slice_of_ext (byte_at c1) (byte_at c)) by (intros; by apply keeps_byte).
      split; [intros ->; apply take_drop|].
      intros E. rewrite <- (take_drop chunk data) in E at 3. by apply app_inv_head in E.
    + eexists _, _. split; [reflexivity|]. split; [done|]. intros same [= <-]. symmetry.
      apply bool_decide_eq_false_2. intros E. apply Heq. rewrite <- E, Hsl.
      rewrite take_app_length'; [done|]. by rewrite slice_of_length.
Qed.

Lemma compare_and_write_spec c off expected new :
  cache_ok c -> 0 <= off -> off + Z.of_nat (length expected) <= st_size (writer c) ->
  length new = length expected ->
  exists c' r n, compare_and_write_bytes off expected new c = (c', r) /\ overlaid off (take n new) c c' /\
    (r = Ok true -> slice_of (byte_at c) off (length expected) = expected /\ take n new = new) /\
    (r = Ok false -> slice_of (byte_at c) off (length expected) <> expected /\ n = O).
Proof.
  intros Hc H0 Hs Hn. unfold compare_and_write_bytes. case_bool_decide as Hl.
  - subst. apply nil_length_inv in Hn as ->. exists c, (Ok true), O. split; [done|].
    split; [by apply keeps_overlaid, keeps_refl|]. done.
  - rewrite run_bind. destruct (compare_turns_spec (length expected) c off expected Hc H0 Hs ltac:(lia))
      as (c1 & r & -> & Hk & Hr). destruct r as [same|e];
      [|exists c1, (Err e), O; split; [done|]; split; [by apply keeps_overlaid|done]].
    rewrite (Hr same eq_refl). case_bool_decide as Heq.
    + rewrite run_bind. destruct (write_bytes_spec c1 off new (ch_ok _ _ _ _ Hk) H0) as (c2 & r2 & n & -> & Ho & Hr2).
      { rewrite Hn. eapply in_size; [apply Hk|done]. }
      assert (overlaid off (take n new) c c2) as Ho'.
      { split; [apply Ho|eapply (same_config_trans ps); [apply Hk|apply Ho]|]. intros i Hi.
        rewrite (ov_bytes _ _ _ _ Ho) by done. apply overlay_ext. by apply keeps_byte. }
      destruct r2 as [[]|e]; [exists c2, (Ok true), n|exists c2, (Err e), n]; split_and!; try done.
      intros _. by split; [|apply Hr2].
    + exists c1, (Ok false), O. split_and!; try done. by apply keeps_overlaid.
Qed.

(** ** UNMAP *)

(** Bytes outside the range are as before; a command that succeeds leaves
    zeros in it. *)
Record erased (off len : Z) c c' : Prop := {
  er_ok : cache_ok c';
  er_conf : same_config c c';
  er_out i : 0 <= i -> ~ (off <= i < off + len) -> byte_at c' i = byte_at c i;
}.

Lemma erased_trans off n m c1 c2 c3 :
  0 <= n -> 0 <= m -> erased off n c1 c2 -> erased (off + n) m c2 c3 -> erased off (n + m) c1 c3.
Proof.
  intros Hn Hm [H1 H2 H3] [H4 H5 H6]. split; [done|by eapply (same_config_trans ps)|]. intros i Hi Ho.
  rewrite H6, H3 by lia. done.
Qed.

Lemma overlaid_erased off data c c' : overlaid off data c c' -> erased off (Z.of_nat (length data)) c c'.
Proof. intros [H1 H2 H3]. split; [done..|]. intros i Hi Ho. by rewrite H3, overlay_out. Qed.

Lemma zeros_overlay off n f i :
  overlay off (zeros n) f i = if bool_decide (off <= i < off + Z.max 0 n) then 0 else f i.
Proof.
  unfold overlay, zeros. rewrite length_replicate.
  case_bool_decide as H1; case_bool_decide as H2; try lia.
  by rewrite lookup_replicate_2 by lia.
Qed.

(** What a turn of UNMAP does to its bytes. *)
Lemma unmap_turn_spec c p off chunk cleared :
  cache_ok c -> (off + chunk <= Z.to_nat ps)%nat ->
  Z.of_nat p * ps + Z.of_nat off + Z.of_nat chunk <= st_size (writer c) ->
  exists c' r,
    (if bool_decide (off = O) && (Z.of_nat chunk =? cache_page_size c)
     then unmap_full_page p;; mret true
     else modify_page p off (zeros (Z.of_nat chunk));; mret cleared) c = (c', r) /\
    erased (Z.of_nat p * ps + Z.of_nat off) (Z.of_nat chunk) c c' /\
    forall b, r = Ok b -> overlaid (Z.of_nat p * ps + Z.of_nat off) (zeros (Z.of_nat chunk)) c c'.
Proof.
  intros Hc Hl Hs. rewrite (ck_page _ _ Hc).
  assert (length (zeros (Z.of_nat chunk)) = chunk) as Hz by (unfold zeros; rewrite length_replicate; lia).
  destruct (bool_decide (off = O) && _) eqn:E.
  - apply andb_true_iff in E as [Eo%bool_decide_eq_true El%Z.eqb_eq]. subst off. rewrite run_bind.
    assert (forall b c', Z.of_nat (length b) = ps -> changes (put_page p b) c c' ->
      overlaid (Z.of_nat p * ps + Z.of_nat 0) b c c') as Hput.
    { intros b c' Hb Hch. apply changes_overlaid; [done| |lia]. rewrite splice_full; [done|].
      pose proof (page_bytes_length ps c p Hc). lia. }
    destruct (unmap_page_spec ps c p Hc) as (c' & r & -> & [Hch|[[e ->] Hch]]); [lia| |].
    + rewrite El in Hz |- *. apply Hput in Hch; [|by rewrite Hz].
      pose proof (overlaid_erased _ _ _ _ Hch) as Her. rewrite Hz, El in Her.
      destruct r as [[]|e]; eexists _, _; (split; [reflexivity|]); done.
    + apply Hput in Hch; [|apply (stored_length ps), Hc]. eexists _, _. split; [reflexivity|]. split; [|done].
      apply overlaid_erased in Hch. rewrite (stored_length ps) in Hch by apply Hc. by rewrite El.
  - rewrite run_bind. destruct (modify_spec ps c p off (zeros (Z.of_nat chunk)) Hc) as (c' & r & -> & Hr); [by rewrite Hz|].
    destruct Hr as [[-> Hch]|[[e ->] Hk]]; eexists _, _; (split; [reflexivity|]).
    + apply changes_overlaid in Hch; [|done|by rewrite Hz]. pose proof (overlaid_erased _ _ _ _ Hch) as Her. rewrite Hz in Her. by split.
    + split; [|done]. split; [apply Hk..|]. intros i _ _. by apply keeps_byte.
Qed.

Lemma unmap_turns_spec fuel c cursor remaining cleared :
  cache_ok c -> 0 <= cursor -> cursor + Z.of_nat remaining <= st_size (writer c) -> (remaining <= fuel)%nat ->
  exists c' r, unmap_turns fuel cursor remaining cleared c = (c', r) /\
    erased cursor (Z.of_nat remaining) c c' /\
    forall b, r = Ok b -> overlaid cursor (zeros (Z.of_nat remaining)) c c'.
Proof.
  revert c cursor remaining cleared. induction fuel as [|fuel IH]; intros c cursor remaining cleared Hc H0 Hs Hf.
  - assert (remaining = O) as -> by lia. eexists _, _. split; [reflexivity|].
    pose proof (keeps_overlaid cursor c c (keeps_refl ps c Hc)) as Ho. by split; [apply (overlaid_erased _ [])|].
  - destruct remaining as [|n].
    { eexists _, _. split; [reflexivity|].
      pose proof (keeps_overlaid cursor c c (keeps_refl ps c Hc)) as Ho. by split; [apply (overlaid_erased _ [])|]. }
    cbn [unmap_turns]. rewrite run_bind. cbn [get]. rewrite run_bind.
    destruct (byte_turn_spec c cursor (Z.of_nat (S n)) Hc H0 ltac:(lia) Hs) as (p & off & chunk & -> & [Hcur Hch Hpg]).
    rewrite run_bind. destruct (unmap_turn_spec c p off chunk cleared Hc Hpg) as (c1 & r & -> & He & Hr); [lia|].
    rewrite <- Hcur in He, Hr. replace (Z.of_nat (S n)) with (Z.of_nat chunk + Z.of_nat (S n - chunk)) by lia.
    destruct r as [b|e].
    + specialize (Hr b eq_refl).
      destruct (IH c1 (cursor + Z.of_nat chunk) (S n - chunk)%nat b) as (c2 & r2 & -> & He2 & Hr2);
        [apply He|lia| |lia|].
      { eapply in_size; [apply He|lia]. }
      eexists _, _. split; [reflexivity|]. split; [by eapply erased_trans; [lia|lia|exact He|exact He2]|].
      intros b' ->. specialize (Hr2 b' eq_refl).
      assert (zeros (Z.of_nat chunk + Z.of_nat (S n - chunk)) = zeros (Z.of_nat chunk) ++ zeros (Z.of_nat (S n - chunk))) as ->.
      { unfold zeros. rewrite <- replicate_add. f_equal. lia. }
      eapply overlaid_app; [exact Hr|]. unfold zeros at 1. by rewrite length_replicate, Nat2Z.id.
    + eexists _, _. split; [reflexivity|]. split; [|done]. split; [apply He..|]. intros i Hi Ho. apply He; lia.
Qed.

Lemma unmap_bytes_spec c off len :
  cache_ok c -> 0 <= off -> off + Z.of_nat len <= st_size (writer c) ->
  exists c' r, unmap_bytes off len c = (c', r) /\ erased off (Z.of_nat len) c c' /\
    (r = Ok tt -> overlaid off (zeros (Z.of_nat len)) c c').
Proof.
  intros Hc H0 Hs. unfold unmap_bytes. case_bool_decide as Hl.
  - subst. eexists _, _. split; [reflexivity|].
    pose proof (keeps_overlaid off c c (keeps_refl ps c Hc)) as Ho. by split; [apply (overlaid_erased _ [])|].
  - rewrite run_bind. destruct (unmap_turns_spec len c off len false Hc H0 Hs ltac:(lia)) as (c1 & r & -> & He & Hr).
    destruct r as [b|e]; [|by eexists _, _]. specialize (Hr b eq_refl). rewrite run_bind.
    assert (exists c2 r2, (if b then on_writer st_sync else mret tt) c1 = (c2, r2) /\ keeps c1 c2)
      as (c2 & r2 & -> & Hk2).
    { destruct b; [|eexists _, _; split; [reflexivity|apply (keeps_refl ps), He]].
      unfold on_writer, zoom. pose proof (st_sync_law (writer c1) (ck_store _ _ (er_ok _ _ _ _ He))) as Hsy.
      destruct (st_sync (writer c1)) as [w r2]. eexists _, _. split; [reflexivity|].
      apply keeps_writer; [apply He|done]. }
    assert (overlaid off (zeros (Z.of_nat len)) c c2) as Ho2 by (by eapply overlaid_keeps).
    assert (length (zeros (Z.of_nat len)) = len) as Hz by (unfold zeros; rewrite length_replicate; lia).
    assert (forall c3, overlaid off (zeros (Z.of_nat len)) c c3 -> erased off (Z.of_nat len) c c3) as Hoe
      by (intros c3 Ho3; apply overlaid_erased in Ho3; by rewrite Hz in Ho3).
    destruct r2 as [[]|e]; [|eexists _, _; split; [reflexivity|]; eauto].
    destruct (bump_keeps ps add_host_written (Z.of_nat len) c2 (ov_ok _ _ _ _ Ho2)) as (c3 & E & Hk3).
    unfold bump_host_bytes. rewrite E. eexists _, _. split; [reflexivity|].
    assert (overlaid off (zeros (Z.of_nat len)) c c3) by (by eapply overlaid_keeps). eauto.
Qed.
End bytes.
