(* ===== verification/CacheHistory.v ===== *)
(** * Flushing, fences and histories of the cache

    What a flush leaves dirty, what SYNCHRONIZE CACHE makes survive the loss
    of the cache, and the refinement: any history of host commands, flush
    ticks and volume activity is a history of one array of bytes. *)

From stdpp Require Import sorting.
From S2P Require Import Prelude StateError PageLru Crypto VolumeWriter PageCache PageCacheProofs CacheBytes.

Local Open Scope Z_scope.

(** Host commands, the flush worker, an administrator's tier change, and
    what the volume does meanwhile. *)
Inductive CacheEvent (W : Type) : Type :=
  | CRead (off : Z) (len : nat)
  | CWrite (off : Z) (data : list Z)
  | CCompareWrite (off : Z) (expected new : list Z)
  | CUnmap (off : Z) (len : nat)
  | CSync (off len : Z)
  | CFlushAll
  | CTick
  | CSetTier (mode : SyncAfter)
  | CVolume (g : W -> W).
Arguments CRead {W}.
Arguments CWrite {W}.
Arguments CCompareWrite {W}.
Arguments CUnmap {W}.
Arguments CSync {W}.
Arguments CFlushAll {W}.
Arguments CTick {W}.
Arguments CSetTier {W}.
Arguments CVolume {W}.

Inductive CacheReply : Type :=
  | RBytes (bs : list Z)
  | RBool (b : bool)
  | RDone
  | RRefused
  | RFailed (e : UploaderError).

Definition reply_of {A} (f : A -> CacheReply) (r : result A UploaderError) : CacheReply :=
  match r with Ok a => f a | Err e => RFailed e end.

Section events.
Context {W : Type} `{!PageStore W}.

(** The data paths check a range against the volume's size first. *)
Definition in_volume (c : PageCache W) (off len : Z) : bool :=
  bool_decide (0 <= off /\ off + len <= st_size (writer c)).

Definition cache_event (ev : CacheEvent W) (c : PageCache W) : PageCache W * CacheReply :=
  match ev with
  | CRead off len =>
      if in_volume c off (Z.of_nat len)
      then let '(c, r) := read_bytes off len c in (c, reply_of RBytes r) else (c, RRefused)
  | CWrite off data =>
      if in_volume c off (Z.of_nat (length data))
      then let '(c, r) := write_bytes off data c in (c, reply_of (fun _ => RDone) r) else (c, RRefused)
  | CCompareWrite off expected new =>
      if in_volume c off (Z.of_nat (length expected)) && bool_decide (length new = length expected)
      then let '(c, r) := compare_and_write_bytes off expected new c in (c, reply_of RBool r)
      else (c, RRefused)
  | CUnmap off len =>
      if in_volume c off (Z.of_nat len)
      then let '(c, r) := unmap_bytes off len c in (c, reply_of (fun _ => RDone) r) else (c, RRefused)
  | CSync off len => let '(c, r) := synchronize_bytes off len c in (c, reply_of (fun _ => RDone) r)
  | CFlushAll => let '(c, r) := flush_all c in (c, reply_of (fun _ => RDone) r)
  | CTick => (flush_worker_tick c, RDone)
  | CSetTier mode => let '(c, r) := set_sync_after mode c in (c, reply_of (fun _ => RDone) r)
  | CVolume g => (with_writer (g (writer c)) c, RDone)
  end.

Fixpoint run_cache (evs : list (CacheEvent W)) (c : PageCache W) : PageCache W :=
  match evs with [] => c | ev :: evs => run_cache evs (cache_event ev c).1 end.

Fixpoint cache_trace (evs : list (CacheEvent W)) (c : PageCache W) : list (CacheEvent W * CacheReply) :=
  match evs with
  | [] => []
  | ev :: evs => let '(c', r) := cache_event ev c in (ev, r) :: cache_trace evs c'
  end.

(** *** The array of bytes *)

Inductive byte_step : CacheEvent W * CacheReply -> (Z -> Z) -> (Z -> Z) -> Prop :=
  | BRead off len f : byte_step (CRead off len, RBytes (slice_of f off len)) f f
  | BWrite off data f : byte_step (CWrite off data, RDone) f (overlay off data f)
  | BWriteFailed off data n e f :
      byte_step (CWrite off data, RFailed e) f (overlay off (take n data) f)
  | BSwapped off expected new f :
      slice_of f off (length expected) = expected ->
      byte_step (CCompareWrite off expected new, RBool true) f (overlay off new f)
  | BMiscompare off expected new f :
      slice_of f off (length expected) <> expected ->
      byte_step (CCompareWrite off expected new, RBool false) f f
  | BSwapFailed off expected new n e f :
      byte_step (CCompareWrite off expected new, RFailed e) f (overlay off (take n new) f)
  | BUnmap off len f : byte_step (CUnmap off len, RDone) f (overlay off (zeros (Z.of_nat len)) f)
  | BUnmapFailed off len e f f' :
      (forall i, ~ (off <= i < off + Z.of_nat len) -> f' i = f i) ->
      byte_step (CUnmap off len, RFailed e) f f'
  | BRefused ev f : byte_step (ev, RRefused) f f
  | BFailed ev e f : byte_step (ev, RFailed e) f f
  | BFlush ev f :
      match ev with CSync _ _ | CFlushAll | CTick | CSetTier _ | CVolume _ => True | _ => False end ->
      byte_step (ev, RDone) f f.

Inductive byte_run : list (CacheEvent W * CacheReply) -> (Z -> Z) -> (Z -> Z) -> Prop :=
  | BNil f g : (forall i, 0 <= i -> g i = f i) -> byte_run [] f g
  | BCons x l f g g' h :
      byte_step x f g -> (forall i, 0 <= i -> g' i = g i) -> byte_run l g' h -> byte_run (x :: l) f h.
End events.

Section flush.
Context {W : Type} (ps : Z) `{PageStoreLaws W ps}.
Implicit Types c : PageCache W.

Notation cache_ok := (cache_ok ps).
Notation keeps := (keeps ps).
Notation page_bytes := (page_bytes ps).
Notation stored := (stored ps).

Lemma dirty_view c p : cache_ok c -> p ∈ dirty (inner c) <-> is_dirty (view (inner c) !! p).
Proof. intros Hc. destruct (ck_lru _ _ Hc) as [l (_ & _ & Hd)%inner_wf_elim]. apply Hd. Qed.

(** A page that is not dirty is in the volume. *)
Lemma clean_stored c p : cache_ok c -> p ∉ dirty (inner c) -> stored (writer c) p = page_bytes c p.
Proof.
  intros Hc Hp. unfold page_bytes. destruct (view (inner c) !! p) as [[[b st] v]|] eqn:E; [|done].
  destruct st; [symmetry; by eapply ck_clean|]. destruct Hp. apply dirty_view; [done|]. rewrite E. by exists b, v.
Qed.

Lemma dirty_same c c' : inner c' = inner c -> dirty (inner c') = dirty (inner c).
Proof. by intros ->. Qed.

Lemma flush_one_spec c p :
  cache_ok c ->
  exists c' r, flush_one p c = (c', r) /\ keeps c c' /\
    match r with
    | Ok _ => dirty (inner c') = dirty (inner c) ∖ {[p]}
    | Err _ => dirty (inner c') = dirty (inner c)
    end.
Proof.
  intros Hc. unfold flush_one. rewrite run_bind. cbn [get].
  assert (Hnot : ~ is_dirty (view (inner c) !! p) -> dirty (inner c) = dirty (inner c) ∖ {[p]}).
  { intros Hn. rewrite <- dirty_view in Hn by done. set_solver. }
  destruct (pages (inner c) !! p) as [e|] eqn:E.
  2: { eexists _, _. split; [reflexivity|]. split; [by apply keeps_refl|]. apply Hnot.
       rewrite lookup_view, E. by intros (? & ? & ?). }
  assert (view (inner c) !! p = Some (payload e)) as Hv by (by rewrite lookup_view, E).
  case_bool_decide as Hd.
  2: { eexists _, _. split; [reflexivity|]. split; [by apply keeps_refl|]. apply Hnot.
       rewrite Hv. intros (b & v & [= <- Hx _]). done. }
  unfold payload in Hv. rewrite Hd in Hv. rewrite run_bind. unfold on_writer, zoom.
  destruct (st_write_law (writer c) p (bytes e) (ck_store _ _ Hc)) as [Hp Hok]; [by eapply ck_len|].
  destruct (st_write p (bytes e) (writer c)) as [w r]. simpl in *.
  pose proof (keeps_write_back ps c p _ _ _ w Hc Hv Hp) as Hk1. destruct r as [o|err]; [|by eexists _, _].
  specialize (Hok o eq_refl). rewrite run_bind.
  destruct (bump_put_keeps ps (put_bytes o) (with_writer w c) (ch_ok _ _ _ _ Hk1)) as (c2 & Ec2 & Hk2).
  rewrite Ec2. assert (inner c2 = inner c /\ writer c2 = w) as [Ei Ew].
  { unfold bump_put, bump_backend_bytes_written, bump in Ec2. destruct (put_bytes o) as [n|].
    - destruct (n =? 0); injection Ec2 as <-; done.
    - injection Ec2 as <-. done. }
  rewrite run_bind. simpl. eexists _, _. split; [reflexivity|]. simpl.
  pose proof (ch_ok _ _ _ _ Hk2) as Hc2. destruct (ck_lru _ _ Hc2) as [l Hl].
  destruct (commit_flushed_wf (inner c2) l p (version e) Hl) as [Hl' Hv'].
  rewrite Ei, Hv, Z.eqb_refl in Hv'. rewrite Ei in *.
  assert (keeps c2 (with_inner (commit_flushed (inner c) p (version e)) c2)) as Hk3.
  { apply (put_same _ _ _ p). unfold page_bytes. rewrite Ei, Hv.
    apply (changes_put _ _ _ _ _ Clean (version e)); try done; rewrite ?Ei; eauto.
    - by apply (ck_len _ _ Hc p _ Dirty (version e)).
    - intros _. unfold stored. by rewrite Ew, Hok. }
  split; [eapply (keeps_changes ps); [exact Hk1|]; by eapply (keeps_changes ps)|].
  apply set_eq. intros q. rewrite elem_of_difference, elem_of_singleton.
  rewrite (dirty_view c q Hc). pose proof (dirty_view _ q (ch_ok _ _ _ _ Hk3)) as Hdq. simpl in Hdq. rewrite Hdq, Hv'.
  destruct (decide (q = p)) as [->|Hne].
  - rewrite lookup_insert_eq. split; [intros (b & v & [=])|tauto].
  - rewrite lookup_insert_ne by done. tauto.
Qed.

Lemma flush_batch_spec batch wrote err c :
  cache_ok c ->
  exists c' wrote' err', flush_batch batch wrote err c = (c', (wrote', err')) /\ keeps c c' /\
    dirty (inner c') ⊆ dirty (inner c) /\
    (err' = None -> err = None /\ dirty (inner c') = dirty (inner c) ∖ list_to_set batch).
Proof.
  revert wrote err c. induction batch as [|p batch IH]; intros wrote err c Hc.
  - eexists _, _, _. split; [reflexivity|]. split; [by apply keeps_refl|]. set_solver.
  - cbn [flush_batch]. destruct (flush_one_spec c p Hc) as (c1 & r & -> & Hk & Hd). destruct r as [b|e].
    + destruct (IH (wrote || b) err c1 (ch_ok _ _ _ _ Hk)) as (c2 & w2 & e2 & -> & Hk2 & Hs & Hn).
      eexists _, _, _. split; [reflexivity|]. split; [by eapply (keeps_changes ps)|]. set_solver.
    + destruct (IH wrote (match err with Some e0 => Some e0 | None => Some e end) c1 (ch_ok _ _ _ _ Hk))
        as (c2 & w2 & e2 & -> & Hk2 & Hs & Hn).
      eexists _, _, _. split; [reflexivity|]. split; [by eapply (keeps_changes ps)|]. split; [set_solver|].
      intros He. destruct (Hn He) as [Hx _]. by destruct err.
Qed.

Lemma elem_of_pick sel n (i : CacheInner) p : p ∈ pick_dirty sel n i -> p ∈ dirty i /\ sel p = true.
Proof.
  unfold pick_dirty. intros Hp%elem_of_take. destruct Hp as (k & Hk & _).
  apply list_elem_of_lookup_2, list_elem_of_In, filter_In in Hk as [Hin Hs].
  apply list_elem_of_In in Hin. rewrite merge_sort_Permutation, elem_of_elements in Hin. done.
Qed.

Lemma pick_nil sel n (i : CacheInner) :
  (1 <= n)%nat -> pick_dirty sel n i = [] -> forall p, p ∈ dirty i -> sel p = false.
Proof.
  intros Hn Hp p Hd. destruct (sel p) eqn:E; [|done]. exfalso. unfold pick_dirty in Hp.
  assert (In p (List.filter sel (merge_sort le (elements (dirty i))))) as Hin.
  { apply filter_In. split; [|done]. apply list_elem_of_In. by rewrite merge_sort_Permutation, elem_of_elements. }
  destruct (List.filter sel _); [done|]. destruct n; [lia|done].
Qed.

Lemma drain_turns_spec fuel sel wrote c :
  cache_ok c -> (size (dirty (inner c)) < fuel)%nat ->
  exists c' wrote' err, drain_turns fuel sel wrote c = (c', (wrote', err)) /\ keeps c c' /\
    dirty (inner c') ⊆ dirty (inner c) /\
    (err = None -> forall p, p ∈ dirty (inner c') -> sel p = false).
Proof.
  revert wrote c. induction fuel as [|fuel IH]; intros wrote c Hc Hf; [lia|]. cbn [drain_turns].
  set (n := Nat.max 1 (max_concurrent_flushes c)). destruct (pick_dirty sel n (inner c)) as [|p batch] eqn:Ep.
  { eexists _, _, _. split; [reflexivity|]. split; [by apply keeps_refl|]. split; [done|]. intros _.
    by apply (pick_nil sel n); [lia|]. }
  destruct (flush_batch_spec (p :: batch) wrote None c Hc) as (c1 & w1 & e1 & -> & Hk & Hs & Hn).
  destruct e1 as [e|]; [by eexists _, _, _|]. destruct (Hn eq_refl) as [_ Hd].
  destruct (IH w1 c1 (ch_ok _ _ _ _ Hk)) as (c2 & w2 & e2 & E & Hk2 & Hs2 & Hr).
  { assert (p ∈ dirty (inner c)) as Hp by (apply (elem_of_pick sel n); rewrite Ep; set_solver).
    assert (dirty (inner c1) ⊂ dirty (inner c)) as Hsub by (rewrite Hd; set_solver).
    apply subset_size in Hsub. lia. }
  eexists _, _, _. split; [exact E|]. split; [by eapply (keeps_changes ps)|]. set_solver.
Qed.

Lemma sync_keeps (b : bool) c :
  cache_ok c -> exists c' r, (if b then on_writer st_sync else mret tt) c = (c', r) /\ keeps c c' /\ inner c' = inner c.
Proof.
  intros Hc. destruct b; [|eexists _, _; split; [reflexivity|]; split; [by apply keeps_refl|done]].
  unfold on_writer, zoom. pose proof (st_sync_law (writer c) (ck_store _ _ Hc)) as Hs.
  destruct (st_sync (writer c)) as [w r]. eexists _, _. split; [reflexivity|]. split; [by apply keeps_writer|done].
Qed.

Lemma flush_drain_spec sel c :
  cache_ok c ->
  exists c' r, flush_drain sel c = (c', r) /\ keeps c c' /\ dirty (inner c') ⊆ dirty (inner c) /\
    (r = Ok tt -> forall p, p ∈ dirty (inner c') -> sel p = false).
Proof.
  intros Hc. unfold flush_drain.
  destruct (drain_turns_spec (S (size (dirty (inner c)))) sel false c Hc) as (c1 & w1 & e1 & -> & Hk & Hs & Hr); [lia|].
  rewrite run_bind. destruct (sync_keeps w1 c1 (ch_ok _ _ _ _ Hk)) as (c2 & r2 & -> & Hk2 & Ei).
  assert (keeps c c2) by (by eapply (keeps_changes ps)). rewrite <- Ei in Hs, Hr.
  destruct r2 as [[]|e]; [|by eexists _, _]. destruct e1 as [e|]; by eexists _, _; split; [reflexivity|]; split_and!; auto.
Qed.

(** *** A page the volume will not take *)

Definition unwritable (p : nat) (size : Z) : Prop :=
  forall w bs, st_ok w -> st_size w = size -> exists e, (st_write p bs w).2 = Err e.

Definition stuck (p : nat) c : Prop :=
  cache_ok c /\ p ∈ dirty (inner c) /\ unwritable p (st_size (writer c)).

Lemma stuck_one p q c : stuck p c -> stuck p (flush_one q c).1.
Proof.
  intros (Hc & Hp & Hu). destruct (flush_one_spec c q Hc) as (c' & r & E & Hk & Hd). rewrite E. simpl.
  split; [apply Hk|]. split; [|by rewrite (sc_size _ _ (ch_conf _ _ _ _ Hk))].
  destruct r as [b|e]; [|by rewrite Hd]. rewrite Hd. destruct (decide (q = p)) as [->|Hne]; [exfalso|set_solver].
  apply (dirty_view c p Hc), is_dirty_view in Hp as (en & He & Hst).
  unfold flush_one in E. rewrite run_bind in E. cbn [get] in E. rewrite He, bool_decide_eq_true_2 in E by done.
  rewrite run_bind in E. unfold on_writer, zoom in E. destruct (Hu (writer c) (bytes en) (ck_store _ _ Hc) eq_refl) as [err Herr].
  destruct (st_write p (bytes en) (writer c)) as [w r']. simpl in Herr. by subst r'.
Qed.

Lemma stuck_batch p batch wrote err c : stuck p c -> stuck p (flush_batch batch wrote err c).1.
Proof.
  revert wrote err c. induction batch as [|q batch IH]; intros wrote err c Hs; [done|]. simpl.
  pose proof (stuck_one p q c Hs) as H1. destruct (flush_one q c) as [c1 [b|e]]; by apply IH.
Qed.

Lemma stuck_drain p fuel sel wrote c : stuck p c -> stuck p (drain_turns fuel sel wrote c).1.
Proof.
  revert wrote c. induction fuel as [|fuel IH]; intros wrote c Hs; [done|]. cbn [drain_turns].
  destruct (pick_dirty _ _ _) as [|q batch]; [done|].
  pose proof (stuck_batch p (q :: batch) wrote None c Hs) as H1.
  destruct (flush_batch (q :: batch) wrote None c) as [c1 [w1 [e|]]]; [exact H1|by apply IH].
Qed.

Lemma flush_stuck p sel c :
  stuck p c -> sel p = true -> exists c' e, flush_drain sel c = (c', Err e) /\ stuck p c'.
Proof.
  intros Hs Hp. pose proof (stuck_drain p (S (size (dirty (inner c)))) sel false c Hs) as Hd.
  destruct (flush_drain_spec sel c (proj1 Hs)) as (c' & r & E & Hk & _ & Hr).
  assert (stuck p c') as Hs'.
  { unfold flush_drain in E. destruct (drain_turns _ sel false c) as [c1 [w1 e1]]. simpl in Hd.
    rewrite run_bind in E. destruct (sync_keeps w1 c1 (proj1 Hd)) as (c2 & r2 & E2 & Hk2 & Ei). rewrite E2 in E.
    assert (c' = c2) as -> by (destruct r2 as [[]|], e1; injection E as ?; congruence).
    destruct Hd as (_ & H1 & H2). split; [apply Hk2|]. rewrite Ei. split; [done|].
    by rewrite (sc_size _ _ (ch_conf _ _ _ _ Hk2)). }
  destruct r as [[]|e]; [|by eexists _, _]. destruct Hs' as (_ & Hin & _).
  by rewrite (Hr eq_refl p Hin) in Hp.
Qed.

Lemma persist_keeps c :
  cache_ok c -> exists c' r, persist_runtime_if_dirty c = (c', r) /\ keeps c c' /\ inner c' = inner c.
Proof.
  intros Hc. unfold persist_runtime_if_dirty. rewrite run_bind. cbn [get].
  destruct (counter_dirty c); simpl; [|eexists _, _; split; [reflexivity|]; split; [by apply keeps_refl|done]].
  rewrite run_bind. simpl. rewrite run_bind. unfold on_error, on_writer, zoom. simpl.
  pose proof (st_persist_law (writer c) (ck_store _ _ Hc)) as Hs.
  destruct (st_persist_runtime (writer c)) as [w r]. simpl in Hs. pose proof (keeps_writer ps c w Hc Hs) as Hk.
  destruct r as [[]|e]; eexists _, _; (split; [reflexivity|]); (split; [|done]);
    (eapply (keeps_changes ps); [exact Hk|]); by apply (keeps_frame ps); [apply Hk|..].
Qed.

Lemma fence_spec range c :
  cache_ok c ->
  exists c' r, fence_turn range c = (c', r) /\ keeps c c' /\ inner c' = inner c /\
    (r = Ok (Some tt) -> c' = c /\ st_wait_for_range (writer c) range = Some DrainClean).
Proof.
  intros Hc. unfold fence_turn. rewrite run_bind. cbn [get].
  destruct (st_wait_for_range (writer c) range) as [[]|] eqn:E;
    try (eexists _, _; split; [reflexivity|]; split; [by apply keeps_refl|]; done).
  rewrite run_bind. unfold on_writer, zoom. pose proof (st_retry_law (writer c) range (ck_store _ _ Hc)) as Hs.
  destruct (st_retry range (writer c)) as [w r].
  assert (keeps c (with_writer w c)) by (by apply keeps_writer).
  destruct r; eexists _, _; split; [reflexivity|done|reflexivity|done].
Qed.

(** ** Ranges *)

(** [resolve_range] accepts the blocks inside the volume, all of them and no
    others; what it returns cannot overflow and maps to addressable pages. *)
Lemma resolve_range_spec c lba blocks :
  cache_ok c -> 0 <= lba -> 0 <= blocks -> 0 < cache_sector_size c ->
  match resolve_range c lba blocks with
  | Ok (off, len) =>
      off = lba * cache_sector_size c /\ len = blocks * cache_sector_size c /\
      0 <= off /\ 0 <= len /\ off + len <= st_size (writer c) <= u64_max /\
      forall i, off <= i < off + len -> 0 <= i / ps <= u32_max
  | Err _ => st_size (writer c) < (lba + blocks) * cache_sector_size c
  end.
Proof.
  intros Hc Hl Hb Hs. unfold resolve_range. rewrite (proj2 (Z.eqb_neq _ _)) by lia.
  pose proof (st_size_range (writer c) (ck_store _ _ Hc)) as Hsz. pose proof (st_page_pos (W:=W) (ps:=ps)) as Hp.
  set (s := cache_sector_size c) in *. set (sz := st_size (writer c)) in *.
  assert (forall n, sz / s < n -> sz < n * s) as Hover.
  { intros n Hn. pose proof (Z.div_mod sz s ltac:(lia)). pose proof (Z.mod_pos_bound sz s Hs). nia. }
  assert (forall n, n <= sz / s -> n * s <= sz) as Hin.
  { intros n Hn. pose proof (Z.div_mod sz s ltac:(lia)). pose proof (Z.mod_pos_bound sz s Hs). nia. }
  unfold checked_add64, checked_mul64. destruct (Z.leb_spec (lba + blocks) u64_max); [|nia].
  destruct (Z.ltb_spec (sz / s) (lba + blocks)) as [Ho|Ho]; [by apply Hover|]. apply Hin in Ho.
  rewrite !(proj2 (Z.leb_le _ _)) by nia. split_and!; try nia.
  intros i Hi. assert (i / ps <= sz / ps) by (apply Z.div_le_mono; nia).
  pose proof (st_size_fits (writer c) (ck_store _ _ Hc)). split; [apply Z.div_pos; nia|subst sz; lia].
Qed.

(** The pages of a range inside the volume. *)
Lemma page_range_spec c off len :
  cache_ok c -> 0 <= off -> 0 < len -> off + len <= st_size (writer c) ->
  exists range, page_range_for_bytes c off len = Some range /\
    forall i, off <= i < off + len -> in_range range (Z.to_nat (i / ps)) = true.
Proof.
  intros Hc Ho Hl Hs. unfold page_range_for_bytes, checked_add64. rewrite (ck_page _ _ Hc).
  pose proof (st_size_range (writer c) (ck_store _ _ Hc)) as Hsz. pose proof (st_page_pos (W:=W) (ps:=ps)) as Hp.
  pose proof (st_size_fits (writer c) (ck_store _ _ Hc)) as Hf.
  assert (forall i, off <= i < off + len -> off / ps <= i / ps <= (off + (len - 1)) / ps /\ i / ps <= u32_max /\ 0 <= i / ps) as Hi.
  { intros i Hi. assert (i / ps <= st_size (writer c) / ps) by (apply Z.div_le_mono; lia).
    pose proof (Z.div_pos i ps). split; [split; apply Z.div_le_mono; lia|lia]. }
  pose proof (Hi off ltac:(lia)). pose proof (Z.div_pos off ps).
  rewrite (proj2 (Z.eqb_neq _ _)), (proj2 (Z.leb_le _ _)), (proj2 (Z.ltb_ge _ _)) by lia.
  eexists. split; [reflexivity|]. intros i Hr. specialize (Hi i Hr). unfold in_range. simpl.
  rewrite !(proj2 (Z.leb_le _ _)) by lia. done.
Qed.

(** ** SYNCHRONIZE CACHE *)

(** A fence above the memory tier leaves the pages of its range in the
    volume, and in the storage tier reports only a clean drain. *)
Lemma synchronize_spec off len range c c' :
  cache_ok c -> rt_sync_after (live c) <> Memory -> page_range_for_bytes c off len = Some range ->
  synchronize_bytes off len c = (c', Ok (Some tt)) ->
  keeps c c' /\ (forall p, in_range range p = true -> stored (writer c') p = page_bytes c p) /\
  (rt_sync_after (live c) = Storage -> st_wait_for_range (writer c') range = Some DrainClean).
Proof.
  intros Hc Ht Hr Hs. unfold synchronize_bytes in Hs. rewrite run_bind in Hs. cbn [get] in Hs. rewrite Hr in Hs.
  destruct range as [first last]. destruct (flush_drain_spec (in_range (first, last)) c Hc) as (c1 & r & E & Hk & _ & Hd).
  assert (Hst : forall c2, keeps c1 c2 -> inner c2 = inner c1 -> r = Ok tt -> forall p, in_range (first, last) p = true ->
    stored (writer c2) p = page_bytes c p).
  { intros c2 Hk2 Ei -> p Hp. rewrite (clean_stored c2 p); [|apply Hk2|].
    - rewrite (ch_bytes _ _ _ _ Hk2). apply Hk.
    - rewrite Ei. intros Hin. by rewrite (Hd eq_refl p Hin) in Hp. }
  destruct (rt_sync_after (live c)); [| |done]; rewrite run_bind in Hs; unfold flush_pages_in_range in Hs; rewrite E in Hs;
    (destruct r as [[]|e]; [|done]).
  - destruct (fence_spec (first, last) c1 (ch_ok _ _ _ _ Hk)) as (c2 & r2 & E2 & Hk2 & Ei & Hw). rewrite E2 in Hs.
    injection Hs as <- ->. destruct (Hw eq_refl) as [-> Hcl]. split_and!; [done| |done].
    by apply Hst.
  - injection Hs as <-. split_and!; [done| |done]. apply Hst; [|done..]. apply (keeps_refl ps), Hk.
Qed.

(** ** Every history *)

Notation byte_at := (byte_at ps).

Definition cache_event_ok (ev : CacheEvent W) : Prop :=
  match ev with
  | CVolume g => forall w, st_ok w -> st_ok (g w) /\ forall p, st_content (g w) p = st_content w p
  | _ => True
  end.

Definition same_setup c c' : Prop :=
  budget_pages c' = budget_pages c /\ cache_sector_size c' = cache_sector_size c.

Lemma config_setup c c' : same_config c c' -> same_setup c c'.
Proof. by intros []. Qed.

(** The volume under the cache is the same one later, or what a volume event
    made of it. *)
Definition writer_moves (ev : CacheEvent W) c c' : Prop :=
  st_le (writer c) (writer c') \/ exists g, ev = CVolume g /\ writer c' = g (writer c).

Lemma config_moves ev c c' : same_config c c' -> same_setup c c' /\ writer_moves ev c c'.
Proof. intros Hc. split; [by apply config_setup|]. left. apply Hc. Qed.

Definition step_refines (x : CacheEvent W * CacheReply) c c' : Prop :=
  cache_ok c' /\ (same_setup c c' /\ writer_moves x.1 c c') /\ exists g, byte_step x (byte_at c) g /\ forall i, 0 <= i -> byte_at c' i = g i.

Lemma keeps_refines x c c' : byte_step x (byte_at c) (byte_at c) -> keeps c c' -> step_refines x c c'.
Proof.
  intros Hs Hk. split; [apply Hk|]. split; [apply config_moves, Hk|]. eexists. split; [exact Hs|].
  intros i _. by eapply keeps_byte.
Qed.

Lemma overlaid_refines x off data c c' :
  byte_step x (byte_at c) (overlay off data (byte_at c)) -> overlaid ps off data c c' -> step_refines x c c'.
Proof. intros Hs Ho. split; [apply Ho|]. split; [apply config_moves, Ho|]. eexists. split; [exact Hs|]. apply Ho. Qed.

Lemma sync_bytes_keeps off len c :
  cache_ok c -> exists c' r, synchronize_bytes off len c = (c', r) /\ keeps c c'.
Proof.
  intros Hc. unfold synchronize_bytes. rewrite run_bind. cbn [get].
  assert (forall k : EM (PageCache W) UploaderError (option unit),
    (forall c0, cache_ok c0 -> exists c1 r, k c0 = (c1, r) /\ keeps c0 c1) ->
    exists c' r, (match page_range_for_bytes c off len with
      | Some (first, last) => flush_pages_in_range first last;; k
      | None => mret (Some tt) end) c = (c', r) /\ keeps c c') as Hgo.
  { intros k Hk. destruct (page_range_for_bytes c off len) as [[first last]|];
      [|eexists _, _; split; [reflexivity|by apply keeps_refl]].
    rewrite run_bind. unfold flush_pages_in_range.
    destruct (flush_drain_spec (in_range (first, last)) c Hc) as (c1 & r & -> & Hk1 & _).
    destruct r as [[]|e]; [|by eexists _, _]. destruct (Hk c1 (ch_ok _ _ _ _ Hk1)) as (c2 & r2 & -> & Hk2).
    eexists _, _. split; [reflexivity|]. by eapply (keeps_changes ps). }
  destruct (rt_sync_after (live c)).
  - destruct (page_range_for_bytes c off len) as [[first last]|] eqn:E;
      [|eexists _, _; split; [reflexivity|by apply keeps_refl]].
    apply (Hgo (fence_turn (first, last))). intros c0 Hc0. destruct (fence_spec (first, last) c0 Hc0) as (c1 & r & -> & Hk & _).
    by eexists _, _.
  - apply (Hgo (mret (Some tt))). intros c0 Hc0. eexists _, _. split; [reflexivity|by apply keeps_refl].
  - eexists _, _. split; [reflexivity|by apply keeps_refl].
Qed.

Lemma flush_all_keeps c : cache_ok c -> exists c' r, flush_all c = (c', r) /\ keeps c c'.
Proof.
  intros Hc. unfold flush_all. rewrite run_bind.
  destruct (flush_drain_spec (fun _ => true) c Hc) as (c1 & r & -> & Hk1 & _).
  destruct r as [[]|e]; [|by eexists _, _]. rewrite run_bind.
  destruct (persist_keeps c1 (ch_ok _ _ _ _ Hk1)) as (c2 & r2 & -> & Hk2 & _).
  assert (keeps c c2) as Hk by (by eapply (keeps_changes ps)). destruct r2 as [[]|e]; [|by eexists _, _].
  destruct (fence_spec all_pages c2 (ch_ok _ _ _ _ Hk)) as (c3 & r3 & -> & Hk3 & _).
  eexists _, _. split; [reflexivity|]. by eapply (keeps_changes ps).
Qed.

Lemma tick_keeps c : cache_ok c -> keeps c (flush_worker_tick c).
Proof.
  intros Hc. unfold flush_worker_tick.
  assert (keeps c (with_permit false c)) as Hk0 by (by apply keeps_frame).
  destruct (flush_drain_spec (fun _ => true) _ (ch_ok _ _ _ _ Hk0)) as (c1 & r & -> & Hk1 & _). simpl.
  destruct (persist_keeps c1 (ch_ok _ _ _ _ Hk1)) as (c2 & r2 & -> & Hk2 & _). simpl.
  eapply (keeps_changes ps); [exact Hk0|]. by eapply (keeps_changes ps).
Qed.

Lemma tier_keeps mode c : cache_ok c -> exists c' r, set_sync_after mode c = (c', r) /\ keeps c c'.
Proof.
  intros Hc. unfold set_sync_after. rewrite run_bind. unfold on_writer, zoom.
  pose proof (st_persist_law (writer c) (ck_store _ _ Hc)) as Hs.
  destruct (st_persist_runtime (writer c)) as [w r]. simpl in Hs. pose proof (keeps_writer ps c w Hc Hs) as Hk.
  destruct r as [[]|e]; [|by eexists _, _]. rewrite run_bind. simpl. eexists _, _. split; [reflexivity|].
  eapply (keeps_changes ps); [exact Hk|]. by apply (keeps_frame ps); [apply Hk|..].
Qed.

Lemma volume_refines_cache g c :
  cache_ok c -> cache_event_ok (CVolume g) -> step_refines (CVolume g, RDone) c (with_writer (g (writer c)) c).
Proof.
  intros Hc Hg. destruct (Hg _ (ck_store _ _ Hc)) as [Ho Hq].
  assert (forall p, stored (g (writer c)) p = stored (writer c) p) as Hs by (intros p; unfold stored; by rewrite Hq).
  split.
  - pose proof Hc as [H1 H2 H3 H4 H5 H6 H7]. split; simpl; try done. intros p b v Hv. rewrite Hs. by eapply H5.
  - split; [split; [done|]; right; eauto|]. eexists. split; [by constructor|]. intros i _. unfold byte_at, page_bytes. simpl. by rewrite Hs.
Qed.

Lemma event_refines ev c :
  cache_ok c -> cache_event_ok ev ->
  let '(c', r) := cache_event ev c in step_refines (ev, r) c c'.
Proof.
  intros Hc Hev. destruct ev; simpl.
  - unfold in_volume. case_bool_decide as Hr; [|apply keeps_refines; [constructor|by apply keeps_refl]]. destruct Hr.
    destruct (read_bytes_spec ps c off len) as (c' & r & -> & Hk & Ho); [done..|]. destruct r as [o|e]; simpl.
    + rewrite (Ho o eq_refl). by apply keeps_refines; [constructor|].
    + by apply keeps_refines; [constructor|].
  - unfold in_volume. case_bool_decide as Hr; [|apply keeps_refines; [constructor|by apply keeps_refl]]. destruct Hr.
    destruct (write_bytes_spec ps c off data) as (c' & r & n & -> & Ho & Hok); [done..|].
    destruct r as [[]|e]; simpl; (eapply overlaid_refines; [|exact Ho]).
    + rewrite (Hok eq_refl). constructor.
    + constructor.
  - destruct (in_volume _ _ _ && _) eqn:E; [|apply keeps_refines; [constructor|by apply keeps_refl]].
    apply andb_true_iff in E as [[H0 Hs]%bool_decide_eq_true Hn%bool_decide_eq_true].
    destruct (compare_and_write_spec ps c off expected new) as (c' & r & n & -> & Ho & Ht & Hf); [done..|].
    destruct r as [[]|e]; simpl.
    + eapply overlaid_refines; [|exact Ho]. destruct (Ht eq_refl) as [Heq ->]. by constructor.
    + destruct (Hf eq_refl) as [Hne ->]. split; [apply Ho|]. split; [apply config_moves, Ho|]. exists (byte_at c). split; [by constructor|].
      intros i Hi. rewrite (ov_bytes _ _ _ _ _ Ho) by done. by rewrite take_0, overlay_nil.
    + eapply overlaid_refines; [constructor|exact Ho].
  - unfold in_volume. case_bool_decide as Hr; [|apply keeps_refines; [constructor|by apply keeps_refl]]. destruct Hr.
    destruct (unmap_bytes_spec ps c off len) as (c' & r & -> & He & Hok); [done..|].
    destruct r as [[]|e]; simpl.
    + eapply overlaid_refines; [constructor|by apply Hok].
    + split; [apply He|]. split; [apply config_moves, He|]. exists (fun i => if bool_decide (0 <= i) then byte_at c' i else byte_at c i). split.
      * constructor. intros i Hi. case_bool_decide; [by apply He|done].
      * intros i Hi. by rewrite bool_decide_eq_true_2.
  - destruct (sync_bytes_keeps off len c Hc) as (c' & r & -> & Hk).
    by destruct r; (apply keeps_refines; [constructor|]).
  - destruct (flush_all_keeps c Hc) as (c' & r & -> & Hk). by destruct r; (apply keeps_refines; [constructor|]).
  - apply keeps_refines; [by constructor|by apply tick_keeps].
  - destruct (tier_keeps mode c Hc) as (c' & r & -> & Hk). by destruct r; (apply keeps_refines; [constructor|]).
  - by apply volume_refines_cache.
Qed.

Lemma run_refines evs c :
  cache_ok c -> Forall cache_event_ok evs ->
  cache_ok (run_cache evs c) /\ same_setup c (run_cache evs c) /\ byte_run (cache_trace evs c) (byte_at c) (byte_at (run_cache evs c)).
Proof.
  revert c. induction evs as [|ev evs IH]; intros c Hc Hev; [split_and!; [done..|by constructor]|].
  apply Forall_cons in Hev as [He Hev]. simpl. pose proof (event_refines ev c Hc He) as Hs.
  destruct (cache_event ev c) as [c' r]. destruct Hs as (Hc' & [[H1 H2] _] & g & Hg & Hb). simpl.
  destruct (IH c' Hc' Hev) as (Hf & [H3 H4] & Hr). split; [done|]. split; [split; congruence|]. eapply BCons; [exact Hg|exact Hb|exact Hr].
Qed.

Lemma new_cache_ok w sector rt budget n :
  st_ok w -> cache_ok (cache_with_budget_and_concurrency w ps sector rt budget n).
Proof.
  intros Hw. split; try done.
  - exists []. split; [split|..]; simpl; try done.
    + by apply NoDup_nil_2.
    + intros p. split; [set_solver|intros [x Hx]; done].
    + intros p. split; [set_solver|intros (e & Hx & _); done].
  - unfold view. simpl. rewrite map_size_fmap, map_size_empty. lia.
  - simpl. lia.
Qed.

Lemma new_cache_bytes w sector rt budget n p :
  page_bytes (cache_with_budget_and_concurrency w ps sector rt budget n) p = stored w p.
Proof. done. Qed.
End flush.
