(* ===== verification/VolumeCache.v ===== *)
(** * The cache over a volume

    [VolumeWriter] keeps the [PageStore] contract, so the cache theorems are
    theorems about the daemon's volumes: one array of bytes under any
    history, what SYNCHRONIZE CACHE makes durable, page and budget bounds,
    and the volume tail no flush can write. *)

From S2P Require Import Prelude Bytes ByteFile StateError PageIndex UploadIndex BlockLru PoolBudget PageLru Crypto VolumeWriter VolumeProofs DiskCache VolumeHistory PageCache PageCacheProofs CacheBytes CacheHistory.

Local Open Scope Z_scope.

Definition page_index_sync : EM VolumeWriter UploaderError unit :=
  external EUploadIndex;; external EIo.

#[export] Instance volume_store `{VolumeCrypto} : PageStore VolumeWriter := {|
  st_read := read_page;
  st_write := write_page_unsynced;
  st_clear := clear_page;
  st_sync := page_index_sync;
  st_persist_runtime := external EVolume;
  st_size := live_size_bytes;
  st_wait_for_range w := wait_for_range (uploads w);
  st_retry := retry_failed_uploads_in_range;
|}.

Section instance.
Context `{VolumeCryptoLaws} (ps : Z) (Hps : 0 < ps <= u32_max).

#[export] Instance volume_model : PageStoreModel VolumeWriter := {|
  st_ok w := good w /\ page_size (manifest w) = ps;
  st_content := page_content;
  st_le := volume_le;
|}.

Lemma page_content_entry w p bs : page_content w p = Some bs -> exists e, get_entry (page_index w) p = Some e.
Proof. unfold page_content. destruct (get_entry (page_index w) p); [eauto|done]. Qed.

Lemma grows_st_keeps w w' : st_ok w -> grows w w' -> st_keeps w w'.
Proof.
  intros [Hw Hm] Hg. split; simpl.
  - split; [by eapply good_grows|]. by rewrite (g_manifest _ _ Hg).
  - apply Hg.
  - intros p. apply page_content_grows; [apply Hw|done].
  - by apply grows_le.
Qed.

Lemma external_keeps w e : st_ok w -> st_keeps w (external e w).1.
Proof.
  intros Hw. destruct (external_env e w) as (env & [Hx|Hx]); rewrite Hx; simpl;
    (apply grows_st_keeps; [done|apply grows_env]).
Qed.

(** An event that leaves the pages alone. *)
Lemma event_st_keeps w ev :
  st_ok w -> event_ok ps ev ->
  match ev with EvWrite _ _ | EvClear _ => False | _ => True end ->
  st_ok (volume_event ev w) /\ forall p, page_content (volume_event ev w) p = page_content w p.
Proof.
  intros [Hw Hm] Hev Hk. rewrite <- Hm in Hev. destruct (volume_step w ev Hw Hev) as (Hw' & Em & Hc).
  split; [by split; [|congruence]|]. intros p. specialize (Hc p). by destruct ev.
Qed.

Lemma write_st_puts w p bs :
  st_ok w ->
  st_puts p (Some bs) w (write_page_unsynced p bs w).1 /\
  forall o, (write_page_unsynced p bs w).2 = Ok o -> page_content (write_page_unsynced p bs w).1 p = Some bs.
Proof.
  intros [Hw Hm]. destruct (volume_step w (EvWrite p bs) Hw I) as (Hw' & Em & _). simpl in *.
  destruct (write_page_spec w p bs (good_wf _ Hw)) as (w' & r & E & Hr); [|by destruct Hw|].
  { unfold channel_ok. by rewrite (good_sender _ Hw). }
  rewrite E in *. simpl in *. split.
  - split; simpl; [split; [done|congruence]|apply Hr|apply Hr|apply Hr|apply Hr].
  - intros o ->. by eapply wr_ok.
Qed.

Lemma clear_st_puts w p :
  st_ok w -> (Z.of_nat p + 1) * ps <= live_size_bytes w ->
  st_puts p None w (clear_page p w).1 /\ page_content (clear_page p w).1 p = None.
Proof.
  intros [Hw Hm] Hp. pose proof (v_live _ (good_wf _ Hw)) as Hl. unfold size_ok in Hl. rewrite Hm in Hl.
  assert (Z.of_nat p + 1 <= live_size_bytes w / ps) by (apply Z.div_le_lower_bound; lia).
  destruct (clear_step w p Hw ltac:(lia)) as (Hw' & Em & Hc). simpl in Hc. split.
  - split; simpl; [split; [done|exact Hm]|done| | |].
    + intros q Hq. specialize (Hc q). by rewrite bool_decide_eq_false_2 in Hc.
    + right. specialize (Hc p). by rewrite bool_decide_eq_true_2 in Hc.
    + by split.
  - specialize (Hc p). by rewrite bool_decide_eq_true_2 in Hc.
Qed.

Lemma retry_live l n w :
  sender w = Some true -> live_size_bytes (retry_pages l n w).1 = live_size_bytes w.
Proof.
  revert n w. induction l as [|q l IH]; intros n w Hw; [done|]. simpl. rewrite run_bind. simpl.
  destruct (pending_upload_payload w q).
  - rewrite run_bind. simpl. rewrite run_bind, send_open by done. simpl. by rewrite IH.
  - rewrite run_bind. simpl. by rewrite IH.
Qed.

#[export] Instance volume_laws : PageStoreLaws VolumeWriter ps.
Proof.
  split.
  - lia.
  - intros w [Hw Hm]. pose proof (v_live _ (good_wf _ Hw)) as Hl. unfold size_ok in Hl. by rewrite Hm in Hl.
  - intros w [Hw Hm]. pose proof (v_live _ (good_wf _ Hw)) as Hl. unfold size_ok in Hl. rewrite Hm in Hl. simpl.
    pose proof (good_live _ Hw) as Hg. rewrite Hm in Hg. split; [lia|].
    pose proof (Z.div_mod (live_size_bytes w) ps ltac:(lia)). pose proof (Z.mod_pos_bound (live_size_bytes w) ps ltac:(lia)).
    unfold u32_max, u64_max in *. nia.
  - intros w p bs [Hw Hm] Hb. destruct (page_content_entry _ _ _ Hb) as [e He].
    destruct (v_pages _ (good_wf _ Hw) p e He) as (b & Hb' & Hl). simpl in Hb. congruence.
  - intros w p Hw. destruct (read_page_spec w p (good_wf _ (proj1 Hw))) as (w' & r & E & Hg & Ho).
    simpl. rewrite E. split; [by apply grows_st_keeps|]. done.
  - intros w p bs Hw _. by apply write_st_puts.
  - intros w p Hw Hp. destruct (clear_st_puts w p Hw Hp). by split.
  - intros w Hw. simpl. unfold page_index_sync. rewrite run_bind. pose proof (external_keeps w EUploadIndex Hw) as Hk.
    destruct (external EUploadIndex w) as [w1 [[]|e]]; [|done]. simpl in Hk.
    destruct (external_keeps w1 EIo (sk_ok _ _ Hk)) as [H1 H2 H3 H4]. destruct Hk as [H5 H6 H7 H8].
    split; [done|congruence| |by etrans]. intros p. by rewrite H3.
  - intros w Hw. by apply external_keeps.
  - intros w range Hw. destruct (event_st_keeps w (EvRetry range) Hw I I) as [Hw' Hc].
    revert Hw' Hc. simpl. unfold retry_failed_uploads_in_range. rewrite run_bind. simpl.
    rewrite (good_sender _ (proj1 Hw)). intros Hw' Hc. split; [done|apply retry_live, Hw|done|].
    apply same_data_le, retry_pages_spec, Hw.
  - apply _.
Qed.
End instance.

(** What the rest of the daemon does to a volume under a live cache. *)
Definition background (ev : VolumeEvent) : Prop :=
  match ev with EvWrite _ _ | EvClear _ | EvRestart => False | _ => True end.

Section theorems.
Context `{VolumeCryptoLaws}.

Definition activity_ok (ps : Z) (ev : CacheEvent VolumeWriter) : Prop :=
  match ev with
  | CVolume g => exists vev, g = volume_event vev /\ background vev /\ event_ok ps vev
  | _ => True
  end.

Definition new_cache (m : Manifest) (w : VolumeWriter) (rt : VolumeRuntime) (budget_bytes : Z) (n : nat) :
    PageCache VolumeWriter :=
  cache_with_budget_and_concurrency w (page_size m) (sector_bytes m) rt budget_bytes n.

Lemma activity_event_ok ps ev : activity_ok ps ev -> @cache_event_ok _ (volume_model ps) ev.
Proof.
  destruct ev; try done. intros (vev & -> & Hb & Hev) w Hw. apply event_st_keeps; [done..|]. by destruct vev.
Qed.

Lemma new_volume_ok m key b e w0 :
  manifest_ok m -> new_volume m key b e = Some w0 ->
  @st_ok _ (volume_model (page_size m)) w0 /\ forall p, page_content w0 p = None.
Proof.
  intros Hm Hn. destruct (new_volume_good m key b e w0 Hm Hn) as (Hg & _ & Em & Hc). split; [|done].
  split; [done|]. by rewrite Em.
Qed.

(** The bytes a host sees through the cache of a volume made from [m]. *)
Definition volume_byte (m : Manifest) (c : PageCache VolumeWriter) (i : Z) : Z :=
  @byte_at _ (page_size m) (volume_model (page_size m)) c i.

Definition reachable_ok (m : Manifest) (c : PageCache VolumeWriter) : Prop :=
  @cache_ok _ (page_size m) (volume_model (page_size m)) c.

Lemma new_cache_stored m w rt budget n p :
  @page_bytes _ (page_size m) (volume_model (page_size m)) (new_cache m w rt budget n) p =
  default (zeros (page_size m)) (page_content w p).
Proof. done. Qed.

(** A cache after a history. *)
Lemma cache_reachable m w rt budget n evs :
  manifest_ok m -> @st_ok _ (volume_model (page_size m)) w -> Forall (activity_ok (page_size m)) evs ->
  let c0 := new_cache m w rt budget n in
  let c := run_cache evs c0 in
  reachable_ok m c /\ same_setup c0 c /\ byte_run (cache_trace evs c0) (volume_byte m c0) (volume_byte m c).
Proof.
  intros Hm Hw Hev c0 c. pose proof (volume_laws (page_size m) (mo_page _ Hm)) as HL.
  apply (run_refines (page_size m)).
  - by apply (new_cache_ok (page_size m)).
  - eapply Forall_impl; [exact Hev|]. apply activity_event_ok.
Qed.

(** C1: a volume behind its cache is one array of bytes.  From a new volume
    and a new cache of any budget, every history of host commands, flush
    ticks, fences and background volume activity is a history of one array
    of bytes, zero at first: a READ returns the array, a WRITE and an UNMAP
    that succeed overlay it, a COMPARE AND WRITE swaps exactly when the bytes
    match, a WRITE that fails has written a prefix, and nothing else
    changes it. *)
Theorem volume_cache_refines m key b e w0 rt budget n evs :
  manifest_ok m -> new_volume m key b e = Some w0 -> Forall (activity_ok (page_size m)) evs ->
  let c0 := new_cache m w0 rt budget n in
  (forall i, volume_byte m c0 i = 0) /\
  byte_run (cache_trace evs c0) (volume_byte m c0) (volume_byte m (run_cache evs c0)).
Proof.
  intros Hm Hn Hev c0. destruct (new_volume_ok m key b e w0 Hm Hn) as [Hw Hc]. split.
  - intros i. unfold volume_byte, byte_at. subst c0. rewrite new_cache_stored, Hc. simpl.
    unfold zeros. destruct (replicate _ 0 !! _) as [x|] eqn:E; [|done]. by apply lookup_replicate in E as [-> _].
  - by apply cache_reachable.
Qed.


(** the range check is exact and safe.  On a reachable cache
    [resolve_range] accepts exactly the block ranges that fit the volume's
    current size; the byte window it returns is inside the volume, below
    2^64, and on pages a 32-bit page id can name. *)
Theorem resolve_range_exact m key b e w0 rt budget n evs lba blocks :
  manifest_ok m -> new_volume m key b e = Some w0 -> Forall (activity_ok (page_size m)) evs ->
  0 < sector_bytes m -> 0 <= lba -> 0 <= blocks ->
  let c := run_cache evs (new_cache m w0 rt budget n) in
  let s := sector_bytes m in
  match resolve_range c lba blocks with
  | Ok (off, len) =>
      off = lba * s /\ len = blocks * s /\ 0 <= off /\ 0 <= len /\
      off + len <= live_size_bytes (writer c) <= u64_max /\
      forall i, off <= i < off + len -> 0 <= i / page_size m <= u32_max
  | Err _ => live_size_bytes (writer c) < (lba + blocks) * s
  end.
Proof.
  intros Hm Hn Hev Hs Hl Hb c s. destruct (new_volume_ok m key b e w0 Hm Hn) as [Hw _].
  destruct (cache_reachable m w0 rt budget n evs Hm Hw Hev) as (Hc & [_ Es] & _). fold c in Hc, Es.
  pose proof (volume_laws (page_size m) (mo_page _ Hm)) as HL.
  pose proof (resolve_range_spec (page_size m) c lba blocks Hc Hl Hb) as Hr. rewrite Es in Hr.
  by apply Hr.
Qed.


(** the partial last page of a volume can never be flushed.  When the size
    is not a multiple of the page size, the last sectors pass the range check
    and writes to them are accepted, but once their page is dirty every
    [flush_all] fails and leaves it dirty. *)
Theorem tail_page_unflushable m key b e w0 rt budget n evs p :
  manifest_ok m -> new_volume m key b e = Some w0 -> Forall (activity_ok (page_size m)) evs ->
  let c := run_cache evs (new_cache m w0 rt budget n) in
  p = Z.to_nat (live_size_bytes (writer c) / page_size m) -> p ∈ dirty (inner c) ->
  exists c' err, flush_all c = (c', Err err) /\ p ∈ dirty (inner c').
Proof.
  intros Hm Hn Hev c Hp Hd. destruct (new_volume_ok m key b e w0 Hm Hn) as [Hw _].
  destruct (cache_reachable m w0 rt budget n evs Hm Hw Hev) as (Hc & _ & _). fold c in Hc.
  pose proof (volume_laws (page_size m) (mo_page _ Hm)) as HL. pose proof (mo_page _ Hm) as Hps.
  pose (M := volume_model (page_size m)). assert (stuck (page_size m) p c) as Hs.
  { split; [done|]. split; [done|]. intros w bs [Hgw Hpw] Esz. simpl in *. unfold write_page_unsynced.
    rewrite run_bind. simpl. destruct (negb _); [by eexists|].
    pose proof (good_live _ Hgw). rewrite Hpw in *.
    assert (0 < live_size_bytes w / page_size m) by (apply Z.div_str_pos; lia).
    rewrite (proj2 (Z.ltb_lt (last_page_id w) (Z.of_nat p))); [by eexists|].
    unfold last_page_id, sat_sub. rewrite Hpw. subst p. rewrite <- Esz. lia. }
  destruct (flush_stuck (page_size m) p (fun _ => true) c Hs eq_refl) as (c1 & err & E & _ & Hin & _).
  exists c1, err. split; [|done]. unfold flush_all. by rewrite run_bind, E.
Qed.
End theorems.

(** ** A small volume with a two-page cache *)

Definition idle_runtime : VolumeRuntime := mkRuntime 0 0 0 0 Storage.

Definition small_cache : PageCache VolumeWriter :=
  new_cache small_manifest small_volume idle_runtime 8 2.

Definition small_commands : list (CacheEvent VolumeWriter) :=
  [CWrite 2 [1; 2; 3; 4]; CVolume (@volume_event model_crypto (EvPut 0)); CWrite 8 [9; 9; 9; 9];
   CCompareWrite 2 [1; 2] [7; 7]; CUnmap 8 4; CRead 1 6].

Lemma small_commands_ok : Forall (@activity_ok model_crypto (page_size small_manifest)) small_commands.
Proof. repeat constructor. exists (EvPut 0). by repeat constructor. Qed.

Lemma volume_cache_refines_witness :
  byte_run (@cache_trace _ (@volume_store model_crypto) small_commands small_cache)
    (@volume_byte model_crypto small_manifest small_cache)
    (@volume_byte model_crypto small_manifest
      (@run_cache _ (@volume_store model_crypto) small_commands small_cache)) /\
  last (@cache_trace _ (@volume_store model_crypto) small_commands small_cache) =
    Some (CRead 1 6, RBytes [0; 7; 7; 3; 4; 0]).
Proof.
  split; [|vm_compute; reflexivity].
  apply (@volume_cache_refines model_crypto model_crypto_laws small_manifest None unbounded quiet small_volume
    idle_runtime 8 2 small_commands small_manifest_ok eq_refl small_commands_ok).
Defined.


Lemma resolve_range_exact_witness :
  let c := @run_cache _ (@volume_store model_crypto) small_commands small_cache in
  @resolve_range _ (@volume_store model_crypto) c 5 1 = Ok (10, 2) /\ 0 <= 11 / 4 <= u32_max.
Proof.
  cbv zeta. split; [vm_compute; reflexivity|].
  pose proof (@resolve_range_exact model_crypto model_crypto_laws small_manifest None unbounded quiet small_volume
    idle_runtime 8 2 small_commands 5 1 small_manifest_ok eq_refl small_commands_ok eq_refl ltac:(lia) ltac:(lia)) as Hr.
  cbv zeta in Hr.
  replace (resolve_range _ 5 1) with (@Ok (Z * Z) RangeError (10, 2)) in Hr by (vm_compute; reflexivity).
  destruct Hr as (_ & _ & _ & _ & _ & Hi). apply (Hi 11). lia.
Defined.

(** A write, an upload in progress, a fence once the worker is done. *)
Definition fenced_commands : list (CacheEvent VolumeWriter) :=
  [CWrite 2 [1; 2; 3; 4]; CSync 0 8; CVolume (@volume_event model_crypto (EvPut 0));
   CVolume (@volume_event model_crypto (EvApply 0)); CVolume (@volume_event model_crypto (EvPut 0));
   CVolume (@volume_event model_crypto (EvApply 0))].


(** Two and a half pages. *)
Definition ragged_manifest : Manifest :=
  mkManifest (replicate 16 1) 10 2 4 Local false false None None.

Definition ragged_volume : VolumeWriter :=
  match @new_volume ragged_manifest None unbounded quiet with Some w => w | None => small_volume end.

Lemma tail_page_unflushable_witness :
  let c := @run_cache _ (@volume_store model_crypto) [CWrite 8 [5; 6]]
    (new_cache ragged_manifest ragged_volume idle_runtime 8 2) in
  map snd (@cache_trace _ (@volume_store model_crypto) [CWrite 8 [5; 6]]
    (new_cache ragged_manifest ragged_volume idle_runtime 8 2)) = [RDone] /\
  exists c' err, @flush_all _ (@volume_store model_crypto) c = (c', Err err) /\ 2%nat ∈ dirty (inner c').
Proof.
  cbv zeta. split; [vm_compute; reflexivity|].
  apply (@tail_page_unflushable model_crypto model_crypto_laws ragged_manifest None unbounded quiet ragged_volume
    idle_runtime 8 2 [CWrite 8 [5; 6]] 2).
  - split; unfold u32_max; simpl; try lia; done.
  - vm_compute. reflexivity.
  - repeat constructor.
  - vm_compute. reflexivity.
  - by vm_compute.
Defined.
