(* ===== verification/CacheRaces.v ===== *)
(** * Interleavings of flushes, evictions and loads ([core/block/src/cache.rs])

    The cache drops its lock around every volume access.  Here the steps are
    the critical sections themselves: a flush, an eviction and a load are two
    or three steps with anything between them.  The entry version protects a
    write that races one flush; it does not protect against a second flush of
    the same page, an UNMAP or an eviction. *)

From S2P Require Import Prelude PageLru.

Local Open Scope Z_scope.

(** What a task holds between its critical sections. *)
Inductive Flight : Type :=
  | Flushing (p : nat) (bs : list Z) (v : Z)    (** snapshot taken, not yet bound *)
  | Flushed (p : nat) (v : Z)                   (** bound in [pages.idx] *)
  | Evicting (p : nat) (bs : list Z) (v : Z)
  | Evicted (p : nat) (v : Z)
  | Loading (p : nat) (bs : list Z).

Definition flight_page (f : Flight) : nat :=
  match f with Flushing p _ _ | Flushed p _ | Evicting p _ _ | Evicted p _ | Loading p _ => p end.

(** The cache, the pages the volume has bound, and the tasks in flight. *)
Record RaceState : Type := mkRace {
  r_inner : CacheInner;
  r_volume : gmap nat (list Z);
  r_flights : list Flight;
}.

Inductive RaceEvent : Type :=
  | KWrite (p : nat) (bs : list Z)   (** [install_full_page] *)
  | KFlush (p : nat)                 (** [flush_one], snapshot *)
  | KEvict (p : nat)                 (** [evict_to_fit], dirty victim *)
  | KDropClean (p : nat)             (** [evict_to_fit], clean victim *)
  | KLoad (p : nat)                  (** [load_page_miss], volume read *)
  | KBind (k : nat)                  (** the write of flight [k] binds its page *)
  | KCommit (k : nat)                (** the last critical section of flight [k] *)
  | KUnmapDrop (p : nat)             (** [unmap_full_page], cache entry *)
  | KUnmapClear (p : nat).           (** [unmap_full_page], page index *)

Definition dirty_snapshot (s : RaceState) (p : nat) : option (list Z * Z) :=
  match pages (r_inner s) !! p with
  | Some e => if bool_decide (state e = Dirty) then Some (bytes e, version e) else None
  | None => None
  end.

Definition set_flight (k : nat) (f : Flight) (l : list Flight) : list Flight := <[k := f]> l.

Definition race_event (ev : RaceEvent) (s : RaceState) : RaceState :=
  let '(mkRace i vol fl) := s in
  match ev with
  | KWrite p bs => mkRace (commit_install i p bs) vol fl
  | KFlush p =>
      match dirty_snapshot s p with
      | Some (bs, v) => mkRace i vol (fl ++ [Flushing p bs v])
      | None => s
      end
  | KEvict p =>
      match dirty_snapshot s p with
      | Some (bs, v) => mkRace i vol (fl ++ [Evicting p bs v])
      | None => s
      end
  | KDropClean p =>
      match pages i !! p with
      | Some e => if bool_decide (state e = Clean) then mkRace (drop_entry i p).1 vol fl else s
      | None => s
      end
  | KLoad p =>
      match pages i !! p, vol !! p with
      | None, Some bs => mkRace i vol (fl ++ [Loading p bs])
      | _, _ => s
      end
  | KBind k =>
      match fl !! k with
      | Some (Flushing p bs v) => mkRace i (<[p := bs]> vol) (set_flight k (Flushed p v) fl)
      | Some (Evicting p bs v) => mkRace i (<[p := bs]> vol) (set_flight k (Evicted p v) fl)
      | _ => s
      end
  | KCommit k =>
      match fl !! k with
      | Some (Flushed p v) => mkRace (commit_flushed i p v) vol (delete k fl)
      | Some (Evicted p v) => mkRace (commit_evicted i p v) vol (delete k fl)
      | Some (Loading p bs) => mkRace (commit_loaded i p bs).1 vol (delete k fl)
      | _ => s
      end
  | KUnmapDrop p => mkRace (drop_entry i p).1 vol fl
  | KUnmapClear p => mkRace i (delete p vol) fl
  end.

Definition run_race (evs : list RaceEvent) (s : RaceState) : RaceState :=
  fold_left (fun s ev => race_event ev s) evs s.

Definition race_new : RaceState := mkRace inner_new ∅ [].

(** What the host reads. *)
Definition host_page (s : RaceState) (p : nat) : option (list Z) :=
  match pages (r_inner s) !! p with Some e => Some (bytes e) | None => r_volume s !! p end.

(** ** Where the version check is not enough *)


(** entry versions restart, so a flush can mark unwritten bytes clean.
    While a flush of [[1]] is in flight the page is unmapped and written
    again; the new entry has the same version, and the flush marks it clean
    though [[2]] was never written. *)
Theorem version_restart_loses_write :
  let s := run_race [KWrite 0 [1]; KFlush 0; KBind 0; KUnmapDrop 0; KUnmapClear 0; KWrite 0 [2]; KCommit 0] race_new in
  host_page s 0 = Some [2] /\ dirty (r_inner s) = ∅ /\ r_volume s !! 0%nat = None /\
  host_page (run_race [KDropClean 0] s) 0 = None.
Proof. vm_compute. done. Qed.

(** UNMAP does not stop what is in flight.  A flush that took its bytes
    before an UNMAP binds them after it, and a load that read the page before
    caches it after, so the unmapped data comes back. *)
Theorem unmap_undone_by_flight :
  let s := run_race [KWrite 0 [1]; KFlush 0; KUnmapDrop 0; KUnmapClear 0; KBind 0; KCommit 0] race_new in
  let t := run_race [KWrite 0 [1]; KFlush 0; KBind 0; KCommit 0; KDropClean 0; KLoad 0;
                     KUnmapDrop 0; KUnmapClear 0; KCommit 0] race_new in
  host_page s 0 = Some [1] /\ host_page t 0 = Some [1] /\ r_volume t !! 0%nat = None.
Proof. vm_compute. done. Qed.

(** ** Where it is *)

(** One task at a time on a page, but for host writes, and no UNMAP. *)
Definition free_page (s : RaceState) (p : nat) : Prop :=
  p ∉ flight_page <$> r_flights s.

Definition exclusive (ev : RaceEvent) (s : RaceState) : Prop :=
  match ev with
  | KFlush p | KEvict p | KDropClean p | KLoad p => free_page s p
  | KWrite _ _ | KBind _ | KCommit _ => True
  | KUnmapDrop _ | KUnmapClear _ => False
  end.

Fixpoint exclusive_run (evs : list RaceEvent) (s : RaceState) : Prop :=
  match evs with
  | [] => True
  | ev :: evs => exclusive ev s /\ exclusive_run evs (race_event ev s)
  end.

(** The last bytes the host wrote. *)
Definition last_written (evs : list RaceEvent) (p : nat) : option (list Z) :=
  fold_left (fun acc ev => match ev with
    | KWrite q bs => if bool_decide (q = p) then Some bs else acc
    | _ => acc end) evs None.

(** What a flight knows of its page. *)
Definition flight_ok (c : gmap nat (list Z * PageState * Z)) (vol : gmap nat (list Z)) (f : Flight) : Prop :=
  match f with
  | Flushing p bs v | Evicting p bs v =>
      exists b v', c !! p = Some (b, Dirty, v') /\ v <= v' /\ (v' = v -> b = bs)
  | Flushed p v | Evicted p v =>
      exists b v', c !! p = Some (b, Dirty, v') /\ v <= v' /\ (v' = v -> vol !! p = Some b)
  | Loading p bs => (c !! p = None /\ vol !! p = Some bs) \/ exists b v, c !! p = Some (b, Dirty, v)
  end.

Record race_ok (n : Z) (s : RaceState) : Prop := {
  rk_count : 0 <= n;
  rk_lru : exists l, inner_wf (r_inner s) l;
  rk_clean p b v : view (r_inner s) !! p = Some (b, Clean, v) -> r_volume s !! p = Some b;
  rk_version p b st v : view (r_inner s) !! p = Some (b, st, v) -> 0 <= v <= n;
  rk_nodup : NoDup (flight_page <$> r_flights s);
  rk_flights f : f ∈ r_flights s -> flight_ok (view (r_inner s)) (r_volume s) f;
}.

Lemma host_page_view s p :
  host_page s p = match view (r_inner s) !! p with Some (b, _, _) => Some b | None => r_volume s !! p end.
Proof. unfold host_page. rewrite lookup_view. by destruct (pages (r_inner s) !! p). Qed.

Lemma dirty_snapshot_view s p bs v :
  dirty_snapshot s p = Some (bs, v) -> view (r_inner s) !! p = Some (bs, Dirty, v).
Proof.
  unfold dirty_snapshot. rewrite lookup_view. destruct (pages (r_inner s) !! p) as [e|]; [|done].
  case_bool_decide as E; [|done]. intros [= <- <-]. unfold payload. simpl. by rewrite E.
Qed.

(** A flight sees only its own page. *)
Lemma flight_frame c c' vol vol' f :
  c' !! flight_page f = c !! flight_page f -> vol' !! flight_page f = vol !! flight_page f ->
  flight_ok c vol f -> flight_ok c' vol' f.
Proof. intros Hc Hv. destruct f; simpl in *; by rewrite Hc, ?Hv. Qed.

Lemma other_flight (fl : list Flight) k f g :
  NoDup (flight_page <$> fl) -> fl !! k = Some f -> g ∈ delete k fl -> g ∈ fl /\ flight_page g <> flight_page f.
Proof.
  intros Hnd Hk Hg. pose proof Hg as Hin. rewrite delete_take_drop in Hin.
  assert (fl = take k fl ++ f :: drop (S k) fl) as Hfl by (symmetry; by apply take_drop_middle).
  split; [rewrite Hfl; set_solver|]. rewrite Hfl, fmap_app in Hnd. simpl in Hnd. apply NoDup_middle in Hnd as (H1 & H2 & _).
  intros He. apply elem_of_app in Hin as [Hin|Hin]; [apply H1|apply H2]; rewrite <- He; by apply list_elem_of_fmap_2.
Qed.

Lemma delete_nodup (fl : list Flight) k :
  NoDup (flight_page <$> fl) -> NoDup (flight_page <$> delete k fl).
Proof. intros Hnd. eapply sublist_NoDup; [exact Hnd|]. apply fmap_sublist, sublist_delete. Qed.

Definition written_by (ev : RaceEvent) (s : RaceState) (p : nat) : option (list Z) :=
  match ev with
  | KWrite q bs => if bool_decide (q = p) then Some bs else host_page s p
  | _ => host_page s p
  end.

Definition race_step_ok (n : Z) (ev : RaceEvent) (s : RaceState) : Prop :=
  race_ok (n + 1) (race_event ev s) /\ forall p, host_page (race_event ev s) p = written_by ev s p.

Lemma race_ok_later n s : race_ok n s -> race_ok (n + 1) s.
Proof. intros [H0 H1 H2 H3 H4 H5]. split; try done; [lia|]. intros p b st v Hv. apply H3 in Hv. lia. Qed.

Lemma race_idle n ev s :
  race_ok n s -> race_event ev s = s -> (forall p, written_by ev s p = host_page s p) -> race_step_ok n ev s.
Proof. intros Hs He Hw. split; [rewrite He; by apply race_ok_later|]. intros p. by rewrite He, Hw. Qed.

Lemma write_race n s p bs : race_ok n s -> n < u64_max -> race_step_ok n (KWrite p bs) s.
Proof.
  intros [H0 [l Hl] Hcl Hver Hnd Hfl] Hn. destruct s as [i vol fl]. simpl in *.
  set (e := default (mkEntry [] Clean 0 None None) (pages i !! p)).
  destruct (put_dirty_wf i l p e bs Hl eq_refl) as [Hl' Hv].
  assert (0 <= version e <= n) as He.
  { subst e. destruct (pages i !! p) as [x|] eqn:E; simpl.
    - apply (Hver p (bytes x) (state x)). by rewrite lookup_view, E.
    - lia. }
  assert (wrap64 (version e + 1) = version e + 1) as Hw by (apply Z.mod_small; unfold u64_max in *; lia).
  rewrite Hw in Hv. change (put_dirty i p e bs) with (commit_install i p bs) in *. split.
  - split; simpl; [lia|by eexists| | |done|].
    + intros q b v. rewrite Hv, lookup_insert. case_decide; [done|]. apply Hcl.
    + intros q b st v. rewrite Hv, lookup_insert. case_decide; [intros [= <- <- <-]; lia|]. intros Hq.
      apply Hver in Hq. lia.
    + intros f Hf. specialize (Hfl f Hf). rewrite Hv. destruct (decide (flight_page f = p)) as [Hp|Hp].
      * assert (forall b v', view i !! p = Some (b, Dirty, v') -> version e = v') as Hve.
        { intros b v' Hx. apply view_state in Hx as (x & Hx & _ & _ & <-). subst e. by rewrite Hx. }
        destruct f; simpl in *; subst; rewrite lookup_insert_eq;
          try (destruct Hfl as (b & v' & Hx & Hle & _); rewrite (Hve _ _ Hx); eexists _, _;
               split; [reflexivity|]; split; lia).
        right. by eexists _, _.
      * eapply flight_frame; [|done|exact Hfl]. by rewrite lookup_insert_ne.
  - intros q. rewrite !host_page_view. simpl. rewrite Hv, lookup_insert, host_page_view. simpl.
    case_decide; [by rewrite bool_decide_eq_true_2|by rewrite bool_decide_eq_false_2].
Qed.

(** A new flight on a free page. *)
Lemma launch n s f :
  race_ok n s -> free_page s (flight_page f) -> flight_ok (view (r_inner s)) (r_volume s) f ->
  race_ok (n + 1) (mkRace (r_inner s) (r_volume s) (r_flights s ++ [f])).
Proof.
  intros Hs Hfree Hf. apply race_ok_later in Hs as [H0 H1 H2 H3 H4 H5]. split; try done; simpl.
  - rewrite fmap_app. apply NoDup_app. split; [done|]. split; [|apply NoDup_singleton].
    simpl. intros q Hq ->%list_elem_of_singleton. done.
  - intros g [Hg| ->%list_elem_of_singleton]%elem_of_app; auto.
Qed.

Lemma snapshot_race n s p (mk : nat -> list Z -> Z -> Flight) ev :
  race_ok n s -> free_page s p -> (mk = Flushing /\ ev = KFlush p \/ mk = Evicting /\ ev = KEvict p) ->
  race_step_ok n ev s.
Proof.
  intros Hs Hfree Hev. destruct (dirty_snapshot s p) as [[bs v]|] eqn:E.
  - pose proof (dirty_snapshot_view _ _ _ _ E) as Hv.
    assert (race_event ev s = mkRace (r_inner s) (r_volume s) (r_flights s ++ [mk p bs v])) as He.
    { destruct s. destruct Hev as [[-> ->]|[-> ->]]; simpl; by rewrite E. }
    split.
    + rewrite He. apply launch; [done|destruct Hev as [[-> _]|[-> _]]; done|].
      destruct Hev as [[-> _]|[-> _]]; simpl; exists bs, v; (split; [done|]); (split; [lia|done]).
    + intros q. rewrite He, !host_page_view. simpl. destruct Hev as [[_ ->]|[_ ->]]; simpl; by rewrite host_page_view.
  - apply race_idle; [done| |].
    + destruct s. destruct Hev as [[-> ->]|[-> ->]]; simpl; by rewrite E.
    + intros q. destruct Hev as [[_ ->]|[_ ->]]; done.
Qed.

Lemma load_race n s p : race_ok n s -> free_page s p -> race_step_ok n (KLoad p) s.
Proof.
  intros Hs Hfree. destruct (pages (r_inner s) !! p) as [e|] eqn:E, (r_volume s !! p) as [bs|] eqn:Ev;
    try (apply race_idle; [done|destruct s; simpl in *; by rewrite E, ?Ev|done]).
  assert (race_event (KLoad p) s = mkRace (r_inner s) (r_volume s) (r_flights s ++ [Loading p bs])) as He
    by (destruct s; simpl in *; by rewrite E, Ev).
  split; [|intros q; rewrite He; done]. rewrite He. apply launch; [done..|]. simpl. left.
  by rewrite lookup_view, E.
Qed.

(** Dropping an entry the volume has, on a page no flight is on. *)
Lemma drop_race n s i p b st v fl :
  race_ok n s -> (exists l, inner_wf i l) -> view i = delete p (view (r_inner s)) ->
  view (r_inner s) !! p = Some (b, st, v) -> r_volume s !! p = Some b ->
  NoDup (flight_page <$> fl) -> (forall f, f ∈ fl -> f ∈ r_flights s /\ flight_page f <> p) ->
  let s' := mkRace i (r_volume s) fl in
  race_ok (n + 1) s' /\ forall q, host_page s' q = host_page s q.
Proof.
  intros [H0 H1 H2 H3 H4 H5] Hl Hv Hp Hb Hnd Hfl s'. split.
  - split; simpl; [lia|done| | |done|].
    + intros q b' v'. rewrite Hv. intros [_ Hq]%lookup_delete_Some. by eapply H2.
    + intros q b' st' v'. rewrite Hv. intros [_ Hq]%lookup_delete_Some. apply H3 in Hq. lia.
    + intros f Hf. destruct (Hfl f Hf) as [Hin Hne]. eapply flight_frame; [|done|by apply H5].
      rewrite Hv. by rewrite lookup_delete_ne.
  - intros q. rewrite !host_page_view. simpl. rewrite Hv. destruct (decide (q = p)) as [->|Hne].
    + by rewrite lookup_delete_eq, Hp.
    + by rewrite lookup_delete_ne.
Qed.

Lemma drop_clean_race n s p : race_ok n s -> free_page s p -> race_step_ok n (KDropClean p) s.
Proof.
  intros Hs Hfree. pose proof Hs as [H0 [l Hl] H2 H3 H4 H5].
  destruct (pages (r_inner s) !! p) as [e|] eqn:E;
    [|apply race_idle; [done|destruct s; simpl in *; by rewrite E|done]].
  destruct (decide (state e = Clean)) as [Hc|Hc];
    [|apply race_idle; [done|destruct s; simpl in *; by rewrite E, bool_decide_eq_false_2|done]].
  assert (view (r_inner s) !! p = Some (bytes e, Clean, version e)) as Hv by (rewrite lookup_view, E; simpl; by rewrite <- Hc).
  assert (race_event (KDropClean p) s = mkRace (drop_entry (r_inner s) p).1 (r_volume s) (r_flights s)) as He
    by (destruct s; simpl in *; by rewrite E, bool_decide_eq_true_2).
  destruct (drop_entry_wf (r_inner s) l p Hl) as [Hl' Hd]. unfold race_step_ok. rewrite He.
  eapply drop_race; eauto. intros f Hf. split; [done|]. intros <-. by apply Hfree, list_elem_of_fmap_2.
Qed.

Lemma bind_race n s k : race_ok n s -> race_step_ok n (KBind k) s.
Proof.
  intros Hs. pose proof Hs as [H0 H1 H2 H3 H4 H5].
  assert (Hgo : forall p bs v f f', r_flights s !! k = Some f -> flight_page f = p -> flight_page f' = p ->
    (exists b v', view (r_inner s) !! p = Some (b, Dirty, v') /\ v <= v' /\ (v' = v -> b = bs)) ->
    (f' = Flushed p v \/ f' = Evicted p v) ->
    race_event (KBind k) s = mkRace (r_inner s) (<[p := bs]> (r_volume s)) (set_flight k f' (r_flights s)) ->
    race_step_ok n (KBind k) s).
  { intros p bs v f f' Hk Hp Hp' (b & v' & Hv & Hle & Hb) Hf' He. unfold race_step_ok. rewrite He. split.
    - split; simpl; [lia|done| | | |].
      + intros q b' u Hq. rewrite lookup_insert_ne; [by eapply H2|]. intros <-. congruence.
      + intros q b' st u Hq. apply H3 in Hq. lia.
      + unfold set_flight. rewrite list_fmap_insert, list_insert_id; [done|]. by rewrite list_lookup_fmap, Hk, Hp', <- Hp.
      + unfold set_flight. intros g Hg. apply list_elem_of_lookup in Hg as [j Hj].
        apply list_lookup_insert_Some in Hj as [(-> & <- & _)|(Hne & Hj)].
        * destruct Hf' as [->| ->]; simpl; exists b, v'; (split; [done|]); (split; [done|]);
            intros Heq; rewrite lookup_insert_eq; by rewrite Hb.
        * eapply flight_frame; [done| |apply H5; by eapply list_elem_of_lookup_2].
          rewrite lookup_insert_ne; [done|]. intros Hpg. apply Hne.
          assert ((flight_page <$> r_flights s) !! j = Some p) by (rewrite list_lookup_fmap, Hj; simpl; congruence).
          assert ((flight_page <$> r_flights s) !! k = Some p) by (rewrite list_lookup_fmap, Hk; simpl; congruence).
          symmetry. eapply NoDup_lookup; [exact H4|done|done].
    - intros q. rewrite !host_page_view. simpl. destruct (decide (q = p)) as [->|Hne].
      + by rewrite Hv.
      + by rewrite lookup_insert_ne. }
  destruct (r_flights s !! k) as [f|] eqn:E;
    [|apply race_idle; [done|destruct s; simpl in *; by rewrite E|done]].
  assert (f ∈ r_flights s) as Hin by (by eapply list_elem_of_lookup_2). specialize (H5 f Hin).
  destruct f as [p bs v|p v|p bs v|p v|p bs];
    try (apply race_idle; [done|destruct s; simpl in *; by rewrite E|done]).
  - eapply (Hgo p bs v _ (Flushed p v)); try done; [by left|]. destruct s. simpl in *. by rewrite E.
  - eapply (Hgo p bs v _ (Evicted p v)); try done; [by right|]. destruct s. simpl in *. by rewrite E.
Qed.

(** The end of a flush: clean only if the version is the one that was
    written. *)
Lemma commit_flush_race n s k p v :
  race_ok n s -> r_flights s !! k = Some (Flushed p v) -> race_step_ok n (KCommit k) s.
Proof.
  intros Hs Hk. pose proof Hs as [H0 [l Hl] H2 H3 H4 H5].
  destruct (H5 _ (list_elem_of_lookup_2 _ _ _ Hk)) as (b & v' & Hv & Hle & Hb).
  assert (race_event (KCommit k) s = mkRace (commit_flushed (r_inner s) p v) (r_volume s) (delete k (r_flights s))) as He
    by (destruct s; simpl in *; by rewrite Hk).
  destruct (commit_flushed_wf (r_inner s) l p v Hl) as [Hl' Hvw]. rewrite Hv in Hvw.
  assert (exists st, view (commit_flushed (r_inner s) p v) = <[p := (b, st, v')]> (view (r_inner s)) /\
    (st = Clean -> r_volume s !! p = Some b)) as (st & Hvn & Hcl).
  { destruct (Z.eqb_spec v' v) as [Heq|Hne]; [exists Clean; by auto|exists Dirty].
    by rewrite Hvw, insert_id. }
  unfold race_step_ok. rewrite He. split.
  - split; simpl; [lia|by eexists| | |by apply delete_nodup|].
    + intros q b' u. rewrite Hvn, lookup_insert. case_decide; [|apply H2]. intros ?; simplify_eq. by apply Hcl.
    + intros q b' st' u. rewrite Hvn, lookup_insert. case_decide.
      * intros [= <- <- <-]. apply H3 in Hv. lia.
      * intros Hq. apply H3 in Hq. lia.
    + intros g Hg. destruct (other_flight _ _ _ _ H4 Hk Hg) as [Hin Hne].
      eapply flight_frame; [|done|by apply H5]. rewrite Hvn. by rewrite lookup_insert_ne.
  - intros q. rewrite !host_page_view. simpl. rewrite Hvn, lookup_insert. case_decide as Hq; [|done].
    subst. by rewrite Hv.
Qed.

Lemma commit_evict_race n s k p v :
  race_ok n s -> r_flights s !! k = Some (Evicted p v) -> race_step_ok n (KCommit k) s.
Proof.
  intros Hs Hk. pose proof Hs as [H0 [l Hl] H2 H3 H4 H5].
  destruct (H5 _ (list_elem_of_lookup_2 _ _ _ Hk)) as (b & v' & Hv & Hle & Hb).
  assert (race_event (KCommit k) s = mkRace (commit_evicted (r_inner s) p v) (r_volume s) (delete k (r_flights s))) as He
    by (destruct s; simpl in *; by rewrite Hk).
  destruct (commit_evicted_wf (r_inner s) l p v Hl) as (l' & Hl' & _ & Hvw). rewrite Hv in Hvw.
  assert (Hfl : forall f, f ∈ delete k (r_flights s) -> f ∈ r_flights s /\ flight_page f <> p)
    by (intros f Hf; by apply (other_flight _ _ _ _ H4 Hk) in Hf).
  unfold race_step_ok. rewrite He. destruct (Z.eqb_spec v' v) as [Heq|Hne].
  - eapply (drop_race n s _ p b Dirty v'); eauto using delete_nodup.
  - split.
    + split; simpl; [lia|by eexists| | |by apply delete_nodup|]; rewrite Hvw; [done| |].
      * intros q b' st' u Hq. apply H3 in Hq. lia.
      * intros f Hf. apply H5, Hfl, Hf.
    + intros q. rewrite !host_page_view. simpl. by rewrite Hvw.
Qed.

Lemma commit_load_race n s k p bs :
  race_ok n s -> r_flights s !! k = Some (Loading p bs) -> race_step_ok n (KCommit k) s.
Proof.
  intros Hs Hk. pose proof Hs as [H0 [l Hl] H2 H3 H4 H5].
  pose proof (H5 _ (list_elem_of_lookup_2 _ _ _ Hk)) as Hf. simpl in Hf.
  assert (race_event (KCommit k) s = mkRace (commit_loaded (r_inner s) p bs).1 (r_volume s) (delete k (r_flights s))) as He
    by (destruct s; simpl in *; by rewrite Hk).
  destruct (commit_loaded_wf (r_inner s) l p bs Hl) as (Hl' & Hvw & _).
  assert (exists b st v, view (commit_loaded (r_inner s) p bs).1 = <[p := (b, st, v)]> (view (r_inner s)) /\
    (st = Clean -> r_volume s !! p = Some b) /\ 0 <= v <= n + 1 /\ host_page s p = Some b) as (b & st & v & Hvn & Hcl & Hvr & Hh).
  { rewrite Hvw, host_page_view. destruct Hf as [[Hn Hb]|(b & v & Hv)].
    - rewrite Hn. exists bs, Clean, 0. split; [done|]. split; [done|]. split; [lia|done].
    - rewrite Hv. exists b, Dirty, v. rewrite insert_id by done. apply H3 in Hv. split_and!; try done; lia. }
  unfold race_step_ok. rewrite He. split.
  - split; simpl; [lia|by eexists| | |by apply delete_nodup|].
    + intros q b' u. rewrite Hvn, lookup_insert. case_decide; [|apply H2]. intros ?; simplify_eq. by apply Hcl.
    + intros q b' st' u. rewrite Hvn, lookup_insert. case_decide; [by intros [= <- <- <-]|].
      intros Hq. apply H3 in Hq. lia.
    + intros g Hg. destruct (other_flight _ _ _ _ H4 Hk Hg) as [Hin Hne].
      eapply flight_frame; [|done|by apply H5]. rewrite Hvn. by rewrite lookup_insert_ne.
  - intros q. cbn [written_by]. rewrite (host_page_view (mkRace _ _ _)). simpl. rewrite Hvn, lookup_insert.
    case_decide as Hq; [by subst|]. by rewrite host_page_view.
Qed.

Lemma race_step n ev s : race_ok n s -> n < u64_max -> exclusive ev s -> race_step_ok n ev s.
Proof.
  intros Hs Hn He. destruct ev as [p bs|p|p|p|p|k|k|p|p]; simpl in He; try done.
  - by apply write_race.
  - eapply snapshot_race; [done..|by left].
  - eapply snapshot_race; [done..|by right].
  - by apply drop_clean_race.
  - by apply load_race.
  - by apply bind_race.
  - destruct (r_flights s !! k) as [[p bs v|p v|p bs v|p v|p bs]|] eqn:E;
      try (apply race_idle; [done|destruct s; simpl in *; by rewrite E|done]).
    + by eapply commit_flush_race.
    + by eapply commit_evict_race.
    + by eapply commit_load_race.
Qed.

Lemma race_new_ok : race_ok 0 race_new.
Proof.
  split; simpl; try done; try (intros; set_solver).
  - exists []. split; [split|..]; simpl; try done.
    + apply NoDup_nil_2.
    + intros p. split; [set_solver|by intros [x Hx]].
    + intros p. split; [set_solver|by intros (e & Hx & _)].
  - apply NoDup_nil_2.
Qed.

Lemma run_race_ok evs n s f :
  race_ok n s -> n + Z.of_nat (length evs) <= u64_max -> exclusive_run evs s -> (forall p, host_page s p = f p) ->
  race_ok (n + Z.of_nat (length evs)) (run_race evs s) /\
  forall p, host_page (run_race evs s) p =
    fold_left (fun acc ev => match ev with KWrite q bs => if bool_decide (q = p) then Some bs else acc | _ => acc end)
      evs (f p).
Proof.
  revert n s f. induction evs as [|ev evs IH]; intros n s f Hs Hn Hx Hf; [by rewrite Z.add_0_r|].
  destruct Hx as [Hx Hxs]. simpl in *. destruct (race_step n ev s Hs ltac:(lia) Hx) as [Hs' Hp].
  destruct (IH (n + 1) (race_event ev s) (fun p => written_by ev s p) Hs' ltac:(lia) Hxs Hp) as [Hr Hh].
  split; [by replace (n + Z.of_nat (S (length evs))) with (n + 1 + Z.of_nat (length evs)) by lia|].
  intros p. rewrite Hh. f_equal. destruct ev; simpl; by rewrite ?Hf.
Qed.


