(* ===== verification/PageClone.v ===== *)
(** * Copying pages between volumes ([core/block/src/cache.rs])

    [PageCache::clone_page_range_into], the offloaded copy under EXTENDED
    COPY: a page whose chunk is in storage is copied by naming its chunk in
    the destination's index, any other by its bytes.  The theorem is that the
    destination then reads as the source did, whichever way a page went. *)

From S2P Require Import Prelude Bytes ByteFile PageIndex UploadIndex StateError PoolBudget PageLru Crypto VolumeWriter VolumeProofs VolumeHistory PageCache PageCacheProofs VolumeCache.

Local Open Scope Z_scope.

(** A chunk can be read through another page exactly when the key and the
    nonce are the same there. *)
Definition rebind_is_sound (src_encrypted : bool) (src_dek_uuid : list Z) (src_page : nat)
    (dst_encrypted : bool) (dst_dek_uuid : list Z) (dst_page : nat) : bool :=
  match src_encrypted, dst_encrypted with
  | false, false => true
  | true, true => bool_decide (src_dek_uuid = dst_dek_uuid) && bool_decide (src_page = dst_page)
  | _, _ => false
  end.

(** ** Index writes *)

Definition index_io : UploaderError := EPageIndex (Io IoFailed).

(** [PageIndex::set_salted] and [PageIndex::clear]: the record, then the
    sync; either may fail. *)
Definition page_index_write (f : PageIndex -> PageIndex) : EM VolumeWriter UploaderError unit :=
  external index_io;;
  modify (fun w => with_page_index (f (page_index w)) w);;
  external index_io.

Definition upload_index_set (p : nat) (st : UploadState) : EM VolumeWriter UploaderError unit :=
  external EUploadIndex;;
  modify (fun w => with_upload_index (UploadIndex.set_unsynced (upload_index w) p st) w);;
  external EUploadIndex.

(** The page gets the entry of another, already in storage. *)
Definition bind_entry (p : nat) (entry : option PageEntry) : EM VolumeWriter UploaderError unit :=
  page_index_write (fun idx =>
    match entry with
    | Some e => set_salted idx p (hash e) (iv_salt e)
    | None => PageIndex.clear idx p
    end);;
  upload_index_set p Uploaded.

Definition invalidate_cached_page (p : nat) : EM (PageCache VolumeWriter) UploaderError unit :=
  on_inner (fun i => (drop_entry i p).1).

(** ** Two caches *)

(** How an operation reaches a cache; the source and the destination may be
    the same one. *)
Record Handle (S : Type) : Type := mkHandle {
  h_get : S -> PageCache VolumeWriter;
  h_set : PageCache VolumeWriter -> S -> S;
}.
Arguments mkHandle {S}.
Arguments h_get {S}.
Arguments h_set {S}.

Definition own : Handle (PageCache VolumeWriter) := mkHandle id (fun c _ => c).
(** Two volumes with one backend and one pool namespace share their objects
    in storage: what one puts, the other sees. *)
Definition same_pool (same_backend : bool) (w w' : VolumeWriter) : bool :=
  same_backend && bool_decide (pool_namespace (manifest w) = pool_namespace (manifest w')).

Definition see (same_backend : bool) (c c' : PageCache VolumeWriter) : PageCache VolumeWriter :=
  if same_pool same_backend (writer c) (writer c')
  then with_writer (with_backend (backend (writer c)) (writer c')) c' else c'.

Definition left_of (same_backend : bool) : Handle (PageCache VolumeWriter * PageCache VolumeWriter) :=
  mkHandle fst (fun c s => (c, see same_backend c s.2)).
Definition right_of (same_backend : bool) : Handle (PageCache VolumeWriter * PageCache VolumeWriter) :=
  mkHandle snd (fun c s => (see same_backend c s.1, c)).

Section clone.
Context `{VolumeCrypto} {S : Type}.

(** [same_cache] is [ptr::eq], [same_backend] compares the backends the two
    manifests name. *)
Variables (src dst : Handle S) (same_cache same_backend : bool).

Definition at_cache {A} (h : Handle S) (m : EM (PageCache VolumeWriter) UploaderError A) :
    EM S UploaderError A := zoom (h_get h) (h_set h) m.

Definition dirty_bytes (i : CacheInner) (p : nat) : option (list Z) :=
  match pages i !! p with
  | Some e => if bool_decide (state e = Dirty) then Some (bytes e) else None
  | None => None
  end.

Definition copy_page (src_id dst_id : nat) : EM S UploaderError unit :=
  bs ← at_cache src (acquire_page src_id); at_cache dst (install_full_page dst_id bs).

Definition rebind_page (dst_id : nat) (entry : option PageEntry) : EM S UploaderError unit :=
  at_cache dst (invalidate_cached_page dst_id;; on_writer (bind_entry dst_id entry)).

Definition rebind_ok (src_w dst_w : VolumeWriter) (src_id dst_id : nat) : bool :=
  let m := manifest src_w in
  let m' := manifest dst_w in
  same_pool same_backend src_w dst_w &&
  rebind_is_sound (encrypted m) (dek_uuid m) src_id (encrypted m') (dek_uuid m') dst_id.

Definition clone_one_page_into (src_id dst_id : nat) : EM S UploaderError unit :=
  if same_cache && bool_decide (src_id = dst_id) then mret tt
  else
    s ← get;
    let src_w := writer (h_get src s) in
    match dirty_bytes (inner (h_get src s)) src_id with
    | Some bs => at_cache dst (install_full_page dst_id bs)
    | None =>
        if negb (bool_decide (UploadIndex.read (upload_index src_w) src_id = Uploaded))
        then copy_page src_id dst_id
        else
          let entry := get_entry (page_index src_w) src_id in
          if negb (rebind_ok src_w (writer (h_get dst s)) src_id dst_id) then
            match entry with
            | None => rebind_page dst_id None
            | Some _ => copy_page src_id dst_id
            end
          else rebind_page dst_id entry
    end.

Fixpoint clone_turns (n : nat) (src_page dst_page : Z) : EM S UploaderError unit :=
  match n with
  | O => mret tt
  | Datatypes.S n =>
      s ← get;
      let c := h_get src s in
      let c' := h_get dst s in
      if u32_max <? src_page
      then fail (PageOutOfRange src_page (cache_page_size c) (st_size (writer c)))
      else if u32_max <? dst_page
      then fail (PageOutOfRange dst_page (cache_page_size c') (st_size (writer c')))
      else
        clone_one_page_into (Z.to_nat src_page) (Z.to_nat dst_page);;
        clone_turns n (src_page + 1) (dst_page + 1)
  end.

Definition clone_page_range_into (src_byte_offset dst_byte_offset len : Z) : EM S UploaderError unit :=
  s ← get;
  let page := cache_page_size (h_get src s) in
  let page' := cache_page_size (h_get dst s) in
  if negb (page =? page') then fail (IncompatiblePageSize page page')
  else if len =? 0 then mret tt
  else
    clone_turns (Z.to_nat (len / page)) (src_byte_offset / page) (dst_byte_offset / page');;
    at_cache dst (bump_host_bytes len).
End clone.

(** [clone_page_range]: within a volume. *)
Definition clone_page_range `{VolumeCrypto} : Z -> Z -> Z -> EM (PageCache VolumeWriter) UploaderError unit :=
  clone_page_range_into own own true true.

(** ** Naming a chunk *)

Section proofs.
Context `{VolumeCryptoLaws} (ps : Z) (Hps : 0 < ps <= u32_max).

#[local] Instance clone_model : PageStoreModel VolumeWriter := volume_model ps.
#[local] Instance clone_laws : PageStoreLaws VolumeWriter ps := volume_laws ps Hps.

Notation entry w p := (get_entry (page_index w) p).
Notation page_bytes := (page_bytes ps).
Notation stored := (stored ps).
Notation cache_ok := (cache_ok ps).
Notation changes := (changes ps).
Notation keeps := (keeps ps).

(** The entry names a chunk in storage that opens to [x] as page [p]. *)
Definition entry_opens (w : VolumeWriter) (p : nat) (eo : option PageEntry) (x : option (list Z)) : Prop :=
  match eo with
  | None => x = None
  | Some e => exists y bs, length (hash e) = 32%nat /\ in_u64 (iv_salt e) /\
      backend w !! hash e = Some y /\ open_payload w p (iv_salt e) y = Some bs /\
      x = Some bs /\ Z.of_nat (length bs) = ps
  end.

Definition written_entry (w : VolumeWriter) (p : nat) (eo : option PageEntry) : VolumeWriter :=
  with_page_index (match eo with
                   | Some e => set_salted (page_index w) p (hash e) (iv_salt e)
                   | None => PageIndex.clear (page_index w) p
                   end) w.

Lemma written_entry_puts w p eo x :
  st_ok w -> Z.of_nat p < u32_max -> entry_opens w p eo x ->
  let w' := written_entry w p eo in
  st_puts p x w w' /\ page_content w' p = x /\
  forall e, entry w' p = Some e -> is_Some (backend w !! hash e).
Proof.
  intros [Hw Hm] Hp Hx w'. pose proof Hw as [Hwf Ht Hs Hpp Hl Hd]. destruct eo as [e|]; simpl in Hx.
  - destruct Hx as (y & bs & Hh & Hsa & Hb & Ho & -> & Hbs).
    destruct (set_entry_spec w p (hash e) (iv_salt e) y bs) as (H1 & H2 & H3 & H4); try done.
    { apply chunk_unique; [apply Hwf|by right]. } { congruence. }
    split_and!; [|done|].
    + split; simpl; [|done|done|by right|by split]. split; [|done]. split; try done.
      intros q e' Hq. change (entry w' q) with (entry (set_entry w p (hash e) (iv_salt e)) q) in Hq.
      rewrite H4 in Hq. case_bool_decide; [|by apply (Ht q)]. injection Hq as <-. simpl. by rewrite Hb.
    + intros e' He. rewrite H4, bool_decide_eq_true_2 in He by done. injection He as <-. simpl. by rewrite Hb.
  - subst x. destruct (clear_step w p Hw Hp) as (Hw' & Em & Hc). simpl in Hc. split_and!.
    + split; simpl; [by split|done| | |by split].
      * intros q Hq. specialize (Hc q). by rewrite bool_decide_eq_false_2 in Hc.
      * right. specialize (Hc p). by rewrite bool_decide_eq_true_2 in Hc.
    + specialize (Hc p). by rewrite bool_decide_eq_true_2 in Hc.
    + intros e He. pose proof (page_op_step (page_index w) (OClear p) (v_index _ Hwf) I) as [_ Hn].
      simpl in Hn, He. by rewrite Hn, bool_decide_eq_true_2 in He.
Qed.

Lemma upload_set_keeps w p :
  st_ok w -> Z.of_nat p < u32_max -> (forall e, entry w p = Some e -> is_Some (backend w !! hash e)) ->
  st_keeps w (with_upload_index (UploadIndex.set_unsynced (upload_index w) p Uploaded) w).
Proof.
  intros [[Hwf Ht Hs Hpp Hl Hd] Hm] Hp He. split; simpl; [|done|done|by split].
  split; [|done]. split; try done. by apply vol_wf_state.
Qed.

Lemma external_run err w : exists w' r, external err w = (w', r) /\ exists e, w' = with_env e w.
Proof. destruct (external_env err w) as (e & [-> | ->]); eauto 6. Qed.

Lemma env_keeps w e : st_ok w -> st_keeps w (with_env e w).
Proof. intros Hw. apply grows_st_keeps; [done|apply grows_env]. Qed.

Lemma upload_index_set_spec w p :
  st_ok w -> Z.of_nat p < u32_max -> (forall e, entry w p = Some e -> is_Some (backend w !! hash e)) ->
  exists w' r, upload_index_set p Uploaded w = (w', r) /\ st_keeps w w'.
Proof.
  intros Hw Hp He. unfold upload_index_set. rewrite run_bind.
  destruct (external_run EUploadIndex w) as (w1 & r1 & -> & e1 & ->). pose proof (env_keeps w e1 Hw) as K1.
  destruct r1 as [[]|err]; [|by eexists _, _]. rewrite run_bind. cbn [modify].
  pose proof (upload_set_keeps (with_env e1 w) p (sk_ok _ _ K1) Hp He) as K2.
  set (w2 := with_upload_index _ _) in *. destruct (external_run EUploadIndex w2) as (w3 & r3 & -> & e3 & ->).
  pose proof (env_keeps w2 e3 (sk_ok _ _ K2)) as K3. eexists _, _. split; [reflexivity|].
  destruct K1, K2, K3. split; [done|congruence|congruence|]. etrans; [done|]. by etrans.
Qed.

Lemma bind_entry_spec w p eo x :
  st_ok w -> Z.of_nat p < u32_max -> entry_opens w p eo x ->
  exists w' r, bind_entry p eo w = (w', r) /\ st_puts p x w w' /\ (r = Ok tt -> page_content w' p = x).
Proof.
  intros Hw Hp Hx. unfold bind_entry, page_index_write. rewrite run_bind, run_bind.
  assert (st_puts p x w w) as Hr by (split; try done; by left).
  destruct (external_run index_io w) as (w1 & r1 & -> & e1 & ->). pose proof (env_keeps w e1 Hw) as K1.
  destruct r1 as [[]|err]; [|eexists _, _; split; [reflexivity|]; by split; [eapply (puts_keeps ps)|]].
  rewrite run_bind. cbn [modify].
  change (with_page_index _ (with_env e1 w)) with (written_entry (with_env e1 w) p eo).
  destruct (written_entry_puts (with_env e1 w) p eo x (sk_ok _ _ K1) Hp Hx) as (P2 & Hc2 & He2).
  set (w2 := written_entry _ _ _) in *. pose proof (keeps_puts ps p x _ _ _ K1 P2) as P.
  destruct (external_run index_io w2) as (w3 & r3 & -> & e3 & ->).
  pose proof (env_keeps w2 e3 (sp_ok _ _ _ _ P2)) as K3.
  pose proof (puts_keeps ps p x _ _ _ P K3) as P3.
  destruct r3 as [[]|err]; [|by eexists _, _].
  destruct (upload_index_set_spec (with_env e3 w2) p (sk_ok _ _ K3) Hp) as (w4 & r4 & -> & K4).
  { intros e He. by apply He2. }
  eexists _, _. split; [reflexivity|]. split; [by eapply (puts_keeps ps)|]. intros _.
  rewrite <- Hc2. etrans; [apply (sk_content _ _ K4)|]. apply (sk_content _ _ K3).
Qed.

(** ** What links the two caches *)

(** A state [linked] reaches both caches: each is in order, a chunk the
    source has in storage can be opened through the destination when
    [rebind_ok] says so, and a step of one is a step of the other only as
    far as storage. *)
Class Linked {S} (src dst : Handle S) (same_cache same_backend : bool) : Type := {
  linked : S -> Prop;
  lk_src s : linked s -> cache_ok (h_get src s);
  lk_dst s : linked s -> cache_ok (h_get dst s);
  lk_same s : linked s -> same_cache = true -> h_get src s = h_get dst s;
  lk_opens s p q e bs : linked s ->
    rebind_ok same_backend (writer (h_get src s)) (writer (h_get dst s)) p q = true ->
    entry (writer (h_get src s)) p = Some e ->
    UploadIndex.read (upload_index (writer (h_get src s))) p = Uploaded ->
    page_content (writer (h_get src s)) p = Some bs ->
    entry_opens (writer (h_get dst s)) q (Some e) (Some bs);
  lk_set_src c s : linked s -> keeps (h_get src s) c ->
    linked (h_set src c s) /\ keeps (h_get src s) (h_get src (h_set src c s)) /\
    keeps (h_get dst s) (h_get dst (h_set src c s));
  lk_set_dst c s : linked s -> cache_ok c -> same_config (h_get dst s) c ->
    linked (h_set dst c s) /\ h_get dst (h_set dst c s) = c /\
    (same_cache = false -> keeps (h_get src s) (h_get src (h_set dst c s)));
}.

Section linked.
Context {S : Type} {src dst : Handle S} {same_cache same_backend : bool}.
Context `{!Linked src dst same_cache same_backend}.

(** The destination's pages change by [f]; the source's do not, unless it is
    the destination. *)
Record moved (f : nat -> list Z -> list Z) (s s' : S) : Prop := {
  mv_linked : linked s';
  mv_dst : changes f (h_get dst s) (h_get dst s');
  mv_src : same_cache = false -> keeps (h_get src s) (h_get src s');
}.

Lemma moved_dst f c s :
  linked s -> changes f (h_get dst s) c -> moved f s (h_set dst c s).
Proof.
  intros Hs Hc. destruct (lk_set_dst c s Hs (ch_ok _ _ _ _ Hc) (ch_conf _ _ _ _ Hc)) as (H1 & H2 & H3).
  split; [done|by rewrite H2|done].
Qed.

Lemma moved_src c s : linked s -> keeps (h_get src s) c -> moved (fun _ b => b) s (h_set src c s).
Proof. intros Hs Hc. destruct (lk_set_src c s Hs Hc) as (H1 & H2 & H3). by split. Qed.

Lemma moved_after f s s1 s2 : moved (fun _ b => b) s s1 -> moved f s1 s2 -> moved f s s2.
Proof.
  intros [H1 H2 H3] [H4 H5 H6]. split; [done|by eapply (keeps_changes ps)|].
  intros E. eapply (keeps_changes ps); [by apply H3|by apply H6].
Qed.

Lemma moved_refl s : linked s -> moved (fun _ b => b) s s.
Proof. intros Hs. split; [done|apply (keeps_refl ps), lk_dst, Hs|]. intros _. by apply (keeps_refl ps), lk_src. Qed.

Lemma install_moves s p bs :
  linked s -> Z.of_nat (length bs) = ps ->
  exists s' r, at_cache dst (install_full_page p bs) s = (s', r) /\
    (r = Ok tt /\ moved (put_page p bs) s s' \/ (exists e, r = Err e) /\ moved (fun _ b => b) s s').
Proof.
  intros Hs Hb. unfold at_cache, zoom.
  destruct (install_spec ps (h_get dst s) p bs (lk_dst s Hs) Hb) as (c & r & -> & Hr).
  eexists _, _. split; [reflexivity|]. destruct Hr as [[-> Hc]|[He Hc]]; [left|right]; by split; [|apply moved_dst].
Qed.

Lemma copy_page_moves s p q :
  linked s ->
  exists s' r, copy_page src dst p q s = (s', r) /\
    (r = Ok tt /\ moved (put_page q (page_bytes (h_get src s) p)) s s' \/
     (exists e, r = Err e) /\ moved (fun _ b => b) s s').
Proof.
  intros Hs. unfold copy_page. rewrite run_bind. unfold at_cache at 1, zoom.
  destruct (acquire_spec ps (h_get src s) p (lk_src s Hs)) as (c & r & -> & Hk & Hr).
  pose proof (moved_src c s Hs Hk) as Hm.
  destruct r as [b|e]; [|eexists _, _; split; [reflexivity|]; right; eauto].
  destruct (Hr b eq_refl) as [-> _].
  destruct (install_moves (h_set src c s) q (page_bytes (h_get src s) p)) as (s' & r & -> & Ho).
  - apply Hm.
  - by apply (page_bytes_length ps), lk_src.
  - eexists _, _. split; [reflexivity|].
    destruct Ho as [[-> Ho]|[He Ho]]; [left|right]; (split; [done|by eapply moved_after]).
Qed.

Lemma rebind_moves s q eo x :
  linked s -> (Z.of_nat q + 1) * ps <= live_size_bytes (writer (h_get dst s)) ->
  entry_opens (writer (h_get dst s)) q eo x ->
  exists s' r, rebind_page dst q eo s = (s', r) /\
    (r = Ok tt /\ moved (put_page q (default (zeros ps) x)) s s' \/
     (exists e, r = Err e) /\
     (moved (put_page q (default (zeros ps) x)) s s' \/ moved (put_page q (stored (writer (h_get dst s)) q)) s s')).
Proof.
  intros Hs Hq Hx. pose proof (lk_dst s Hs) as Hc. pose proof (ck_store _ _ Hc) as Hw.
  assert (Z.of_nat q < u32_max) as Hqm.
  { pose proof (st_size_fits _ Hw) as Hf. simpl in Hf.
    assert (Z.of_nat q + 1 <= live_size_bytes (writer (h_get dst s)) / ps) by (apply Z.div_le_lower_bound; lia). lia. }
  destruct (bind_entry_spec (writer (h_get dst s)) q eo x Hw Hqm Hx) as (w & r & E & Hp & Hr).
  pose proof (drop_replace ps (h_get dst s) q x w Hc Hp) as Hd.
  unfold rebind_page, at_cache, zoom. rewrite run_bind. cbn [invalidate_cached_page on_inner modify].
  unfold on_writer, zoom. simpl. rewrite E. eexists _, _. split; [reflexivity|].
  assert (forall b, stored w q = b -> moved (put_page q b) s
    (h_set dst (with_writer w (with_inner (drop_entry (inner (h_get dst s)) q).1 (h_get dst s))) s)) as Hmv.
  { intros b <-. by apply moved_dst. }
  destruct r as [[]|err].
  - left. split; [done|]. apply Hmv. unfold PageCacheProofs.stored. simpl. by rewrite (Hr eq_refl).
  - right. split; [eauto|]. destruct (sp_page _ _ _ _ Hp) as [Ho|Ho]; [right|left]; apply Hmv;
      unfold PageCacheProofs.stored; by rewrite Ho.
Qed.

Lemma moved_ext f g s s' :
  (forall p, f p (page_bytes (h_get dst s) p) = g p (page_bytes (h_get dst s) p)) ->
  moved f s s' -> moved g s s'.
Proof. intros Hfg [H1 [H2 H3 H4] H5]. split; [done| |done]. split; [done..|]. intros p. by rewrite H4. Qed.

Lemma put_unchanged s p : forall q, put_page p (page_bytes (h_get dst s) p) q (page_bytes (h_get dst s) q) = page_bytes (h_get dst s) q.
Proof. intros q. unfold put_page. case_bool_decide; by subst. Qed.

(** What a clone of page [p] onto page [q] leaves: the copy, or an error and
    the destination page alone changed. *)
Definition clone_outcome (p q : nat) (s s' : S) (r : result unit UploaderError) : Prop :=
  r = Ok tt /\ moved (put_page q (page_bytes (h_get src s) p)) s s' \/
  (exists e, r = Err e) /\ exists b, moved (put_page q b) s s'.

Lemma outcome_of_copy p q s s' r :
  r = Ok tt /\ moved (put_page q (page_bytes (h_get src s) p)) s s' \/
  (exists e, r = Err e) /\ moved (fun _ b => b) s s' -> clone_outcome p q s s' r.
Proof.
  intros [Ho|[He Hm]]; [by left|]. right. split; [done|]. eexists. eapply moved_ext; [|exact Hm].
  intros q'. symmetry. apply put_unchanged.
Qed.

Lemma dirty_bytes_view c p b : dirty_bytes (inner c) p = Some b -> page_bytes c p = b.
Proof.
  unfold dirty_bytes, PageCacheProofs.page_bytes. rewrite lookup_view. destruct (pages (inner c) !! p); [|done].
  case_bool_decide; [|done]. by intros [= <-].
Qed.

Lemma clean_bytes c p : cache_ok c -> dirty_bytes (inner c) p = None -> page_bytes c p = stored (writer c) p.
Proof.
  intros Hc. unfold dirty_bytes, PageCacheProofs.page_bytes. destruct (view (inner c) !! p) as [[[b st] v]|] eqn:Hv; [|done].
  intros Hd. apply (ck_clean _ _ Hc p b v). rewrite Hv. rewrite lookup_view in Hv.
  destruct (pages (inner c) !! p) as [e|]; [|done]. unfold payload in Hv. simpl in Hv. simplify_eq.
  case_bool_decide as Hst; [done|]. revert Hst. by destruct (state e).
Qed.

Lemma clone_one_spec s p q :
  linked s -> (Z.of_nat q + 1) * ps <= live_size_bytes (writer (h_get dst s)) ->
  exists s' r, clone_one_page_into src dst same_cache same_backend p q s = (s', r) /\ clone_outcome p q s s' r.
Proof.
  intros Hs Hq. pose proof (lk_src s Hs) as Hc. unfold clone_one_page_into.
  destruct (same_cache && bool_decide (p = q)) eqn:Esame.
  { apply andb_true_iff in Esame as [Es Epq]. apply bool_decide_eq_true in Epq as ->.
    eexists _, _. split; [reflexivity|]. left. split; [done|]. rewrite (lk_same s Hs Es).
    eapply moved_ext; [|by apply moved_refl]. intros q'. symmetry. apply put_unchanged. }
  rewrite run_bind. cbn [get]. destruct (dirty_bytes _ p) as [b|] eqn:Ed.
  { apply dirty_bytes_view in Ed as <-.
    destruct (install_moves s q (page_bytes (h_get src s) p) Hs) as (s' & r & -> & Ho);
      [by apply (page_bytes_length ps)|]. eexists _, _. split; [reflexivity|]. by apply outcome_of_copy. }
  pose proof (clean_bytes _ _ Hc Ed) as Hb.
  assert (exists s' r, copy_page src dst p q s = (s', r) /\ clone_outcome p q s s' r) as Hcopy.
  { destruct (copy_page_moves s p q Hs) as (s' & r & -> & Ho). eexists _, _. split; [reflexivity|].
    by apply outcome_of_copy. }
  clear Esame. case_bool_decide as Hu; [|exact Hcopy]. cbn [negb].
  assert (forall eo x, stored (writer (h_get src s)) p = default (zeros ps) x ->
    entry_opens (writer (h_get dst s)) q eo x ->
    exists s' r, rebind_page dst q eo s = (s', r) /\ clone_outcome p q s s' r) as Hre.
  { intros eo x Hx Ho. destruct (rebind_moves s q eo x Hs Hq Ho) as (s' & r & -> & Hr).
    eexists _, _. split; [reflexivity|]. unfold clone_outcome. rewrite Hb, Hx.
    destruct Hr as [[-> Hm]|[He [Hm|Hm]]]; eauto. }
  destruct (get_entry (page_index (writer (h_get src s))) p) as [e|] eqn:Ee.
  - destruct (rebind_ok _ _ _ p q) eqn:Er; [|exact Hcopy]. cbn [negb].
    pose proof (ck_store _ _ Hc) as [Hg Hm]. destruct (v_pages _ (good_wf _ Hg) p e Ee) as (bs & Hbs & _).
    apply (Hre (Some e) (Some bs)); [unfold PageCacheProofs.stored; simpl; by rewrite Hbs|].
    by eapply lk_opens.
  - assert (stored (writer (h_get src s)) p = zeros ps) as Hz.
    { unfold PageCacheProofs.stored. simpl. unfold page_content. by rewrite Ee. }
    destruct (rebind_ok _ _ _ p q); by apply (Hre None None).
Qed.

(** ** Ranges of pages *)

Lemma moved_trans f g s s1 s2 : moved f s s1 -> moved g s1 s2 -> moved (fun p b => g p (f p b)) s s2.
Proof.
  intros [H1 [H2 H3 H4] H5] [K1 [K2 K3 K4] K5]. split; [done| |].
  - split; [done|by eapply (same_config_trans ps)|]. intros p. by rewrite K4, H4.
  - intros E. eapply (keeps_changes ps); [by apply H5|by apply K5].
Qed.

(** The source as a clone goes on: as it was, off the pages written. *)
Lemma moved_source f s s' p :
  linked s -> moved f s s' -> (same_cache = true -> f p (page_bytes (h_get dst s) p) = page_bytes (h_get dst s) p) ->
  page_bytes (h_get src s') p = page_bytes (h_get src s) p.
Proof.
  intros Hs [H1 [H2 H3 H4] H5] Hp. destruct same_cache.
  - rewrite (lk_same s' H1 eq_refl), (lk_same s Hs eq_refl), H4. by apply Hp.
  - by apply (ch_bytes _ _ _ _ (H5 eq_refl)).
Qed.

(** Pages [p..p+n) of [f] at [q..q+n). *)
Definition copied (p q n : nat) (f : nat -> list Z) (i : nat) (b : list Z) : list Z :=
  if bool_decide (q <= i < q + n)%nat then f (i - q + p)%nat else b.

Definition apart (p q n : nat) : Prop := (p + n <= q \/ q + n <= p)%nat.

Lemma clone_turns_spec n s p q :
  linked s -> (Z.of_nat q + Z.of_nat n) * ps <= live_size_bytes (writer (h_get dst s)) ->
  Z.of_nat p + Z.of_nat n <= u32_max + 1 -> (same_cache = true -> apart p q n) ->
  exists s' r, clone_turns src dst same_cache same_backend n (Z.of_nat p) (Z.of_nat q) s = (s', r) /\
    (r = Ok tt /\ moved (copied p q n (page_bytes (h_get src s))) s s' \/
     (exists e, r = Err e) /\ exists k b, (k < n)%nat /\
       moved (fun i x => put_page (q + k) b i (copied p q k (page_bytes (h_get src s)) i x)) s s').
Proof.
  revert s p q. induction n as [|n IH]; intros s p q Hs Hq Hp Ha.
  { eexists _, _. split; [reflexivity|]. left. split; [done|]. eapply moved_ext; [|by apply moved_refl].
    intros i. unfold copied. rewrite bool_decide_eq_false_2; [done|lia]. }
  pose proof (lk_dst s Hs) as Hc.
  assert (Z.of_nat q + Z.of_nat (Datatypes.S n) <= u32_max) as Hqm.
  { pose proof (st_size_fits _ (ck_store _ _ Hc)) as Hf. simpl in Hf.
    assert (Z.of_nat q + Z.of_nat (Datatypes.S n) <= live_size_bytes (writer (h_get dst s)) / ps)
      by (apply Z.div_le_lower_bound; lia). lia. }
  cbn [clone_turns]. rewrite run_bind. cbn [get]. rewrite !(proj2 (Z.ltb_ge _ _)) by lia. rewrite !Nat2Z.id, run_bind.
  destruct (clone_one_spec s p q Hs ltac:(nia)) as (s1 & r1 & -> & [[-> Hm]|[[e ->] [b Hm]]]).
  2: { eexists _, _. split; [reflexivity|]. right. split; [eauto|]. exists O, b. split; [lia|].
       rewrite Nat.add_0_r. eapply moved_ext; [|exact Hm]. intros i. unfold copied.
       by rewrite (bool_decide_eq_false_2 (_ /\ _)) by lia. }
  pose proof (mv_linked _ _ _ Hm) as Hs1. replace (Z.of_nat p + 1) with (Z.of_nat (Datatypes.S p)) by lia.
  replace (Z.of_nat q + 1) with (Z.of_nat (Datatypes.S q)) by lia.
  assert (live_size_bytes (writer (h_get dst s1)) = live_size_bytes (writer (h_get dst s))) as Hsz
    by apply (sc_size _ _ (ch_conf _ _ _ _ (mv_dst _ _ _ Hm))).
  assert (forall i, (i < n)%nat -> page_bytes (h_get src s1) (i + Datatypes.S p) = page_bytes (h_get src s) (i + Datatypes.S p)) as Hsrc.
  { intros i Hi. apply (moved_source _ s s1 _ Hs Hm). intros E. unfold put_page.
    rewrite bool_decide_eq_false_2; [done|]. destruct (Ha E); lia. }
  assert (forall k, (k <= n)%nat -> forall i x, copied (Datatypes.S p) (Datatypes.S q) k (page_bytes (h_get src s1)) i
    (put_page q (page_bytes (h_get src s) p) i x) = copied p q (Datatypes.S k) (page_bytes (h_get src s)) i x) as Hcp.
  { intros k Hk i x. unfold copied, put_page. repeat case_bool_decide; subst; try lia; try done.
    - rewrite Hsrc by lia. f_equal. lia.
    - by replace (q - q + p)%nat with p by lia. }
  destruct (IH s1 (Datatypes.S p) (Datatypes.S q) Hs1) as (s2 & r2 & -> & Hr); [rewrite Hsz; lia|lia| |].
  { intros E. destruct (Ha E); [left|right]; lia. }
  eexists _, _. split; [reflexivity|].
  destruct Hr as [[-> Hm2]|[He (k & b & Hk & Hm2)]]; [left|right]; (split; [done|]).
  - eapply moved_ext; [|exact (moved_trans _ _ _ _ _ Hm Hm2)]. intros i. by apply Hcp.
  - exists (Datatypes.S k), b. split; [lia|]. eapply moved_ext; [|exact (moved_trans _ _ _ _ _ Hm Hm2)].
    intros i. simpl. rewrite Hcp by lia. by replace (q + Datatypes.S k)%nat with (Datatypes.S (q + k)) by lia.
Qed.
End linked.

(** ** The two ways to be linked *)

Lemma entry_hash_length idx p e : get_entry idx p = Some e -> length (hash e) = 32%nat.
Proof.
  unfold get_entry. case_bool_decide as Hl; [done|]. unfold decode_record. destruct (_ =? 0); [done|].
  intros [= <-]. simpl. unfold sl. rewrite length_take, length_drop. unfold PageIndex.RECORD_SIZE in *. lia.
Qed.

(** A rebind that is sound reads the same bytes. *)
Lemma open_rebound w w' p q salt y bs :
  st_ok w -> st_ok w' ->
  rebind_is_sound (encrypted (manifest w)) (dek_uuid (manifest w)) p
    (encrypted (manifest w')) (dek_uuid (manifest w')) q = true ->
  (encrypted (manifest w) = true -> encrypted (manifest w') = true ->
   dek_uuid (manifest w) = dek_uuid (manifest w') -> encryption_key w = encryption_key w') ->
  open_payload w p salt y = Some bs -> open_payload w' q salt y = Some bs.
Proof.
  intros Hw Hw' Hr Hk Ho. unfold rebind_is_sound in Hr.
  destruct (encrypted (manifest w)) eqn:E, (encrypted (manifest w')) eqn:E'; try done.
  - apply andb_true_iff in Hr as [Hd Hpq]. apply bool_decide_eq_true in Hd, Hpq. subst q.
    unfold open_payload in *. by rewrite <- Hd, <- Hk.
  - unfold open_payload in *. rewrite (v_key _ (good_wf _ (proj1 Hw)) E) in Ho.
    by rewrite (v_key _ (good_wf _ (proj1 Hw')) E').
Qed.

(** A page in storage opens by its entry. *)
Lemma uploaded_opens w p e bs :
  st_ok w -> entry w p = Some e -> UploadIndex.read (upload_index w) p = Uploaded -> page_content w p = Some bs ->
  entry_opens w p (Some e) (Some bs).
Proof.
  intros Hw He Hu Hc. pose proof (good_wf _ (proj1 Hw)) as Hg. destruct (v_uploaded _ Hg p e He Hu) as [y Hy].
  exists y, bs. split_and!; [by eapply entry_hash_length|by apply (v_salt _ Hg p e)|done| |done|by eapply (st_content_length w)].
  unfold page_content in Hc. rewrite He in Hc. simpl in Hc.
  rewrite (chunk_unique w (hash e) y) in Hc; [done|apply Hg|by right].
Qed.

(** An entry of one volume, named by another of its pool. *)
Lemma opens_rebound w w' p q e x :
  st_ok w -> st_ok w' -> backend w ⊆ backend w' ->
  rebind_is_sound (encrypted (manifest w)) (dek_uuid (manifest w)) p
    (encrypted (manifest w')) (dek_uuid (manifest w')) q = true ->
  (encrypted (manifest w) = true -> encrypted (manifest w') = true ->
   dek_uuid (manifest w) = dek_uuid (manifest w') -> encryption_key w = encryption_key w') ->
  entry_opens w p (Some e) x -> entry_opens w' q (Some e) x.
Proof.
  intros Hw Hw' Hb Hr Hk (y & bs & H1 & H2 & Hy & Ho & Hx & Hl). exists y, bs.
  split_and!; try done; [by eapply lookup_weaken|by apply (open_rebound w w' p q)].
Qed.

Lemma sound_opens w w' p q e bs :
  st_ok w -> st_ok w' -> backend w ⊆ backend w' ->
  rebind_is_sound (encrypted (manifest w)) (dek_uuid (manifest w)) p
    (encrypted (manifest w')) (dek_uuid (manifest w')) q = true ->
  (encrypted (manifest w) = true -> encrypted (manifest w') = true ->
   dek_uuid (manifest w) = dek_uuid (manifest w') -> encryption_key w = encryption_key w') ->
  entry w p = Some e -> UploadIndex.read (upload_index w) p = Uploaded -> page_content w p = Some bs ->
  entry_opens w' q (Some e) (Some bs).
Proof.
  intros Hw Hw' Hb Hr Hk He Hu Hc. eapply (opens_rebound w w' p q e (Some bs) Hw Hw' Hb Hr Hk).
  by apply uploaded_opens.
Qed.

(** A volume and itself. *)
#[export] Instance own_linked same_backend : Linked own own true same_backend.
Proof.
  refine {| linked := cache_ok |}; try done.
  - intros c p q e bs Hc Hr. apply andb_true_iff in Hr as [_ Hr]. eapply sound_opens; try done; apply Hc.
  - intros c c' Hc Hk. simpl. split_and!; [apply Hk|done..].
Defined.

(** Two volumes: a key is named by its identity, storage is shared by the
    volumes of a pool. *)
Record paired (same_backend : bool) (s : PageCache VolumeWriter * PageCache VolumeWriter) : Prop := {
  pr_left : cache_ok s.1;
  pr_right : cache_ok s.2;
  pr_pool : same_pool same_backend (writer s.1) (writer s.2) = true -> backend (writer s.1) = backend (writer s.2);
  pr_key : encrypted (manifest (writer s.1)) = true -> encrypted (manifest (writer s.2)) = true ->
    dek_uuid (manifest (writer s.1)) = dek_uuid (manifest (writer s.2)) ->
    encryption_key (writer s.1) = encryption_key (writer s.2);
}.

Lemma see_keeps same_backend c c' :
  good (writer c) -> cache_ok c' ->
  (same_pool same_backend (writer c) (writer c') = true -> backend (writer c') ⊆ backend (writer c)) ->
  keeps c' (see same_backend c c').
Proof.
  intros Hc Hc' Hb. unfold see. destruct (same_pool _ _ _); [|by apply (keeps_refl ps)].
  apply (keeps_writer ps); [done|]. apply grows_st_keeps; [apply Hc'|]. split; try done; [by apply Hb|].
  intros [H1 _]. pose proof (v_chunks _ (good_wf _ Hc)) as [_ H2]. by split.
Qed.

Lemma see_backend same_backend c c' :
  same_pool same_backend (writer c) (writer c') = true -> backend (writer (see same_backend c c')) = backend (writer c).
Proof. unfold see. by intros ->. Qed.

Lemma see_same same_backend c c' :
  manifest (writer (see same_backend c c')) = manifest (writer c') /\
  encryption_key (writer (see same_backend c c')) = encryption_key (writer c').
Proof. unfold see. by destruct (same_pool _ _ _). Qed.

(** A step of either side. *)
Lemma paired_step same_backend a b a' :
  paired same_backend (a, b) -> cache_ok a' -> volume_le (writer a) (writer a') ->
  paired same_backend (a', see same_backend a' b) /\ keeps b (see same_backend a' b).
Proof.
  intros [Ha Hb Hp Hk] Ha' [Em Ek Eb]. simpl in *.
  assert (keeps b (see same_backend a' b)) as Hs.
  { apply see_keeps; [apply Ha'|done|]. unfold same_pool in *. rewrite Em. intros E. by rewrite <- Hp. }
  split; [|done]. destruct (see_same same_backend a' b) as [Sm Sk]. split; simpl; try done.
  - apply Hs.
  - unfold same_pool at 1. rewrite Sm. intros E. by rewrite see_backend.
  - by rewrite Sm, Sk, Em, Ek.
Qed.

Lemma paired_sym same_backend a b : paired same_backend (a, b) -> paired same_backend (b, a).
Proof.
  intros [Ha Hb Hp Hk]. split; simpl in *; try done.
  - unfold same_pool in *. rewrite !andb_true_iff, !bool_decide_eq_true in *. naive_solver.
  - intros E1 E2 E3. symmetry. by apply Hk.
Qed.

#[export] Instance paired_linked same_backend :
  Linked (left_of same_backend) (right_of same_backend) false same_backend.
Proof.
  refine {| linked := paired same_backend |}; try done.
  - apply pr_left.
  - apply pr_right.
  - intros [a b] p q e bs [Ha Hb Hp Hk] Hr. apply andb_true_iff in Hr as [Hsp Hr]. simpl in *.
    eapply sound_opens; try done; [apply Ha|apply Hb|by rewrite Hp].
  - intros c [a b] Hs Hk. simpl. destruct (paired_step same_backend a b c Hs) as [H1 H2]; [apply Hk|apply Hk|].
    by split_and!.
  - intros c [a b] Hs Hc Hk. simpl.
    destruct (paired_step same_backend b a c (paired_sym _ _ _ Hs) Hc (sc_le _ _ Hk)) as [H1 H2].
    split_and!; [by apply paired_sym|done|done].
Defined.
End proofs.
