(* ===== verification/SbcData.v ===== *)
(** * The SBC data path ([scsi/sbc/src/data_path.rs])

    READ, WRITE, SYNCHRONIZE CACHE, COMPARE AND WRITE, UNMAP, VERIFY and
    WRITE SAME on a volume's cache: the reservation and write-protect gates,
    the decoding of the command descriptor block, the range check and the
    cache operation, in the order the handlers have them. *)

From S2P Require Import Prelude Bytes BTreeMap Reservations ReservationManager ReservationRender StateError Crypto VolumeWriter PageCache VolumeCache.

Local Open Scope Z_scope.

(** ** Requests and responses ([scsi/spc]) *)

Inductive SenseKey : Type :=
  | NoSense | RecoveredError | NotReady | MediumError | HardwareError | IllegalRequest
  | UnitAttention | DataProtect | BlankCheck | VendorSpecific | CopyAborted | AbortedCommand
  | Equal | VolumeOverflow | Miscompare.

Record SenseData : Type := mkSense { sense_key : SenseKey; asc : Z; ascq : Z }.

Definition INVALID_OPCODE := mkSense IllegalRequest 0x20 0x00.
Definition INVALID_FIELD_IN_CDB := mkSense IllegalRequest 0x24 0x00.
Definition LU_NOT_SUPPORTED := mkSense IllegalRequest 0x25 0x00.
Definition LU_NOT_READY_OPERATION_IN_PROGRESS := mkSense NotReady 0x04 0x07.
Definition LBA_OUT_OF_RANGE := mkSense IllegalRequest 0x21 0x00.
Definition WRITE_PROTECTED := mkSense DataProtect 0x27 0x00.
Definition WRITE_ERROR := mkSense MediumError 0x0C 0x00.
Definition READ_ERROR := mkSense MediumError 0x11 0x00.
Definition INVALID_FIELD_IN_PARAMETER_LIST := mkSense IllegalRequest 0x26 0x00.
Definition INTERNAL_TARGET_FAILURE := mkSense HardwareError 0x44 0x00.
Definition MISCOMPARE := mkSense Miscompare 0x1D 0x00.

Inductive ScsiStatus : Type := Good | CheckCondition | ReservationConflict.

Record ScsiResponse : Type := mkResponse {
  status : ScsiStatus;
  sense : option SenseData;
  data_in : list Z;
}.

Definition good (data : list Z) : ScsiResponse := mkResponse Good None data.
Definition check (s : SenseData) : ScsiResponse := mkResponse CheckCondition (Some s) [].
Definition reservation_conflict : ScsiResponse := mkResponse ReservationConflict None [].

(** The fields the block handlers read. *)
Record ScsiRequest : Type := mkRequest {
  tsih : Z;
  lun : Z;
  cdb : list Z;
  data_out : list Z;
  data_in_max : Z;
  initiator_iqn : option (list Z);
  initiator_isid : list Z;
  session_volumes : option (list (list Z));
}.

Definition nexus_from_request (req : ScsiRequest) : RegistrantId :=
  iscsi (initiator_iqn req) (initiator_isid req).

(** ** Decoding *)

Record LbaRange : Type := mkRange { lba : Z; blocks : Z }.

Definition parse_10 (cdb : list Z) : result LbaRange SenseData :=
  if bool_decide (length cdb < 10)%nat then Err INVALID_FIELD_IN_CDB
  else Ok (mkRange (be_val (sl 2 4 cdb)) (be_val (sl 7 2 cdb))).

Definition parse_16 (cdb : list Z) : result LbaRange SenseData :=
  if bool_decide (length cdb < 16)%nat then Err INVALID_FIELD_IN_CDB
  else Ok (mkRange (be_val (sl 2 8 cdb)) (be_val (sl 10 4 cdb))).

Record Sizing : Type := mkSizing { sector : Z; total_blocks : Z }.

Definition sizing_from (c : PageCache VolumeWriter) : Sizing :=
  let sector := sector_bytes (manifest (writer c)) in
  mkSizing sector (live_size_bytes (writer c) / sector).

Definition validate_in_range (range : LbaRange) (sz : Sizing) : result unit SenseData :=
  match checked_add64 (lba range) (blocks range) with
  | None => Err LBA_OUT_OF_RANGE
  | Some e => if total_blocks sz <? e then Err LBA_OUT_OF_RANGE else Ok tt
  end.

Definition map_write_error (e : UploaderError) : SenseData :=
  match fault_class e with
  | Validation => INVALID_FIELD_IN_CDB
  | Transient => LU_NOT_READY_OPERATION_IN_PROGRESS
  | Integrity => WRITE_ERROR
  | Infrastructure => INTERNAL_TARGET_FAILURE
  end.

Definition map_read_error (e : UploaderError) : SenseData :=
  match fault_class e with
  | Validation => INVALID_FIELD_IN_CDB
  | Transient => LU_NOT_READY_OPERATION_IN_PROGRESS
  | Integrity => READ_ERROR
  | Infrastructure => INTERNAL_TARGET_FAILURE
  end.

Section handlers.
Context `{VolumeCrypto}.

Definition resolve_range_sense (c : PageCache VolumeWriter) (range : LbaRange) : result (Z * Z) SenseData :=
  match resolve_range c (lba range) (blocks range) with
  | Ok v => Ok v
  | Err _ => Err LBA_OUT_OF_RANGE
  end.

(** ** Handlers *)

(** A handler's body: an error is an early [return]. *)
Notation M := (EM (PageCache VolumeWriter) ScsiResponse).

Definition refuse {A} (s : SenseData) : M A := fail (check s).

Definition sensed {A} (r : result A SenseData) : M A :=
  match r with Ok a => mret a | Err s => refuse s end.

Definition cached {A} (f : UploaderError -> SenseData) (m : EM (PageCache VolumeWriter) UploaderError A) : M A :=
  map_err (fun e => check (f e)) m.

Definition require (b : bool) (r : ScsiResponse) : M unit := if b then mret tt else fail r.

Definition not_worm : M unit :=
  c ← get; require (negb (worm (manifest (writer c)))) (check WRITE_PROTECTED).

(** The opcode picks the layout. *)
Definition parse_by (op10 op16 : Z) (cdb : list Z) : result LbaRange SenseData :=
  match cdb with
  | op :: _ =>
      if op =? op10 then parse_10 cdb
      else if op =? op16 then parse_16 cdb else Err INVALID_OPCODE
  | [] => Err INVALID_OPCODE
  end.

Definition write (reservations : ReservationManager) (req : ScsiRequest) (nexus : RegistrantId) : M ScsiResponse :=
  require (allow_write reservations (lun req) nexus) reservation_conflict;;
  not_worm;;
  range ← sensed (parse_by 0x2A 0x8A (cdb req));
  if blocks range =? 0 then mret (good [])
  else
    c ← get;
    window ← sensed (resolve_range_sense c range);
    let '(byte_offset, want_bytes) := window in
    if negb (Z.of_nat (length (data_out req)) =? want_bytes) then refuse INVALID_FIELD_IN_CDB
    else
      cached map_write_error (write_bytes byte_offset (data_out req));;
      mret (good []).

Definition read (reservations : ReservationManager) (req : ScsiRequest) (nexus : RegistrantId) : M ScsiResponse :=
  require (allow_read reservations (lun req) nexus) reservation_conflict;;
  range ← sensed (parse_by 0x28 0x88 (cdb req));
  if blocks range =? 0 then mret (good [])
  else
    c ← get;
    window ← sensed (resolve_range_sense c range);
    let '(byte_offset, want_bytes) := window in
    let want := Z.to_nat (Z.min want_bytes (data_in_max req)) in
    out ← cached map_read_error (read_bytes byte_offset want);
    mret (good (take (Z.to_nat (data_in_max req)) out)).

(** The range of SYNCHRONIZE CACHE; no blocks is to the end of the medium. *)
Definition synchronize_blocks (range : LbaRange) (sz : Sizing) : result Z SenseData :=
  if 0 <? blocks range then
    match checked_add64 (lba range) (blocks range) with
    | None => Err LBA_OUT_OF_RANGE
    | Some e => if total_blocks sz <? e then Err LBA_OUT_OF_RANGE else Ok (blocks range)
    end
  else if total_blocks sz <=? lba range then Err LBA_OUT_OF_RANGE
  else Ok (total_blocks sz - lba range).

(** [None]: still waiting for uploads. *)
Definition synchronize_cache (reservations : ReservationManager) (req : ScsiRequest) (nexus : RegistrantId) :
    M (option ScsiResponse) :=
  require (allow_write reservations (lun req) nexus) reservation_conflict;;
  range ← sensed (parse_by 0x35 0x91 (cdb req));
  c ← get;
  let sz := sizing_from c in
  blocks_for_range ← sensed (synchronize_blocks range sz);
  done ← cached map_write_error
    (synchronize_bytes (lba range * sector sz) (blocks_for_range * sector sz));
  mret (match done with Some _ => Some (good []) | None => None end).

Definition compare_and_write (reservations : ReservationManager) (req : ScsiRequest) (nexus : RegistrantId) :
    M ScsiResponse :=
  require (allow_write reservations (lun req) nexus) reservation_conflict;;
  not_worm;;
  if bool_decide (length (cdb req) < 16)%nat then refuse INVALID_FIELD_IN_CDB
  else
    let range := mkRange (be_val (sl 2 8 (cdb req))) (at_ (cdb req) 13) in
    if blocks range =? 0 then mret (good [])
    else
      c ← get;
      window ← sensed (resolve_range_sense c range);
      let '(byte_offset, want_each) := window in
      match checked_mul64 want_each 2 with
      | None => refuse INVALID_FIELD_IN_CDB
      | Some want_total =>
          if negb (Z.of_nat (length (data_out req)) =? want_total) then refuse INVALID_FIELD_IN_CDB
          else
            let compare_buf := take (Z.to_nat want_each) (data_out req) in
            let write_buf := drop (Z.to_nat want_each) (data_out req) in
            same ← cached map_read_error (compare_and_write_bytes byte_offset compare_buf write_buf);
            mret (if same : bool then good [] else check MISCOMPARE)
      end.

(** The descriptors of UNMAP, from the [i]-th, all checked before any is
    applied. *)
Fixpoint unmap_plan (c : PageCache VolumeWriter) (p : list Z) (n i : nat) : result (list (Z * Z)) SenseData :=
  match n with
  | O => Ok []
  | S n =>
      let off := (8 + i * 16)%nat in
      let range := mkRange (be_val (sl off 8 p)) (be_val (sl (off + 8) 4 p)) in
      if blocks range =? 0 then unmap_plan c p n (S i)
      else
        match resolve_range_sense c range with
        | Err s => Err s
        | Ok window =>
            match unmap_plan c p n (S i) with Err s => Err s | Ok rest => Ok (window :: rest) end
        end
  end.

Fixpoint unmap_all (to_clear : list (Z * Z)) : M unit :=
  match to_clear with
  | [] => mret tt
  | (byte_offset, len_bytes) :: rest =>
      cached map_write_error (unmap_bytes byte_offset (Z.to_nat len_bytes));; unmap_all rest
  end.

Definition unmap (reservations : ReservationManager) (req : ScsiRequest) (nexus : RegistrantId) : M ScsiResponse :=
  require (allow_write reservations (lun req) nexus) reservation_conflict;;
  not_worm;;
  if bool_decide (length (cdb req) < 10)%nat then refuse INVALID_FIELD_IN_CDB
  else if negb (Z.land (at_ (cdb req) 1) 0x01 =? 0) then refuse INVALID_FIELD_IN_CDB
  else
    let parameter_list_length := be_val (sl 7 2 (cdb req)) in
    if parameter_list_length =? 0 then mret (good [])
    else if parameter_list_length <? 8 then refuse INVALID_FIELD_IN_PARAMETER_LIST
    else if Z.of_nat (length (data_out req)) <? parameter_list_length
    then refuse INVALID_FIELD_IN_PARAMETER_LIST
    else
      let p := take (Z.to_nat parameter_list_length) (data_out req) in
      let descriptor_total := be_val (sl 2 2 p) in
      if negb (descriptor_total mod 16 =? 0) then refuse INVALID_FIELD_IN_PARAMETER_LIST
      else if parameter_list_length <? 8 + descriptor_total then refuse INVALID_FIELD_IN_PARAMETER_LIST
      else
        c ← get;
        to_clear ← sensed (unmap_plan c p (Z.to_nat (descriptor_total / 16)) 0);
        unmap_all to_clear;;
        mret (good []).

Definition verify (reservations : ReservationManager) (req : ScsiRequest) (nexus : RegistrantId) : M ScsiResponse :=
  require (allow_read reservations (lun req) nexus) reservation_conflict;;
  range ← sensed (parse_by 0x2F 0x8F (cdb req));
  if negb (Z.shiftr (at_ (cdb req) 1) 5 =? 0) then refuse INVALID_FIELD_IN_CDB
  else
    let bytchk := Z.land (Z.shiftr (at_ (cdb req) 1) 1) 0x03 in
    if (bytchk =? 2) || (bytchk =? 3) then refuse INVALID_FIELD_IN_CDB
    else if blocks range =? 0 then mret (good [])
    else
      c ← get;
      window ← sensed (resolve_range_sense c range);
      let '(byte_offset, want_bytes) := window in
      if bytchk =? 0 then
        cached map_read_error (read_bytes byte_offset (Z.to_nat want_bytes));; mret (good [])
      else if negb (Z.of_nat (length (data_out req)) =? want_bytes) then refuse INVALID_FIELD_IN_CDB
      else
        on_medium ← cached map_read_error (read_bytes byte_offset (Z.to_nat want_bytes));
        if bool_decide (on_medium = data_out req) then mret (good []) else refuse MISCOMPARE.

(** ** WRITE SAME *)

Definition TARGET_CHUNK_BYTES : Z := 16 * 1024 * 1024.

(** [while b.len() < buf_len { b.extend_from_slice(pattern) }]; the pattern
    is not empty. *)
Fixpoint fill (fuel : nat) (pattern : list Z) (buf_len : nat) (b : list Z) : list Z :=
  match fuel with
  | O => b
  | S fuel => if bool_decide (length b < buf_len)%nat then fill fuel pattern buf_len (b ++ pattern) else b
  end.

Fixpoint same_turns (fuel : nat) (buf : list Z) (chunk_bytes cursor remaining : Z) : M unit :=
  match fuel with
  | O => mret tt
  | S fuel =>
      if remaining <=? 0 then mret tt
      else
        let this := Z.min remaining chunk_bytes in
        cached map_write_error (write_bytes cursor (take (Z.to_nat this) buf));;
        same_turns fuel buf chunk_bytes (cursor + this) (remaining - this)
  end.

(** A turn writes a whole chunk or the rest. *)
Definition write_pattern (sector : Z) (pattern : list Z) (pattern_is_zero : bool) (byte_offset len_bytes : Z) : M unit :=
  let chunk_sectors := Z.max (TARGET_CHUNK_BYTES / sector) 1 in
  let chunk_bytes := chunk_sectors * sector in
  let buf_len := Z.to_nat (Z.min chunk_bytes len_bytes) in
  let buf := if pattern_is_zero then replicate buf_len 0 else fill buf_len pattern buf_len [] in
  same_turns (Z.to_nat (len_bytes / chunk_bytes + 1)) buf chunk_bytes byte_offset len_bytes.

(** The LBA and block count fields of the two forms. *)
Definition same_range (opcode : Z) (cdb : list Z) : LbaRange :=
  if opcode =? 0x41 then mkRange (be_val (sl 2 4 cdb)) (be_val (sl 7 2 cdb))
  else mkRange (be_val (sl 2 8 cdb)) (be_val (sl 10 4 cdb)).

Definition flag_set (flags m : Z) : bool := negb (Z.land flags m =? 0).

Definition write_same_body (req : ScsiRequest) (opcode : Z) : M ScsiResponse :=
  let flags := at_ (cdb req) 1 in
  if negb (Z.shiftr flags 5 =? 0) then refuse INVALID_FIELD_IN_CDB
  else if flag_set flags 0x10 || flag_set flags 0x04 || flag_set flags 0x02 then refuse INVALID_FIELD_IN_CDB
  else
    let ndob := (opcode =? 0x93) && flag_set flags 0x01 in
    let fields := same_range opcode (cdb req) in
    c ← get;
    let sz := sizing_from c in
    if total_blocks sz <=? lba fields then refuse LBA_OUT_OF_RANGE
    else if (blocks fields =? 0) && (opcode =? 0x41) then mret (good [])
    else
      let range := mkRange (lba fields)
        (if blocks fields =? 0 then total_blocks sz - lba fields else blocks fields) in
      window ← sensed (resolve_range_sense c range);
      let '(byte_offset, len_bytes) := window in
      if negb ndob && negb (Z.of_nat (length (data_out req)) =? sector sz) then refuse INVALID_FIELD_IN_CDB
      else
        let pattern := if ndob then [] else data_out req in
        let pattern_is_zero := forallb (fun b => b =? 0) pattern in
        (if flag_set flags 0x08 && pattern_is_zero
         then cached map_write_error (unmap_bytes byte_offset (Z.to_nat len_bytes))
         else write_pattern (sector sz) pattern pattern_is_zero byte_offset len_bytes);;
        mret (good []).

Definition write_same (reservations : ReservationManager) (req : ScsiRequest) (nexus : RegistrantId) :
    M ScsiResponse :=
  require (allow_write reservations (lun req) nexus) reservation_conflict;;
  not_worm;;
  match cdb req with
  | [] => refuse INVALID_OPCODE
  | opcode :: _ =>
      if negb ((opcode =? 0x41) || (opcode =? 0x93)) then refuse INVALID_OPCODE
      else if bool_decide (length (cdb req) < (if (opcode =? 0x41)%Z then 10 else 16))%nat
      then refuse INVALID_FIELD_IN_CDB
      else write_same_body req opcode
  end.

(** ** Dispatch *)

(** [Waiting]: SYNCHRONIZE CACHE until its uploads end.  [Elsewhere]: an
    opcode of another handler. *)
Inductive Reply : Type := Replied (r : ScsiResponse) | Waiting | Elsewhere.

(** The response, however the body ended. *)
Definition respond (m : M ScsiResponse) (c : PageCache VolumeWriter) : PageCache VolumeWriter * Reply :=
  match m c with (c', Ok r) | (c', Err r) => (c', Replied r) end.

Definition respond_later (m : M (option ScsiResponse)) (c : PageCache VolumeWriter) :
    PageCache VolumeWriter * Reply :=
  match m c with
  | (c', Ok (Some r)) | (c', Err r) => (c', Replied r)
  | (c', Ok None) => (c', Waiting)
  end.

(** The data-path opcodes of [SbcScsiDispatcher::dispatch] on a unit. *)
Definition dispatch_unit (reservations : ReservationManager) (req : ScsiRequest) (c : PageCache VolumeWriter) :
    PageCache VolumeWriter * Reply :=
  let nexus := nexus_from_request req in
  let op := at_ (cdb req) 0 in
  let one_of a b := (op =? a) || (op =? b) in
  if one_of 0x28 0x88 then respond (read reservations req nexus) c
  else if one_of 0x2A 0x8A then respond (write reservations req nexus) c
  else if one_of 0x2F 0x8F then respond (verify reservations req nexus) c
  else if one_of 0x35 0x91 then respond_later (synchronize_cache reservations req nexus) c
  else if one_of 0x41 0x93 then respond (write_same reservations req nexus) c
  else if op =? 0x42 then respond (unmap reservations req nexus) c
  else if op =? 0x89 then respond (compare_and_write reservations req nexus) c
  else (c, Elsewhere).

(** [None] is a missing unit, or one the session is not admitted to. *)
Definition dispatch_data (reservations : ReservationManager) (req : ScsiRequest)
    (cache : option (PageCache VolumeWriter)) : option (PageCache VolumeWriter) * Reply :=
  match cache with
  | None => (None, Replied (check LU_NOT_SUPPORTED))
  | Some c => let '(c', r) := dispatch_unit reservations req c in (Some c', r)
  end.
End handlers.
