(* ===== verification/SbcProofs.v ===== *)
(** * What the data path promises

    A host sees one array of bytes: [accepted] says what a GOOD response
    means, [extent] which blocks a command may write.  The handlers keep to
    both, whatever the state of the cache: a byte changes only under a write
    the reservations allow, on a volume that is not write-protected, inside
    the blocks the command names. *)

From S2P Require Import Prelude Bytes BTreeMap Reservations ReservationManager ReservationRender StateError PageLru Crypto VolumeWriter VolumeProofs VolumeHistory PageCache PageCacheProofs CacheBytes CacheHistory VolumeCache SbcData.

Local Open Scope Z_scope.

(** ** The specification *)

(** The blocks a command writes. *)
Definition descriptors (p : list Z) (n i : nat) : list LbaRange :=
  map (fun i => mkRange (be_val (sl (8 + i * 16) 8 p)) (be_val (sl (8 + i * 16 + 8) 4 p))) (seq i n).

Definition unmap_list (req : ScsiRequest) : list LbaRange :=
  let p := take (Z.to_nat (be_val (sl 7 2 (cdb req)))) (data_out req) in
  descriptors p (Z.to_nat (be_val (sl 2 2 p) / 16)) 0.

Definition same_extent (sz : Sizing) (req : ScsiRequest) : LbaRange :=
  let op := at_ (cdb req) 0 in
  let f := same_range op (cdb req) in
  mkRange (lba f) (if (blocks f =? 0) && negb (op =? 0x41) then total_blocks sz - lba f else blocks f).

Definition extent (sz : Sizing) (req : ScsiRequest) : list LbaRange :=
  let op := at_ (cdb req) 0 in
  if (op =? 0x2A) || (op =? 0x8A) then
    match parse_by 0x2A 0x8A (cdb req) with Ok r => [r] | Err _ => [] end
  else if (op =? 0x41) || (op =? 0x93) then [same_extent sz req]
  else if op =? 0x42 then unmap_list req
  else if op =? 0x89 then [mkRange (be_val (sl 2 8 (cdb req))) (at_ (cdb req) 13)]
  else [].

Definition inside (sz : Sizing) (i : Z) (r : LbaRange) : Prop :=
  lba r * sector sz <= i < (lba r + blocks r) * sector sz.

#[export] Instance inside_dec sz i r : Decision (inside sz i r).
Proof. unfold inside. apply _. Defined.

(** One block, over and over. *)
Definition same_byte (sz : Sizing) (req : ScsiRequest) (i : Z) : Z :=
  if (at_ (cdb req) 0 =? 0x93) && negb (Z.land (at_ (cdb req) 1) 0x01 =? 0) then 0
  else default 0 (data_out req !! Z.to_nat (i mod sector sz)).

Definition bytes_of (sz : Sizing) (r : LbaRange) : nat := Z.to_nat (blocks r * sector sz).

(** What a GOOD response means for the bytes before and after. *)
Inductive accepted (sz : Sizing) (req : ScsiRequest) (mem : Z -> Z) : list Z -> (Z -> Z) -> Prop :=
  | acc_read r mem' :
      parse_by 0x28 0x88 (cdb req) = Ok r -> (forall i, 0 <= i -> mem' i = mem i) ->
      accepted sz req mem
        (slice_of mem (lba r * sector sz) (Z.to_nat (Z.min (blocks r * sector sz) (data_in_max req)))) mem'
  | acc_write r mem' :
      parse_by 0x2A 0x8A (cdb req) = Ok r ->
      (forall i, 0 <= i -> mem' i = overlay (lba r * sector sz) (take (bytes_of sz r) (data_out req)) mem i) ->
      accepted sz req mem [] mem'
  | acc_verify r mem' :
      parse_by 0x2F 0x8F (cdb req) = Ok r -> (forall i, 0 <= i -> mem' i = mem i) ->
      (Z.land (Z.shiftr (at_ (cdb req) 1) 1) 0x03 = 1 -> blocks r <> 0 ->
       data_out req = slice_of mem (lba r * sector sz) (bytes_of sz r)) ->
      accepted sz req mem [] mem'
  | acc_synchronize r mem' :
      parse_by 0x35 0x91 (cdb req) = Ok r -> (forall i, 0 <= i -> mem' i = mem i) ->
      accepted sz req mem [] mem'
  | acc_same mem' :
      at_ (cdb req) 0 = 0x41 \/ at_ (cdb req) 0 = 0x93 ->
      (forall i, 0 <= i -> mem' i = if bool_decide (inside sz i (same_extent sz req)) then same_byte sz req i else mem i) ->
      accepted sz req mem [] mem'
  | acc_unmap mem' :
      at_ (cdb req) 0 = 0x42 ->
      (forall i, 0 <= i -> mem' i = if bool_decide (Exists (inside sz i) (unmap_list req)) then 0 else mem i) ->
      accepted sz req mem [] mem'
  | acc_swap r mem' :
      at_ (cdb req) 0 = 0x89 -> r = mkRange (be_val (sl 2 8 (cdb req))) (at_ (cdb req) 13) ->
      (blocks r <> 0 -> slice_of mem (lba r * sector sz) (bytes_of sz r) = take (bytes_of sz r) (data_out req)) ->
      (forall i, 0 <= i -> mem' i =
         overlay (lba r * sector sz) (take (bytes_of sz r) (drop (bytes_of sz r) (data_out req))) mem i) ->
      accepted sz req mem [] mem'.

(** Bytes of eight bits, as the transport delivers. *)
Record req_ok (req : ScsiRequest) : Prop := {
  rq_cdb : bytes_ok (cdb req);
  rq_data : bytes_ok (data_out req);
  rq_max : 0 <= data_in_max req;
}.

Section proofs.
Context `{VolumeCryptoLaws} (ps : Z) (Hps : 0 < ps <= u32_max).

#[local] Instance sbc_model : PageStoreModel VolumeWriter := volume_model ps.
#[local] Instance sbc_laws : PageStoreLaws VolumeWriter ps := volume_laws ps Hps.

Notation cache_ok := (cache_ok ps).
Notation byte_at := (byte_at ps).
Notation keeps := (keeps ps).
Notation overlaid := (overlaid ps).
Notation erased := (erased ps).

Record unit_ok (c : PageCache VolumeWriter) : Prop := {
  u_ok : cache_ok c;
  u_sector : cache_sector_size c = sector_bytes (manifest (writer c));
  u_pos : 0 < sector_bytes (manifest (writer c));
}.

Notation sz c := (sizing_from c).

(** Where a command may leave the bytes: as they were outside [G], and, when
    it answers GOOD, as [acc] says. *)
Record outcome (G : Z -> Prop) (acc : list Z -> (Z -> Z) -> Prop) (c c' : PageCache VolumeWriter)
    (r : result ScsiResponse ScsiResponse) : Prop := {
  oc_ok : cache_ok c';
  oc_conf : same_config c c';
  oc_bytes i : 0 <= i -> byte_at c' i <> byte_at c i -> G i /\ i < live_size_bytes (writer c);
  oc_good x : r = Ok x -> status x = Good -> acc (data_in x) (byte_at c');
  oc_bad x : r = Err x -> status x <> Good;
}.

(** ** Steps of the handlers *)

Lemma outcome_keeps G acc c c' r :
  keeps c c' -> (forall x, r = Ok x -> status x = Good -> acc (data_in x) (byte_at c')) ->
  (forall x, r = Err x -> status x <> Good) -> outcome G acc c c' r.
Proof.
  intros Hk Hg Hb. split; [apply Hk|apply Hk| |done|done]. intros i _ Hi. destruct Hi. by apply (keeps_byte ps).
Qed.

Lemma outcome_refused G acc c c' x : keeps c c' -> status x <> Good -> outcome G acc c c' (Err x).
Proof. intros Hk Hx. apply outcome_keeps; [done..|]. by intros y [= <-]. Qed.

Lemma wp_require b r Q (c : PageCache VolumeWriter) :
  (b = true -> Q c (Ok tt)) -> (b = false -> Q c (Err r)) -> wp (require b r) Q c.
Proof. destruct b; intros H1 H2; [by apply H1|by apply H2]. Qed.

Lemma wp_sensed {A} (r : result A SenseData) Q (c : PageCache VolumeWriter) :
  (forall a, r = Ok a -> Q c (Ok a)) -> (forall e, r = Err e -> Q c (Err (check e))) -> wp (sensed r) Q c.
Proof. destruct r; intros H1 H2; [by apply H1|by apply H2]. Qed.

(** The result of a refusal. *)
Lemma refused_here G acc c x : cache_ok c -> status x <> Good -> outcome G acc c c (Err x).
Proof. intros Hc. by apply outcome_refused, (keeps_refl ps). Qed.

(** The tests before a body. *)
Lemma wp_gate G acc b r (k : EM _ _ _) c :
  cache_ok c -> status r <> Good -> (b = true -> wp k (outcome G acc c) c) ->
  wp (require b r;; k) (outcome G acc c) c.
Proof. intros Hc Hr Hk. apply wp_bind, wp_require; [done|]. intros _. by apply refused_here. Qed.

Lemma wp_parse {A} G acc (r : result A SenseData) (k : A -> EM _ _ _) c :
  cache_ok c -> (forall a, r = Ok a -> wp (k a) (outcome G acc c) c) ->
  wp (sensed r ≫= k) (outcome G acc c) c.
Proof. intros Hc Hk. apply wp_bind, wp_sensed; [done|]. intros e _. by apply refused_here. Qed.

Lemma wp_refuse G acc s c : cache_ok c -> wp (refuse s) (outcome G acc c) c.
Proof. intros Hc. by apply refused_here. Qed.

Lemma wp_writable G acc reservations l nexus (k : EM _ _ _) c :
  cache_ok c ->
  (allow_write reservations l nexus = true -> worm (manifest (writer c)) = false -> wp k (outcome G acc c) c) ->
  wp (require (allow_write reservations l nexus) reservation_conflict;; not_worm;; k) (outcome G acc c) c.
Proof.
  intros Hc Hk. apply wp_gate; [done..|]. intros Ha. unfold not_worm. apply wp_bind, wp_get, wp_require.
  - intros Hw. apply Hk; [done|]. by apply negb_true_iff.
  - intros _. by apply refused_here.
Qed.

(** A cache call and the answer after it. *)
Lemma wp_call {A} (f : UploaderError -> SenseData) (m : EM _ UploaderError A) (k : A -> EM _ ScsiResponse ScsiResponse)
    (P : PageCache VolumeWriter -> result A UploaderError -> Prop) (Q : _ -> _ -> Prop) c :
  wp m P c -> (forall c' e, P c' (Err e) -> Q c' (Err (check (f e)))) ->
  (forall c' a, P c' (Ok a) -> wp (k a) Q c') -> wp (cached f m ≫= k) Q c.
Proof.
  intros Hm He Hk. apply wp_bind, wp_map_err. eapply wp_mono; [exact Hm|]. intros c' [a|e]; auto.
Qed.

(** ** Ranges *)

Lemma parse_by_spec a b l r :
  parse_by a b l = Ok r -> bytes_ok l -> 0 <= lba r /\ 0 <= blocks r /\ (at_ l 0 = a \/ at_ l 0 = b).
Proof.
  intros Hp Hl. unfold parse_by in Hp. destruct l as [|op l]; [done|]. unfold at_. simpl.
  assert (forall off n, 0 <= be_val (sl off n (op :: l))) as Hn
    by (intros off n; apply be_val_range; by apply sl_bytes_ok).
  unfold parse_10, parse_16 in Hp. destruct (Z.eqb_spec op a) as [->|]; [|destruct (Z.eqb_spec op b) as [->|]; [|done]];
    (case_bool_decide; [done|]); injection Hp as <-; simpl; auto.
Qed.

Lemma window_spec c r off len :
  unit_ok c -> 0 <= lba r -> 0 <= blocks r -> resolve_range_sense c r = Ok (off, len) ->
  off = lba r * sector (sz c) /\ len = blocks r * sector (sz c) /\ 0 <= off /\ 0 <= len /\
  off + len <= live_size_bytes (writer c).
Proof.
  intros [Hc Hs Hp] Hl Hb. unfold resolve_range_sense.
  pose proof (resolve_range_spec ps c (lba r) (blocks r) Hc Hl Hb) as Hr. rewrite Hs in Hr. specialize (Hr Hp).
  destruct (resolve_range c (lba r) (blocks r)) as [[o n]|]; [|done]. intros [= <- <-].
  simpl. destruct Hr as (-> & -> & ? & ? & [? _] & _). by split_and!.
Qed.

Lemma inside_window c r i :
  lba r * sector (sz c) <= i < lba r * sector (sz c) + blocks r * sector (sz c) -> inside (sz c) i r.
Proof. unfold inside. lia. Qed.

(** Bytes written in a window. *)
Lemma outcome_overlay (G : Z -> Prop) acc c c' off data r :
  overlaid off data c c' -> off + Z.of_nat (length data) <= live_size_bytes (writer c) ->
  (forall i, off <= i < off + Z.of_nat (length data) -> G i) ->
  (forall x, r = Ok x -> status x = Good -> acc (data_in x) (byte_at c')) ->
  (forall x, r = Err x -> status x <> Good) -> outcome G acc c c' r.
Proof.
  intros Ho Hs Hg Ha Hb. split; [apply Ho|apply Ho| |done|done]. intros i Hi. rewrite (ov_bytes _ _ _ _ _ Ho i Hi).
  unfold overlay. case_bool_decide; [|done]. intros _. split; [by apply Hg|lia].
Qed.

Lemma outcome_erased (G : Z -> Prop) acc c c' off len r :
  erased off len c c' -> off + len <= live_size_bytes (writer c) ->
  (forall i, off <= i < off + len -> G i) ->
  (forall x, r = Ok x -> status x = Good -> acc (data_in x) (byte_at c')) ->
  (forall x, r = Err x -> status x <> Good) -> outcome G acc c c' r.
Proof.
  intros He Hs Hg Ha Hb. split; [apply He|apply He| |done|done]. intros i Hi Hne.
  destruct (decide (off <= i < off + len)) as [Hin|Hn]; [split; [by apply Hg|lia]|].
  destruct Hne. by apply (er_out _ _ _ _ _ He).
Qed.

(** The cache operations, as preconditions. *)
Lemma read_bytes_wp c off n :
  cache_ok c -> 0 <= off -> off + Z.of_nat n <= live_size_bytes (writer c) ->
  wp (read_bytes off n) (fun c' r => keeps c c' /\ forall o, r = Ok o -> o = slice_of (byte_at c) off n) c.
Proof. intros Hc Ho Hs. unfold wp. by destruct (read_bytes_spec ps c off n Hc Ho ltac:(exact Hs)) as (c' & r & -> & ?). Qed.

Lemma write_bytes_wp c off data :
  cache_ok c -> 0 <= off -> off + Z.of_nat (length data) <= live_size_bytes (writer c) ->
  wp (write_bytes off data) (fun c' r => exists n, overlaid off (take n data) c c' /\ (r = Ok tt -> take n data = data)) c.
Proof. intros Hc Ho Hs. unfold wp. destruct (write_bytes_spec ps c off data Hc Ho ltac:(exact Hs)) as (c' & r & n & -> & ?). eauto. Qed.

Lemma unmap_bytes_wp c off n :
  cache_ok c -> 0 <= off -> off + Z.of_nat n <= live_size_bytes (writer c) ->
  wp (unmap_bytes off n) (fun c' r => erased off (Z.of_nat n) c c' /\
    (r = Ok tt -> overlaid off (zeros (Z.of_nat n)) c c')) c.
Proof. intros Hc Ho Hs. unfold wp. by destruct (unmap_bytes_spec ps c off n Hc Ho ltac:(exact Hs)) as (c' & r & -> & ?). Qed.

(** ** Erasing windows *)

Lemma conf_size (c c' : PageCache VolumeWriter) :
  same_config c c' -> live_size_bytes (writer c') = live_size_bytes (writer c).
Proof. intros Hs. exact (sc_size _ _ Hs). Qed.

Definition within (i : Z) (w : Z * Z) : Prop := w.1 <= i < w.1 + w.2.

#[local] Instance within_dec i w : Decision (within i w).
Proof. unfold within. apply _. Defined.

Lemma overlay_zeros off n f i :
  0 <= n -> overlay off (zeros n) f i = if bool_decide (within i (off, n)) then 0 else f i.
Proof.
  intros Hn. unfold overlay, within, zeros. rewrite length_replicate, Z2Nat.id by done. simpl.
  do 2 case_bool_decide; try done. rewrite lookup_replicate_2; [done|lia].
Qed.

Record cleared (l : list (Z * Z)) (c c' : PageCache VolumeWriter) (r : result unit ScsiResponse) : Prop := {
  cl_ok : cache_ok c';
  cl_conf : same_config c c';
  cl_out i : 0 <= i -> ~ Exists (within i) l -> byte_at c' i = byte_at c i;
  cl_done i : 0 <= i -> r = Ok tt -> byte_at c' i = if bool_decide (Exists (within i) l) then 0 else byte_at c i;
  cl_bad x : r = Err x -> status x <> Good;
}.

Lemma unmap_all_wp l c :
  cache_ok c -> Forall (fun w => 0 <= w.1 /\ 0 <= w.2 /\ w.1 + w.2 <= live_size_bytes (writer c)) l ->
  wp (unmap_all l) (cleared l c) c.
Proof.
  revert c. induction l as [|[off len] l IH]; intros c Hc Hl.
  { by split. }
  apply Forall_cons in Hl as [(Ho & Hn & Hs) Hl]. simpl in *.
  apply wp_bind. unfold cached. apply wp_map_err.
  eapply wp_mono; [apply unmap_bytes_wp; [done|done|rewrite Z2Nat.id by done; lia]|].
  intros c1 r [He Hd]. rewrite Z2Nat.id in He, Hd by done. destruct r as [[]|e].
  - specialize (Hd eq_refl). eapply wp_mono; [apply IH; [apply He|]|].
    { eapply Forall_impl; [exact Hl|]. intros w Hw. by rewrite (conf_size _ _ (er_conf _ _ _ _ _ He)). }
    intros c2 r [H1 H2 H3 H4 H5]. split; [done|by eapply (same_config_trans ps); [apply He|]| | |done].
    + intros i Hi Hx. rewrite H3; [|done|by intros ?; apply Hx; right].
      apply He; [done|]. intros Hw. apply Hx. by left.
    + intros i Hi Hr. rewrite H4, (ov_bytes _ _ _ _ _ Hd i Hi), overlay_zeros by done.
      repeat case_bool_decide; try done; exfalso; rewrite Exists_cons in *; tauto.
  - split; [apply He|apply He| |done|by intros x [= <-]]. intros i Hi Hx. apply He; [done|].
    intros Hw. apply Hx. by left.
Qed.

(** ** Repeating a block *)

(** A buffer of whole copies of a block of [s] bytes. *)
Definition periodic (s : nat) (pattern b : list Z) : Prop :=
  (exists m, length b = m * s)%nat /\ forall k, (k < length b)%nat -> b !! k = pattern !! (k mod s)%nat.

Lemma periodic_snoc s pattern b :
  (0 < s)%nat -> length pattern = s -> periodic s pattern b -> periodic s pattern (b ++ pattern).
Proof.
  intros Hs Hp [[m Hm] Hb]. split; [exists (S m); rewrite length_app; lia|]. intros k. rewrite length_app. intros Hk.
  destruct (decide (k < length b)%nat) as [Hl|Hl].
  - rewrite lookup_app_l by done. by apply Hb.
  - rewrite lookup_app_r by lia. f_equal. apply (Nat.mod_unique k s m); lia.
Qed.

Lemma fill_periodic fuel s pattern n b :
  (0 < s)%nat -> length pattern = s -> (exists m, n = m * s)%nat -> periodic s pattern b -> (length b <= n)%nat ->
  (n <= length b + fuel)%nat ->
  periodic s pattern (fill fuel pattern n b) /\ length (fill fuel pattern n b) = n.
Proof.
  intros Hs Hp [mn Hn]. revert b. induction fuel as [|fuel IH]; intros b Hb Hle Hf; simpl; [split; [done|lia]|].
  case_bool_decide as Hl; [|split; [done|lia]]. destruct Hb as [[m Hm] Hb].
  assert (m < mn)%nat by nia. assert (S m * s <= mn * s)%nat by (apply Nat.mul_le_mono_r; lia).
  apply IH; [apply periodic_snoc; try done; split; eauto|rewrite length_app; lia|rewrite length_app; lia].
Qed.

Record patterned (s : Z) (pat : Z -> Z) (off len : Z) (c c' : PageCache VolumeWriter) : Prop := {
  pt_ok : cache_ok c';
  pt_conf : same_config c c';
  pt_bytes i : 0 <= i ->
    byte_at c' i = if bool_decide (within i (off, len)) then pat (i mod s) else byte_at c i;
}.

Lemma patterned_trans s pat off n m c c1 c2 :
  0 <= n -> 0 <= m -> patterned s pat off n c c1 -> patterned s pat (off + n) m c1 c2 ->
  patterned s pat off (n + m) c c2.
Proof.
  intros Hn Hm [H1 H2 H3] [K1 K2 K3]. split; [done|by eapply (same_config_trans ps)|]. intros i Hi.
  rewrite K3, H3 by done. unfold within. simpl. repeat case_bool_decide; try done; lia.
Qed.

Lemma overlaid_patterned s pat off data c c' :
  0 < s -> off mod s = 0 -> overlaid off data c c' ->
  (forall k, (k < length data)%nat -> default 0 (data !! k) = pat (Z.of_nat k mod s)) ->
  patterned s pat off (Z.of_nat (length data)) c c'.
Proof.
  intros Hs Ho [H1 H2 H3] Hd. split; [done..|]. intros i Hi. rewrite H3 by done. unfold overlay, within. simpl.
  do 2 case_bool_decide; try done. rewrite Hd by lia. f_equal.
  rewrite Z2Nat.id, Zminus_mod, Ho, Z.sub_0_r, Zmod_mod by lia. done.
Qed.

Lemma overlaid_prefix off data n len c c' :
  overlaid off (take n data) c c' -> Z.of_nat (length data) <= len -> erased off len c c'.
Proof.
  intros [H1 H2 H3] Hl. split; [done..|]. intros i Hi Ho. rewrite H3 by done. unfold overlay.
  rewrite length_take. rewrite bool_decide_eq_false_2; [done|lia].
Qed.

Lemma same_turns_wp fuel s pat buf chunk cursor remaining c :
  0 < s -> 0 < chunk -> chunk mod s = 0 -> cursor mod s = 0 -> remaining mod s = 0 -> 0 <= cursor -> 0 <= remaining ->
  cache_ok c -> cursor + remaining <= live_size_bytes (writer c) ->
  Z.min remaining chunk <= Z.of_nat (length buf) -> remaining <= Z.of_nat fuel * chunk ->
  (forall k, (k < length buf)%nat -> default 0 (buf !! k) = pat (Z.of_nat k mod s)) ->
  wp (same_turns fuel buf chunk cursor remaining) (fun c' r =>
    erased cursor remaining c c' /\ (r = Ok tt -> patterned s pat cursor remaining c c') /\
    forall x, r = Err x -> status x <> Good) c.
Proof.
  intros Hs Hch Hcm Hcu Hrm Hc0 Hr0 Hc Hsz Hb Hf Hpat. revert cursor remaining c Hcu Hrm Hc0 Hr0 Hc Hsz Hb Hf.
  induction fuel as [|fuel IH]; intros cursor remaining c Hcu Hrm Hc0 Hr0 Hc Hsz Hb Hf.
  { replace remaining with 0 by lia. split_and!; [|intros _|done]; (split; [done|done|]); intros i Hi; [done|].
    rewrite bool_decide_eq_false_2; [done|]. unfold within. simpl. lia. }
  cbn [same_turns]. apply wp_if; intros Er; bool_to_prop.
  { replace remaining with 0 by lia. split_and!; [|intros _|done]; (split; [done|done|]); intros i Hi; [done|].
    rewrite bool_decide_eq_false_2; [done|]. unfold within. simpl. lia. }
  cbv zeta. set (this := Z.min remaining chunk) in *.
  assert (length (take (Z.to_nat this) buf) = Z.to_nat this) as Hlen by (rewrite length_take; lia).
  apply wp_bind. unfold cached. apply wp_map_err.
  eapply wp_mono; [apply write_bytes_wp; [done|done|rewrite Hlen; lia]|]. intros c1 r (n & Hv & Hn).
  pose proof (overlaid_prefix _ _ _ this _ _ Hv ltac:(rewrite Hlen; lia)) as He1.
  destruct r as [[]|e]; [rewrite (Hn eq_refl) in Hv|].
  2: { split_and!; [|done|by intros x [= <-]]. destruct He1 as [H1 H2 H3]. split; [done..|]. intros i Hi Ho. apply H3; [done|lia]. }
  assert (patterned s pat cursor this c c1) as Hp1.
  { pose proof (overlaid_patterned s pat _ _ _ _ Hs Hcu Hv) as Hp. rewrite Hlen, Z2Nat.id in Hp by lia. apply Hp.
    intros k Hk. rewrite lookup_take_lt by done. apply Hpat. lia. }
  assert (this mod s = 0) as Htm by (subst this; destruct (Z.min_spec remaining chunk) as [[_ ->]|[_ ->]]; done).
  eapply wp_mono; [apply IH|].
  - by rewrite Z.add_mod, Hcu, Htm by lia.
  - by rewrite Zminus_mod, Hrm, Htm by lia.
  - lia.
  - lia.
  - apply Hp1.
  - rewrite (conf_size _ _ (pt_conf _ _ _ _ _ _ Hp1)). lia.
  - lia.
  - lia.
  - intros c2 r (K1 & K2 & K3). split_and!; [| |done].
    + replace remaining with (this + (remaining - this)) by lia. eapply (erased_trans ps); [lia|lia|exact He1|exact K1].
    + intros ->. replace remaining with (this + (remaining - this)) by lia.
      eapply patterned_trans; [lia|lia|exact Hp1|by apply K2].
Qed.

Lemma write_pattern_wp s pattern (zero : bool) (pat : Z -> Z) off len c :
  0 < s -> off mod s = 0 -> len mod s = 0 -> 0 <= off -> 0 <= len -> cache_ok c ->
  off + len <= live_size_bytes (writer c) ->
  (if zero then forall i, pat i = 0
   else Z.of_nat (length pattern) = s /\ forall i, pat i = default 0 (pattern !! Z.to_nat i)) ->
  wp (write_pattern s pattern zero off len) (fun c' r =>
    erased off len c c' /\ (r = Ok tt -> patterned s pat off len c c') /\
    forall x, r = Err x -> status x <> Good) c.
Proof.
  intros Hs Ho Hl Ho0 Hn Hc Hsz Hpat. unfold write_pattern. cbv zeta.
  set (chunk := Z.max (TARGET_CHUNK_BYTES / s) 1 * s). set (n := Z.to_nat (Z.min chunk len)).
  assert (0 < chunk) as Hch by nia. assert (chunk mod s = 0) as Hcm by (apply Z.mod_mul; lia).
  assert (exists m, n = m * Z.to_nat s)%nat as Hdiv.
  { assert (Z.min chunk len mod s = 0) as Hm by (destruct (Z.min_spec chunk len) as [[_ ->]|[_ ->]]; done).
    apply Z.mod_divide in Hm as [k Hk]; [|lia]. exists (Z.to_nat k). subst n. rewrite Hk, Z2Nat.inj_mul; nia. }
  set (buf := if zero then replicate n 0 else fill n pattern n []).
  assert (length buf = n /\ forall k, (k < length buf)%nat -> default 0 (buf !! k) = pat (Z.of_nat k mod s)) as [Hb1 Hb2].
  { subst buf. destruct zero.
    - rewrite length_replicate. split; [done|]. intros k Hk. by rewrite lookup_replicate_2, Hpat.
    - destruct Hpat as [Hp Hpat]. destruct (fill_periodic n (Z.to_nat s) pattern n []) as [[_ Hper] Hlen];
        [lia|lia|done|split; [by exists O|simpl; lia]|simpl; lia|simpl; lia|].
      split; [done|]. intros k Hk. rewrite Hper, Hpat by done. do 2 f_equal.
      rewrite <- (Nat2Z.id (k mod _)), Nat2Z.inj_mod, Z2Nat.id by lia. done. }
  apply same_turns_wp; try done; [subst n; lia|].
  rewrite Z2Nat.id by (pose proof (Z.div_pos len chunk Hn Hch); lia).
  pose proof (Z.div_mod len chunk ltac:(lia)). pose proof (Z.mod_pos_bound len chunk Hch). lia.
Qed.

(** ** The commands *)

Section command.
Context (reservations : ReservationManager) (req : ScsiRequest) (Hreq : req_ok req).
Context (c : PageCache VolumeWriter) (Hc : unit_ok c).

Notation nexus := (nexus_from_request req).

(** The bytes this command may change. *)
Definition permitted (i : Z) : Prop :=
  allow_write reservations (lun req) nexus = true /\ worm (manifest (writer c)) = false /\
  Exists (inside (sz c) i) (extent (sz c) req).

Notation post := (outcome permitted (accepted (sz c) req (byte_at c)) c).

Let Hok : cache_ok c := u_ok c Hc.


Lemma extent_of_parse r :
  parse_by 0x2A 0x8A (cdb req) = Ok r -> extent (sz c) req = [r].
Proof.
  intros Hp. destruct (parse_by_spec _ _ _ _ Hp (rq_cdb _ Hreq)) as (_ & _ & Ho). unfold extent. rewrite Hp.
  by destruct Ho as [-> | ->].
Qed.

Lemma write_wp : wp (write reservations req nexus) post c.
Proof.
  unfold write. apply wp_writable; [done|]. intros Ha Hw. apply wp_parse; [done|]. intros r Hp.
  destruct (parse_by_spec _ _ _ _ Hp (rq_cdb _ Hreq)) as (Hl & Hb & _).
  apply wp_if; intros Ez; bool_to_prop.
  { apply outcome_keeps; [by apply (keeps_refl ps)| |done]. intros x [= <-] _.
    eapply acc_write; [exact Hp|]. intros i Hi. unfold bytes_of. rewrite Ez. simpl. by rewrite take_0, overlay_nil. }
  apply wp_get, wp_parse; [done|]. intros [off len] Hr.
  destruct (window_spec c r off len Hc Hl Hb Hr) as (-> & -> & Ho & Hn & Hs).
  apply wp_if; intros El; [by apply wp_refuse|]. bool_to_prop.
  assert (forall n, Z.of_nat (length (take n (data_out req))) <= blocks r * sector (sz c)) as Hlen
    by (intros n; rewrite length_take; lia).
  assert (forall n i, lba r * sector (sz c) <= i < lba r * sector (sz c) + Z.of_nat (length (take n (data_out req))) -> permitted i) as Hpm.
  { intros n i Hi. specialize (Hlen n). split_and!; [done..|]. rewrite (extent_of_parse r Hp).
    apply Exists_cons. left. apply inside_window. lia. }
  eapply wp_call; [apply write_bytes_wp; [done..|lia]| |].
  - intros c' e (n & Hv & _). specialize (Hlen n). apply (outcome_overlay _ _ _ _ _ _ _ Hv); [lia|apply Hpm|done|by intros ? [= <-]].
  - intros c' [] (n & Hv & Hd). specialize (Hlen n). apply (outcome_overlay _ _ _ _ _ _ _ Hv); [lia|apply Hpm| |done].
    intros x [= <-] _. eapply acc_write; [exact Hp|]. intros i Hi. rewrite (ov_bytes _ _ _ _ _ Hv i Hi), (Hd eq_refl).
    unfold bytes_of. by rewrite take_ge by lia.
Qed.

(** A command that only reads. *)
Lemma post_keeps c' x : keeps c c' -> (status x = Good -> accepted (sz c) req (byte_at c) (data_in x) (byte_at c')) -> post c' (Ok x).
Proof. intros Hk Ha. apply outcome_keeps; [done| |done]. by intros y [= <-]. Qed.

Lemma post_failed c' s : keeps c c' -> post c' (Err (check s)).
Proof. intros Hk. by apply outcome_refused. Qed.

Lemma kept_bytes c' i : keeps c c' -> 0 <= i -> byte_at c' i = byte_at c i.
Proof. intros Hk _. by apply (keeps_byte ps). Qed.

Lemma read_wp : wp (read reservations req nexus) post c.
Proof.
  unfold read. apply wp_gate; [done..|]. intros _. apply wp_parse; [done|]. intros r Hp.
  destruct (parse_by_spec _ _ _ _ Hp (rq_cdb _ Hreq)) as (Hl & Hb & _). pose proof (rq_max _ Hreq) as Hm.
  apply wp_if; intros Ez; bool_to_prop.
  { apply post_keeps; [by apply (keeps_refl ps)|]. intros _.
    pose proof (acc_read (sz c) req (byte_at c) r (byte_at c) Hp ltac:(done)) as Ha.
    rewrite Ez in Ha. by rewrite (Z.min_l (0 * _)) in Ha by lia. }
  apply wp_get, wp_parse; [done|]. intros [off len] Hr.
  destruct (window_spec c r off len Hc Hl Hb Hr) as (-> & -> & Ho & Hn & Hs).
  eapply wp_call; [apply read_bytes_wp; [done..|lia]| |].
  - intros c' e [Hk _]. by apply post_failed.
  - intros c' o [Hk Hd]. rewrite (Hd o eq_refl). apply post_keeps; [done|]. intros _. simpl.
    rewrite take_ge by (rewrite slice_of_length; lia). apply acc_read; [done|]. intros i. by apply kept_bytes.
Qed.

Lemma verify_wp : wp (verify reservations req nexus) post c.
Proof.
  unfold verify. apply wp_gate; [done..|]. intros _. apply wp_parse; [done|]. intros r Hp.
  destruct (parse_by_spec _ _ _ _ Hp (rq_cdb _ Hreq)) as (Hl & Hb & _).
  apply wp_if; intros _; [by apply wp_refuse|]. cbv zeta. set (bytchk := Z.land _ _).
  apply wp_if; intros Ebc; [by apply wp_refuse|]. apply wp_if; intros Ez; bool_to_prop.
  { apply post_keeps; [by apply (keeps_refl ps)|]. intros _. eapply acc_verify; [exact Hp|done|done]. }
  apply wp_get, wp_parse; [done|]. intros [off len] Hr.
  destruct (window_spec c r off len Hc Hl Hb Hr) as (-> & -> & Ho & Hn & Hs).
  apply wp_if; intros E0; bool_to_prop.
  { eapply wp_call; [apply read_bytes_wp; [done..|lia]| |].
    - intros c' e [Hk _]. by apply post_failed.
    - intros c' o [Hk _]. apply post_keeps; [done|]. intros _.
      eapply acc_verify; [exact Hp|intros i; by apply kept_bytes|]. subst bytchk. lia. }
  apply wp_if; intros El; [by apply wp_refuse|]. bool_to_prop.
  eapply wp_call; [apply read_bytes_wp; [done..|lia]| |].
  - intros c' e [Hk _]. by apply post_failed.
  - intros c' o [Hk Hd]. rewrite (Hd o eq_refl). case_bool_decide as Hm; [|by apply post_failed].
    apply post_keeps; [done|]. intros _. eapply acc_verify; [exact Hp|intros i; by apply kept_bytes|done].
Qed.

Lemma field_pos off n : 0 <= be_val (sl off n (cdb req)).
Proof. apply be_val_range, sl_bytes_ok, Hreq. Qed.

Lemma at_pos i : 0 <= at_ (cdb req) i.
Proof.
  unfold at_. destruct (cdb req !! i) as [x|] eqn:E; [|done]. simpl.
  pose proof (proj1 (Forall_lookup _ _) (rq_cdb _ Hreq) i x E) as Hx. apply Hx.
Qed.

Lemma compare_and_write_wp : at_ (cdb req) 0 = 0x89 -> wp (compare_and_write reservations req nexus) post c.
Proof.
  intros Hop. unfold compare_and_write. apply wp_writable; [done|]. intros Ha Hw.
  case_bool_decide as H16; [by apply wp_refuse|]. cbv zeta. set (r := mkRange _ _).
  assert (0 <= lba r) as Hl by apply field_pos. assert (0 <= blocks r) as Hb by apply at_pos.
  assert (extent (sz c) req = [r]) as He by (unfold extent; by rewrite Hop).
  apply wp_if; intros Ez; bool_to_prop.
  { apply post_keeps; [by apply (keeps_refl ps)|]. intros _. apply (acc_swap _ _ _ r); [done..|].
    intros i Hi. unfold bytes_of. rewrite Ez. simpl. by rewrite take_0, overlay_nil. }
  apply wp_get, wp_parse; [done|]. intros [off len] Hr.
  destruct (window_spec c r off len Hc Hl Hb Hr) as (-> & -> & Ho & Hn & Hs).
  destruct (checked_mul64 _ 2) as [total|] eqn:Et; [|by apply wp_refuse].
  unfold checked_mul64 in Et. destruct (_ <=? u64_max); [|done]. injection Et as <-.
  apply wp_if; intros El; [by apply wp_refuse|]. bool_to_prop.
  change (Z.of_nat (length (data_out req)) = blocks r * sector (sz c) * 2) in El.
  pose proof (Z2Nat.id _ Hn) as Hk. set (k := Z.to_nat (blocks r * sector (sz c))) in *.
  assert (length (take k (data_out req)) = k) as E1 by (rewrite length_take; lia).
  assert (length (drop k (data_out req)) = k) as E2 by (rewrite length_drop; lia).
  assert (forall n, Z.of_nat (length (take n (drop k (data_out req)))) <= blocks r * sector (sz c)) as Hlen
    by (intros n; rewrite length_take; lia).
  assert (forall n i, lba r * sector (sz c) <= i < lba r * sector (sz c) + Z.of_nat (length (take n (drop k (data_out req)))) -> permitted i) as Hpm.
  { intros n i Hi. specialize (Hlen n). split_and!; [done..|]. rewrite He.
    apply Exists_cons. left. apply inside_window. lia. }
  destruct (compare_and_write_spec ps c (lba r * sector (sz c)) (take k (data_out req)) (drop k (data_out req)))
    as (c' & x & n & E & Hv & Ht & Hf); [done..|rewrite E1; change (st_size (writer c)) with (live_size_bytes (writer c)); lia|congruence|].
  unfold wp. rewrite run_bind. unfold cached, map_err. rewrite E. specialize (Hlen n).
  assert (forall y, (forall z, y = Ok z -> status z = Good -> accepted (sz c) req (byte_at c) (data_in z) (byte_at c')) ->
    (forall z, y = Err z -> status z <> Good) -> post c' y) as Hpost.
  { intros y. apply (outcome_overlay _ _ _ _ _ _ _ Hv); [lia|apply Hpm]. }
  destruct x as [[]|e]; (apply Hpost; [intros z [= <-]|by intros z [= <-]]); [|done].
  intros _. destruct (Ht eq_refl) as [Hs1 Hs2]. apply (acc_swap _ _ _ r); [done..| |].
  - intros _. unfold bytes_of. fold k. by rewrite E1 in Hs1.
  - intros i Hi. rewrite (ov_bytes _ _ _ _ _ Hv i Hi), Hs2. unfold bytes_of. fold k. by rewrite take_ge by lia.
Qed.

(** ** UNMAP *)

Lemma unmap_plan_spec p n i l :
  bytes_ok p -> unmap_plan c p n i = Ok l ->
  l = map (fun r => (lba r * sector (sz c), blocks r * sector (sz c)))
        (List.filter (fun r => negb (blocks r =? 0)) (descriptors p n i)) /\
  Forall (fun w => 0 <= w.1 /\ 0 <= w.2 /\ w.1 + w.2 <= live_size_bytes (writer c)) l.
Proof.
  intros Hp. revert i l. induction n as [|n IH]; intros i l; [by intros [= <-]|].
  cbn [unmap_plan]. cbv zeta. set (r := mkRange _ _).
  assert (descriptors p (S n) i = r :: descriptors p n (S i)) as -> by done. cbn [List.filter]. assert (forall off n, 0 <= be_val (sl off n p)) as Hn
    by (intros off k; apply be_val_range; by apply sl_bytes_ok).
  destruct (blocks r =? 0); cbn [negb map]; [apply IH|].
  destruct (resolve_range_sense c r) as [[off len]|] eqn:Er; [|done].
  destruct (unmap_plan c p n (S i)) as [rest|] eqn:Ep; [|done]. intros [= <-].
  destruct (IH _ _ Ep) as [-> Hall]. destruct (window_spec c r off len Hc (Hn _ _) (Hn _ _) Er) as (-> & -> & ? & ? & ?).
  split; [done|]. by constructor.
Qed.

Lemma unmap_windows ranges i :
  Exists (within i) (map (fun r => (lba r * sector (sz c), blocks r * sector (sz c)))
    (List.filter (fun r => negb (blocks r =? 0)) ranges)) <-> Exists (inside (sz c) i) ranges.
Proof.
  rewrite !Exists_exists. split.
  - intros (w & Hw & Hi). apply list_elem_of_In, in_map_iff in Hw as (r & <- & Hr). apply filter_In in Hr as [Hr _].
    exists r. split; [by apply list_elem_of_In|]. unfold within, inside in *. simpl in *. lia.
  - intros (r & Hr & Hi). unfold inside in Hi. destruct (Z.eqb_spec (blocks r) 0) as [E|E]; [rewrite E in Hi; lia|].
    eexists. split; [apply list_elem_of_In, in_map, filter_In; split; [by apply list_elem_of_In|]|].
    + apply negb_true_iff. by apply Z.eqb_neq.
    + unfold within. simpl in *. lia.
Qed.

Lemma unmap_wp : at_ (cdb req) 0 = 0x42 -> wp (unmap reservations req nexus) post c.
Proof.
  intros Hop. unfold unmap. apply wp_writable; [done|]. intros Ha Hw.
  case_bool_decide; [by apply wp_refuse|]. apply wp_if; intros _; [by apply wp_refuse|]. cbv zeta.
  set (pll := be_val (sl 7 2 (cdb req))). assert (0 <= pll) as Hpll by apply field_pos.
  apply wp_if; intros E0; bool_to_prop.
  { apply post_keeps; [by apply (keeps_refl ps)|]. intros _. apply acc_unmap; [done|]. intros i Hi.
    rewrite bool_decide_eq_false_2; [done|]. unfold unmap_list. fold pll. rewrite E0. simpl.
    by intros ?%Exists_nil. }
  do 2 (apply wp_if; intros ?; [by apply wp_refuse|]). set (p := take (Z.to_nat pll) (data_out req)).
  do 2 (apply wp_if; intros ?; [by apply wp_refuse|]). apply wp_get, wp_parse; [done|]. intros l Hl.
  assert (extent (sz c) req = unmap_list req) as He by (unfold extent; by rewrite Hop).
  destruct (unmap_plan_spec p _ 0 l (Forall_take _ _ _ (rq_data _ Hreq)) Hl) as [El Hall].
  change (descriptors p _ 0) with (unmap_list req) in El.
  assert (forall i, Exists (within i) l <-> Exists (inside (sz c) i) (unmap_list req)) as Hx
    by (intros i; rewrite El; apply unmap_windows).
  apply wp_bind. eapply wp_mono; [by apply unmap_all_wp|]. intros c' r [K1 K2 K3 K4 K5].
  assert (forall y, (forall z, y = Ok z -> status z = Good -> accepted (sz c) req (byte_at c) (data_in z) (byte_at c')) ->
    (forall z, y = Err z -> status z <> Good) -> post c' y) as Hpost.
  { intros y Hy1 Hy2. split; try done. intros i Hi Hne. destruct (decide (Exists (within i) l)) as [Hin|Hn].
    - split; [split_and!; [done..|rewrite He; by apply Hx]|].
      apply Exists_exists in Hin as (w & Hwl & Hwi). destruct (proj1 (Forall_forall _ _) Hall w Hwl) as (_ & _ & Hs).
      unfold within in Hwi. lia.
    - destruct Hne. by apply K3. }
  destruct r as [[]|x]; [|apply Hpost; [done|intros z [= <-]; by apply K5]].
  apply Hpost; [intros z [= <-] _|done]. apply acc_unmap; [done|]. intros i Hi. rewrite K4 by done.
  do 2 case_bool_decide; try done; exfalso; rewrite Hx in *; tauto.
Qed.

(** ** WRITE SAME *)

Lemma zero_pattern pattern : forallb (fun b => b =? 0) pattern = true -> forall k, default 0 (pattern !! k) = 0.
Proof.
  rewrite forallb_forall. intros Hz k. destruct (pattern !! k) as [x|] eqn:E; [|done].
  simpl. by apply Z.eqb_eq, Hz, list_elem_of_In, (list_elem_of_lookup_2 _ k).
Qed.

Lemma same_extent_eq op :
  at_ (cdb req) 0 = op -> let f := same_range op (cdb req) in
  ~ (blocks f = 0 /\ op = 0x41) ->
  same_extent (sz c) req = mkRange (lba f) (if blocks f =? 0 then total_blocks (sz c) - lba f else blocks f).
Proof.
  intros <- f Hn. unfold same_extent. fold f. destruct (Z.eqb_spec (blocks f) 0), (Z.eqb_spec (at_ (cdb req) 0) 0x41); try done.
  by destruct Hn.
Qed.

Lemma write_same_body_wp op :
  at_ (cdb req) 0 = op -> op = 0x41 \/ op = 0x93 ->
  allow_write reservations (lun req) nexus = true -> worm (manifest (writer c)) = false ->
  wp (write_same_body req op) post c.
Proof.
  intros Hop Hor Ha Hw. unfold write_same_body. cbv zeta. set (f := same_range op (cdb req)).
  assert (0 <= lba f /\ 0 <= blocks f) as [Hl Hb]
    by (subst f; unfold same_range; destruct (op =? 0x41); split; apply field_pos).
  do 2 (apply wp_if; intros ?; [by apply wp_refuse|]). apply wp_get. cbv zeta.
  apply wp_if; intros El; [by apply wp_refuse|]. bool_to_prop.
  assert (extent (sz c) req = [same_extent (sz c) req]) as He by (unfold extent; rewrite Hop; by destruct Hor as [-> | ->]).
  apply wp_if; intros Ez.
  { apply andb_true_iff in Ez as [Ez E41]. bool_to_prop. apply post_keeps; [by apply (keeps_refl ps)|]. intros _.
    apply acc_same; [rewrite Hop; lia|]. intros i Hi. rewrite bool_decide_eq_false_2; [done|].
    unfold inside, same_extent. rewrite Hop. fold f. rewrite E41, Ez. simpl. lia. }
  set (r := mkRange (lba f) _).
  assert (same_extent (sz c) req = r) as Hr.
  { apply (same_extent_eq op Hop). intros [E1 E2]. fold f in E1. rewrite E1, E2 in Ez. done. }
  assert (0 <= blocks r) as Hbr by (subst r; simpl in *; destruct (blocks f =? 0); lia).
  apply wp_parse; [done|]. intros [off len] Hres.
  destruct (window_spec c r off len Hc Hl Hbr Hres) as (-> & -> & Ho & Hn & Hs).
  apply wp_if; intros El'; [by apply wp_refuse|]. cbv zeta. clearbody r.
  assert (forall i, within i (lba r * sector (sz c), blocks r * sector (sz c)) <-> inside (sz c) i r) as Hin
    by (intros i; unfold within, inside; simpl; lia).
  assert (forall i, lba r * sector (sz c) <= i < lba r * sector (sz c) + blocks r * sector (sz c) -> permitted i) as Hpm.
  { intros i Hi. split_and!; [done..|]. rewrite He, Hr. apply Exists_cons. left. by apply Hin. }
  set (ndob := (op =? 0x93) && flag_set (at_ (cdb req) 1) 0x01) in *. set (pattern := if ndob then [] else data_out req).
  set (zero := forallb _ pattern). pose proof (u_pos c Hc) as Hsp.
  set (pat := fun j => if ndob then 0 else default 0 (data_out req !! Z.to_nat j)).
  assert (forall i, same_byte (sz c) req i = pat (i mod sector (sz c))) as Hsame.
  { intros i. unfold same_byte, pat, ndob, flag_set. by rewrite Hop. }
  assert (forall c' y, erased (lba r * sector (sz c)) (blocks r * sector (sz c)) c c' ->
    (y = Ok tt -> patterned (sector (sz c)) pat (lba r * sector (sz c)) (blocks r * sector (sz c)) c c') ->
    (forall x, y = Err x -> status x <> Good) ->
    match y with Ok _ => wp (mret (good [])) post c' | Err e => post c' (Err e) end) as Hfin.
  { intros c' [[]|e] Her Hpt Hbad; (apply (outcome_erased _ _ _ _ _ _ _ Her); [lia|exact Hpm| |]); try done.
    - intros x [= <-] _. apply acc_same; [rewrite Hop; exact Hor|]. intros i Hi.
      rewrite (pt_bytes _ _ _ _ _ _ (Hpt eq_refl) i Hi), Hsame, Hr.
      do 2 case_bool_decide; try done; exfalso; rewrite Hin in *; tauto.
    - intros x [= <-]. by apply Hbad. }
  apply wp_bind, wp_if; intros Ezp.
  - apply andb_true_iff in Ezp as [_ Ezp]. unfold cached. apply wp_map_err.
    eapply wp_mono; [apply unmap_bytes_wp; [done..|lia]|]. intros c' y [Her Hov]. rewrite Z2Nat.id in Her, Hov by done.
    assert (forall j, pat j = 0) as Hp0.
    { intros j. unfold pat. subst pattern zero. destruct ndob; [done|]. by apply zero_pattern. }
    destruct y as [[]|e]; [apply (Hfin c' (Ok tt)); try done|apply (Hfin c' (Err _)); try done; by intros ? [= <-]].
    intros _. destruct (Hov eq_refl) as [K1 K2 K3]. split; [done..|]. intros i Hi. rewrite K3, overlay_zeros, Hp0 by done. done.
  - eapply wp_mono; [apply (write_pattern_wp (sector (sz c)) pattern zero pat); try done|].
    + apply Z.mod_mul. simpl in *. lia.
    + apply Z.mod_mul. simpl in *. lia.
    + subst zero pattern. unfold pat. destruct ndob; [done|]. destruct (forallb _ _) eqn:Ef; [by intros i; apply zero_pattern|].
      simpl in El'. apply negb_false_iff, Z.eqb_eq in El'. done.
    + intros c' y (Her & Hpt & Hbad). by apply Hfin.
Qed.

Lemma write_same_wp : wp (write_same reservations req nexus) post c.
Proof.
  unfold write_same. apply wp_writable; [done|]. intros Ha Hw. destruct (cdb req) as [|op l] eqn:El; [by apply wp_refuse|].
  rewrite <- El. apply wp_if; intros Eop; [by apply wp_refuse|].
  case_bool_decide; [by apply wp_refuse|]. apply write_same_body_wp; try done; [by rewrite El|].
  apply negb_false_iff, orb_true_iff in Eop as [E|E]; bool_to_prop; auto.
Qed.

(** ** SYNCHRONIZE CACHE *)

Lemma synchronize_wp :
  wp (synchronize_cache reservations req nexus) (fun c' r =>
    keeps c c' /\ (forall x, r = Ok (Some x) -> accepted (sz c) req (byte_at c) (data_in x) (byte_at c')) /\
    forall x, r = Err x -> status x <> Good) c.
Proof.
  assert (forall x : ScsiResponse, status x <> Good ->
    keeps c c /\ (forall y, Err x = Ok (Some y) -> accepted (sz c) req (byte_at c) (data_in y) (byte_at c)) /\
    forall y, @Err (option ScsiResponse) _ x = Err y -> status y <> Good) as Href.
  { intros x Hx. split_and!; [by apply (keeps_refl ps)|done|by intros y [= <-]]. }
  unfold synchronize_cache. apply wp_bind, wp_require; intros _; [|by apply Href].
  apply wp_bind, wp_sensed; [intros r Hp|intros e _; by apply Href]. apply wp_get. cbv zeta.
  apply wp_bind, wp_sensed; [intros n _|intros e _; by apply Href]. apply wp_bind. unfold cached. apply wp_map_err.
  unfold wp at 1. destruct (sync_bytes_keeps ps (lba r * sector (sz c)) (n * sector (sz c)) c Hok) as (c' & [o|e] & -> & Hk).
  - split_and!; [done| |done]. destruct o as [[]|]; [|done]. intros x [= <-].
    eapply acc_synchronize; [exact Hp|]. intros i. by apply kept_bytes.
  - split_and!; [done|done|by intros y [= <-]].
Qed.

(** ** Dispatch *)

Record dispatched (c' : PageCache VolumeWriter) (rep : Reply) : Prop := {
  dp_ok : cache_ok c';
  dp_conf : same_config c c';
  dp_bytes i : 0 <= i -> byte_at c' i <> byte_at c i -> permitted i /\ i < live_size_bytes (writer c);
  dp_good x : rep = Replied x -> status x = Good -> accepted (sz c) req (byte_at c) (data_in x) (byte_at c');
}.

Lemma respond_dispatched m :
  wp m post c -> dispatched (respond m c).1 (respond m c).2.
Proof.
  unfold wp, respond. destruct (m c) as [c' [x|x]]; intros [K1 K2 K3 K4 K5]; split; try done; simpl.
  - intros y [= <-]. by apply K4.
  - intros y [= <-] Hg. by destruct (K5 x eq_refl).
Qed.

Lemma kept_dispatched c' rep :
  keeps c c' -> (forall x, rep = Replied x -> status x = Good -> accepted (sz c) req (byte_at c) (data_in x) (byte_at c')) ->
  dispatched c' rep.
Proof. intros Hk Hg. split; [apply Hk|apply Hk| |done]. intros i Hi Hne. destruct Hne. by apply kept_bytes. Qed.

Lemma dispatch_unit_spec : dispatched (dispatch_unit reservations req c).1 (dispatch_unit reservations req c).2.
Proof.
  unfold dispatch_unit. cbv zeta.
  destruct (_ || _); [apply respond_dispatched, read_wp|].
  destruct (_ || _); [apply respond_dispatched, write_wp|].
  destruct (_ || _); [apply respond_dispatched, verify_wp|].
  destruct (_ || _).
  { pose proof synchronize_wp as Hs. unfold wp in Hs. unfold respond_later.
    destruct (synchronize_cache reservations req nexus c) as [c' [[x|]|x]]; destruct Hs as (Hk & Hg & Hb);
      apply kept_dispatched; try done.
    - intros y [= <-] _. by apply Hg.
    - intros y [= <-] Hx. by destruct (Hb x eq_refl). }
  destruct (_ || _); [apply respond_dispatched, write_same_wp|].
  destruct (Z.eqb_spec (at_ (cdb req) 0) 0x42); [by apply respond_dispatched, unmap_wp|].
  destruct (Z.eqb_spec (at_ (cdb req) 0) 0x89); [by apply respond_dispatched, compare_and_write_wp|].
  apply kept_dispatched; [by apply (keeps_refl ps)|done].
Qed.
End command.
End proofs.
