(* ===== verification/SbcHistory.v ===== *)
(** * A unit under its initiators

    Histories of SCSI commands, from any initiators under any reservations,
    between cache and volume activity: what a byte may change by, what GOOD
    means, and that a write is read back. *)

From S2P Require Import Prelude Bytes BTreeMap Pr Reservations ReservationManager ReservationRender PageIndex UploadIndex BlockLru PoolBudget StateError PageLru Crypto VolumeWriter VolumeProofs VolumeHistory PageCache PageCacheProofs CacheBytes CacheHistory VolumeCache SbcData SbcProofs.

Local Open Scope Z_scope.

Inductive UnitEvent : Type :=
  | UScsi (reservations : ReservationManager) (req : ScsiRequest)
  | UActivity (ev : CacheEvent VolumeWriter).

Section history.
Context `{VolumeCryptoLaws}.

Definition unit_event (ev : UnitEvent) (c : PageCache VolumeWriter) : PageCache VolumeWriter :=
  match ev with
  | UScsi reservations req => (dispatch_unit reservations req c).1
  | UActivity ev => (cache_event ev c).1
  end.

Definition run_unit (evs : list UnitEvent) (c : PageCache VolumeWriter) : PageCache VolumeWriter :=
  foldl (fun c ev => unit_event ev c) c evs.

Definition unit_event_ok (m : Manifest) (ev : UnitEvent) : Prop :=
  match ev with
  | UScsi _ req => req_ok req
  | UActivity ev => activity_ok (page_size m) ev
  end.

(** A cache of the volume of [m]. *)
Definition unit_of (m : Manifest) (c : PageCache VolumeWriter) : Prop :=
  reachable_ok m c /\ cache_sector_size c = sector_bytes m /\ manifest (writer c) = m.

Lemma unit_of_ok m c : unit_of m c -> 0 < sector_bytes m -> unit_ok (page_size m) c.
Proof. intros (H1 & H2 & H3) Hs. split; [done|congruence|congruence]. Qed.

Lemma unit_config m c c' :
  unit_of m c -> reachable_ok m c' -> @same_config _ _ (volume_model (page_size m)) c c' -> unit_of m c'.
Proof.
  intros (_ & H2 & H3) Hc Hs. split; [done|]. split; [rewrite (sc_sector _ _ Hs); congruence|].
  pose proof (sc_le _ _ Hs) as Hl. simpl in Hl. rewrite (le_manifest _ _ Hl). congruence.
Qed.

Lemma unit_moves m ev c :
  0 < page_size m <= u32_max -> 0 < sector_bytes m -> unit_of m c -> unit_event_ok m ev ->
  unit_of m (unit_event ev c) /\ volume_le (writer c) (writer (unit_event ev c)).
Proof.
  intros Hm Hs Hu Hev. pose proof (volume_laws (page_size m) Hm) as HL. destruct ev as [res req|ev]; simpl in *.
  - destruct (dispatch_unit_spec (page_size m) Hm res req Hev c (unit_of_ok m c Hu Hs)) as [K1 K2 _ _].
    split; [by eapply unit_config|apply (sc_le _ _ K2)].
  - pose proof (event_refines (page_size m) ev c (proj1 Hu) (activity_event_ok _ _ Hev)) as Hr.
    destruct (cache_event ev c) as [c' r] eqn:E. destruct Hr as (K1 & [[_ K2] K3] & _). destruct Hu as (H1 & H2 & H3).
    assert (volume_le (writer c) (writer c')) as Hl.
    { destruct K3 as [K3|(g & Eg & ->)]; [done|]. simpl in Eg. subst ev. destruct Hev as (vev & -> & Hb & Hv).
      destruct (ck_store _ _ H1) as [Hg Hp]. apply event_le; [done|by rewrite Hp|by destruct vev]. }
    split; [|done]. split; [done|]. split; [simpl; congruence|]. simpl. by rewrite (le_manifest _ _ Hl).
Qed.

Lemma unit_step m ev c :
  0 < page_size m <= u32_max -> 0 < sector_bytes m -> unit_of m c -> unit_event_ok m ev -> unit_of m (unit_event ev c).
Proof. apply unit_moves. Qed.

Lemma run_unit_of m evs c :
  manifest_ok m -> 0 < sector_bytes m -> unit_of m c -> Forall (unit_event_ok m) evs -> unit_of m (run_unit evs c).
Proof.
  intros Hm Hs. revert c. induction evs as [|ev evs IH]; intros c Hu Hev; [done|].
  apply Forall_cons in Hev as [He Hev]. simpl. apply IH; [|done]. by apply unit_step; [apply mo_page|..].
Qed.

Lemma new_unit m key b e w0 rt budget n :
  manifest_ok m -> new_volume m key b e = Some w0 -> unit_of m (new_cache m w0 rt budget n).
Proof.
  intros Hm Hn. destruct (new_volume_good m key b e w0 Hm Hn) as (Hg & _ & Em & Hc).
  split; [|done]. pose proof (volume_laws (page_size m) (mo_page _ Hm)) as HL.
  apply (new_cache_ok (page_size m)). split; [done|congruence].
Qed.

(** ** What leaves a range alone *)

(** A command the reservations refuse, a command of other blocks, or
    activity of the cache and the volume that writes nothing. *)
Definition spares_range (m : Manifest) (lo hi : Z) (ev : UnitEvent) : Prop :=
  match ev with
  | UScsi reservations req =>
      allow_write reservations (lun req) (nexus_from_request req) = false \/
      forall sz i, sector sz = sector_bytes m -> lo <= i < hi -> ~ Exists (inside sz i) (extent sz req)
  | UActivity (CWrite _ _) | UActivity (CCompareWrite _ _ _) | UActivity (CUnmap _ _) => False
  | UActivity _ => True
  end.

Lemma unit_sector m c : unit_of m c -> sector (sizing_from c) = sector_bytes m.
Proof. intros (_ & E & Em). unfold sizing_from. simpl. congruence. Qed.

Lemma spares_step m lo hi ev c i :
  manifest_ok m -> 0 < sector_bytes m -> unit_of m c -> unit_event_ok m ev -> spares_range m lo hi ev -> 0 <= i -> lo <= i < hi ->
  volume_byte m (unit_event ev c) i = volume_byte m c i.
Proof.
  intros Hm Hs Hu Hev Hsp Hi Hin. pose proof (volume_laws (page_size m) (mo_page _ Hm)) as HL.
  destruct ev as [res req|ev]; simpl in *.
  - destruct (dispatch_unit_spec (page_size m) (mo_page _ Hm) res req Hev c (unit_of_ok m c Hu Hs)) as [_ _ K _].
    destruct (decide (volume_byte m (dispatch_unit res req c).1 i = volume_byte m c i)) as [|Hne]; [done|].
    destruct (K i Hi Hne) as [(Ha & _ & Hx) _]. destruct Hsp as [Hsp|Hsp]; [congruence|].
    by destruct (Hsp (sizing_from c) i (unit_sector m c Hu) Hin).
  - pose proof (event_refines (page_size m) ev c (proj1 Hu) (activity_event_ok _ _ Hev)) as Hr.
    destruct (cache_event ev c) as [c' r]. destruct Hr as (_ & _ & g & Hg & Hb).
    unfold volume_byte. rewrite Hb by done. by destruct ev; inversion Hg; subst.
Qed.

Lemma spared_range m lo hi evs c i :
  manifest_ok m -> 0 < sector_bytes m -> unit_of m c -> Forall (unit_event_ok m) evs -> Forall (spares_range m lo hi) evs ->
  0 <= i -> lo <= i < hi -> volume_byte m (run_unit evs c) i = volume_byte m c i.
Proof.
  intros Hm Hs Hu Hev Hsp Hi Hin. revert c Hu. induction evs as [|ev evs IH]; intros c Hu; [done|].
  apply Forall_cons in Hev as [He Hev]. apply Forall_cons in Hsp as [Hp Hsp]. simpl.
  change (volume_byte m (run_unit evs (unit_event ev c)) i = volume_byte m c i).
  rewrite IH by (done || by apply unit_step; [apply mo_page|..]). by eapply spares_step.
Qed.

Lemma replied m c reservations req x :
  manifest_ok m -> 0 < sector_bytes m -> unit_of m c -> req_ok req ->
  (dispatch_unit reservations req c).2 = Replied x -> status x = Good ->
  accepted (sizing_from c) req (volume_byte m c) (data_in x) (volume_byte m (dispatch_unit reservations req c).1).
Proof.
  intros Hm Hs Hu Hreq Hx Hg.
  destruct (dispatch_unit_spec (page_size m) (mo_page _ Hm) reservations req Hreq c (unit_of_ok m c Hu Hs)) as [_ _ _ K].
  by apply K.
Qed.

Lemma accepted_write sz req f out g r :
  req_ok req -> parse_by 0x2A 0x8A (cdb req) = Ok r -> accepted sz req f out g ->
  forall i, 0 <= i -> g i = overlay (lba r * sector sz) (take (bytes_of sz r) (data_out req)) f i.
Proof.
  intros Hr Hp Ha. destruct (parse_by_spec _ _ _ _ Hp (rq_cdb _ Hr)) as (_ & _ & Ho).
  inversion Ha as [r' ? Hp'|r' ? Hp'|r' ? Hp'|r' ? Hp'|? Hp'|? Hp'|? ? Hp']; subst;
    try (destruct (parse_by_spec _ _ _ _ Hp' (rq_cdb _ Hr)) as (_ & _ & Ho')); try lia.
  rewrite Hp in Hp'. by injection Hp' as ->.
Qed.

Lemma accepted_read sz req f out g r :
  req_ok req -> parse_by 0x28 0x88 (cdb req) = Ok r -> accepted sz req f out g ->
  out = slice_of f (lba r * sector sz) (Z.to_nat (Z.min (blocks r * sector sz) (data_in_max req))).
Proof.
  intros Hr Hp Ha. destruct (parse_by_spec _ _ _ _ Hp (rq_cdb _ Hr)) as (_ & _ & Ho).
  inversion Ha as [r' ? Hp'|r' ? Hp'|r' ? Hp'|r' ? Hp'|? Hp'|? Hp'|? ? Hp']; subst;
    try (destruct (parse_by_spec _ _ _ _ Hp' (rq_cdb _ Hr)) as (_ & _ & Ho')); try lia.
  rewrite Hp in Hp'. by injection Hp' as ->.
Qed.

Lemma slice_overlay f off data n :
  (n <= length data)%nat -> slice_of (overlay off data f) off n = take n data.
Proof.
  intros Hn. apply list_eq. intros k. destruct (decide (k < n)%nat).
  - rewrite slice_of_lookup, lookup_take_lt by lia. unfold overlay.
    replace (off + Z.of_nat k - off) with (Z.of_nat k) by lia. rewrite bool_decide_eq_true_2 by lia.
    rewrite Nat2Z.id. destruct (lookup_lt_is_Some_2 data k) as [b ->]; [lia|done].
  - by rewrite !lookup_ge_None_2 by (rewrite ?slice_of_length, ?length_take; lia).
Qed.

(** no command writes where it may not.  On a unit after any history,
    whatever the request and however it ends, a byte that a command changes
    is one its descriptor names, inside the volume, and the command came
    from an initiator the reservations let write, on a volume that is not
    write-protected. *)
Theorem commands_are_gated m key b e w0 rt budget n evs reservations req :
  manifest_ok m -> 0 < sector_bytes m -> new_volume m key b e = Some w0 -> Forall (unit_event_ok m) evs -> req_ok req ->
  let c := run_unit evs (new_cache m w0 rt budget n) in
  let c' := (dispatch_unit reservations req c).1 in
  forall i, 0 <= i -> volume_byte m c' i <> volume_byte m c i ->
    allow_write reservations (lun req) (nexus_from_request req) = true /\
    worm m = false /\ Exists (inside (sizing_from c) i) (extent (sizing_from c) req) /\
    i < live_size_bytes (writer c).
Proof.
  intros Hm Hs Hn Hev Hreq c c' i Hi Hne.
  pose proof (run_unit_of m evs _ Hm Hs (new_unit m key b e w0 rt budget n Hm Hn) Hev) as Hu. fold c in Hu.
  destruct (dispatch_unit_spec (page_size m) (mo_page _ Hm) reservations req Hreq c (unit_of_ok m c Hu Hs)) as [_ _ K _].
  destruct (K i Hi Hne) as [(Ha & Hw & Hx) Hl]. destruct Hu as (_ & _ & Em). rewrite Em in Hw. by split_and!.
Qed.

(** GOOD means what the command set says.  A READ that is GOOD returns
    the bytes of the array, cut to the transfer length; a WRITE has replaced
    the blocks it names and no others; a WRITE SAME has repeated its block
    over them; an UNMAP has zeroed every range of its list; a COMPARE AND
    WRITE found its first half and left its second; a VERIFY with data found
    it.  Nothing else changed. *)
Theorem good_is_accepted m key b e w0 rt budget n evs reservations req x :
  manifest_ok m -> 0 < sector_bytes m -> new_volume m key b e = Some w0 -> Forall (unit_event_ok m) evs -> req_ok req ->
  let c := run_unit evs (new_cache m w0 rt budget n) in
  (dispatch_unit reservations req c).2 = Replied x -> status x = Good ->
  accepted (sizing_from c) req (volume_byte m c) (data_in x)
    (volume_byte m (dispatch_unit reservations req c).1).
Proof.
  intros Hm Hs Hn Hev Hreq c Hx Hg. apply replied; try done.
  apply run_unit_of; [done..| |done]. by eapply new_unit.
Qed.

(** C10: what an initiator wrote is what it reads.  After a WRITE that was
    GOOD, and then any commands the reservations refuse or that name other
    blocks, any flushing, eviction, upload, failure or change of durability
    tier, a READ of those blocks that is GOOD returns the written data, cut
    to the transfer length. *)
Theorem write_read_back m key b e w0 rt budget n evs res wr r x evs' res' rd y :
  manifest_ok m -> 0 < sector_bytes m -> new_volume m key b e = Some w0 ->
  Forall (unit_event_ok m) evs -> Forall (unit_event_ok m) evs' -> req_ok wr -> req_ok rd ->
  parse_by 0x2A 0x8A (cdb wr) = Ok r -> parse_by 0x28 0x88 (cdb rd) = Ok r ->
  Z.of_nat (length (data_out wr)) = blocks r * sector_bytes m ->
  Forall (spares_range m (lba r * sector_bytes m) ((lba r + blocks r) * sector_bytes m)) evs' ->
  let c := run_unit evs (new_cache m w0 rt budget n) in
  let c' := run_unit evs' (dispatch_unit res wr c).1 in
  (dispatch_unit res wr c).2 = Replied x -> status x = Good ->
  (dispatch_unit res' rd c').2 = Replied y -> status y = Good ->
  data_in y = take (Z.to_nat (data_in_max rd)) (data_out wr).
Proof.
  intros Hm Hs Hn Hev Hev' Hwr Hrd Hp Hp' Hl Hsp c c' Hx Hgx Hy Hgy.
  pose proof (run_unit_of m evs _ Hm Hs (new_unit m key b e w0 rt budget n Hm Hn) Hev) as Hu. fold c in Hu.
  pose proof (unit_step m (UScsi res wr) c (mo_page _ Hm) Hs Hu Hwr) as Hu1. simpl in Hu1.
  pose proof (run_unit_of m evs' _ Hm Hs Hu1 Hev') as Hu2. fold c' in Hu2.
  pose proof (accepted_write _ _ _ _ _ _ Hwr Hp (replied m c res wr x Hm Hs Hu Hwr Hx Hgx)) as Hw.
  pose proof (accepted_read _ _ _ _ _ _ Hrd Hp' (replied m c' res' rd y Hm Hs Hu2 Hrd Hy Hgy)) as ->.
  rewrite (unit_sector m c') by done. rewrite (unit_sector m c) in Hw by done.
  destruct (parse_by_spec _ _ _ _ Hp (rq_cdb _ Hwr)) as (H1 & H2 & _). pose proof (rq_max _ Hrd).
  unfold bytes_of in Hw. rewrite (unit_sector m c) in Hw by done. rewrite take_ge in Hw by lia.
  assert (0 <= lba r * sector_bytes m) by nia.
  rewrite (slice_of_ext _ (overlay (lba r * sector_bytes m) (data_out wr) (volume_byte m c))).
  - rewrite slice_overlay; [|lia]. apply list_eq. intros k.
    destruct (decide (k < length (data_out wr))%nat); [|by rewrite !lookup_ge_None_2 by (rewrite ?length_take; lia)].
    destruct (decide (k < Z.to_nat (data_in_max rd))%nat).
    + by rewrite !lookup_take_lt by lia.
    + by rewrite !lookup_ge_None_2 by (rewrite ?length_take; lia).
  - intros i Hi. unfold c'. rewrite (spared_range m (lba r * sector_bytes m) ((lba r + blocks r) * sector_bytes m)) by (done || lia).
    apply Hw. lia.
Qed.
End history.

(** ** Two initiators and a reservation *)

(** Block commands of the ten-byte form from the initiator [who]. *)
Definition host_request (op at_lba count : Z) (data : list Z) (max who : Z) : ScsiRequest :=
  mkRequest who 0 [op; 0; 0; 0; 0; at_lba; 0; 0; count; 0] data max (Some [who]) [0; 0; 0; 0; 0; who] None.

Definition host_write : ScsiRequest := host_request 0x2A 1 2 [1; 2; 3; 4] 0 65.
Definition host_read : ScsiRequest := host_request 0x28 1 2 [] 3 65.
Definition intruder_write : ScsiRequest := host_request 0x2A 1 2 [9; 9; 9; 9] 0 66.
Definition host_other : ScsiRequest := host_request 0x2A 4 1 [5; 6] 0 65.

Definition host_holds : ReservationManager :=
  let h := nexus_from_request host_write in
  mkMgr [(0, mkLun [(h, 7)] (Some (mkReservation h 7 WriteExclusive)) 1 false)] true None [].

(** An unaligned write before, and after it an intruder, another block, a
    flush and an upload. *)
Definition unit_before : list UnitEvent := [UScsi new (host_request 0x2A 0 3 [7; 7; 7; 7; 7; 7] 0 66)].
Definition unit_after : list UnitEvent :=
  [UScsi host_holds intruder_write; UScsi host_holds host_other; UActivity CFlushAll;
   UActivity (CVolume (@volume_event model_crypto (EvPut 0))); UActivity CTick].

Lemma host_request_ok op at_lba count data max who :
  bytes_ok [op; at_lba; count] -> bytes_ok data -> 0 <= max -> req_ok (host_request op at_lba count data max who).
Proof.
  intros Hc Hd Hm. split; [|done..]. repeat (apply Forall_cons in Hc as [? Hc]). simpl.
  repeat (apply Forall_cons; split; [done || (unfold byte_ok; lia)|]). constructor.
Qed.

Ltac request_ok := apply host_request_ok; [repeat constructor; unfold byte_ok; lia..|lia].

Lemma unit_before_ok : Forall (@unit_event_ok model_crypto small_manifest) unit_before.
Proof. repeat constructor; simpl; unfold byte_ok; lia. Qed.

Lemma unit_after_ok : Forall (@unit_event_ok model_crypto small_manifest) unit_after.
Proof.
  apply Forall_cons; split; [request_ok|]. apply Forall_cons; split; [request_ok|].
  apply Forall_cons; split; [exact I|]. apply Forall_cons; split; [|apply Forall_singleton; exact I].
  exists (EvPut 0). split; [reflexivity|]. split; [exact I|]. by repeat constructor.
Qed.

Lemma unit_after_spares : Forall (spares_range small_manifest 2 6) unit_after.
Proof.
  apply Forall_cons; split; [by left|]. apply Forall_cons; split; [|by repeat constructor].
  right. intros sz i Hs Hi Hx. change (Exists (inside sz i) [mkRange 4 1]) in Hx.
  apply Exists_cons in Hx as [Hx|Hx%Exists_nil]; [|done]. unfold inside in Hx. simpl in Hx.
  rewrite Hs in Hx. change (sector_bytes small_manifest) with 2 in Hx. lia.
Qed.

Definition small_unit : PageCache VolumeWriter :=
  @run_unit model_crypto unit_before (new_cache small_manifest small_volume idle_runtime 8 2).

Lemma write_read_back_witness :
  exists y, (@dispatch_unit model_crypto host_holds host_read
    (@run_unit model_crypto unit_after (@dispatch_unit model_crypto host_holds host_write small_unit).1)).2 = Replied y /\
  data_in y = [1; 2; 3].
Proof.
  eexists (mkResponse _ _ _). split; [vm_compute; reflexivity|].
  pose proof (@write_read_back model_crypto model_crypto_laws small_manifest None unbounded quiet small_volume
    idle_runtime 8 2 unit_before host_holds host_write (mkRange 1 2) (good []) unit_after host_holds host_read
    (good [1; 2; 3]) small_manifest_ok ltac:(done) eq_refl unit_before_ok unit_after_ok ltac:(request_ok) ltac:(request_ok)
    eq_refl eq_refl eq_refl unit_after_spares) as Hd.
  cbv zeta in Hd. fold small_unit in Hd. apply Hd; vm_compute; reflexivity.
Defined.

Lemma commands_are_gated_witness :
  Exists (inside (sizing_from small_unit) 2) (extent (sizing_from small_unit) host_write) /\
  (@dispatch_unit model_crypto host_holds intruder_write small_unit).2 = Replied reservation_conflict.
Proof.
  split; [|vm_compute; reflexivity].
  pose proof (@commands_are_gated model_crypto model_crypto_laws small_manifest None unbounded quiet small_volume
    idle_runtime 8 2 unit_before host_holds host_write small_manifest_ok ltac:(done) eq_refl unit_before_ok
    ltac:(request_ok)) as Hd.
  cbv zeta in Hd. fold small_unit in Hd. apply (Hd 2); [lia|vm_compute; done].
Defined.

Lemma good_is_accepted_witness :
  accepted (sizing_from small_unit) host_read (@volume_byte model_crypto small_manifest small_unit) [7; 7; 7]
    (@volume_byte model_crypto small_manifest (@dispatch_unit model_crypto host_holds host_read small_unit).1).
Proof.
  pose proof (@good_is_accepted model_crypto model_crypto_laws small_manifest None unbounded quiet small_volume
    idle_runtime 8 2 unit_before host_holds host_read (good [7; 7; 7]) small_manifest_ok ltac:(done) eq_refl unit_before_ok
    ltac:(request_ok)) as Hd.
  cbv zeta in Hd. fold small_unit in Hd. apply Hd; vm_compute; reflexivity.
Defined.
