(* ===== verification/XCopy.v ===== *)
(** * EXTENDED COPY ([scsi/sbc/src/data_path.rs])

    The copy manager over the daemon's volumes: the registry of units, the
    parameter lists of the two forms, the gates of the plan, and a segment by
    its two paths, naming chunks page by page or copying bytes. *)

From S2P Require Import Prelude Bytes BTreeMap Pr Reservations ReservationManager ReservationRender PageIndex UploadIndex BlockLru PoolBudget StateError PageLru Crypto VolumeWriter PageCache VolumeCache PageClone SbcData.

Local Open Scope Z_scope.

(** ** The registry ([vsa/daemon/src/registry.rs]) *)

(** A volume on a LUN: its manifest's name and backend, and its cache. *)
Record Lu : Type := mkLu {
  lu_name : list Z;
  lu_backend : list Z;
  lu_cache : PageCache VolumeWriter;
}.

Definition with_cache (c : PageCache VolumeWriter) (u : Lu) : Lu := mkLu (lu_name u) (lu_backend u) c.

Definition VolumeRegistry : Type := btree Z Lu.

Definition luns (r : VolumeRegistry) : list Z := map fst r.

Definition name_for_lun (r : VolumeRegistry) (l : Z) : option (list Z) := lu_name <$> bt_get l r.

(** The unit [l], on [backend], becomes [c]; what it put in storage, the
    other volumes of its pool see. *)
Definition shared (l : Z) (c : PageCache VolumeWriter) (backend : list Z) (k : Z) (v : Lu) : Lu :=
  if ord_eqb k l then with_cache c v
  else with_cache (see (bool_decide (backend = lu_backend v)) c (lu_cache v)) v.

Definition share (l : Z) (c : PageCache VolumeWriter) (r : VolumeRegistry) : VolumeRegistry :=
  match bt_get l r with
  | None => r
  | Some u => map (fun e => (e.1, shared l c (lu_backend u) e.1 e.2)) r
  end.

(** An [Arc<PageCache>] and the LUN it was resolved from. *)
Definition TargetHandle : Type := Z * PageCache VolumeWriter.

Definition unit_at (t : TargetHandle) : Handle VolumeRegistry :=
  mkHandle (fun r => default t.2 (lu_cache <$> bt_get t.1 r)) (share t.1).

(** Whether the two manifests name one backend. *)
Definition one_backend (r : VolumeRegistry) (t t' : TargetHandle) : bool :=
  bool_decide (lu_backend <$> bt_get t.1 r = lu_backend <$> bt_get t'.1 r).

(** ** Descriptors *)

Definition lun_admitted (r : VolumeRegistry) (session_volumes : option (list (list Z))) (l : Z) : bool :=
  match session_volumes with
  | Some allow =>
      match name_for_lun r l with
      | Some name => existsb (fun n => bool_decide (n = name)) allow
      | None => false
      end
  | None => true
  end.

Definition naa_locally_assigned (uuid : list Z) : list Z :=
  Z.lor 0x30 (Z.land (at_ uuid 0) 0x0F) :: sl 1 7 uuid.

Definition naa_insert (r : VolumeRegistry) (session_volumes : option (list (list Z)))
    (index : gmap (list Z) TargetHandle) (l : Z) : gmap (list Z) TargetHandle :=
  if negb (lun_admitted r session_volumes l) then index
  else
    match bt_get l r with
    | Some u => <[naa_locally_assigned (uuid (manifest (writer (lu_cache u)))) := (l, lu_cache u)]> index
    | None => index
    end.

Definition build_naa_index (r : VolumeRegistry) (session_volumes : option (list (list Z))) :
    gmap (list Z) TargetHandle :=
  foldl (naa_insert r session_volumes) ∅ (luns r).

Definition resolve_target_descriptor (index : gmap (list Z) TargetHandle) (desc : list Z) :
    result TargetHandle SenseData :=
  if bool_decide (length desc < 32)%nat || negb (at_ desc 0 =? 0xE4) then Err INVALID_FIELD_IN_PARAMETER_LIST
  else
    let designator_type := Z.land (at_ desc 5) 0x0F in
    let designator_len := at_ desc 7 in
    if 28 <? 8 + designator_len then Err INVALID_FIELD_IN_PARAMETER_LIST
    else if negb (designator_type =? 0x03) || negb (designator_len =? 8) then Err INVALID_FIELD_IN_PARAMETER_LIST
    else match index !! sl 8 8 desc with
      | Some t => Ok t
      | None => Err INVALID_FIELD_IN_PARAMETER_LIST
      end.

Fixpoint resolve_targets (index : gmap (list Z) TargetHandle) (plist : list Z) (n off : nat) :
    result (list TargetHandle) SenseData :=
  match n with
  | O => Ok []
  | S n =>
      match resolve_target_descriptor index (sl off 32 plist) with
      | Err s => Err s
      | Ok t =>
          match resolve_targets index plist n (off + 32) with Err s => Err s | Ok ts => Ok (t :: ts) end
      end
  end.

Record PlannedSegment : Type := mkSegment {
  src_idx : nat;
  dst_idx : nat;
  seg_blocks : Z;
  src_lba : Z;
  dst_lba : Z;
}.

Definition segment_of (sd : list Z) : PlannedSegment :=
  mkSegment (Z.to_nat (be_val (sl 4 2 sd))) (Z.to_nat (be_val (sl 6 2 sd))) (be_val (sl 10 2 sd))
    (be_val (sl 12 8 sd)) (be_val (sl 20 8 sd)).

(** The segment descriptors in [sd], of which a turn takes one. *)
Fixpoint plan_segments (fuel targets : nat) (sd : list Z) : result (list PlannedSegment) SenseData :=
  match fuel with
  | O => Ok []
  | S fuel =>
      if bool_decide (sd = []) then Ok []
      else if bool_decide (length sd < 4)%nat then Err INVALID_FIELD_IN_PARAMETER_LIST
      else
        let dlen := be_val (sl 2 2 sd) in
        if Z.of_nat (length sd) <? 4 + dlen then Err INVALID_FIELD_IN_PARAMETER_LIST
        else if negb (at_ sd 0 =? 0x02) || negb (dlen =? 0x18) then Err INVALID_FIELD_IN_PARAMETER_LIST
        else
          let seg := segment_of sd in
          if bool_decide (targets <= src_idx seg)%nat || bool_decide (targets <= dst_idx seg)%nat
          then Err INVALID_FIELD_IN_PARAMETER_LIST
          else
            match plan_segments fuel targets (drop (Z.to_nat (4 + dlen)) sd) with
            | Err s => Err s
            | Ok rest => Ok (seg :: rest)
            end
  end.

Inductive ExtendedCopyParseError : Type :=
  | Noop
  | ReservationConflict
  | Sense (s : SenseData).

Definition lift_sense {A} (r : result A SenseData) : result A ExtendedCopyParseError :=
  match r with Ok a => Ok a | Err s => Err (Sense s) end.

(** ** The gates *)

Definition gate_segment (reservations : ReservationManager) (nexus : RegistrantId) (src dst : TargetHandle)
    (seg : PlannedSegment) : result unit ExtendedCopyParseError :=
  if worm (manifest (writer dst.2)) then Err (Sense WRITE_PROTECTED)
  else if negb (allow_write reservations dst.1 nexus) then Err ReservationConflict
  else if negb (allow_read reservations src.1 nexus) then Err ReservationConflict
  else if seg_blocks seg =? 0 then Ok tt
  else
    match validate_in_range (mkRange (src_lba seg) (seg_blocks seg)) (sizing_from src.2),
          validate_in_range (mkRange (dst_lba seg) (seg_blocks seg)) (sizing_from dst.2) with
    | Ok _, Ok _ => Ok tt
    | _, _ => Err (Sense LBA_OUT_OF_RANGE)
    end.

(** The indices are in range. *)
Fixpoint gate_segments (reservations : ReservationManager) (nexus : RegistrantId) (targets : list TargetHandle)
    (planned : list PlannedSegment) : result unit ExtendedCopyParseError :=
  match planned with
  | [] => Ok tt
  | seg :: rest =>
      match targets !! src_idx seg, targets !! dst_idx seg with
      | Some src, Some dst =>
          match gate_segment reservations nexus src dst seg with
          | Err e => Err e
          | Ok _ => gate_segments reservations nexus targets rest
          end
      | _, _ => gate_segments reservations nexus targets rest
      end
  end.

Definition Plan : Type := list TargetHandle * list PlannedSegment.

Definition resolve_targets_and_plan (plist : list Z) (tdesc_off tdesc_len sdesc_off sdesc_len : nat)
    (registry : VolumeRegistry) (session_volumes : option (list (list Z))) (nexus : RegistrantId)
    (reservations : ReservationManager) : result Plan ExtendedCopyParseError :=
  let tdesc_count := (tdesc_len / 32)%nat in
  if negb (bool_decide (tdesc_len mod 32 = 0)%nat) then Err (Sense INVALID_FIELD_IN_PARAMETER_LIST)
  else if bool_decide (tdesc_count = 0)%nat || (65535 <? Z.of_nat tdesc_count)
  then Err (Sense INVALID_FIELD_IN_PARAMETER_LIST)
  else
    let naa_index := build_naa_index registry session_volumes in
    match lift_sense (resolve_targets naa_index plist tdesc_count tdesc_off) with
    | Err e => Err e
    | Ok targets =>
        match lift_sense (plan_segments sdesc_len (length targets) (sl sdesc_off sdesc_len plist)) with
        | Err e => Err e
        | Ok planned =>
            match gate_segments reservations nexus targets planned with
            | Err e => Err e
            | Ok _ => Ok (targets, planned)
            end
        end
    end.

(** The lists after a header of [hdr] bytes. *)
Definition plan_lists (plist : list Z) (hdr : nat) (tdesc_len sdesc_len inline_len : Z)
    (registry : VolumeRegistry) (req : ScsiRequest) (nexus : RegistrantId) (reservations : ReservationManager) :
    result Plan ExtendedCopyParseError :=
  let bad := Err (Sense INVALID_FIELD_IN_PARAMETER_LIST) in
  if negb (inline_len =? 0) then bad
  else if (tdesc_len =? 0) || (sdesc_len =? 0) then bad
  else if Z.of_nat (length plist) <? Z.of_nat hdr + tdesc_len + sdesc_len then bad
  else
    resolve_targets_and_plan plist hdr (Z.to_nat tdesc_len) (hdr + Z.to_nat tdesc_len) (Z.to_nat sdesc_len)
      registry (session_volumes req) nexus reservations.

Definition parse_extended_copy (registry : VolumeRegistry) (req : ScsiRequest) (nexus : RegistrantId)
    (reservations : ReservationManager) : result Plan ExtendedCopyParseError :=
  let plist_len := be_val (sl 10 4 (cdb req)) in
  if plist_len =? 0 then Err Noop
  else if Z.of_nat (length (data_out req)) <? plist_len then Err (Sense INVALID_FIELD_IN_PARAMETER_LIST)
  else
    let plist := take (Z.to_nat plist_len) (data_out req) in
    if bool_decide (length plist < 16)%nat then Err (Sense INVALID_FIELD_IN_PARAMETER_LIST)
    else
      plan_lists plist 16 (be_val (sl 2 2 plist)) (be_val (sl 8 4 plist)) (be_val (sl 12 4 plist))
        registry req nexus reservations.

Definition parse_extended_copy_lid4 (registry : VolumeRegistry) (req : ScsiRequest) (nexus : RegistrantId)
    (reservations : ReservationManager) : result Plan ExtendedCopyParseError :=
  let plist_len := be_val (sl 10 4 (cdb req)) in
  if plist_len =? 0 then Err Noop
  else if Z.of_nat (length (data_out req)) <? plist_len then Err (Sense INVALID_FIELD_IN_PARAMETER_LIST)
  else
    let plist := take (Z.to_nat plist_len) (data_out req) in
    if bool_decide (length plist < 48)%nat then Err (Sense INVALID_FIELD_IN_PARAMETER_LIST)
    else if negb (at_ plist 0 =? 0x01) then Err (Sense INVALID_FIELD_IN_PARAMETER_LIST)
    else if negb (be_val (sl 2 2 plist) =? 0) then Err (Sense INVALID_FIELD_IN_PARAMETER_LIST)
    else
      plan_lists plist 48 (be_val (sl 42 2 plist)) (be_val (sl 44 2 plist)) (be_val (sl 46 2 plist))
        registry req nexus reservations.

(** ** Segments *)

Definition CHUNK : Z := 1024 * 1024.

Definition ranges_overlap (a_start a_end b_start b_end : Z) : bool := (a_start <? b_end) && (b_start <? a_end).

Section execute.
Context `{VolumeCrypto}.

(** The slow path: at most [chunk] bytes a turn. *)
Fixpoint copy_turns (fuel : nat) (chunk : Z) (src dst : TargetHandle) (s_cur d_cur remaining : Z) :
    EM VolumeRegistry SenseData unit :=
  match fuel with
  | O => mret tt
  | S fuel =>
      if remaining <=? 0 then mret tt
      else
        let this := Z.min remaining chunk in
        buf ← map_err map_read_error (at_cache (unit_at src) (read_bytes s_cur (Z.to_nat this)));
        map_err map_write_error (at_cache (unit_at dst) (write_bytes d_cur buf));;
        copy_turns fuel chunk src dst (s_cur + this) (d_cur + this) (remaining - this)
  end.

Definition stream_copy (chunk : Z) (src dst : TargetHandle) (src_off dst_off len : Z) :
    EM VolumeRegistry SenseData unit :=
  copy_turns (Z.to_nat (len / chunk + 1)) chunk src dst src_off dst_off len.

(** The result tells the path, fast or not. *)
Definition execute_segment (src : TargetHandle) (src_lba : Z) (dst : TargetHandle) (dst_lba blocks : Z) :
    EM VolumeRegistry SenseData bool :=
  r ← get;
  let a := h_get (unit_at src) r in
  let b := h_get (unit_at dst) r in
  let src_sz := sizing_from a in
  let dst_sz := sizing_from b in
  if negb (sector src_sz =? sector dst_sz) then fail INVALID_FIELD_IN_PARAMETER_LIST
  else
    let src_off := src_lba * sector src_sz in
    let dst_off := dst_lba * sector dst_sz in
    let len := blocks * sector src_sz in
    let same_lun := bool_decide (src.1 = dst.1) in
    let page := cache_page_size a in
    let aligned := (page =? cache_page_size b) && (src_off mod page =? 0) && (dst_off mod page =? 0) &&
      (len mod page =? 0) in
    let overlap := same_lun && ranges_overlap src_off (src_off + len) dst_off (dst_off + len) in
    if aligned && negb overlap then
      map_err map_write_error
        (clone_page_range_into (unit_at src) (unit_at dst) same_lun (one_backend r src dst) src_off dst_off len);;
      mret true
    else stream_copy CHUNK src dst src_off dst_off len;; mret false.

Fixpoint extended_copy_execute (targets : list TargetHandle) (planned : list PlannedSegment) :
    EM VolumeRegistry ScsiResponse ScsiResponse :=
  match planned with
  | [] => mret (good [])
  | seg :: rest =>
      if seg_blocks seg =? 0 then extended_copy_execute targets rest
      else
        match targets !! src_idx seg, targets !! dst_idx seg with
        | Some src, Some dst =>
            map_err check (execute_segment src (src_lba seg) dst (dst_lba seg) (seg_blocks seg));;
            extended_copy_execute targets rest
        | _, _ => extended_copy_execute targets rest
        end
  end.

(** LID1 and LID4: the plan, then its segments. *)
Definition run_plan (plan : result Plan ExtendedCopyParseError) : EM VolumeRegistry ScsiResponse ScsiResponse :=
  match plan with
  | Err Noop => mret (good [])
  | Err ReservationConflict => fail reservation_conflict
  | Err (Sense s) => fail (check s)
  | Ok (targets, planned) => extended_copy_execute targets planned
  end.

Definition extended_copy_lid1 (reservations : ReservationManager) (req : ScsiRequest) (nexus : RegistrantId) :
    EM VolumeRegistry ScsiResponse ScsiResponse :=
  r ← get; run_plan (parse_extended_copy r req nexus reservations).

Definition extended_copy_lid4 (reservations : ReservationManager) (req : ScsiRequest) (nexus : RegistrantId) :
    EM VolumeRegistry ScsiResponse ScsiResponse :=
  r ← get; run_plan (parse_extended_copy_lid4 r req nexus reservations).
End execute.
