(* ===== verification/XCopyProofs.v ===== *)
(** * What EXTENDED COPY leaves

    Over a registry in order: a plan reads and writes only what its gates
    allow, a segment by either path copies its blocks, and a command changes
    nothing else of any unit.  A copy onto itself, further on, in more than
    one turn, repeats its first turn. *)

From S2P Require Import Prelude Bytes BTreeMap Pr Reservations ReservationManager ReservationRender PageIndex UploadIndex BlockLru PoolBudget StateError PageLru Crypto VolumeWriter VolumeProofs VolumeHistory PageCache PageCacheProofs CacheBytes CacheHistory VolumeCache PageClone SbcData SbcProofs SbcHistory XCopy.

Local Open Scope Z_scope.

Section proofs.
Context `{VolumeCryptoLaws}.

(** ** Registries in order *)

Definition page_of (c : PageCache VolumeWriter) : Z := page_size (manifest (writer c)).

(** The bytes of a cache, by its own page size. *)
Definition cache_byte (c : PageCache VolumeWriter) (i : Z) : Z := volume_byte (manifest (writer c)) c i.

Definition unit_good (c : PageCache VolumeWriter) : Prop :=
  0 < page_of c <= u32_max /\ unit_ok (page_of c) c.

(** Volumes of a pool have one storage; one key has one identity. *)
Definition linked_units (u u' : Lu) : Prop :=
  let w := writer (lu_cache u) in
  let w' := writer (lu_cache u') in
  (same_pool (bool_decide (lu_backend u = lu_backend u')) w w' = true -> backend w = backend w') /\
  (encrypted (manifest w) = true -> encrypted (manifest w') = true ->
   dek_uuid (manifest w) = dek_uuid (manifest w') -> encryption_key w = encryption_key w').

Record registry_ok (r : VolumeRegistry) : Prop := {
  ro_unit l u : bt_get l r = Some u -> unit_good (lu_cache u);
  ro_linked l l' u u' : bt_get l r = Some u -> bt_get l' r = Some u' -> linked_units u u';
}.

(** The same unit later. *)
Definition later (u u' : Lu) : Prop :=
  lu_name u' = lu_name u /\ lu_backend u' = lu_backend u /\
  @same_config _ _ (volume_model (page_of (lu_cache u))) (lu_cache u) (lu_cache u').

Definition units_later (r r' : VolumeRegistry) : Prop :=
  forall l, match bt_get l r, bt_get l r' with
    | Some u, Some u' => later u u'
    | None, None => True
    | _, _ => False
    end.

Definition unit_byte (r : VolumeRegistry) (l i : Z) : Z :=
  match bt_get l r with Some u => cache_byte (lu_cache u) i | None => 0 end.

Lemma later_manifest u u' : later u u' -> manifest (writer (lu_cache u')) = manifest (writer (lu_cache u)).
Proof. intros (_ & _ & Hs). pose proof (sc_le _ _ Hs) as Hl. simpl in Hl. apply (le_manifest _ _ Hl). Qed.

Lemma later_trans u1 u2 u3 : later u1 u2 -> later u2 u3 -> later u1 u3.
Proof.
  intros H1 H2. pose proof (later_manifest _ _ H1) as Em. destruct H1 as (A1 & A2 & A3), H2 as (B1 & B2 & B3).
  split_and!; [congruence..|]. destruct A3, B3. split; simpl in *; [congruence..|by etrans].
Qed.

Lemma units_later_trans r1 r2 r3 : units_later r1 r2 -> units_later r2 r3 -> units_later r1 r3.
Proof.
  intros H1 H2 l. specialize (H1 l). specialize (H2 l).
  destruct (bt_get l r1), (bt_get l r2), (bt_get l r3); try done. by eapply later_trans.
Qed.

Lemma later_refl u : later u u.
Proof. split_and!; [done..|]. split; [done..|]. by split. Qed.

Lemma units_later_refl r : units_later r r.
Proof. intros l. destruct (bt_get l r); [apply later_refl|done]. Qed.

Lemma units_later_get r r' l u :
  units_later r r' -> bt_get l r = Some u -> exists u', bt_get l r' = Some u' /\ later u u'.
Proof. intros Hr Hu. specialize (Hr l). rewrite Hu in Hr. destruct (bt_get l r'); [eauto|done]. Qed.

(** ** A step of one unit *)

Lemma bt_get_map (f : Z -> Lu -> Lu) l (r : VolumeRegistry) :
  bt_get l (map (fun e => (e.1, f e.1 e.2)) r) = f l <$> bt_get l r.
Proof.
  induction r as [|[k u] r IH]; [done|]. cbn [map]. rewrite !bt_get_cons, IH. simpl.
  destruct (ord_eqb l k) eqn:E; [|done]. by apply ord_eqb_eq in E as ->.
Qed.

Lemma share_get l k c r u :
  bt_get l r = Some u -> bt_get k (share l c r) = shared l c (lu_backend u) k <$> bt_get k r.
Proof. intros Hu. unfold share. rewrite Hu. apply (bt_get_map (shared l c (lu_backend u))). Qed.

Notation ok_at ps := (@cache_ok _ ps (volume_model ps)).
Notation same_at ps := (@same_config _ _ (volume_model ps)).
Notation keeps_at ps := (@keeps _ ps _ (volume_model ps)).

Definition kept (u v : Lu) : Prop := later u v /\ keeps_at (page_of (lu_cache u)) (lu_cache u) (lu_cache v).

Lemma unit_good_later u v : unit_good (lu_cache u) -> later u v -> ok_at (page_of (lu_cache u)) (lu_cache v) -> unit_good (lu_cache v).
Proof.
  intros [Hp [Ho Hs Hn]] Hl Hv. pose proof (later_manifest _ _ Hl) as Em. destruct Hl as (_ & _ & Hc).
  unfold unit_good, page_of in *. rewrite Em. split; [done|]. split; [done| |]; rewrite Em; [|done].
  rewrite (sc_sector _ _ Hc). done.
Qed.

Lemma shared_kept l c u k v :
  k <> l -> unit_good (lu_cache v) -> linked_units u v -> VolumeHistory.good (writer c) -> volume_le (writer (lu_cache u)) (writer c) ->
  kept v (shared l c (lu_backend u) k v).
Proof.
  intros Hk [Hp Hv] [Hb _] Hc [Em _ Eb]. unfold shared. apply ord_eqb_neq in Hk as ->.
  assert (keeps_at (page_of (lu_cache v)) (lu_cache v)
    (see (bool_decide (lu_backend u = lu_backend v)) c (lu_cache v))) as Hkp.
  { apply see_keeps; [done..|apply Hv|]. unfold same_pool in *. rewrite Em.
    intros E. by rewrite <- (Hb E). }
  split; [|exact Hkp]. split_and!; [done..|]. apply Hkp.
Qed.

Definition pooled (u v : Lu) : bool :=
  same_pool (bool_decide (lu_backend u = lu_backend v)) (writer (lu_cache u)) (writer (lu_cache v)).

Lemma pooled_spec u v :
  pooled u v = true <-> lu_backend u = lu_backend v /\
    pool_namespace (manifest (writer (lu_cache u))) = pool_namespace (manifest (writer (lu_cache v))).
Proof. unfold pooled, same_pool. rewrite andb_true_iff, !bool_decide_eq_true. done. Qed.

Lemma shared_writer l c u k v :
  volume_le (writer (lu_cache u)) (writer c) -> (k = l -> v = u) ->
  let w := writer (lu_cache (shared l c (lu_backend u) k v)) in
  lu_backend (shared l c (lu_backend u) k v) = lu_backend v /\
  manifest w = manifest (writer (lu_cache v)) /\ encryption_key w = encryption_key (writer (lu_cache v)) /\
  backend w = if pooled u v then backend (writer c) else backend (writer (lu_cache v)).
Proof.
  intros [Em Ek Eb] Hk w. subst w. unfold shared. destruct (ord_eqb k l) eqn:E.
  - apply ord_eqb_eq in E. rewrite (Hk E). simpl. rewrite (proj2 (pooled_spec u u)) by done. done.
  - simpl. destruct (see_same (bool_decide (lu_backend u = lu_backend v)) c (lu_cache v)) as [-> ->].
    split_and!; [done..|]. unfold pooled. unfold see, same_pool. rewrite Em. by destruct (_ && _).
Qed.

(** A unit moves on, by any step that keeps it in order. *)
Lemma share_ok l c r u :
  registry_ok r -> bt_get l r = Some u -> unit_good c -> volume_le (writer (lu_cache u)) (writer c) ->
  registry_ok (share l c r) /\ bt_get l (share l c r) = Some (with_cache c u) /\
  forall k v, k <> l -> bt_get k r = Some v -> exists v', bt_get k (share l c r) = Some v' /\ kept v v'.
Proof.
  intros [Hr Hp] Hu Hc Hle.
  assert (forall k v, bt_get k r = Some v -> k <> l -> kept v (shared l c (lu_backend u) k v)) as Hkept.
  { intros k v Hv Hk. apply shared_kept; try done; [by eapply Hr|by eapply Hp|apply (ck_store _ _ (u_ok _ _ (proj2 Hc)))]. }
  split_and!.
  - split.
    + intros k v. rewrite (share_get _ _ _ _ u Hu). intros (x & Hx & ->)%fmap_Some.
      destruct (decide (k = l)) as [->|Hk]; [unfold shared; by rewrite ord_eqb_refl|].
      destruct (Hkept k x Hx Hk) as [H1 H2]. eapply unit_good_later; [by eapply Hr|done|apply H2].
    + intros k k' v v'. rewrite !(share_get _ _ _ _ u Hu). intros (x & Hx & ->)%fmap_Some (y & Hy & ->)%fmap_Some.
      destruct (Hp k k' x y Hx Hy) as [P1 P2].
      destruct (shared_writer l c u k x Hle ltac:(congruence)) as (X1 & X2 & X3 & X4).
      destruct (shared_writer l c u k' y Hle ltac:(congruence)) as (Y1 & Y2 & Y3 & Y4).
      split; cbv zeta; rewrite ?X2, ?X3, ?Y2, ?Y3; [|done].
      unfold same_pool. rewrite X1, X2, Y1, Y2. intros Exy. rewrite X4, Y4, (P1 Exy).
      replace (pooled u y) with (pooled u x); [done|].
      apply andb_true_iff in Exy as [E1%bool_decide_eq_true E2%bool_decide_eq_true].
      unfold pooled, same_pool. by rewrite E1, E2.
  - rewrite (share_get _ _ _ _ u Hu), Hu. simpl. unfold shared. by rewrite ord_eqb_refl.
  - intros k v Hk Hv. rewrite (share_get _ _ _ _ u Hu), Hv. simpl. eauto.
Qed.

(** A unit moves on and stays as it is configured. *)
Lemma share_step l c r u :
  registry_ok r -> bt_get l r = Some u -> ok_at (page_of (lu_cache u)) c -> same_at (page_of (lu_cache u)) (lu_cache u) c ->
  registry_ok (share l c r) /\ units_later r (share l c r) /\ bt_get l (share l c r) = Some (with_cache c u) /\
  forall k v, k <> l -> bt_get k r = Some v -> exists v', bt_get k (share l c r) = Some v' /\ kept v v'.
Proof.
  intros Hr Hu Hc Hs. assert (later u (with_cache c u)) as Hlu by by split_and!.
  destruct (share_ok l c r u Hr Hu) as (S1 & S2 & S3);
    [by apply (unit_good_later u (with_cache c u)); [apply (ro_unit _ Hr l)|..]|apply (sc_le _ _ Hs)|].
  split_and!; try done. intros k. destruct (decide (k = l)) as [->|Hk]; [by rewrite Hu, S2|].
  destruct (bt_get k r) as [v|] eqn:E; [destruct (S3 k v Hk E) as (v' & -> & Hv & _); done|].
  by rewrite (share_get _ _ _ _ u Hu), E.
Qed.

Lemma kept_byte u v i : kept u v -> cache_byte (lu_cache v) i = cache_byte (lu_cache u) i.
Proof.
  intros [Hl Hk]. unfold cache_byte, volume_byte. rewrite (later_manifest _ _ Hl).
  exact (keeps_byte (page_of (lu_cache u)) _ _ i Hk).
Qed.

(** The bytes of every unit but [l]. *)
Definition others_same (l : Z) (r r' : VolumeRegistry) : Prop :=
  forall k i, k <> l -> unit_byte r' k i = unit_byte r k i.

Lemma share_others l c r u :
  registry_ok r -> bt_get l r = Some u -> ok_at (page_of (lu_cache u)) c -> same_at (page_of (lu_cache u)) (lu_cache u) c ->
  others_same l r (share l c r).
Proof.
  intros Hr Hu Hc Hs k i Hk. destruct (share_step l c r u Hr Hu Hc Hs) as (_ & Hl & _ & Ho). unfold unit_byte.
  destruct (bt_get k r) as [v|] eqn:E.
  - destruct (Ho k v Hk E) as (v' & -> & Hv). by apply kept_byte.
  - specialize (Hl k). rewrite E in Hl. by destruct (bt_get k (share l c r)).
Qed.

Lemma others_trans l r1 r2 r3 : others_same l r1 r2 -> others_same l r2 r3 -> others_same l r1 r3.
Proof. intros H1 H2 k i Hk. by rewrite H2, H1. Qed.

(** ** Two units of a registry *)

Definition at_unit (l : Z) (ps : Z) (r : VolumeRegistry) (u : Lu) : Prop :=
  bt_get l r = Some u /\ page_of (lu_cache u) = ps.

(** A registry that came from [r0] by changing the unit [l'] alone. *)
Record from (r0 : VolumeRegistry) (l l' ps : Z) (sb : bool) (r : VolumeRegistry) : Prop := {
  fr_ok : registry_ok r;
  fr_later : units_later r0 r;
  fr_units : exists u u', at_unit l ps r u /\ at_unit l' ps r u' /\ sb = bool_decide (lu_backend u = lu_backend u');
  fr_others : others_same l' r0 r;
}.

Lemma at_later l ps r r' u : at_unit l ps r u -> units_later r r' -> exists u', at_unit l ps r' u' /\ later u u'.
Proof.
  intros [Hu Hp] Hl. destruct (units_later_get _ _ _ _ Hl Hu) as (u' & Hu' & Hx). exists u'. split; [|done].
  split; [done|]. unfold page_of in *. by rewrite (later_manifest _ _ Hx).
Qed.

Lemma from_step r0 l l' ps sb r k c u :
  from r0 l l' ps sb r -> bt_get k r = Some u -> ok_at (page_of (lu_cache u)) c ->
  same_at (page_of (lu_cache u)) (lu_cache u) c ->
  (k <> l' -> keeps_at (page_of (lu_cache u)) (lu_cache u) c) -> from r0 l l' ps sb (share k c r).
Proof.
  intros [H1 H2 (v & v' & Hv & Hv' & ->) H4] Hu Hc Hs Hk.
  destruct (share_step k c r u H1 Hu Hc Hs) as (S1 & S2 & S3 & S4). split; [done|by eapply units_later_trans| |].
  - destruct (at_later _ _ _ _ _ Hv S2) as (x & Hx & _ & Ex & _), (at_later _ _ _ _ _ Hv' S2) as (x' & Hx' & _ & Ex' & _).
    exists x, x'. split_and!; [done..|]. by rewrite Ex, Ex'.
  - eapply others_trans; [exact H4|]. intros k' i Hk'. destruct (decide (k' = k)) as [->|Hne].
    + unfold unit_byte. rewrite S3, Hu. simpl. apply (kept_byte u (with_cache c u)). split; [by split_and!|]. by apply Hk.
    + by eapply share_others.
Qed.

Lemma unit_at_get l d r u : bt_get l r = Some u -> h_get (unit_at (l, d)) r = lu_cache u.
Proof. simpl. by intros ->. Qed.

Section two.
Context (ps : Z) (Hps : 0 < ps <= u32_max) (r0 : VolumeRegistry) (t t' : TargetHandle) (sb : bool).

#[local] Instance unit_linked : Linked ps (unit_at t) (unit_at t') (bool_decide (t.1 = t'.1)) sb.
Proof.
  destruct t as [l d], t' as [l' d']. simpl.
  refine {| linked := from r0 l l' ps sb |}.
  - intros r [Hr _ (u & u' & [Hu <-] & _ & _) _]. rewrite (unit_at_get l d r u Hu). by apply (ro_unit _ Hr l u Hu).
  - intros r [Hr _ (u & u' & _ & [Hu <-] & _) _]. rewrite (unit_at_get l' d' r u' Hu). by apply (ro_unit _ Hr l' u' Hu).
  - intros r [Hr _ (u & u' & [Hu _] & [Hu' _] & _) _] <-%bool_decide_eq_true.
    by rewrite (unit_at_get l d r u Hu), (unit_at_get l d' r u Hu).
  - intros r p q e bs [Hr _ (u & u' & [Hu Hp] & [Hu' Hp'] & ->) _].
    rewrite (unit_at_get l d r u Hu), (unit_at_get l' d' r u' Hu'). intros [E1 E2]%andb_true_iff.
    destruct (ro_linked _ Hr _ _ _ _ Hu Hu') as [L1 L2].
    eapply (sound_opens ps); try done; [| |by rewrite L1].
    + rewrite <- Hp. apply (ro_unit _ Hr l u Hu).
    + rewrite <- Hp'. apply (ro_unit _ Hr l' u' Hu').
  - intros c r Hf. pose proof Hf as [Hr _ (u & u' & [Hu Hp] & [Hu' Hp'] & _) _].
    rewrite (unit_at_get l d r u Hu), (unit_at_get l' d' r u' Hu'). intros Hk. simpl h_set. rewrite <- Hp in Hk.
    destruct (share_step l c r u Hr Hu) as (S1 & S2 & S3 & S4); [apply Hk..|].
    rewrite (unit_at_get l d _ _ S3). split_and!.
    + eapply from_step; [done|exact Hu|apply Hk|apply Hk|done].
    + by rewrite <- Hp.
    + destruct (decide (l' = l)) as [->|Hne].
      * rewrite (unit_at_get l d' _ _ S3). rewrite <- Hp. assert (u' = u) as -> by congruence. done.
      * destruct (S4 l' u' Hne Hu') as (v & Hv & _ & Hkv). rewrite (unit_at_get l' d' _ _ Hv). by rewrite <- Hp'.
  - intros c r Hf. pose proof Hf as [Hr _ (u & u' & [Hu Hp] & [Hu' Hp'] & _) _].
    rewrite (unit_at_get l d r u Hu), (unit_at_get l' d' r u' Hu'). intros Hc Hs. simpl h_set. rewrite <- Hp' in Hc, Hs.
    destruct (share_step l' c r u' Hr Hu' Hc Hs) as (S1 & S2 & S3 & S4).
    rewrite (unit_at_get l' d' _ _ S3). split_and!; [by eapply from_step|done|].
    intros Hne%bool_decide_eq_false. destruct (S4 l u Hne Hu) as (v & Hv & _ & Hkv).
    rewrite (unit_at_get l d _ _ Hv). by rewrite <- Hp.
Defined.
End two.

(** ** Reading and writing a unit *)

(** At most bytes [lo..hi) of the unit [l] changed. *)
Record wrote (l lo hi : Z) (r r' : VolumeRegistry) : Prop := {
  wt_ok : registry_ok r';
  wt_later : units_later r r';
  wt_others : others_same l r r';
  wt_bytes i : 0 <= i -> ~ (lo <= i < hi) -> unit_byte r' l i = unit_byte r l i;
}.

Lemma wrote_refl l lo hi r : registry_ok r -> wrote l lo hi r r.
Proof. intros Hr. by split; [|apply units_later_refl|..]. Qed.

Lemma wrote_trans l lo hi lo1 hi1 lo2 hi2 r1 r2 r3 :
  wrote l lo1 hi1 r1 r2 -> wrote l lo2 hi2 r2 r3 ->
  lo <= lo1 -> hi1 <= hi -> lo <= lo2 -> hi2 <= hi -> wrote l lo hi r1 r3.
Proof.
  intros [A1 A2 A3 A4] [B1 B2 B3 B4] ? ? ? ?. split; [done|by eapply units_later_trans|by eapply others_trans|].
  intros i Hi Hn. rewrite B4, A4; [done|done|lia|done|lia].
Qed.

Lemma wrote_widen l lo hi lo1 hi1 r r' : wrote l lo1 hi1 r r' -> lo <= lo1 -> hi1 <= hi -> wrote l lo hi r r'.
Proof. intros [A1 A2 A3 A4] ? ?. split; [done..|]. intros i Hi Hn. apply A4; [done|lia]. Qed.

(** A step of the unit [l]. *)
Lemma wrote_share l lo hi c r u :
  registry_ok r -> bt_get l r = Some u -> ok_at (page_of (lu_cache u)) c -> same_at (page_of (lu_cache u)) (lu_cache u) c ->
  (forall i, 0 <= i -> ~ (lo <= i < hi) -> cache_byte c i = cache_byte (lu_cache u) i) ->
  wrote l lo hi r (share l c r) /\ forall i, unit_byte (share l c r) l i = cache_byte c i.
Proof.
  intros Hr Hu Hc Hs Hb. destruct (share_step l c r u Hr Hu Hc Hs) as (S1 & S2 & S3 & S4).
  assert (forall i, unit_byte (share l c r) l i = cache_byte c i) as Hx by (intros i; unfold unit_byte; by rewrite S3).
  split; [|done]. split; [done..|by eapply share_others|]. intros i Hi Hn. rewrite Hx. unfold unit_byte. rewrite Hu. by apply Hb.
Qed.

Lemma same_cache_byte ps c c' i :
  same_at ps c c' -> page_of c = ps -> cache_byte c' i = @byte_at _ ps (volume_model ps) c' i.
Proof.
  intros Hs <-. unfold cache_byte, volume_byte. pose proof (sc_le _ _ Hs) as Hl. simpl in Hl. by rewrite (le_manifest _ _ Hl).
Qed.

Lemma read_unit l d off n r u :
  registry_ok r -> bt_get l r = Some u -> 0 <= off -> off + Z.of_nat n <= live_size_bytes (writer (lu_cache u)) ->
  exists r' res, at_cache (unit_at (l, d)) (read_bytes off n) r = (r', res) /\
    (forall k lo hi, wrote k lo hi r r') /\ forall o, res = Ok o -> o = slice_of (unit_byte r l) off n.
Proof.
  intros Hr Hu H1 H2. pose proof (ro_unit _ Hr l u Hu) as [Hp [Hc Hs Hn]]. set (ps := page_of (lu_cache u)) in *.
  pose proof (volume_laws ps Hp) as HL. unfold at_cache, zoom. rewrite (unit_at_get l d r u Hu).
  destruct (read_bytes_spec ps (lu_cache u) off n Hc H1) as (c & res & -> & Hk & Ho); [exact H2|].
  eexists _, _. split; [reflexivity|].
  assert (forall i, cache_byte c i = cache_byte (lu_cache u) i) as Hb.
  { intros i. rewrite (same_cache_byte ps (lu_cache u) c i (ch_conf _ _ _ _ Hk) eq_refl).
    etrans; [by eapply (keeps_byte ps)|done]. }
  split.
  - intros k lo hi. destruct (wrote_share l lo hi c r u Hr Hu) as [[W1 W2 W3 W4] Hx]; [apply Hk..|done|].
    split; [done..| |].
    + intros k' i _. destruct (decide (k' = l)) as [->|Hne]; [|by apply W3].
      simpl h_set. rewrite Hx, Hb. unfold unit_byte. by rewrite Hu.
    + intros i _ _. destruct (decide (k = l)) as [->|Hne]; [|by apply W3].
      simpl h_set. rewrite Hx, Hb. unfold unit_byte. by rewrite Hu.
  - intros o ->. rewrite (Ho o eq_refl). apply slice_of_ext. intros i _. unfold unit_byte. by rewrite Hu.
Qed.

Lemma write_unit l d off data r u :
  registry_ok r -> bt_get l r = Some u -> 0 <= off ->
  off + Z.of_nat (length data) <= live_size_bytes (writer (lu_cache u)) ->
  exists r' res n, at_cache (unit_at (l, d)) (write_bytes off data) r = (r', res) /\
    wrote l off (off + Z.of_nat (length data)) r r' /\
    (forall i, 0 <= i -> unit_byte r' l i = overlay off (take n data) (unit_byte r l) i) /\
    (res = Ok tt -> take n data = data).
Proof.
  intros Hr Hu H1 H2. pose proof (ro_unit _ Hr l u Hu) as [Hp [Hc Hs Hn]]. set (ps := page_of (lu_cache u)) in *.
  pose proof (volume_laws ps Hp) as HL. unfold at_cache, zoom. rewrite (unit_at_get l d r u Hu).
  destruct (write_bytes_spec ps (lu_cache u) off data Hc H1) as (c & res & n & -> & [K1 K2 K3] & Ho); [exact H2|].
  eexists _, _, n. split; [reflexivity|].
  assert (forall i, 0 <= i -> cache_byte c i = overlay off (take n data) (cache_byte (lu_cache u)) i) as Hb.
  { intros i Hi. rewrite (same_cache_byte ps (lu_cache u) c i K2 eq_refl). by apply K3. }
  destruct (wrote_share l off (off + Z.of_nat (length data)) c r u Hr Hu K1 K2) as [W Hx].
  { intros i Hi Hn'. rewrite Hb by done. apply overlay_out. rewrite length_take. lia. }
  split_and!; [done| |done]. intros i Hi. simpl h_set. rewrite Hx, Hb by done. apply overlay_ext. unfold unit_byte. by rewrite Hu.
Qed.

(** ** The slow path *)

(** A forward copy in turns is right: another unit, not onto a later part of
    itself, or in one turn. *)
Definition forward_safe (l l' chunk src_off dst_off len : Z) : Prop :=
  l <> l' \/ dst_off <= src_off \/ src_off + len <= dst_off \/ len <= chunk.

(** [n] bytes of [l] from [s] are at [d] of [l']. *)
Definition duplicates (l s l' d n : Z) (r r' : VolumeRegistry) : Prop :=
  forall i, d <= i < d + n -> unit_byte r' l' i = unit_byte r l (i - d + s).

Definition fits (l off len : Z) (r : VolumeRegistry) : Prop :=
  0 <= off /\ exists u, bt_get l r = Some u /\ off + len <= live_size_bytes (writer (lu_cache u)).

Lemma fits_later l off len r r' : fits l off len r -> units_later r r' -> fits l off len r'.
Proof.
  intros [Ho (u & Hu & Hl)] Hr. split; [done|]. destruct (units_later_get _ _ _ _ Hr Hu) as (u' & Hu' & _ & _ & Hc).
  exists u'. split; [done|]. pose proof (sc_size _ _ Hc) as Hz. simpl in Hz. lia.
Qed.

Lemma fits_sub l off len off' len' r : fits l off len r -> off <= off' -> off' + len' <= off + len -> fits l off' len' r.
Proof. intros [Ho (u & Hu & Hl)] ? ?. split; [lia|]. exists u. split; [done|lia]. Qed.

(** One turn. *)
Lemma copy_turn_spec l d l' d' s_cur d_cur n r :
  registry_ok r -> fits l s_cur (Z.of_nat n) r -> fits l' d_cur (Z.of_nat n) r ->
  exists r' res, (buf ← map_err map_read_error (at_cache (unit_at (l, d)) (read_bytes s_cur n));
      map_err map_write_error (at_cache (unit_at (l', d')) (write_bytes d_cur buf))) r = (r', res) /\
    wrote l' d_cur (d_cur + Z.of_nat n) r r' /\
    (res = Ok tt -> duplicates l s_cur l' d_cur (Z.of_nat n) r r').
Proof.
  intros Hr [H1 (u & Hu & H2)] [H3 (u' & Hu' & H4)]. rewrite run_bind. unfold map_err at 1.
  destruct (read_unit l d s_cur n r u Hr Hu H1 H2) as (r1 & res & -> & Hk & Ho).
  destruct res as [o|e]; [|by eexists _, _]. rewrite (Ho o eq_refl). clear Ho.
  destruct (units_later_get _ _ _ _ (wt_later _ _ _ _ _ (Hk l' d_cur d_cur)) Hu') as (v & Hv & _ & _ & Hc).
  unfold map_err. set (o' := slice_of _ _ _).
  destruct (write_unit l' d' d_cur o' r1 v (wt_ok _ _ _ _ _ (Hk l 0 0)) Hv H3) as (r2 & res & m & -> & W & Hb & Hm).
  { subst o'. rewrite slice_of_length. pose proof (sc_size _ _ Hc) as Hz. simpl in Hz. lia. }
  subst o'. rewrite slice_of_length in W.
  assert (wrote l' d_cur (d_cur + Z.of_nat n) r r2) as W2 by (eapply wrote_trans; [apply (Hk l' d_cur d_cur)|exact W|lia..]).
  destruct res as [[]|e]; [|by eexists _, _]. eexists _, _. split; [reflexivity|]. split; [done|]. intros _ i Hi.
  rewrite Hb by lia. rewrite (Hm eq_refl). unfold overlay. rewrite slice_of_length, bool_decide_eq_true_2 by lia.
  rewrite slice_of_lookup by lia. simpl. f_equal. lia.
Qed.

Lemma turn_source l l' chunk s_cur d_cur n len r r' i :
  wrote l' d_cur (d_cur + n) r r' -> forward_safe l l' chunk s_cur d_cur len -> n = Z.min len chunk -> 0 <= s_cur -> 0 <= n ->
  d_cur + n <= i < d_cur + len -> unit_byte r' l (i - d_cur + s_cur) = unit_byte r l (i - d_cur + s_cur).
Proof.
  intros [_ _ W3 W4] Hs -> Hz Hn Hi. destruct (decide (l = l')) as [->|Hne]; [|by apply W3].
  apply W4; [lia|]. destruct Hs as [|[|[|]]]; [done|lia..].
Qed.

Lemma copy_turns_spec fuel chunk l d l' d' s_cur d_cur len r :
  0 < chunk -> len <= Z.of_nat fuel * chunk -> registry_ok r -> fits l s_cur len r -> fits l' d_cur len r ->
  exists r' res, copy_turns fuel chunk (l, d) (l', d') s_cur d_cur len r = (r', res) /\
    wrote l' d_cur (d_cur + len) r r' /\
    (res = Ok tt -> forward_safe l l' chunk s_cur d_cur len -> duplicates l s_cur l' d_cur len r r').
Proof.
  intros Hch. revert s_cur d_cur len r. induction fuel as [|fuel IH]; intros s_cur d_cur len r Hf Hr Hs Hd.
  { eexists _, _. split; [reflexivity|]. split; [by apply wrote_refl|]. intros _ _ i Hi. lia. }
  cbn [copy_turns]. destruct (len <=? 0) eqn:El; [apply Z.leb_le in El|apply Z.leb_gt in El].
  { eexists _, _. split; [reflexivity|]. split; [by apply wrote_refl|]. intros _ _ i Hi. lia. }
  set (this := Z.min len chunk). assert (Z.of_nat (Z.to_nat this) = this) as Et by lia.
  destruct (copy_turn_spec l d l' d' s_cur d_cur (Z.to_nat this) r Hr) as (r1 & res & E & W & Hdup);
    [eapply fits_sub; [done|lia..]|eapply fits_sub; [done|lia..]|].
  rewrite Et in W, Hdup. rewrite run_bind in E |- *. cbn beta.
  destruct (map_err map_read_error _ r) as [ra [buf|ea]];
    [|injection E as <- <-; eexists _, _; split; [reflexivity|]; split; [|done]; eapply wrote_widen; [exact W|lia..]].
  rewrite run_bind, E. destruct res as [[]|e];
    [|eexists _, _; split; [reflexivity|]; split; [|done]; eapply wrote_widen; [exact W|lia..]].
  specialize (Hdup eq_refl). pose proof (wt_later _ _ _ _ _ W) as Hl.
  destruct (IH (s_cur + this) (d_cur + this) (len - this) r1) as (r2 & res & -> & W2 & Hdup2);
    [lia|apply W|eapply fits_later; [eapply fits_sub; [exact Hs|lia..]|done]|
     eapply fits_later; [eapply fits_sub; [exact Hd|lia..]|done]|].
  eexists _, _. split; [reflexivity|]. split; [eapply wrote_trans; [exact W|exact W2|lia..]|].
  intros -> Hsafe i Hi. destruct (decide (i < d_cur + this)) as [Hlt|Hge].
  - rewrite (wt_bytes _ _ _ _ _ W2) by (destruct Hd; lia). apply Hdup. lia.
  - rewrite (Hdup2 eq_refl) by (first [lia | destruct Hsafe as [|[|[|]]]; [by left|right; left; lia|right; right; left; lia|right; right; right; lia]]).
    replace (i - (d_cur + this) + (s_cur + this)) with (i - d_cur + s_cur) by lia.
    eapply turn_source; [exact W|exact Hsafe|done|apply Hs|lia|lia].
Qed.

Lemma stream_copy_spec chunk l d l' d' s_off d_off len r :
  0 < chunk -> 0 <= len -> registry_ok r -> fits l s_off len r -> fits l' d_off len r ->
  exists r' res, stream_copy chunk (l, d) (l', d') s_off d_off len r = (r', res) /\
    wrote l' d_off (d_off + len) r r' /\
    (res = Ok tt -> forward_safe l l' chunk s_off d_off len -> duplicates l s_off l' d_off len r r').
Proof.
  intros Hc Hn. apply copy_turns_spec; [done|]. pose proof (Z.div_mod len chunk ltac:(lia)).
  pose proof (Z.mod_pos_bound len chunk Hc). pose proof (Z.div_pos len chunk Hn Hc). nia.
Qed.

(** ** The fast path *)

Lemma moved_bytes ps (Hps : 0 < ps <= u32_max) r0 l d l' d' sb f r r' u u' :
  let L := unit_linked ps Hps r0 (l, d) (l', d') sb in
  moved ps (Linked0 := L) f r r' -> at_unit l' ps r u -> at_unit l' ps r' u' ->
  forall i, 0 <= i -> unit_byte r' l' i =
    default 0 (f (Z.to_nat (i / ps)) (@page_bytes _ ps (volume_model ps) (lu_cache u) (Z.to_nat (i / ps))) !! Z.to_nat (i mod ps)).
Proof.
  intros L [M1 M2 M3] [Hu Hp] [Hu' Hp'] i Hi.
  rewrite (unit_at_get l' d' r u Hu), (unit_at_get l' d' r' u' Hu') in M2.
  unfold unit_byte. rewrite Hu'. rewrite (same_cache_byte ps (lu_cache u) _ i (ch_conf _ _ _ _ M2) Hp).
  unfold byte_at. by rewrite (ch_bytes _ _ _ _ M2).
Qed.

Section fast.
Context (ps : Z) (Hps : 0 < ps <= u32_max) (l l' : Z) (d d' : PageCache VolumeWriter) (r : VolumeRegistry) (u u' : Lu).
Context (Hr : registry_ok r) (Hu : at_unit l ps r u) (Hu' : at_unit l' ps r u').

Let sb := one_backend r (l, d) (l', d').
#[local] Instance fast_linked : Linked ps (unit_at (l, d)) (unit_at (l', d')) (bool_decide (l = l')) sb :=
  unit_linked ps Hps r (l, d) (l', d') sb.

Lemma fast_start : linked ps r.
Proof.
  change (from r l l' ps sb r). split; [done|apply units_later_refl| |done]. exists u, u'. split_and!; [done..|].
  subst sb. unfold one_backend. simpl. destruct Hu as [-> _], Hu' as [-> _]. simpl.
  destruct (decide (lu_backend u = lu_backend u')) as [->|Hne]; [by rewrite !bool_decide_eq_true_2|].
  rewrite !bool_decide_eq_false_2; congruence.
Qed.

Lemma moved_wrote f q n r' :
  moved ps f r r' -> (forall p b, ~ (q <= p < q + n)%nat -> f p b = b) ->
  wrote l' (Z.of_nat q * ps) (Z.of_nat (q + n) * ps) r r'.
Proof.
  intros Hm Hf. pose proof (mv_linked _ _ _ _ Hm) as Hl. change (from r l l' ps sb r') in Hl.
  pose proof Hl as [F1 F2 (v & v' & _ & Hv' & _) F4]. split; [done..|]. intros i Hi Hn.
  rewrite (moved_bytes ps Hps r l d l' d' sb f r r' u' v' Hm Hu' Hv' i Hi). rewrite Hf.
  - unfold unit_byte. rewrite (proj1 Hu'). unfold cache_byte, volume_byte, byte_at.
    by rewrite <- (proj2 Hu').
  - intros Hp. apply Hn. pose proof (Z.div_mod i ps ltac:(lia)). pose proof (Z.mod_pos_bound i ps ltac:(lia)).
    pose proof (Z.div_pos i ps Hi ltac:(lia)). nia.
Qed.

Lemma moved_duplicates p q n r' :
  moved ps (copied p q n (@page_bytes _ ps (volume_model ps) (lu_cache u))) r r' ->
  duplicates l (Z.of_nat p * ps) l' (Z.of_nat q * ps) (Z.of_nat n * ps) r r'.
Proof.
  intros Hm i Hi. pose proof (mv_linked _ _ _ _ Hm) as Hl. change (from r l l' ps sb r') in Hl.
  pose proof Hl as [F1 F2 (v & v' & _ & Hv' & _) F4].
  rewrite (moved_bytes ps Hps r l d l' d' sb _ r r' u' v' Hm Hu' Hv' i) by nia. unfold copied.
  pose proof (Z.div_mod i ps ltac:(lia)). pose proof (Z.mod_pos_bound i ps ltac:(lia)).
  assert (Z.of_nat q <= i / ps < Z.of_nat q + Z.of_nat n) as Hq by nia.
  rewrite bool_decide_eq_true_2 by lia. unfold unit_byte. rewrite (proj1 Hu). unfold cache_byte, volume_byte, byte_at.
  change (page_size (manifest (writer (lu_cache u)))) with (page_of (lu_cache u)). rewrite (proj2 Hu).
  destruct (page_split ps (i - Z.of_nat q * ps + Z.of_nat p * ps) (i / ps - Z.of_nat q + Z.of_nat p) (i mod ps)) as [-> ->];
    [lia|lia|nia|]. do 3 f_equal. lia.
Qed.

Lemma clone_range_spec s_off d_off len :
  s_off mod ps = 0 -> d_off mod ps = 0 -> len mod ps = 0 -> 0 < len -> fits l s_off len r -> fits l' d_off len r ->
  (l = l' -> s_off + len <= d_off \/ d_off + len <= s_off) ->
  exists r' res, clone_page_range_into (unit_at (l, d)) (unit_at (l', d')) (bool_decide (l = l')) sb s_off d_off len r = (r', res) /\
    wrote l' d_off (d_off + len) r r' /\ (res = Ok tt -> duplicates l s_off l' d_off len r r').
Proof.
  intros Es Ed En Hlen [F1 (v & Hv & F2)] [G1 (v' & Hv' & G2)] Hap.
  assert (v = u) as -> by (destruct Hu; congruence). assert (v' = u') as -> by (destruct Hu'; congruence).
  assert (exists p q n, s_off = Z.of_nat p * ps /\ d_off = Z.of_nat q * ps /\ len = Z.of_nat n * ps) as (p & q & n & -> & -> & ->).
  { exists (Z.to_nat (s_off / ps)), (Z.to_nat (d_off / ps)), (Z.to_nat (len / ps)).
    apply Z.div_exact in Es, Ed, En; [|lia..].
    rewrite !Z2Nat.id by (apply Z.div_pos; lia). lia. }
  unfold clone_page_range_into. rewrite run_bind. cbn [get].
  rewrite (unit_at_get l d r u (proj1 Hu)), (unit_at_get l' d' r u' (proj1 Hu')).
  pose proof (ro_unit _ Hr _ _ (proj1 Hu)) as [_ [Hc _ _]]. pose proof (ro_unit _ Hr _ _ (proj1 Hu')) as [_ [Hc' _ _]].
  rewrite (proj2 Hu) in Hc. rewrite (proj2 Hu') in Hc'. rewrite (ck_page _ _ Hc), (ck_page _ _ Hc'), Z.eqb_refl. cbn [negb].
  rewrite (proj2 (Z.eqb_neq _ _)) by lia. rewrite !Z.div_mul by lia. rewrite Nat2Z.id, run_bind.
  assert (Z.of_nat p + Z.of_nat n <= u32_max + 1) as Hpn.
  { pose proof (volume_laws ps Hps) as HL. pose proof (st_size_fits _ (ck_store _ _ Hc)) as Hf. simpl in Hf.
    assert (Z.of_nat p + Z.of_nat n <= live_size_bytes (writer (lu_cache u)) / ps) by (apply Z.div_le_lower_bound; lia). lia. }
  destruct (clone_turns_spec ps Hps n r p q fast_start) as (r1 & res & -> & Hm).
  { rewrite (unit_at_get l' d' r u' (proj1 Hu')). lia. }
  { done. }
  { intros E%bool_decide_eq_true. destruct (Hap E); [left|right]; nia. }
  rewrite (unit_at_get l d r u (proj1 Hu)) in Hm.
  replace (Z.of_nat q * ps + Z.of_nat n * ps) with (Z.of_nat (q + n) * ps) by lia.
  destruct Hm as [[-> Hm]|[[e ->] (k & b & Hk & Hm)]].
  - pose proof (mv_linked _ _ _ _ Hm) as Hl1. pose proof (volume_laws ps Hps) as HL.
    unfold at_cache, zoom. destruct (bump_keeps ps add_host_written (Z.of_nat n * ps) _ (lk_dst ps r1 Hl1)) as (c2 & E & Hk2).
    unfold bump_host_bytes. rewrite E. eexists _, _. split; [reflexivity|].
    pose proof (moved_trans ps Hps _ _ _ _ _ Hm (moved_dst ps _ c2 r1 Hl1 Hk2)) as Hm2. cbn beta in Hm2.
    split; [|by intros _; apply moved_duplicates].
    eapply moved_wrote; [exact Hm2|]. intros p' b' Hn. unfold copied. by rewrite bool_decide_eq_false_2 by lia.
  - eexists _, _. split; [reflexivity|]. split; [|done]. eapply moved_wrote; [exact Hm|]. intros p' b' Hn. unfold put_page, copied.
    by rewrite !bool_decide_eq_false_2 by lia.
Qed.
End fast.
End proofs.
