(* ===== verification/XCopyPlan.v ===== *)
(** * Plans of EXTENDED COPY

    From the parameter list to the bytes: what a plan that passed its gates
    may touch, that a command changes no more, and that GOOD is the copy of
    its segments in order. *)

From S2P Require Import Prelude Bytes BTreeMap Pr Reservations ReservationManager ReservationRender PageIndex UploadIndex BlockLru PoolBudget StateError PageLru Crypto VolumeWriter VolumeProofs VolumeHistory PageCache PageCacheProofs CacheBytes CacheHistory VolumeCache PageClone SbcData SbcProofs SbcHistory XCopy XCopyProofs.

Local Open Scope Z_scope.

(** ** What a plan says *)

Notation sector_of c := (sector_bytes (manifest (writer c))).

(** Byte [i] of the unit [k] is in the segment's destination. *)
Definition seg_writes (targets : list TargetHandle) (k i : Z) (seg : PlannedSegment) : Prop :=
  exists dst : TargetHandle, targets !! dst_idx seg = Some dst /\ k = dst.1 /\
    dst_lba seg * sector_of dst.2 <= i < (dst_lba seg + seg_blocks seg) * sector_of dst.2.

(** The copy a segment asks for. *)
Definition seg_mem (targets : list TargetHandle) (mem : Z -> Z -> Z) (seg : PlannedSegment) : Z -> Z -> Z :=
  match (targets !! src_idx seg : option TargetHandle), (targets !! dst_idx seg : option TargetHandle) with
  | Some src, Some dst => fun k i =>
      let d_off := dst_lba seg * sector_of dst.2 in
      if bool_decide (k = dst.1 /\ d_off <= i < d_off + seg_blocks seg * sector_of dst.2)
      then mem src.1 (i - d_off + src_lba seg * sector_of src.2) else mem k i
  | _, _ => mem
  end.

Definition plan_mem (targets : list TargetHandle) (planned : list PlannedSegment) (mem : Z -> Z -> Z) : Z -> Z -> Z :=
  foldl (seg_mem targets) mem planned.

(** Not onto a later part of itself in several turns. *)
Definition seg_safe (targets : list TargetHandle) (seg : PlannedSegment) : Prop :=
  forall src dst : TargetHandle, targets !! src_idx seg = Some src -> targets !! dst_idx seg = Some dst ->
    forward_safe src.1 dst.1 CHUNK (src_lba seg * sector_of src.2) (dst_lba seg * sector_of dst.2)
      (seg_blocks seg * sector_of src.2).

(** The target is a unit of the registry the session is admitted to. *)
Definition target_ok (r : VolumeRegistry) (session : option (list (list Z))) (t : TargetHandle) : Prop :=
  (exists u, bt_get t.1 r = Some u /\ t.2 = lu_cache u) /\ lun_admitted r session t.1 = true.

Definition in_unit (c : PageCache VolumeWriter) (lba blocks : Z) : Prop :=
  (lba + blocks) * sector_of c <= live_size_bytes (writer c).

(** What the gates let through. *)
Record seg_gated (r : VolumeRegistry) (session : option (list (list Z))) (reservations : ReservationManager)
    (nexus : RegistrantId) (seg : PlannedSegment) (src dst : TargetHandle) : Prop := {
  sg_src : target_ok r session src;
  sg_dst : target_ok r session dst;
  sg_worm : worm (manifest (writer dst.2)) = false;
  sg_write : allow_write reservations dst.1 nexus = true;
  sg_read : allow_read reservations src.1 nexus = true;
  sg_nonneg : 0 <= src_lba seg /\ 0 <= dst_lba seg /\ 0 <= seg_blocks seg;
  sg_range : seg_blocks seg <> 0 ->
    in_unit src.2 (src_lba seg) (seg_blocks seg) /\ in_unit dst.2 (dst_lba seg) (seg_blocks seg);
}.

Definition seg_ok r session reservations nexus (targets : list TargetHandle) (seg : PlannedSegment) : Prop :=
  exists src dst : TargetHandle, targets !! src_idx seg = Some src /\ targets !! dst_idx seg = Some dst /\
    seg_gated r session reservations nexus seg src dst.

Section plan.
Context `{VolumeCryptoLaws}.

(** ** From the parameter list *)

Lemma naa_index_ok r session ls index :
  map_Forall (fun _ t => target_ok r session t) index ->
  map_Forall (fun _ t => target_ok r session t) (foldl (naa_insert r session) index ls).
Proof.
  revert index. induction ls as [|l ls IH]; intros index Hi; [done|]. simpl. apply IH. unfold naa_insert.
  destruct (lun_admitted r session l) eqn:Ea; [|done]. simpl. destruct (bt_get l r) as [u|] eqn:Eu; [|done].
  apply map_Forall_insert_2; [|done]. split; [|done]. by exists u.
Qed.

Lemma resolve_targets_ok r session index plist n off ts :
  map_Forall (fun _ t => target_ok r session t) index ->
  resolve_targets index plist n off = Ok ts -> Forall (target_ok r session) ts.
Proof.
  intros Hi. revert off ts. induction n as [|n IH]; intros off ts; simpl; [by intros [= <-]|].
  destruct (resolve_target_descriptor index (sl off 32 plist)) as [t|] eqn:Et; [|done].
  destruct (resolve_targets index plist n (off + 32)) as [ts'|] eqn:E; [|done]. intros [= <-].
  constructor; [|by eapply IH]. unfold resolve_target_descriptor in Et. repeat case_match; try done.
  injection Et as <-. by eapply Hi.
Qed.

(** Fields of the descriptors are unsigned. *)
Definition seg_shape (n : nat) (seg : PlannedSegment) : Prop :=
  (src_idx seg < n)%nat /\ (dst_idx seg < n)%nat /\ 0 <= src_lba seg /\ 0 <= dst_lba seg /\ 0 <= seg_blocks seg.

Lemma plan_segments_ok fuel n sd planned :
  bytes_ok sd -> plan_segments fuel n sd = Ok planned -> Forall (seg_shape n) planned.
Proof.
  revert sd planned. induction fuel as [|fuel IH]; intros sd planned Hb; cbn [plan_segments]; [by intros [= <-]|].
  case_bool_decide; [by intros [= <-]|]. case_bool_decide; [done|]. cbv zeta.
  destruct (_ <? _); [done|]. destruct (negb _ || negb _); [done|].
  destruct (bool_decide (n <= src_idx _)%nat || _) eqn:Ei; [done|].
  destruct (plan_segments fuel n _) as [rest|] eqn:Er; [|done]. intros [= <-].
  constructor; [|eapply IH; [|exact Er]; by apply Forall_drop].
  apply orb_false_iff in Ei as [E1%bool_decide_eq_false E2%bool_decide_eq_false].
  assert (forall a k, 0 <= be_val (sl a k sd)) as Hv.
  { intros a k. apply be_val_range. unfold sl. by apply Forall_take, Forall_drop. }
  split_and!; [lia|lia|apply Hv..].
Qed.

Lemma validated c lba blocks :
  0 < sector_of c -> validate_in_range (mkRange lba blocks) (sizing_from c) = Ok tt -> in_unit c lba blocks.
Proof.
  intros Hs. unfold validate_in_range, checked_add64. simpl. destruct (_ <=? _); [|done].
  destruct (_ <? _) eqn:E; [done|]. intros _. apply Z.ltb_ge in E. unfold in_unit.
  pose proof (Z.mul_div_le (live_size_bytes (writer c)) (sector_of c) Hs). nia.
Qed.

Lemma gate_segments_ok r session reservations nexus targets planned :
  registry_ok r -> Forall (target_ok r session) targets -> Forall (seg_shape (length targets)) planned ->
  gate_segments reservations nexus targets planned = Ok tt ->
  Forall (seg_ok r session reservations nexus targets) planned.
Proof.
  intros Hr Ht. induction planned as [|seg planned IH]; intros Hs Hg; [done|].
  apply Forall_cons in Hs as [(S1 & S2 & S3) Hs]. simpl in Hg.
  destruct (lookup_lt_is_Some_2 targets (src_idx seg) S1) as [src Es], (lookup_lt_is_Some_2 targets (dst_idx seg) S2) as [dst Ed].
  rewrite Es, Ed in Hg. destruct (gate_segment _ _ src dst seg) as [[]|] eqn:Eg; [|done].
  constructor; [|by apply IH]. exists src, dst. split_and!; [done..|].
  pose proof (proj1 (Forall_lookup _ _) Ht _ _ Es) as Hts. pose proof (proj1 (Forall_lookup _ _) Ht _ _ Ed) as Htd.
  assert (forall t, target_ok r session t -> 0 < sector_of t.2) as Hpos.
  { intros t [(u & Hu & ->) _]. apply (ro_unit _ Hr _ _ Hu). }
  unfold gate_segment in Eg. destruct (worm _) eqn:E1; [done|]. destruct (allow_write _ _ _) eqn:E2; [|done].
  destruct (allow_read _ _ _) eqn:E3; [|done]. simpl in Eg. split; try done. intros Hb.
  rewrite (proj2 (Z.eqb_neq _ _) Hb) in Eg.
  destruct (validate_in_range (mkRange (src_lba seg) _) _) as [[]|] eqn:V1; [|done].
  destruct (validate_in_range (mkRange (dst_lba seg) _) _) as [[]|] eqn:V2; [|done].
  split; (apply validated; [by apply Hpos|done]).
Qed.

(** A plan from either form of the parameter list. *)
Definition plan_for (lid4 : bool) : VolumeRegistry -> ScsiRequest -> RegistrantId -> ReservationManager ->
    result Plan ExtendedCopyParseError :=
  if lid4 then parse_extended_copy_lid4 else parse_extended_copy.

Lemma plan_lists_ok plist hdr a b n r req nexus reservations targets planned :
  registry_ok r -> bytes_ok plist -> plan_lists plist hdr a b n r req nexus reservations = Ok (targets, planned) ->
  Forall (seg_ok r (session_volumes req) reservations nexus targets) planned.
Proof.
  intros Hr Hb. unfold plan_lists. do 3 (case_match; [done|]). unfold resolve_targets_and_plan.
  do 2 (case_match; [done|]). set (index := build_naa_index _ _).
  destruct (resolve_targets index _ _ _) as [ts|] eqn:Et; [|done]. simpl.
  destruct (plan_segments _ _ _) as [segs|] eqn:Es; [|done]. simpl.
  destruct (gate_segments _ _ _ _) as [[]|] eqn:Eg; [|done]. intros [= -> ->].
  eapply gate_segments_ok; try done.
  - eapply resolve_targets_ok; [|exact Et]. apply naa_index_ok. apply map_Forall_empty.
  - eapply plan_segments_ok; [|exact Es]. unfold sl. by apply Forall_take, Forall_drop.
Qed.

Lemma plan_ok lid4 r req nexus reservations targets planned :
  registry_ok r -> req_ok req -> plan_for lid4 r req nexus reservations = Ok (targets, planned) ->
  Forall (seg_ok r (session_volumes req) reservations nexus targets) planned.
Proof.
  intros Hr Hq. pose proof (Forall_take _ (Z.to_nat (be_val (sl 10 4 (cdb req)))) _ (rq_data _ Hq)) as Hb.
  destruct lid4; simpl; unfold parse_extended_copy, parse_extended_copy_lid4; repeat (case_match; [done|]);
    by apply plan_lists_ok.
Qed.

(** ** Execution *)

Lemma execute_segment_spec l d l' d' s_lba d_lba n r u u' :
  registry_ok r -> bt_get l r = Some u -> bt_get l' r = Some u' -> 0 <= s_lba -> 0 <= d_lba -> 0 < n ->
  in_unit (lu_cache u) s_lba n -> in_unit (lu_cache u') d_lba n ->
  let s_off := s_lba * sector_of (lu_cache u) in
  let d_off := d_lba * sector_of (lu_cache u') in
  exists r' res, execute_segment (l, d) s_lba (l', d') d_lba n r = (r', res) /\
    wrote l' d_off (d_off + n * sector_of (lu_cache u')) r r' /\
    (forall fast, res = Ok fast -> sector_of (lu_cache u) = sector_of (lu_cache u') /\
      (forward_safe l l' CHUNK s_off d_off (n * sector_of (lu_cache u)) ->
       duplicates l s_off l' d_off (n * sector_of (lu_cache u)) r r')).
Proof.
  intros Hr Hu Hu' Hs Hd Hn Hin Hin' s_off d_off. unfold execute_segment. rewrite run_bind. cbn [get].
  rewrite (unit_at_get l d r u Hu), (unit_at_get l' d' r u' Hu'). cbn [sizing_from sector fst].
  destruct (ro_unit _ Hr _ _ Hu) as [Hp [Hc _ Hz]], (ro_unit _ Hr _ _ Hu') as [Hp' [Hc' _ Hz']].
  destruct (sector_of (lu_cache u) =? sector_of (lu_cache u')) eqn:Esec; cbn [negb].
  2: { eexists _, _. split; [reflexivity|]. split; [by apply wrote_refl|done]. }
  apply Z.eqb_eq in Esec. unfold in_unit in *. rewrite <- Esec in Hin', Hz' |- *. subst s_off d_off. rewrite <- Esec.
  set (sec := sector_of (lu_cache u)) in *.
  assert (fits l (s_lba * sec) (n * sec) r) as Hf by (split; [nia|]; exists u; split; [done|lia]).
  assert (fits l' (d_lba * sec) (n * sec) r) as Hf' by (split; [nia|]; exists u'; split; [done|lia]).
  match goal with |- context [if ?b then _ else _] => destruct b eqn:Eb end.
  - apply andb_true_iff in Eb as [Ea Eo]. rewrite !andb_true_iff, !Z.eqb_eq in Ea. destruct Ea as (((A1 & A2) & A3) & A4).
    rewrite (ck_page _ _ Hc), (ck_page _ _ Hc') in A1. rewrite (ck_page _ _ Hc) in A2, A3, A4.
    set (ps := page_of (lu_cache u)) in *.
    destruct (clone_range_spec ps Hp l l' d d' r u u' Hr ltac:(by split) ltac:(by split) (s_lba * sec) (d_lba * sec) (n * sec))
      as (r' & res & E & W & Hdup); try done; [nia| |].
    { intros El. rewrite (bool_decide_eq_true_2 _ El) in Eo. unfold ranges_overlap in Eo. simpl in Eo.
      apply negb_true_iff, andb_false_iff in Eo. rewrite !Z.ltb_ge in Eo. lia. }
    rewrite run_bind. unfold map_err. rewrite E. destruct res as [[]|e]; eexists _, _; (split; [reflexivity|]); split; try done.
    intros fast _. split; [done|]. intros _. by apply Hdup.
  - destruct (stream_copy_spec CHUNK l d l' d' (s_lba * sec) (d_lba * sec) (n * sec) r) as (r' & res & E & W & Hdup);
      try done; [nia|]. rewrite run_bind, E.
    destruct res as [[]|e]; eexists _, _; (split; [reflexivity|]); split; try done.
    intros fast _. split; [done|]. by apply Hdup.
Qed.

(** A unit a target names, later. *)
Lemma target_later r0 r session l c :
  target_ok r0 session (l, c) -> units_later r0 r ->
  exists u, bt_get l r = Some u /\ manifest (writer (lu_cache u)) = manifest (writer c) /\
    live_size_bytes (writer (lu_cache u)) = live_size_bytes (writer c).
Proof.
  intros [(u & Hu & E) _] Hl. simpl in *. subst c. destruct (units_later_get _ _ _ _ Hl Hu) as (u' & Hu' & Hx).
  exists u'. split_and!; [done|by apply later_manifest|]. destruct Hx as (_ & _ & Hc). apply (sc_size _ _ Hc).
Qed.

Lemma seg_mem_ext targets seg m m' k i :
  seg_shape (length targets) seg -> (forall src : TargetHandle, targets !! src_idx seg = Some src -> 0 <= sector_of src.2) ->
  (forall k i, 0 <= i -> m k i = m' k i) -> 0 <= i -> seg_mem targets m seg k i = seg_mem targets m' seg k i.
Proof.
  intros (_ & _ & Hs & Hd & _) Hp Hm Hi. unfold seg_mem. destruct (targets !! src_idx seg) as [src|] eqn:E; [|by apply Hm].
  destruct (targets !! dst_idx seg) as [dst|]; [|by apply Hm]. cbv zeta. case_bool_decide as Hb; [|by apply Hm].
  apply Hm. pose proof (Hp src eq_refl). nia.
Qed.

(** What is left of a segment. *)
Lemma segment_result r0 session reservations nexus (targets : list TargetHandle) seg (src dst : TargetHandle) r :
  registry_ok r -> units_later r0 r -> seg_blocks seg <> 0 ->
  targets !! src_idx seg = Some src -> targets !! dst_idx seg = Some dst ->
  seg_gated r0 session reservations nexus seg src dst ->
  exists r' res, execute_segment src (src_lba seg) dst (dst_lba seg) (seg_blocks seg) r = (r', res) /\
    registry_ok r' /\ units_later r r' /\
    (forall k i, 0 <= i -> unit_byte r' k i <> unit_byte r k i -> seg_writes targets k i seg) /\
    (forall fast, res = Ok fast -> seg_safe targets seg ->
      forall k i, 0 <= i -> unit_byte r' k i = seg_mem targets (unit_byte r) seg k i).
Proof.
  intros Hr Hl Hb Es Ed [G1 G2 _ _ _ (N1 & N2 & N3) G7]. destruct (G7 Hb) as [I1 I2]. destruct src as [l c], dst as [l' c'].
  destruct (target_later _ _ _ _ _ G1 Hl) as (u & Hu & Em & Ez), (target_later _ _ _ _ _ G2 Hl) as (u' & Hu' & Em' & Ez').
  unfold in_unit in *. simpl in I1, I2. rewrite <- Em, <- Ez in I1. rewrite <- Em', <- Ez' in I2.
  destruct (execute_segment_spec l c l' c' (src_lba seg) (dst_lba seg) (seg_blocks seg) r u u' Hr Hu Hu' N1 N2 ltac:(lia) I1 I2)
    as (r' & res & E & [W1 W2 W3 W4] & Hok). rewrite Em, Em' in *.
  exists r', res. split_and!; [done..| |].
  - intros k i Hi Hne. exists (l', c'). split; [done|]. destruct (decide (k = l')) as [->|Hk]; [|by destruct Hne; apply W3].
    split; [done|]. simpl. destruct (decide (dst_lba seg * sector_of c' <= i < (dst_lba seg + seg_blocks seg) * sector_of c')); [done|].
    destruct Hne. apply W4; [done|lia].
  - intros fast Hf Hsafe k i Hi. destruct (Hok fast Hf) as [Esec Hdup]. specialize (Hsafe _ _ Es Ed). simpl in Hsafe.
    specialize (Hdup Hsafe). unfold seg_mem.
    rewrite Es, Ed. simpl. case_bool_decide as Hin.
    + destruct Hin as [-> Hin]. rewrite Hdup by lia. done.
    + destruct (decide (k = l')) as [->|Hk]; [|by apply W3]. apply W4; [done|]. intros ?. by apply Hin.
Qed.

(** What a command leaves of the plan. *)
Record executed (targets : list TargetHandle) (planned : list PlannedSegment) (r r' : VolumeRegistry)
    (res : result ScsiResponse ScsiResponse) : Prop := {
  ex_ok : registry_ok r';
  ex_later : units_later r r';
  ex_bytes k i : 0 <= i -> unit_byte r' k i <> unit_byte r k i -> Exists (seg_writes targets k i) planned;
  ex_good x : res = Ok x -> Forall (seg_safe targets) planned ->
    forall k i, 0 <= i -> unit_byte r' k i = plan_mem targets planned (unit_byte r) k i;
  ex_err x : res = Err x -> status x <> Good;
}.

Lemma plan_mem_ext targets planned m m' k i :
  Forall (fun seg => seg_shape (length targets) seg /\
    forall src : TargetHandle, targets !! src_idx seg = Some src -> 0 <= sector_of src.2) planned ->
  (forall k i, 0 <= i -> m k i = m' k i) -> 0 <= i -> plan_mem targets planned m k i = plan_mem targets planned m' k i.
Proof.
  intros Hs. revert m m'. induction Hs as [|seg planned [H1 H2] _ IH]; intros m m' Hm Hi; [by apply Hm|]. simpl.
  apply IH; [|done]. intros k' i' Hi'. by apply seg_mem_ext.
Qed.

Lemma gated_shape r session reservations nexus targets seg :
  registry_ok r -> seg_ok r session reservations nexus targets seg ->
  seg_shape (length targets) seg /\ forall src : TargetHandle, targets !! src_idx seg = Some src -> 0 <= sector_of src.2.
Proof.
  intros Hr (src & dst & Es & Ed & [G1 _ _ _ _ N _]). split.
  - split_and!; [by eapply lookup_lt_Some|by eapply lookup_lt_Some|apply N..].
  - intros src' E. assert (src' = src) as -> by congruence. destruct G1 as [(u & Hu & ->) _].
    pose proof (u_pos _ _ (proj2 (ro_unit _ Hr _ _ Hu))). lia.
Qed.

Lemma execute_plan_spec r0 session reservations nexus targets planned r :
  registry_ok r0 -> registry_ok r -> units_later r0 r -> Forall (seg_ok r0 session reservations nexus targets) planned ->
  exists r' res, extended_copy_execute targets planned r = (r', res) /\ executed targets planned r r' res.
Proof.
  intros Hr0. revert r. induction planned as [|seg planned IH]; intros r Hr Hl Hp.
  { eexists _, _. split; [reflexivity|]. split; try done. apply units_later_refl. }
  apply Forall_cons in Hp as [Hg Hp]. pose proof Hg as (src & dst & Es & Ed & Hgate). cbn [extended_copy_execute].
  destruct (seg_blocks seg =? 0) eqn:Eb; [apply Z.eqb_eq in Eb|apply Z.eqb_neq in Eb].
  { destruct (IH r Hr Hl Hp) as (r' & res & -> & [X1 X2 X3 X4 X5]). eexists _, _. split; [reflexivity|].
    split; [done..| | |done].
    - intros k i Hi Hne. apply Exists_cons. right. by apply X3.
    - intros x Hx Hs k i Hi. apply Forall_cons in Hs as [_ Hs]. rewrite (X4 x Hx Hs k i Hi). simpl.
      apply plan_mem_ext; [eapply Forall_impl; [exact Hp|]; intros ?; by apply gated_shape| |done].
      intros k' i' Hi'. unfold seg_mem. rewrite Es, Ed. cbv zeta. rewrite bool_decide_eq_false_2; [done|]. lia. }
  rewrite Es, Ed, run_bind. unfold map_err.
  destruct (segment_result r0 session reservations nexus targets seg src dst r Hr Hl Eb Es Ed Hgate)
    as (r1 & res & -> & S1 & S2 & S3 & S4).
  destruct res as [fast|e].
  2: { eexists _, _. split; [reflexivity|]. split; try done; [|by intros x [= <-]].
       intros k i Hi Hne. apply Exists_cons. left. by apply S3. }
  destruct (IH r1 S1 ltac:(by eapply units_later_trans) Hp) as (r' & res & -> & [X1 X2 X3 X4 X5]).
  eexists _, _. split; [reflexivity|]. split; [done|by eapply units_later_trans| | |done].
  - intros k i Hi Hne. apply Exists_cons. destruct (decide (unit_byte r1 k i = unit_byte r k i)) as [E|E].
    + right. apply X3; [done|]. by rewrite E.
    + left. by apply S3.
  - intros x Hx Hs k i Hi. apply Forall_cons in Hs as [Hs1 Hs]. rewrite (X4 x Hx Hs k i Hi). simpl.
    apply plan_mem_ext; [eapply Forall_impl; [exact Hp|]; intros ?; by apply gated_shape| |done].
    intros k' i' Hi'. by eapply S4.
Qed.
End plan.
