(* ===== verification/XCopyHistory.v ===== *)
(** * The copy manager under its initiators

    Histories of a daemon's units: block commands and background activity on
    each, and copies between them.  What a copy may touch, that GOOD is the
    copy asked for, and the copy that repeats itself. *)

From S2P Require Import Prelude Bytes BTreeMap Pr Reservations ReservationManager ReservationRender PageIndex UploadIndex BlockLru PoolBudget StateError PageLru Crypto VolumeWriter VolumeProofs VolumeHistory PageCache PageCacheProofs CacheBytes CacheHistory VolumeCache PageClone SbcData SbcProofs SbcHistory XCopy XCopyProofs XCopyPlan.

Local Open Scope Z_scope.

Inductive RegistryEvent : Type :=
  | RUnit (l : Z) (ev : UnitEvent)
  | RCopy (lid4 : bool) (reservations : ReservationManager) (req : ScsiRequest).

Section history.
Context `{VolumeCryptoLaws}.

Definition extended_copy_of (lid4 : bool) (reservations : ReservationManager) (req : ScsiRequest) :
    EM VolumeRegistry ScsiResponse ScsiResponse :=
  (if lid4 then extended_copy_lid4 else extended_copy_lid1) reservations req (nexus_from_request req).

Definition registry_event (ev : RegistryEvent) (r : VolumeRegistry) : VolumeRegistry :=
  match ev with
  | RUnit l ev =>
      match bt_get l r with Some u => share l (unit_event ev (lu_cache u)) r | None => r end
  | RCopy lid4 reservations req => (extended_copy_of lid4 reservations req r).1
  end.

Definition run_registry (evs : list RegistryEvent) (r : VolumeRegistry) : VolumeRegistry :=
  foldl (fun r ev => registry_event ev r) r evs.

(** A unit event must suit the page size of its volume, which never
    changes. *)
Definition registry_event_ok (r : VolumeRegistry) (ev : RegistryEvent) : Prop :=
  match ev with
  | RUnit l ev => forall u, bt_get l r = Some u -> unit_event_ok (manifest (writer (lu_cache u))) ev
  | RCopy _ _ req => req_ok req
  end.

(** Volumes just made, under keys each identity names one of. *)
Record fresh_registry (r : VolumeRegistry) : Prop := {
  fresh_unit l u : bt_get l r = Some u ->
    exists m key b e w0 rt budget n, manifest_ok m /\ 0 < sector_bytes m /\
      new_volume m key b e = Some w0 /\ lu_cache u = new_cache m w0 rt budget n;
  fresh_keys l l' u u' : bt_get l r = Some u -> bt_get l' r = Some u' ->
    let w := writer (lu_cache u) in
    let w' := writer (lu_cache u') in
    encrypted (manifest w) = true -> encrypted (manifest w') = true ->
    dek_uuid (manifest w) = dek_uuid (manifest w') -> encryption_key w = encryption_key w';
}.

Definition manifest_at (r : VolumeRegistry) (l : Z) : option Manifest :=
  (fun u => manifest (writer (lu_cache u))) <$> bt_get l r.

Lemma new_volume_backend m key b e w : new_volume m key b e = Some w -> backend w = ∅.
Proof.
  unfold new_volume, open_inner. destruct (PageIndex.create _ _ _); [|done]. destruct (_ && _); [done|].
  destruct (PageIndex.open _ _ _); [|done]. by intros [= <-].
Qed.

Lemma fresh_ok r : fresh_registry r -> registry_ok r.
Proof.
  intros [Hf Hk]. split.
  - intros l u Hu. destruct (Hf l u Hu) as (m & key & b & e & w0 & rt & budget & n & Hm & Hs & Hn & ->).
    pose proof (new_unit m key b e w0 rt budget n Hm Hn) as Hun. pose proof Hun as (_ & _ & Em).
    unfold unit_good, page_of. rewrite Em. split; [apply Hm|]. by apply unit_of_ok.
  - intros l l' u u' Hu Hu'. split; [|by eapply Hk].
    destruct (Hf l u Hu) as (m & key & b & e & w0 & rt & budget & n & _ & _ & Hn & ->).
    destruct (Hf l' u' Hu') as (m' & key' & b' & e' & w0' & rt' & budget' & n' & _ & _ & Hn' & ->).
    intros _. simpl. by rewrite (new_volume_backend _ _ _ _ _ Hn), (new_volume_backend _ _ _ _ _ Hn').
Qed.

Lemma good_unit_of c : unit_good c -> unit_of (manifest (writer c)) c.
Proof. intros [Hp [H1 H2 H3]]. by split_and!. Qed.

Lemma unit_of_good m c : 0 < page_size m <= u32_max -> 0 < sector_bytes m -> unit_of m c -> unit_good c.
Proof. intros Hp Hs Hu. pose proof Hu as (_ & _ & <-). split; [done|]. by apply unit_of_ok. Qed.

Lemma share_manifest l c r u :
  bt_get l r = Some u -> registry_ok r -> unit_good c -> volume_le (writer (lu_cache u)) (writer c) ->
  forall k, manifest_at (share l c r) k = manifest_at r k.
Proof.
  intros Hu Hr Hc Hl k. destruct (share_ok l c r u Hr Hu Hc Hl) as (_ & S2 & S3). unfold manifest_at.
  destruct (decide (k = l)) as [->|Hk]; [rewrite S2, Hu; simpl; by rewrite (le_manifest _ _ Hl)|].
  destruct (bt_get k r) as [v|] eqn:E.
  - destruct (S3 k v Hk E) as (v' & -> & Hv & _). simpl. by rewrite (later_manifest _ _ Hv).
  - by rewrite (share_get _ _ _ _ u Hu), E.
Qed.

Lemma copy_spec lid4 reservations req r :
  registry_ok r -> req_ok req ->
  exists r' res, extended_copy_of lid4 reservations req r = (r', res) /\
  match plan_for lid4 r req (nexus_from_request req) reservations with
  | Err Noop => r' = r /\ res = Ok (good [])
  | Err _ => r' = r /\ exists x, res = Err x /\ status x <> Good
  | Ok (targets, planned) => executed targets planned r r' res /\
      Forall (seg_ok r (session_volumes req) reservations (nexus_from_request req) targets) planned
  end.
Proof.
  intros Hr Hq. pose proof (plan_ok lid4 r req (nexus_from_request req) reservations) as Hp.
  assert (extended_copy_of lid4 reservations req r = run_plan (plan_for lid4 r req (nexus_from_request req) reservations) r) as ->
    by (by destruct lid4).
  destruct (plan_for _ _ _ _ _) as [[targets planned]|err]; simpl.
  - specialize (Hp targets planned Hr Hq eq_refl).
    destruct (execute_plan_spec r _ _ _ targets planned r Hr Hr (units_later_refl r) Hp) as (r' & res & -> & He). eauto 6.
  - destruct err; eexists _, _; (split; [reflexivity|]); eauto.
Qed.

Lemma later_manifest_at r r' l : units_later r r' -> manifest_at r' l = manifest_at r l.
Proof.
  intros Hl. specialize (Hl l). unfold manifest_at. destruct (bt_get l r), (bt_get l r'); try done. simpl.
  by rewrite (later_manifest _ _ Hl).
Qed.

Lemma registry_step ev r :
  registry_ok r -> registry_event_ok r ev ->
  registry_ok (registry_event ev r) /\ forall l, manifest_at (registry_event ev r) l = manifest_at r l.
Proof.
  intros Hr Hev. destruct ev as [l ev|lid4 reservations req]; simpl in *.
  - destruct (bt_get l r) as [u|] eqn:Hu; [|done]. pose proof (ro_unit _ Hr l u Hu) as Hg.
    destruct (unit_moves _ ev _ (proj1 Hg) (u_pos _ _ (proj2 Hg)) (good_unit_of _ Hg) (Hev u eq_refl)) as [Hm Hle].
    pose proof (unit_of_good _ _ (proj1 Hg) (u_pos _ _ (proj2 Hg)) Hm) as Hg'.
    split; [by apply (share_ok l _ r u)|by apply (share_manifest l _ r u)].
  - destruct (copy_spec lid4 reservations req r Hr Hev) as (r' & res & -> & Hc). simpl.
    destruct (plan_for _ _ _ _ _) as [[targets planned]|[]]; [|by destruct Hc as [-> _]..].
    destruct Hc as [[X1 X2 _ _ _] _]. split; [done|]. intros l. by apply later_manifest_at.
Qed.

Lemma event_ok_manifests r r' ev :
  (forall l, manifest_at r' l = manifest_at r l) -> registry_event_ok r ev -> registry_event_ok r' ev.
Proof.
  intros Hm. destruct ev as [l ev|]; [|done]. simpl. intros Hev u' Hu'. specialize (Hm l). unfold manifest_at in Hm.
  rewrite Hu' in Hm. destruct (bt_get l r) as [u|]; [|done]. simpl in Hm. injection Hm as ->. by apply Hev.
Qed.

Lemma run_registry_ok evs r :
  registry_ok r -> Forall (registry_event_ok r) evs -> registry_ok (run_registry evs r).
Proof.
  revert r. induction evs as [|ev evs IH]; intros r Hr Hev; [done|]. apply Forall_cons in Hev as [He Hev].
  destruct (registry_step ev r Hr He) as [Hr' Hm]. simpl. apply IH; [done|].
  eapply Forall_impl; [exact Hev|]. intros ev'. by apply event_ok_manifests.
Qed.

(** ** Theorems *)

Definition answer_of (res : result ScsiResponse ScsiResponse) : ScsiResponse :=
  match res with Ok x | Err x => x end.

(** a copy touches only what its initiator may.  Whatever the parameter
    list, a byte of any unit that EXTENDED COPY changes is in the
    destination of a segment, of a volume the session is admitted to that is
    not write-protected and that the reservations let the initiator write;
    the segment's source is a volume the session is admitted to and may read,
    and both ranges are inside their volumes. *)
Theorem copies_are_gated r0 evs lid4 reservations req :
  fresh_registry r0 -> Forall (registry_event_ok r0) evs -> req_ok req ->
  let r := run_registry evs r0 in
  let r' := (extended_copy_of lid4 reservations req r).1 in
  forall k i, 0 <= i -> unit_byte r' k i <> unit_byte r k i ->
  exists seg src dst, k = dst.1 /\
    dst_lba seg * sector_of dst.2 <= i < (dst_lba seg + seg_blocks seg) * sector_of dst.2 /\
    seg_gated r (session_volumes req) reservations (nexus_from_request req) seg src dst.
Proof.
  intros Hf Hev Hq r r' k i Hi Hne. pose proof (run_registry_ok evs r0 (fresh_ok _ Hf) Hev) as Hr. fold r in Hr.
  subst r'. destruct (copy_spec lid4 reservations req r Hr Hq) as (r' & res & E & Hc). rewrite E in Hne. simpl in Hne.
  destruct (plan_for _ _ _ _ _) as [[targets planned]|[]]; [|by destruct Hc as [-> _]..].
  destruct Hc as [[_ _ X3 _ _] Hp]. apply X3, Exists_exists in Hne as (seg & Hin & dst & Hd & -> & Hb); [|done].
  destruct (proj1 (Forall_forall _ _) Hp seg Hin) as (src & dst' & _ & Hd' & Hg).
  assert (dst' = dst) as -> by congruence. by exists seg, src, dst.
Qed.

(** C8: GOOD is the copy asked for.  When EXTENDED COPY answers GOOD, the
    parameter list was empty and nothing changed, or it was a plan that
    passed its gates and every unit holds what copying the plan's segments
    in order, whole, gives, as long as no segment copies a volume onto a
    later part of itself in more than one turn.  It does not matter which
    pages went by name and which by their bytes. *)
Theorem copy_is_exact r0 evs lid4 reservations req :
  fresh_registry r0 -> Forall (registry_event_ok r0) evs -> req_ok req ->
  let r := run_registry evs r0 in
  let out := extended_copy_of lid4 reservations req r in
  status (answer_of out.2) = Good ->
  match plan_for lid4 r req (nexus_from_request req) reservations with
  | Ok (targets, planned) => Forall (seg_safe targets) planned ->
      forall k i, 0 <= i -> unit_byte out.1 k i = plan_mem targets planned (unit_byte r) k i
  | Err Noop => out.1 = r
  | Err _ => False
  end.
Proof.
  intros Hf Hev Hq r out. pose proof (run_registry_ok evs r0 (fresh_ok _ Hf) Hev) as Hr. fold r in Hr. subst out.
  destruct (copy_spec lid4 reservations req r Hr Hq) as (r' & res & -> & Hc). simpl.
  destruct (plan_for _ _ _ _ _) as [[targets planned]|[]]; [|by destruct Hc|by destruct Hc as (_ & x & -> & Hx)..].
  destruct Hc as [[_ _ _ X4 X5] _]. destruct res as [x|x]; simpl; intros Hg; [by eapply X4|]. by destruct (X5 x eq_refl).
Qed.

Lemma first_turn fuel chunk l d l' d' s_cur d_cur len r r' :
  0 < chunk -> chunk <= len -> registry_ok r -> fits l s_cur len r -> fits l' d_cur len r ->
  copy_turns (S fuel) chunk (l, d) (l', d') s_cur d_cur len r = (r', Ok tt) ->
  exists r1, wrote l' d_cur (d_cur + chunk) r r1 /\ duplicates l s_cur l' d_cur chunk r r1 /\
    copy_turns fuel chunk (l, d) (l', d') (s_cur + chunk) (d_cur + chunk) (len - chunk) r1 = (r', Ok tt).
Proof.
  intros Hc Hl Hr Hs Hd. cbn [copy_turns]. rewrite (proj2 (Z.leb_gt _ _)) by lia. rewrite Z.min_r by lia.
  destruct (copy_turn_spec l d l' d' s_cur d_cur (Z.to_nat chunk) r Hr) as (r1 & res & E & W & Hdup);
    [eapply fits_sub; [done|lia..]|eapply fits_sub; [done|lia..]|].
  rewrite Z2Nat.id in W, Hdup by lia. rewrite run_bind in E |- *. cbn beta.
  destruct (map_err map_read_error _ r) as [ra [buf|ea]]; [|done]. rewrite run_bind, E. destruct res as [[]|e]; [|done].
  intros Hrest. exists r1. split_and!; [done|by apply Hdup|done].
Qed.

(** a copy onto itself, further on, repeats itself.  The slow path, with
    its turns of [chunk] bytes, asked to move two chunks of a volume by one,
    ends with the first chunk twice: the bytes of the second are lost and
    are not the copy of anything.  [CHUNK] is a mebibyte, and no gate refuses
    the segment. *)
Theorem overlapping_copy_repeats r0 evs chunk l d d' s_off r' :
  fresh_registry r0 -> Forall (registry_event_ok r0) evs ->
  let r := run_registry evs r0 in
  0 < chunk -> fits l s_off (3 * chunk) r ->
  stream_copy chunk (l, d) (l, d') s_off (s_off + chunk) (2 * chunk) r = (r', Ok tt) ->
  forall i, s_off + 2 * chunk <= i < s_off + 3 * chunk -> unit_byte r' l i = unit_byte r l (i - 2 * chunk).
Proof.
  intros Hf Hev r Hch Hfit. pose proof (run_registry_ok evs r0 (fresh_ok _ Hf) Hev) as Hr. fold r in Hr.
  unfold stream_copy. rewrite Z.div_mul by lia. change (Z.to_nat (2 + 1)) with 3%nat. intros E i Hi.
  assert (fits l s_off (2 * chunk) r) as F1 by (eapply fits_sub; [exact Hfit|lia..]).
  assert (fits l (s_off + chunk) (2 * chunk) r) as F2 by (eapply fits_sub; [exact Hfit|lia..]).
  destruct (first_turn 2 chunk l d l d' s_off (s_off + chunk) (2 * chunk) r r' Hch ltac:(lia) Hr F1 F2 E) as (r1 & W & D1 & E2).
  pose proof (fits_later _ _ _ _ _ Hfit (wt_later _ _ _ _ _ W)) as Hfit1.
  destruct (copy_turns_spec 2 chunk l d l d' (s_off + chunk) (s_off + chunk + chunk) (2 * chunk - chunk) r1)
    as (r2 & res & E3 & _ & D2); [done|lia|apply W|eapply fits_sub; [exact Hfit1|lia..]|eapply fits_sub; [exact Hfit1|lia..]|].
  rewrite E2 in E3. injection E3 as <- <-. specialize (D2 eq_refl ltac:(right; right; right; lia)).
  rewrite D2, D1 by lia. f_equal. lia.
Qed.
End history.

(** ** Two volumes of a pool *)

Definition copy_manifest (n : Z) : Manifest := mkManifest (replicate 16 n) 12 2 4 Global false false None None.

Definition copy_volume (n : Z) : VolumeWriter :=
  match @new_volume (copy_manifest n) None unbounded quiet with Some w => w | None => small_volume end.

Definition copy_unit (n : Z) : Lu :=
  mkLu [n] [115] (new_cache (copy_manifest n) (copy_volume n) idle_runtime 8 2).

Definition two_units : VolumeRegistry := [(0, copy_unit 1); (1, copy_unit 2)].

(** A block written on unit 0 and in storage, a block on unit 1. *)
Definition before_copy : list RegistryEvent :=
  [RUnit 0 (UScsi new (host_request 0x2A 0 4 [1; 2; 3; 4; 5; 6; 7; 8] 0 65)); RUnit 0 (UActivity CFlushAll);
   RUnit 0 (UActivity (CVolume (@volume_event model_crypto (EvPut 0))));
   RUnit 0 (UActivity (CVolume (@volume_event model_crypto (EvApply 0))));
   RUnit 1 (UScsi new (host_request 0x2A 2 1 [9; 9] 0 65))].

Definition target_descriptor (n : Z) : list Z :=
  [0xE4; 0; 0; 0; 1; 3; 0; 8] ++ naa_locally_assigned (replicate 16 n) ++ replicate 16 0.

(** [count] blocks from [from] of the first target to [to] of the second. *)
Definition copy_request (n m count from to : Z) (session : option (list (list Z))) : ScsiRequest :=
  mkRequest 65 0 [0x83; 0; 0; 0; 0; 0; 0; 0; 0; 0; 0; 0; 0; 108; 0; 0]
    ([0; 0; 0; 64; 0; 0; 0; 0; 0; 0; 0; 28; 0; 0; 0; 0] ++ target_descriptor n ++ target_descriptor m ++
     [2; 0; 0; 0x18; 0; 0; 0; 1; 0; 0; 0; count] ++ replicate 7 0 ++ [from] ++ replicate 7 0 ++ [to])
    0 (Some [65]) [0; 0; 0; 0; 0; 65] session.

Lemma two_units_get l u : bt_get l two_units = Some u -> u = copy_unit 1 \/ u = copy_unit 2.
Proof.
  intros Hu%bt_get_In. destruct Hu as [E|[E|[]]]; injection E as <- <-; auto.
Qed.

Lemma copy_unit_fresh n : 1 <= n <= 2 ->
  exists m key b e w0 rt budget k, manifest_ok m /\ 0 < sector_bytes m /\
    @new_volume m key b e = Some w0 /\ lu_cache (copy_unit n) = new_cache m w0 rt budget k.
Proof.
  intros Hn. exists (copy_manifest n), None, unbounded, quiet, (copy_volume n), idle_runtime, 8, 2%nat.
  split_and!; [by split; simpl; unfold u32_max; try lia|done| |done].
  assert (n = 1 \/ n = 2) as [->| ->] by lia; vm_compute; reflexivity.
Qed.

Lemma two_units_fresh : fresh_registry two_units.
Proof.
  split.
  - intros l u [->| ->]%two_units_get; apply copy_unit_fresh; lia.
  - intros l l' u u' [->| ->]%two_units_get _ w w'; by intros E; vm_compute in E.
Qed.

Lemma before_copy_ok : Forall (@registry_event_ok model_crypto two_units) before_copy.
Proof.
  assert (forall l req, req_ok req -> @registry_event_ok model_crypto two_units (RUnit l (UScsi new req))) as Hs
    by (intros l req Hr u _; exact Hr).
  assert (forall l, @registry_event_ok model_crypto two_units (RUnit l (UActivity CFlushAll))) as Hf
    by (intros l u _; exact I).
  assert (forall l i, @registry_event_ok model_crypto two_units (RUnit l (UActivity (CVolume (@volume_event model_crypto (EvPut i)))))) as Hp
    by (intros l i u _; exists (EvPut i); by repeat constructor).
  assert (forall l i, @registry_event_ok model_crypto two_units (RUnit l (UActivity (CVolume (@volume_event model_crypto (EvApply i)))))) as Ha
    by (intros l i u _; exists (EvApply i); by repeat constructor).
  repeat (apply Forall_cons; split); [apply Hs; request_ok|apply Hf|apply Hp|apply Ha|apply Hs; request_ok|constructor].
Qed.

Definition copy_state : VolumeRegistry := @run_registry model_crypto before_copy two_units.

Lemma bytes_check l : forallb (fun b => (0 <=? b) && (b <? 256)) l = true -> bytes_ok l.
Proof.
  intros Hl. apply Forall_forall. intros b Hb%list_elem_of_In. rewrite forallb_forall in Hl.
  apply Hl in Hb. unfold byte_ok. lia.
Qed.

Definition copy_up : ScsiRequest := copy_request 1 2 2 2 0 (Some [[1]; [2]]).

Lemma copy_up_ok : req_ok copy_up.
Proof. split; [apply bytes_check; reflexivity..|done]. Qed.

Definition nobody : ScsiRequest := copy_request 1 2 2 2 0 (Some [[1]]).

Lemma copies_are_gated_witness :
  (exists seg src dst, 1 = dst.1 /\ seg_gated copy_state (Some [[1]; [2]]) new (nexus_from_request copy_up) seg src dst) /\
  answer_of (@extended_copy_of model_crypto false new nobody copy_state).2 = check INVALID_FIELD_IN_PARAMETER_LIST.
Proof.
  split; [|vm_compute; reflexivity].
  pose proof (@copies_are_gated model_crypto model_crypto_laws two_units before_copy false new copy_up
    two_units_fresh before_copy_ok copy_up_ok) as Hd.
  cbv zeta in Hd. fold copy_state in Hd.
  destruct (Hd 1 0) as (seg & src & dst & E & _ & Hg); [lia|vm_compute; discriminate|].
  exists seg, src, dst. by split.
Defined.

Definition copied_up : VolumeRegistry * result ScsiResponse ScsiResponse :=
  @extended_copy_of model_crypto false new copy_up copy_state.

(** The two targets by their LUNs, and the segment. *)
Lemma copy_up_plan :
  match plan_for false copy_state copy_up (nexus_from_request copy_up) new with
  | Ok (targets, planned) => map fst targets = [0; 1] /\ planned = [mkSegment 0 1 2 2 0]
  | Err _ => False
  end.
Proof. vm_compute. by split. Qed.

Lemma copy_is_exact_witness :
  (exists targets planned, planned = [mkSegment 0 1 2 2 0] /\
    forall k i, 0 <= i ->
      @unit_byte model_crypto copied_up.1 k i = plan_mem targets planned (@unit_byte model_crypto copy_state) k i) /\
  map (@unit_byte model_crypto copied_up.1 1) [0; 1; 2; 3; 4; 5] = [5; 6; 7; 8; 9; 9].
Proof.
  split; [|vm_compute; reflexivity].
  pose proof (@copy_is_exact model_crypto model_crypto_laws two_units before_copy false new copy_up
    two_units_fresh before_copy_ok copy_up_ok) as Hd.
  cbv zeta in Hd. fold copy_state in Hd. fold copied_up in Hd. specialize (Hd ltac:(vm_compute; reflexivity)).
  pose proof copy_up_plan as Hp. revert Hd Hp.
  generalize (plan_for false copy_state copy_up (nexus_from_request copy_up) new).
  intros [[targets planned]|err] Hd Hp; [|destruct Hp].
  destruct Hp as [Ht ->]. exists targets, [mkSegment 0 1 2 2 0]. split; [reflexivity|]. apply Hd. constructor; [|constructor].
  intros src dst Es Ed. left. apply (f_equal (fmap fst)) in Es, Ed. rewrite <- list_lookup_fmap in Es, Ed.
  change (fst <$> targets) with (map fst targets) in Es, Ed. rewrite Ht in Es, Ed. simpl in Es, Ed. simplify_eq. lia.
Defined.

(** Unit 0 holds one to eight; two bytes a turn, four bytes from the start
    are asked for two bytes on. *)
Notation smeared :=
  (@stream_copy model_crypto 2 (0, lu_cache (copy_unit 1)) (0, lu_cache (copy_unit 1)) 0 (0 + 2) (2 * 2) copy_state).

Lemma ends_in {A B} (p : A * B) b : p.2 = b -> p = (p.1, b).
Proof. destruct p. simpl. by intros ->. Qed.

Lemma unit_0_fits : fits 0 0 6 copy_state.
Proof.
  assert (match bt_get 0 copy_state with Some u => 6 <=? live_size_bytes (writer (lu_cache u)) | None => false end = true)
    as E by (vm_compute; reflexivity).
  split; [lia|]. destruct (bt_get 0 copy_state) as [u|]; [|done]. exists u. split; [done|lia].
Qed.

Lemma overlapping_copy_repeats_witness :
  (forall i, 4 <= i < 6 -> @unit_byte model_crypto smeared.1 0 i = @unit_byte model_crypto copy_state 0 (i - 4)) /\
  map (@unit_byte model_crypto smeared.1 0) [0; 1; 2; 3; 4; 5] = [1; 2; 1; 2; 1; 2].
Proof.
  split; [|vm_compute; reflexivity].
  pose proof (@overlapping_copy_repeats model_crypto model_crypto_laws two_units before_copy 2 0
    (lu_cache (copy_unit 1)) (lu_cache (copy_unit 1)) 0 smeared.1 two_units_fresh before_copy_ok) as Hd.
  cbv zeta in Hd. fold copy_state in Hd. apply Hd; [lia|exact unit_0_fits|].
  apply ends_in. vm_compute. reflexivity.
Defined.
