(* ===== verification/Odx.v ===== *)
(** * Offloaded data transfer ([scsi/sbc/src/odx.rs], [scsi/sbc/src/data_path.rs])

    A token names the chunks of a range at one moment, and is later written
    over another range: the token table with its deadlines, POPULATE TOKEN,
    WRITE USING TOKEN, CANCEL ROD TOKEN, and RECEIVE COPY RESULTS. *)

From S2P Require Import Prelude Bytes BTreeMap Pr Reservations ReservationManager ReservationRender PageIndex UploadIndex BlockLru PoolBudget StateError PageLru Crypto VolumeWriter PageCache VolumeCache PageClone SbcData XCopy.

Local Open Scope Z_scope.

(** ** Tokens *)

Definition DEFAULT_ROD_INACTIVITY_SECS : Z := 300.
Definition MAX_ROD_INACTIVITY_SECS : Z := 600.
Definition ROD_TOKEN_LEN : nat := 512.

(** The source's handle is its [source_decryptor]. *)
Record TokenState : Type := mkToken {
  source_volume_uuid : list Z;
  source_lun : Z;
  source_backend : list Z;
  source_namespace : option (list Z);
  source_page_size : Z;
  token_sector_size : Z;
  source_pages : list nat;
  hashes : list (option (list Z));
  iv_salts : list Z;
  source_encrypted : bool;
  source_dek_uuid : list Z;
  source_decryptor : TargetHandle;
  token_blocks : Z;
  token_deadline : Z;
  pins : list (list Z);
}.

Inductive JobStatus : Type := Done | Failed (completion_status : Z).

Record JobResult : Type := mkJob {
  job_status : JobStatus;
  job_token : option (list Z);
  transfer_blocks : Z;
  job_deadline : Z;
}.

Record TokenManager : Type := mkTokens {
  tokens : gmap (list Z) TokenState;
  jobs : gmap Z JobResult;
  default_ttl : Z;
  max_ttl : Z;
}.

Definition tokens_new : TokenManager :=
  mkTokens ∅ ∅ DEFAULT_ROD_INACTIVITY_SECS MAX_ROD_INACTIVITY_SECS.

Definition resolve_ttl (mgr : TokenManager) (requested_secs : Z) : Z :=
  if requested_secs =? 0 then default_ttl mgr
  else if max_ttl mgr <? requested_secs then max_ttl mgr else requested_secs.

(** Draws until a token is new; among one more than there are tokens, one
    is. *)
Fixpoint fresh_token (fuel : nat) (rng : nat -> list Z) (n : nat) (mgr : TokenManager) : list Z * nat :=
  match fuel with
  | O => (rng n, S n)
  | S fuel =>
      if bool_decide (is_Some (tokens mgr !! rng n)) then fresh_token fuel rng (S n) mgr else (rng n, S n)
  end.

Definition mint_token (rng : nat -> list Z) (n : nat) (list_id : Z) (state : TokenState) (mgr : TokenManager) :
    TokenManager * nat :=
  let '(token, n') := fresh_token (size (tokens mgr)) rng n mgr in
  (mkTokens (<[token := state]> (tokens mgr))
     (<[list_id := mkJob Done (Some token) (token_blocks state) (token_deadline state)]> (jobs mgr))
     (default_ttl mgr) (max_ttl mgr), n').

Definition record_write_outcome (now list_id : Z) (status : JobStatus) (blocks ttl : Z) (mgr : TokenManager) :
    TokenManager :=
  mkTokens (tokens mgr) (<[list_id := mkJob status None blocks (now + ttl)]> (jobs mgr))
    (default_ttl mgr) (max_ttl mgr).

Definition snapshot_for (now : Z) (mgr : TokenManager) (token : list Z) : option TokenState :=
  match tokens mgr !! token with
  | Some st => if token_deadline st <=? now then None else Some st
  | None => None
  end.

Definition is_expired (now : Z) (mgr : TokenManager) (token : list Z) : bool :=
  match tokens mgr !! token with Some st => token_deadline st <=? now | None => false end.

Definition job_result (mgr : TokenManager) (list_id : Z) : option JobResult := jobs mgr !! list_id.

Definition cancel (list_id : Z) (mgr : TokenManager) : TokenManager * bool :=
  match jobs mgr !! list_id ≫= job_token with
  | Some t =>
      (mkTokens (delete t (tokens mgr)) (delete list_id (jobs mgr)) (default_ttl mgr) (max_ttl mgr),
       bool_decide (is_Some (tokens mgr !! t)))
  | None => (mgr, false)
  end.

Definition sweep_expired (now : Z) (mgr : TokenManager) : TokenManager :=
  mkTokens (filter (fun e => now < token_deadline e.2) (tokens mgr))
    (filter (fun e => now < job_deadline e.2) (jobs mgr)) (default_ttl mgr) (max_ttl mgr).

(** ** The daemon's state *)

Record Sys : Type := mkSys {
  registry : VolumeRegistry;
  odx : TokenManager;
  clock : Z;
  rng : nat -> list Z;
  drawn : nat;
}.

Definition with_registry (r : VolumeRegistry) (s : Sys) : Sys := mkSys r (odx s) (clock s) (rng s) (drawn s).
Definition with_odx (m : TokenManager) (s : Sys) : Sys := mkSys (registry s) m (clock s) (rng s) (drawn s).

Notation M := (EM Sys ScsiResponse).

Definition stop {A} (x : SenseData) : M A := fail (check x).

Definition checked {A} (r : result A SenseData) : M A :=
  match r with Ok a => mret a | Err x => stop x end.

Definition on_unit {A} (f : UploaderError -> SenseData) (t : TargetHandle)
    (m : EM (PageCache VolumeWriter) UploaderError A) : EM Sys SenseData A :=
  map_err f (zoom registry with_registry (at_cache (unit_at t) m)).

(** ** Range descriptors *)

Record Bdrd : Type := mkBdrd { bd_lba : Z; bd_blocks : Z }.

Definition ODX_MAX_RANGE_DESCRIPTORS : nat := 8.
Definition ODX_BDRD_BYTES : nat := 16.

Definition bdrd_at (buf : list Z) (i : nat) : Bdrd :=
  mkBdrd (be_val (sl (i * ODX_BDRD_BYTES) 8 buf)) (be_val (sl (i * ODX_BDRD_BYTES + 8) 4 buf)).

Definition parse_bdrd_list (buf : list Z) : result (list Bdrd) SenseData :=
  let count := (length buf / ODX_BDRD_BYTES)%nat in
  if negb (bool_decide (length buf mod ODX_BDRD_BYTES = 0)%nat) then Err INVALID_FIELD_IN_PARAMETER_LIST
  else if bool_decide (ODX_MAX_RANGE_DESCRIPTORS < count)%nat then Err INVALID_FIELD_IN_PARAMETER_LIST
  else Ok (map (bdrd_at buf) (seq 0 count)).

(** The blocks of the ranges, each inside the volume and of whole pages. *)
Fixpoint check_ranges (sz : Sizing) (sectors_per_page : Z) (bdrds : list Bdrd) (total : Z) : result Z SenseData :=
  match bdrds with
  | [] => Ok total
  | bd :: rest =>
      if bd_blocks bd =? 0 then check_ranges sz sectors_per_page rest total
      else
        match validate_in_range (mkRange (bd_lba bd) (bd_blocks bd)) sz with
        | Err _ => Err LBA_OUT_OF_RANGE
        | Ok _ =>
            if negb (bd_lba bd mod sectors_per_page =? 0) || negb (bd_blocks bd mod sectors_per_page =? 0)
            then Err INVALID_FIELD_IN_PARAMETER_LIST
            else check_ranges sz sectors_per_page rest (sat_add64 total (bd_blocks bd))
        end
  end.

(** The pages of the ranges, in order. *)
Definition range_pages (sector page : Z) (bd : Bdrd) : list nat :=
  seq (Z.to_nat (bd_lba bd * sector / page)) (Z.to_nat (bd_blocks bd * sector / page)).

Definition pages_of (sector page : Z) (bdrds : list Bdrd) : list nat :=
  concat (map (range_pages sector page) (List.filter (fun bd => negb (bd_blocks bd =? 0)) bdrds)).

Definition list_id_of (req : ScsiRequest) : Z := be_val (sl 6 4 (cdb req)).
Definition plist_len_of (req : ScsiRequest) : Z := be_val (sl 10 4 (cdb req)).

Section handlers.
Context `{VolumeCrypto}.

(** ** POPULATE TOKEN *)

Fixpoint flush_ranges (t : TargetHandle) (sector page : Z) (bdrds : list Bdrd) : M unit :=
  match bdrds with
  | [] => mret tt
  | bd :: rest =>
      if bd_blocks bd =? 0 then flush_ranges t sector page rest
      else
        let first_page := bd_lba bd * sector / page in
        let last_page := ((bd_lba bd + bd_blocks bd) * sector - 1) / page in
        if (u32_max <? first_page) || (u32_max <? last_page) then stop LBA_OUT_OF_RANGE
        else
          map_err check (on_unit map_write_error t (flush_pages_in_range first_page last_page));;
          flush_ranges t sector page rest
  end.

(** The token over the source's pages as they are. *)
Definition token_of (l : Z) (t : TargetHandle) (u : Lu) (pages : list nat) (total deadline : Z) : TokenState :=
  let w := writer (lu_cache u) in
  let m := manifest w in
  let entries := map (get_entry (page_index w)) pages in
  mkToken (uuid m) l (lu_backend u) (pool_namespace m) (page_size m) (sector_bytes m) pages
    (map (fmap hash) entries) (map (fun e => default 0 (iv_salt <$> e)) entries) (encrypted m) (dek_uuid m)
    t total deadline (remove_dups (omap (fmap hash) entries)).

(** The range list of a token operation, [hdr] bytes into the list. *)
Definition ranges_in (plist : list Z) (len_off hdr : nat) : result (list Bdrd) SenseData :=
  let bdrd_total := be_val (sl len_off 2 plist) in
  if Z.of_nat (length plist) <? Z.of_nat hdr + bdrd_total then Err INVALID_FIELD_IN_PARAMETER_LIST
  else parse_bdrd_list (sl hdr (Z.to_nat bdrd_total) plist).

Definition populate_body (req : ScsiRequest) (u : Lu) (plist : list Z) (bdrds : list Bdrd) : M ScsiResponse :=
  let c := lu_cache u in
  let t := (lun req, c) in
  let sector := cache_sector_size c in
  let page := cache_page_size c in
  if negb (page mod sector =? 0) || (page =? 0) then stop INVALID_FIELD_IN_PARAMETER_LIST
  else
    total ← checked (check_ranges (sizing_from c) (page / sector) bdrds 0);
    if 2 ^ 30 / sector <? total then stop INVALID_FIELD_IN_PARAMETER_LIST
    else
      flush_ranges t sector page bdrds;;
      s ← get;
      let u' := with_cache (h_get (unit_at t) (registry s)) u in
      let ttl := resolve_ttl (odx s) (be_val (sl 4 4 plist)) in
      let state := token_of (lun req) t u' (pages_of sector page bdrds) total (clock s + ttl) in
      let '(mgr, n) := mint_token (rng s) (drawn s) (list_id_of req) state (odx s) in
      modify (fun s => mkSys (registry s) mgr (clock s) (rng s) n);;
      mret (good []).

Definition populate_token (reservations : ReservationManager) (req : ScsiRequest) (nexus : RegistrantId) :
    M ScsiResponse :=
  s ← get;
  if negb (lun_admitted (registry s) (session_volumes req) (lun req)) then stop LU_NOT_SUPPORTED
  else if negb (allow_read reservations (lun req) nexus) then fail reservation_conflict
  else
    match bt_get (lun req) (registry s) with
    | None => stop LU_NOT_SUPPORTED
    | Some u =>
        let plist_len := plist_len_of req in
        if plist_len =? 0 then mret (good [])
        else if (Z.of_nat (length (data_out req)) <? plist_len) || (plist_len <? 16)
        then stop INVALID_FIELD_IN_PARAMETER_LIST
        else
          let plist := take (Z.to_nat plist_len) (data_out req) in
          bdrds ← checked (ranges_in plist 14 16);
          match bdrds with
          | [] => mret (good [])
          | _ => populate_body req u plist bdrds
          end
    end.

(** ** WRITE USING TOKEN *)

Definition sense_key_code (k : SenseKey) : Z :=
  match k with
  | NoSense => 0x00 | RecoveredError => 0x01 | NotReady => 0x02 | MediumError => 0x03 | HardwareError => 0x04
  | IllegalRequest => 0x05 | UnitAttention => 0x06 | DataProtect => 0x07 | BlankCheck => 0x08
  | VendorSpecific => 0x09 | CopyAborted => 0x0A | AbortedCommand => 0x0B | Equal => 0x0C
  | VolumeOverflow => 0x0D | Miscompare => 0x0E
  end.

Definition TOKEN_NOT_MAINTAINED := mkSense IllegalRequest 0x23 0x05.
Definition TOKEN_INVALID := mkSense IllegalRequest 0x23 0x07.

Definition record_job (list_id : Z) (status : JobStatus) (blocks : Z) : M unit :=
  modify (fun s => with_odx
    (record_write_outcome (clock s) list_id status blocks (resolve_ttl (odx s) 0) (odx s)) s).

(** A failure is also the outcome of the job. *)
Definition job_failed {A} (list_id committed : Z) (x : SenseData) : M A :=
  record_job list_id (Failed (sense_key_code (sense_key x))) committed;; stop x.

Definition in_job {A} (list_id committed : Z) (m : EM Sys SenseData A) : M A := fun s =>
  match m s with
  | (s', Ok a) => (s', Ok a)
  | (s', Err x) => job_failed list_id committed x s'
  end.

Definition decrypt_chunk (t : TargetHandle) (p : nat) (h : list Z) (iv_salt : Z) : EM Sys SenseData (list Z) :=
  on_unit map_read_error t (out ← on_writer (fetch_and_decrypt p h iv_salt); mret out.1).

Definition write_page (p : nat) (bs : list Z) : EM VolumeWriter UploaderError unit :=
  write_page_unsynced p bs;; page_index_sync.

(** One page of the token, a chunk by name or by its bytes. *)
Definition apply_page (t : TargetHandle) (snap : TokenState) (dst_page src_page : nat) (h : option (list Z))
    (iv_salt : Z) : EM Sys SenseData unit :=
  s ← get;
  let m := manifest (writer (h_get (unit_at t) (registry s))) in
  on_unit map_write_error t (invalidate_cached_page dst_page);;
  match h with
  | None => on_unit map_write_error t (on_writer (bind_entry dst_page None))
  | Some h =>
      if rebind_is_sound (source_encrypted snap) (source_dek_uuid snap) src_page (encrypted m) (dek_uuid m) dst_page
      then on_unit map_write_error t (on_writer (bind_entry dst_page (Some (PageIndex.mkEntry h iv_salt))))
      else
        plain ← decrypt_chunk (source_decryptor snap) src_page h iv_salt;
        on_unit map_write_error t (on_writer (write_page dst_page plain))
  end.

Definition token_items (snap : TokenState) : list (nat * option (list Z) * Z) :=
  zip (zip (source_pages snap) (hashes snap)) (iv_salts snap).

(** There are as many pages as items. *)
Fixpoint apply_token (t : TargetHandle) (snap : TokenState) (list_id sectors_per_page : Z) (dst_pages : list nat)
    (items : list (nat * option (list Z) * Z)) (committed : Z) : M unit :=
  match dst_pages, items with
  | q :: dst_pages, (p, h, salt) :: items =>
      in_job list_id committed (apply_page t snap q p h salt);;
      apply_token t snap list_id sectors_per_page dst_pages items (sat_add64 committed sectors_per_page)
  | _, _ => mret tt
  end.

Definition page_total (sectors_per_page : Z) (bdrds : list Bdrd) : Z :=
  foldl (fun n bd => if bd_blocks bd =? 0 then n else sat_add64 n (bd_blocks bd / sectors_per_page)) 0 bdrds.

Definition write_body (req : ScsiRequest) (u : Lu) (token : list Z) (bdrds : list Bdrd) : M ScsiResponse :=
  let c := lu_cache u in
  let m := manifest (writer c) in
  let list_id := list_id_of req in
  s ← get;
  match snapshot_for (clock s) (odx s) token with
  | None =>
      job_failed list_id 0 (if is_expired (clock s) (odx s) token then TOKEN_NOT_MAINTAINED else TOKEN_INVALID)
  | Some snap =>
      if negb (page_size m =? source_page_size snap) then job_failed list_id 0 INVALID_FIELD_IN_PARAMETER_LIST
      else
        let sector := cache_sector_size c in
        let page := cache_page_size c in
        let sectors_per_page := page / sector in
        match check_ranges (sizing_from c) sectors_per_page bdrds 0 with
        | Err x => job_failed list_id 0 x
        | Ok total =>
            if negb (page_total sectors_per_page bdrds =? Z.of_nat (length (source_pages snap)))
            then job_failed list_id 0 INVALID_FIELD_IN_PARAMETER_LIST
            else if negb (bool_decide (source_backend snap = lu_backend u) &&
                          bool_decide (source_namespace snap = pool_namespace m))
            then job_failed list_id 0 INVALID_FIELD_IN_PARAMETER_LIST
            else
              apply_token (lun req, c) snap list_id sectors_per_page (pages_of sector page bdrds)
                (token_items snap) 0;;
              record_job list_id Done total;;
              mret (good [])
        end
  end.

Definition write_using_token (reservations : ReservationManager) (req : ScsiRequest) (nexus : RegistrantId) :
    M ScsiResponse :=
  s ← get;
  if negb (lun_admitted (registry s) (session_volumes req) (lun req)) then stop LU_NOT_SUPPORTED
  else
    match bt_get (lun req) (registry s) with
    | None => stop LU_NOT_SUPPORTED
    | Some u =>
        if worm (manifest (writer (lu_cache u))) then stop WRITE_PROTECTED
        else if negb (allow_write reservations (lun req) nexus) then fail reservation_conflict
        else
          let plist_len := plist_len_of req in
          if plist_len =? 0 then mret (good [])
          else if (Z.of_nat (length (data_out req)) <? plist_len) || (plist_len <? Z.of_nat (16 + ROD_TOKEN_LEN + 8))
          then stop INVALID_FIELD_IN_PARAMETER_LIST
          else
            let plist := take (Z.to_nat plist_len) (data_out req) in
            bdrds ← checked (ranges_in plist (16 + ROD_TOKEN_LEN) (16 + ROD_TOKEN_LEN + 8));
            match bdrds with
            | [] => mret (good [])
            | _ => write_body req u (sl 16 ROD_TOKEN_LEN plist) bdrds
            end
    end.

(** ** CANCEL ROD TOKEN, and the service actions *)

Definition cancel_rod_token (req : ScsiRequest) : M ScsiResponse :=
  modify (fun s => with_odx (cancel (list_id_of req) (odx s)).1 s);; mret (good []).

Definition extended_copy (reservations : ReservationManager) (req : ScsiRequest) (nexus : RegistrantId) :
    M ScsiResponse :=
  if bool_decide (length (cdb req) < 16)%nat then stop INVALID_FIELD_IN_CDB
  else
    let sa := Z.land (at_ (cdb req) 1) 0x1F in
    if sa =? 0x00 then zoom registry with_registry (extended_copy_lid1 reservations req nexus)
    else if sa =? 0x01 then zoom registry with_registry (extended_copy_lid4 reservations req nexus)
    else if sa =? 0x10 then populate_token reservations req nexus
    else if sa =? 0x11 then write_using_token reservations req nexus
    else if sa =? 0x12 then cancel_rod_token req
    else stop INVALID_FIELD_IN_CDB.
End handlers.

(** ** RECEIVE COPY RESULTS *)

(** AVAILABLE DATA, then the body. *)
Definition with_available (body : list Z) : list Z := be_bytes 4 (Z.of_nat (length body)) ++ body.

Definition build_rrti_response (job : option JobResult) : list Z :=
  let token := job ≫= job_token in
  let response_to_sa := match job with Some j => if bool_decide (is_Some (job_token j)) then 0x10 else 0x11 | None => 0x10 end in
  let copy_op_status :=
    match job with Some j => match job_status j with Done => 0x02 | Failed _ => 0x03 end | None => 0x00 end in
  let blocks := match job with Some j => transfer_blocks j | None => 0 end in
  let completion_status :=
    match job_status <$> job with Some (Failed completion_status) => completion_status | _ => 0 end in
  with_available
    ([response_to_sa; copy_op_status] ++ be_bytes 2 0 ++ be_bytes 4 0 ++ [completion_status; 0; 0; 0x01] ++
     be_bytes 8 blocks ++ be_bytes 2 0 ++ replicate 6 0 ++
     match token with
     | Some t => be_bytes 4 (Z.of_nat (2 + 2 + ROD_TOKEN_LEN)) ++ be_bytes 2 0 ++ be_bytes 2 (Z.of_nat ROD_TOKEN_LEN) ++ t
     | None => be_bytes 4 0
     end).

Definition build_operating_parameters_response : list Z :=
  with_available ([0x01; 0; 0; 0] ++ be_bytes 2 2 ++ be_bytes 2 1 ++ be_bytes 4 128 ++ be_bytes 4 (16 * 2 ^ 20) ++
    replicate 17 0 ++ [16] ++ replicate 5 0 ++ [2] ++ [0xE4; 0x02]).

Definition build_copy_status_response : list Z := with_available ([0x02] ++ replicate 11 0).

Definition build_receive_data_response : list Z := replicate 4 0.

Definition build_failed_segment_details_response : list Z := with_available (replicate 56 0).

Definition receive_copy_results (req : ScsiRequest) : M ScsiResponse :=
  if bool_decide (length (cdb req) < 16)%nat then stop INVALID_FIELD_IN_CDB
  else
    let sa := Z.land (at_ (cdb req) 1) 0x1F in
    let alloc_len := Z.to_nat (be_val (sl 10 4 (cdb req))) in
    s ← get;
    body ← (if sa =? 0x00 then mret build_copy_status_response
            else if sa =? 0x01 then mret build_receive_data_response
            else if sa =? 0x03 then mret build_operating_parameters_response
            else if sa =? 0x04 then mret build_failed_segment_details_response
            else if sa =? 0x07 then mret (build_rrti_response (job_result (odx s) (be_val (sl 2 4 (cdb req)))))
            else stop INVALID_FIELD_IN_CDB);
    mret (good (take alloc_len body)).
