(* ===== verification/OdxProofs.v ===== *)
(** * What a token is worth

    A token minted over pages in storage is a snapshot: whatever happens to
    the source, writing it leaves the pages as they were when it was made,
    chunk by name or chunk by bytes. *)

From S2P Require Import Prelude Bytes BTreeMap Pr Reservations ReservationManager ReservationRender PageIndex UploadIndex BlockLru PoolBudget StateError PageLru Crypto VolumeWriter VolumeProofs VolumeHistory PageCache PageCacheProofs CacheBytes CacheHistory VolumeCache PageClone SbcData SbcProofs SbcHistory XCopy XCopyProofs XCopyPlan XCopyHistory Odx.

Local Open Scope Z_scope.

(** ** The token table *)

(** A draw among one more than the table holds is new. *)
Lemma fresh_token_new rng mgr n :
  (forall i j, rng i = rng j -> i = j) -> tokens mgr !! (fresh_token (size (tokens mgr)) rng n mgr).1 = None.
Proof.
  intros Hinj.
  assert (forall fuel m, tokens mgr !! (fresh_token fuel rng m mgr).1 = None \/
    forall k, (k <= fuel)%nat -> is_Some (tokens mgr !! rng (m + k)%nat)) as Hl.
  { induction fuel as [|fuel IH]; intros m; simpl.
    - destruct (tokens mgr !! rng m) eqn:E; [right|by left]. intros k Hk. replace (m + k)%nat with m by lia. eauto.
    - case_bool_decide as Hs; [|left; by apply eq_None_not_Some].
      destruct (IH (S m)) as [Hn|Hn]; [by left|right]. intros k Hk. destruct k as [|k]; [by rewrite Nat.add_0_r|].
      replace (m + S k)%nat with (S m + k)%nat by lia. apply Hn. lia. }
  destruct (Hl (size (tokens mgr)) n) as [Hn|Hn]; [done|exfalso].
  set (drawn := map (fun k => rng (n + k)%nat) (seq 0 (S (size (tokens mgr))))).
  assert (NoDup drawn) as Hnd.
  { apply NoDup_fmap_2_strong; [|apply NoDup_seq]. intros i j _ _ E%Hinj. lia. }
  assert (list_to_set drawn ⊆ dom (tokens mgr)) as Hsub.
  { intros t Ht%elem_of_list_to_set. apply list_elem_of_fmap in Ht as (k & -> & Hk%elem_of_seq).
    apply elem_of_dom, Hn. lia. }
  apply subseteq_size in Hsub. rewrite size_list_to_set, size_dom in Hsub by done.
  unfold drawn in Hsub. rewrite length_map, length_seq in Hsub. lia.
Qed.

(** A time to live the host asked for is at most the ceiling. *)
Lemma resolve_ttl_bound mgr n : 0 <= n -> default_ttl mgr <= max_ttl mgr -> resolve_ttl mgr n <= max_ttl mgr.
Proof. intros Hn Hd. unfold resolve_ttl. destruct (n =? 0); [done|]. destruct (Z.ltb_spec (max_ttl mgr) n); lia. Qed.

Section proofs.
Context `{VolumeCryptoLaws}.

(** ** What a registry never loses *)

Definition grown (r r' : VolumeRegistry) : Prop :=
  forall l u, bt_get l r = Some u -> exists u', bt_get l r' = Some u' /\
    lu_backend u' = lu_backend u /\ volume_le (writer (lu_cache u)) (writer (lu_cache u')).

Lemma later_grown r r' : units_later r r' -> grown r r'.
Proof.
  intros Hl l u Hu. destruct (units_later_get _ _ _ _ Hl Hu) as (u' & Hu' & _ & Hb & Hc).
  exists u'. split_and!; [done..|]. apply (sc_le _ _ Hc).
Qed.

Lemma grown_trans r1 r2 r3 : grown r1 r2 -> grown r2 r3 -> grown r1 r3.
Proof.
  intros H1 H2 l u Hu. destruct (H1 l u Hu) as (u2 & Hu2 & E2 & L2). destruct (H2 l u2 Hu2) as (u3 & Hu3 & E3 & L3).
  exists u3. split_and!; [done|congruence|by etrans].
Qed.

Lemma event_grown ev r : registry_ok r -> registry_event_ok r ev -> grown r (registry_event ev r).
Proof.
  intros Hr Hev. destruct ev as [l ev|lid4 reservations req]; simpl in *.
  - destruct (bt_get l r) as [u|] eqn:Hu; [|intros k v Hv; exists v; by split_and!].
    pose proof (ro_unit _ Hr l u Hu) as Hg.
    destruct (unit_moves _ ev _ (proj1 Hg) (u_pos _ _ (proj2 Hg)) (good_unit_of _ Hg) (Hev u eq_refl)) as [Hm Hle].
    pose proof (unit_of_good _ _ (proj1 Hg) (u_pos _ _ (proj2 Hg)) Hm) as Hg'.
    destruct (share_ok l _ r u Hr Hu Hg' Hle) as (_ & S2 & S3). intros k v Hv.
    destruct (decide (k = l)) as [->|Hk]; [exists (with_cache (unit_event ev (lu_cache u)) u)|].
    + assert (v = u) as -> by congruence. by split_and!.
    + destruct (S3 k v Hk Hv) as (v' & Hv' & (_ & Hb & Hc) & _). exists v'. split_and!; [done..|]. apply (sc_le _ _ Hc).
  - destruct (copy_spec lid4 reservations req r Hr Hev) as (r' & res & -> & Hc). simpl.
    destruct (plan_for _ _ _ _ _) as [[targets planned]|[]];
      [|destruct Hc as [-> _]; intros k v Hv; exists v; by split_and!..].
    destruct Hc as [[_ X2 _ _ _] _]. by apply later_grown.
Qed.

Lemma run_grown evs r : registry_ok r -> Forall (registry_event_ok r) evs -> grown r (run_registry evs r).
Proof.
  revert r. induction evs as [|ev evs IH]; intros r Hr Hev; [intros k v Hv; exists v; by split_and!|].
  apply Forall_cons in Hev as [He Hev]. destruct (registry_step ev r Hr He) as [Hr' Hm]. simpl.
  eapply grown_trans; [by apply event_grown|]. apply IH; [done|].
  eapply Forall_impl; [exact Hev|]. intros ev'. by apply event_ok_manifests.
Qed.

(** ** What a token holds *)

Lemma opens_le ps w w' p eo x : volume_le w w' -> entry_opens ps w p eo x -> entry_opens ps w' p eo x.
Proof.
  intros [Em Ek Eb]. destruct eo as [e|]; simpl; [|done].
  intros (y & bs & H1 & H2 & Hy & Ho & Hx & Hl). exists y, bs. split_and!; try done; [by eapply lookup_weaken|].
  unfold open_payload in *. by rewrite Ek, Em.
Qed.

(** The item names a chunk in storage that opens, as the source's page, to
    [x]; or nothing. *)
Definition item_holds (ps : Z) (w : VolumeWriter) (item : nat * option (list Z) * Z) (x : option (list Z)) : Prop :=
  entry_opens ps w item.1.1 ((fun h => PageIndex.mkEntry h item.2) <$> item.1.2) x.

Record token_holds (r : VolumeRegistry) (snap : TokenState) (u : Lu) (xs : list (option (list Z))) : Prop := {
  th_unit : bt_get (source_decryptor snap).1 r = Some u;
  th_backend : source_backend snap = lu_backend u;
  th_namespace : source_namespace snap = pool_namespace (manifest (writer (lu_cache u)));
  th_page : source_page_size snap = page_of (lu_cache u);
  th_encrypted : source_encrypted snap = encrypted (manifest (writer (lu_cache u)));
  th_dek : source_dek_uuid snap = dek_uuid (manifest (writer (lu_cache u)));
  th_items : Forall2 (item_holds (page_of (lu_cache u)) (writer (lu_cache u))) (token_items snap) xs;
}.

Lemma item_holds_le ps w w' item x : volume_le w w' -> item_holds ps w item x -> item_holds ps w' item x.
Proof. apply opens_le. Qed.

Lemma token_holds_grown r r' snap u xs :
  grown r r' -> token_holds r snap u xs -> exists u', token_holds r' snap u' xs.
Proof.
  intros Hg [H1 H2 H3 H4 H5 H6 H7]. destruct (Hg _ _ H1) as (u' & Hu' & Eb & Hle). exists u'.
  pose proof (le_manifest _ _ Hle) as Em. unfold page_of in *. split; unfold page_of; rewrite ?Em; try congruence.
  eapply Forall2_impl; [exact H7|]. intros item x. by apply item_holds_le.
Qed.

(** ** One page *)

Lemma on_unit_run {A} f t (m : EM (PageCache VolumeWriter) UploaderError A) s r' res :
  at_cache (unit_at t) m (registry s) = (r', res) ->
  on_unit f t m s = (with_registry r' s, match res with Ok a => Ok a | Err e => Err (f e) end).
Proof. intros E. unfold on_unit, map_err, zoom. rewrite E. by destruct res. Qed.

Section page.
Context (ps : Z) (Hps : 0 < ps <= u32_max) (r0 : VolumeRegistry) (ls l : Z) (ds d : PageCache VolumeWriter) (sb : bool).

#[local] Instance page_linked : Linked ps (unit_at (ls, ds)) (unit_at (l, d)) (bool_decide (ls = l)) sb :=
  unit_linked ps Hps r0 (ls, ds) (l, d) sb.
#[local] Instance page_model : PageStoreModel VolumeWriter := volume_model ps.
#[local] Instance page_laws : PageStoreLaws VolumeWriter ps := volume_laws ps Hps.

Notation dst_of r := (h_get (unit_at (l, d)) r).
Notation stored_at := (@stored _ ps (volume_model ps)).

Definition absent (q : nat) (r : VolumeRegistry) : Prop := pages (inner (dst_of r)) !! q = None.

Lemma invalidate_moves r q :
  linked ps r -> exists r1, at_cache (unit_at (l, d)) (invalidate_cached_page q) r = (r1, Ok tt) /\
    moved ps (put_page q (stored_at (writer (dst_of r)) q)) r r1 /\ absent q r1.
Proof.
  intros Hr. pose proof (lk_dst ps r Hr) as Hc. unfold at_cache, zoom. cbn [invalidate_cached_page on_inner modify].
  eexists. split; [reflexivity|].
  assert (st_puts q None (writer (dst_of r)) (writer (dst_of r))) as Hp by (split; try done; [apply Hc|by left]).
  pose proof (drop_replace ps (dst_of r) q None _ Hc Hp) as Hd. set (c := with_inner _ _) in *.
  change (with_writer (writer (dst_of r)) c) with c in Hd.
  destruct (lk_set_dst ps c r Hr (ch_ok _ _ _ _ Hd) (ch_conf _ _ _ _ Hd)) as (H1 & H2 & H3).
  split; [exact (moved_dst ps _ c r Hr Hd)|]. unfold absent. cbn [snd]. rewrite H2. change (pages (drop_entry (inner (dst_of r)) q).1 !! q = None). unfold drop_entry.
  destruct (pages (inner (dst_of r)) !! q) eqn:E; [|done]. simpl. apply lookup_delete_eq.
Qed.

(** A write of the volume under a page that is not cached. *)
Lemma puts_moves {A} (m : EM VolumeWriter UploaderError A) r q x w res :
  linked ps r -> absent q r -> m (writer (dst_of r)) = (w, res) -> st_puts q x (writer (dst_of r)) w ->
  exists r', at_cache (unit_at (l, d)) (on_writer m) r = (r', res) /\ moved ps (put_page q (stored_at w q)) r r'.
Proof.
  intros Hr Ha E Hp. pose proof (lk_dst ps r Hr) as Hc. pose proof (drop_replace ps (dst_of r) q x w Hc Hp) as Hd.
  unfold drop_entry in Hd. rewrite Ha in Hd. simpl in Hd.
  unfold at_cache, on_writer, zoom. rewrite E. eexists. split; [reflexivity|].
  replace (with_writer w (with_inner (inner (dst_of r)) (dst_of r))) with (with_writer w (dst_of r)) in Hd by (by destruct (dst_of r)).
  exact (moved_dst ps _ _ r Hr Hd).
Qed.

Lemma fetch_keeps p h salt r x :
  linked ps r -> entry_opens ps (writer (h_get (unit_at (ls, ds)) r)) p (Some (PageIndex.mkEntry h salt)) x ->
  exists r' res, at_cache (unit_at (ls, ds)) (out ← on_writer (fetch_and_decrypt p h salt); mret out.1) r = (r', res) /\
    moved ps (fun _ b => b) r r' /\ (forall q, absent q r -> absent q r') /\
    forall bs, res = Ok bs -> x = Some bs.
Proof.
  intros Hr Hx. set (c := h_get (unit_at (ls, ds)) r) in *. destruct Hx as (y & bs & _ & _ & Hy & Ho & -> & _). simpl in Hy, Ho.
  pose proof (lk_src ps r Hr) as Hc. fold c in Hc. pose proof (good_wf _ (proj1 (ck_store _ _ Hc))) as Hg.
  destruct (fetch_and_decrypt_spec (writer c) p h salt (v_chunks _ Hg)) as (w & res & E & Hgr & Hres).
  pose proof (keeps_writer ps c w Hc (grows_st_keeps ps _ _ (ck_store _ _ Hc) Hgr)) as Hk.
  unfold at_cache, zoom. fold c. rewrite run_bind. unfold on_writer, zoom. rewrite E.
  assert (moved ps (fun _ b => b) r (h_set (unit_at (ls, ds)) (with_writer w c) r)) as Hm by (by apply moved_src).
  assert (forall q, absent q r -> absent q (h_set (unit_at (ls, ds)) (with_writer w c) r)) as Ha.
  { intros q. unfold absent. pose proof Hr as Hf. change (from r0 ls l ps sb r) in Hf.
    destruct Hf as [F1 _ (u & u' & [Hu _] & [Hu' _] & _) _]. cbn [h_set unit_at fst]. rewrite (unit_at_get l d r u' Hu').
    pose proof (share_get ls l (with_writer w c) r u Hu) as Hs. rewrite Hu' in Hs. simpl in Hs.
    rewrite (unit_at_get l d _ _ Hs). unfold shared. destruct (ord_eqb l ls) eqn:El; simpl.
    - apply ord_eqb_eq in El. assert (u' = u) as -> by congruence. subst c. by rewrite (unit_at_get ls ds r u Hu).
    - unfold see. by destruct (same_pool _ _ _). }
  destruct res as [[plain n]|e]; eexists _, _; (split; [reflexivity|]); split_and!; try done.
  intros bs' [= <-]. destruct (Hres plain n eq_refl) as (x & Hx & Hox). rewrite (chunk_unique (writer c) h y) in Hx.
  - injection Hx as <-.
    congruence.
  - apply Hg.
  - by right.
Qed.

Notation src_of r := (h_get (unit_at (ls, ds)) r).

(** The two units are of one pool, and the token is of the first. *)
Record sourced (snap : TokenState) (r : VolumeRegistry) : Prop := {
  so_linked : linked ps r;
  so_handle : source_decryptor snap = (ls, ds);
  so_encrypted : source_encrypted snap = encrypted (manifest (writer (src_of r)));
  so_dek : source_dek_uuid snap = dek_uuid (manifest (writer (src_of r)));
  so_backend : sb = true;
  so_namespace : pool_namespace (manifest (writer (src_of r))) = pool_namespace (manifest (writer (dst_of r)));
}.

Lemma sourced_pool snap r :
  sourced snap r -> backend (writer (src_of r)) = backend (writer (dst_of r)) /\
  (encrypted (manifest (writer (src_of r))) = true -> encrypted (manifest (writer (dst_of r))) = true ->
   dek_uuid (manifest (writer (src_of r))) = dek_uuid (manifest (writer (dst_of r))) ->
   encryption_key (writer (src_of r)) = encryption_key (writer (dst_of r))).
Proof.
  intros [Hl _ _ _ Hb Hn]. change (from r0 ls l ps sb r) in Hl. destruct Hl as [F1 _ (u & u' & [Hu _] & [Hu' _] & Esb) _].
  rewrite (unit_at_get ls ds r u Hu), (unit_at_get l d r u' Hu') in *. destruct (ro_linked _ F1 _ _ _ _ Hu Hu') as [L1 L2].
  split; [|done]. apply L1. unfold same_pool. rewrite <- Esb, Hb. by apply bool_decide_eq_true.
Qed.

Lemma moved_le f r r' :
  linked ps r -> moved ps f r r' ->
  volume_le (writer (src_of r)) (writer (src_of r')) /\ volume_le (writer (dst_of r)) (writer (dst_of r')) /\
  live_size_bytes (writer (dst_of r')) = live_size_bytes (writer (dst_of r)).
Proof.
  intros Hr [M1 M2 M3]. pose proof (sc_le _ _ (ch_conf _ _ _ _ M2)) as Hd.
  split; [|split; [exact Hd|exact (sc_size _ _ (ch_conf _ _ _ _ M2))]].
  destruct (decide (ls = l)) as [E|E].
  - pose proof (lk_same ps r Hr (bool_decide_eq_true_2 _ E)) as E1.
    pose proof (lk_same ps r' M1 (bool_decide_eq_true_2 _ E)) as E2. rewrite E1, E2. exact Hd.
  - exact (sc_le _ _ (ch_conf _ _ _ _ (M3 (bool_decide_eq_false_2 _ E)))).
Qed.

Lemma sourced_moved snap f r r' : sourced snap r -> moved ps f r r' -> sourced snap r'.
Proof.
  intros Hs Hm. pose proof Hs as [H1 H2 H3 H4 H5 H6]. destruct (moved_le f r r' H1 Hm) as ([Em _ _] & [Em' _ _] & _).
  split; [apply Hm|done|..]; rewrite ?Em, ?Em'; done.
Qed.

Lemma put_twice q a b p x : put_page q a p (put_page q b p x) = put_page q a p x.
Proof. unfold put_page. by case_bool_decide. Qed.

(** A page written in two steps is written by the last. *)
Lemma moved_put q a b r r1 r2 : moved ps (put_page q a) r r1 -> moved ps (put_page q b) r1 r2 -> moved ps (put_page q b) r r2.
Proof. intros H1 H2. eapply moved_ext; [|exact (moved_trans ps Hps _ _ _ _ _ H1 H2)]. intros p. apply put_twice. Qed.

(** Outcome of a page: the item's bytes, or an error and the page alone
    changed. *)
Definition page_outcome (q : nat) (x : option (list Z)) (s : Sys) (out : Sys * result unit SenseData) : Prop :=
  exists r', out.1 = with_registry r' s /\
  (out.2 = Ok tt /\ moved ps (put_page q (default (zeros ps) x)) (registry s) r' \/
   (exists e, out.2 = Err e) /\ exists b, moved ps (put_page q b) (registry s) r').

Lemma put_outcome (m : EM VolumeWriter UploaderError unit) q x s s1 b w res :
  s1 = with_registry (registry s1) s -> moved ps (put_page q b) (registry s) (registry s1) -> absent q (registry s1) ->
  m (writer (dst_of (registry s1))) = (w, res) -> st_puts q x (writer (dst_of (registry s1))) w ->
  (res = Ok tt -> page_content w q = x) ->
  page_outcome q x s (on_unit map_write_error (l, d) (on_writer m) s1).
Proof.
  intros Es Hm Ha E Hp Hx. pose proof (mv_linked _ _ _ _ Hm) as Hl.
  destruct (puts_moves m (registry s1) q x w res Hl Ha E Hp) as (r2 & E2 & Hm2).
  rewrite (on_unit_run _ _ _ _ _ _ E2). exists r2. split; [by rewrite Es|].
  pose proof (moved_put q _ _ _ _ _ Hm Hm2) as Hm3. destruct res as [[]|e]; [left|right].
  - split; [done|]. unfold stored in Hm3. simpl in Hm3. by rewrite (Hx eq_refl) in Hm3.
  - split; [by eexists|]. by eexists.
Qed.

Lemma in_volume_id q r :
  linked ps r -> (Z.of_nat q + 1) * ps <= live_size_bytes (writer (dst_of r)) -> Z.of_nat q < u32_max.
Proof.
  intros Hr Hq. pose proof (st_size_fits _ (ck_store _ _ (lk_dst ps r Hr))) as Hf.
  change (live_size_bytes (writer (dst_of r)) / ps <= u32_max) in Hf.
  assert (Z.of_nat q + 1 <= live_size_bytes (writer (dst_of r)) / ps) by (apply Z.div_le_lower_bound; lia). lia.
Qed.

Lemma write_page_puts w q bs :
  st_ok w -> Z.of_nat (length bs) = ps ->
  exists w' res, write_page q bs w = (w', res) /\ st_puts q (Some bs) w w' /\ (res = Ok tt -> page_content w' q = Some bs).
Proof.
  intros Hw Hb. unfold write_page. rewrite run_bind. destruct (st_write_law (ps:=ps) w q bs Hw Hb) as [P1 P2]. simpl in P1, P2.
  destruct (write_page_unsynced q bs w) as [w1 [o|e]]; simpl in *; [|by eexists _, _].
  pose proof (st_sync_law (ps:=ps) w1 (sp_ok _ _ _ _ P1)) as K. simpl in K. destruct (page_index_sync w1) as [w2 res] eqn:E.
  eexists _, _. split; [reflexivity|]. split; [by eapply (puts_keeps ps)|]. intros _.
  simpl in K. rewrite <- (P2 o eq_refl). apply (sk_content _ _ K).
Qed.

Lemma apply_page_spec snap s q p h salt x :
  sourced snap (registry s) -> (Z.of_nat q + 1) * ps <= live_size_bytes (writer (dst_of (registry s))) ->
  entry_opens ps (writer (src_of (registry s))) p ((fun h => PageIndex.mkEntry h salt) <$> h) x ->
  page_outcome q x s (apply_page (l, d) snap q p h salt s).
Proof.
  intros Hs Hq Hx. pose proof (so_linked _ _ Hs) as Hl. unfold apply_page. rewrite run_bind. cbn [get]. rewrite run_bind.
  destruct (invalidate_moves (registry s) q Hl) as (r1 & E1 & M1 & A1). rewrite (on_unit_run _ _ _ _ _ _ E1).
  set (s1 := with_registry r1 s). assert (s1 = with_registry (registry s1) s) as Es by done.
  destruct (moved_le _ _ _ Hl M1) as (Ls & Ld & Ez). pose proof (sourced_moved _ _ _ _ Hs M1) as Hs1.
  apply (opens_le _ _ _ _ _ _ Ls) in Hx. rewrite <- (le_manifest _ _ Ld).
  pose proof (mv_linked _ _ _ _ M1) as Hl1. pose proof (ck_store _ _ (lk_dst ps r1 Hl1)) as Hd.
  rewrite <- Ez in Hq. pose proof (in_volume_id q r1 Hl1 Hq) as Hid.
  destruct h as [h|]; simpl in Hx.
  2: { destruct (bind_entry_spec ps Hps (writer (dst_of r1)) q None x Hd Hid Hx) as (w & res & E & Hp & Hr).
       by eapply (put_outcome _ q x s s1). }
  destruct (sourced_pool _ _ Hs1) as [Hb Hk]. rewrite (so_encrypted _ _ Hs1), (so_dek _ _ Hs1).
  destruct (rebind_is_sound _ _ p _ _ q) eqn:Er.
  - destruct (bind_entry_spec ps Hps (writer (dst_of r1)) q (Some (PageIndex.mkEntry h salt)) x Hd Hid) as (w & res & E & Hp & Hr).
    { apply (opens_rebound ps (writer (src_of r1)) _ p); try done; [apply (lk_src ps r1 Hl1)|by rewrite Hb]. }
    by eapply (put_outcome _ q x s s1).
  - rewrite run_bind. unfold decrypt_chunk. rewrite (so_handle _ _ Hs1).
    destruct (fetch_keeps p h salt r1 x Hl1 Hx) as (r2 & res & E2 & M2 & A2 & Hres).
    rewrite (on_unit_run _ _ _ s1 _ _ E2).
    assert (moved ps (put_page q (stored_at (writer (dst_of (registry s))) q)) (registry s) r2) as M3.
    { eapply moved_ext; [|exact (moved_trans ps Hps _ _ _ _ _ M1 M2)]. done. }
    destruct res as [bs|e]; [|exists r2; split; [done|]; right; eauto]. rewrite (Hres bs eq_refl) in Hx |- *.
    destruct Hx as (y & bs' & _ & _ & _ & _ & [= <-] & Hlen).
    destruct (write_page_puts (writer (dst_of r2)) q bs (ck_store _ _ (lk_dst ps r2 (mv_linked _ _ _ _ M3))) Hlen)
      as (w & res & E & Hp & Hr). eapply (put_outcome _ q (Some bs) s (with_registry r2 s1)); [done|exact M3|by apply A2|done..].
Qed.

(** ** Every page *)

Fixpoint token_writes (qs : list nat) (xs : list (option (list Z))) (p : nat) (b : list Z) : list Z :=
  match qs, xs with
  | q :: qs, x :: xs => token_writes qs xs p (put_page q (default (zeros ps) x) p b)
  | _, _ => b
  end.

Lemma put_other q qs a p b : p ∉ q :: qs -> put_page q a p b = b /\ p ∉ qs.
Proof.
  intros Hp%not_elem_of_cons. destruct Hp as [Hp Hq]. split; [|done]. unfold put_page.
  by rewrite bool_decide_eq_false_2.
Qed.

Lemma apply_token_spec snap list_id spp qs items xs committed s :
  sourced snap (registry s) ->
  Forall (fun q => (Z.of_nat q + 1) * ps <= live_size_bytes (writer (dst_of (registry s)))) qs ->
  Forall2 (item_holds ps (writer (src_of (registry s)))) items xs ->
  exists s' res, apply_token (l, d) snap list_id spp qs items committed s = (s', res) /\
    (res = Ok tt /\ moved ps (token_writes qs xs) (registry s) (registry s') \/
     (exists x, res = Err x /\ status x <> Good) /\
     exists f, moved ps f (registry s) (registry s') /\ forall p b, p ∉ qs -> f p b = b).
Proof.
  revert items xs committed s. induction qs as [|q qs IH]; intros items xs committed s Hs Hq Hx.
  { eexists _, _. split; [reflexivity|]. left. split; [done|]. eapply moved_ext; [|apply (moved_refl ps Hps), Hs]. done. }
  apply Forall_cons in Hq as [Hq Hqs]. destruct Hx as [|[[p h] salt] x items xs Hx Hxs].
  { eexists _, _. split; [reflexivity|]. left. split; [done|]. eapply moved_ext; [|apply (moved_refl ps Hps), Hs]. done. }
  cbn [apply_token]. rewrite run_bind. unfold in_job.
  destruct (apply_page_spec snap s q p h salt x Hs Hq Hx) as (r1 & E & Ho).
  destruct (apply_page (l, d) snap q p h salt s) as [s1 res]. simpl in E, Ho. subst s1.
  destruct Ho as [[-> M1]|[[e ->] [b M1]]].
  2: { eexists _, _. split; [reflexivity|]. right. split; [by eexists|]. exists (put_page q b). split; [exact M1|].
       intros p' b' Hp'. by apply (put_other q qs). }
  destruct (moved_le _ _ _ (so_linked _ _ Hs) M1) as (Ls & _ & Ez).
  destruct (IH items xs (sat_add64 committed spp) (with_registry r1 s)) as (s2 & res & -> & Hr); simpl.
  { by eapply sourced_moved. }
  { simpl in Ez. by rewrite Ez. }
  { eapply Forall2_impl; [exact Hxs|]. intros item x'. by apply item_holds_le. }
  eexists _, _. split; [reflexivity|]. destruct Hr as [[-> M2]|[He (f & M2 & Hf)]]; [left|right].
  - split; [done|]. eapply moved_ext; [|exact (moved_trans ps Hps _ _ _ _ _ M1 M2)]. done.
  - split; [done|]. eexists. split; [exact (moved_trans ps Hps _ _ _ _ _ M1 M2)|]. intros p' b' Hp'. cbn beta.
    destruct (put_other q qs (default (zeros ps) x) p' b' Hp') as [-> Hn]. by apply Hf.
Qed.

Lemma token_writes_other qs xs p b : p ∉ qs -> token_writes qs xs p b = b.
Proof.
  revert xs b. induction qs as [|q qs IH]; intros [|x xs] b Hp; try done. simpl.
  destruct (put_other q qs (default (zeros ps) x) p b Hp) as [-> Hn]. by apply IH.
Qed.

(** Pages written once each. *)
Lemma token_writes_at qs xs k q x p b :
  NoDup qs -> qs !! k = Some q -> xs !! k = Some x -> p = q -> token_writes qs xs p b = default (zeros ps) x.
Proof.
  intros Hn Hq Hx ->. revert xs k b Hq Hx. induction Hn as [|q' qs Hni Hn IH]; intros xs k b Hq Hx; [done|].
  destruct xs as [|x' xs]; [done|]. destruct k as [|k]; simpl in *; [|by eapply IH]. simplify_eq.
  rewrite token_writes_other by done. unfold put_page. by rewrite bool_decide_eq_true_2.
Qed.
End page.
End proofs.
