(* ===== verification/OdxHistory.v ===== *)
(** * Tokens over a history

    POPULATE TOKEN, any activity of the daemon, WRITE USING TOKEN: the
    theorem that a token is a snapshot, and two histories in which it is
    more and less than its holder should have. *)

From S2P Require Import Prelude Bytes BTreeMap Pr Reservations ReservationManager ReservationRender PageIndex UploadIndex BlockLru PoolBudget StateError PageLru Crypto VolumeWriter VolumeProofs VolumeHistory PageCache PageCacheProofs CacheBytes CacheHistory VolumeCache PageClone SbcData SbcProofs SbcHistory XCopy XCopyProofs XCopyPlan XCopyHistory Odx OdxProofs.

Local Open Scope Z_scope.

(** ** Ranges of whole pages *)

Record bd_aligned (spp : Z) (bd : Bdrd) : Prop := {
  ba_lba : 0 <= bd_lba bd;
  ba_blocks : 0 <= bd_blocks bd;
  ba_first : bd_blocks bd <> 0 -> bd_lba bd mod spp = 0;
  ba_count : bd_blocks bd <> 0 -> bd_blocks bd mod spp = 0;
}.

Lemma aligned_pages sector page spp bd p :
  0 < sector -> 0 < spp -> page = spp * sector -> bd_aligned spp bd -> bd_blocks bd <> 0 ->
  p ∈ range_pages sector page bd ->
  bd_lba bd * sector / page <= Z.of_nat p <= ((bd_lba bd + bd_blocks bd) * sector - 1) / page /\
  (Z.of_nat p + 1) * page <= (bd_lba bd + bd_blocks bd) * sector.
Proof.
  intros Hs Hp -> [B1 B2 B3 B4] Hb Hin. specialize (B3 Hb). specialize (B4 Hb).
  apply Z.div_exact in B3, B4; [|lia..]. set (a := bd_lba bd / spp) in *. set (n := bd_blocks bd / spp) in *.
  apply elem_of_seq in Hin. rewrite B3, B4 in *.
  replace (spp * a * sector) with (a * (spp * sector)) in * by ring.
  replace (spp * n * sector) with (n * (spp * sector)) in * by ring.
  replace ((spp * a + spp * n) * sector) with ((a + n) * (spp * sector)) by ring.
  assert (0 < spp * sector) as Hpos by nia. rewrite !Z.div_mul in * by lia.
  assert (0 <= a) by nia. assert (0 <= n) by nia.
  split; [|nia]. split; [lia|]. apply Z.div_le_lower_bound; [done|]. nia.
Qed.

Lemma check_ranges_ok c spp bdrds total total' :
  0 < sector_of c -> Forall (fun bd => 0 <= bd_lba bd /\ 0 <= bd_blocks bd) bdrds ->
  check_ranges (sizing_from c) spp bdrds total = Ok total' ->
  Forall (fun bd => bd_aligned spp bd /\ (bd_blocks bd <> 0 -> in_unit c (bd_lba bd) (bd_blocks bd))) bdrds.
Proof.
  intros Hs. revert total. induction bdrds as [|bd bdrds IH]; intros total Hb; [done|]. apply Forall_cons in Hb as [[H1 H2] Hb].
  simpl. destruct (bd_blocks bd =? 0) eqn:E0; [apply Z.eqb_eq in E0|apply Z.eqb_neq in E0].
  { intros Hc. constructor; [|by eapply IH]. split; [|done]. by split. }
  destruct (validate_in_range _ _) as [[]|] eqn:Ev; [|done]. destruct (_ || _) eqn:Ea; [done|]. intros Hc.
  apply orb_false_iff in Ea as [A1 A2]. rewrite !negb_false_iff, !Z.eqb_eq in *.
  constructor; [|by eapply IH]. split; [by split|]. intros _. by apply validated.
Qed.

Lemma pages_of_in sector page bdrds p :
  p ∈ pages_of sector page bdrds -> exists bd, bd ∈ bdrds /\ bd_blocks bd <> 0 /\ p ∈ range_pages sector page bd.
Proof.
  intros Hp. apply list_elem_of_In, in_concat in Hp as (ps & Hps & Hin). apply in_map_iff in Hps as (bd & <- & Hbd).
  apply filter_In in Hbd as [Hbd Hz]. exists bd. apply negb_true_iff, Z.eqb_neq in Hz.
  by rewrite !list_elem_of_In.
Qed.

Lemma ranges_in_ok plist a b bdrds :
  bytes_ok plist -> ranges_in plist a b = Ok bdrds -> Forall (fun bd => 0 <= bd_lba bd /\ 0 <= bd_blocks bd) bdrds.
Proof.
  intros Hb. unfold ranges_in, parse_bdrd_list. destruct (_ <? _); [done|]. destruct (negb _); [done|].
  case_bool_decide; [done|]. intros [= <-]. apply Forall_forall. intros bd (i & <- & _)%list_elem_of_In%in_map_iff.
  unfold bdrd_at. simpl. split; apply be_val_range; unfold sl; by repeat apply Forall_take; apply Forall_drop, Forall_take, Forall_drop.
Qed.

Lemma ranges_in_small plist a b bdrds :
  bytes_ok plist -> ranges_in plist a b = Ok bdrds ->
  (length bdrds <= ODX_MAX_RANGE_DESCRIPTORS)%nat /\ Forall (fun bd => bd_blocks bd < 2 ^ 32) bdrds.
Proof.
  intros Hb. unfold ranges_in, parse_bdrd_list. destruct (_ <? _); [done|]. destruct (negb _); [done|].
  case_bool_decide; [done|]. intros [= <-]. rewrite length_map, length_seq. split; [by apply Nat.nlt_ge|].
  apply Forall_forall. intros bd (i & <- & _)%list_elem_of_In%in_map_iff. simpl.
  match goal with |- be_val ?l < _ => assert (bytes_ok l) as Hl by (unfold sl; by repeat apply Forall_take; apply Forall_drop, Forall_take, Forall_drop);
    assert (length l <= 4)%nat as H4 by apply firstn_le_length end.
  eapply Z.lt_le_trans; [by apply be_val_range|]. change (2 ^ 32) with (256 ^ 4). apply Z.pow_le_mono_r; lia.
Qed.

(** The count of pages compared with the token's is that of the pages written. *)
Lemma page_total_length sector page spp bdrds :
  0 < sector -> 0 < spp -> page = spp * sector ->
  (length bdrds <= ODX_MAX_RANGE_DESCRIPTORS)%nat -> Forall (fun bd => 0 <= bd_blocks bd < 2 ^ 32) bdrds ->
  page_total spp bdrds = Z.of_nat (length (pages_of sector page bdrds)).
Proof.
  intros Hs Hp -> Hn Hb. unfold page_total.
  enough (forall n, 0 <= n -> n + 2 ^ 32 * Z.of_nat (length bdrds) <= u64_max ->
    foldl (fun n bd => if bd_blocks bd =? 0 then n else sat_add64 n (bd_blocks bd / spp)) n bdrds =
    n + Z.of_nat (length (pages_of sector (spp * sector) bdrds))) as ->; [done|lia|unfold u64_max, ODX_MAX_RANGE_DESCRIPTORS in *; lia|].
  clear Hn. induction Hb as [|bd bdrds Hbd Hb IH]; intros n H1 H2; [unfold pages_of; simpl; lia|].
  unfold pages_of in *. simpl in *. destruct (bd_blocks bd =? 0); simpl; [apply IH; lia|].
  rewrite length_app. unfold range_pages at 1. rewrite length_seq, Z.div_mul_cancel_r by lia.
  assert (0 <= bd_blocks bd / spp) by (apply Z.div_pos; lia).
  assert (bd_blocks bd / spp <= bd_blocks bd) by (apply Z.div_le_upper_bound; nia).
  unfold sat_add64. rewrite Z.min_r by lia. rewrite IH; lia.
Qed.

Section history.
Context `{VolumeCryptoLaws}.

(** ** POPULATE TOKEN *)

(** The unit [l] was read and flushed. *)
Record flushed (l : Z) (u : Lu) (s s' : Sys) (u' : Lu) : Prop := {
  fl_sys : s' = with_registry (registry s') s;
  fl_ok : registry_ok (registry s');
  fl_later : units_later (registry s) (registry s');
  fl_others : others_same l (registry s) (registry s');
  fl_unit : bt_get l (registry s') = Some u';
  fl_keeps : kept u u';
  fl_dirty : dirty (inner (lu_cache u')) ⊆ dirty (inner (lu_cache u));
}.

Lemma flushed_refl l u s : registry_ok (registry s) -> bt_get l (registry s) = Some u -> flushed l u s s u.
Proof.
  intros Hr Hu. split; try done; [by destruct s|apply units_later_refl|]. split; [apply later_refl|].
  pose proof (ro_unit _ Hr l u Hu) as [Hp [Hc _ _]]. pose proof (volume_laws _ Hp) as HL. by apply (keeps_refl (page_of (lu_cache u))).
Qed.

Lemma flushed_trans l u1 u2 u3 s1 s2 s3 : flushed l u1 s1 s2 u2 -> flushed l u2 s2 s3 u3 -> flushed l u1 s1 s3 u3.
Proof.
  intros [A1 A2 A3 A8 A4 [A5 A6] A7] [B1 B2 B3 B8 B4 [B5 B6] B7]. split; try done.
  - rewrite B1, A1. done.
  - by eapply units_later_trans.
  - by eapply others_trans.
  - split; [by eapply later_trans|]. unfold page_of in *. rewrite (later_manifest _ _ A5) in B6.
    destruct A6 as [K1 K2 K3], B6 as [J1 J2 J3]. split; [done| |intros p; by rewrite J3, K3].
    destruct K2, J2. split; simpl in *; [congruence..|by etrans].
  - by etrans.
Qed.

Lemma flush_unit l d u s first last :
  registry_ok (registry s) -> bt_get l (registry s) = Some u ->
  exists s' res u', map_err check (on_unit map_write_error (l, d) (flush_pages_in_range first last)) s = (s', res) /\
    flushed l u s s' u' /\
    (res = Ok tt -> forall p, p ∈ dirty (inner (lu_cache u')) -> in_range (first, last) p = false).
Proof.
  intros Hr Hu. pose proof (ro_unit _ Hr l u Hu) as [Hp [Hc _ _]]. set (ps := page_of (lu_cache u)) in *.
  pose proof (volume_laws ps Hp) as HL.
  destruct (flush_drain_spec ps (in_range (first, last)) (lu_cache u) Hc) as (c & res & E & Hk & Hd & Hr').
  assert (at_cache (unit_at (l, d)) (flush_pages_in_range first last) (registry s) = (share l c (registry s), res)) as E1.
  { unfold at_cache, zoom. rewrite (unit_at_get l d _ u Hu). unfold flush_pages_in_range. by rewrite E. }
  unfold map_err. rewrite (on_unit_run _ _ _ _ _ _ E1).
  destruct (share_step l c (registry s) u Hr Hu (ch_ok _ _ _ _ Hk) (ch_conf _ _ _ _ Hk)) as (S1 & S2 & S3 & S4).
  assert (flushed l u s (with_registry (share l c (registry s)) s) (with_cache c u)) as Hf.
  { split; try done; [by apply (share_others l c _ u); [..|apply Hk|apply Hk]|]. split; [|done]. split_and!; [done..|]. apply Hk. }
  destruct res as [[]|e]; eexists _, _, (with_cache c u); (split; [reflexivity|]); (split; [done|]); [intros _; exact (Hr' eq_refl)|done].
Qed.

Lemma flush_ranges_spec l d sector page spp bdrds u s :
  0 < sector -> 0 < spp -> page = spp * sector -> Forall (bd_aligned spp) bdrds ->
  registry_ok (registry s) -> bt_get l (registry s) = Some u ->
  exists s' res u', flush_ranges (l, d) sector page bdrds s = (s', res) /\ flushed l u s s' u' /\
    (res = Ok tt -> forall p, p ∈ pages_of sector page bdrds -> p ∉ dirty (inner (lu_cache u'))).
Proof.
  intros Hs Hp Ep. revert u s. induction bdrds as [|bd bdrds IH]; intros u s Hb Hr Hu.
  { eexists _, _, u. split; [reflexivity|]. split; [by apply flushed_refl|]. intros _ p Hin. by apply elem_of_nil in Hin. }
  apply Forall_cons in Hb as [Ha Hb]. cbn [flush_ranges]. destruct (bd_blocks bd =? 0) eqn:E0.
  { destruct (IH u s Hb Hr Hu) as (s' & res & u' & -> & Hf & Hd). eexists _, _, u'. split; [reflexivity|]. split; [done|].
    unfold pages_of. simpl. rewrite E0. exact Hd. }
  destruct (_ || _); [eexists _, _, u; split; [reflexivity|]; split; [by apply flushed_refl|done]|].
  rewrite run_bind.
  destruct (flush_unit l d u s (bd_lba bd * sector / page) (((bd_lba bd + bd_blocks bd) * sector - 1) / page) Hr Hu)
    as (s1 & res & u1 & -> & Hf1 & Hd1).
  destruct res as [[]|e]; [|eexists _, _, u1; split; [reflexivity|]; by split].
  destruct (IH u1 s1 Hb (fl_ok _ _ _ _ _ Hf1) (fl_unit _ _ _ _ _ Hf1)) as (s2 & res & u2 & -> & Hf2 & Hd2).
  eexists _, _, u2. split; [reflexivity|]. split; [by eapply flushed_trans|]. intros Hok p Hin.
  unfold pages_of in Hin. simpl in Hin. rewrite E0 in Hin. simpl in Hin. apply elem_of_app in Hin as [Hin|Hin]; [|by apply Hd2].
  intros Hdirty. apply (fl_dirty _ _ _ _ _ Hf2) in Hdirty. apply (Hd1 eq_refl) in Hdirty. apply Z.eqb_neq in E0.
  destruct (aligned_pages sector page spp bd p Hs Hp Ep Ha E0 Hin) as [Hrange _].
  unfold in_range in Hdirty. simpl in Hdirty. apply andb_false_iff in Hdirty. rewrite !Z.leb_gt in Hdirty. lia.
Qed.

(** A token POPULATE TOKEN made. *)
Record minted (reservations : ReservationManager) (req : ScsiRequest) (nexus : RegistrantId) (s s1 : Sys)
    (tok : list Z) (st : TokenState) (u u1 : Lu) : Prop := {
  mt_unit : bt_get (lun req) (registry s) = Some u;
  mt_unit1 : bt_get (lun req) (registry s1) = Some u1;
  mt_ok : registry_ok (registry s1);
  mt_later : units_later (registry s) (registry s1);
  mt_keeps : kept u u1;
  mt_read : allow_read reservations (lun req) nexus = true;
  mt_admitted : lun_admitted (registry s) (session_volumes req) (lun req) = true;
  mt_token : st = token_of (lun req) (lun req, lu_cache u) u1 (source_pages st) (token_blocks st) (token_deadline st);
  mt_clean p : p ∈ source_pages st -> p ∉ dirty (inner (lu_cache u1));
  mt_job : job_result (odx s1) (list_id_of req) = Some (mkJob Done (Some tok) (token_blocks st) (token_deadline st));
}.

(** However it ends, the unit was at most flushed; a token is over clean
    pages. *)
Lemma populate_body_run req u plist bdrds s s1 res :
  registry_ok (registry s) -> bt_get (lun req) (registry s) = Some u ->
  Forall (fun bd => 0 <= bd_lba bd /\ 0 <= bd_blocks bd) bdrds ->
  populate_body req u plist bdrds s = (s1, res) ->
  exists s2 u1, flushed (lun req) u s s2 u1 /\
    (s1 = s2 /\ (exists x, res = Err x) \/
     (exists pages total deadline, (forall p, p ∈ pages -> p ∉ dirty (inner (lu_cache u1))) /\
       let '(mgr, n) := mint_token (rng s2) (drawn s2) (list_id_of req)
         (token_of (lun req) (lun req, lu_cache u) (with_cache (lu_cache u1) u) pages total deadline) (odx s2) in
       s1 = mkSys (registry s2) mgr (clock s2) (rng s2) n)).
Proof.
  intros Hr Hu Hb E. pose proof (ro_unit _ Hr _ _ Hu) as [Hp [Hc Hsec Hpos]].
  assert (forall x, (s, Err x) = (s1, res) -> exists s2 u1, flushed (lun req) u s s2 u1 /\
    (s1 = s2 /\ (exists x, res = Err x) \/ False)) as Hstop.
  { intros x [= <- <-]. exists s, u. split; [by apply flushed_refl|]. eauto. }
  unfold populate_body in E. set (sector := cache_sector_size (lu_cache u)) in *. set (page := cache_page_size (lu_cache u)) in *.
  destruct (negb (page mod sector =? 0) || (page =? 0)) eqn:Em; [destruct (Hstop _ E) as (? & ? & ? & [?|[]]); eauto|].
  apply orb_false_iff in Em as [Em Ez]. apply negb_false_iff, Z.eqb_eq in Em. apply Z.eqb_neq in Ez.
  assert (0 < page) by (subst page; rewrite (ck_page _ _ Hc); lia).
  assert (0 < sector) by (subst sector; rewrite Hsec; lia).
  assert (page = page / sector * sector) as Ep by (apply Z.div_exact in Em; lia).
  assert (0 < page / sector) by (destruct (Z.le_gt_cases (page / sector) 0); nia).
  rewrite run_bind in E. destruct (check_ranges _ _ bdrds 0) as [total|] eqn:Ec;
    [|destruct (Hstop _ E) as (? & ? & ? & [?|[]]); eauto].
  change (checked (Ok total) s) with (s, @Ok Z ScsiResponse total) in E. cbv beta iota in E.
  pose proof (check_ranges_ok _ _ _ _ _ Hpos Hb Ec) as Ha.
  destruct (_ <? total); [destruct (Hstop _ E) as (? & ? & ? & [?|[]]); eauto|]. rewrite run_bind in E.
  destruct (flush_ranges_spec (lun req) (lu_cache u) sector page (page / sector) bdrds u s) as (s2 & r2 & u1 & E2 & Hf & Hd);
    try done; [eapply Forall_impl; [exact Ha|]; by intros ? []|].
  rewrite E2 in E. exists s2, u1. split; [done|]. destruct r2 as [[]|]; [|injection E as <- <-; eauto].
  rewrite run_bind in E. cbn [get] in E. rewrite (unit_at_get _ _ _ _ (fl_unit _ _ _ _ _ Hf)) in E.
  right. exists (pages_of sector page bdrds), total, (clock s2 + resolve_ttl (odx s2) (be_val (sl 4 4 plist))). split; [by apply Hd|].
  destruct (mint_token _ _ _ _ _) as [mgr n]. by injection E as <- <-.
Qed.

(** A new token is over the flushed unit. *)
Lemma populate_body_mints req u plist bdrds s s1 res tok st :
  registry_ok (registry s) -> bt_get (lun req) (registry s) = Some u ->
  Forall (fun bd => 0 <= bd_lba bd /\ 0 <= bd_blocks bd) bdrds ->
  populate_body req u plist bdrds s = (s1, res) -> tokens (odx s1) !! tok = Some st ->
  tokens (odx s) !! tok = Some st \/
  exists u1, flushed (lun req) u s (with_registry (registry s1) s) u1 /\
    st = token_of (lun req) (lun req, lu_cache u) u1 (source_pages st) (token_blocks st) (token_deadline st) /\
    (forall p, p ∈ source_pages st -> p ∉ dirty (inner (lu_cache u1))) /\
    job_result (odx s1) (list_id_of req) = Some (mkJob Done (Some tok) (token_blocks st) (token_deadline st)).
Proof.
  intros Hr Hu Hb E Htok. destruct (populate_body_run _ _ _ _ _ _ _ Hr Hu Hb E) as (s2 & u1 & Hf & Hm).
  pose proof (fl_sys _ _ _ _ _ Hf) as F1. assert (odx s2 = odx s) as Eo by (by rewrite F1).
  destruct Hm as [[-> _]|(pages & total & deadline & Hd & Hm)]; [left; by rewrite Eo in Htok|].
  unfold mint_token in Hm. destruct (fresh_token _ _ _ _) as [t n]. subst s1. simpl in Htok. rewrite lookup_insert, Eo in Htok.
  case_decide as Et; [right|by left]. injection Htok as <-. exists u1. simpl. split_and!.
  - rewrite F1 in Hf at 1. by rewrite F1.
  - unfold token_of. simpl. destruct (fl_keeps _ _ _ _ _ Hf) as [(_ & -> & _) _]. done.
  - done.
  - rewrite Et. apply lookup_insert_eq.
Qed.

(** POPULATE TOKEN ends before its body, or with it. *)
Lemma populate_gates reservations req nexus s s1 res :
  req_ok req -> populate_token reservations req nexus s = (s1, res) ->
  s1 = s \/ exists u plist bdrds, bt_get (lun req) (registry s) = Some u /\
    lun_admitted (registry s) (session_volumes req) (lun req) = true /\ allow_read reservations (lun req) nexus = true /\
    Forall (fun bd => 0 <= bd_lba bd /\ 0 <= bd_blocks bd) bdrds /\ populate_body req u plist bdrds s = (s1, res).
Proof.
  intros Hq E. unfold populate_token in E. rewrite run_bind in E. cbn [get] in E.
  destruct (lun_admitted _ _ _) eqn:Ea; [|left; by injection E]. destruct (allow_read _ _ _) eqn:Er; [|left; by injection E].
  cbn [negb] in E. destruct (bt_get (lun req) (registry s)) as [u|] eqn:Hu; [|left; by injection E].
  destruct (plist_len_of req =? 0); [left; by injection E|]. destruct (_ || _); [left; by injection E|].
  rewrite run_bind in E. destruct (ranges_in _ _ _) as [bdrds|] eqn:Eb; [|left; by injection E]. cbn in E.
  apply ranges_in_ok in Eb; [|apply Forall_take, Hq]. destruct bdrds as [|bd bdrds]; [left; by injection E|].
  right. by exists u, (take (Z.to_nat (plist_len_of req)) (data_out req)), (bd :: bdrds).
Qed.

Lemma populate_mints reservations req nexus s s1 res tok st :
  registry_ok (registry s) -> req_ok req -> populate_token reservations req nexus s = (s1, res) ->
  tokens (odx s1) !! tok = Some st ->
  tokens (odx s) !! tok = Some st \/ exists u u1, minted reservations req nexus s s1 tok st u u1.
Proof.
  intros Hr Hq E Htok. apply populate_gates in E as [->|(u & plist & bdrds & Hu & Ha & Har & Hb & E)]; [by left| |done].
  destruct (populate_body_mints _ _ _ _ _ _ _ tok st Hr Hu Hb E Htok) as [Ht|Hm]; [by left|right].
  destruct Hm as (u1 & [F1 F2 F3 _ F4 F5 F6] & Est & Hcl & Hj).
  exists u, u1. by split.
Qed.

Lemma minted_holds reservations req nexus s s1 tok st u u1 :
  minted reservations req nexus s s1 tok st u u1 ->
  (forall p, p ∈ source_pages st -> UploadIndex.read (upload_index (writer (lu_cache u1))) p = Uploaded) ->
  token_holds (registry s1) st u1 (map (page_content (writer (lu_cache u1))) (source_pages st)).
Proof.
  intros [M1 M2 M3 M4 M5 _ _ Et _ _] Hup. pose proof (ro_unit _ M3 _ _ M2) as [Hp [Hc _ _]].
  pose proof (ck_store _ _ Hc) as Hw. rewrite Et. split; try done. unfold token_items, token_of. simpl.
  generalize dependent (source_pages st). intros ps Et Hup. clear Et. induction ps as [|p ps IH]; simpl; [constructor|].
  constructor; [|apply IH; intros q Hq; apply Hup; by right]. unfold item_holds. simpl.
  destruct (get_entry (page_index (writer (lu_cache u1))) p) as [e|] eqn:Ee; simpl.
  - destruct (v_pages _ (good_wf _ (proj1 Hw)) p e Ee) as (bs & Hbs & _). rewrite Hbs.
    replace (PageIndex.mkEntry (hash e) (iv_salt e)) with e by (by destruct e).
    apply uploaded_opens; try done. apply Hup. by left.
  - unfold page_content. by rewrite Ee.
Qed.

(** ** WRITE USING TOKEN *)

Definition unit_page (r : VolumeRegistry) (l : Z) (p : nat) : list Z :=
  match bt_get l r with
  | Some u => @page_bytes _ (page_of (lu_cache u)) (volume_model (page_of (lu_cache u))) (lu_cache u) p
  | None => []
  end.

Definition page_uploaded (r : VolumeRegistry) (l : Z) (p : nat) : Prop :=
  match bt_get l r with
  | Some u => UploadIndex.read (upload_index (writer (lu_cache u))) p = Uploaded
  | None => False
  end.

Definition token_plist (req : ScsiRequest) : list Z := take (Z.to_nat (plist_len_of req)) (data_out req).
Definition token_named (req : ScsiRequest) : list Z := sl 16 ROD_TOKEN_LEN (token_plist req).
Definition ranges_named (req : ScsiRequest) : result (list Bdrd) SenseData :=
  ranges_in (token_plist req) (16 + ROD_TOKEN_LEN) (16 + ROD_TOKEN_LEN + 8).

(** The pages the ranges name on the unit. *)
Definition dst_pages (u : Lu) (bdrds : list Bdrd) : list nat :=
  pages_of (cache_sector_size (lu_cache u)) (cache_page_size (lu_cache u)) bdrds.

(** The token was written over the unit. *)
Record token_written (r r' : VolumeRegistry) (l : Z) (u : Lu) (st : TokenState) (qs : list nat) (xs : list (option (list Z))) : Prop := {
  tw_count : length qs = length (source_pages st);
  tw_size : source_page_size st = page_of (lu_cache u);
  tw_ok : registry_ok r';
  tw_later : units_later r r';
  tw_others : others_same l r r';
  tw_pages q : unit_page r' l q = token_writes (page_of (lu_cache u)) qs xs q (unit_page r l q);
}.

Lemma dst_pages_fit u spp bdrds q :
  unit_good (lu_cache u) -> 0 < spp -> cache_page_size (lu_cache u) = spp * cache_sector_size (lu_cache u) ->
  Forall (fun bd => bd_aligned spp bd /\ (bd_blocks bd <> 0 -> in_unit (lu_cache u) (bd_lba bd) (bd_blocks bd))) bdrds ->
  q ∈ dst_pages u bdrds -> (Z.of_nat q + 1) * page_of (lu_cache u) <= live_size_bytes (writer (lu_cache u)).
Proof.
  intros [Hp [Hc Hs Hz]] Hspp Ep Hb (bd & Hbd & H0' & Hin)%pages_of_in.
  destruct (proj1 (Forall_forall _ _) Hb bd Hbd) as [Ha Hi]. specialize (Hi H0').
  destruct (aligned_pages (cache_sector_size (lu_cache u)) (cache_page_size (lu_cache u)) spp bd q) as [_ Hq];
    [lia|done|done|done|done|done|].
  unfold in_unit in Hi. rewrite (ck_page _ _ Hc), Hs in Hq. lia.
Qed.

Lemma start_sourced l u snap us xs r ds d :
  registry_ok r -> bt_get l r = Some u -> token_holds r snap us xs ->
  source_decryptor snap = ((source_decryptor snap).1, ds) ->
  source_page_size snap = page_of (lu_cache u) -> source_backend snap = lu_backend u ->
  source_namespace snap = pool_namespace (manifest (writer (lu_cache u))) ->
  forall Hps, sourced (page_of (lu_cache u)) Hps r (source_decryptor snap).1 l ds d true snap r.
Proof.
  intros Hr Hu [T1 T2 T3 T4 T5 T6 T7] Eh Ep Eb En Hps. set (ls := (source_decryptor snap).1) in *.
  split; try done; rewrite ?(unit_at_get ls ds r us T1), ?(unit_at_get l d r u Hu); try congruence.
  change (from r ls l (page_of (lu_cache u)) true r). split; [done|apply units_later_refl| |done].
  exists us, u. split_and!; [split; [done|congruence]|done|]. symmetry. apply bool_decide_eq_true. congruence.
Qed.

Lemma moved_page ps Hps r0 ls l ds d sb f r r' u u' :
  let L := unit_linked ps Hps r0 (ls, ds) (l, d) sb in
  moved ps (Linked0 := L) f r r' -> at_unit l ps r u -> at_unit l ps r' u' ->
  forall q, unit_page r' l q = f q (unit_page r l q).
Proof.
  intros L [_ M2 _] [Hu Hp] [Hu' Hp'] q. rewrite (unit_at_get l d r u Hu), (unit_at_get l d r' u' Hu') in M2.
  unfold unit_page. rewrite Hu, Hu', Hp, Hp'. apply (ch_bytes _ _ _ _ M2).
Qed.

(** What passed the checks of WRITE USING TOKEN and was written, to its end
    or to the page that failed. *)
Record write_applies (req : ScsiRequest) (u : Lu) (tok : list Z) (bdrds : list Bdrd) (s s3 : Sys)
    (res : result ScsiResponse ScsiResponse) (st : TokenState) : Prop := {
  wa_token : tokens (odx s) !! tok = Some st;
  wa_page : source_page_size st = page_of (lu_cache u);
  wa_backend : source_backend st = lu_backend u;
  wa_namespace : source_namespace st = pool_namespace (manifest (writer (lu_cache u)));
  wa_count : length (dst_pages u bdrds) = length (source_pages st);
  wa_fit : Forall (fun q => (Z.of_nat q + 1) * page_of (lu_cache u) <= live_size_bytes (writer (lu_cache u))) (dst_pages u bdrds);
  wa_run : exists spp s1 r1,
    apply_token (lun req, lu_cache u) st (list_id_of req) spp (dst_pages u bdrds) (token_items st) 0 s = (s1, r1) /\
    registry s3 = registry s1 /\ res = match r1 with Ok _ => Ok (good []) | Err x => Err x end /\
    tokens (odx s3) = tokens (odx s1);
}.

Lemma write_body_run req u tok bdrds s s3 res :
  unit_good (lu_cache u) -> page_of (lu_cache u) mod sector_of (lu_cache u) = 0 ->
  ranges_named req = Ok bdrds -> bytes_ok (data_out req) ->
  write_body req u tok bdrds s = (s3, res) ->
  (exists st, write_applies req u tok bdrds s s3 res st) \/
  registry s3 = registry s /\ tokens (odx s3) = tokens (odx s) /\ exists x, res = Err x.
Proof.
  intros Hg Hdiv Hn Hdata E. assert (bytes_ok (token_plist req)) as Hbs by by apply Forall_take.
  pose proof (ranges_in_ok _ _ _ _ Hbs Hn) as Hb. pose proof (ranges_in_small _ _ _ _ Hbs Hn) as [Hcount Hsmall].
  pose proof Hg as [Hp [Hc Hs Hz]]. unfold write_body in E. rewrite run_bind in E. cbn [get] in E. unfold snapshot_for in E.
  assert (forall x, job_failed (list_id_of req) 0 x s = (s3, res) -> registry s3 = registry s /\ tokens (odx s3) = tokens (odx s) /\
    exists x, res = Err x) as Hjob by (intros x; unfold job_failed; rewrite run_bind; intros [= <- <-]; eauto).
  destruct (tokens (odx s) !! tok) as [st|] eqn:Ht; [|right; cbn [negb] in E; by eapply Hjob].
  destruct (token_deadline st <=? clock s); [right; cbn [negb] in E; by eapply Hjob|].
  destruct (page_size _ =? source_page_size st) eqn:Eps; [|right; cbn [negb] in E; by eapply Hjob]. cbn [negb] in E. apply Z.eqb_eq in Eps.
  change (page_of (lu_cache u) = source_page_size st) in Eps.
  set (sector := cache_sector_size (lu_cache u)) in *. set (page := cache_page_size (lu_cache u)) in *.
  assert (page = page_of (lu_cache u)) as Epage by apply (ck_page _ _ Hc). rewrite <- Epage, <- Hs in Hdiv.
  apply Z.div_exact in Hdiv; [|lia]. assert (0 < page / sector) by (destruct (Z.le_gt_cases (page / sector) 0); nia).
  destruct (check_ranges _ _ bdrds 0) as [total|] eqn:Ec; [|right; cbn [negb] in E; by eapply Hjob].
  pose proof (check_ranges_ok _ _ _ _ _ Hz Hb Ec) as Ha.
  destruct (page_total _ _ =? _) eqn:Et; [|right; cbn [negb] in E; by eapply Hjob]. cbn [negb] in E. apply Z.eqb_eq in Et.
  rewrite (page_total_length sector page) in Et; [|lia|done|lia|done|eapply Forall_and; split; [eapply Forall_impl; [exact Hb|naive_solver]|done]].
  destruct (bool_decide _ && bool_decide _) eqn:Epool; [|right; cbn [negb] in E; by eapply Hjob]. cbn [negb] in E.
  apply andb_true_iff in Epool as [Eb%bool_decide_eq_true En%bool_decide_eq_true].
  left. exists st. split; try done.
  - apply Nat2Z.inj. exact Et.
  - apply Forall_forall. intros q Hq. eapply (dst_pages_fit u (page / sector)); try done. lia.
  - exists (page / sector). rewrite run_bind in E. change (pages_of sector page bdrds) with (dst_pages u bdrds) in E.
    destruct (apply_token _ _ _ _ _ _ _ s) as [s1 [[]|x]]; [rewrite run_bind in E|]; injection E as <- <-; eexists s1, _; split_and!; done.
Qed.

Lemma write_body_spec req u tok st us xs bdrds ds s s3 res :
  registry_ok (registry s) -> bt_get (lun req) (registry s) = Some u ->
  token_holds (registry s) st us xs -> source_decryptor st = ((source_decryptor st).1, ds) ->
  write_applies req u tok bdrds s s3 res st ->
  registry_ok (registry s3) /\ units_later (registry s) (registry s3) /\ others_same (lun req) (registry s) (registry s3) /\
  (forall y, res = Ok y -> token_written (registry s) (registry s3) (lun req) u st (dst_pages u bdrds) xs).
Proof.
  intros Hr Hu Hh Eh [W1 W2 W3 W4 W5 W6 (spp & s1 & r1 & E & Er & Hok & _)].
  pose proof (ro_unit _ Hr _ _ Hu) as [Hp _].
  pose proof (start_sourced _ _ _ _ _ _ _ (lu_cache u) Hr Hu Hh Eh W2 W3 W4 Hp) as Hso.
  destruct (apply_token_spec (page_of (lu_cache u)) Hp (registry s) (source_decryptor st).1 (lun req) ds (lu_cache u) true st
    (list_id_of req) spp (dst_pages u bdrds) (token_items st) xs 0 s Hso) as (s1' & res' & E1 & Ho).
  - by rewrite (unit_at_get _ _ _ _ Hu).
  - rewrite (unit_at_get _ _ _ _ (th_unit _ _ _ _ Hh)). rewrite <- W2, (th_page _ _ _ _ Hh). apply Hh.
  - rewrite E in E1. injection E1 as <- <-.
    assert (exists f, moved (page_of (lu_cache u)) (Linked0 := page_linked (page_of (lu_cache u)) Hp (registry s) (source_decryptor st).1 (lun req) ds (lu_cache u) true) f (registry s) (registry s1)) as [f M]
      by (destruct Ho as [[_ M]|[_ (f & M & _)]]; eauto).
    pose proof (mv_linked _ _ _ _ M) as Hl.
    change (from (registry s) (source_decryptor st).1 (lun req) (page_of (lu_cache u)) true (registry s1)) in Hl.
    pose proof Hl as [F1 F2 (v & v' & Hv & Hv' & _) F4]. rewrite Er. split_and!; [done..|]. intros y Hy.
    destruct Ho as [[-> M']|[(x & -> & _) _]]; [|by rewrite Hok in Hy].
    split; try done. by eapply (moved_page _ Hp).
Qed.

(** What passed the gates, and the pages it wrote. *)
Lemma write_token_gates reservations req nexus s s3 res :
  write_using_token reservations req nexus s = (s3, res) ->
  (s3 = s /\ forall y bdrds, res = Ok y -> ranges_named req = Ok bdrds -> bdrds = []) \/
  exists u bdrds, bt_get (lun req) (registry s) = Some u /\ worm (manifest (writer (lu_cache u))) = false /\
    allow_write reservations (lun req) nexus = true /\ lun_admitted (registry s) (session_volumes req) (lun req) = true /\
    ranges_named req = Ok bdrds /\ bdrds <> [] /\ write_body req u (token_named req) bdrds s = (s3, res).
Proof.
  intros E. unfold write_using_token in E. rewrite run_bind in E. cbn [get] in E.
  destruct (lun_admitted _ _ _) eqn:Ea; [|left; by injection E as <- <-]. cbn [negb] in E.
  destruct (bt_get (lun req) (registry s)) as [u|] eqn:Hu; [|left; by injection E as <- <-].
  destruct (worm _) eqn:Ew; [left; by injection E as <- <-|].
  destruct (allow_write _ _ _) eqn:Er; [|left; by injection E as <- <-]. cbn [negb] in E.
  destruct (plist_len_of req =? 0) eqn:E0.
  { left. injection E as <- <-. split; [done|]. intros y bdrds _. unfold ranges_named, token_plist. by apply Z.eqb_eq in E0 as ->. }
  destruct (_ || _); [left; by injection E as <- <-|]. rewrite run_bind in E.
  change (ranges_in _ _ _) with (ranges_named req) in E.
  destruct (ranges_named req) as [bdrds|] eqn:Eb; [|left; by injection E as <- <-].
  destruct bdrds as [|bd bdrds]; [left; injection E as <- <-; naive_solver|]. right. exists u, (bd :: bdrds). by split_and!.
Qed.

Lemma write_token_spec reservations req nexus u tok st us xs bdrds ds s s3 y :
  registry_ok (registry s) -> bt_get (lun req) (registry s) = Some u -> tokens (odx s) !! tok = Some st ->
  token_holds (registry s) st us xs -> source_decryptor st = ((source_decryptor st).1, ds) ->
  page_of (lu_cache u) mod sector_of (lu_cache u) = 0 -> req_ok req ->
  token_named req = tok -> ranges_named req = Ok bdrds -> bdrds <> [] ->
  write_using_token reservations req nexus s = (s3, Ok y) ->
  token_written (registry s) (registry s3) (lun req) u st (dst_pages u bdrds) xs.
Proof.
  intros Hr Hu Ht Hh Eh Hdiv Hq Hn Hb Hne E.
  apply write_token_gates in E as [[_ E]|(u' & bdrds' & Hu' & _ & _ & _ & Hb' & _ & E)]; [by destruct (E y bdrds eq_refl)|]. simplify_eq.
  apply write_body_run in E as [(st' & E)|(_ & _ & x & Hx)]; try done; [|by apply (ro_unit _ Hr (lun req))|apply Hq].
  pose proof (wa_token _ _ _ _ _ _ _ _ E) as Ht'. simplify_eq. assert (bdrds' = bdrds) as -> by congruence. destruct (write_body_spec _ _ _ _ _ _ _ _ _ _ _ Hr Hu Hh Eh E) as (_ & _ & _ & Hw). by eapply Hw.
Qed.

Lemma kept_page r r' l u u' p :
  bt_get l r = Some u -> bt_get l r' = Some u' -> kept u u' -> unit_page r' l p = unit_page r l p.
Proof.
  intros Hu Hu' [Hl Hk]. unfold unit_page. rewrite Hu, Hu'. unfold page_of. rewrite (later_manifest _ _ Hl).
  apply (ch_bytes _ _ _ _ Hk).
Qed.

(** What a page of the token reads as. *)
Lemma minted_page reservations req nexus s s1 tok st u u1 p :
  minted reservations req nexus s s1 tok st u u1 -> p ∈ source_pages st ->
  default (zeros (page_of (lu_cache u1))) (page_content (writer (lu_cache u1)) p) = unit_page (registry s) (lun req) p.
Proof.
  intros [M1 M2 M3 M4 M5 _ _ _ Hcl _] Hp. rewrite <- (kept_page _ _ _ _ _ p M1 M2 M5). unfold unit_page. rewrite M2.
  destruct (ro_unit _ M3 _ _ M2) as [Hps [Hc _ _]]. pose proof (volume_laws _ Hps) as HL.
  exact (clean_stored (page_of (lu_cache u1)) (lu_cache u1) p Hc (Hcl p Hp)).
Qed.


(** The token in the answer. *)
Lemma rrti_token job tok n :
  job_token job = Some tok -> length tok = ROD_TOKEN_LEN -> (552 <= n)%nat ->
  sl 40 ROD_TOKEN_LEN (take n (build_rrti_response (Some job))) = tok.
Proof.
  intros Ej Hl Hn. unfold sl. rewrite skipn_firstn_comm, firstn_firstn.
  replace (ROD_TOKEN_LEN `min` (n - 40))%nat with ROD_TOKEN_LEN by (unfold ROD_TOKEN_LEN; lia).
  unfold build_rrti_response, with_available. change (Some job ≫= job_token) with (job_token job). rewrite Ej, !app_assoc.
  rewrite drop_app_length'; [by apply take_ge; rewrite Hl|]. rewrite !length_app, !length_be_bytes. reflexivity.
Qed.

(** C39: a token is for whoever asks.  Once POPULATE TOKEN has made a token
    for one session, RECEIVE ROD TOKEN INFORMATION with its list identifier
    hands it to any session whatever: nothing of the request but its CDB
    counts, not the initiator, not the volumes its session was admitted to. *)
Theorem token_for_any_session r0 evs reservations req nexus s s1 x tok st rq :
  fresh_registry r0 -> Forall (registry_event_ok r0) evs -> req_ok req -> registry s = run_registry evs r0 ->
  populate_token reservations req nexus s = (s1, Ok x) ->
  tokens (odx s) !! tok = None -> tokens (odx s1) !! tok = Some st -> length tok = ROD_TOKEN_LEN ->
  (16 <= length (cdb rq))%nat -> Z.land (at_ (cdb rq) 1) 0x1F = 0x07 ->
  be_val (sl 2 4 (cdb rq)) = list_id_of req -> 552 <= be_val (sl 10 4 (cdb rq)) ->
  exists z, receive_copy_results rq s1 = (s1, Ok z) /\ status z = Good /\ sl 40 ROD_TOKEN_LEN (data_in z) = tok.
Proof.
  intros Hf Hev Hq Es Ep Hno Ht Hl Hlen Hsa Hid Ha.
  assert (registry_ok (registry s)) as Hr by (rewrite Es; apply run_registry_ok; [by apply fresh_ok|done]).
  destruct (populate_mints _ _ _ _ _ _ _ _ Hr Hq Ep Ht) as [|(v & v1 & Hm)]; [congruence|]. apply mt_job in Hm.
  unfold receive_copy_results. rewrite bool_decide_eq_false_2 by lia. rewrite run_bind. cbn [get]. rewrite run_bind, Hsa, Hid, Hm.
  eexists. split; [reflexivity|]. split; [reflexivity|]. apply rrti_token; [done..|lia].
Qed.
End history.

(** ** A token on two volumes *)

Definition odx_request (l sa list_id : Z) (data : list Z) (who : Z) (session : option (list (list Z))) : ScsiRequest :=
  mkRequest 65 l ([0x83; sa; 0; 0; 0; 0; 0; 0; 0; list_id] ++ be_bytes 4 (Z.of_nat (length data)) ++ [0; 0]) data 0
    (Some [who]) [0; 0; 0; 0; 0; who] session.

Definition bdrd (at_lba count : Z) : list Z := be_bytes 8 at_lba ++ be_bytes 4 count ++ replicate 4 0.

Definition populate_request (l at_lba count who : Z) (session : option (list (list Z))) : ScsiRequest :=
  odx_request l 0x10 7 (replicate 14 0 ++ be_bytes 2 16 ++ bdrd at_lba count) who session.

Definition wut_request (l at_lba count : Z) (token : list Z) (who : Z) (session : option (list (list Z))) : ScsiRequest :=
  odx_request l 0x11 8 (replicate 16 0 ++ token ++ be_bytes 2 16 ++ replicate 6 0 ++ bdrd at_lba count) who session.

(** Host 66 was admitted to volume 2 alone. *)
Definition rrti_request : ScsiRequest :=
  mkRequest 66 1 ([0x84; 7; 0; 0; 0; 7; 0; 0; 0; 0] ++ be_bytes 4 600 ++ [0; 0]) [] 600 (Some [66]) [0; 0; 0; 0; 0; 66] (Some [[2]]).

Definition token_sys : Sys := mkSys copy_state tokens_new 1000 (fun n => replicate 512 (Z.of_nat n)) 0.
Definition first_token : list Z := replicate 512 0.

(** Host 65 makes a token of page 0 of unit 0. *)
Definition populate_0 : ScsiRequest := populate_request 0 0 2 65 (Some [[1]]).

Notation populated := (@populate_token model_crypto new populate_0 (nexus_from_request populate_0) token_sys).

(** The page is written over, and host 66 uses the token on unit 1. *)
Definition overwrite : list RegistryEvent := [RUnit 0 (UScsi new (host_request 0x2A 0 1 [77; 78] 0 65)); RUnit 0 (UActivity CFlushAll)].

Notation overwritten := (with_registry (@run_registry model_crypto overwrite (registry populated.1)) populated.1).

Definition use_on_1 : ScsiRequest := wut_request 1 2 2 first_token 66 (Some [[2]]).

Notation used := (@write_using_token model_crypto new use_on_1 (nexus_from_request use_on_1) overwritten).

Definition the_token (s : Sys) : TokenState :=
  default (@token_of 0 (0, lu_cache (copy_unit 1)) (copy_unit 1) [] 0 0) (tokens (odx s) !! first_token).

Definition unit_1 (s : Sys) : Lu := default (copy_unit 2) (bt_get 1 (registry s)).

Lemma populate_0_ok : req_ok populate_0.
Proof. split; [apply bytes_check; vm_compute; reflexivity..|done]. Qed.
Lemma use_on_1_ok : req_ok use_on_1.
Proof. split; [apply bytes_check; vm_compute; reflexivity..|done]. Qed.

Lemma odx_with r s : odx (with_registry r s) = odx s.
Proof. reflexivity. Qed.

Lemma token_page_0 : source_pages (the_token populated.1) = [0%nat] /\
  tokens (odx token_sys) !! first_token = None /\
  bool_decide (is_Some (tokens (odx populated.1) !! first_token)) = true /\
  match bt_get 0 (registry populated.1) with
  | Some u => bool_decide (UploadIndex.read (upload_index (writer (lu_cache u))) 0 = Uploaded)
  | None => false
  end = true.
Proof. split; [|split; [|split]]; vm_compute; reflexivity. Qed.

Lemma token_there s : bool_decide (is_Some (tokens (odx s) !! first_token)) = true ->
  tokens (odx s) !! first_token = Some (the_token s).
Proof. unfold the_token. intros [st ->]%bool_decide_eq_true. reflexivity. Qed.

Lemma overwriting_ok r : Forall (@registry_event_ok model_crypto r) overwrite.
Proof.
  repeat (apply Forall_cons; split); [intros u _; request_ok|intros u _; exact I|constructor].
Qed.

Lemma unit_1_there :
  bt_get 1 (registry overwritten) = Some (unit_1 overwritten) /\
  page_of (lu_cache (unit_1 overwritten)) mod sector_of (lu_cache (unit_1 overwritten)) = 0 /\
  dst_pages (unit_1 overwritten) [mkBdrd 2 2] = [1%nat].
Proof.
  split; [|split; vm_compute; reflexivity].
  assert (bool_decide (is_Some (bt_get 1 (registry overwritten))) = true) as E by (vm_compute; reflexivity).
  unfold unit_1. revert E. generalize (bt_get 1 (registry overwritten)). intros o [u ->]%bool_decide_eq_true. reflexivity.
Qed.


(** Host 66 learns host 65's token, and reads unit 0 through it. *)
Lemma token_for_any_session_witness :
  (exists z, receive_copy_results rrti_request populated.1 = (populated.1, Ok z) /\ status z = Good /\
     sl 40 ROD_TOKEN_LEN (data_in z) = first_token) /\
  lun_admitted copy_state (session_volumes rrti_request) 0 = false /\
  map (@unit_byte model_crypto (registry used.1) 1) [4; 5; 6; 7] = [1; 2; 3; 4].
Proof.
  split; [|split; vm_compute; reflexivity]. destruct token_page_0 as (_ & Hno & Ht & _).
  apply (@token_for_any_session model_crypto model_crypto_laws two_units before_copy new populate_0
    (nexus_from_request populate_0) token_sys populated.1 (good []) first_token (the_token populated.1) rrti_request).
  - exact two_units_fresh.
  - exact before_copy_ok.
  - exact populate_0_ok.
  - reflexivity.
  - apply ends_in. vm_compute. reflexivity.
  - exact Hno.
  - apply token_there. exact Ht.
  - reflexivity.
  - vm_compute. lia.
  - reflexivity.
  - reflexivity.
  - vm_compute. discriminate.
Defined.

(** ** A page marked as stored that is not *)

(** Page 1 of unit 0 is not in storage yet when its token is made and used
    on page 2. *)
Definition populate_1 : ScsiRequest := populate_request 0 2 2 65 (Some [[1]]).
Definition use_on_0 : ScsiRequest := wut_request 0 4 2 first_token 65 (Some [[1]]).

Definition early : Sys :=
  (@write_using_token model_crypto new use_on_0 (nexus_from_request use_on_0)
    (@populate_token model_crypto new populate_1 (nexus_from_request populate_1) token_sys).1).1.

Definition sync_page_2 : ScsiRequest := host_request 0x35 4 2 [] 0 65.

(** WRITE USING TOKEN claims too much.  Page 1 of unit 0 is in the local
    pool alone when a token is made of it; WRITE USING TOKEN marks page 2,
    which now names the same chunk, [Uploaded].  SYNCHRONIZE CACHE of page 2
    under the storage tier then answers GOOD at once, and storage does not
    have the chunk. *)
Theorem token_page_not_stored :
  match bt_get 0 (registry early) with
  | Some u =>
      let w := writer (lu_cache u) in
      rt_sync_after (live (lu_cache u)) = Storage /\
      (@synchronize_cache model_crypto new sync_page_2 (nexus_from_request sync_page_2) (lu_cache u)).2 = Ok (Some (good [])) /\
      UploadIndex.read (upload_index w) 1 = LocalOnly /\ UploadIndex.read (upload_index w) 2 = Uploaded /\
      exists e, get_entry (page_index w) 2 = Some e /\ backend w !! hash e = None
  | None => False
  end.
Proof.
  assert (match bt_get 0 (registry early) with
    | Some u =>
        let w := writer (lu_cache u) in
        (rt_sync_after (live (lu_cache u)),
         (@synchronize_cache model_crypto new sync_page_2 (nexus_from_request sync_page_2) (lu_cache u)).2,
         UploadIndex.read (upload_index w) 1, UploadIndex.read (upload_index w) 2,
         (fun e => bool_decide (backend w !! hash e = None)) <$> get_entry (page_index w) 2) =
        (Storage, Ok (Some (good [])), LocalOnly, Uploaded, Some true)
    | None => False
    end) as E by (vm_compute; reflexivity).
  revert E. generalize (bt_get 0 (registry early)). intros [u|] E; [|exact E]. cbv zeta in *.
  injection E as E1 E2 E3 E4 E5. split_and!; [exact E1|exact E2|exact E3|exact E4|].
  apply fmap_Some in E5 as (e & He & Hb). exists e. split; [exact He|]. symmetry in Hb. by apply bool_decide_eq_true in Hb.
Qed.
