(* ===== verification/Sessions.v ===== *)
(** * iSCSI sessions ([shared/iscsi/src])

    [session.rs]: the table of sessions, the session identifiers handed out
    at login, command numbering and response numbering per connection.
    [unit_attention.rs]: what each session has yet to be told about a unit.
    [reservation_sink.rs]: reservation changes become unit attentions. *)

From stdpp Require Import gmap.
From S2P Require Import Prelude Reservations.

Local Open Scope Z_scope.

(** ** Sessions *)

Record Connection : Type := mkConnection {
  conn_cid : Z;
  exp_cmd_sn : Z;
  cmd_sn_initialized : bool;
  stat_sn : Z;
  max_recv_data_segment_length : Z;
}.

#[export] Instance Connection_eq_dec : EqDecision Connection.
Proof. solve_decision. Defined.

(** Times are in nanoseconds. *)
Record Session : Type := mkSession {
  s_tsih : Z;
  s_isid : list Z;
  connections : gmap Z Connection;
  last_activity : Z;
  s_partition : option (list Z);
  s_initiator_iqn : option (list Z);
  authenticated_user : option (list Z);
}.

Record SessionManager : Type := mkSessions {
  sessions : gmap Z Session;
  next_tsih : Z;
}.

Inductive IscsiError : Type := InvalidSession (tsih : Z) | IscsiInvalidOp.

Definition CMDSN_WINDOW : Z := 32.
Definition u16_max : Z := 65535.

Definition sessions_new : SessionManager := mkSessions ∅ 1.

Definition next_after (tsih : Z) : Z :=
  let t := (tsih + 1) mod 65536 in
  if t =? 0 then 1 else t.

(** The scan for an identifier no session has. *)
Fixpoint scan_tsih (n : nat) (live : gmap Z Session) (tsih : Z) : Z :=
  match n with
  | O => tsih
  | S n =>
      if negb (tsih =? 0) && bool_decide (live !! tsih = None) then tsih
      else scan_tsih n live (next_after tsih)
  end.

(** [0..=u16::MAX] *)
Definition scan_turns : nat := Z.to_nat 65536.

Definition create_session (isid : list Z) (now : Z) (m : SessionManager) : SessionManager * Z :=
  let tsih := scan_tsih scan_turns (sessions m) (next_tsih m) in
  (mkSessions (<[tsih := mkSession tsih isid ∅ now None None None]> (sessions m)) (next_after tsih), tsih).

Definition with_session (f : Session -> Session) (tsih : Z) (m : SessionManager) : SessionManager :=
  mkSessions (alter f tsih (sessions m)) (next_tsih m).

Definition set_connections (f : gmap Z Connection -> gmap Z Connection) (s : Session) : Session :=
  mkSession (s_tsih s) (s_isid s) (f (connections s)) (last_activity s) (s_partition s) (s_initiator_iqn s)
    (authenticated_user s).

Definition add_connection (tsih cid max now : Z) (m : SessionManager) : SessionManager * result unit IscsiError :=
  match sessions m !! tsih with
  | None => (m, Err (InvalidSession tsih))
  | Some _ =>
      (with_session (fun s => mkSession (s_tsih s) (s_isid s)
          (<[cid := mkConnection cid 0 false 1 max]> (connections s)) now (s_partition s) (s_initiator_iqn s)
          (authenticated_user s)) tsih m, Ok tt)
  end.

Definition remove_connection (tsih cid : Z) (m : SessionManager) : SessionManager * result unit IscsiError :=
  match sessions m !! tsih with
  | None => (m, Err (InvalidSession tsih))
  | Some s =>
      let conns := delete cid (connections s) in
      if bool_decide (conns = ∅) then (mkSessions (delete tsih (sessions m)) (next_tsih m), Ok tt)
      else (with_session (set_connections (delete cid)) tsih m, Ok tt)
  end.

Definition set_partition (tsih : Z) (p : option (list Z)) (m : SessionManager) :
    SessionManager * result unit IscsiError :=
  match sessions m !! tsih with
  | None => (m, Err (InvalidSession tsih))
  | Some s =>
      match s_partition s with
      | Some existing =>
          match p with
          | Some new => if bool_decide (existing = new) then (m, Ok tt) else (m, Err IscsiInvalidOp)
          | None => (m, Ok tt)
          end
      | None =>
          (with_session (fun s => mkSession (s_tsih s) (s_isid s) (connections s) (last_activity s) p
             (s_initiator_iqn s) (authenticated_user s)) tsih m, Ok tt)
      end
  end.

Definition partition_for (tsih : Z) (m : SessionManager) : option (list Z) := sessions m !! tsih ≫= s_partition.

Definition set_initiator_iqn (tsih : Z) (iqn : option (list Z)) (m : SessionManager) : SessionManager :=
  with_session (fun s => mkSession (s_tsih s) (s_isid s) (connections s) (last_activity s) (s_partition s) iqn
    (authenticated_user s)) tsih m.

Definition set_authenticated_user (tsih : Z) (user : option (list Z)) (m : SessionManager) : SessionManager :=
  with_session (fun s => mkSession (s_tsih s) (s_isid s) (connections s) (last_activity s) (s_partition s)
    (s_initiator_iqn s) user) tsih m.

Definition tsihs (keep : Session -> bool) (m : SessionManager) : list Z :=
  map s_tsih (List.filter keep (map snd (map_to_list (sessions m)))).

Definition tsihs_for_user (username : list Z) (m : SessionManager) : list Z :=
  tsihs (fun s => bool_decide (authenticated_user s = Some username)) m.

Definition tsihs_for (iqn : option (list Z)) (isid : list Z) (collapse_isid : bool) (m : SessionManager) : list Z :=
  tsihs (fun s => bool_decide (s_initiator_iqn s = iqn) && (collapse_isid || bool_decide (s_isid s = isid))) m.

Definition active_tsihs (m : SessionManager) : list Z := tsihs (fun _ => true) m.

Definition cleanup_stale_sessions (now timeout_seconds : Z) (m : SessionManager) : SessionManager :=
  mkSessions (filter (fun e => connections e.2 <> ∅ \/ (now - last_activity e.2) / 1000000000 <= timeout_seconds) (sessions m))
    (next_tsih m).

(** ** Command numbering *)

Inductive CmdSnVerdict : Type := Accept | Duplicate | OutOfWindow.

Definition wrap32 (z : Z) : Z := z mod 2 ^ 32.

(** The window check of one connection. *)
Definition check_number (c : Connection) (cmdsn : Z) : Connection * CmdSnVerdict :=
  let seen exp := mkConnection (conn_cid c) exp true (stat_sn c) (max_recv_data_segment_length c) in
  if negb (cmd_sn_initialized c) then (seen (wrap32 (cmdsn + 1)), Accept)
  else
    let exp := exp_cmd_sn c in
    let ahead := wrap32 (cmdsn - exp) in
    let behind := wrap32 (exp - cmdsn) in
    if ahead =? 0 then (seen (wrap32 (exp + 1)), Accept)
    else if ahead <=? CMDSN_WINDOW then (c, OutOfWindow)
    else if behind <=? CMDSN_WINDOW then (c, Duplicate)
    else (c, OutOfWindow).

Definition connection_of (tsih cid : Z) (m : SessionManager) : option Connection :=
  s ← sessions m !! tsih; connections s !! cid.

Definition check_cmdsn (tsih cid cmdsn : Z) (immediate : bool) (m : SessionManager) :
    SessionManager * result CmdSnVerdict IscsiError :=
  if immediate then (m, Ok Accept)
  else
    match connection_of tsih cid m with
    | None => (m, Err (InvalidSession tsih))
    | Some c =>
        let '(c', verdict) := check_number c cmdsn in
        (with_session (set_connections (insert cid c')) tsih m, Ok verdict)
    end.

Definition exp_cmdsn_for_response (tsih cid fallback : Z) (m : SessionManager) : result Z IscsiError :=
  match connection_of tsih cid m with
  | None => Err (InvalidSession tsih)
  | Some c => Ok (if cmd_sn_initialized c then exp_cmd_sn c else fallback)
  end.

Definition get_and_increment_statsn (tsih cid : Z) (m : SessionManager) : SessionManager * result Z IscsiError :=
  match connection_of tsih cid m with
  | None => (m, Err (InvalidSession tsih))
  | Some c =>
      let c' := mkConnection (conn_cid c) (exp_cmd_sn c) (cmd_sn_initialized c) (wrap32 (stat_sn c + 1))
                  (max_recv_data_segment_length c) in
      (with_session (set_connections (insert cid c')) tsih m, Ok (stat_sn c))
  end.

(** ** Unit attentions *)

Record UnitAttentionCode : Type := mkUa { ua_asc : Z; ua_ascq : Z }.

Definition RESERVATIONS_PREEMPTED := mkUa 0x2A 0x03.
Definition RESERVATIONS_RELEASED := mkUa 0x2A 0x04.
Definition POWER_ON_RESET := mkUa 0x29 0x00.

Notation UaMap := (gmap (Z * Z) (list UnitAttentionCode)).

Definition ua_pending (ua : UaMap) (tsih lun : Z) : list UnitAttentionCode := default [] (ua !! (tsih, lun)).

Definition add_ua (tsih lun : Z) (code : UnitAttentionCode) (ua : UaMap) : UaMap :=
  <[(tsih, lun) := ua_pending ua tsih lun ++ [code]]> ua.

Definition add_ua_all_sessions (to : list Z) (lun : Z) (code : UnitAttentionCode) (ua : UaMap) : UaMap :=
  foldl (fun ua tsih => add_ua tsih lun code ua) ua to.

Definition check_and_pop_ua (tsih lun : Z) (ua : UaMap) : UaMap * option UnitAttentionCode :=
  match ua_pending ua tsih lun with
  | [] => (ua, None)
  | code :: rest => (<[(tsih, lun) := rest]> ua, Some code)
  end.

Definition has_pending_ua (tsih lun : Z) (ua : UaMap) : bool := bool_decide (ua_pending ua tsih lun <> []).

Definition clear_session (tsih : Z) (ua : UaMap) : UaMap := filter (fun e => e.1.1 <> tsih) ua.

Definition clear_lun (tsih lun : Z) (ua : UaMap) : UaMap := delete (tsih, lun) ua.

Definition initialize_session (tsih : Z) (num_luns : nat) (ua : UaMap) : UaMap :=
  foldl (fun ua lun => add_ua tsih (Z.of_nat lun) POWER_ON_RESET ua) ua (seq 0 num_luns).

(** ** The sink *)

Definition sink_code (k : ReservationChangeKind) : UnitAttentionCode :=
  match k with
  | ReservationReleased => RESERVATIONS_RELEASED
  | RegistrationPreempted | ReservationPreempted => RESERVATIONS_PREEMPTED
  end.

Definition sink_change (collapse_isid : bool) (m : SessionManager) (ua : UaMap) (change : ReservationChange) : UaMap :=
  match affected change with
  | Iscsi iqn isid =>
      if (0 <=? ch_lun change) && (ch_lun change <=? 255)
      then add_ua_all_sessions (tsihs_for iqn isid collapse_isid m) (ch_lun change) (sink_code (kind change)) ua
      else ua
  | NvmeHost _ => ua
  end.

Definition on_reservation_change (collapse_isid : bool) (m : SessionManager) (changes : list ReservationChange)
    (ua : UaMap) : UaMap :=
  foldl (sink_change collapse_isid m) ua changes.

(** ** Histories *)

Inductive SessionEvent : Type :=
  | SCreate (isid : list Z) (now : Z)
  | SAddConnection (tsih cid max now : Z)
  | SRemoveConnection (tsih cid : Z)
  | SSetPartition (tsih : Z) (p : option (list Z))
  | SSetIqn (tsih : Z) (iqn : option (list Z))
  | SSetUser (tsih : Z) (user : option (list Z))
  | SCleanup (now timeout : Z)
  | SCommand (tsih cid cmdsn : Z) (immediate : bool)
  | SStatus (tsih cid : Z).

Definition session_event (ev : SessionEvent) (m : SessionManager) : SessionManager :=
  match ev with
  | SCreate isid now => (create_session isid now m).1
  | SAddConnection tsih cid max now => (add_connection tsih cid max now m).1
  | SRemoveConnection tsih cid => (remove_connection tsih cid m).1
  | SSetPartition tsih p => (set_partition tsih p m).1
  | SSetIqn tsih iqn => set_initiator_iqn tsih iqn m
  | SSetUser tsih user => set_authenticated_user tsih user m
  | SCleanup now timeout => cleanup_stale_sessions now timeout m
  | SCommand tsih cid cmdsn immediate => (check_cmdsn tsih cid cmdsn immediate m).1
  | SStatus tsih cid => (get_and_increment_statsn tsih cid m).1
  end.

Definition run_sessions (evs : list SessionEvent) (m : SessionManager) : SessionManager :=
  foldl (fun m ev => session_event ev m) m evs.

(** ** Identifiers *)

Record sessions_ok (m : SessionManager) : Prop := {
  so_next : 1 <= next_tsih m <= u16_max;
  so_key t s : sessions m !! t = Some s -> s_tsih s = t;
}.

Lemma next_after_range t : 0 <= t <= u16_max -> 1 <= next_after t <= u16_max.
Proof.
  unfold next_after, u16_max. intros Ht. destruct (Z.eq_dec t 65535) as [->|]; [done|].
  rewrite Z.mod_small by lia. destruct (_ =? 0) eqn:E; lia.
Qed.

Lemma next_after_eq t : 1 <= t <= u16_max -> next_after t = if t =? u16_max then 1 else t + 1.
Proof.
  unfold next_after, u16_max. intros Ht. destruct (t =? 65535) eqn:E; [apply Z.eqb_eq in E as ->; done|].
  apply Z.eqb_neq in E. rewrite Z.mod_small by lia. by rewrite (proj2 (Z.eqb_neq (t + 1) 0)) by lia.
Qed.

(** How many steps the scan needs from [t] to [f]. *)
Definition ahead_of (t f : Z) : Z := if t <=? f then f - t else f - t + u16_max.

Lemma scan_finds n live t f :
  1 <= t <= u16_max -> 1 <= f <= u16_max -> live !! f = None -> ahead_of t f < Z.of_nat n ->
  1 <= scan_tsih n live t <= u16_max /\ live !! scan_tsih n live t = None.
Proof.
  intros Ht Hf Hl. revert t Ht. induction n as [|n IH]; intros t Ht Ha.
  { unfold ahead_of, u16_max in *. destruct (t <=? f) eqn:E; lia. }
  cbn [scan_tsih]. rewrite (proj2 (Z.eqb_neq t 0)) by lia. simpl. case_bool_decide as Hb; [done|].
  assert (t <> f) by congruence. apply IH; [apply next_after_range; lia|]. rewrite next_after_eq by done.
  unfold ahead_of, u16_max in *. destruct (t =? 65535) eqn:E1; destruct (t <=? f) eqn:E2;
    match goal with |- (if ?b then _ else _) < _ => destruct b eqn:E3 end; lia.
Qed.

(** Fewer sessions than identifiers leave one free. *)
Lemma free_id (ids : gset Z) (live : gmap Z Session) :
  (size live < size ids)%nat -> exists f, f ∈ ids /\ live !! f = None.
Proof.
  intros Hsz. destruct (set_choose_or_empty (ids ∖ dom live)) as [[f Hf]|He].
  - apply elem_of_difference in Hf as [Hf Hn]. exists f. split; [done|by apply not_elem_of_dom].
  - exfalso. assert (ids ⊆ dom live) as Hsub by set_solver. apply subseteq_size in Hsub. rewrite size_dom in Hsub. lia.
Qed.

Lemma free_tsih (live : gmap Z Session) :
  Z.of_nat (size live) < u16_max -> exists f, 1 <= f <= u16_max /\ live !! f = None.
Proof.
  intros Hsz. assert (exists n, u16_max = Z.of_nat n) as [n Hn] by (exists (Z.to_nat u16_max); by rewrite Z2Nat.id).
  rewrite Hn in *. destruct (free_id (list_to_set (map Z.of_nat (seq 1 n))) live) as (f & Hf & Hl).
  - rewrite size_list_to_set; [rewrite length_map, length_seq; lia|]. apply (NoDup_fmap_2 Z.of_nat), NoDup_seq.
  - exists f. split; [|done].
    apply elem_of_list_to_set, list_elem_of_In, in_map_iff in Hf as (x & <- & Hx). apply in_seq in Hx. lia.
Qed.

Lemma scan_turns_eq : Z.of_nat scan_turns = 65536.
Proof. by apply Z2Nat.id. Qed.

#[global] Opaque scan_turns.

Lemma created_is_new isid now m :
  sessions_ok m -> Z.of_nat (size (sessions m)) < u16_max ->
  let '(m', t) := create_session isid now m in
  sessions_ok m' /\ 1 <= t <= u16_max /\ sessions m !! t = None /\
  sessions m' = <[t := mkSession t isid ∅ now None None None]> (sessions m).
Proof.
  intros [H1 H2] Hsz. unfold create_session. destruct (free_tsih _ Hsz) as (f & Hf & Hl).
  destruct (scan_finds scan_turns (sessions m) (next_tsih m) f H1 Hf Hl) as [Hr Hn].
  { rewrite scan_turns_eq. unfold ahead_of, u16_max in *. destruct (_ <=? _) eqn:E; lia. }
  revert Hr Hn. generalize (scan_tsih scan_turns (sessions m) (next_tsih m)). intros t0 Hr Hn.
  split; [|split; [exact Hr|split; [exact Hn|reflexivity]]]. split; cbn [next_tsih sessions]; [apply next_after_range; lia|].
  intros t s. rewrite lookup_insert. case_decide as E; [intros [= <-]; exact E|apply H2].
Qed.

Lemma with_session_ok f t m : (forall s, s_tsih (f s) = s_tsih s) -> sessions_ok m -> sessions_ok (with_session f t m).
Proof.
  intros Hf [H1 H2]. split; [done|]. intros t' s'. simpl. rewrite lookup_alter. case_decide as E.
  - intros (s & Hs & Es)%fmap_Some. subst t'. rewrite Es, Hf. by apply H2.
  - apply H2.
Qed.

Definition fits_event (m : SessionManager) (ev : SessionEvent) : Prop :=
  match ev with SCreate _ _ => Z.of_nat (size (sessions m)) < u16_max | _ => True end.

Lemma session_event_ok ev m : sessions_ok m -> fits_event m ev -> sessions_ok (session_event ev m).
Proof.
  intros Hm Hf. destruct ev; cbn [session_event].
  - pose proof (created_is_new isid now m Hm Hf) as Hc. destruct (create_session isid now m). apply Hc.
  - unfold add_connection. destruct (sessions m !! tsih); [by apply with_session_ok|done].
  - unfold remove_connection. destruct (sessions m !! tsih) as [s|]; [|done]. case_bool_decide; [|by apply with_session_ok].
    destruct Hm as [H1 H2]. split; [done|]. intros t s' Hs. apply H2. simpl in Hs. by apply lookup_delete_Some in Hs as [_ Hs].
  - unfold set_partition. destruct (sessions m !! tsih) as [s|]; [|done].
    destruct (s_partition s); [destruct p; [case_bool_decide|]; done|by apply with_session_ok].
  - by apply with_session_ok.
  - by apply with_session_ok.
  - destruct Hm as [H1 H2]. split; [done|]. intros t s Hs. apply H2. simpl in Hs. by apply map_lookup_filter_Some in Hs as [Hs _].
  - unfold check_cmdsn. destruct immediate; [done|]. destruct (connection_of _ _ _) as [c|]; [|done].
    destruct (check_number c cmdsn). by apply with_session_ok.
  - unfold get_and_increment_statsn. destruct (connection_of _ _ _) as [c|]; [|done]. by apply with_session_ok.
Qed.

(** Whenever a session is made there is room for it. *)
Fixpoint fits_run (evs : list SessionEvent) (m : SessionManager) : Prop :=
  match evs with
  | [] => True
  | ev :: evs => fits_event m ev /\ fits_run evs (session_event ev m)
  end.

Lemma run_sessions_ok evs m : sessions_ok m -> fits_run evs m -> sessions_ok (run_sessions evs m).
Proof.
  revert m. induction evs as [|ev evs IH]; intros m Hm Hf; [done|]. destruct Hf as [Hf Hr]. simpl.
  apply IH; [by apply session_event_ok|done].
Qed.

Lemma fits_run_app evs evs' m : fits_run (evs ++ evs') m <-> fits_run evs m /\ fits_run evs' (run_sessions evs m).
Proof.
  revert m. induction evs as [|ev evs IH]; intros m; simpl; [tauto|]. rewrite IH. tauto.
Qed.

(** C27: a new session takes nobody's place.  While fewer than 65535 sessions
    are live, whatever logins, logouts and sweeps came before and however
    often the counter wrapped, the identifier of a new session is not zero,
    fits 16 bits and is no live session's, and every other session stays as
    it was. *)
Theorem session_ids_unique evs isid now :
  fits_run (evs ++ [SCreate isid now]) sessions_new ->
  let m := run_sessions evs sessions_new in
  let '(m', t) := create_session isid now m in
  1 <= t <= u16_max /\ sessions m !! t = None /\ (forall t', t' <> t -> sessions m' !! t' = sessions m !! t').
Proof.
  intros [Hr [Hf _]]%fits_run_app m. fold m in Hf.
  assert (sessions_ok m) as Hm by (apply run_sessions_ok; [split; [done|by intros ? ? ?]|done]).
  pose proof (created_is_new isid now m Hm Hf) as Hc. destruct (create_session isid now m) as [m' t].
  destruct Hc as (_ & H1 & H2 & ->). split_and!; [lia|lia|done|]. intros t' Ht. by apply lookup_insert_ne.
Qed.

(** ** Command numbers *)

(** The non-immediate commands of a connection that were accepted. *)
Fixpoint accepted (tsih cid : Z) (evs : list SessionEvent) (m : SessionManager) : list Z :=
  match evs with
  | [] => []
  | ev :: evs =>
      (match ev with
       | SCommand t c cmdsn false =>
           if (t =? tsih) && (c =? cid) then
             match (check_cmdsn t c cmdsn false m).2 with Ok Accept => [cmdsn] | _ => [] end
           else []
       | _ => []
       end) ++ accepted tsih cid evs (session_event ev m)
  end.

(** The connection stays the same one, and numbers are 32 bits wide. *)
Definition same_connection (tsih cid : Z) (ev : SessionEvent) : Prop :=
  match ev with
  | SAddConnection t c _ _ => (t, c) <> (tsih, cid)
  | SRemoveConnection t c => (t, c) <> (tsih, cid)
  | SCommand _ _ cmdsn _ => 0 <= cmdsn < 2 ^ 32
  | _ => True
  end.

(** Nothing accepted yet, or [n] numbers from [c0] on. *)
Definition numbered (c0 : Z) (n : nat) (c : Connection) : Prop :=
  if cmd_sn_initialized c then exp_cmd_sn c = wrap32 (c0 + Z.of_nat n) else n = O.

Definition numbers (c0 : Z) (n k : nat) : list Z := map (fun i => wrap32 (c0 + Z.of_nat i)) (seq n k).

Lemma check_number_spec c0 n c cmdsn :
  0 <= cmdsn < 2 ^ 32 -> numbered c0 n c ->
  let '(c', v) := check_number c cmdsn in
  exists c0', (n <> O -> c0' = c0) /\
    match v with
    | Accept => numbered c0' (S n) c' /\ cmdsn = wrap32 (c0' + Z.of_nat n)
    | _ => c' = c
    end.
Proof.
  intros Hr. unfold numbered, check_number. destruct (cmd_sn_initialized c); simpl.
  - intros ->. unfold wrap32.
    assert (forall z, (z + 1) mod 2 ^ 32 = (z mod 2 ^ 32 + 1) mod 2 ^ 32) as Hs by (intros z; by rewrite Zplus_mod_idemp_l).
    destruct ((cmdsn - _) mod 2 ^ 32 =? 0) eqn:E; simpl.
    + apply Z.eqb_eq in E. exists c0. split; [done|]. split.
      * simpl. rewrite <- Hs. f_equal. lia.
      * rewrite Zminus_mod_idemp_r in E.
        assert (cmdsn mod 2 ^ 32 = (c0 + Z.of_nat n) mod 2 ^ 32) as <- by (apply Z.cong_iff_0; done). symmetry. by apply Z.mod_small.
    + destruct (_ <=? CMDSN_WINDOW); [by exists c0|]. destruct (_ <=? CMDSN_WINDOW); by exists c0.
  - intros ->. exists cmdsn. split; [done|]. simpl. split; [done|].
    unfold wrap32. rewrite Z.add_0_r. symmetry. by apply Z.mod_small.
Qed.

Lemma connection_alter f t tsih cid m :
  connection_of tsih cid (with_session f t m) =
  if decide (t = tsih) then s ← sessions m !! t; connections (f s) !! cid else connection_of tsih cid m.
Proof.
  unfold connection_of, with_session. simpl. rewrite lookup_alter. case_decide as E; [subst|done].
  by destruct (sessions m !! tsih).
Qed.

Lemma connection_kept f t tsih cid m :
  (forall s, connections (f s) !! cid = connections s !! cid) ->
  connection_of tsih cid (with_session f t m) = connection_of tsih cid m.
Proof.
  intros Hf. rewrite connection_alter. case_decide as E; [subst|done]. unfold connection_of.
  destruct (sessions m !! tsih); [apply Hf|done].
Qed.

Lemma connection_put t c c' tsih cid m :
  connection_of t c m = Some c' ->
  forall c'', connection_of tsih cid (with_session (set_connections (insert c c'')) t m) =
  if decide ((t, c) = (tsih, cid)) then Some c'' else connection_of tsih cid m.
Proof.
  intros Hc c''. rewrite connection_alter. unfold connection_of in *. case_decide as E.
  - subst t. destruct (sessions m !! tsih) as [s|]; [|done]. simpl. rewrite lookup_insert.
    case_decide as E; [subst; by rewrite decide_True|]. rewrite decide_False by congruence. done.
  - rewrite decide_False by congruence. done.
Qed.

(** What an event does to the connection. *)
Lemma event_connection tsih cid ev m c :
  sessions_ok m -> fits_event m ev -> same_connection tsih cid ev -> connection_of tsih cid m = Some c ->
  exists c', connection_of tsih cid (session_event ev m) = Some c' /\
    match ev with
    | SCommand t' cid' cmdsn false => if decide ((t', cid') = (tsih, cid)) then c' = (check_number c cmdsn).1 else c' = c
    | _ => exp_cmd_sn c' = exp_cmd_sn c /\ cmd_sn_initialized c' = cmd_sn_initialized c
    end.
Proof.
  intros Hm Hf He Hc. destruct ev; cbn [session_event same_connection fits_event] in *.
  - exists c. split; [|done]. pose proof (created_is_new isid now m Hm Hf) as Hn.
    destruct (create_session isid now m) as [m' t]. destruct Hn as (_ & _ & Hn & Es). unfold connection_of in *. simpl. rewrite Es.
    rewrite lookup_insert_ne; [done|]. intros ->. by rewrite Hn in Hc.
  - exists c. split; [|done]. unfold add_connection. destruct (sessions m !! tsih0) as [s|] eqn:E; [|done]. simpl.
    rewrite connection_alter. case_decide as Et; [subst|done]. rewrite E. simpl. rewrite lookup_insert_ne by congruence.
    unfold connection_of in Hc. by rewrite E in Hc.
  - exists c. split; [|done]. unfold remove_connection. destruct (sessions m !! tsih0) as [s|] eqn:E; [|done].
    destruct (decide (tsih0 = tsih)) as [->|Hne].
    + unfold connection_of in Hc. rewrite E in Hc. simpl in Hc.
      assert (delete cid0 (connections s) !! cid = Some c) as Hd by (rewrite lookup_delete_ne by congruence; done).
      case_bool_decide as Hz; [by rewrite Hz in Hd|]. simpl. rewrite connection_alter, decide_True by done. by rewrite E.
    + case_bool_decide; simpl; [|rewrite connection_alter, decide_False by done; done].
      unfold connection_of in *. simpl. by rewrite lookup_delete_ne.
  - exists c. split; [|done]. unfold set_partition. destruct (sessions m !! tsih0) as [s|]; [|done].
    destruct (s_partition s); [destruct p; [case_bool_decide|]; done|]. simpl. by rewrite connection_kept.
  - exists c. split; [|done]. unfold set_initiator_iqn. by rewrite connection_kept.
  - exists c. split; [|done]. unfold set_authenticated_user. by rewrite connection_kept.
  - exists c. split; [|done]. unfold connection_of, cleanup_stale_sessions in *. simpl.
    destruct (sessions m !! tsih) as [s|] eqn:E; [|done]. rewrite (map_lookup_filter_Some_2 _ _ _ s); [done|done|].
    left. simpl. intros Hz. simpl in Hc. by rewrite Hz in Hc.
  - unfold check_cmdsn. destruct immediate; [by exists c|].
    destruct (connection_of tsih0 cid0 m) as [d|] eqn:E; [|exists c; rewrite decide_False by congruence; done].
    destruct (check_number d cmdsn) as [d' v] eqn:En. simpl. rewrite (connection_put _ _ _ _ _ _ E).
    case_decide as Ed; [|by exists c]. simplify_eq. exists d'. by rewrite En.
  - unfold get_and_increment_statsn. destruct (connection_of tsih0 cid0 m) as [d|] eqn:E; [|by exists c].
    simpl. rewrite (connection_put _ _ _ _ _ _ E). case_decide as Ed; [|by exists c]. simplify_eq. by eexists.
Qed.

Lemma accepted_numbers tsih cid evs : forall m c c0 n,
  sessions_ok m -> fits_run evs m -> Forall (same_connection tsih cid) evs ->
  connection_of tsih cid m = Some c -> numbered c0 n c ->
  exists c0' k c', (n <> O -> c0' = c0) /\ accepted tsih cid evs m = numbers c0' n k /\
    connection_of tsih cid (run_sessions evs m) = Some c' /\ numbered c0' (n + k) c'.
Proof.
  induction evs as [|ev evs IH]; intros m c c0 n Hm Hf Hs Hc Hn.
  { exists c0, O, c. rewrite Nat.add_0_r. by split_and!. }
  destruct Hf as [Hf Hrun]. apply Forall_cons in Hs as [He Hs].
  destruct (event_connection tsih cid ev m c Hm Hf He Hc) as (c1 & Hc1 & Hev). pose proof (session_event_ok ev m Hm Hf) as Hm1.
  assert (numbered c0 n c1 -> exists c0' k c', (n <> O -> c0' = c0) /\ accepted tsih cid evs (session_event ev m) = numbers c0' n k /\
    connection_of tsih cid (run_sessions (ev :: evs) m) = Some c' /\ numbered c0' (n + k) c') as Hsame
    by (intros Hn1; exact (IH _ c1 c0 n Hm1 Hrun Hs Hc1 Hn1)).
  assert (exp_cmd_sn c1 = exp_cmd_sn c /\ cmd_sn_initialized c1 = cmd_sn_initialized c -> numbered c0 n c1) as Hk
    by (intros [E1 E2]; unfold numbered in *; by rewrite E1, E2).
  destruct ev; try (apply Hsame, Hk, Hev). destruct immediate; [apply Hsame, Hk, Hev|].
  cbn [accepted]. case_decide as Ed.
  - simplify_eq. rewrite !Z.eqb_refl. cbn [andb]. unfold check_cmdsn at 1. rewrite Hc.
    pose proof (check_number_spec c0 n c cmdsn He Hn) as Hspec. cbn [session_event] in *.
    destruct (check_number c cmdsn) as [c' v] eqn:En. simpl snd. simpl in Hc1. destruct Hspec as (c0' & Hz & Hspec).
    destruct v; [|rewrite Hspec in Hc1; apply Hsame; rewrite Hspec; done..]. destruct Hspec as [Hn' ->].
    destruct (IH _ c' c0' (S n) Hm1 Hrun Hs Hc1 Hn') as (c2 & k & d & H1 & H2 & H3 & H4). exists c2, (S k), d.
    rewrite (H1 ltac:(done)) in *. split_and!; [done| |done|by rewrite Nat.add_succ_r]. cbn [session_event] in H2. rewrite H2. done.
  - replace ((tsih0 =? tsih) && (cid0 =? cid)) with false; [apply Hsame; by rewrite Hev|].
    symmetry. apply andb_false_iff. rewrite !Z.eqb_neq. destruct (Z.eq_dec tsih0 tsih); [right; congruence|by left].
Qed.


(** ** Being told *)

Lemma ua_pending_insert ua t l t' l' codes :
  ua_pending (<[(t, l) := codes]> ua) t' l' = if decide ((t, l) = (t', l')) then codes else ua_pending ua t' l'.
Proof. unfold ua_pending. rewrite lookup_insert. by case_decide. Qed.

Lemma add_ua_grows t l code ua t' l' : ua_pending ua t' l' `prefix_of` ua_pending (add_ua t l code ua) t' l'.
Proof.
  unfold add_ua. rewrite ua_pending_insert. case_decide as E; [simplify_eq|done]. by apply prefix_app_r.
Qed.

Lemma add_all_grows to l code ua t' l' :
  ua_pending ua t' l' `prefix_of` ua_pending (add_ua_all_sessions to l code ua) t' l'.
Proof.
  revert ua. induction to as [|t to IH]; intros ua; [done|]. simpl. etrans; [apply (add_ua_grows t l code)|apply IH].
Qed.

Lemma add_all_tells to l code ua t : t ∈ to -> code ∈ ua_pending (add_ua_all_sessions to l code ua) t l.
Proof.
  revert ua. induction to as [|t' to IH]; intros ua Ht; [by apply elem_of_nil in Ht|]. simpl.
  apply elem_of_cons in Ht as [->|Ht]; [|by apply IH].
  eapply elem_of_prefix; [|apply add_all_grows]. unfold add_ua. rewrite ua_pending_insert, decide_True by done.
  apply elem_of_app. right. by left.
Qed.

Lemma tsihs_for_in iqn isid collapse m t s :
  sessions_ok m -> sessions m !! t = Some s -> s_initiator_iqn s = iqn -> (collapse = true \/ s_isid s = isid) ->
  t ∈ tsihs_for iqn isid collapse m.
Proof.
  intros [_ Hk] Hs Hq Hi. unfold tsihs_for, tsihs. apply list_elem_of_In, in_map_iff. exists s. split; [by apply Hk|].
  apply filter_In. split.
  - apply in_map_iff. exists (t, s). split; [done|]. by apply list_elem_of_In, elem_of_map_to_list.
  - rewrite bool_decide_eq_true_2 by done. simpl. destruct Hi as [->|Hi]; [done|]. rewrite bool_decide_eq_true_2 by done. apply orb_true_r.
Qed.

Lemma sink_grows collapse m changes ua t l :
  ua_pending ua t l `prefix_of` ua_pending (on_reservation_change collapse m changes ua) t l.
Proof.
  unfold on_reservation_change. revert ua. induction changes as [|ch changes IH]; intros ua; [done|]. simpl. etrans; [|apply IH].
  unfold sink_change. destruct (affected ch); [|done]. destruct (_ && _); [apply add_all_grows|done].
Qed.

(** Every live session of a host that lost something is told. *)
Lemma sink_tells collapse m changes ua t s ch :
  sessions_ok m -> sessions m !! t = Some s -> ch ∈ changes ->
  affected ch = Iscsi (s_initiator_iqn s) (s_isid s) \/ (exists isid, affected ch = Iscsi (s_initiator_iqn s) isid) /\ collapse = true ->
  0 <= ch_lun ch <= 255 ->
  sink_code (kind ch) ∈ ua_pending (on_reservation_change collapse m changes ua) t (ch_lun ch).
Proof.
  intros Hm Hs Hin Ha Hl. revert ua. induction changes as [|ch' changes IH]; intros ua; [by apply elem_of_nil in Hin|].
  apply elem_of_cons in Hin as [<-|Hin]; [|by apply IH].
  unfold on_reservation_change. simpl. eapply elem_of_prefix; [|apply sink_grows].
  unfold sink_change. assert (exists isid, affected ch = Iscsi (s_initiator_iqn s) isid /\ (collapse = true \/ s_isid s = isid)) as (isid & -> & Hc)
    by (destruct Ha as [Ha|[(isid & Ha) Hc]]; eauto).
  rewrite (proj2 (Z.leb_le _ _)), (proj2 (Z.leb_le _ _)) by lia. cbn [andb].
  apply add_all_tells. eapply tsihs_for_in; [done|done|done|exact Hc].
Qed.

(** ** Witnesses *)

(** A login, two commands, a replay, a gap, the third. *)
Definition host_isid : list Z := [0; 0; 0; 0; 0; 65].
Definition logins : list SessionEvent := [SCreate host_isid 0; SAddConnection 1 0 65536 0; SSetIqn 1 (Some [65])].
Definition commands : list SessionEvent :=
  [SCommand 1 0 4294967295 false; SCommand 1 0 7 true; SCommand 1 0 0 false; SCommand 1 0 4294967295 false;
   SCommand 1 0 5 false; SStatus 1 0; SCommand 1 0 1 false].

Lemma session_ids_unique_witness :
  let m := run_sessions logins sessions_new in
  (create_session host_isid 5 m).2 = 2 /\ sessions m !! 2 = None.
Proof.
  assert (fits_run (logins ++ [SCreate host_isid 5]) sessions_new) as Hf by (vm_compute; tauto).
  pose proof (session_ids_unique logins host_isid 5 Hf) as Hs. cbv zeta in *.
  assert ((create_session host_isid 5 (run_sessions logins sessions_new)).2 = 2) as E by (vm_compute; reflexivity).
  destruct (create_session host_isid 5 (run_sessions logins sessions_new)) as [m' t]. simpl in E. subst t.
  destruct Hs as (_ & Hs & _). by split.
Defined.

