(* ===== verification/SbcPages.v ===== *)
(** * Device pages of the block target ([scsi/sbc/src], [scsi/spc/src])

    INQUIRY and its vital product data pages, MODE SENSE and MODE SELECT,
    READ CAPACITY, REPORT LUNS, MAINTENANCE IN with the ALUA topology of
    [shared/iscsi/src/alua.rs], and the probes.  These commands change
    nothing; what they say must agree with what the data path does. *)

From stdpp Require Import sorting.
From S2P Require Import Prelude IndexCodec Bytes BTreeMap ReservationRender Crypto VolumeWriter PageCache VolumeCache SbcData XCopy Odx.

Local Open Scope Z_scope.

Definition SAVING_PARAMETERS_NOT_SUPPORTED := mkSense IllegalRequest 0x39 0x00.

(** ** Logical unit numbers ([lun.rs], [report_luns.rs]) *)

Definition encode_lun_field (lun : Z) : list Z :=
  if lun <? 256 then [0; lun; 0; 0; 0; 0; 0; 0]
  else if lun <? 2 ^ 14 then [Z.lor 0x40 (Z.land (Z.shiftr lun 8) 0x3F); lun mod 256; 0; 0; 0; 0; 0; 0]
  else [Z.lor 0x40 0x3F; 0xFF; 0; 0; 0; 0; 0; 0].

Definition decode_lun_field (field : list Z) : option Z :=
  let method := Z.shiftr (at_ field 0) 6 in
  if method =? 0 then Some (at_ field 1)
  else if method =? 1 then Some (Z.lor (Z.shiftl (Z.land (at_ field 0) 0x3F) 8) (at_ field 1))
  else None.

Definition build_report_luns (luns : list Z) : list Z :=
  be_bytes 4 (Z.of_nat (length luns * 8)) ++ replicate 4 0 ++ concat (map encode_lun_field luns).

Definition alloc (len : Z) (body : list Z) : ScsiResponse := good (take (Z.to_nat len) body).

Definition report_luns (req : ScsiRequest) (luns : list Z) : ScsiResponse :=
  if bool_decide (length (cdb req) < 12)%nat then check INVALID_FIELD_IN_CDB
  else
    let select_report := at_ (cdb req) 2 in
    let body l := alloc (be_val (sl 6 4 (cdb req))) (build_report_luns l) in
    if bool_decide (select_report ∈ [0x00; 0x02; 0x11; 0x12]) then body luns
    else if bool_decide (select_report ∈ [0x01; 0x10]) then body []
    else check INVALID_FIELD_IN_CDB.

Definition luns_filtered (r : VolumeRegistry) (allow : option (list (list Z))) : list Z :=
  match allow with
  | None => map fst r
  | Some names => map fst (List.filter (fun e => bool_decide (lu_name e.2 ∈ names)) r)
  end.

(** ** Sizing ([sizing.rs]) *)

Notation Cache := (PageCache VolumeWriter).

Definition block_count (c : Cache) : Z := live_size_bytes (writer c) / sector_bytes (manifest (writer c)).

Definition test_unit_ready (cache : option Cache) : ScsiResponse :=
  match cache with Some _ => good [] | None => check LU_NOT_SUPPORTED end.

Definition read_capacity_10 (req : ScsiRequest) (cache : option Cache) : ScsiResponse :=
  match cache with
  | None => check LU_NOT_SUPPORTED
  | Some c =>
      if bool_decide (length (cdb req) < 10)%nat then check INVALID_FIELD_IN_CDB
      else
        let total_blocks := block_count c in
        let last_lba := if u32_max <? total_blocks then u32_max else if total_blocks =? 0 then 0 else total_blocks - 1 in
        good (be_bytes 4 last_lba ++ be_bytes 4 (sector_bytes (manifest (writer c))))
  end.

Definition read_capacity_16 (req : ScsiRequest) (cache : option Cache) : ScsiResponse :=
  match cache with
  | None => check LU_NOT_SUPPORTED
  | Some c =>
      let last_lba := Z.max (block_count c - 1) 0 in
      alloc (be_val (sl 10 4 (cdb req)))
        (be_bytes 8 last_lba ++ be_bytes 4 (sector_bytes (manifest (writer c))) ++ [0; 0; 0xC0; 0] ++ replicate 16 0)
  end.

Definition service_action_in_16 (req : ScsiRequest) (cache : option Cache) : ScsiResponse :=
  if bool_decide (length (cdb req) < 16)%nat then check INVALID_FIELD_IN_CDB
  else if negb (Z.land (at_ (cdb req) 1) 0x1F =? 0x10) then check INVALID_FIELD_IN_CDB
  else read_capacity_16 req cache.

(** ** Probes ([probes.rs]) *)

Definition request_sense (req : ScsiRequest) : ScsiResponse :=
  if bool_decide (length (cdb req) < 6)%nat then check INVALID_FIELD_IN_CDB
  else
    alloc (at_ (cdb req) 4)
      (if negb (Z.land (at_ (cdb req) 1) 0x01 =? 0) then [0x72; 0; 0; 0; 0; 0; 0; 0]
       else [0x70; 0; 0; 0; 0; 0; 0; 10] ++ replicate 10 0).

(** START STOP UNIT and PREVENT/ALLOW MEDIUM REMOVAL. *)
Definition accept_6 (req : ScsiRequest) (cache : option Cache) : ScsiResponse :=
  if bool_decide (length (cdb req) < 6)%nat then check INVALID_FIELD_IN_CDB
  else match cache with None => check LU_NOT_SUPPORTED | Some _ => good [] end.

Definition log_sense (req : ScsiRequest) (cache : option Cache) : ScsiResponse :=
  if bool_decide (length (cdb req) < 10)%nat then check INVALID_FIELD_IN_CDB
  else
    match cache with
    | None => check LU_NOT_SUPPORTED
    | Some _ =>
        if negb (at_ (cdb req) 3 =? 0) then check INVALID_FIELD_IN_CDB
        else if Z.land (at_ (cdb req) 2) 0x3F =? 0x00
        then alloc (be_val (sl 7 2 (cdb req))) ([0x00; 0x00] ++ be_bytes 2 1 ++ [0x00])
        else check INVALID_FIELD_IN_CDB
    end.

(** ** Target port groups ([alua.rs]) *)

Inductive AsymmetricAccessState : Type := ActiveOptimized | ActiveNonOptimized | Standby | Unavailable | Offline.

Definition access_code (s : AsymmetricAccessState) : Z :=
  match s with ActiveOptimized => 0x0 | ActiveNonOptimized => 0x1 | Standby => 0x2 | Unavailable => 0x3 | Offline => 0xE end.

Record TargetPort : Type := mkPort { rtpi : Z; tpgt : Z }.

Record AluaTopology : Type := mkAlua {
  ports : list TargetPort;
  states : btree Z AsymmetricAccessState;
  naa_namespace : list Z;
}.

(** A portal is its group tag; the identifiers count from one, in 16 bits. *)
Definition from_portals (portals : list Z) (naa_namespace : list Z) : AluaTopology :=
  let ports := imap (fun idx t => mkPort ((Z.of_nat idx + 1) mod 65536) t) portals in
  let add m p := match bt_get (tpgt p) m with Some _ => m | None => bt_insert (tpgt p) ActiveOptimized m end in
  mkAlua ports (foldl add [] ports) naa_namespace.

Definition by_tpgt (ports : list TargetPort) : btree Z (list Z) :=
  foldl (fun m p => bt_insert (tpgt p) (default [] (bt_get (tpgt p) m) ++ [rtpi p]) m) [] ports.

Definition groups (a : AluaTopology) : list (Z * AsymmetricAccessState * list Z) :=
  map (fun e => (e.1, default ActiveOptimized (bt_get e.1 (states a)), e.2)) (by_tpgt (ports a)).

Definition group_descriptor (g : Z * AsymmetricAccessState * list Z) : list Z :=
  [Z.land (access_code g.1.2) 0x0F; 0xCF] ++ be_bytes 2 g.1.1 ++ [0; 0; 0; Z.of_nat (length g.2) mod 256] ++
  concat (map (fun r => [0; 0] ++ be_bytes 2 r) g.2).

Definition report_target_port_groups_body (a : AluaTopology) : list Z :=
  let body_len := list_sum (map (fun g => 8 + 4 * length g.2)%nat (groups a)) in
  be_bytes 4 (Z.of_nat body_len) ++ concat (map group_descriptor (groups a)).

(** ** MAINTENANCE IN ([maintenance.rs]) *)

Definition SUPPORTED_OPCODES : list Z :=
  [0x00; 0x03; 0x12; 0x15; 0x1A; 0x1B; 0x1E; 0x25; 0x28; 0x2A; 0x2F; 0x35; 0x41; 0x42; 0x4D; 0x55; 0x5A; 0x5E; 0x5F;
   0x83; 0x84; 0x88; 0x89; 0x8A; 0x8F; 0x91; 0x93; 0x9E; 0xA0; 0xA3].

Definition report_supported_opcodes : list Z :=
  be_bytes 4 (Z.of_nat (length SUPPORTED_OPCODES * 8)) ++
  concat (map (fun op => [op; 0; 0; 0; 0; 0; 0xFF; 0xFF]) SUPPORTED_OPCODES).

Definition report_supported_tmf : list Z := [Z.lor (Z.lor (Z.lor 0x80 0x40) 0x10) 0x08; 0x80; 0; 0].

Definition maintenance_in (req : ScsiRequest) (a : AluaTopology) : ScsiResponse :=
  if bool_decide (length (cdb req) < 12)%nat then check INVALID_FIELD_IN_CDB
  else
    let service_action := Z.land (at_ (cdb req) 1) 0x1F in
    let body := alloc (be_val (sl 6 4 (cdb req))) in
    if service_action =? 0x0A then body (report_target_port_groups_body a)
    else if service_action =? 0x0C then body report_supported_opcodes
    else if service_action =? 0x0D then body report_supported_tmf
    else check INVALID_FIELD_IN_CDB.

(** ** Standard INQUIRY data ([spc/inquiry.rs]) *)

Inductive PeripheralType : Type :=
  | DirectAccess | SequentialAccess | Printer | Processor | WriteOnce | CdDvd | OpticalCard | MediumChanger
  | StorageArrayController | EnclosureServices | ObjectStorage | ZonedBlock | NoLun.
Inductive PeripheralQualifier : Type := Connected | NotConnected | NoDevice.

Definition type_code (t : PeripheralType) : Z :=
  match t with
  | DirectAccess => 0x00 | SequentialAccess => 0x01 | Printer => 0x02 | Processor => 0x03 | WriteOnce => 0x04
  | CdDvd => 0x05 | OpticalCard => 0x07 | MediumChanger => 0x08 | StorageArrayController => 0x0C
  | EnclosureServices => 0x0D | ObjectStorage => 0x11 | ZonedBlock => 0x14 | NoLun => 0x1F
  end.
Definition qualifier_code (q : PeripheralQualifier) : Z :=
  match q with Connected => 0 | NotConnected => 1 | NoDevice => 3 end.

Definition peripheral (q : PeripheralQualifier) (t : PeripheralType) : Z :=
  Z.lor (Z.shiftl (qualifier_code q) 5) (Z.land (type_code t) 0x1F).

(** Into a field of [n] bytes. *)
Definition padded_ascii (n : nat) (s : list Z) : list Z := take n s ++ replicate (n - length s) 0x20.

Record InquiryFlags : Type := mkFlags { spc_version : Z; hisup : bool; tpgs : Z; cmdque : bool }.

Definition build_inquiry_std (q : PeripheralQualifier) (t : PeripheralType) (removable : bool)
    (vendor product revision : list Z) (flags : InquiryFlags) : list Z :=
  [peripheral q t; if removable then 0x80 else 0; spc_version flags;
   Z.lor (if hisup flags then 0x10 else 0x00) 0x02; 31; Z.shiftl (Z.land (tpgs flags) 0x03) 4; 0;
   if cmdque flags then 0x02 else 0x00] ++
  padded_ascii 8 vendor ++ padded_ascii 16 product ++ padded_ascii 4 revision.

(** "MB", "THUR VSA", "0001", "MBD_". *)
Definition VENDOR_INQUIRY : list Z := [0x4D; 0x42].
Definition DISK_PRODUCT : list Z := [0x54; 0x48; 0x55; 0x52; 0x20; 0x56; 0x53; 0x41].
Definition REVISION : list Z := [0x30; 0x30; 0x30; 0x31].
Definition MBD_PREFIX : list Z := [0x4D; 0x42; 0x44; 0x5F].
Definition VSA_INQUIRY_FLAGS : InquiryFlags := mkFlags 0x06 true 1 true.

(** ** Vital product data ([spc/vpd.rs]) *)

Definition pq_pt (lun_present : bool) : PeripheralQualifier * PeripheralType :=
  if lun_present then (Connected, DirectAccess) else (NoDevice, NoLun).

(** The header with its patched length, and the body. *)
Definition vpd_page (lun_present : bool) (page_code : Z) (body : list Z) : list Z :=
  let '(q, t) := pq_pt lun_present in
  [peripheral q t; page_code] ++ be_bytes 2 (Z.of_nat (length body)) ++ body.

Fixpoint dedup (l : list Z) : list Z :=
  match l with
  | x :: (y :: _) as rest => if x =? y then dedup rest else x :: dedup rest
  | _ => l
  end.

Definition build_supported_vpd_pages (lun_present : bool) (pages : list Z) : list Z :=
  vpd_page lun_present 0x00 (dedup (merge_sort Z.le (pages ++ [0x00]))).

Definition CODE_BINARY : Z := 0x01.
Definition CODE_ASCII : Z := 0x02.
Definition ASSOC_LOGICAL_UNIT : Z := 0x00.
Definition ASSOC_TARGET_PORT : Z := 0x01.
Definition DESIG_T10 : Z := 0x01.
Definition DESIG_NAA : Z := 0x03.
Definition DESIG_RTPI : Z := 0x04.
Definition DESIG_TPG : Z := 0x05.

Definition designator (code_set association designator_type : Z) (value : list Z) : list Z :=
  [code_set; Z.lor (Z.shiftl association 4) designator_type; 0; Z.of_nat (length value) mod 256] ++ value.

Definition naa3_target_port `{VolumeCrypto} (namespace : list Z) (r : Z) : list Z :=
  let h := blake3 (namespace ++ [0x7C; 0x74; 0x70; 0x7C] ++ be_bytes 2 r) in
  Z.lor 0x30 (Z.land (at_ h 0) 0x0F) :: sl 1 7 h.

Definition port_designators `{VolumeCrypto} (a : AluaTopology) (p : TargetPort) : list Z :=
  designator CODE_BINARY ASSOC_TARGET_PORT DESIG_NAA (naa3_target_port (naa_namespace a) (rtpi p)) ++
  designator CODE_BINARY ASSOC_TARGET_PORT DESIG_RTPI ([0; 0] ++ be_bytes 2 (rtpi p)) ++
  designator CODE_BINARY ASSOC_TARGET_PORT DESIG_TPG ([0; 0] ++ be_bytes 2 (tpgt p)).

Definition push_vpd83_target_port_descriptors `{VolumeCrypto} (a : AluaTopology) : list Z :=
  concat (map (port_designators a) (ports a)).

Section inquiry.
Context `{VolumeCrypto} `{HexCodec}.

Definition standard_inquiry (cache : option Cache) : list Z :=
  let '(q, t) := pq_pt (bool_decide (is_Some cache)) in
  build_inquiry_std q t false VENDOR_INQUIRY DISK_PRODUCT REVISION VSA_INQUIRY_FLAGS.

Definition vpd_supported_pages (lun_present : bool) : list Z :=
  build_supported_vpd_pages lun_present (if lun_present then [0x80; 0x83; 0x86; 0x8F; 0xB0; 0xB2] else []).

Definition vpd_unit_serial (cache : option Cache) : list Z :=
  let serial := match cache with Some c => hex_encode (uuid (manifest (writer c))) | None => [] end in
  vpd_page (bool_decide (is_Some cache)) 0x80 (padded_ascii (length serial) serial).

Definition vpd_device_id (cache : option Cache) (a : AluaTopology) : list Z :=
  vpd_page (bool_decide (is_Some cache)) 0x83
    match cache with
    | None => []
    | Some c =>
        let u := uuid (manifest (writer c)) in
        designator CODE_ASCII ASSOC_LOGICAL_UNIT DESIG_T10 (padded_ascii 8 VENDOR_INQUIRY ++ MBD_PREFIX ++ hex_encode u) ++
        designator CODE_BINARY ASSOC_LOGICAL_UNIT DESIG_NAA (naa_locally_assigned u) ++
        push_vpd83_target_port_descriptors a
    end.

Definition vpd_extended_inquiry (cache : option Cache) : list Z :=
  vpd_page (bool_decide (is_Some cache)) 0x86 (replicate 60 0).

Definition tpc_descriptor (type_code : Z) (body : list Z) : list Z :=
  be_bytes 2 type_code ++ be_bytes 2 (Z.of_nat (length body)) ++ body.

(** [u64::trailing_zeros] *)
Fixpoint trailing_zeros (bits : nat) (z : Z) : Z :=
  match bits with
  | O => 0
  | S bits => if Z.odd z then 0 else 1 + trailing_zeros bits (Z.div2 z)
  end.

Definition TPC_COMMANDS : list Z :=
  [0x83; 0x00; 0x00; 0x00; 0x83; 0x00; 0x01; 0x00; 0x83; 0x00; 0x10; 0x00; 0x83; 0x00; 0x11; 0x00; 0x83; 0x00; 0x12; 0x00;
   0x84; 0x00; 0x00; 0x00; 0x84; 0x00; 0x01; 0x00; 0x84; 0x00; 0x03; 0x00; 0x84; 0x00; 0x04; 0x00; 0x84; 0x00; 0x07; 0x00].

Definition vpd_third_party_copy (cache : option Cache) : list Z :=
  vpd_page (bool_decide (is_Some cache)) 0x8F
    match cache with
    | None => []
    | Some c =>
        let m := manifest (writer c) in
        let sector_size := sector_bytes m in
        replicate 4 0 ++
        tpc_descriptor 0x0000
          ([0; 0; 0; 0] ++ be_bytes 2 8 ++ be_bytes 4 MAX_ROD_INACTIVITY_SECS ++ be_bytes 4 DEFAULT_ROD_INACTIVITY_SECS ++
           be_bytes 8 (2 ^ 30 / sector_size) ++ be_bytes 8 (256 * 2 ^ 20 / sector_size) ++ [0; 0]) ++
        tpc_descriptor 0x0001 (Z.of_nat (length TPC_COMMANDS) :: TPC_COMMANDS) ++
        tpc_descriptor 0x0004 (be_bytes 2 2 ++ be_bytes 2 1 ++ be_bytes 4 128 ++ replicate 4 0) ++
        tpc_descriptor 0x0008 [3; 0xE4; 0x02; 0x00] ++
        tpc_descriptor 0x8001
          (be_bytes 4 1 ++ be_bytes 4 1 ++ be_bytes 4 (16 * 2 ^ 20) ++ [trailing_zeros 64 (page_size m) mod 256; 0; 0; 0])
    end.

Definition vpd_block_limits (cache : option Cache) : list Z :=
  vpd_page (bool_decide (is_Some cache)) 0xB0
    match cache with
    | None => replicate 60 0
    | Some c =>
        let m := manifest (writer c) in
        let sectors_per_page := page_size m / sector_bytes m in
        [0x00; Z.min sectors_per_page 255] ++ be_bytes 2 (Z.min sectors_per_page 65535) ++ replicate 12 0 ++
        be_bytes 4 u32_max ++ be_bytes 4 4095 ++ be_bytes 4 (Z.min sectors_per_page u32_max) ++ [0x80] ++ replicate 31 0
    end.

Definition vpd_logical_block_provisioning (cache : option Cache) : list Z :=
  vpd_page (bool_decide (is_Some cache)) 0xB2
    match cache with
    | None => replicate 4 0
    | Some _ => [0x00; Z.lor 0x80 (Z.shiftl 0x01 2); 0x02; 0x00]
    end.

Definition inquiry (req : ScsiRequest) (cache : option Cache) (a : AluaTopology) : ScsiResponse :=
  if bool_decide (length (cdb req) < 6)%nat then check INVALID_FIELD_IN_CDB
  else
    let page_code := at_ (cdb req) 2 in
    let body := alloc (be_val (sl 3 2 (cdb req))) in
    if Z.land (at_ (cdb req) 1) 0x01 =? 0 then
      if negb (page_code =? 0) then check INVALID_FIELD_IN_CDB else body (standard_inquiry cache)
    else if page_code =? 0x00 then body (vpd_supported_pages (bool_decide (is_Some cache)))
    else if page_code =? 0x80 then body (vpd_unit_serial cache)
    else if page_code =? 0x83 then body (vpd_device_id cache a)
    else if page_code =? 0x86 then body (vpd_extended_inquiry cache)
    else if page_code =? 0x8F then body (vpd_third_party_copy cache)
    else if page_code =? 0xB0 then body (vpd_block_limits cache)
    else if page_code =? 0xB2 then body (vpd_logical_block_provisioning cache)
    else check INVALID_FIELD_IN_CDB.
End inquiry.

(** ** MODE SENSE and MODE SELECT ([mode_sense.rs], [spc/mode.rs]) *)

Inductive PageControl : Type := Current | Changeable | Default | Saved.

Definition page_control (bits : Z) : PageControl :=
  let b := Z.land bits 0x03 in
  if b =? 0 then Current else if b =? 1 then Changeable else if b =? 2 then Default else Saved.

Definition caching_page (pc : PageControl) : list Z :=
  match pc with
  | Changeable => [0x08; 0x12] ++ replicate 18 0
  | Current | Default | Saved => [0x08; 0x12; 0x05] ++ replicate 9 0 ++ [0x20] ++ replicate 7 0
  end.

Definition control_page (pc : PageControl) : list Z := [0x0A; 0x0A] ++ replicate 10 0.

Definition build_pages (page_code subpage_code : Z) (pc : PageControl) : result (list Z) SenseData :=
  if negb (subpage_code =? 0x00) then Err INVALID_FIELD_IN_CDB
  else if page_code =? 0x08 then Ok (caching_page pc)
  else if page_code =? 0x0A then Ok (control_page pc)
  else if page_code =? 0x3F then Ok (caching_page pc ++ control_page pc)
  else Err INVALID_FIELD_IN_CDB.

Definition device_specific_parameter (c : Cache) : Z := if worm (manifest (writer c)) then 0x80 else 0x00.

Definition short_block_descriptor (c : Cache) : list Z :=
  be_bytes 4 (Z.min (block_count c) u32_max) ++ [0x00] ++ be_bytes 3 (Z.land (sector_bytes (manifest (writer c))) 0xFFFFFF).

Definition long_block_descriptor (c : Cache) : list Z :=
  be_bytes 8 (block_count c) ++ replicate 4 0 ++ be_bytes 4 (sector_bytes (manifest (writer c))).

(** The headers with the data length patched in. *)
Definition mode_response_6 (device_specific : Z) (descriptor pages : list Z) : list Z :=
  let total := (4 + length descriptor + length pages)%nat in
  [Z.min (Z.of_nat (total - 1)) 255; 0x00; device_specific; Z.of_nat (length descriptor) mod 256] ++ descriptor ++ pages.

Definition mode_response_10 (device_specific : Z) (longlba : bool) (descriptor pages : list Z) : list Z :=
  let total := (8 + length descriptor + length pages)%nat in
  be_bytes 2 (Z.of_nat (total - 2)) ++ [0x00; device_specific; if longlba then 0x01 else 0x00; 0] ++
  be_bytes 2 (Z.of_nat (length descriptor)) ++ descriptor ++ pages.

Definition mode_sense_6 (req : ScsiRequest) (cache : option Cache) : ScsiResponse :=
  match cache with
  | None => check LU_NOT_SUPPORTED
  | Some c =>
      if bool_decide (length (cdb req) < 6)%nat then check INVALID_FIELD_IN_CDB
      else
        let dbd := flag_set (at_ (cdb req) 1) 0x08 in
        match build_pages (Z.land (at_ (cdb req) 2) 0x3F) (at_ (cdb req) 3) (page_control (Z.shiftr (at_ (cdb req) 2) 6)) with
        | Err s => check s
        | Ok pages =>
            alloc (at_ (cdb req) 4)
              (mode_response_6 (device_specific_parameter c) (if dbd then [] else short_block_descriptor c) pages)
        end
  end.

Definition mode_sense_10 (req : ScsiRequest) (cache : option Cache) : ScsiResponse :=
  match cache with
  | None => check LU_NOT_SUPPORTED
  | Some c =>
      if bool_decide (length (cdb req) < 10)%nat then check INVALID_FIELD_IN_CDB
      else
        let llbaa := flag_set (at_ (cdb req) 1) 0x10 in
        let dbd := flag_set (at_ (cdb req) 1) 0x08 in
        match build_pages (Z.land (at_ (cdb req) 2) 0x3F) (at_ (cdb req) 3) (page_control (Z.shiftr (at_ (cdb req) 2) 6)) with
        | Err s => check s
        | Ok pages =>
            let descriptor := if dbd then [] else if llbaa then long_block_descriptor c else short_block_descriptor c in
            alloc (be_val (sl 7 2 (cdb req))) (mode_response_10 (device_specific_parameter c) llbaa descriptor pages)
        end
  end.

Definition validate_block_descriptor (bytes : list Z) (llbaa : bool) (c : Cache) : result unit SenseData :=
  match bytes with
  | [] => Ok tt
  | _ =>
      let expected := if llbaa then long_block_descriptor c else short_block_descriptor c in
      if bool_decide (bytes = expected) then Ok tt else Err INVALID_FIELD_IN_PARAMETER_LIST
  end.

(** The pages from the cursor on; each takes at least its header. *)
Fixpoint validate_pages (fuel : nat) (bytes : list Z) : result unit SenseData :=
  match fuel, bytes with
  | _, [] => Ok tt
  | O, _ => Err INVALID_FIELD_IN_PARAMETER_LIST
  | S fuel, _ =>
      if bool_decide (length bytes < 2)%nat then Err INVALID_FIELD_IN_PARAMETER_LIST
      else
        let header := at_ bytes 0 in
        if flag_set header 0x40 then Err INVALID_FIELD_IN_PARAMETER_LIST
        else
          let total := (2 + Z.to_nat (at_ bytes 1))%nat in
          if bool_decide (length bytes < total)%nat then Err INVALID_FIELD_IN_PARAMETER_LIST
          else
            let page := take total bytes in
            let code := Z.land header 0x3F in
            let matches (expected : list Z) :=
              bool_decide (length page = length expected) && (Z.land (at_ page 0) 0x7F =? Z.land (at_ expected 0) 0x7F) &&
              bool_decide (drop 1 page = drop 1 expected) in
            if (if code =? 0x08 then matches (caching_page Current)
                else if code =? 0x0A then matches (control_page Current) else false)
            then validate_pages fuel (drop total bytes)
            else Err INVALID_FIELD_IN_PARAMETER_LIST
  end.

(** After the header, a descriptor of [len] bytes and the pages. *)
Definition validate_list (p : list Z) (header len : nat) (llbaa : bool) (c : Cache) : ScsiResponse :=
  let pages_start := (header + len)%nat in
  if bool_decide (length p < pages_start)%nat then check INVALID_FIELD_IN_PARAMETER_LIST
  else
    match validate_block_descriptor (sl header len p) llbaa c with
    | Err s => check s
    | Ok _ =>
        match validate_pages (length p) (drop pages_start p) with Err s => check s | Ok _ => good [] end
    end.

(** Both forms after their length field. *)
Definition mode_select (req : ScsiRequest) (c : Cache) (len : Z) (body : list Z -> ScsiResponse) (header : nat) : ScsiResponse :=
  if negb (flag_set (at_ (cdb req) 1) 0x10) then check INVALID_FIELD_IN_CDB
  else if flag_set (at_ (cdb req) 1) 0x01 then check SAVING_PARAMETERS_NOT_SUPPORTED
  else if len =? 0 then good []
  else if Z.of_nat (length (data_out req)) <? len then check INVALID_FIELD_IN_PARAMETER_LIST
  else
    let p := take (Z.to_nat len) (data_out req) in
    if bool_decide (length p < header)%nat then check INVALID_FIELD_IN_PARAMETER_LIST else body p.

Definition mode_select_6 (req : ScsiRequest) (cache : option Cache) : ScsiResponse :=
  match cache with
  | None => check LU_NOT_SUPPORTED
  | Some c =>
      if bool_decide (length (cdb req) < 6)%nat then check INVALID_FIELD_IN_CDB
      else mode_select req c (at_ (cdb req) 4) (fun p => validate_list p 4 (Z.to_nat (at_ p 3)) false c) 4
  end.

Definition mode_select_10 (req : ScsiRequest) (cache : option Cache) : ScsiResponse :=
  match cache with
  | None => check LU_NOT_SUPPORTED
  | Some c =>
      if bool_decide (length (cdb req) < 10)%nat then check INVALID_FIELD_IN_CDB
      else
        mode_select req c (be_val (sl 7 2 (cdb req)))
          (fun p => validate_list p 8 (Z.to_nat (be_val (sl 6 2 p))) (flag_set (at_ p 4) 0x01) c) 8
  end.
