(* ===== verification/SbcDispatch.v ===== *)
(** * The block target's command dispatch ([scsi/sbc/src])

    [SbcScsiDispatcher::dispatch]: the unit attention a command is preempted
    by, the admission of its session to the unit, and the table of opcodes
    over the data path, the copy manager, the device pages and PERSISTENT
    RESERVE, whose changes reach the sessions through the iSCSI sink. *)

From S2P Require Import Prelude Bytes BTreeMap Reservations ReservationManager ReservationRender StateError IndexCodec Crypto VolumeWriter PageCache VolumeCache Sessions SbcData XCopy Odx SbcPages.

Local Open Scope Z_scope.

(** ** PERSISTENT RESERVE ([reservations.rs]) *)

Definition persistent_reserve_in (mgr : ReservationManager) (req : ScsiRequest) (lun_present : bool) : ScsiResponse :=
  if negb lun_present then check LU_NOT_SUPPORTED
  else
    match parse_prin_cdb (cdb req) with
    | None => check INVALID_FIELD_IN_CDB
    | Some (service_action, alloc) =>
        match prin mgr (lun req) service_action true with
        | PrInGood body => good (take (Z.to_nat (Z.min alloc (data_in_max req))) body)
        | PrInInvalidFieldInCdb => check INVALID_FIELD_IN_CDB
        | PrInLuNotSupported => check LU_NOT_SUPPORTED
        end
    end.

Definition map_prout (outcome : PrOutOutcome) : ScsiResponse :=
  match outcome with
  | Reservations.Good => good []
  | Reservations.ReservationConflict => reservation_conflict
  | InvalidFieldInCdb => check INVALID_FIELD_IN_CDB
  | InvalidFieldInParameterList => check INVALID_FIELD_IN_PARAMETER_LIST
  | LuNotSupported => check LU_NOT_SUPPORTED
  | PersistFailed => check INTERNAL_TARGET_FAILURE
  end.

Section dispatch.
Context `{VolumeCrypto} `{HexCodec} {doc : Type} (to_json : PersistedFile -> doc) (empty_doc : doc).

Definition persistent_reserve_out (mgr : ReservationManager) (req : ScsiRequest) (lun_present : bool)
    (nexus : RegistrantId) (fault : option (Fault doc)) (disk : ReservationManager.Disk doc) :
    ReservationManager * ReservationManager.Disk doc * ScsiResponse * list Notification :=
  if negb lun_present then (mgr, disk, check LU_NOT_SUPPORTED, [])
  else
    match parse_prout_cdb (cdb req) (data_out req) with
    | None => (mgr, disk, check INVALID_FIELD_IN_CDB, [])
    | Some f =>
        let '(mgr', disk', outcome, notes) :=
          prout to_json empty_doc mgr (lun req) (f_service_action f) (f_scope f) (f_type_byte f) (f_param_list f)
            (f_param_list_len f) nexus true fault disk in
        (mgr', disk', map_prout outcome, notes)
    end.

(** ** The dispatcher *)

(** The daemon around the dispatcher: the volumes and tokens, the
    reservations and their file, and the tracker and session table the sink
    shares with it. *)
Record Daemon : Type := mkDaemon {
  sys : Sys;
  reservations : ReservationManager;
  disk : ReservationManager.Disk doc;
  ua : option UaMap;
  session_manager : SessionManager;
  alua : AluaTopology;
  pr_collapse_isid : bool;
}.

Definition with_sys (s : Sys) (d : Daemon) : Daemon :=
  mkDaemon s (reservations d) (disk d) (ua d) (session_manager d) (alua d) (pr_collapse_isid d).
Definition with_ua (u : option UaMap) (d : Daemon) : Daemon :=
  mkDaemon (sys d) (reservations d) (disk d) u (session_manager d) (alua d) (pr_collapse_isid d).
Definition with_reservations (mgr : ReservationManager) (k : ReservationManager.Disk doc) (d : Daemon) : Daemon :=
  mkDaemon (sys d) mgr k (ua d) (session_manager d) (alua d) (pr_collapse_isid d).

(** The observer the iSCSI sink is registered as. *)
Definition SINK : Z := 1.

Definition deliver (notes : list Notification) (d : Daemon) : Daemon :=
  let tell u (n : Notification) :=
    if n.1 =? SINK then on_reservation_change (pr_collapse_isid d) (session_manager d) n.2 u else u in
  with_ua ((fun u => foldl tell u notes) <$> ua d) d.

(** The unit of a command, if its session may see it. *)
Definition admitted_unit (r : VolumeRegistry) (req : ScsiRequest) : option Lu :=
  match session_volumes req with
  | Some allow =>
      match name_for_lun r (lun req) with
      | Some name => if existsb (fun n => bool_decide (n = name)) allow then bt_get (lun req) r else None
      | None => None
      end
  | None => bt_get (lun req) r
  end.

(** INQUIRY, REQUEST SENSE and REPORT LUNS run whatever is pending. *)
Definition ua_exempt (op : Z) : bool := (op =? 0x12) || (op =? 0x03) || (op =? 0xA0).

Definition ua_lun (l : Z) : Z := if l <=? 255 then l else 0xFF.

Definition preempted_by (req : ScsiRequest) (op : Z) (u : option UaMap) : option UaMap * option UnitAttentionCode :=
  match u with
  | Some u =>
      if ua_exempt op then (Some u, None)
      else let '(u', code) := check_and_pop_ua (tsih req) (ua_lun (lun req)) u in (Some u', code)
  | None => (None, None)
  end.

Definition data_command (req : ScsiRequest) (cache : option Cache) (d : Daemon) : Daemon * Reply :=
  let '(c, r) := dispatch_data (reservations d) req cache in
  (match c with
   | Some c => with_sys (with_registry (share (lun req) c (registry (sys d))) (sys d)) d
   | None => d
   end, r).

Definition copy_command (m : EM Sys ScsiResponse ScsiResponse) (d : Daemon) : Daemon * Reply :=
  match m (sys d) with (s, Ok x) | (s, Err x) => (with_sys s d, Replied x) end.

Definition reserve_command (req : ScsiRequest) (lun_present : bool) (fault : option (Fault doc)) (d : Daemon) :
    Daemon * Reply :=
  let '(mgr, k, x, notes) :=
    persistent_reserve_out (reservations d) req lun_present (nexus_from_request req) fault (disk d) in
  (deliver notes (with_reservations mgr k d), Replied x).

Definition DATA_OPCODES : list Z :=
  [0x28; 0x88; 0x2A; 0x8A; 0x2F; 0x8F; 0x35; 0x91; 0x41; 0x93; 0x42; 0x89].

(** The opcodes that change nothing. *)
Definition page_command (req : ScsiRequest) (op : Z) (cache : option Cache) (d : Daemon) : ScsiResponse :=
  if op =? 0x00 then test_unit_ready cache
  else if op =? 0x03 then request_sense req
  else if op =? 0x12 then inquiry req cache (alua d)
  else if op =? 0x15 then mode_select_6 req cache
  else if op =? 0x1A then mode_sense_6 req cache
  else if (op =? 0x1B) || (op =? 0x1E) then accept_6 req cache
  else if op =? 0x25 then read_capacity_10 req cache
  else if op =? 0x4D then log_sense req cache
  else if op =? 0x55 then mode_select_10 req cache
  else if op =? 0x5A then mode_sense_10 req cache
  else if op =? 0x5E then persistent_reserve_in (reservations d) req (bool_decide (is_Some cache))
  else if op =? 0x9E then service_action_in_16 req cache
  else if op =? 0xA0 then report_luns req (luns_filtered (registry (sys d)) (session_volumes req))
  else if op =? 0xA3 then maintenance_in req (alua d)
  else check INVALID_OPCODE.

Definition route (req : ScsiRequest) (op : Z) (fault : option (Fault doc)) (d : Daemon) : Daemon * Reply :=
  let cache := lu_cache <$> admitted_unit (registry (sys d)) req in
  if bool_decide (op ∈ DATA_OPCODES) then data_command req cache d
  else if op =? 0x5F then reserve_command req (bool_decide (is_Some cache)) fault d
  else if op =? 0x83 then copy_command (extended_copy (reservations d) req (nexus_from_request req)) d
  else if op =? 0x84 then copy_command (receive_copy_results req) d
  else (d, Replied (page_command req op cache d)).

(** [fault]: where the write of the reservations file stops, if it does. *)
Definition dispatch (req : ScsiRequest) (fault : option (Fault doc)) (d : Daemon) : Daemon * Reply :=
  match cdb req with
  | [] => (d, Replied (check INVALID_OPCODE))
  | op :: _ =>
      let '(u, code) := preempted_by req op (ua d) in
      let d := with_ua u d in
      match code with
      | Some code => (d, Replied (check (mkSense UnitAttention (ua_asc code) (ua_ascq code))))
      | None => route req op fault d
      end
  end.

Definition on_session_close (t : Z) (d : Daemon) : Daemon := with_ua (clear_session t <$> ua d) d.
End dispatch.

Arguments Daemon doc : clear implicits.
