(* ===== verification/SbcPagesProofs.v ===== *)
(** * What the device pages say

    MODE SENSE data is what MODE SELECT accepts, and all it accepts; READ
    CAPACITY names the last block the data path serves; REPORT LUNS lists
    the units that answer; the designator of VPD page 0x83 finds the unit
    as a copy target. *)

From S2P Require Import Prelude Bytes ByteFile BTreeMap Reservations ReservationManager ReservationRender StateError IndexCodec PageIndex UploadIndex BlockLru PoolBudget PageLru Crypto VolumeWriter VolumeProofs VolumeHistory PageCache PageCacheProofs CacheBytes CacheHistory VolumeCache PageClone Sessions SbcData SbcProofs SbcHistory XCopy XCopyProofs XCopyPlan Odx SbcPages SbcDispatch.

Local Open Scope Z_scope.

(** ** Logical unit numbers *)

Lemma lor_disjoint a b n : 0 <= n -> 0 <= b < 2 ^ n -> Z.lor (Z.shiftl a n) b = a * 2 ^ n + b.
Proof.
  intros Hn Hb. rewrite Z.shiftl_mul_pow2 by done. symmetry. apply Z.add_nocarry_lor. apply Z.bits_inj'. intros k Hk.
  rewrite Z.land_spec, Z.bits_0. destruct (Z.lt_ge_cases k n).
  - by rewrite Z.mul_pow2_bits_low.
  - replace b with (b mod 2 ^ n) by (by apply Z.mod_small). rewrite Z.mod_pow2_bits_high by lia. apply andb_false_r.
Qed.

Lemma lun_roundtrip l : 0 <= l < 2 ^ 14 -> decode_lun_field (encode_lun_field l) = Some l.
Proof.
  intros Hl. unfold encode_lun_field. destruct (Z.ltb_spec l 256); [done|]. rewrite (proj2 (Z.ltb_lt _ _)) by lia.
  unfold decode_lun_field, at_. cbn [lookup list_lookup default from_option]. unfold id.
  rewrite (Z.shiftr_div_pow2 l) by lia. change 0x3F with (Z.ones 6). rewrite Z.land_ones by lia.
  assert (1 <= l / 2 ^ 8 < 2 ^ 6) by (split; [apply Z.div_le_lower_bound|apply Z.div_lt_upper_bound]; lia).
  rewrite (Z.mod_small (l / 2 ^ 8)) by lia. set (q := l / 2 ^ 8) in *.
  change 0x40 with (Z.shiftl 1 6).
  rewrite (lor_disjoint 1 q 6) by lia. rewrite Z.shiftr_div_pow2 by lia.
  replace ((1 * 2 ^ 6 + q) / 2 ^ 6) with 1 by (rewrite Z.div_add_l, Z.div_small by lia; lia). simpl Z.eqb. cbv iota.
  f_equal. rewrite Z.land_ones by lia. replace ((1 * 2 ^ 6 + q) mod 2 ^ 6) with q; [|rewrite Z.add_comm, Z.mod_add, Z.mod_small by lia; lia].
  pose proof (Z.mod_pos_bound l 256 ltac:(lia)). rewrite (lor_disjoint q (l mod 256) 8) by lia.
  subst q. change (2 ^ 8) with 256. pose proof (Z.div_mod l 256). lia.
Qed.

Lemma length_lun_field l : length (encode_lun_field l) = 8%nat.
Proof. unfold encode_lun_field. repeat case_match; done. Qed.

(** How a host reads the list. *)
Definition parse_luns (body : list Z) : list (option Z) :=
  map (fun k => decode_lun_field (sl (8 + 8 * k) 8 body)) (seq 0 (Z.to_nat (be_val (sl 0 4 body) / 8))).

Lemma sl_lun_fields ls k l :
  ls !! k = Some l -> sl (8 * k) 8 (concat (map encode_lun_field ls)) = encode_lun_field l.
Proof.
  revert k. induction ls as [|l' ls IH]; intros k Hk; [done|]. cbn [map concat]. destruct k as [|k]; simpl in Hk.
  - injection Hk as ->. replace (8 * 0)%nat with 0%nat by lia. apply sl_head, length_lun_field.
  - rewrite <- (IH k Hk). unfold sl. replace (8 * S k)%nat with (length (encode_lun_field l') + 8 * k)%nat by (rewrite length_lun_field; lia).
    by rewrite drop_app_add.
Qed.

Lemma length_lun_fields ls : length (concat (map encode_lun_field ls)) = (8 * length ls)%nat.
Proof. induction ls as [|l ls IH]; [done|]. cbn [map concat length]. rewrite length_app, length_lun_field, IH. lia. Qed.

Lemma parse_report_luns ls :
  Forall (fun l => 0 <= l < 2 ^ 14) ls -> Z.of_nat (length ls) * 8 < 2 ^ 32 -> parse_luns (build_report_luns ls) = map Some ls.
Proof.
  intros Hls Hn. unfold parse_luns, build_report_luns. rewrite sl_head by apply length_be_bytes.
  rewrite be_val_bytes by lia. rewrite Nat2Z.inj_mul, Z.div_mul, Nat2Z.id by lia.
  apply list_eq. intros k. rewrite !list_lookup_fmap. destruct (decide (k < length ls)%nat) as [Hk|Hk].
  - rewrite lookup_seq_lt by done. destruct (lookup_lt_is_Some_2 ls k Hk) as [l Hl]. rewrite Hl. cbn [fmap option_fmap option_map]. f_equal. change (0 + k)%nat with k.
    rewrite app_assoc. set (hdr := be_bytes 4 _ ++ _).
    assert (length hdr = 8%nat) as Hh by (unfold hdr; by rewrite length_app, length_be_bytes).
    unfold sl. replace (8 + 8 * k)%nat with (length hdr + 8 * k)%nat by lia. rewrite drop_app_add. fold (sl (8 * k) 8 (concat (map encode_lun_field ls))).
    rewrite (sl_lun_fields ls k l Hl). apply lun_roundtrip. exact (proj1 (Forall_forall _ _) Hls l (list_elem_of_lookup_2 _ _ _ Hl)).
  - rewrite lookup_seq_ge by lia. by rewrite lookup_ge_None_2 by lia.
Qed.

Lemma luns_filtered_spec (r : VolumeRegistry) allow l :
  bt_wf r -> l ∈ luns_filtered r allow <->
  exists u, bt_get l r = Some u /\ match allow with Some names => lu_name u ∈ names | None => True end.
Proof.
  intros Hr. destruct allow as [names|]; simpl; rewrite list_elem_of_In, in_map_iff; split.
  - intros ([k u] & <- & [Hin Hn]%filter_In). apply bool_decide_eq_true in Hn. exists u. split; [by apply bt_In_get|done].
  - intros (u & Hu & Hn). exists (l, u). split; [done|]. apply filter_In. split; [by apply bt_get_In|]. by apply bool_decide_eq_true.
  - intros ([k u] & <- & Hin). exists u. split; [by apply bt_In_get|done].
  - intros (u & Hu & _). exists (l, u). split; [done|by apply bt_get_In].
Qed.

Lemma admitted_unit_spec r req :
  is_Some (admitted_unit r req) <->
  exists u, bt_get (lun req) r = Some u /\ match session_volumes req with Some names => lu_name u ∈ names | None => True end.
Proof.
  unfold admitted_unit, name_for_lun. destruct (session_volumes req) as [names|].
  - destruct (bt_get (lun req) r) as [u|]; simpl; [|split; [by intros []|by intros (u & ? & _)]].
    destruct (existsb _ names) eqn:E.
    + split; [intros _; exists u; split; [done|]|done]. apply existsb_exists in E as (n & Hin & Hn).
      apply bool_decide_eq_true in Hn as ->. by apply list_elem_of_In.
    + split; [by intros []|]. intros (v & [= <-] & Hin). apply not_true_iff_false in E. destruct E. apply existsb_exists.
      exists (lu_name u). split; [by apply list_elem_of_In|by apply bool_decide_eq_true].
  - split; [intros [u Hu]; eauto|intros (u & Hu & _); eauto].
Qed.

Section daemon.
Context `{VolumeCrypto} `{HexCodec} {doc : Type} (to_json : PersistedFile -> doc) (empty_doc : doc).

End daemon.

(** ** Mode parameters *)

(** A page as MODE SENSE gives it, the PS bit aside. *)
Definition page_current (page : list Z) : Prop :=
  exists expected, expected ∈ [caching_page Current; control_page Current] /\
    length page = length expected /\ Z.land (at_ page 0) 0x7F = Z.land (at_ expected 0) 0x7F /\ drop 1 page = drop 1 expected.

Lemma validate_pages_sound fuel bytes :
  validate_pages fuel bytes = Ok tt -> exists pages, bytes = concat pages /\ Forall page_current pages.
Proof.
  revert bytes. induction fuel as [|fuel IH]; intros bytes; [destruct bytes; [by exists []|done]|].
  cbn [validate_pages]. destruct bytes as [|b bytes']; [by exists []|]. set (bytes := b :: bytes') in *.
  case_bool_decide; [done|]. destruct (flag_set _ _); [done|]. set (total := (2 + _)%nat). case_bool_decide as Ht; [done|].
  destruct (if _ =? 0x08 then _ else _) eqn:Em; [|done]. intros (pages & E & Hp)%IH.
  exists (take total bytes :: pages). cbn [concat]. rewrite <- E, take_drop. split; [done|]. constructor; [|done].
  destruct (_ =? 0x08); [exists (caching_page Current)|destruct (_ =? 0x0A); [exists (control_page Current)|done]];
    apply andb_true_iff in Em as [[E1%bool_decide_eq_true E2%Z.eqb_eq]%andb_true_iff E3%bool_decide_eq_true];
    (split; [set_solver|done]).
Qed.

Lemma validate_step fuel page rest :
  page = caching_page Current \/ page = control_page Current ->
  validate_pages (S fuel) (page ++ rest) = validate_pages fuel rest.
Proof. intros [-> | ->]; reflexivity. Qed.

Lemma validate_pages_complete fuel pages :
  Forall (fun p => p = caching_page Current \/ p = control_page Current) pages -> (length pages <= fuel)%nat ->
  validate_pages fuel (concat pages) = Ok tt.
Proof.
  intros Hp. revert fuel. induction Hp as [|p pages Hp Hps IH]; intros fuel Hf; [by destruct fuel|].
  destruct fuel as [|fuel]; simpl in Hf; [lia|]. cbn [concat]. rewrite validate_step by done. apply IH. lia.
Qed.

Lemma built_pages page_code subpage pc pages :
  pc <> Changeable -> build_pages page_code subpage pc = Ok pages ->
  exists ps, pages = concat ps /\ (length ps <= 2)%nat /\ (length pages <= 32)%nat /\
    Forall (fun p => p = caching_page Current \/ p = control_page Current) ps.
Proof.
  intros Hpc. assert (caching_page pc = caching_page Current /\ control_page pc = control_page Current) as [Ec Ek] by (by destruct pc).
  unfold build_pages. rewrite Ec, Ek. repeat case_match; try done; intros [= <-].
  - exists [caching_page Current]. split_and!; [done|simpl; lia..|apply Forall_cons; split; [by left|done]].
  - exists [control_page Current]. split_and!; [done|simpl; lia..|apply Forall_cons; split; [by right|done]].
  - exists [caching_page Current; control_page Current]. split_and!; [done|simpl; lia..|]. apply Forall_cons; split; [by left|]. apply Forall_cons; split; [by right|done].
Qed.

Definition descriptor_for (llbaa : bool) (c : Cache) : list Z :=
  if llbaa then long_block_descriptor c else short_block_descriptor c.

Lemma length_descriptor llbaa c : length (descriptor_for llbaa c) = if llbaa then 16%nat else 8%nat.
Proof. unfold descriptor_for, long_block_descriptor, short_block_descriptor. destruct llbaa; rewrite !length_app, !length_be_bytes; done. Qed.

Lemma validate_list_accepts hdr desc ps llbaa c :
  desc = [] \/ desc = descriptor_for llbaa c ->
  Forall (fun p => p = caching_page Current \/ p = control_page Current) ps -> (length ps <= length hdr)%nat ->
  validate_list (hdr ++ desc ++ concat ps) (length hdr) (length desc) llbaa c = good [].
Proof.
  intros Hd Hp Hl. unfold validate_list. rewrite !length_app. rewrite bool_decide_eq_false_2 by lia.
  unfold sl. rewrite drop_app_length, take_app_length, <- drop_drop, drop_app_length, drop_app_length.
  rewrite validate_pages_complete by (done || lia). unfold validate_block_descriptor.
  destruct Hd as [->|Hd]; [done|]. destruct desc as [|z desc]; [done|]. fold (descriptor_for llbaa c).
  by rewrite bool_decide_eq_true_2.
Qed.

Lemma validate_list_sound p header len llbaa c :
  status (validate_list p header len llbaa c) = Good ->
  exists desc pages, p = take header p ++ desc ++ concat pages /\ (desc = [] \/ desc = descriptor_for llbaa c) /\
    Forall page_current pages.
Proof.
  unfold validate_list. case_bool_decide as Hl; [done|].
  destruct (validate_block_descriptor _ _ _) as [[]|] eqn:Ed; [|done].
  destruct (validate_pages _ _) as [[]|] eqn:Ep; [|done]. intros _. apply validate_pages_sound in Ep as (pages & Ep & Hp).
  exists (sl header len p), pages. rewrite <- Ep. unfold sl. split_and!; [|..|done].
  - rewrite <- drop_drop, take_drop. by rewrite take_drop.
  - unfold validate_block_descriptor, sl in Ed. destruct (take len (drop header p)); [by left|right].
    case_bool_decide as E; [|done]. by rewrite E.
Qed.

(** MODE SELECT asks for the page format and does not ask to save. *)
Definition select_flags (cdb : list Z) : Prop := flag_set (at_ cdb 1) 0x10 = true /\ flag_set (at_ cdb 1) 0x01 = false.

Lemma mode_select_body req c len body header p :
  select_flags (cdb req) -> data_out req = p -> len = Z.of_nat (length p) -> (header <= length p)%nat -> p <> [] ->
  mode_select req c len body header = body p.
Proof.
  intros [F1 F2] Hd -> Hh Hp. unfold mode_select. rewrite F1, F2, Hd. cbn [negb].
  destruct (Z.eqb_spec (Z.of_nat (length p)) 0) as [E|_]; [destruct p; simpl in E; [done|lia]|].
  rewrite Z.ltb_irrefl, Nat2Z.id, firstn_all. by rewrite bool_decide_eq_false_2 by lia.
Qed.

(** A parameter list of current values after a header of [n] bytes. *)
Definition current_list (n : nat) (llbaa : bool) (c : Cache) (data hdr desc : list Z) : Prop :=
  length hdr = n /\ (desc = [] \/ desc = descriptor_for llbaa c) /\
  exists ps, data = hdr ++ desc ++ concat ps /\ (length ps <= 2)%nat /\
    Forall (fun p => p = caching_page Current \/ p = control_page Current) ps.

Lemma desc_length llbaa c desc : desc = [] \/ desc = descriptor_for llbaa c -> (length desc <= 16)%nat.
Proof. intros [-> | ->]; rewrite ?length_descriptor; [simpl; lia|]. destruct llbaa; lia. Qed.

Lemma sense_6_shape c req x :
  mode_sense_6 req (Some c) = x -> status x = Good -> page_control (Z.shiftr (at_ (cdb req) 2) 6) <> Changeable ->
  60 <= at_ (cdb req) 4 ->
  exists hdr desc, current_list 4 false c (data_in x) hdr desc /\ at_ hdr 3 = Z.of_nat (length desc).
Proof.
  intros <- Hg Hpc Hal. unfold mode_sense_6 in *. case_bool_decide; [done|].
  destruct (build_pages _ _ _) as [pages|] eqn:Eb; [|done].
  destruct (built_pages _ _ _ _ Hpc Eb) as (ps & -> & H2 & H32 & Hps).
  assert (forall desc, desc = [] \/ desc = descriptor_for false c -> exists hdr desc', current_list 4 false c
    (data_in (alloc (at_ (cdb req) 4) (mode_response_6 (device_specific_parameter c) desc (concat ps)))) hdr desc' /\
    at_ hdr 3 = Z.of_nat (length desc')) as Hd.
  { intros desc Hd. pose proof (desc_length _ _ _ Hd) as H16. unfold mode_response_6, alloc. cbn [data_in good].
    rewrite take_ge by (rewrite !length_app; simpl; lia). eexists _, desc. split.
    - split; [|split; [exact Hd|]]; [|exists ps; split; [reflexivity|done]]. done.
    - change (at_ [_; _; _; ?n] 3) with n. apply Z.mod_small. lia. }
  destruct (flag_set _ _); apply Hd; [by left|by right].
Qed.

Lemma sense_10_shape c req x :
  mode_sense_10 req (Some c) = x -> status x = Good -> page_control (Z.shiftr (at_ (cdb req) 2) 6) <> Changeable ->
  60 <= be_val (sl 7 2 (cdb req)) ->
  exists llbaa hdr desc, current_list 8 llbaa c (data_in x) hdr desc /\ be_val (sl 6 2 hdr) = Z.of_nat (length desc) /\
    flag_set (at_ hdr 4) 0x01 = llbaa.
Proof.
  intros <- Hg Hpc Hal. unfold mode_sense_10 in *. case_bool_decide; [done|].
  destruct (build_pages _ _ _) as [pages|] eqn:Eb; [|done].
  destruct (built_pages _ _ _ _ Hpc Eb) as (ps & -> & H2 & H32 & Hps).
  set (llbaa := flag_set (at_ (cdb req) 1) 0x10) in *.
  assert (forall desc, desc = [] \/ desc = descriptor_for llbaa c -> exists llbaa' hdr desc', current_list 8 llbaa' c
    (data_in (alloc (be_val (sl 7 2 (cdb req))) (mode_response_10 (device_specific_parameter c) llbaa desc (concat ps)))) hdr desc' /\
    be_val (sl 6 2 hdr) = Z.of_nat (length desc') /\ flag_set (at_ hdr 4) 0x01 = llbaa') as Hd.
  { intros desc Hd. pose proof (desc_length _ _ _ Hd) as H16. unfold mode_response_10, alloc. cbn [data_in good].
    rewrite take_ge by (rewrite !length_app, !length_be_bytes; simpl; lia).
    exists llbaa, (be_bytes 2 (Z.of_nat (8 + length desc + length (concat ps) - 2)) ++
      [0x00; device_specific_parameter c; if llbaa then 0x01 else 0x00; 0] ++ be_bytes 2 (Z.of_nat (length desc))), desc. split_and!.
    - split; [|split; [exact Hd|]]; [by rewrite !length_app, !length_be_bytes|]. exists ps. by rewrite <- !app_assoc.
    - rewrite app_assoc. rewrite (sl_skip 6) by (by rewrite ?length_app, ?length_be_bytes || lia).
      replace (6 - 6)%nat with 0%nat by lia. rewrite <- (app_nil_r (be_bytes 2 _)), sl_head by apply length_be_bytes.
      apply be_val_bytes. lia.
    - rewrite (at_skip 2) by (apply length_be_bytes || lia). simpl. by destruct llbaa. }
  destruct (flag_set (at_ (cdb req) 1) 0x08); apply Hd; [by left|right]. by destruct llbaa.
Qed.

(** C33: what MODE SENSE returns, MODE SELECT takes.  The current, default or
    saved parameters of a volume, with or without their block descriptor, in
    the six-byte and in the ten-byte form and with long block addresses, come
    back unchanged from a MODE SELECT with GOOD. *)
Theorem mode_parameters_roundtrip c sense select x :
  page_control (Z.shiftr (at_ (cdb sense) 2) 6) <> Changeable -> select_flags (cdb select) -> data_out select = data_in x ->
  status x = Good ->
  (mode_sense_6 sense (Some c) = x -> 60 <= at_ (cdb sense) 4 -> (6 <= length (cdb select))%nat ->
   at_ (cdb select) 4 = Z.of_nat (length (data_in x)) -> mode_select_6 select (Some c) = good []) /\
  (mode_sense_10 sense (Some c) = x -> 60 <= be_val (sl 7 2 (cdb sense)) -> (10 <= length (cdb select))%nat ->
   be_val (sl 7 2 (cdb select)) = Z.of_nat (length (data_in x)) -> mode_select_10 select (Some c) = good []).
Proof.
  intros Hpc Hsel Hdata Hg. split; intros Hx Hal Hlen Hn.
  - destruct (sense_6_shape c sense x Hx Hg Hpc Hal) as (hdr & desc & (Hh & Hd & ps & E & H2 & Hps) & H3).
    unfold mode_select_6. rewrite bool_decide_eq_false_2 by lia.
    rewrite (mode_select_body _ _ _ _ _ (data_in x) Hsel Hdata Hn); [|rewrite E, !length_app; lia|rewrite E; by destruct hdr].
    rewrite E. unfold at_ in *. rewrite lookup_app_l by lia. rewrite H3, Nat2Z.id, <- Hh. apply validate_list_accepts; [done..|lia].
  - destruct (sense_10_shape c sense x Hx Hg Hpc Hal) as (llbaa & hdr & desc & (Hh & Hd & ps & E & H2 & Hps) & H6 & H4).
    unfold mode_select_10. rewrite bool_decide_eq_false_2 by lia.
    rewrite (mode_select_body _ _ _ _ _ (data_in x) Hsel Hdata Hn); [|rewrite E, !length_app; lia|rewrite E; by destruct hdr].
    rewrite E, sl_app_l by lia. rewrite H6, Nat2Z.id. unfold at_ in *. rewrite lookup_app_l by lia. rewrite H4, <- Hh.
    apply validate_list_accepts; [done..|lia].
Qed.

Lemma selected req c len body header :
  status (mode_select req c len body header) = Good -> len <> 0 ->
  (header <= length (take (Z.to_nat len) (data_out req)))%nat /\ status (body (take (Z.to_nat len) (data_out req))) = Good.
Proof.
  unfold mode_select. destruct (negb _); [done|]. destruct (flag_set _ _); [done|]. intros Hg Hn.
  rewrite (proj2 (Z.eqb_neq _ _) Hn) in Hg. destruct (_ <? len); [done|]. case_bool_decide; [done|]. split; [lia|done].
Qed.

(** MODE SELECT changes nothing.  Whatever parameter list MODE SELECT
    accepts, in either form, is a header, no block descriptor or the one the
    volume has, and pages each of which is the caching or the control page as
    MODE SENSE gives it, but for the bit that says whether it can be saved. *)
Theorem mode_select_changes_nothing c req :
  let accepted n len desc_flag :=
    len <> 0 -> exists hdr desc pages, take (Z.to_nat len) (data_out req) = hdr ++ desc ++ concat pages /\ length hdr = n /\
      (desc = [] \/ desc = descriptor_for (desc_flag hdr) c) /\ Forall page_current pages in
  (status (mode_select_6 req (Some c)) = Good -> accepted 4%nat (at_ (cdb req) 4) (fun _ => false)) /\
  (status (mode_select_10 req (Some c)) = Good ->
   accepted 8%nat (be_val (sl 7 2 (cdb req))) (fun hdr => flag_set (at_ hdr 4) 0x01)).
Proof.
  intros accepted. subst accepted. cbn beta. split; intros Hg Hn.
  - unfold mode_select_6 in Hg. case_bool_decide; [done|]. apply selected in Hg as [Hl Hg]; [|done].
    apply validate_list_sound in Hg as (desc & pages & E & Hd & Hp). exists (take 4 (take (Z.to_nat (at_ (cdb req) 4)) (data_out req))), desc, pages.
    split_and!; [done| |done..]. rewrite length_take. lia.
  - unfold mode_select_10 in Hg. case_bool_decide; [done|]. apply selected in Hg as [Hl Hg]; [|done].
    apply validate_list_sound in Hg as (desc & pages & E & Hd & Hp). set (p := take _ (data_out req)) in *. exists (take 8 p), desc, pages.
    split_and!; [done|rewrite length_take; lia| |done]. unfold at_ in *. by rewrite lookup_take_lt by lia.
Qed.

(** ** Capacity *)

Section capacity.
Context `{VolumeCryptoLaws}.

Lemma one_block_range m c l :
  manifest_ok m -> 0 < sector_bytes m -> unit_of m c -> 0 <= l ->
  (exists w, resolve_range c l 1 = Ok w) <-> l < live_size_bytes (writer c) / sector_bytes m.
Proof.
  intros Hm Hs (Hc & Es & Em) Hl. pose proof (volume_laws (page_size m) (mo_page _ Hm)) as HL.
  pose proof (resolve_range_spec (page_size m) c l 1 Hc Hl ltac:(lia)) as Hr. rewrite Es in Hr. specialize (Hr Hs).
  pose proof (Z.mul_div_le (live_size_bytes (writer c)) (sector_bytes m) Hs).
  destruct (resolve_range c l 1) as [[off len]|e].
  - destruct Hr as (-> & -> & _ & _ & [Hr _] & _). split; [intros _|by eexists]. simpl in Hr.
    assert (l + 1 <= live_size_bytes (writer c) / sector_bytes m) by (apply Z.div_le_lower_bound; lia). lia.
  - split; [by intros []|]. intros Hlt. exfalso. simpl in Hr. nia.
Qed.

End capacity.

(** ** The unit's name *)

Section naming.
Context `{VolumeCrypto} `{HexCodec}.

Definition naa_of (u : Lu) : list Z := naa_locally_assigned (uuid (manifest (writer (lu_cache u)))).

Lemma naa_index_finds r session l u :
  bt_wf r -> bt_get l r = Some u -> lun_admitted r session l = true ->
  (forall l' u', bt_get l' r = Some u' -> lun_admitted r session l' = true -> naa_of u' = naa_of u -> l' = l) ->
  build_naa_index r session !! naa_of u = Some (l, lu_cache u).
Proof.
  intros Hr Hu Ha Huniq. unfold build_naa_index. assert (l ∈ luns r) as Hin.
  { apply list_elem_of_In, in_map_iff. exists (l, u). split; [done|by apply bt_get_In]. }
  assert (forall ls index, l ∈ ls \/ index !! naa_of u = Some (l, lu_cache u) ->
    foldl (naa_insert r session) index ls !! naa_of u = Some (l, lu_cache u)) as Hl; [|by apply Hl; left].
  induction ls as [|k ls IH]; intros index [Hi|Hi]; [by apply elem_of_nil in Hi|done|..]; simpl; apply IH.
  - apply elem_of_cons in Hi as [<-|Hi]; [right|by left]. unfold naa_insert. rewrite Ha, Hu. simpl. apply lookup_insert_eq.
  - right. unfold naa_insert. destruct (lun_admitted r session k) eqn:Ek; [|done]. simpl. destruct (bt_get k r) as [v|] eqn:Ev; [|done].
    rewrite lookup_insert. case_decide as En; [|done]. assert (k = l) as -> by (by eapply Huniq). congruence.
Qed.

(** The NAA designator of page 0x83, after the header and the T10 one. *)
Definition naa_designator (page : list Z) : list Z := sl 52 12 page.

(** a unit's name finds the unit.  The target descriptor a host makes of
    the binary designator that INQUIRY page 0x83 of a unit carries resolves,
    for a session admitted to the unit, to that unit, as long as no other
    unit of the session has a UUID of the same first eight bytes. *)
Theorem device_id_resolves r session l u a :
  bt_wf r -> bt_get l r = Some u -> lun_admitted r session l = true ->
  (forall l' u', bt_get l' r = Some u' -> lun_admitted r session l' = true -> naa_of u' = naa_of u -> l' = l) ->
  (8 <= length (uuid (manifest (writer (lu_cache u)))))%nat -> length (hex_encode (uuid (manifest (writer (lu_cache u))))) = 32%nat ->
  resolve_target_descriptor (build_naa_index r session)
    ([0xE4; 0; 0; 0] ++ naa_designator (vpd_device_id (Some (lu_cache u)) a) ++ replicate 16 0) = Ok (l, lu_cache u).
Proof.
  intros Hr Hu Ha Huniq Hlen Hhex. pose proof (naa_index_finds r session l u Hr Hu Ha Huniq) as Hi.
  set (w := uuid (manifest (writer (lu_cache u)))) in *.
  assert (length (naa_locally_assigned w) = 8%nat) as Hn.
  { unfold naa_locally_assigned, sl. simpl. rewrite length_take, length_drop. lia. }
  assert (naa_designator (vpd_device_id (Some (lu_cache u)) a) = [1; 3; 0; 8] ++ naa_locally_assigned w) as ->.
  { unfold naa_designator, vpd_device_id, vpd_page. simpl pq_pt. cbv iota beta. fold w.
    set (t10 := designator CODE_ASCII _ _ _). assert (length t10 = 48%nat) as Ht.
    { unfold t10, designator. rewrite !length_app, Hhex. done. }
    unfold designator. rewrite Hn. set (body := length _). rewrite (app_assoc (be_bytes 2 _) t10), (app_assoc [_; _]).
    rewrite (sl_skip 52); [|rewrite !length_app, Ht, length_be_bytes; done|lia]. replace (52 - 52)%nat with 0%nat by lia.
    rewrite sl_head; [done|]. rewrite length_app, Hn. done. }
  change (naa_of u) with (naa_locally_assigned w) in Hi. unfold resolve_target_descriptor. revert Hi Hn.
  generalize (naa_locally_assigned w). intros naa Hi Hn. rewrite !length_app, Hn. simpl. change (sl 8 8 _) with (sl 0 8 (naa ++ replicate 16 0)).
  rewrite (sl_head 8 naa) by done. unfold TargetHandle in *. by rewrite Hi.
Qed.
End naming.

(** ** Witnesses *)

Definition two_lus : VolumeRegistry := [(0, mkLu [1] [115] small_unit); (5, mkLu [2] [115] small_unit)].

Definition quiet_daemon : Daemon PersistedFile :=
  mkDaemon (mkSys two_lus tokens_new 0 (fun n => [Z.of_nat n]) 0) new (mkDisk None None) None sessions_new
    (from_portals [1] [0x69]) false.

(** A command of a session admitted to the volume named [1]. *)
Definition probe (l : Z) (cdb data : list Z) : ScsiRequest :=
  mkRequest 1 l cdb data 4096 (Some [65]) [0; 0; 0; 0; 0; 65] (Some [[1]]).


Lemma mode_parameters_roundtrip_witness :
  let sense := probe 0 [0x5A; 0x10; 0x3F; 0; 0; 0; 0; 1; 0; 0] [] in
  let x := mode_sense_10 sense (Some small_unit) in
  mode_select_10 (probe 0 [0x55; 0x10; 0; 0; 0; 0; 0; 0; 56; 0] (data_in x)) (Some small_unit) = good [].
Proof.
  intros sense x. apply (mode_parameters_roundtrip small_unit sense _ x); try reflexivity.
  - discriminate.
  - split; reflexivity.
  - vm_compute. discriminate.
Defined.

Lemma mode_select_changes_nothing_witness :
  let p := [0; 0; 0; 0] ++ caching_page Current in
  exists hdr desc pages, p = hdr ++ desc ++ concat pages /\ Forall page_current pages /\ length hdr = 4%nat.
Proof.
  intros p. set (req := probe 0 [0x15; 0x10; 0; 0; 24; 0] p).
  destruct (mode_select_changes_nothing small_unit req) as [Hs _].
  destruct (Hs ltac:(vm_compute; reflexivity) ltac:(discriminate)) as (hdr & desc & pages & E & Hh & _ & Hp).
  exists hdr, desc, pages. split; [exact E|]. split; [exact Hp|exact Hh].
Defined.


Lemma device_id_resolves_witness :
  let u := mkLu [1] [115] small_unit in
  let r : VolumeRegistry := [(0, u)] in
  resolve_target_descriptor (build_naa_index r None)
    ([0xE4; 0; 0; 0] ++ naa_designator (@vpd_device_id model_crypto hex_crate (Some small_unit) (from_portals [1] [0x69])) ++ replicate 16 0) =
  Ok (0, small_unit).
Proof.
  intros u r. apply (@device_id_resolves model_crypto hex_crate r None 0 u (from_portals [1] [0x69])); try reflexivity.
  - repeat constructor.
  - intros l' u' Hl' _ _. apply bt_get_In in Hl' as [[= <- _]|[]]. reflexivity.
  - vm_compute. lia.
Defined.
