(* ===== verification/SbcFence.v ===== *)
(** * The daemon under its initiators

    Every opcode of the dispatcher, in any order and from any initiators,
    between background activity and the comings and goings of sessions: no
    command changes a byte its initiator may not write, a preempted host
    stays out, and it is told. *)

From S2P Require Import Prelude Bytes BTreeMap Pr Reservations ReservationProofs ReservationManager ManagerProofs ReservationRender PageIndex UploadIndex BlockLru PoolBudget StateError IndexCodec PageLru Crypto VolumeWriter VolumeProofs VolumeHistory PageCache PageCacheProofs CacheBytes CacheHistory VolumeCache PageClone Sessions SbcData SbcProofs SbcHistory XCopy XCopyProofs XCopyPlan XCopyHistory Odx OdxProofs OdxHistory SbcPages SbcDispatch.

Local Open Scope Z_scope.

(** ** The token table of a command *)

Definition keeps_tokens {E A} (m : EM Sys E A) : Prop := forall s, tokens (odx (m s).1) = tokens (odx s).

Lemma keeps_bind {E A B} (m : EM Sys E A) (k : A -> EM Sys E B) :
  keeps_tokens m -> (forall a, keeps_tokens (k a)) -> keeps_tokens (m ≫= k).
Proof.
  intros Hm Hk s. rewrite run_bind. specialize (Hm s). destruct (m s) as [s' [a|e]]; simpl in *; [|done]. by rewrite Hk.
Qed.

Lemma keeps_map_err {E E' A} (f : E -> E') (m : EM Sys E A) : keeps_tokens m -> keeps_tokens (map_err f m).
Proof. intros Hm s. specialize (Hm s). unfold map_err. by destruct (m s) as [s' [a|e]]. Qed.

Lemma keeps_zoom {E A} (m : EM VolumeRegistry E A) : keeps_tokens (zoom registry with_registry m).
Proof. intros s. unfold zoom. by destruct (m (registry s)). Qed.

Lemma keeps_on_unit {A} f t (m : EM (PageCache VolumeWriter) UploaderError A) : keeps_tokens (on_unit f t m).
Proof. apply keeps_map_err, keeps_zoom. Qed.

Lemma keeps_in_job {A} list_id n (m : EM Sys SenseData A) : keeps_tokens m -> keeps_tokens (in_job list_id n m).
Proof. intros Hm s. unfold in_job. specialize (Hm s). by destruct (m s) as [s' [a|e]]. Qed.

(** ** The reservation table *)

Record mgr_ok (mgr : ReservationManager) : Prop := {
  mo_table : table_wf (by_lun mgr);
  mo_flag : any_reservation mgr = any_held (by_lun mgr);
}.

(** A committed operation, and what its observers hear. *)
Definition committed (mgr : ReservationManager) (l : Z) (op : PrOp) (mgr' : ReservationManager)
    (notes : list Notification) : Prop :=
  exists st, op_handler op (lu_view (by_lun mgr) l) = (st, Reservations.Good) /\ bt_get l (by_lun mgr') = Some st /\
    forall o c, o ∈ observers mgr -> In c (op_changes l op (lu_view (by_lun mgr) l) st) ->
      exists cs, In (o, cs) notes /\ In c cs.

Lemma view_wf mgr l : mgr_ok mgr -> lun_wf (lu_view (by_lun mgr) l).
Proof. intros [Ht _]. unfold lu_view. destruct (bt_get l _) eqn:E; simpl; eauto with thur. Qed.

Lemma refreshed_ok mgr m : table_wf m -> mgr_ok (refresh_any_reservation mgr m).
Proof. by split. Qed.

Lemma notified mgr l op st snap c o :
  o ∈ observers mgr -> In c (op_changes l op (lu_view (by_lun mgr) l) st) ->
  exists cs, In (o, cs) (notify (ReservationManager.mkPending l op (bt_get l (by_lun mgr)) snap (observers mgr)
    (snapshot_of (bt_get l (by_lun mgr))) (snapshot_of (Some st)))) /\ In c cs.
Proof.
  intros Ho Hc. unfold op_changes in Hc. rewrite <- snapshot_view in Hc. unfold snapshot in Hc. unfold notify. simpl.
  set (cs := diff_reservation_changes _ _ _ _ _) in *. exists cs. split; [|done].
  destruct cs eqn:E; [done|]. rewrite <- E. apply in_map_iff. exists o. split; [done|]. by apply list_elem_of_In.
Qed.

Lemma finish_cases {doc} (to_json : PersistedFile -> doc) empty_doc mgr p fault disk mgr' disk' o notes :
  mutate_finish to_json empty_doc mgr p fault disk = (mgr', disk', o, notes) ->
  mgr' = mgr /\ notes = notify p \/
  o <> Reservations.Good /\ mgr' = refresh_any_reservation mgr (restore (by_lun mgr) (p_lun p) (p_prior p)).
Proof.
  unfold mutate_finish. destruct (p_snapshot p), (persist mgr); [|by intros [= <- <- <- <-]; left..].
  destruct (persist_to_disk _ _ _ _ _ _) as [d [|]]; intros [= <- <- <- <-]; [by left|by right].
Qed.

Lemma mutate_steps {doc} (to_json : PersistedFile -> doc) empty_doc mgr l op fault disk mgr' disk' o notes :
  mgr_ok mgr -> in_u64 l -> op_args_ok op -> mutate to_json empty_doc mgr l op fault disk = (mgr', disk', o, notes) ->
  mgr_ok mgr' /\ observers mgr' = observers mgr /\
  (forall k, k <> l -> bt_get k (by_lun mgr') = bt_get k (by_lun mgr)) /\
  (o = Reservations.Good -> committed mgr l op mgr' notes).
Proof.
  intros Hm Hl Ha. pose proof (view_wf mgr l Hm) as Hv. destruct Hm as [Ht Hf]. unfold mutate.
  destruct (mutate_apply mgr l op) as [m1 [o1|p]] eqn:E.
  - pose proof (reject_equiv _ _ _ _ _ E) as [Hview _ _ _]. apply mutate_apply_reject in E as [Hne ->]. simpl in Hview.
    intros [= <- <- <- <-]. split_and!; [|done| |done].
    + assert (table_wf (bt_insert l (lu_view (by_lun mgr) l) (by_lun mgr))) as Ht' by auto with thur.
      split; [done|]. simpl. rewrite Hf. by apply any_held_view; [apply Ht|apply Ht'|].
    + intros k Hk. by apply bt_get_insert_ne.
  - apply mutate_apply_commit in E as (st & Eh & -> & Ep).
    assert (lun_wf st) as Hst by (pose proof (lun_wf_handler op _ Ha Hv) as Hw; by rewrite Eh in Hw).
    assert (table_wf (bt_insert l st (by_lun mgr))) as Ht' by auto with thur.
    intros [[-> ->]|[Hne ->]]%finish_cases; rewrite Ep; simpl.
    + split_and!; [by apply refreshed_ok|done|intros k Hk; by apply bt_get_insert_ne|]. intros _. exists st.
      split_and!; [done|apply bt_get_insert_eq|]. intros o' c. apply notified.
    + rewrite restore_insert by apply Ht. by split_and!; [apply refreshed_ok|..].
Qed.

Create HintDb tokens_kept.
#[export] Hint Resolve keeps_bind keeps_map_err keeps_zoom keeps_on_unit keeps_in_job : tokens_kept.

Section fence.
Context `{VolumeCryptoLaws} `{HexCodec} {doc : Type} (to_json : PersistedFile -> doc) (empty_doc : doc).

Lemma keeps_apply_page t snap q p h salt : keeps_tokens (apply_page t snap q p h salt).
Proof.
  unfold apply_page. apply keeps_bind; [done|]. intros s. apply keeps_bind; [apply keeps_on_unit|]. intros _.
  destruct h; [|apply keeps_on_unit]. destruct (rebind_is_sound _ _ _ _ _ _); [apply keeps_on_unit|].
  apply keeps_bind; [apply keeps_on_unit|]. intros plain. apply keeps_on_unit.
Qed.

Lemma keeps_apply_token t snap list_id spp qs items n : keeps_tokens (apply_token t snap list_id spp qs items n).
Proof.
  revert items n. induction qs as [|q qs IH]; intros items n; [done|]. destruct items as [|[[p h] salt] items]; [done|].
  cbn [apply_token]. apply keeps_bind; [apply keeps_in_job, keeps_apply_page|]. intros _. apply IH.
Qed.

Lemma keeps_flush_ranges t sector page bdrds : keeps_tokens (flush_ranges t sector page bdrds).
Proof.
  induction bdrds as [|bd bdrds IH]; [done|]. cbn [flush_ranges]. destruct (_ =? 0); [done|]. destruct (_ || _); [done|].
  apply keeps_bind; [apply keeps_map_err, keeps_on_unit|]. intros _. apply IH.
Qed.

(** ** What holds of a daemon *)

Definition tokens_ok (s : Sys) : Prop :=
  forall tok st, tokens (odx s) !! tok = Some st -> exists u xs, token_holds (registry s) st u xs.

(** Every volume has whole blocks to a page. *)
Definition pages_whole (r : VolumeRegistry) : Prop :=
  forall l u, bt_get l r = Some u -> page_of (lu_cache u) mod sector_of (lu_cache u) = 0.

Record sys_ok (s : Sys) : Prop := {
  so_registry : registry_ok (registry s);
  so_whole : pages_whole (registry s);
  so_tokens : tokens_ok s;
}.

(** The volume [k] may be written by the initiator of the command. *)
Definition may_write (s : Sys) (reservations : ReservationManager) (req : ScsiRequest) (k : Z) : Prop :=
  exists u, bt_get k (registry s) = Some u /\ worm (manifest (writer (lu_cache u))) = false /\
    allow_write reservations k (nexus_from_request req) = true /\
    lun_admitted (registry s) (session_volumes req) k = true.

(** A command moved the volumes, and what of their bytes it changed is in
    [P]. *)
Record moved_by (P : Z -> Prop) (r r' : VolumeRegistry) : Prop := {
  mb_ok : registry_ok r';
  mb_later : units_later r r';
  mb_bytes k i : 0 <= i -> unit_byte r' k i <> unit_byte r k i -> P k;
}.

Lemma moved_same P r : registry_ok r -> moved_by P r r.
Proof. intros Hr. by split; [|apply units_later_refl|]. Qed.

Lemma moved_one (P : Z -> Prop) l r r' :
  registry_ok r' -> units_later r r' -> others_same l r r' ->
  ((forall i, 0 <= i -> unit_byte r' l i = unit_byte r l i) \/ P l) -> moved_by P r r'.
Proof.
  intros Hr Hl Ho Hb. split; [done..|]. intros k i Hi Hne. destruct (decide (k = l)) as [->|Hk]; [|by destruct Hne; apply Ho].
  destruct Hb as [Hb|Hb]; [by destruct Hne; apply Hb|done].
Qed.

Lemma whole_manifests r r' : (forall l, manifest_at r' l = manifest_at r l) -> pages_whole r -> pages_whole r'.
Proof.
  intros Hm Hw l u Hu. specialize (Hm l). unfold manifest_at in Hm. rewrite Hu in Hm.
  destruct (bt_get l r) as [v|] eqn:E; [|done]. simpl in Hm. injection Hm as Hm. unfold page_of, sector_of. rewrite Hm. by apply (Hw l v).
Qed.

Lemma tokens_grown s s' :
  grown (registry s) (registry s') -> tokens (odx s') ⊆ tokens (odx s) -> tokens_ok s -> tokens_ok s'.
Proof.
  intros Hg Hs Ht tok st Hst. eapply lookup_weaken in Hst; [|exact Hs]. destruct (Ht tok st Hst) as (u & xs & Hh).
  destruct (token_holds_grown _ _ _ _ _ Hg Hh) as (u' & Hh'). eauto.
Qed.

Lemma sys_moved P s s' :
  sys_ok s -> moved_by P (registry s) (registry s') -> tokens (odx s') ⊆ tokens (odx s) -> sys_ok s'.
Proof.
  intros [S1 S2 S3] [M1 M2 _] Ht. split; [done| |].
  - eapply whole_manifests; [|exact S2]. intros l. by apply later_manifest_at.
  - eapply tokens_grown; [by apply later_grown|done..].
Qed.

(** ** Commands *)

Lemma admitted_gate r req u :
  admitted_unit r req = Some u -> bt_get (lun req) r = Some u /\ lun_admitted r (session_volumes req) (lun req) = true.
Proof.
  unfold admitted_unit, lun_admitted. destruct (session_volumes req); [|done].
  destruct (name_for_lun r (lun req)); [|done]. by destruct (existsb _ _).
Qed.

Lemma data_moves reservations req s u :
  registry_ok (registry s) -> req_ok req -> admitted_unit (registry s) req = Some u ->
  moved_by (may_write s reservations req) (registry s)
    (share (lun req) (dispatch_unit reservations req (lu_cache u)).1 (registry s)).
Proof.
  intros Hr Hq [Hu Ha]%admitted_gate. pose proof (ro_unit _ Hr _ _ Hu) as [Hp Hok].
  destruct (dispatch_unit_spec _ Hp reservations req Hq (lu_cache u) Hok) as [K1 K2 K3 _].
  destruct (share_step _ _ _ u Hr Hu K1 K2) as (S1 & S2 & S3 & _). split; [done..|].
  intros k i Hi Hne. destruct (decide (k = lun req)) as [->|Hk].
  - unfold unit_byte in Hne. rewrite S3, Hu in Hne. simpl in Hne.
    pose proof (sc_le _ _ K2) as Hle. simpl in Hle. unfold cache_byte in Hne. rewrite (le_manifest _ _ Hle) in Hne.
    destruct (K3 i Hi Hne) as [(G1 & G2 & _) _]. by exists u.
  - destruct Hne. by apply (share_others _ _ _ u Hr Hu K1 K2).
Qed.

Lemma copy_moves lid4 reservations req s :
  registry_ok (registry s) -> req_ok req ->
  moved_by (may_write s reservations req) (registry s) (extended_copy_of lid4 reservations req (registry s)).1.
Proof.
  intros Hr Hq. destruct (copy_spec lid4 reservations req _ Hr Hq) as (r' & res & -> & Hc). simpl.
  destruct (plan_for _ _ _ _ _) as [[targets planned]|[]]; [|by destruct Hc as [-> _]; apply moved_same..].
  destruct Hc as [[X1 X2 X3 _ _] Hp]. split; [done..|]. intros k i Hi Hne.
  apply X3, Exists_exists in Hne as (seg & Hin & dst & Hd & -> & Hb); [|done].
  destruct (proj1 (Forall_forall _ _) Hp seg Hin) as (src & dst' & _ & Hd' & Hg).
  assert (dst' = dst) as -> by congruence. destruct Hg as [_ [(u & Hu & Eu) Ha] Hw Hal _ _ _].
  exists u. rewrite Eu in Hw. by split_and!.
Qed.

(** Flushing the unit changes nothing that is read. *)
Lemma flushed_moves P l u s s' u' :
  bt_get l (registry s) = Some u -> flushed l u s s' u' -> moved_by P (registry s) (registry s').
Proof.
  intros Hu [_ F2 F3 F4 F5 F6 _]. apply (moved_one P l); try done. left. intros i Hi.
  unfold unit_byte. rewrite Hu, F5. by apply kept_byte.
Qed.

(** The tokens of [s'] are those of [s] and what the command minted. *)
Definition tokens_of (reservations : ReservationManager) (req : ScsiRequest) (s s' : Sys) : Prop :=
  forall tok st, tokens (odx s') !! tok = Some st -> tokens (odx s) !! tok = Some st \/
    exists u u1, minted reservations req (nexus_from_request req) s s' tok st u u1.

Lemma tokens_of_sub reservations req s s' : tokens (odx s') ⊆ tokens (odx s) -> tokens_of reservations req s s'.
Proof. intros Hs tok st Ht. left. by eapply lookup_weaken. Qed.

Lemma populate_moves P reservations req s :
  registry_ok (registry s) -> req_ok req ->
  let s' := (populate_token reservations req (nexus_from_request req) s).1 in
  moved_by P (registry s) (registry s') /\ tokens_of reservations req s s'.
Proof.
  intros Hr Hq. destruct (populate_token _ _ _ s) as [s' res] eqn:E. simpl. split.
  - apply populate_gates in E as [->|(u & plist & bdrds & Hu & _ & _ & Hb & E)]; [by apply moved_same| |done].
    destruct (populate_body_run _ _ _ _ _ _ _ Hr Hu Hb E) as (s2 & u1 & Hf & Hm).
    assert (registry s' = registry s2) as ->; [|by eapply flushed_moves].
    destruct Hm as [[-> _]|(pages & total & deadline & _ & Hm)]; [done|]. destruct (mint_token _ _ _ _ _). by subst s'.
  - intros tok st Ht. by eapply populate_mints.
Qed.

Lemma write_token_moves reservations req s :
  sys_ok s -> req_ok req ->
  let s' := (write_using_token reservations req (nexus_from_request req) s).1 in
  moved_by (may_write s reservations req) (registry s) (registry s') /\ tokens (odx s') = tokens (odx s).
Proof.
  intros [Hr Hw Ht] Hq. destruct (write_using_token _ _ _ s) as [s' res] eqn:E. simpl.
  apply write_token_gates in E as [[-> _]|(u & bdrds & Hu & Hworm & Hal & Had & Hb & _ & E)]; [by split; [apply moved_same|]|].
  apply write_body_run in E as [(st & E)|(Er & Et & _)]; [|rewrite Er; by split; [apply moved_same|]|by apply (ro_unit _ Hr (lun req))|by apply (Hw (lun req))|done|apply Hq].
  destruct (Ht _ _ (wa_token _ _ _ _ _ _ _ _ E)) as (us & xs & Hh).
  destruct (write_body_spec _ _ _ _ us xs _ (source_decryptor st).2 _ _ _ Hr Hu Hh ltac:(by destruct (source_decryptor st)) E)
    as (W1 & W2 & W3 & _). split.
  - apply (moved_one _ (lun req)); try done. right. by exists u.
  - destruct (wa_run _ _ _ _ _ _ _ _ E) as (spp & s1 & r1 & E1 & _ & _ & ->).
    pose proof (keeps_apply_token (lun req, lu_cache u) st (list_id_of req) spp (dst_pages u bdrds) (token_items st) 0 s) as Hk.
    by rewrite E1 in Hk.
Qed.

Lemma cancel_sub l m : tokens (cancel l m).1 ⊆ tokens m.
Proof.
  unfold cancel. repeat case_match; simpl; try done; apply delete_subseteq.
Qed.

Lemma extended_copy_moves reservations req s :
  sys_ok s -> req_ok req ->
  let s' := (extended_copy reservations req (nexus_from_request req) s).1 in
  moved_by (may_write s reservations req) (registry s) (registry s') /\ tokens_of reservations req s s'.
Proof.
  intros Hs Hq. pose proof (so_registry _ Hs) as Hr. unfold extended_copy. cbv zeta.
  assert (forall s', s' = s -> moved_by (may_write s reservations req) (registry s) (registry s') /\ tokens_of reservations req s s') as Hno
    by (intros s' ->; split; [by apply moved_same|by apply tokens_of_sub]).
  case_bool_decide; [by apply Hno|].
  destruct (_ =? 0x00); [|destruct (_ =? 0x01); [|destruct (_ =? 0x10); [|destruct (_ =? 0x11); [|destruct (_ =? 0x12); [|by apply Hno]]]]].
  - pose proof (copy_moves false reservations req s Hr Hq) as Hm. unfold zoom. unfold extended_copy_of in Hm.
    destruct (extended_copy_lid1 _ _ _ _) as [r' res]. by split; [|apply tokens_of_sub].
  - pose proof (copy_moves true reservations req s Hr Hq) as Hm. unfold zoom. unfold extended_copy_of in Hm.
    destruct (extended_copy_lid4 _ _ _ _) as [r' res]. by split; [|apply tokens_of_sub].
  - by apply populate_moves.
  - destruct (write_token_moves reservations req s Hs Hq) as [Hm Et]. split; [done|]. apply tokens_of_sub. by rewrite Et.
  - split; [by apply moved_same|]. apply tokens_of_sub, cancel_sub.
Qed.

(** ** The dispatcher *)

Notation dispatch := (dispatch to_json empty_doc).

Definition opcode (req : ScsiRequest) : Z := at_ (cdb req) 0.

(** The unit attention came first, or the command was routed. *)
Lemma dispatch_cases req fault (d : Daemon doc) :
  let '(u, code) := preempted_by req (opcode req) (ua d) in
  cdb req = [] /\ dispatch req fault d = (d, Replied (check INVALID_OPCODE)) \/
  cdb req <> [] /\
  dispatch req fault d =
    match code with
    | Some code => (with_ua u d, Replied (check (mkSense UnitAttention (ua_asc code) (ua_ascq code))))
    | None => route to_json empty_doc req (opcode req) fault (with_ua u d)
    end.
Proof.
  unfold dispatch, opcode. destruct (cdb req) as [|op rest] eqn:E; simpl.
  - change (at_ [] 0) with 0. destruct (preempted_by req 0 (ua d)). by left.
  - change (at_ (op :: rest) 0) with op. destruct (preempted_by req op (ua d)) as [u [code|]]; by right.
Qed.

(** What routing does to the volumes and tokens. *)
Lemma route_moves req op fault (d : Daemon doc) :
  sys_ok (sys d) -> req_ok req ->
  let d' := (route to_json empty_doc req op fault d).1 in
  moved_by (may_write (sys d) (reservations d) req) (registry (sys d)) (registry (sys d')) /\
  tokens_of (reservations d) req (sys d) (sys d').
Proof.
  intros Hs Hq. pose proof (so_registry _ Hs) as Hr. unfold route. cbv zeta.
  assert (forall d' : Daemon doc, sys d' = sys d -> moved_by (may_write (sys d) (reservations d) req) (registry (sys d)) (registry (sys d')) /\
    tokens_of (reservations d) req (sys d) (sys d')) as Hno
    by (intros d' ->; split; [by apply moved_same|by apply tokens_of_sub]).
  case_bool_decide.
  { unfold data_command, dispatch_data. destruct (admitted_unit (registry (sys d)) req) as [u|] eqn:Eu; simpl; [|by apply Hno].
    pose proof (data_moves (reservations d) req (sys d) u Hr Hq Eu) as Hm.
    destruct (dispatch_unit _ _ _) as [c r]. by split; [|apply tokens_of_sub]. }
  destruct (op =? 0x5F).
  { unfold reserve_command. destruct (persistent_reserve_out _ _ _ _ _ _ _ _) as [[[mgr k] x] notes]. by apply Hno. }
  unfold copy_command. destruct (op =? 0x83).
  { pose proof (extended_copy_moves (reservations d) req (sys d) Hs Hq) as Hm. cbv zeta in Hm.
    by destruct (extended_copy _ _ _ (sys d)) as [s' [x|x]]. }
  destruct (op =? 0x84); [|by apply Hno].
  assert ((receive_copy_results req (sys d)).1 = sys d) as Ers.
  { unfold receive_copy_results. case_bool_decide; [done|]. rewrite run_bind. cbn [get]. rewrite run_bind.
    repeat (destruct (_ =? _); [done|]). done. }
  destruct (receive_copy_results req (sys d)) as [s' [x|x]]; simpl in Ers; subst s'; by apply Hno.
Qed.

Lemma dispatch_moves req fault (d : Daemon doc) :
  sys_ok (sys d) -> req_ok req ->
  let d' := (dispatch req fault d).1 in
  moved_by (may_write (sys d) (reservations d) req) (registry (sys d)) (registry (sys d')) /\
  tokens_of (reservations d) req (sys d) (sys d').
Proof.
  intros Hs Hq. pose proof (dispatch_cases req fault d) as Hd. revert Hd. destruct (preempted_by _ _ _) as [u code].
  intros [[_ ->]|[_ ->]]; [|destruct code as [code|]; [|apply (route_moves req (opcode req) fault (with_ua u d) Hs Hq)]];
    (split; [apply moved_same, Hs|by apply tokens_of_sub]).
Qed.

(** A PERSISTENT RESERVE OUT command carries keys of eight bytes. *)
Lemma decoded_args capable req f op :
  req_ok req -> parse_prout_cdb (cdb req) (data_out req) = Some f ->
  prout_decode capable (f_service_action f) (f_scope f) (f_type_byte f) (f_param_list f) (f_param_list_len f)
    (nexus_from_request req) true = inr op ->
  op_args_ok op /\ op_issuer op = nexus_from_request req.
Proof.
  intros Hq. unfold parse_prout_cdb. case_bool_decide; [done|]. intros [= <-]. unfold prout_decode. simpl.
  assert (forall o, in_u64 (be_val (sl o 8 (take 24 (data_out req))))) as Hk.
  { intros o. assert (bytes_ok (sl o 8 (take 24 (data_out req)))) as Hb by (apply sl_bytes_ok, Forall_take, Hq).
    pose proof (be_val_range _ Hb) as Hv. assert (length (sl o 8 (take 24 (data_out req))) <= 8)%nat by apply firstn_le_length.
    unfold in_u64, u64_max. assert (256 ^ Z.of_nat (length (sl o 8 (take 24 (data_out req)))) <= 256 ^ 8) by (apply Z.pow_le_mono_r; lia). lia. }
  repeat (case_match; [done || (by intros [= <-])|]). repeat case_match; intros [= <-]; simpl; auto.
Qed.

Lemma decode_rejects capable sa scope tb p n nexus present o :
  prout_decode capable sa scope tb p n nexus present = inl o -> o <> Reservations.Good.
Proof. unfold prout_decode. repeat case_match; by intros [= <-]. Qed.

(** The operation a PERSISTENT RESERVE OUT command asks for. *)
Definition reserve_op (mgr : ReservationManager) (req : ScsiRequest) : option PrOp :=
  f ← parse_prout_cdb (cdb req) (data_out req);
  match prout_decode (ptpl_capable mgr) (f_service_action f) (f_scope f) (f_type_byte f) (f_param_list f)
          (f_param_list_len f) (nexus_from_request req) true with
  | inr op => Some op
  | inl _ => None
  end.

Lemma reserve_op_args mgr req op :
  req_ok req -> reserve_op mgr req = Some op -> op_args_ok op /\ op_issuer op = nexus_from_request req.
Proof.
  intros Hq. unfold reserve_op. destruct (parse_prout_cdb _ _) as [f|] eqn:Ef; [|done]. simpl.
  destruct (prout_decode _ _ _ _ _ _ _ _) as [|op'] eqn:Ed; [done|]. intros [= <-]. by eapply decoded_args.
Qed.

Lemma reserve_steps mgr req present fault k :
  mgr_ok mgr -> in_u64 (lun req) -> req_ok req ->
  let '(mgr', _, x, notes) :=
    persistent_reserve_out to_json empty_doc mgr req present (nexus_from_request req) fault k in
  mgr_ok mgr' /\ observers mgr' = observers mgr /\
  (forall l, l <> lun req -> bt_get l (by_lun mgr') = bt_get l (by_lun mgr)) /\
  (status x = Good -> exists op, reserve_op mgr req = Some op /\ committed mgr (lun req) op mgr' notes).
Proof.
  intros Hm Hl Hq. unfold persistent_reserve_out, reserve_op. destruct present; [|by split_and!]. cbn [negb].
  destruct (parse_prout_cdb _ _) as [f|] eqn:Ef; [|by split_and!]. unfold prout. cbn [mbind option_bind].
  pose proof (fun op => decoded_args (ptpl_capable mgr) req f op Hq Ef) as Ha.
  destruct (prout_decode _ _ _ _ _ _ _ _) as [o|op] eqn:Ed.
  { apply decode_rejects in Ed. split_and!; try done. by destruct o. }
  destruct (Ha op eq_refl) as [Hargs _].
  destruct (mutate _ _ _ _ _ _ _) as [[[mgr' k'] o] notes] eqn:E.
  destruct (mutate_steps _ _ _ _ _ _ _ _ _ _ _ Hm Hl Hargs E) as (M1 & M2 & M3 & M4). split_and!; try done.
  intros Hg. exists op. split; [done|]. apply M4. by destruct o.
Qed.

Lemma route_mgr req op fault (d : Daemon doc) :
  mgr_ok (reservations d) -> in_u64 (lun req) -> req_ok req ->
  let d' := (route to_json empty_doc req op fault d).1 in
  mgr_ok (reservations d') /\ observers (reservations d') = observers (reservations d) /\
  (forall l, (op = 0x5F -> l <> lun req) -> bt_get l (by_lun (reservations d')) = bt_get l (by_lun (reservations d))).
Proof.
  intros Hm Hl Hq. unfold route. cbv zeta.
  assert (forall d' : Daemon doc, reservations d' = reservations d -> mgr_ok (reservations d') /\
    observers (reservations d') = observers (reservations d) /\
    (forall l, (op = 0x5F -> l <> lun req) -> bt_get l (by_lun (reservations d')) = bt_get l (by_lun (reservations d)))) as Hno
    by (intros d' ->; by split_and!).
  case_bool_decide.
  { unfold data_command. destruct (dispatch_data _ _ _) as [[c|] r]; by apply Hno. }
  destruct (Z.eqb_spec op 0x5F) as [->|Hop].
  { unfold reserve_command. pose proof (reserve_steps (reservations d) req
      (bool_decide (is_Some (lu_cache <$> admitted_unit (registry (sys d)) req))) fault (disk d) Hm Hl Hq) as Hr.
    destruct (persistent_reserve_out _ _ _ _ _ _ _ _) as [[[mgr k] x] notes]. simpl.
    destruct Hr as (R1 & R2 & R3 & _). split_and!; auto. }
  unfold copy_command. destruct (op =? 0x83).
  { destruct (extended_copy _ _ _ (sys d)) as [s' [x|x]]; by apply Hno. }
  destruct (op =? 0x84); [|by apply Hno]. destruct (receive_copy_results req (sys d)) as [s' [x|x]]; by apply Hno.
Qed.

Lemma dispatch_mgr req fault (d : Daemon doc) :
  mgr_ok (reservations d) -> in_u64 (lun req) -> req_ok req ->
  let d' := (dispatch req fault d).1 in
  mgr_ok (reservations d') /\ observers (reservations d') = observers (reservations d) /\
  (forall l, (opcode req = 0x5F -> l <> lun req) -> bt_get l (by_lun (reservations d')) = bt_get l (by_lun (reservations d))).
Proof.
  intros Hm Hl Hq. pose proof (dispatch_cases req fault d) as Hd. revert Hd. destruct (preempted_by _ _ _) as [u code].
  intros [[_ ->]|[_ ->]]; [|destruct code as [code|]; [|apply (route_mgr req (opcode req) fault (with_ua u d) Hm Hl Hq)]]; by split_and!.
Qed.

(** A host kept out of the unit stays out while the unit's entry stays. *)
Lemma fenced_stays mgr mgr' l v :
  mgr_ok mgr' -> bt_get l (by_lun mgr') = bt_get l (by_lun mgr) -> allow_write mgr l v = false -> allow_write mgr' l v = false.
Proof.
  intros [Ht Hf] E. unfold allow_write. rewrite E. destruct (any_reservation mgr); [|done]. simpl.
  destruct (bt_get l (by_lun mgr)) as [st|]; [|done]. intros Hw. rewrite Hw, Hf.
  replace (any_held (by_lun mgr')) with true; [done|]. symmetry. apply any_held_spec; [apply Ht|].
  exists l, st. split; [done|]. unfold lu_allow_write in Hw. unfold has_reservation. by destruct (reservation st).
Qed.

(** ** What is pending *)

Definition pending_at (d : Daemon doc) (t l : Z) : list UnitAttentionCode :=
  match ua d with Some u => ua_pending u t l | None => [] end.

(** The command takes the unit attentions of session [t] at [l]. *)
Definition takes_ua (t l : Z) (req : ScsiRequest) : Prop :=
  tsih req = t /\ ua_lun (lun req) = l /\ ua_exempt (opcode req) = false.

Lemma deliver_grows notes (d : Daemon doc) t l : pending_at d t l `prefix_of` pending_at (deliver notes d) t l.
Proof.
  unfold pending_at, deliver. simpl. destruct (ua d) as [u|]; [|done]. simpl. revert u.
  induction notes as [|[o cs] notes IH]; intros u; [done|]. simpl. etrans; [|apply IH]. destruct (o =? SINK); [|done]. apply sink_grows.
Qed.

Lemma route_ua req op fault (d : Daemon doc) t l :
  pending_at d t l `prefix_of` pending_at (route to_json empty_doc req op fault d).1 t l.
Proof.
  unfold route. cbv zeta. case_bool_decide.
  { unfold data_command. by destruct (dispatch_data _ _ _) as [[c|] r]. }
  destruct (op =? 0x5F).
  { unfold reserve_command. destruct (persistent_reserve_out _ _ _ _ _ _ _ _) as [[[mgr k] x] notes].
    exact (deliver_grows notes (with_reservations mgr k d) t l). }
  unfold copy_command. destruct (op =? 0x83); [by destruct (extended_copy _ _ _ (sys d)) as [s' [x|x]]|].
  destruct (op =? 0x84); [by destruct (receive_copy_results req (sys d)) as [s' [x|x]]|done].
Qed.

Lemma preempted_others req (d : Daemon doc) t l :
  ~ takes_ua t l req -> pending_at (with_ua (preempted_by req (opcode req) (ua d)).1 d) t l = pending_at d t l.
Proof.
  intros Hn. unfold pending_at, preempted_by, takes_ua in *. simpl. destruct (ua d) as [u|]; [|done].
  destruct (ua_exempt (opcode req)); [done|]. unfold check_and_pop_ua.
  destruct (ua_pending u (tsih req) (ua_lun (lun req))); [done|]. simpl. rewrite ua_pending_insert. case_decide; [|done].
  simplify_eq. by destruct Hn.
Qed.

Lemma dispatch_ua req fault (d : Daemon doc) t l :
  ~ takes_ua t l req -> pending_at d t l `prefix_of` pending_at (dispatch req fault d).1 t l.
Proof.
  intros Hn. pose proof (dispatch_cases req fault d) as Hd. pose proof (preempted_others req d t l Hn) as Hp. revert Hd Hp.
  destruct (preempted_by _ _ _) as [u code]. simpl. intros [[_ ->]|[_ ->]] Hp; [done|].
  rewrite <- Hp. by destruct code; [|apply route_ua].
Qed.
End fence.
