(* ===== verification/DaemonHistory.v ===== *)
(** * Histories of the daemon

    Commands of every kind from any initiators, cache and volume activity,
    logins and logouts, and the passing of time: what a command may change,
    that a preempted host stays out until the reservation changes again, and
    that each of its sessions hears of it. *)

From S2P Require Import Prelude Bytes BTreeMap Pr Reservations ReservationProofs ReservationManager ManagerProofs ReservationRender PageIndex UploadIndex BlockLru PoolBudget StateError IndexCodec PageLru Crypto VolumeWriter VolumeProofs VolumeHistory PageCache PageCacheProofs CacheBytes CacheHistory VolumeCache PageClone Sessions SbcData SbcProofs SbcHistory XCopy XCopyProofs XCopyPlan XCopyHistory Odx OdxProofs OdxHistory SbcPages SbcDispatch SbcPagesProofs SbcFence.

Local Open Scope Z_scope.

Inductive DaemonEvent (doc : Type) : Type :=
  | DCommand (req : ScsiRequest) (fault : option (Fault doc))
  | DActivity (l : Z) (ev : CacheEvent VolumeWriter)
  | DSession (ev : SessionEvent)
  | DClose (t : Z)
  | DSweep (elapsed : Z).
Arguments DCommand {doc} req fault.
Arguments DActivity {doc} l ev.
Arguments DSession {doc} ev.
Arguments DClose {doc} t.
Arguments DSweep {doc} elapsed.

Section history.
Context `{VolumeCryptoLaws} `{HexCodec} {doc : Type} (to_json : PersistedFile -> doc) (empty_doc : doc).

Notation dispatch := (dispatch to_json empty_doc).

Definition daemon_event (ev : DaemonEvent doc) (d : Daemon doc) : Daemon doc :=
  match ev with
  | DCommand req fault => (dispatch req fault d).1
  | DActivity l ev => with_sys (with_registry (registry_event (RUnit l (UActivity ev)) (registry (sys d))) (sys d)) d
  | DSession ev =>
      mkDaemon (sys d) (reservations d) (disk d) (ua d) (session_event ev (session_manager d)) (alua d) (pr_collapse_isid d)
  | DClose t => on_session_close t d
  | DSweep elapsed =>
      let s := sys d in
      let now := clock s + elapsed in
      with_sys (mkSys (registry s) (sweep_expired now (odx s)) now (rng s) (drawn s)) d
  end.

Definition run_daemon (evs : list (DaemonEvent doc)) (d : Daemon doc) : Daemon doc :=
  foldl (fun d ev => daemon_event ev d) d evs.

(** A token is minted over pages that are in storage. *)
Definition minted_stored (req : ScsiRequest) (fault : option (Fault doc)) (d : Daemon doc) : Prop :=
  let s' := sys (dispatch req fault d).1 in
  forall tok st u u1, minted (reservations d) req (nexus_from_request req) (sys d) s' tok st u u1 ->
    forall p, p ∈ source_pages st -> page_uploaded (registry s') (lun req) p.

Definition daemon_event_ok (d : Daemon doc) (ev : DaemonEvent doc) : Prop :=
  match ev with
  | DCommand req fault => req_ok req /\ in_u64 (lun req) /\ minted_stored req fault d
  | DActivity l ev => registry_event_ok (registry (sys d)) (RUnit l (UActivity ev))
  | _ => True
  end.

Fixpoint run_ok (evs : list (DaemonEvent doc)) (d : Daemon doc) : Prop :=
  match evs with
  | [] => True
  | ev :: evs => daemon_event_ok d ev /\ run_ok evs (daemon_event ev d)
  end.

(** Volumes just made, of whole blocks to a page; no reservation yet. *)
Record fresh_daemon (d : Daemon doc) : Prop := {
  fd_registry : fresh_registry (registry (sys d));
  fd_whole : pages_whole (registry (sys d));
  fd_tokens : tokens (odx (sys d)) = ∅;
  fd_table : by_lun (reservations d) = [];
  fd_flag : any_reservation (reservations d) = false;
}.

Record daemon_ok (d : Daemon doc) : Prop := {
  do_sys : sys_ok (sys d);
  do_mgr : mgr_ok (reservations d);
}.

Lemma fresh_daemon_ok d : fresh_daemon d -> daemon_ok d.
Proof.
  intros [F1 F2 F3 F4 F5]. split; split; try done; [by apply fresh_ok| |rewrite F4; apply table_wf_nil|by rewrite F4, F5].
  intros tok st Ht. by rewrite F3 in Ht.
Qed.

Lemma minted_ok s s' P reservations req :
  sys_ok s -> moved_by P (registry s) (registry s') -> tokens_of reservations req s s' ->
  (forall tok st u u1, minted reservations req (nexus_from_request req) s s' tok st u u1 ->
    forall p, p ∈ source_pages st -> page_uploaded (registry s') (lun req) p) -> sys_ok s'.
Proof.
  intros [S1 S2 S3] [M1 M2 M3] Ht Hup. split; [done| |].
  - eapply whole_manifests; [|exact S2]. intros l. by apply later_manifest_at.
  - intros tok st Hst. destruct (Ht tok st Hst) as [Hold|(u & u1 & Hm)].
    + destruct (S3 tok st Hold) as (u & xs & Hh). destruct (token_holds_grown _ _ _ _ _ (later_grown _ _ M2) Hh) as (u' & Hh'). eauto.
    + exists u1, (map (page_content (writer (lu_cache u1))) (source_pages st)). eapply minted_holds; [exact Hm|].
      intros p Hp. specialize (Hup tok st u u1 Hm p Hp). unfold page_uploaded in Hup. by rewrite (mt_unit1 _ _ _ _ _ _ _ _ _ Hm) in Hup.
Qed.

Lemma command_ok d req fault :
  daemon_ok d -> daemon_event_ok d (DCommand req fault) -> daemon_ok (dispatch req fault d).1.
Proof.
  intros [D1 D2] (Hq & Hl & Hm). destruct (dispatch_moves to_json empty_doc req fault d D1 Hq) as [Hmv Ht].
  split; [by eapply minted_ok|]. apply (dispatch_mgr to_json empty_doc req fault d D2 Hl Hq).
Qed.

Lemma event_daemon_ok d ev : daemon_ok d -> daemon_event_ok d ev -> daemon_ok (daemon_event ev d).
Proof.
  intros Hd He. destruct ev as [req fault|l ev|ev|t|n]; [by apply command_ok|..]; destruct Hd as [[S1 S2 S3] D2]; split; try done; simpl in *.
  - destruct (registry_step (RUnit l (UActivity ev)) _ S1 He) as [R1 R2]. split; [done|by eapply whole_manifests|].
    eapply (tokens_grown (sys d)); [|done..]. exact (event_grown (RUnit l (UActivity ev)) _ S1 He).
  - eapply (sys_moved (fun _ => False) (sys d)); [by split|by apply moved_same|]. simpl. apply map_filter_subseteq.
Qed.

Lemma run_daemon_ok evs d : daemon_ok d -> run_ok evs d -> daemon_ok (run_daemon evs d).
Proof.
  revert d. induction evs as [|ev evs IH]; intros d Hd; [done|]. intros [He Hr]. by apply IH; [apply event_daemon_ok|].
Qed.

(** ** Theorems *)


(** No PERSISTENT RESERVE OUT command to unit [l]. *)
Definition no_reserve (l : Z) (ev : DaemonEvent doc) : Prop :=
  match ev with DCommand req _ => opcode req = 0x5F -> lun req <> l | _ => True end.

Lemma event_fenced ev d l v :
  daemon_ok d -> daemon_event_ok d ev -> no_reserve l ev ->
  allow_write (reservations d) l v = false -> allow_write (reservations (daemon_event ev d)) l v = false.
Proof.
  intros [_ D2] He Hn Hw. destruct ev as [req fault| | | |]; try done. destruct He as (Hq & Hl & _).
  destruct (dispatch_mgr to_json empty_doc req fault d D2 Hl Hq) as (M1 & _ & M3).
  eapply fenced_stays; [exact M1| |exact Hw]. apply M3. intros Ho E. by apply (Hn Ho).
Qed.

Lemma run_fenced evs d l v :
  daemon_ok d -> run_ok evs d -> Forall (no_reserve l) evs ->
  allow_write (reservations d) l v = false -> allow_write (reservations (run_daemon evs d)) l v = false.
Proof.
  revert d. induction evs as [|ev evs IH]; intros d Hd; [done|]. intros [He Hr] [Hn Hns]%Forall_cons Hw.
  apply IH; try done; [by apply event_daemon_ok|by apply event_fenced].
Qed.

(** A PREEMPT of the unit's reservation that answered GOOD. *)
Record preempts (req : ScsiRequest) (fault : option (Fault doc)) (d : Daemon doc) (victim : RegistrantId) : Prop := {
  pe_opcode : opcode req = 0x5F;
  pe_op : exists rk sark tb, reserve_op (reservations d) req = Some (OpPreempt (nexus_from_request req) rk sark tb) /\
    sark <> 0 /\ registration_key (lu_view (by_lun (reservations d)) (lun req)) victim = Some sark;
  pe_other : victim <> nexus_from_request req;
  pe_coherent : coherent (lu_view (by_lun (reservations d)) (lun req));
  pe_good : exists x, (dispatch req fault d).2 = Replied x /\ status x = Good;
}.

Lemma not_preempted req op u u' : preempted_by req op u = (u', None) -> u' = u.
Proof.
  unfold preempted_by, check_and_pop_ua. destruct u as [u|]; [|by intros [= <-]]. destruct (ua_exempt op); [by intros [= <-]|].
  destruct (ua_pending u (tsih req) (ua_lun (lun req))); by intros [= <-].
Qed.

(** What a PREEMPT that answered GOOD did. *)
Lemma preempt_committed req fault d victim :
  daemon_ok d -> daemon_event_ok d (DCommand req fault) -> preempts req fault d victim ->
  exists rk sark tb mgr k notes, (dispatch req fault d).1 = deliver notes (with_reservations mgr k d) /\ mgr_ok mgr /\
    committed (reservations d) (lun req) (OpPreempt (nexus_from_request req) rk sark tb) mgr notes /\
    in_u64 rk /\ in_u64 sark /\ sark <> 0 /\ registration_key (lu_view (by_lun (reservations d)) (lun req)) victim = Some sark.
Proof.
  intros [_ D2] (Hq & Hl & _) [Ho (rk & sark & tb & Hop & Hs & Hk) _ _ (x & Hx & Hg)].
  pose proof (dispatch_cases to_json empty_doc req fault d) as Hd. revert Hd.
  destruct (preempted_by req (opcode req) (ua d)) as [u code] eqn:Eu. intros [[_ E]|[_ E]].
  { rewrite E in Hx. by injection Hx as <-. }
  destruct code as [code|]; [rewrite E in Hx; by injection Hx as <-|]. apply not_preempted in Eu as ->.
  replace (with_ua (ua d) d) with d in E by (by destruct d). rewrite E in Hx |- *. rewrite Ho in *.
  change (route to_json empty_doc req 0x5F fault d) with
    (reserve_command to_json empty_doc req (bool_decide (is_Some (lu_cache <$> admitted_unit (registry (sys d)) req))) fault d) in *.
  unfold reserve_command in *.
  pose proof (reserve_steps to_json empty_doc (reservations d) req
    (bool_decide (is_Some (lu_cache <$> admitted_unit (registry (sys d)) req))) fault (disk d) D2 Hl Hq) as Hr. revert Hr Hx.
  destruct (persistent_reserve_out _ _ _ _ _ _ _ _) as [[[mgr k] x'] notes]. simpl. intros (R1 & _ & _ & R4) [= <-].
  destruct (R4 Hg) as (op & Eop & Hc). rewrite Hop in Eop. injection Eop as <-.
  destruct (reserve_op_args (reservations d) req _ Hq Hop) as [[Ha1 Ha2] _]. by exists rk, sark, tb, mgr, k, notes.
Qed.


(** ** Being told *)

(** The session [t] is a host's: its nexus is the session's port. *)
Definition session_of (d : Daemon doc) (t : Z) (host : RegistrantId) : Prop :=
  exists sn isid, sessions (session_manager d) !! t = Some sn /\ host = Iscsi (s_initiator_iqn sn) isid /\
    (pr_collapse_isid d = true \/ isid = s_isid sn).

(** The event leaves what is pending for session [t] at [l]. *)
Definition keeps_ua (t l : Z) (ev : DaemonEvent doc) : Prop :=
  match ev with DCommand req _ => ~ takes_ua t l req | DClose t' => t' <> t | _ => True end.

Lemma event_pending ev d t l : keeps_ua t l ev -> pending_at d t l `prefix_of` pending_at (daemon_event ev d) t l.
Proof.
  intros Hk. destruct ev as [req fault|l' ev|ev|t'|n]; [by apply dispatch_ua|done|done| |done].
  unfold pending_at. simpl. destruct (ua d) as [u|]; [|done]. simpl. unfold clear_session, ua_pending. simpl in Hk.
  destruct (u !! (t, l)) as [codes|] eqn:E; [|apply prefix_nil]. by rewrite (map_lookup_filter_Some_2 _ _ _ codes).
Qed.

Lemma run_pending evs d t l : Forall (keeps_ua t l) evs -> pending_at d t l `prefix_of` pending_at (run_daemon evs d) t l.
Proof.
  revert d. induction evs as [|ev evs IH]; intros d; [done|]. intros [Hk Hks]%Forall_cons.
  etrans; [by apply event_pending|by apply IH].
Qed.

Lemma delivered notes (d : Daemon doc) u cs c t host :
  ua d = Some u -> sessions_ok (session_manager d) -> session_of d t host -> In (SINK, cs) notes -> In c cs ->
  affected c = host -> 0 <= ch_lun c <= 255 -> sink_code (Reservations.kind c) ∈ pending_at (deliver notes d) t (ch_lun c).
Proof.
  intros Hu Hs (sn & isid & Hsn & -> & Hi) Hin Hc Ha Hl. unfold pending_at, deliver. simpl. rewrite Hu. simpl. clear Hu.
  revert u. induction notes as [|[o cs'] notes IH]; intros u; [done|]. simpl. destruct Hin as [[= -> ->]|Hin]; [|by apply IH].
  rewrite Z.eqb_refl.
  eapply elem_of_prefix; [|exact (deliver_grows notes (with_ua (Some (on_reservation_change (pr_collapse_isid d) (session_manager d) cs u)) d) t (ch_lun c))].
  unfold pending_at. simpl. apply (sink_tells _ _ _ _ _ sn); try done; [by apply list_elem_of_In|].
  destruct Hi as [Hi| ->]; [right; eauto|by left].
Qed.

(** A command with something pending answers with it and does nothing else. *)
Lemma attention_first req fault (d : Daemon doc) code rest :
  cdb req <> [] -> ua_exempt (opcode req) = false -> pending_at d (tsih req) (ua_lun (lun req)) = code :: rest ->
  exists u, dispatch req fault d =
    (with_ua (Some u) d, Replied (check (mkSense UnitAttention (ua_asc code) (ua_ascq code)))) /\
    ua_pending u (tsih req) (ua_lun (lun req)) = rest.
Proof.
  intros Hc Hx Hp. pose proof (dispatch_cases to_json empty_doc req fault d) as Hd. revert Hd.
  unfold preempted_by. unfold pending_at in Hp. destruct (ua d) as [u|]; [|done]. rewrite Hx. unfold check_and_pop_ua. rewrite Hp.
  intros [[Hn _]|[_ ->]]; [done|]. eexists. split; [reflexivity|]. by rewrite ua_pending_insert, decide_True.
Qed.


(** C38: the attentions of unit 255 go to any unit above it.  A command to a
    unit of number above 255 takes what is pending for its session at unit
    255: it answers UNIT ATTENTION for a unit it did not name, whether or
    not that unit exists, and the hosts' next command to unit 255 is not
    preempted by it. *)
Theorem attention_misdelivered d req fault code :
  255 < lun req -> cdb req <> [] -> ua_exempt (opcode req) = false -> pending_at d (tsih req) 255 = [code] ->
  exists d', dispatch req fault d = (d', Replied (check (mkSense UnitAttention (ua_asc code) (ua_ascq code)))) /\
    pending_at d' (tsih req) 255 = [].
Proof.
  intros Hl Hc Hx Hp. assert (ua_lun (lun req) = 255) as El by (unfold ua_lun; rewrite (proj2 (Z.leb_gt _ _)) by lia; done).
  destruct (attention_first req fault d code [] Hc Hx) as (u & -> & Hu); [by rewrite El|]. rewrite El in Hu. eauto.
Qed.
End history.

(** ** Two hosts *)

Definition host_session (who : Z) : Session :=
  mkSession who [0; 0; 0; 0; 0; who] ∅ 0 None (Some [who]) None.

(** Two volumes, a session of each of two hosts, nothing reserved. *)
Definition two_host_daemon : Daemon PersistedFile :=
  mkDaemon (mkSys two_units tokens_new 0 (fun n => [Z.of_nat n]) 0) (register_observer new SINK) (mkDisk None None)
    (Some ∅) (mkSessions {[65 := host_session 65; 66 := host_session 66]} 67) (from_portals [1] [0x69]) false.

(** PERSISTENT RESERVE OUT of the host [who]. *)
Definition reserve_request (who sa type rk sark : Z) : ScsiRequest :=
  mkRequest who 0 [0x5F; sa; type; 0; 0; 0; 0; 0; 24; 0]
    (be_bytes 8 rk ++ be_bytes 8 sark ++ replicate 8 0) 0 (Some [who]) [0; 0; 0; 0; 0; who] None.

(** Host 65 registers and reserves for writing, host 66 registers. *)
Definition reserved : list (DaemonEvent PersistedFile) :=
  [DCommand (reserve_request 65 0 0 0 7) None; DCommand (reserve_request 65 1 1 7 0) None;
   DCommand (host_request 0x2A 1 2 [1; 2; 3; 4] 0 65) None; DCommand (reserve_request 66 0 0 0 8) None].

Definition takeover : ScsiRequest := reserve_request 66 4 1 8 7.

(** Host 66 writes, and a page goes to storage. *)
Definition after_takeover : list (DaemonEvent PersistedFile) :=
  [DCommand (host_request 0x2A 2 1 [5; 6] 0 66) None; DActivity 0 CFlushAll; DSweep 5].

Definition late_write : ScsiRequest := host_request 0x2A 1 2 [9; 9; 9; 9] 0 65.

Notation model_dispatch := (@dispatch model_crypto hex_crate PersistedFile id (mkPFile 1 [])).
Notation model_run := (@run_daemon model_crypto hex_crate PersistedFile id (mkPFile 1 [])).
Notation model_run_ok := (@run_ok model_crypto hex_crate PersistedFile id (mkPFile 1 [])).
Notation model_event_ok := (@daemon_event_ok model_crypto hex_crate PersistedFile id (mkPFile 1 [])).

(** A command that is no job mints no token. *)
Lemma jobless_ok (d : Daemon PersistedFile) req :
  req_ok req -> in_u64 (lun req) -> job_result (odx (sys (model_dispatch req None d).1)) (list_id_of req) = None ->
  model_event_ok d (DCommand req None).
Proof.
  intros Hq Hl Hj. split; [done|]. split; [done|]. intros tok st u u1 Hm. apply mt_job in Hm. congruence.
Qed.

Lemma reserve_request_ok who sa type rk sark :
  bytes_ok [sa; type] -> in_u64 rk -> in_u64 sark -> req_ok (reserve_request who sa type rk sark).
Proof.
  intros Hb Hrk Hsk. repeat (apply Forall_cons in Hb as [? Hb]). split; cbn [cdb data_out data_in_max reserve_request]; [|..|lia].
  - repeat (apply Forall_cons; split; [done || (unfold byte_ok; lia)|]). constructor.
  - apply Forall_app; split; [apply be_bytes_ok|]. apply Forall_app; split; [apply be_bytes_ok|]. cbn [replicate].
    repeat (apply Forall_cons; split; [unfold byte_ok; lia|]). constructor.
Qed.

Ltac command_ok :=
  apply jobless_ok; [first [request_ok|apply reserve_request_ok; [repeat constructor; unfold byte_ok; lia|unfold in_u64, u64_max; lia..]]|
    unfold in_u64, u64_max; simpl; lia|vm_compute; reflexivity].

Lemma two_hosts_fresh : fresh_daemon two_host_daemon.
Proof.
  split; [exact two_units_fresh| |reflexivity..]. intros l u [-> | ->]%two_units_get; vm_compute; reflexivity.
Qed.

Lemma reserved_ok : model_run_ok reserved two_host_daemon.
Proof. repeat (split; [command_ok|]). exact I. Qed.

Definition reserved_daemon : Daemon PersistedFile := model_run reserved two_host_daemon.

Definition preempted_daemon : Daemon PersistedFile := (model_dispatch takeover None reserved_daemon).1.

Lemma takeover_preempts :
  model_event_ok reserved_daemon (DCommand takeover None) /\
  @preempts model_crypto hex_crate PersistedFile id (mkPFile 1 []) takeover None reserved_daemon (nexus_from_request late_write).
Proof.
  split; [command_ok|]. split.
  - reflexivity.
  - exists 8, 7, 1. split; [vm_compute; reflexivity|]. split; [discriminate|vm_compute; reflexivity].
  - discriminate.
  - intros r. vm_compute. intros [= <-]. reflexivity.
  - exists (good []). split; vm_compute; reflexivity.
Qed.

Lemma after_takeover_ok : model_run_ok after_takeover preempted_daemon.
Proof. split; [command_ok|]. split; [intros u Hu; exact I|]. split; exact I. Qed.

(** Host 65 hears of it, tries to read, and tries to write. *)
Definition late_read : DaemonEvent PersistedFile := DCommand (host_request 0x28 1 2 [] 4 65) None.

Lemma late_ok : model_run_ok (after_takeover ++ [late_read]) preempted_daemon.
Proof. split; [command_ok|]. split; [intros u Hu; exact I|]. split; [exact I|]. split; [command_ok|exact I]. Qed.




Lemma attention_misdelivered_witness :
  exists d', model_dispatch (probe 300 [0; 0; 0; 0; 0; 0] []) None
    (with_ua (Some (add_ua 1 255 RESERVATIONS_PREEMPTED ∅)) two_host_daemon) =
      (d', Replied (check (mkSense UnitAttention 0x2A 0x03))) /\ pending_at d' 1 255 = [].
Proof.
  apply (@attention_misdelivered model_crypto hex_crate PersistedFile id (mkPFile 1 [])
    (with_ua (Some (add_ua 1 255 RESERVATIONS_PREEMPTED ∅)) two_host_daemon) (probe 300 [0; 0; 0; 0; 0; 0] []) None RESERVATIONS_PREEMPTED);
    [simpl; lia|discriminate|reflexivity|vm_compute; reflexivity].
Defined.
