(* ===== verification/Cartridge.v ===== *)
(** * The tape cartridge ([core/stream/src/cartridge])

    One cartridge loaded in a drive: its runtime record, its block index per
    partition and chunk index, the active staging chunk, the head, and the
    drive's encryption and compression.  This file has the state, the index
    helpers ([indexing.rs]), the seal pipeline ([chunking.rs]) and the write
    path ([mod.rs]).  Compression is a parameter; what the outside world
    decides is in [env].  The index files take every write at once, and
    their writes do not fail; an [fsync] changes nothing but the dirty-page
    sidecars, and an open is given any that can be read. *)

From Stdlib Require Import String.
From S2P Require Import Prelude Bytes ByteFile BTreeMap DirtyPages TrackedFile FastCdc StreamLru ChunkIndex BlockIndex IndexCodec PoolBudget Crypto StateError.

Local Open Scope Z_scope.
Local Open Scope thur_scope.

(** ** Compression ([shared/object-store/src/compression.rs]) *)

Class Compressor : Type := {
  lz4_encode : list Z -> option (list Z);
  lz4_decode : list Z -> option (list Z);
  zstd_encode : Z -> list Z -> option (list Z);
  zstd_decode : list Z -> option (list Z);
}.

(** A frame decodes to what was encoded. *)
Class CompressorLaws `{Compressor} : Prop := {
  lz4_roundtrip x y : lz4_encode x = Some y -> lz4_decode y = Some x;
  zstd_roundtrip l x y : zstd_encode l x = Some y -> zstd_decode y = Some x;
}.

(** A concrete instance: frames of one byte and the content. *)
Definition model_compressor : Compressor := {|
  lz4_encode x := Some (4 :: x);
  lz4_decode y := match y with 4 :: x => Some x | _ => None end;
  zstd_encode _ x := Some (40 :: x);
  zstd_decode y := match y with 40 :: x => Some x | _ => None end;
|}.

Lemma model_compressor_laws : @CompressorLaws model_compressor.
Proof. split; intros; simpl in *; simplify_eq; done. Qed.

Definition compress_data `{Compressor} (algo : CompressionAlgo) (data : list Z) (level : Z) : result (list Z) SmcError :=
  match algo with
  | Lz4 => ok_or (lz4_encode data) CompressionError
  | Zstd => ok_or (zstd_encode level data) CompressionError
  | Sldc => Err CompressionError
  end.

Definition decompress_data `{Compressor} (algo : CompressionAlgo) (data : list Z) : result (list Z) SmcError :=
  match algo with
  | Lz4 => ok_or (lz4_decode data) CompressionError
  | Zstd => ok_or (zstd_decode data) CompressionError
  | Sldc => Err CompressionError
  end.

Record DriveCompressionState : Type := mkCompression {
  dce : bool;
  algorithm : CompressionAlgo;
  level : Z;
}.

Definition ZSTD_DEFAULT_LEVEL : Z := 3.
Definition compression_disabled : DriveCompressionState := mkCompression false Lz4 ZSTD_DEFAULT_LEVEL.

(** ** Drive encryption ([encryption.rs]) *)

Inductive EncryptionMode : Type := EncryptDisable | Encrypt.
Inductive DecryptionMode : Type := DecryptDisable | Raw | Decrypt | Mixed.
Inductive KeyScope : Type := PublicScope | LocalScope | AllItNexus.

Record DriveEncryptionState : Type := mkEncryption {
  enc_mode : EncryptionMode;
  decryption_mode : DecryptionMode;
  scope : KeyScope;
  algorithm_index : Z;
  key : list Z;
  kad : list Z;
}.

Definition encrypt_on_write (s : DriveEncryptionState) : bool :=
  match enc_mode s with Encrypt => Z.of_nat (length (key s)) =? KEY_LEN | EncryptDisable => false end.

(** ** The cartridge's records *)

Inductive ChunkingMode : Type :=
  | Fixed (size_bytes : Z)
  | FastCdcMode (mn av mx : Z).

Record Manifest : Type := mkManifest {
  uuid : list Z;
  chunk_size_bytes : Z;
  chunking_field : option ChunkingMode;
  capacity_gb : Z;
  worm : bool;
  dedup_namespace : Namespace;
}.

Record Partition : Type := mkPartition {
  capacity_mib : Z;
  overwrite_barrier : option nat;
}.

Definition partition_default : Partition := mkPartition 0 None.

Record PendingPartitionLayout : Type := mkLayout {
  fdp : bool;
  sdp : bool;
  idp : bool;
  additional_partitions : nat;
  psum : Z;
  partition_sizes : list Z;
}.

(** [runtime.json], but for the epochs of the index backup. *)
Record Runtime : Type := mkRuntime {
  partitions : list Partition;
  active_partition : nat;
  pending_partition_layout : option PendingPartitionLayout;
  set_capacity : Z;
  mam_attributes : btree Z (Z * list Z);
  mount_count : Z;
  host_bytes_written : Z;
  host_bytes_read : Z;
  backend_bytes_written : Z;
  backend_bytes_read : Z;
}.

Definition u16_full : Z := 65535.

Definition runtime_blank : Runtime := mkRuntime [partition_default] 0 None u16_full [] 0 0 0 0 0.

(** The answers of the outside world in order; past the end calls succeed.
    [answers] is for the budget and the object store, [pool_io] for syncing
    and inserting chunk files, [torn] for appends to the staging file:
    [Some n] is a write that fails after [n] bytes. *)
Record Env : Type := mkEnv {
  answers : list bool;
  pool_io : list bool;
  torn : list (option nat);
  now : Z;
}.

(** [pool] and [storage] map the hex digest in a file or object name to the
    content.  [staging_files] are the files under [.staging], of which
    [cur_file] is the one of [cur_chunk_id]; [disk_runtime] is
    [runtime.json].  [cur_chunk_hasher] is the bytes fed to the hasher. *)
Record Cartridge : Type := mkCartridge {
  manifest : Manifest;
  runtime : Runtime;
  disk_runtime : Runtime;
  chunk_index : ChunkIndexFile;
  lru_index : LruIndexFile;
  block_indexes : list BlockIndexFile;
  staging_files : gmap nat (list Z);
  cur_chunk_id : nat;
  cur_chunk : ChunkRec;
  cur_chunk_hasher : list Z;
  head_lba : nat;
  storage_backend : bool;
  chunking : ChunkingMode;
  cdc_state : option StreamingChunker;
  drive_encryption : option DriveEncryptionState;
  drive_compression : DriveCompressionState;
  pool_budget : PoolBudget;
  legal_held : bool;
  sealed_bytes : Z;
  early_warning_reported : bool;
  at_rest_dek : option (list Z);
  last_decrypted_chunk : option (nat * list Z);
  pool : gmap (list Z) (list Z);
  storage : gmap (list Z) (list Z);
  env : Env;
}.

#[export] Instance eta_Env : Eta Env := fun e => mkEnv (answers e) (pool_io e) (torn e) (now e).
#[export] Instance eta_Partition : Eta Partition := fun p => mkPartition (capacity_mib p) (overwrite_barrier p).
#[export] Instance eta_ChunkRec : Eta ChunkRec := fun r =>
  mkChunk (csize r) (chash r) (location r) (uploaded r) (ccompression r).
#[export] Instance eta_Runtime : Eta Runtime := fun r =>
  mkRuntime (partitions r) (active_partition r) (pending_partition_layout r) (set_capacity r) (mam_attributes r)
    (mount_count r) (host_bytes_written r) (host_bytes_read r) (backend_bytes_written r) (backend_bytes_read r).
#[export] Instance eta_Cartridge : Eta Cartridge := fun c =>
  mkCartridge (manifest c) (runtime c) (disk_runtime c) (chunk_index c) (lru_index c) (block_indexes c)
    (staging_files c) (cur_chunk_id c) (cur_chunk c) (cur_chunk_hasher c) (head_lba c) (storage_backend c)
    (chunking c) (cdc_state c) (drive_encryption c) (drive_compression c) (pool_budget c) (legal_held c)
    (sealed_bytes c) (early_warning_reported c) (at_rest_dek c) (last_decrypted_chunk c) (pool c) (storage c) (env c).

Notation M := (EM Cartridge SmcError).

Definition set_runtime (f : Runtime -> Runtime) : M unit := modify (fun c => c <| runtime := f (runtime c) |>).
Definition set_cur_chunk (f : ChunkRec -> ChunkRec) : M unit := modify (fun c => c <| cur_chunk := f (cur_chunk c) |>).

(** ** The outside world *)

Definition answer : M bool := fun c =>
  match answers (env c) with
  | [] => (c, Ok true)
  | b :: rest => (c <| env := (env c) <| answers := rest |> |>, Ok b)
  end.

Definition pool_call : M unit := fun c =>
  match pool_io (env c) with
  | [] => (c, Ok tt)
  | b :: rest => (c <| env := (env c) <| pool_io := rest |> |>, if b : bool then Ok tt else Err Io)
  end.

(** [write_all] on the staging file, opened to append. *)
Definition append_staging (bytes : list Z) : M unit := fun c =>
  let land bs c := c <| staging_files := <[cur_chunk_id c := default [] (staging_files c !! cur_chunk_id c) ++ bs]> (staging_files c) |> in
  match torn (env c) with
  | Some n :: rest => (land (take n bytes) (c <| env := (env c) <| torn := rest |> |>), Err Io)
  | None :: rest => (land bytes (c <| env := (env c) <| torn := rest |> |>), Ok tt)
  | [] => (land bytes c, Ok tt)
  end.

(** ** Block and chunk indexes ([indexing.rs]) *)

Definition no_index : BlockIndexFile := mkTracked [] 0 (mkInner [] 0).

(** The code indexes the vector; a partition is always in range. *)
Definition block_index (c : Cartridge) (p : nat) : BlockIndexFile := default no_index (block_indexes c !! p).

Definition next_lba_of (c : Cartridge) (p : nat) : nat := t_next (block_index c p).

Definition active_next_lba (c : Cartridge) : nat := next_lba_of c (active_partition (runtime c)).

Definition set_index (p : nat) (b : BlockIndexFile) : M unit :=
  modify (fun c => c <| block_indexes := <[p := b]> (block_indexes c) |>).

Definition block_at (p lba : nat) : M BlockRec := c ← get; of_result (BlockIndex.read (block_index c p) lba).

Definition block_run_at (p lba n : nat) : M (list (result BlockRec SmcError)) :=
  c ← get; of_result (BlockIndex.read_run (block_index c p) lba n).

Definition encode_block_rec (cid : nat) (off len : Z) (k : BlockKind) (enc : bool) (comp : option CompressionAlgo) :
    result BlockRec SmcError :=
  if u32_max <? Z.of_nat cid then Err (InvalidOp "block-index encode: chunk_id exceeds u32::MAX")
  else if u32_max <? off then Err (InvalidOp "block-index encode: offset exceeds u32::MAX (chunk > 4 GiB)")
  else if u32_max <? len then Err (InvalidOp "block-index encode: len exceeds u32::MAX")
  else Ok (mkBlock (Z.of_nat cid) off len k (if enc then Aes256Gcm else ENone) comp).

(** [head_lba] becomes the address after the record's. *)
Definition append_rec (rec : BlockRec) : M nat :=
  c ← get;
  let p := active_partition (runtime c) in
  let '(b, lba) := BlockIndex.append (block_index c p) rec in
  set_index p b;;
  modify (fun c => c <| head_lba := S lba |>);;
  mret lba.

Definition touch (id : nat) : M unit :=
  c ← get;
  match StreamLru.touch (lru_index c) id (now (env c)) with
  | Ok l => modify (fun c => c <| lru_index := l |>)
  | Err _ => fail (InvalidOp "lru index touch past next_id")
  end.

(** ** The seal pipeline ([chunking.rs]) *)

Definition forced_cut_threshold (m : ChunkingMode) : Z :=
  match m with
  | Fixed size_bytes => if size_bytes =? 0 then u64_max else size_bytes
  | FastCdcMode _ _ mx => mx
  end.

Section cartridge.
Context `{VolumeCrypto} `{HexCodec} `{Compressor}.

Definition overwrite_chunk (id : nat) (r : ChunkRec) : M unit :=
  c ← get;
  b ← of_result (ChunkIndex.overwrite (chunk_index c) id r);
  modify (fun c => c <| chunk_index := b |>).

(** An empty staging file; [create_new] refuses one that exists. *)
Definition new_chunk (id : nat) : M ChunkRec :=
  c ← get;
  match staging_files c !! id with
  | Some _ => fail Io
  | None => modify (fun c => c <| staging_files := <[id := []]> (staging_files c) |>);; mret staging
  end.

(** [try_reserve], as it ends: admitted, or refused at the deadline. *)
Definition try_reserve (bytes : Z) : M unit :=
  c ← get;
  enough_disk ← answer;
  let disk_free := if enough_disk : bool then None else Some 0 in
  let ns := dedup_namespace (manifest c) in
  match (if ungated (pool_budget c) then Some (force_reserve (pool_budget c) bytes ns)
         else try_room (pool_budget c) disk_free bytes ns) with
  | Some b => modify (fun c => c <| pool_budget := b |>)
  | None => fail SmcBackpressured
  end.

Definition release_bytes (bytes : Z) (c : Cartridge) : Cartridge :=
  c <| pool_budget := release (pool_budget c) bytes (dedup_namespace (manifest c)) |>.

(** [ChunkPool::insert_from_path] of the staging file [id]. *)
Definition insert_from_path (id : nat) (hash : list Z) : M unit :=
  c ← get;
  match staging_files c !! id with
  | None => fail Io
  | Some bytes =>
      match pool c !! hash with
      | Some _ => modify (fun c => c <| staging_files := delete id (staging_files c) |>)
      | None =>
          pool_call;;
          modify (fun c => c <| pool := <[hash := bytes]> (pool c) |> <| staging_files := delete id (staging_files c) |>)
      end
  end.

(** The digest of the staging file as it goes to the pool: under at-rest
    encryption the file is first rewritten with the sealed chunk. *)
Definition seal_hash (staged_bytes : Z) : M (list Z) :=
  c ← get;
  let id := cur_chunk_id c in
  match at_rest_dek c with
  | Some dek =>
      plaintext ← on_error (release_bytes staged_bytes) (of_result (ok_or (staging_files c !! id) Io));
      match encrypt_block dek (derive_iv (uuid (manifest c)) (Z.of_nat id) 0) plaintext with
      | Err _ => on_error (release_bytes staged_bytes) (fail EncryptionError)
      | Ok ciphertext =>
          modify (fun c => c <| cur_chunk_hasher := [] |>);;
          on_error (release_bytes staged_bytes) pool_call;;
          modify (fun c => c <| staging_files := <[id := ciphertext]> (staging_files c) |>);;
          on_error (release_bytes staged_bytes) pool_call;;
          mret (hex_encode (blake3 ciphertext))
      end
  | None =>
      let h := hex_encode (blake3 (cur_chunk_hasher c)) in
      modify (fun c => c <| cur_chunk_hasher := [] |>);;
      mret h
  end.

Definition seal_current_chunk (force : bool) : M bool :=
  c ← get;
  match chash (cur_chunk c) with
  | Some _ => mret true
  | None =>
      let id := cur_chunk_id c in
      let staged_bytes := csize (cur_chunk c) in
      if staged_bytes =? 0 then
        modify (fun c => c <| staging_files := delete id (staging_files c) |> <| cur_chunk_hasher := [] |>);;
        mret false
      else
        (if force
         then modify (fun c => c <| pool_budget := force_reserve (pool_budget c) staged_bytes (dedup_namespace (manifest c)) |>)
         else try_reserve staged_bytes);;
        (match at_rest_dek c with Some _ => mret tt | None => on_error (release_bytes staged_bytes) pool_call end);;
        hash ← seal_hash staged_bytes;
        c ← get;
        let dedup_hit := bool_decide (is_Some (pool c !! hash)) in
        on_error (release_bytes staged_bytes) (insert_from_path id hash);;
        (if dedup_hit then modify (release_bytes staged_bytes) else mret tt);;
        set_cur_chunk (fun r => r <| chash := Some hash |>);;
        c ← get;
        overwrite_chunk id (cur_chunk c);;
        mret true
  end.

(** [seal_and_start_new_chunk]: an empty chunk keeps its slot. *)
Definition seal_and_start_new_chunk : M unit :=
  sealed ← seal_current_chunk false;
  modify (fun c => c <| cdc_state := reset <$> cdc_state c |>);;
  c ← get;
  if sealed : bool then
    modify (fun c => c <| sealed_bytes := sat_add64 (sealed_bytes c) (csize (cur_chunk c)) |>);;
    let id := S (cur_chunk_id c) in
    newc ← new_chunk id;
    b ← of_result (ChunkIndex.append (chunk_index c) newc);
    modify (fun c => c <| chunk_index := b.1 |> <| lru_index := (StreamLru.append (lru_index c) (now (env c))).1 |>
                       <| cur_chunk_id := id |> <| cur_chunk := newc |>)
  else
    newc ← new_chunk (cur_chunk_id c);
    overwrite_chunk (cur_chunk_id c) newc;;
    touch (cur_chunk_id c);;
    modify (fun c => c <| cur_chunk := newc |>).

Definition roll_chunk_if_needed (to_append : Z) : M unit :=
  c ← get;
  if csize (cur_chunk c) + to_append <=? forced_cut_threshold (chunking c) then mret tt
  else seal_and_start_new_chunk.

Definition maybe_cdc_seal_after_write (written : list Z) : M unit :=
  c ← get;
  match cdc_state c with
  | None => mret tt
  | Some sc =>
      let '(should_seal, sc) := feed sc written in
      modify (fun c => c <| cdc_state := Some sc |>);;
      if should_seal : bool then seal_and_start_new_chunk else mret tt
  end.

(** ** Capacity ([mod.rs]) *)

Definition used_capacity_bytes (c : Cartridge) : Z := sat_add64 (sealed_bytes c) (csize (cur_chunk c)).

Definition sat_mul64 (a b : Z) : Z := Z.min u64_max (a * b).

Definition effective_capacity_bytes (c : Cartridge) : option Z :=
  if capacity_gb (manifest c) =? 0 then None
  else
    let native := sat_mul64 (capacity_gb (manifest c)) (2 ^ 30) in
    let p := set_capacity (runtime c) in
    if (p =? 0) || (p =? u16_full) then Some native else Some (native * p / u16_full).

Definition early_warning_threshold_bytes (c : Cartridge) : option Z :=
  effective ← effective_capacity_bytes c; Some (sat_mul64 effective 95 / 100).

Definition maybe_raise_early_warning : M bool :=
  c ← get;
  if early_warning_reported c then mret false
  else
    match early_warning_threshold_bytes c with
    | None => mret false
    | Some threshold =>
        if threshold <=? used_capacity_bytes c
        then modify (fun c => c <| early_warning_reported := true |>);; mret true
        else mret false
    end.

(** ** Writing ([mod.rs]) *)

Definition require_writable (append_at_eod_ok : bool) : M unit :=
  c ← get;
  if legal_held c then fail LegalHoldViolation
  else if worm (manifest c) && negb (append_at_eod_ok && bool_decide (head_lba c = active_next_lba c))
  then fail WormViolation
  else mret tt.

Definition truncate_from_head : M unit :=
  c ← get;
  let p := active_partition (runtime c) in
  if bool_decide (next_lba_of c p <= head_lba c)%nat then mret tt
  else
    match partitions (runtime c) !! p ≫= overwrite_barrier with
    | Some barrier =>
        if bool_decide (barrier <= head_lba c)%nat then mret tt
        else set_index p (BlockIndex.truncate_to (block_index c p) (head_lba c))
    | None => set_index p (BlockIndex.truncate_to (block_index c p) (head_lba c))
    end.

(** The write from its encryption to its block record: the address and the
    bytes stored. *)
Definition store_block (plaintext_len : Z) (after_compress : list Z) (applied_compression : option CompressionAlgo) : M (nat * list Z) :=
  c ← get;
  let chunk_id := cur_chunk_id c in
  let offset := csize (cur_chunk c) in
  let encrypting := match drive_encryption c with Some state => encrypt_on_write state | None => false end in
  write_bytes ← (if encrypting then
                   match encrypt_block (from_option key [] (drive_encryption c))
                           (derive_iv (uuid (manifest c)) (Z.of_nat chunk_id) offset) after_compress with
                   | Ok x => mret x
                   | Err _ => fail EncryptionError
                   end
                 else mret after_compress);
  let on_disk_len := Z.of_nat (length write_bytes) in
  append_staging write_bytes;;
  modify (fun c => c <| cur_chunk_hasher := cur_chunk_hasher c ++ write_bytes |>);;
  set_cur_chunk (fun r => r <| csize := csize r + on_disk_len |>);;
  set_runtime (fun r => r <| host_bytes_written := sat_add64 (host_bytes_written r) plaintext_len |>);;
  rec ← of_result (encode_block_rec chunk_id offset on_disk_len Data encrypting applied_compression);
  c ← get;
  let p := active_partition (runtime c) in
  lba ← (if bool_decide (head_lba c < next_lba_of c p)%nat then
           let lba := head_lba c in
           b ← of_result (BlockIndex.overwrite (block_index c p) lba rec);
           set_index p b;;
           modify (fun c => c <| head_lba := S lba |>);;
           mret lba
         else append_rec rec);
  touch chunk_id;;
  (if storage_backend c then set_cur_chunk (fun r => r <| location := LocalOnly |> <| uploaded := false |>) else mret tt);;
  mret (lba, write_bytes).

Definition write_block (bytes : list Z) : M (nat * list Z) :=
  require_writable true;;
  c ← get;
  let plaintext_len := Z.of_nat (length bytes) in
  (match effective_capacity_bytes c with
   | Some effective =>
       if effective <? sat_add64 (used_capacity_bytes c) plaintext_len then fail EndOfMedium else mret tt
   | None => mret tt
   end);;
  truncate_from_head;;
  let compression := drive_compression c in
  after_compress ← (if dce compression then of_result (compress_data (algorithm compression) bytes (level compression))
                    else mret bytes);
  roll_chunk_if_needed (Z.of_nat (length after_compress) + Z.of_nat TAG_LEN);;
  store_block plaintext_len after_compress (if dce compression then Some (algorithm compression) else None).

Definition write_data (bytes : list Z) : M nat :=
  '(lba, written) ← write_block bytes;
  maybe_cdc_seal_after_write written;;
  ew ← maybe_raise_early_warning;
  if ew : bool then fail EarlyWarning else mret lba.

(** The gates of WRITE FILEMARKS. *)
Definition filemark_gates : M unit :=
  require_writable true;;
  c ← get;
  match effective_capacity_bytes c with
  | Some effective => if effective <=? used_capacity_bytes c then fail EndOfMedium else mret tt
  | None => mret tt
  end.

Definition push_filemark : M nat :=
  c ← get;
  rec ← of_result (encode_block_rec (cur_chunk_id c) (csize (cur_chunk c)) 0 Filemark false None);
  append_rec rec.

(** The loop over [count] marks; [last] is the last address written. *)
Fixpoint push_filemarks (count : nat) (last : nat) : M nat :=
  match count with
  | O => mret last
  | S count => lba ← push_filemark; push_filemarks count lba
  end.

Definition write_filemark : M nat :=
  filemark_gates;;
  truncate_from_head;;
  lba ← push_filemark;
  ew ← maybe_raise_early_warning;
  if ew : bool then fail EarlyWarning else mret lba.

Definition write_filemarks (count : nat) : M nat :=
  c ← get;
  if bool_decide (count = 0)%nat then mret (head_lba c)
  else
    filemark_gates;;
    truncate_from_head;;
    c ← get;
    last ← push_filemarks count (head_lba c);
    ew ← maybe_raise_early_warning;
    if ew : bool then fail EarlyWarning else mret last.
End cartridge.
