(* ===== verification/CartridgeOps.v ===== *)
(** * Reading, positioning and formatting a cartridge ([core/stream/src/cartridge/mod.rs])

    READ with its decryption, decompression and cache miss, LOCATE, SPACE in
    its batched walks, ERASE, FORMAT MEDIUM, SET CAPACITY and the drive
    settings; then opening, crash recovery, unloading, and the storage side
    ([storage.rs]). *)

From Stdlib Require Import String.
From S2P Require Import Prelude Bytes ByteFile BTreeMap DirtyPages TrackedFile FastCdc StreamLru ChunkIndex BlockIndex IndexCodec PoolBudget Crypto StateError Cartridge.

Local Open Scope Z_scope.
Local Open Scope thur_scope.

(** A block as READ returns it. *)
Record Block : Type := mkTapeBlock { bkind : BlockKind; bdata : list Z; blba : nat }.

Section ops.
Context `{VolumeCrypto} `{HexCodec} `{Compressor}.

(** ** READ *)

Definition read_chunk_rec (c : Cartridge) (id : nat) : result ChunkRec SmcError :=
  if bool_decide (id = cur_chunk_id c) then Ok (cur_chunk c) else ChunkIndex.read (chunk_index c) id.

Definition read_chunk_rec_for_block (c : Cartridge) (id : nat) : result ChunkRec SmcError :=
  match read_chunk_rec c id with
  | Err (InvalidOp _) => Err (IndexCorrupt "block record references a chunk id past the chunk index")
  | r => r
  end.

Definition update_chunk_rec (id : nat) (r : ChunkRec) : M unit :=
  c ← get;
  (if bool_decide (id = cur_chunk_id c) then modify (fun c => c <| cur_chunk := r |>) else mret tt);;
  overwrite_chunk id r.

(** The content of the file opened. *)
Definition open_chunk_for_read (c : Cartridge) (id : nat) (chunk : ChunkRec) : result (list Z) SmcError :=
  match chash chunk with
  | Some h => ok_or (pool c !! h) Io
  | None => ok_or (staging_files c !! id) Io
  end.

(** The chunk the last read left decrypted. *)
Definition cached_plaintext (c : Cartridge) (id : nat) : option (list Z) :=
  match last_decrypted_chunk c with
  | Some (cached_id, pt) => if bool_decide (cached_id = id) then Some pt else None
  | None => None
  end.

(** The plaintext of a sealed chunk under at-rest encryption, decrypted once
    while reads stay in it. *)
Definition decrypted_chunk (dek : list Z) (id : nat) (chunk : ChunkRec) : M (list Z) :=
  c ← get;
  match cached_plaintext c id with
  | Some pt => mret pt
  | None =>
      ciphertext ← of_result (open_chunk_for_read c id chunk);
      match decrypt_block dek (derive_iv (uuid (manifest c)) (Z.of_nat id) 0) ciphertext with
      | Err _ => fail EncryptionError
      | Ok pt => modify (fun c => c <| last_decrypted_chunk := Some (id, pt) |>);; mret pt
      end
  end.

Definition read_chunk_slice (id : nat) (chunk : ChunkRec) (off len : nat) : M (list Z) :=
  c ← get;
  match at_rest_dek c, chash chunk with
  | Some dek, Some _ =>
      plaintext ← decrypted_chunk dek id chunk;
      if bool_decide (length plaintext < off + len)%nat
      then fail (IndexCorrupt "block record slice extends past decrypted chunk plaintext")
      else mret (sl off len plaintext)
  | _, _ =>
      file ← of_result (open_chunk_for_read c id chunk);
      of_result (ok_or (read_exact_at file off len) IoUnexpectedEof)
  end.

Definition maybe_decrypt (c : Cartridge) (bi : BlockRec) (buf : list Z) : result (list Z) SmcError :=
  if negb (encrypted bi) then Ok buf
  else
    match drive_encryption c with
    | None => Err (DataDecryptionError "encrypted block read without a drive key set")
    | Some state =>
        match decryption_mode state with
        | DecryptDisable => Err (DataDecryptionError "drive decryption mode disabled but block is encrypted")
        | _ =>
            match decrypt_block (key state) (derive_iv (uuid (manifest c)) (chunk_id bi) (offset bi)) buf with
            | Ok x => Ok x
            | Err _ => Err (DataDecryptionError "AES-256-GCM decrypt failed")
            end
        end
    end.

(** A codec failure on a sealed chunk is a fault of the medium. *)
Definition maybe_decompress (bi : BlockRec) (buf : list Z) (sealed : bool) : result (list Z) SmcError :=
  match compression bi with
  | None => Ok buf
  | Some algo =>
      match decompress_data algo buf with
      | Err CompressionError => Err (if sealed then ChunkPayloadCorrupt else CompressionError)
      | r => r
      end
  end.

(** The bytes of a data block, once its chunk is local. *)
Definition block_payload (bi : BlockRec) (chunk : ChunkRec) : M (list Z) :=
  buf ← read_chunk_slice (Z.to_nat (chunk_id bi)) chunk (Z.to_nat (offset bi)) (Z.to_nat (blen bi));
  c ← get;
  after_decrypt ← of_result (maybe_decrypt c bi buf);
  plaintext ← of_result (maybe_decompress bi after_decrypt (bool_decide (is_Some (chash chunk))));
  set_runtime (fun r => r <| host_bytes_read := sat_add64 (host_bytes_read r) (Z.of_nat (length plaintext)) |>);;
  mret plaintext.

Definition read_block (lba : nat) : M Block :=
  c ← get;
  bi ← block_at (active_partition (runtime c)) lba;
  match kind bi with
  | Filemark => mret (mkTapeBlock Filemark [] lba)
  | Data =>
      let chunk_id := Z.to_nat (chunk_id bi) in
      chunk ← of_result (read_chunk_rec_for_block c chunk_id);
      touch chunk_id;;
      plaintext ← block_payload bi chunk;
      mret (mkTapeBlock Data plaintext lba)
  end.

(** [ChunkPool::insert_verified_bytes] of what the object store returned:
    whether the file is new. *)
Definition insert_verified_bytes (expected data : list Z) : M bool :=
  c ← get;
  match pool c !! expected with
  | Some _ => mret false
  | None =>
      if bool_decide (hex_encode (blake3 data) <> expected) then fail ContentHashMismatch
      else
        pool_call;;
        modify (fun c => c <| pool := <[expected := data]> (pool c) |>);;
        mret true
  end.

(** The cache miss of [read_block_async]. *)
Definition refetch (id : nat) (chunk : ChunkRec) (hash : list Z) : M ChunkRec :=
  c ← get;
  (if storage_backend c then mret tt
   else fail (InvalidOp "chunk missing from local pool and no storage backend configured to refetch"));;
  ok ← answer;
  data ← (if ok : bool then of_result (ok_or (storage c !! hash) StorageError) else fail StorageError);
  was_new ← insert_verified_bytes hash data;
  (if was_new : bool
   then modify (fun c => c <| pool_budget := force_reserve (pool_budget c) (Z.of_nat (length data)) (dedup_namespace (manifest c)) |>)
   else mret tt);;
  let chunk := chunk <| location := Both |> in
  update_chunk_rec id chunk;;
  touch id;;
  set_runtime (fun r => r <| backend_bytes_read := sat_add64 (backend_bytes_read r) (Z.of_nat (length data)) |>);;
  mret chunk.

Definition read_block_async (lba : nat) : M Block :=
  c ← get;
  bi ← block_at (active_partition (runtime c)) lba;
  match kind bi with
  | Filemark => mret (mkTapeBlock Filemark [] lba)
  | Data =>
      let chunk_id := Z.to_nat (chunk_id bi) in
      chunk ← of_result (read_chunk_rec_for_block c chunk_id);
      chunk ← (match chash chunk with
               | Some h =>
                   match location chunk, pool c !! h with
                   | LocalOnly, Some _ | Both, Some _ => touch chunk_id;; mret chunk
                   | _, _ => refetch chunk_id chunk h
                   end
               | None => touch chunk_id;; mret chunk
               end);
      plaintext ← block_payload bi chunk;
      mret (mkTapeBlock Data plaintext lba)
  end.

Definition at_eod (c : Cartridge) : bool := bool_decide (active_next_lba c <= head_lba c)%nat.

Definition advance : M unit := modify (fun c => c <| head_lba := S (head_lba c) |>).

Definition read_next : M Block :=
  c ← get;
  if at_eod c then fail EndOfData
  else blk ← read_block (head_lba c); advance;; mret blk.

Definition read_next_async : M Block :=
  c ← get;
  if at_eod c then fail EndOfData
  else blk ← read_block_async (head_lba c); advance;; mret blk.

(** ** LOCATE and SPACE *)

Definition rewind : M unit := modify (fun c => c <| head_lba := 0%nat |> <| early_warning_reported := false |>).

Definition locate (lba : nat) : M unit :=
  c ← get;
  if bool_decide (active_next_lba c < lba)%nat then fail (InvalidOp "LOCATE past EOT")
  else modify (fun c => c <| head_lba := lba |>).

(** [overwrite_barrier] is not written to [runtime.json]. *)
Definition volatile_cleared (r : Runtime) : Runtime :=
  r <| partitions := map (fun p => p <| overwrite_barrier := None |>) (partitions r) |>.

Definition persist_runtime_file : M unit := modify (fun c => c <| disk_runtime := volatile_cleared (runtime c) |>).

Definition persist_runtime : M unit :=
  c ← get;
  overwrite_chunk (cur_chunk_id c) (cur_chunk c);;
  persist_runtime_file.

Definition locate_partition (p lba : nat) : M unit :=
  c ← get;
  if bool_decide (length (partitions (runtime c)) <= p)%nat then fail (InvalidOp "LOCATE: partition out of range")
  else
    let prev := active_partition (runtime c) in
    set_runtime (fun r => r <| active_partition := p |>);;
    c ← get;
    if bool_decide (active_next_lba c < lba)%nat
    then set_runtime (fun r => r <| active_partition := prev |>);; fail (InvalidOp "LOCATE past EOT")
    else
      modify (fun c => c <| head_lba := lba |>);;
      if bool_decide (prev = p) then mret tt else persist_runtime.

Definition SPACE_WALK_BATCH : Z := 4096.

(** Records from the head on, up to a filemark, which is crossed. *)
Fixpoint walk_forward (recs : list (result BlockRec SmcError)) (moved : Z) : M (Z * bool) :=
  match recs with
  | [] => mret (moved, false)
  | r :: recs =>
      rec ← of_result r;
      advance;;
      match kind rec with
      | Filemark => mret (moved, true)
      | Data => walk_forward recs (moved + 1)
      end
  end.

Fixpoint space_forward (fuel : nat) (delta : Z) (mx : nat) (moved : Z) : M (Z * bool) :=
  match fuel with
  | O => mret (moved, false)
  | S fuel =>
      c ← get;
      if (moved <? delta) && bool_decide (head_lba c < mx)%nat then
        let n := Z.to_nat (Z.min (Z.min (delta - moved) (Z.of_nat (mx - head_lba c))) SPACE_WALK_BATCH) in
        recs ← block_run_at (active_partition (runtime c)) (head_lba c) n;
        '(moved, hit) ← walk_forward recs moved;
        if hit : bool then mret (moved, true) else space_forward fuel delta mx moved
      else mret (moved, false)
  end.

(** Records behind the head, nearest first, up to a filemark, which is not
    crossed. *)
Fixpoint walk_backward (recs : list (result BlockRec SmcError)) (moved : Z) : M (Z * bool) :=
  match recs with
  | [] => mret (moved, false)
  | r :: recs =>
      rec ← of_result r;
      modify (fun c => c <| head_lba := pred (head_lba c) |>);;
      match kind rec with
      | Filemark => mret (moved, true)
      | Data => walk_backward recs (moved - 1)
      end
  end.

(** The difference is taken in 64-bit arithmetic. *)
Fixpoint space_backward (fuel : nat) (delta : Z) (moved : Z) : M (Z * bool) :=
  match fuel with
  | O => mret (moved, false)
  | S fuel =>
      c ← get;
      if (delta <? moved) && bool_decide (0 < head_lba c)%nat then
        let n := Z.to_nat (Z.min (Z.min (wrap64 (moved - delta)) (Z.of_nat (head_lba c))) SPACE_WALK_BATCH) in
        recs ← block_run_at (active_partition (runtime c)) (head_lba c - n) n;
        '(moved, hit) ← walk_backward (rev recs) moved;
        if hit : bool then mret (moved, true) else space_backward fuel delta moved
      else mret (moved, false)
  end.

(** Each turn of a walk crosses a record or ends it. *)
Definition walk_fuel (c : Cartridge) : nat := S (active_next_lba c).

(** Records spaced over, and whether a filemark stopped the motion. *)
Definition space_records (delta : Z) : M (Z * bool) :=
  c ← get;
  if 0 <? delta then space_forward (walk_fuel c) delta (active_next_lba c) 0
  else space_backward (S (head_lba c)) delta 0.

(** One batch of the forward filemark walk: position and count after it. *)
Fixpoint scan_marks (recs : list (result BlockRec SmcError)) (n : Z) (lba : nat) (moved : Z) : result (nat * Z) SmcError :=
  match recs with
  | [] => Ok (lba, moved)
  | r :: recs =>
      try rec := r in
      match kind rec with
      | Filemark => if n <=? moved + 1 then Ok (S lba, moved + 1) else scan_marks recs n (S lba) (moved + 1)
      | Data => scan_marks recs n (S lba) moved
      end
  end.

Fixpoint marks_forward (fuel : nat) (n : Z) (part_next lba : nat) (moved : Z) : M (nat * Z) :=
  match fuel with
  | O => mret (lba, moved)
  | S fuel =>
      if bool_decide (lba < part_next)%nat && (moved <? n) then
        c ← get;
        let batch := Z.to_nat (Z.min (Z.of_nat (part_next - lba)) SPACE_WALK_BATCH) in
        recs ← block_run_at (active_partition (runtime c)) lba batch;
        '(lba, moved) ← of_result (scan_marks recs n lba moved);
        marks_forward fuel n part_next lba moved
      else mret (lba, moved)
  end.

(** One batch of the backward walk, nearest record first; [lba] counts the
    records not yet seen. *)
Fixpoint scan_marks_back (recs : list (result BlockRec SmcError)) (n : Z) (lba : nat) (moved last_fm : Z) :
    result (nat * Z * Z) SmcError :=
  match recs with
  | [] => Ok (lba, moved, last_fm)
  | r :: recs =>
      try rec := r in
      let here := Z.of_nat lba - 1 in
      let '(moved, last_fm) := match kind rec with Filemark => (moved - 1, here) | Data => (moved, last_fm) end in
      if moved <=? n then Ok (pred lba, moved, last_fm) else scan_marks_back recs n (pred lba) moved last_fm
  end.

Fixpoint marks_backward (fuel : nat) (n : Z) (lba : nat) (moved last_fm : Z) : M (Z * Z) :=
  match fuel with
  | O => mret (moved, last_fm)
  | S fuel =>
      if bool_decide (0 < lba)%nat && (n <? moved) then
        c ← get;
        let batch := Z.to_nat (Z.min (Z.of_nat lba) SPACE_WALK_BATCH) in
        recs ← block_run_at (active_partition (runtime c)) (lba - batch) batch;
        '(lba, moved, last_fm) ← of_result (scan_marks_back (rev recs) n lba moved last_fm);
        marks_backward fuel n lba moved last_fm
      else mret (moved, last_fm)
  end.

Definition space_filemarks (n : Z) : M Z :=
  c ← get;
  if n =? 0 then mret 0
  else
    let part_next := active_next_lba c in
    if 0 <? n then
      '(lba, moved) ← marks_forward (S part_next) n part_next (head_lba c) 0;
      modify (fun c => c <| head_lba := Nat.min lba part_next |>);;
      mret moved
    else
      '(moved, last_fm) ← marks_backward (S (head_lba c)) n (head_lba c) 0 (-1);
      if n <? moved then modify (fun c => c <| head_lba := 0%nat |>);; mret moved
      else
        modify (fun c => c <| head_lba := Nat.min (Z.to_nat (Z.max last_fm 0)) part_next |>);;
        mret moved.

Definition space_to_eod : M unit := modify (fun c => c <| head_lba := active_next_lba c |>).

Definition next_block_encryption_status : M (bool * Z) :=
  c ← get;
  if at_eod c then mret (false, 0)
  else bi ← block_at (active_partition (runtime c)) (head_lba c);
       mret (encrypted bi, if encrypted bi then 1 else 0).

(** ** ERASE, FORMAT MEDIUM and settings *)

Definition clear_allow_overwrite_all : M unit := set_runtime volatile_cleared.

Definition erase : M unit :=
  require_writable false;;
  clear_allow_overwrite_all;;
  modify (fun c => c <| block_indexes := map (fun b => BlockIndex.truncate_to b 0) (block_indexes c) |>
                     <| head_lba := 0%nat |> <| early_warning_reported := false |>);;
  set_runtime (fun r => r <| active_partition := 0%nat |> <| host_bytes_written := 0 |> <| mam_attributes := [] |>);;
  persist_runtime.

Definition set_capacity_proportion (proportion : Z) : M unit :=
  let stored := if proportion =? 0 then u16_full else proportion in
  erase;;
  set_runtime (fun r => r <| set_capacity := stored |>);;
  modify (fun c => c <| early_warning_reported := false |>);;
  persist_runtime.

Definition MAX_PARTITIONS : nat := 2.

Definition set_pending_partition_layout (layout : PendingPartitionLayout) : M unit :=
  if bool_decide (MAX_PARTITIONS - 1 < additional_partitions layout)%nat
  then fail (InvalidOp "MODE SELECT 0x11: too many additional partitions (max 1)")
  else
    set_runtime (fun r => r <| pending_partition_layout := Some layout |>);;
    persist_runtime.

(** The size of a partition in MiB; zero is the rest of the tape. *)
Definition layout_mib (layout : PendingPartitionLayout) (i : nat) : Z :=
  let v := default 0 (partition_sizes layout !! i) in
  if v =? 0xFFFF then 0
  else if psum layout =? 0 then v / (1024 * 1024)
  else if psum layout =? 1 then v / 1024
  else if psum layout =? 2 then v
  else if psum layout =? 3 then wrap64 (v * 1024)
  else if psum layout =? 4 then wrap64 (v * (1024 * 1024))
  else 0.

(** An index file created where none is; what is left of a dirty-page
    sidecar next to it can be read, its marks are not kept here. *)
Definition fresh_index : BlockIndexFile :=
  match BlockIndex.open_or_create None None with Ok b => b | Err _ => no_index end.

Definition formatted (r : Runtime) : Runtime :=
  r <| active_partition := 0%nat |> <| pending_partition_layout := None |> <| host_bytes_written := 0 |>
    <| mam_attributes := [] |>.

Definition apply_format_medium (format_field : Z) : M unit :=
  require_writable false;;
  c ← get;
  if format_field =? 0x00 then erase
  else if format_field =? 0x02 then
    set_runtime (fun r => formatted (r <| partitions := [partition_default] |>));;
    modify (fun c => c <| head_lba := 0%nat |>);;
    persist_runtime
  else if format_field =? 0x01 then
    match pending_partition_layout (runtime c) with
    | None => fail (InvalidOp "FORMAT MEDIUM 0x01: no pending Mode Page 0x11 layout staged")
    | Some layout =>
        let part_count := (if sdp layout then 1 else 1 + additional_partitions layout)%nat in
        if bool_decide (part_count = 0)%nat || bool_decide (MAX_PARTITIONS < part_count)%nat
        then fail (InvalidOp "FORMAT MEDIUM 0x01: invalid partition count")
        else
          let new_parts := map (fun i => mkPartition (layout_mib layout i) None) (seq 0 part_count) in
          modify (fun c => c <| block_indexes := replicate (length new_parts) fresh_index |> <| head_lba := 0%nat |>);;
          set_runtime (fun r => formatted (r <| partitions := new_parts |>));;
          persist_runtime
    end
  else fail (InvalidOp "FORMAT MEDIUM: unsupported FORMAT field").

Definition set_allow_overwrite (p lba : nat) : M unit :=
  require_writable false;;
  c ← get;
  if bool_decide (length (partitions (runtime c)) <= p)%nat then fail (InvalidOp "ALLOW OVERWRITE: partition out of range")
  else
    let barrier := if bool_decide (lba = 0)%nat then None else Some lba in
    set_runtime (fun r => r <| partitions := alter (fun q => q <| overwrite_barrier := barrier |>) p (partitions r) |>).

Definition set_encryption_state (s : option DriveEncryptionState) : M unit :=
  modify (fun c => c <| drive_encryption := s |>).

(** The SLDC codec is not shipped. *)
Definition set_compression_state (s : DriveCompressionState) : M unit :=
  let algo := match dce s, algorithm s with true, Sldc => Lz4 | _, a => a end in
  modify (fun c => c <| drive_compression := mkCompression (dce s) algo (level s) |>).

Definition write_mam_attribute (id fmt : Z) (value : list Z) : M unit :=
  set_runtime (fun r => r <| mam_attributes := match value with
                                               | [] => bt_remove id (mam_attributes r)
                                               | _ => bt_insert id (fmt, value) (mam_attributes r)
                                               end |>);;
  persist_runtime.

Definition record_mount : M unit :=
  set_runtime (fun r => r <| mount_count := sat_add64 (mount_count r) 1 |>);;
  persist_runtime.

Definition reset_stats : M unit :=
  set_runtime (fun r => r <| mount_count := 0 |> <| host_bytes_written := 0 |> <| host_bytes_read := 0 |>
                          <| backend_bytes_written := 0 |> <| backend_bytes_read := 0 |>);;
  persist_runtime.

(** The kinds of a partition's blocks, read before any block is. *)
Fixpoint block_kinds (p : nat) (lbas : list nat) : M (list (nat * BlockKind)) :=
  match lbas with
  | [] => mret []
  | lba :: lbas =>
      bi ← block_at p lba;
      rest ← block_kinds p lbas;
      mret ((lba, kind bi) :: rest)
  end.

(** Blocks read, blocks found. *)
Fixpoint scrub_blocks (lbas : list (nat * BlockKind)) (ok total : Z) : M (Z * Z) :=
  match lbas with
  | [] => mret (ok, total)
  | (_, Filemark) :: lbas => scrub_blocks lbas ok total
  | (lba, Data) :: lbas => read_block lba;; scrub_blocks lbas (ok + 1) (total + 1)
  end.

(** Only a failed read puts partition and head back before the end. *)
Fixpoint scrub_partitions (restore : Cartridge -> Cartridge) (ps : list nat) (ok total : Z) : M (Z * Z) :=
  match ps with
  | [] => modify restore;; mret (ok, total)
  | p :: ps =>
      c ← get;
      lbas ← block_kinds p (seq 0 (next_lba_of c p));
      set_runtime (fun r => r <| active_partition := p |>);;
      '(ok, total) ← on_error restore (scrub_blocks lbas ok total);
      scrub_partitions restore ps ok total
  end.

Definition scrub_all : M (Z * Z) :=
  c ← get;
  let restore c' := c' <| runtime := (runtime c') <| active_partition := active_partition (runtime c) |> |> <| head_lba := head_lba c |> in
  scrub_partitions restore (seq 0 (length (partitions (runtime c)))) 0 0.
End ops.
