(* ===== verification/CartridgeOpen.v ===== *)
(** * Opening, unloading and uploading a cartridge ([core/stream/src/cartridge])

    The files of a cartridge, creation and open with the reconciliation of
    the trailing staging chunk ([mod.rs]), the seal at unload
    ([chunking.rs]), and the storage side: uploads and evictions
    ([storage.rs]). *)

From Stdlib Require Import String.
From S2P Require Import Prelude Bytes ByteFile BTreeMap DirtyPages TrackedFile FastCdc StreamLru ChunkIndex BlockIndex IndexCodec PoolBudget Crypto StateError Cartridge CartridgeOps.

Local Open Scope Z_scope.
Local Open Scope thur_scope.

(** What outlives the process: the cartridge's files, the pool and the
    object store. *)
Record Disk : Type := mkDisk {
  d_manifest : Manifest;
  d_runtime : Runtime;
  d_chunks : list Z;
  d_lru : list Z;
  d_blocks : list (list Z);
  d_staging : gmap nat (list Z);
  d_pool : gmap (list Z) (list Z);
  d_storage : gmap (list Z) (list Z);
}.

Definition on_disk (c : Cartridge) : Disk :=
  mkDisk (manifest c) (disk_runtime c) (t_file (chunk_index c)) (StreamLru.file (lru_index c))
    (map t_file (block_indexes c)) (staging_files c) (pool c) (storage c).

(** What an open is given: the store's settings, the key the keystore
    unwrapped, the dirty-page sidecars as last synced, and the outside
    world. *)
Record OpenOptions : Type := mkOpen {
  o_backend : bool;
  o_dek : option (list Z);
  o_budget : PoolBudget;
  o_chunk_sidecar : option (list Z);
  o_block_sidecars : list (option (list Z));
  o_env : Env;
}.

Section opening.
Context `{VolumeCrypto} `{HexCodec} `{Compressor}.

(** The end of the last byte the records from [lba] backwards, as long as
    they are in the chunk, give it. *)
Fixpoint tail_end (b : BlockIndexFile) (id lba : nat) (max_end : Z) : result Z SmcError :=
  match lba with
  | O => Ok max_end
  | S lba =>
      try rec := BlockIndex.read b lba in
      if negb (chunk_id rec =? Z.of_nat id) then Ok max_end
      else tail_end b id lba (Z.max max_end (offset rec + blen rec))
  end.

Fixpoint recovered_chunk_size (bs : list BlockIndexFile) (id : nat) (max_end : Z) : result Z SmcError :=
  match bs with
  | [] => Ok max_end
  | b :: bs => try e := tail_end b id (t_next b) max_end in recovered_chunk_size bs id e
  end.

(** [open_block_indexes]: a missing file is created. *)
Fixpoint open_block_indexes (count : nat) (files : list (list Z)) (sidecars : list (option (list Z))) :
    result (list BlockIndexFile) SmcError :=
  match count with
  | O => Ok []
  | S count =>
      try b := BlockIndex.open_or_create (head files) (default None (head sidecars)) in
      try bs := open_block_indexes count (tail files) (tail sidecars) in
      Ok (b :: bs)
  end.

(** The active chunk: its index, id, record and file, with the rewritten
    chunk and recency indexes. *)
Definition resume_or_create_active (blocks : list BlockIndexFile) (chunks : ChunkIndexFile) (lru : LruIndexFile)
    (files : gmap nat (list Z)) (ts : Z) :
    result (ChunkIndexFile * LruIndexFile * gmap nat (list Z) * nat * ChunkRec) SmcError :=
  if bool_decide (t_next chunks = 0)%nat then Err (InvalidOp "chunks.idx has no chunks")
  else
    let last_id := pred (t_next chunks) in
    try last := ChunkIndex.read chunks last_id in
    match chash last with
    | None =>
        try true_size := recovered_chunk_size blocks last_id 0 in
        try content := ok_or (files !! last_id) Io in
        let content := if true_size <? Z.of_nat (length content) then set_len content (Z.to_nat true_size) else content in
        let last := last <| csize := true_size |> in
        try chunks := ChunkIndex.overwrite chunks last_id last in
        Ok (chunks, lru, <[last_id := content]> files, last_id, last)
    | Some _ =>
        let next_id := S last_id in
        match files !! next_id with
        | Some _ => Err Io
        | None =>
            try (chunks, _) := ChunkIndex.append chunks staging in
            Ok (chunks, (StreamLru.append lru ts).1, <[next_id := []]> files, next_id, staging)
        end
    end.

(** The bytes the hasher and the chunker are primed with. *)
Definition staged_content (files : gmap nat (list Z)) (id : nat) (r : ChunkRec) : list Z :=
  if bool_decide (chash r = None) && (0 <? csize r) then default [] (files !! id) else [].

(** [build_chunking_state]; [FastCdc::new] asserts its bounds. *)
Definition build_chunking_state (m : Manifest) (staged : list Z) : ChunkingMode * option StreamingChunker :=
  let mode := default (Fixed (chunk_size_bytes m)) (chunking_field m) in
  (mode,
   match mode with
   | Fixed _ => None
   | FastCdcMode mn av mx =>
       cdc ← FastCdc.new (Z.to_nat mn) (Z.to_nat av) (Z.to_nat mx);
       Some (match staged with [] => stream_new cdc | _ => (feed (stream_new cdc) staged).2 end)
   end).

(** Stops at a record it cannot read. *)
Fixpoint sum_sizes (cur : nat) (entries : list (result (nat * ChunkRec) SmcError)) (total : Z) : Z :=
  match entries with
  | Ok (id, r) :: entries =>
      sum_sizes cur entries (if bool_decide (id = cur) then total else sat_add64 total (csize r))
  | _ => total
  end.

Definition initial_sealed_bytes (chunks : ChunkIndexFile) (cur : nat) : Z := sum_sizes cur (iter_all chunks) 0.

(** The end of [finalize_open_from_manifest]: the state from its parts. *)
Definition assemble (o : OpenOptions) (d : Disk) (blocks : list BlockIndexFile) (chunks : ChunkIndexFile) (lru : LruIndexFile)
    (files : gmap nat (list Z)) (id : nat) (cur : ChunkRec) : Cartridge :=
  let lru := StreamLru.grow_to lru (t_next chunks) in
  let staged := staged_content files id cur in
  let '(mode, cdc) := build_chunking_state (d_manifest d) staged in
  mkCartridge (d_manifest d) (d_runtime d) (d_runtime d) chunks lru blocks files id cur staged 0 (o_backend o) mode cdc
    None compression_disabled (o_budget o) false (initial_sealed_bytes chunks id) false (o_dek o) None
    (d_pool d) (d_storage d) (o_env o).

(** [finalize_open_from_manifest]. *)
Definition open_cartridge (o : OpenOptions) (d : Disk) : result Cartridge SmcError :=
  let count := length (partitions (d_runtime d)) in
  if bool_decide (count = 0)%nat then Err (InvalidOp "runtime sidecar has no partitions — older cartridge format no longer supported, recreate the cartridge")
  else
    try chunks := ChunkIndex.open_or_create (Some (d_chunks d)) (o_chunk_sidecar o) in
    let lru := StreamLru.open_or_create (Some (d_lru d)) in
    if bool_decide (t_next chunks = 0)%nat then Err (InvalidOp "chunks.idx is empty — cartridge has no chunks (recreate)")
    else
      try blocks := open_block_indexes count (d_blocks d) (o_block_sidecars o) in
      try (chunks, lru, files, id, cur) := resume_or_create_active blocks chunks lru (d_staging d) (now (o_env o)) in
      Ok (assemble o d blocks chunks lru files id cur).

(** [finalize_create] and the rewrite of the manifest with the chunking
    mode. *)
Definition create_cartridge (o : OpenOptions) (m : Manifest) (pool storage : gmap (list Z) (list Z)) :
    result Cartridge SmcError :=
  try chunks := ChunkIndex.open_or_create None (o_chunk_sidecar o) in
  let lru := StreamLru.open_or_create None in
  try (chunks, id) := ChunkIndex.append chunks staging in
  let lru := (StreamLru.append lru (now (o_env o))).1 in
  try blocks := open_block_indexes 1 [] (o_block_sidecars o) in
  let '(mode, cdc) := build_chunking_state m [] in
  let c := mkCartridge m runtime_blank runtime_blank chunks lru blocks {[id := []]} id staging [] 0 (o_backend o)
             mode cdc None compression_disabled (o_budget o) false 0 false (o_dek o) None pool storage (o_env o) in
  match persist_runtime c with (c, Ok _) => Ok c | (_, Err e) => Err e end.

(** ** Unloading *)

Definition flush_and_seal : M unit :=
  c ← get;
  match chash (cur_chunk c) with
  | Some _ => mret tt
  | None =>
      if csize (cur_chunk c) =? 0 then
        let cur_id := cur_chunk_id c in
        let has_sealed_predecessor :=
          existsb (fun e => match e with Ok (id, r) => negb (bool_decide (id = cur_id)) && bool_decide (is_Some (chash r)) | Err _ => false end)
            (iter_all (chunk_index c)) in
        if negb has_sealed_predecessor then mret tt
        else modify (fun c => c <| staging_files := delete cur_id (staging_files c) |>
                               <| chunk_index := ChunkIndex.truncate_to (chunk_index c) cur_id |>
                               <| lru_index := StreamLru.truncate_to (lru_index c) cur_id |>)
      else seal_current_chunk true;; mret tt
  end.

(** [Drop for Cartridge]: failures are logged. *)
Definition drop_cartridge (c : Cartridge) : Cartridge :=
  let c := (flush_and_seal c).1 in
  (persist_runtime_file c).1.

(** ** Storage ([storage.rs]) *)

Definition get_pending_uploads (c : Cartridge) : list (nat * list Z) :=
  let fix go entries :=
    match entries with
    | Ok (id, r) :: entries =>
        match uploaded r, chash r with
        | false, Some h => (id, h) :: go entries
        | _, _ => go entries
        end
    | _ => []
    end in
  go (iter_all (chunk_index c)).

(** The digest of a sealed chunk that is not uploaded. *)
Definition pending_upload_payload (c : Cartridge) (id : nat) : option (list Z) :=
  match read_chunk_rec c id with
  | Ok r => if uploaded r then None else chash r
  | Err _ => None
  end.

(** [upload_chunk_inert]: whether the object was already there, and the
    bytes of the PUT otherwise; the store compresses on its own. *)
Definition upload_chunk_inert (hash : list Z) : M (bool * option Z) :=
  c ← get;
  hit ← (match dedup_namespace (manifest c) with
         | None => ok ← answer; if ok : bool then mret (bool_decide (is_Some (storage c !! hash))) else fail StorageError
         | Some _ => mret false
         end);
  if hit : bool then mret (true, None)
  else
    data ← of_result (ok_or (pool c !! hash) Io);
    ok ← answer;
    if ok : bool
    then modify (fun c => c <| storage := <[hash := data]> (storage c) |>);; mret (false, Some (Z.of_nat (length data)))
    else fail StorageError.

(** [let _ = m]. *)
Definition ignore {A} (m : M A) : M unit := fun c => ((m c).1, Ok tt).

Definition apply_chunk_upload_outcome (id : nat) (dedup_hit : bool) (put_bytes : option Z) (comp : option CompressionAlgo) : M unit :=
  set_runtime (fun r => match put_bytes with
                        | Some n => r <| backend_bytes_written := sat_add64 (backend_bytes_written r) n |>
                        | None => r
                        end);;
  c ← get;
  match read_chunk_rec c id with
  | Err _ => mret tt
  | Ok r =>
      let r := r <| uploaded := true |> <| location := Both |> in
      let r := if dedup_hit then r else r <| ccompression := comp |> in
      ignore (update_chunk_rec id r)
  end.

(** The object key is that of the digest. *)
Definition upload_chunk_to_storage (id : nat) (comp : option CompressionAlgo) : M (list Z) :=
  c ← get;
  match pending_upload_payload c id with
  | None =>
      r ← of_result (read_chunk_rec c id);
      of_result (ok_or (chash r) (InvalidOp "chunk has no hash (still in staging) — seal before uploading"))
  | Some hash =>
      (if storage_backend c then mret tt else fail (InvalidOp "no storage backend configured"));;
      '(hit, put_bytes) ← upload_chunk_inert hash;
      apply_chunk_upload_outcome id hit put_bytes comp;;
      mret hash
  end.

Definition mark_chunk_evicted (id : nat) : M unit :=
  c ← get;
  r ← of_result (read_chunk_rec c id);
  match chash r with
  | None => fail (InvalidOp "cannot evict an unsealed (staging) chunk")
  | Some _ =>
      if negb (uploaded r) then fail (InvalidOp "cannot evict chunk that is not uploaded")
      else match location r with
           | Both => update_chunk_rec id (r <| location := StorageOnly |>)
           | _ => fail (InvalidOp "cannot evict chunk that is not in Both state")
           end
  end.

Definition referenced_chunk_hashes (c : Cartridge) : list (list Z) :=
  omap (fun e => match e with Ok (_, r) => chash r | Err _ => None end) (iter_all (chunk_index c)).

(** Id, digest, size and last access of the chunks that may leave the pool. *)
Definition evictable_chunks (c : Cartridge) : list (nat * list Z * Z * Z) :=
  omap (fun e => match e with
                 | Ok (id, r) =>
                     match uploaded r, location r, chash r with
                     | true, Both, Some h => Some (id, h, csize r, default 0 (StreamLru.read (lru_index c) id))
                     | _, _, _ => None
                     end
                 | Err _ => None
                 end) (iter_all (chunk_index c)).
End opening.
