(* ===== verification/CartridgeInv.v ===== *)
(** * The representation of a cartridge

    [chunks_ok c recs cs]: the chunk index holds [recs], and chunk [id] of
    the cartridge consists of the bytes [cs !! id], wherever they are: in the
    staging file, or sealed in the pool or the object store under their
    digest.  The seal pipeline keeps it.  A history may not seal a chunk
    whose digest collides with one already stored ([seal_clean]). *)

From Stdlib Require Import String.
From S2P Require Import Prelude Bytes ByteFile BTreeMap DirtyPages TrackedFile FastCdc StreamLru ChunkIndex BlockIndex IndexCodec PoolBudget Crypto StateError Cartridge CartridgeOps CartridgeOpen.

Local Open Scope Z_scope.
Local Open Scope thur_scope.

(** Computes the fields of an updated cartridge. *)
Ltac flat :=
  cbn [update manifest runtime disk_runtime chunk_index lru_index block_indexes staging_files cur_chunk_id cur_chunk
    cur_chunk_hasher head_lba storage_backend chunking cdc_state drive_encryption drive_compression pool_budget legal_held
    sealed_bytes early_warning_reported at_rest_dek last_decrypted_chunk pool storage env answers pool_io torn now].
Tactic Notation "flat" "in" hyp(H) := revert H; flat; intros H.

(** What sealing chunks leaves alone. *)
Definition side (c : Cartridge) :=
  (manifest c, runtime c, disk_runtime c, block_indexes c, head_lba c, storage_backend c, chunking c,
   (drive_encryption c, drive_compression c, legal_held c, early_warning_reported c, at_rest_dek c)).

(** What the chunks of a cartridge depend on. *)
Definition core (c : Cartridge) :=
  (manifest c, chunk_index c, lru_index c, staging_files c, cur_chunk_id c, cur_chunk c, cur_chunk_hasher c, chunking c,
   (sealed_bytes c, at_rest_dek c, last_decrypted_chunk c, pool c, storage c, pool_io (env c), torn (env c))).

(** Contents only get longer, chunks only get more. *)
Definition grows (cs cs' : list (list Z)) : Prop :=
  forall id x, cs !! id = Some x -> exists y, cs' !! id = Some (x ++ y).

#[export] Instance grows_refl : Reflexive grows.
Proof. intros cs id x E. exists []. by rewrite app_nil_r. Qed.

#[export] Instance grows_trans : Transitive grows.
Proof.
  intros a b d H1 H2 id x E. destruct (H1 id x E) as (y & E1). destruct (H2 id _ E1) as (z & E2).
  exists (y ++ z). by rewrite app_assoc.
Qed.

Lemma grows_snoc cs x : grows cs (cs ++ [x]).
Proof. intros id y E. exists []. rewrite app_nil_r. by apply lookup_app_l_Some. Qed.

Lemma grows_extend cs id x y : cs !! id = Some x -> grows cs (<[id := x ++ y]> cs).
Proof.
  intros E j z Ej. destruct (decide (j = id)) as [->|Hne].
  - simplify_eq. exists y. by apply list_lookup_insert_eq, lookup_lt_Some with x.
  - exists []. by rewrite list_lookup_insert_ne, app_nil_r.
Qed.

Definition total_bytes (cs : list (list Z)) : Z := foldr (fun x a => Z.of_nat (length x) + a) 0 cs.

Lemma total_bytes_app cs ds : total_bytes (cs ++ ds) = total_bytes cs + total_bytes ds.
Proof. induction cs as [|x cs IH]; simpl; [done|]. rewrite IH. lia. Qed.

Lemma total_bytes_nonneg cs : 0 <= total_bytes cs.
Proof. induction cs; simpl; lia. Qed.

Section inv.
Context `{VolumeCrypto} `{HexCodec} `{Compressor}.

Definition digest (ct : list Z) : list Z := hex_encode (blake3 ct).

(** The bytes a chunk is sealed as: under at-rest encryption, its
    ciphertext. *)
Definition payload (dek : option (list Z)) (u : list Z) (id : nat) (content : list Z) : option (list Z) :=
  match dek with
  | None => Some content
  | Some k => match encrypt_block k (derive_iv u (Z.of_nat id) 0) content with Ok ct => Some ct | Err _ => None end
  end.

Definition held (c : Cartridge) (h ct : list Z) : Prop := pool c !! h = Some ct \/ storage c !! h = Some ct.

Definition stores_agree (c : Cartridge) : Prop :=
  forall h x y, pool c !! h = Some x -> storage c !! h = Some y -> x = y.

(** Whether pool files may go away once they are in the object store. *)
Context (evicts : bool).

Definition stored (c : Cartridge) (h ct : list Z) : Prop :=
  pool c !! h = Some ct \/ (evicts = true /\ storage c !! h = Some ct).

Definition sealed_ok (c : Cartridge) (id : nat) (r : ChunkRec) (content : list Z) : Prop :=
  csize r = Z.of_nat (length content) /\
  exists ct, payload (at_rest_dek c) (uuid (manifest c)) id content = Some ct /\
    chash r = Some (digest ct) /\ stored c (digest ct) ct /\
    (uploaded r = true -> storage c !! digest ct = Some ct) /\
    (location r = StorageOnly -> evicts = true /\ uploaded r = true).

(** A record of a chunk that is not sealed. *)
Definition fresh (r : ChunkRec) : Prop := chash r = None /\ uploaded r = false /\ location r <> StorageOnly.

Lemma fresh_staging : fresh staging.
Proof. done. Qed.

(** The trailing chunk, in its staging file. *)
Definition open_ok (c : Cartridge) (content : list Z) : Prop :=
  fresh (cur_chunk c) /\ csize (cur_chunk c) = Z.of_nat (length content) /\
  csize (cur_chunk c) <= u32_max /\
  staging_files c = {[cur_chunk_id c := content]} /\ cur_chunk_hasher c = content.

Record chunks_ok (c : Cartridge) (recs : list ChunkRec) (cs : list (list Z)) : Prop := {
  co_index : ChunkIndex.live (chunk_index c) recs;
  co_lru : (length recs <= StreamLru.next_id (lru_index c))%nat;
  co_cur : length recs = S (cur_chunk_id c);
  co_len : length cs = length recs;
  co_slot : exists r, recs !! cur_chunk_id c = Some r /\ fresh r;
  co_open : exists content, cs !! cur_chunk_id c = Some content /\ open_ok c content;
  co_sealed id r content : (id < cur_chunk_id c)%nat -> recs !! id = Some r -> cs !! id = Some content ->
    sealed_ok c id r content;
  co_store : stores_agree c;
  co_cache id pt : last_decrypted_chunk c = Some (id, pt) -> (id < cur_chunk_id c)%nat /\ cs !! id = Some pt;
  co_bytes : sealed_bytes c = Z.min u64_max (total_bytes (take (cur_chunk_id c) cs));
  co_env : pool_io (env c) = [] /\ torn (env c) = [];
  co_threshold : chunking c = default (Fixed (chunk_size_bytes (manifest c))) (chunking_field (manifest c)) /\
    forced_cut_threshold (chunking c) <= u32_max;
}.

(** Sealing the trailing chunk now would collide with nothing stored. *)
Definition seal_clean (c : Cartridge) : Prop :=
  forall content ct x, staging_files c !! cur_chunk_id c = Some content ->
    payload (at_rest_dek c) (uuid (manifest c)) (cur_chunk_id c) content = Some ct ->
    held c (digest ct) x -> x = ct.

Context `{!HexLaws} `{!TapeCryptoLaws}.

Lemma digest_chunk_ok r ct : in_u32 (csize r) -> chash r = Some (digest ct) -> chunk_ok r.
Proof. intros Hs Hh. split; [done|]. rewrite Hh. exists (blake3 ct). split_and!; [apply digest_bytes|apply digest_length|done]. Qed.

(** The states a refused or admitted reservation leads to. *)
Definition accounted (c : Cartridge) (b : PoolBudget) (a : list bool) : Cartridge :=
  c <| pool_budget := b |> <| env := (env c) <| answers := a |> |>.

Lemma accounted_id c : accounted c (pool_budget c) (answers (env c)) = c.
Proof. by destruct c as [????????????????????????[]]. Qed.

Lemma wp_answer Q c :
  (forall b a, (answers (env c) = [] -> b = true) -> Q (accounted c (pool_budget c) a) (Ok b)) -> wp answer Q c.
Proof.
  intros HQ. unfold wp, answer. destruct (answers (env c)) as [|b a] eqn:E.
  - specialize (HQ true (answers (env c)) (fun _ => eq_refl)). by rewrite accounted_id in HQ.
  - specialize (HQ b a ltac:(done)). unfold accounted in HQ. by destruct c.
Qed.

Lemma wp_try_reserve n Q c :
  (forall b a, Q (accounted c b a) (Ok tt)) -> (forall b a, Q (accounted c b a) (Err SmcBackpressured)) ->
  wp (try_reserve n) Q c.
Proof.
  intros Hok Herr. unfold try_reserve. apply wp_get, wp_bind, wp_answer. intros b a _.
  destruct (if ungated _ then _ else _) as [b'|]; [|apply Herr].
  specialize (Hok b' a). by destruct c.
Qed.

Lemma wp_pool_call Q c : pool_io (env c) = [] -> Q c (Ok tt) -> wp pool_call Q c.
Proof. intros E HQ. unfold wp, pool_call. by rewrite E. Qed.

(** The cartridge once its trailing chunk is sealed as [ct]. *)
Definition sealed_as (c : Cartridge) (ct : list Z) (idx : ChunkIndexFile) : Cartridge :=
  c <| cur_chunk_hasher := [] |> <| pool := <[digest ct := ct]> (pool c) |> <| staging_files := ∅ |>
    <| cur_chunk := (cur_chunk c) <| chash := Some (digest ct) |> |> <| chunk_index := idx |>.

(** What [seal_current_chunk] leaves, on every path. *)
Definition seal_post (force : bool) (c c' : Cartridge) (r : result bool SmcError) : Prop :=
  exists b a,
  match r with
  | Err e => c' = accounted c b a /\ ((e = SmcBackpressured /\ force = false) \/
      (e = EncryptionError /\ payload (at_rest_dek c) (uuid (manifest c)) (cur_chunk_id c) (cur_chunk_hasher c) = None))
  | Ok false => csize (cur_chunk c) = 0 /\ c' = c <| staging_files := ∅ |> <| cur_chunk_hasher := [] |>
  | Ok true => 0 < csize (cur_chunk c) /\ exists content ct idx,
      staging_files c !! cur_chunk_id c = Some content /\
      payload (at_rest_dek c) (uuid (manifest c)) (cur_chunk_id c) content = Some ct /\
      ChunkIndex.overwrite (chunk_index c) (cur_chunk_id c) ((cur_chunk c) <| chash := Some (digest ct) |>) = Ok idx /\
      c' = sealed_as (accounted c b a) ct idx
  end.

Lemma release_accounted n c b a : exists b', release_bytes n (accounted c b a) = accounted c b' a.
Proof. eexists. reflexivity. Qed.

Lemma seal_hash_spec n c content :
  staging_files c = {[cur_chunk_id c := content]} -> cur_chunk_hasher c = content -> pool_io (env c) = [] ->
  wp (seal_hash n) (fun c' r =>
    match r with
    | Ok h => exists ct, payload (at_rest_dek c) (uuid (manifest c)) (cur_chunk_id c) content = Some ct /\ h = digest ct /\
        c' = c <| cur_chunk_hasher := [] |> <| staging_files := {[cur_chunk_id c := ct]} |>
    | Err e => e = EncryptionError /\ payload (at_rest_dek c) (uuid (manifest c)) (cur_chunk_id c) content = None /\ c' = release_bytes n c
    end) c.
Proof.
  intros Hst Hh Hio. unfold seal_hash. apply wp_get. cbv zeta. rewrite Hst, lookup_singleton_eq.
  destruct (at_rest_dek c) as [dek|] eqn:Ed; simpl payload.
  - apply wp_bind, wp_on_error, wp_result. cbn [ok_or]. destruct (encrypt_block dek _ content) as [ct|e] eqn:Ee; [|done].
    apply wp_modify, wp_bind, wp_on_error, wp_pool_call; [done|]. apply wp_modify, wp_bind, wp_on_error, wp_pool_call; [done|].
    exists ct. split_and!; [done|done|]. simpl. by rewrite Hst, insert_singleton_eq.
  - apply wp_modify. exists content. split_and!; [done|by rewrite Hh|]. rewrite <- Hst. by destruct c.
Qed.

Lemma insert_from_path_spec Q c id ct :
  staging_files c = {[id := ct]} -> pool_io (env c) = [] ->
  (forall x, pool c !! digest ct = Some x -> x = ct) ->
  Q (c <| pool := <[digest ct := ct]> (pool c) |> <| staging_files := ∅ |>) (Ok tt) ->
  wp (insert_from_path id (digest ct)) Q c.
Proof.
  intros Hst Hio Hp HQ. unfold insert_from_path. apply wp_get. rewrite Hst, lookup_singleton_eq.
  destruct (pool c !! digest ct) as [x|] eqn:Ex.
  - specialize (Hp x eq_refl) as ->. rewrite insert_id in HQ by done.
    unfold wp, modify. rewrite Hst, delete_singleton_eq. by destruct c.
  - apply wp_bind, wp_pool_call; [done|]. unfold wp, modify. by rewrite Hst, delete_singleton_eq.
Qed.

(** From the digest on: the file moves into the pool and the index learns
    the digest. *)
Lemma seal_finish force c recs cs b a ct :
  chunks_ok c recs cs -> 0 < csize (cur_chunk c) ->
  payload (at_rest_dek c) (uuid (manifest c)) (cur_chunk_id c) (cur_chunk_hasher c) = Some ct ->
  (forall x, pool c !! digest ct = Some x -> x = ct) ->
  wp (c1 ← get;
      on_error (release_bytes (csize (cur_chunk c))) (insert_from_path (cur_chunk_id c) (digest ct));;
      (if bool_decide (is_Some (pool c1 !! digest ct)) then modify (release_bytes (csize (cur_chunk c))) else mret tt);;
      set_cur_chunk (fun r => r <| chash := Some (digest ct) |>);;
      c2 ← get; overwrite_chunk (cur_chunk_id c) (cur_chunk c2);; mret true)
    (seal_post force c)
    ((accounted c b a) <| cur_chunk_hasher := [] |> <| staging_files := {[cur_chunk_id c := ct]} |>).
Proof.
  intros Hc Hpos Hp Hx. destruct (co_open _ _ _ Hc) as (content & Hcs & Hn & Hsz & Hmax & Hst & Hh).
  destruct (co_env _ _ _ Hc) as [Hio _]. set (r' := (cur_chunk c) <| chash := Some (digest ct) |>).
  destruct (ChunkIndex.chunk_live_overwrite _ _ (cur_chunk_id c) r' (co_index _ _ _ Hc)) as (idx & Ei & _).
  { apply (digest_chunk_ok _ ct); [|done]. unfold in_u32. simpl. lia. }
  { rewrite (co_cur _ _ _ Hc). lia. }
  apply wp_get, wp_bind, wp_on_error. apply insert_from_path_spec; [done|done|exact Hx|]. apply wp_bind.
  set (c1 := (accounted c b a) <| cur_chunk_hasher := [] |> <| pool := <[digest ct := ct]> (pool c) |> <| staging_files := ∅ |>).
  assert (Hpost : forall b', wp (set_cur_chunk (fun r => r <| chash := Some (digest ct) |>);;
      c2 ← get; overwrite_chunk (cur_chunk_id c) (cur_chunk c2);; mret true)
    (seal_post force c) (c1 <| pool_budget := b' |>)).
  { intros b'. apply wp_modify, wp_get, wp_bind. unfold overwrite_chunk. apply wp_get, wp_of_result.
    change (ChunkIndex.overwrite _ _ _) with (ChunkIndex.overwrite (chunk_index c) (cur_chunk_id c) r'). rewrite Ei.
    exists b', a. split; [done|]. exists content, ct, idx. rewrite Hh in Hp.
    split_and!; [by rewrite Hst, lookup_singleton_eq|done|done|]. unfold c1, sealed_as, accounted. flat. done. }
  case_bool_decide.
  - pose proof (Hpost (release b (csize (cur_chunk c)) (dedup_namespace (manifest c)))) as HP.
    revert HP. unfold c1, release_bytes, accounted, wp, modify. flat. exact id.
  - pose proof (Hpost b) as HP. revert HP. unfold c1, release_bytes, accounted, wp. flat. exact id.
Qed.

Lemma seal_current_spec force c recs cs :
  chunks_ok c recs cs -> seal_clean c -> wp (seal_current_chunk force) (seal_post force c) c.
Proof.
  intros Hc Hclean. destruct (co_open _ _ _ Hc) as (content & Hcs & Hn & Hsz & Hmax & Hst & Hh).
  destruct (co_env _ _ _ Hc) as [Hio _]. unfold seal_current_chunk. apply wp_get. rewrite (proj1 Hn). cbv zeta.
  apply wp_if; intros Ez; bool_to_prop.
  { apply wp_modify. exists (pool_budget c), []. split; [done|]. by rewrite Hst, delete_singleton_eq. }
  apply wp_bind.
  apply wp_mono with (Q := fun c1 r => exists b a, c1 = accounted c b a /\ (r = Ok tt \/ (r = Err SmcBackpressured /\ force = false))).
  { destruct force; [|apply wp_try_reserve; eauto 6].
    exists (force_reserve (pool_budget c) (csize (cur_chunk c)) (dedup_namespace (manifest c))), (answers (env c)).
    split; [|by left]. by destruct c as [????????????????????????[]]. }
  intros ? ? (b & a & -> & [-> | [-> ->]]); [|exists b, a; auto]. apply wp_bind.
  assert (forall Q, Q (accounted c b a) (Ok tt) -> wp (match at_rest_dek c with
    | Some _ => mret tt | None => on_error (release_bytes (csize (cur_chunk c))) pool_call end) Q (accounted c b a)) as Hsync.
  { intros Q HQ. destruct (at_rest_dek c); [done|]. by apply wp_on_error, wp_pool_call. }
  apply Hsync. apply wp_bind. eapply wp_mono; [apply (seal_hash_spec _ (accounted c b a) content); done|].
  intros c1 [h|e]; [|intros (-> & Hnone & ->); eexists _, a; split; [reflexivity|right; by rewrite Hh]].
  intros (ct & Hp & -> & ->). apply (seal_finish force c recs cs b a ct); [done|lia|by rewrite Hh|].
  intros x Hx. apply (Hclean content ct x); [by rewrite Hst, lookup_singleton_eq|done|by left].
Qed.

Definition seal_error (e : SmcError) : Prop := e = SmcBackpressured \/ e = EncryptionError.

(** The seal pipeline's outcome: at most one chunk more, nothing lost, and
    the chunk to write to next is empty unless the seal was refused. *)
Definition rolled (c : Cartridge) (recs : list ChunkRec) (cs : list (list Z)) (c' : Cartridge) (r : result unit SmcError) : Prop :=
  exists recs' cs', chunks_ok c' recs' cs' /\ side c' = side c /\ (cs' = cs \/ cs' = cs ++ [[]]) /\
    match r with Ok _ => csize (cur_chunk c') = 0 | Err e => seal_error e end.

Lemma chunks_frame c c' recs cs : core c' = core c -> chunks_ok c recs cs -> chunks_ok c' recs cs.
Proof.
  unfold core. intros [= Em Ei El Est Eid Ec Eh Ek Es Ed Eld Ep Eo Eio Et] [].
  split; unfold stores_agree, sealed_ok, open_ok, stored in *;
    rewrite ?Em, ?Ei, ?El, ?Est, ?Eid, ?Ec, ?Eh, ?Ek, ?Es, ?Ed, ?Eld, ?Ep, ?Eo, ?Eio, ?Et; done.
Qed.

Lemma accounted_ok c recs cs b a : chunks_ok c recs cs -> chunks_ok (accounted c b a) recs cs.
Proof. by intros []. Qed.

(** The slot of an empty chunk is used again. *)
Lemma restart_ok c recs cs r idx lru cdc :
  chunks_ok c recs cs -> csize (cur_chunk c) = 0 -> r = staging ->
  ChunkIndex.live idx (<[cur_chunk_id c := r]> recs) -> (length recs <= StreamLru.next_id lru)%nat ->
  chunks_ok (c <| staging_files := {[cur_chunk_id c := []]} |> <| cur_chunk_hasher := [] |> <| cdc_state := cdc |>
    <| chunk_index := idx |> <| lru_index := lru |> <| cur_chunk := r |>) (<[cur_chunk_id c := r]> recs) cs.
Proof.
  intros Hc Hz -> Hi Hl. destruct Hc. split; simpl; try done; try (by rewrite length_insert).
  - eexists. split; [apply list_lookup_insert_eq; lia|done].
  - destruct co_open0 as (content & Hcs & _ & Hsz & _). exists content. split; [done|].
    assert (content = []) as -> by (apply length_zero_iff_nil; lia). done.
  - intros id r content Hid. rewrite list_lookup_insert_ne by lia. by apply co_sealed0.
Qed.

(** A sealed chunk stays what it was when the pool gains one. *)
Lemma sealed_pool_mono c c' id r content :
  at_rest_dek c' = at_rest_dek c -> manifest c' = manifest c -> storage c' = storage c ->
  (forall h x, pool c !! h = Some x -> pool c' !! h = Some x) ->
  sealed_ok c id r content -> sealed_ok c' id r content.
Proof.
  intros Ed Em Es Hp (Hs & ct & Hpay & Hh & Hst & Hup). split; [done|]. exists ct. rewrite Ed, Em, Es. split_and!; [done..| |apply Hup|apply Hup].
  unfold stored. rewrite Es. destruct Hst as [Hst|Hst]; auto.
Qed.

(** The next chunk is opened behind a sealed one. *)
Lemma advance_ok c recs cs ct idx idx' lru cdc :
  chunks_ok c recs cs -> seal_clean c -> 0 < csize (cur_chunk c) ->
  payload (at_rest_dek c) (uuid (manifest c)) (cur_chunk_id c) (cur_chunk_hasher c) = Some ct ->
  ChunkIndex.live idx' (<[cur_chunk_id c := (cur_chunk c) <| chash := Some (digest ct) |>]> recs ++ [staging]) ->
  (S (length recs) <= StreamLru.next_id lru)%nat ->
  chunks_ok ((sealed_as c ct idx) <| cdc_state := cdc |> <| sealed_bytes := sat_add64 (sealed_bytes c) (csize (cur_chunk c)) |>
    <| staging_files := {[S (cur_chunk_id c) := []]} |> <| chunk_index := idx' |> <| lru_index := lru |>
    <| cur_chunk_id := S (cur_chunk_id c) |> <| cur_chunk := staging |>)
    (<[cur_chunk_id c := (cur_chunk c) <| chash := Some (digest ct) |>]> recs ++ [staging]) (cs ++ [[]]).
Proof.
  intros Hc Hclean Hpos Hp Hi Hl. destruct Hc. destruct co_open0 as (content & Hcs & Hn & Hsz & Hmax & Hst & Hh).
  rewrite Hh in Hp. assert (Hx : forall x, held c (digest ct) x -> x = ct).
  { intros x. apply (Hclean content); [by rewrite Hst, lookup_singleton_eq|done]. }
  assert (Hmono : forall h x, pool c !! h = Some x -> <[digest ct := ct]> (pool c) !! h = Some x).
  { intros h x Ex. destruct (decide (h = digest ct)) as [->|Hne].
    - rewrite lookup_insert_eq. f_equal. symmetry. apply Hx. by left.
    - by rewrite lookup_insert_ne. }
  split; simpl; try done.
  - rewrite length_app, length_insert. simpl. lia.
  - rewrite length_app, length_insert. simpl. lia.
  - rewrite !length_app, length_insert. simpl. lia.
  - exists staging. rewrite lookup_app_r; rewrite length_insert, co_cur0; [|lia]. by rewrite Nat.sub_diag.
  - exists []. rewrite lookup_app_r; rewrite co_len0, co_cur0; [|lia]. by rewrite Nat.sub_diag.
  - intros id r content' Hid. rewrite lookup_app_l by (rewrite length_insert; lia). rewrite lookup_app_l by lia.
    destruct (decide (id = cur_chunk_id c)) as [->|Hne].
    + rewrite list_lookup_insert_eq by lia. intros [= <-] ?. simplify_eq. split; [done|].
      exists ct. destruct Hn as (_ & Hu & Hloc). split_and!; [done|done| | |]; simpl; [|congruence|done].
      left. by apply lookup_insert_eq.
    + rewrite list_lookup_insert_ne by done. intros Er Ec.
      apply (sealed_pool_mono c); [done..|]. apply (co_sealed0 id); [lia|done|done].
  - intros h x y. simpl. destruct (decide (h = digest ct)) as [->|Hne].
    + rewrite lookup_insert_eq. intros [= ->] Ey. symmetry. apply Hx. by right.
    + rewrite lookup_insert_ne by done. apply co_store0.
  - intros id pt E. destruct (co_cache0 id pt E) as [Hid Ept]. split; [lia|]. by apply lookup_app_l_Some.
  - rewrite take_app_le by lia. rewrite (take_S_r _ _ content) by done. rewrite total_bytes_app, co_bytes0, Hsz.
    pose proof (total_bytes_nonneg (take (cur_chunk_id c) cs)). unfold sat_add64. simpl. lia.
Qed.

Lemma wp_touch id Q c :
  (id < StreamLru.next_id (lru_index c))%nat ->
  (forall l, StreamLru.next_id l = StreamLru.next_id (lru_index c) -> Q (c <| lru_index := l |>) (Ok tt)) -> wp (touch id) Q c.
Proof.
  intros Hid HQ. unfold touch. apply wp_get. unfold StreamLru.touch. rewrite bool_decide_eq_false_2 by lia. by apply HQ.
Qed.

(** The chunk index takes the digest of the trailing chunk. *)
Lemma seal_index_ok c recs cs ct :
  chunks_ok c recs cs -> exists idx,
  ChunkIndex.overwrite (chunk_index c) (cur_chunk_id c) ((cur_chunk c) <| chash := Some (digest ct) |>) = Ok idx /\
  ChunkIndex.live idx (<[cur_chunk_id c := (cur_chunk c) <| chash := Some (digest ct) |>]> recs).
Proof.
  intros Hc. destruct (co_open _ _ _ Hc) as (content & _ & _ & Hsz & Hmax & _).
  apply ChunkIndex.chunk_live_overwrite; [apply Hc| |rewrite (co_cur _ _ _ Hc); lia].
  apply (digest_chunk_ok _ ct); [|done]. unfold in_u32. simpl. lia.
Qed.

Lemma start_after_seal c recs cs ct idx :
  chunks_ok c recs cs -> seal_clean c -> ChunkIndex.fits (S (length recs)) -> 0 < csize (cur_chunk c) ->
  payload (at_rest_dek c) (uuid (manifest c)) (cur_chunk_id c) (cur_chunk_hasher c) = Some ct ->
  ChunkIndex.overwrite (chunk_index c) (cur_chunk_id c) ((cur_chunk c) <| chash := Some (digest ct) |>) = Ok idx ->
  wp (modify (fun c => c <| sealed_bytes := sat_add64 (sealed_bytes c) (csize (cur_chunk c)) |>);;
      newc ← new_chunk (S (cur_chunk_id c)); b ← of_result (ChunkIndex.append idx newc);
      modify (fun c1 => c1 <| chunk_index := b.1 |> <| lru_index := (StreamLru.append (lru_index c1) (now (env c1))).1 |>
                       <| cur_chunk_id := S (cur_chunk_id c) |> <| cur_chunk := newc |>))
    (rolled c recs cs) ((sealed_as c ct idx) <| cdc_state := reset <$> cdc_state c |>).
Proof.
  intros Hc Hclean Hfit Hpos Hp Ei. destruct (seal_index_ok c recs cs ct Hc) as (idx1 & Ei1 & Hl1).
  rewrite Ei in Ei1. injection Ei1 as <-.
  destruct (ChunkIndex.chunk_live_append _ _ staging Hl1) as (idx2 & Ei2 & Hl2); [apply staging_ok|by rewrite length_insert|].
  apply wp_modify, wp_bind. unfold new_chunk. apply wp_get. simpl (staging_files _). rewrite lookup_empty.
  apply wp_modify, wp_of_result. rewrite Ei2.
  set (lru := (StreamLru.append (lru_index c) (now (env c))).1).
  pose proof (advance_ok c recs cs ct idx idx2 lru (reset <$> cdc_state c) Hc Hclean Hpos Hp Hl2
    (le_n_S _ _ (co_lru _ _ _ Hc))) as Hr.
  eexists _, _. split; [|split; [|split; [by right|]]].
  - revert Hr. unfold sealed_as. flat. exact id.
  - reflexivity.
  - reflexivity.
Qed.

Lemma start_again c recs cs :
  chunks_ok c recs cs -> csize (cur_chunk c) = 0 ->
  wp (newc ← new_chunk (cur_chunk_id c); overwrite_chunk (cur_chunk_id c) newc;; touch (cur_chunk_id c);;
      modify (fun c => c <| cur_chunk := newc |>))
    (rolled c recs cs) (c <| staging_files := ∅ |> <| cur_chunk_hasher := [] |> <| cdc_state := reset <$> cdc_state c |>).
Proof.
  intros Hc Hz. apply wp_bind. unfold new_chunk. apply wp_get. simpl (staging_files _). rewrite lookup_empty.
  destruct (ChunkIndex.chunk_live_overwrite _ _ (cur_chunk_id c) staging (co_index _ _ _ Hc)) as (idx & Ei & Hl).
  { apply staging_ok. }
  { rewrite (co_cur _ _ _ Hc). lia. }
  apply wp_modify, wp_bind. unfold overwrite_chunk. apply wp_get, wp_of_result.
  change (ChunkIndex.overwrite _ _ _) with (ChunkIndex.overwrite (chunk_index c) (cur_chunk_id c) staging). rewrite Ei.
  pose proof (co_lru _ _ _ Hc) as Hlru. pose proof (co_cur _ _ _ Hc).
  unfold wp at 1, modify at 1. apply wp_bind, wp_touch; [simpl; lia|]. intros l Hn. flat in Hn.
  pose proof (restart_ok c recs cs staging idx l (reset <$> cdc_state c) Hc Hz eq_refl Hl ltac:(by rewrite Hn)) as Hr.
  eexists _, cs. split; [|split; [|split; [by left|]]].
  - revert Hr. flat. exact id.
  - reflexivity.
  - reflexivity.
Qed.

Lemma seal_start_spec c recs cs :
  chunks_ok c recs cs -> seal_clean c -> ChunkIndex.fits (S (length recs)) ->
  wp seal_and_start_new_chunk (rolled c recs cs) c.
Proof.
  intros Hc Hclean Hfit. unfold seal_and_start_new_chunk. apply wp_bind.
  eapply wp_mono; [by eapply seal_current_spec|]. intros c1 [[]|e] (b & a & Hpost).
  - destruct Hpost as (Hpos & content & ct & idx & Est & Hp & Ei & ->). apply wp_modify, wp_get.
    destruct (co_open _ _ _ Hc) as (content' & _ & _ & _ & _ & Hst & Hh).
    rewrite Hst, lookup_singleton_eq in Est. injection Est as ->. rewrite <- Hh in Hp.
    eapply wp_mono; [apply (start_after_seal (accounted c b a) recs cs ct idx); try done; by apply accounted_ok|].
    done.
  - destruct Hpost as (Hz & ->). apply wp_modify, wp_get. exact (start_again c recs cs Hc Hz).
  - destruct Hpost as (-> & He). exists recs, cs. split_and!; [by apply accounted_ok|done|by left|].
    destruct He as [[-> _]|[-> _]]; [by left|by right].
Qed.

(** Bytes appended to the trailing chunk. *)
Lemma extend_ok c recs cs content bytes rt :
  chunks_ok c recs cs -> cs !! cur_chunk_id c = Some content -> csize (cur_chunk c) + Z.of_nat (length bytes) <= u32_max ->
  chunks_ok (c <| staging_files := {[cur_chunk_id c := content ++ bytes]} |> <| cur_chunk_hasher := content ++ bytes |>
    <| cur_chunk := (cur_chunk c) <| csize := csize (cur_chunk c) + Z.of_nat (length bytes) |> |> <| runtime := rt |>)
    recs (<[cur_chunk_id c := content ++ bytes]> cs).
Proof.
  intros [] Hcs Hmax. destruct co_open0 as (content' & Hcs' & Hn & Hsz & _ & Hst & Hh). simplify_eq.
  split; flat; try done.
  - by rewrite length_insert.
  - eexists. split; [apply list_lookup_insert_eq; lia|]. split_and!; simpl; try done. rewrite length_app. lia.
  - intros id r ct Hid Er. rewrite list_lookup_insert_ne by lia. by apply co_sealed0.
  - intros id pt E. destruct (co_cache0 id pt E) as [Hid Ept]. split; [done|]. by rewrite list_lookup_insert_ne by lia.
  - by rewrite take_insert_ge by lia.
Qed.

(** The record of the trailing chunk changes where it is kept. *)
Lemma relabel_ok c recs cs r :
  chunks_ok c recs cs -> fresh r -> csize r = csize (cur_chunk c) ->
  chunks_ok (c <| cur_chunk := r |>) recs cs.
Proof.
  intros [] Hh Hs. split; flat; try done. destruct co_open0 as (content & Hcs & Hn & Hsz & Hmax & Hst & Hha).
  exists content. split; [done|]. split_and!; flat; (done || congruence).
Qed.

Lemma rolled_length c recs cs c' recs' cs' :
  chunks_ok c recs cs -> chunks_ok c' recs' cs' -> (cs' = cs \/ cs' = cs ++ [[]]) ->
  grows cs cs' /\ (length recs' <= S (length recs))%nat.
Proof.
  intros [] [] [-> | ->]; [split; [done|lia]|]. split; [apply grows_snoc|]. rewrite length_app in *. simpl in *. lia.
Qed.

(** A roll makes room for [n] bytes. *)
Lemma roll_spec n c recs cs :
  chunks_ok c recs cs -> seal_clean c -> ChunkIndex.fits (S (length recs)) -> n <= u32_max ->
  wp (roll_chunk_if_needed n) (fun c' r => exists recs' cs', chunks_ok c' recs' cs' /\ side c' = side c /\ grows cs cs' /\
    (length recs' <= S (length recs))%nat /\
    match r with Ok _ => csize (cur_chunk c') + n <= u32_max | Err e => seal_error e end) c.
Proof.
  intros Hc Hclean Hfit Hn. unfold roll_chunk_if_needed. apply wp_get, wp_if; intros E; bool_to_prop.
  - exists recs, cs. split_and!; [done..|lia|]. destruct (co_threshold _ _ _ Hc). lia.
  - eapply wp_mono; [by eapply seal_start_spec|]. intros c' r (recs' & cs' & Hc' & Hs & Hcs & Hr).
    destruct (rolled_length _ _ _ _ _ _ Hc Hc' Hcs). exists recs', cs'. split_and!; [done..|]. destruct r; [lia|done].
Qed.
End inv.
