(* ===== verification/Tape.v ===== *)
(** * The tape a cartridge is

    What a host sees of a cartridge: per partition the sequence of its
    blocks and filemarks, the partition and position of the head, the write
    mode that ALLOW OVERWRITE set, and what forbids writing.  A block carries the key it was
    encrypted with.  The commands are functions on it, written one record at
    a time; [CartridgeHistory] shows the cartridge refines them. *)

From S2P Require Import Prelude BTreeMap ByteFile BlockIndex IndexCodec Crypto Cartridge CartridgeOps.

Local Open Scope nat_scope.

Inductive Item : Type :=
  | TMark
  | TBlock (sealed_with : option (list Z)) (data : list Z).

Record Tape : Type := mkTape {
  t_parts : list (list Item);
  t_active : nat;
  t_head : nat;
  t_barriers : list (option nat);
  t_drive : option DriveEncryptionState;
  t_worm : bool;
  t_held : bool;
}.

Definition items (t : Tape) : list Item := default [] (t_parts t !! t_active t).

Definition with_items (l : list Item) (h : nat) (t : Tape) : Tape :=
  mkTape (<[t_active t := l]> (t_parts t)) (t_active t) h (t_barriers t) (t_drive t) (t_worm t) (t_held t).

Definition with_head (h : nat) (t : Tape) : Tape :=
  mkTape (t_parts t) (t_active t) h (t_barriers t) (t_drive t) (t_worm t) (t_held t).

(** The key the drive encrypts with. *)
Definition write_key (t : Tape) : option (list Z) :=
  match t_drive t with
  | Some s => if encrypt_on_write s then Some (key s) else None
  | None => None
  end.

(** A cartridge under legal hold takes no write, a write-once one only at its
    end. *)
Definition refused (t : Tape) (append_at_eod_ok : bool) : option SmcError :=
  if t_held t then Some LegalHoldViolation
  else if t_worm t && negb (append_at_eod_ok && bool_decide (t_head t = length (items t))) then Some WormViolation
  else None.

(** A write at the head replaces the block there instead of ending the tape
    at it. *)
Definition in_place (t : Tape) : bool :=
  bool_decide (t_head t < length (items t)) &&
  match t_barriers t !! t_active t ≫= id with
  | Some barrier => bool_decide (barrier <= t_head t)
  | None => false
  end.

(** The tape ended at the head. *)
Definition cut (t : Tape) : Tape :=
  if in_place t then t else with_items (take (t_head t) (items t)) (t_head t) t.

Definition put (x : Item) (t : Tape) : Tape :=
  if in_place t then with_items (<[t_head t := x]> (items t)) (S (t_head t)) t
  else with_items (take (t_head t) (items t) ++ [x]) (S (t_head t)) t.

(** Filemarks go behind the last record, even in the middle of a tape in
    overwrite mode. *)
Definition put_marks (n : nat) (t : Tape) : Tape :=
  let l := items (cut t) in with_items (l ++ replicate n TMark) (length l + n) t.

(** ** SPACE, a record at a time *)

(** Blocks crossed, and whether a filemark was reached; the list is what
    lies ahead, in the direction of the motion. *)
Fixpoint skip_blocks (l : list Item) (n : nat) : nat * bool :=
  match n, l with
  | S n, TBlock _ _ :: l => let (m, hit) := skip_blocks l n in (S m, hit)
  | S _, TMark :: _ => (0, true)
  | _, _ => (0, false)
  end.

(** Records crossed and filemarks among them, up to and with the [n]th
    filemark. *)
Fixpoint skip_marks (l : list Item) (n : nat) : nat * nat :=
  match n, l with
  | O, _ | _, [] => (0, 0)
  | S n', TMark :: l => let (m, k) := skip_marks l n' in (S m, S k)
  | S _, TBlock _ _ :: l => let (m, k) := skip_marks l n in (S m, k)
  end.

Definition b2n (b : bool) : nat := if b then 1 else 0.

Definition ahead (t : Tape) : list Item := drop (t_head t) (items t).
Definition behind (t : Tape) : list Item := rev (take (t_head t) (items t)).

Definition space_blocks_to (delta : Z) (t : Tape) : Tape * (Z * bool) :=
  if (0 <? delta)%Z then
    let (m, hit) := skip_blocks (ahead t) (Z.to_nat delta) in
    (with_head (t_head t + m + b2n hit) t, (Z.of_nat m, hit))
  else
    let (m, hit) := skip_blocks (behind t) (Z.to_nat (- delta)) in
    (with_head (t_head t - m - b2n hit) t, (- Z.of_nat m, hit)%Z).

(** Backwards, the head stops before the last filemark counted, and at the
    beginning when there are too few. *)
Definition space_marks_to (n : Z) (t : Tape) : Tape * Z :=
  if (0 <? n)%Z then
    let (m, k) := skip_marks (ahead t) (Z.to_nat n) in (with_head (t_head t + m) t, Z.of_nat k)
  else
    let (m, k) := skip_marks (behind t) (Z.to_nat (- n)) in (with_head (t_head t - m) t, - Z.of_nat k)%Z.
