(* ===== verification/CartridgeTape.v ===== *)
(** * A cartridge represents a tape

    [tape_repr c cs t]: each record of a block index gives the item of the
    tape at its address: the slice of its chunk's bytes, decrypted and
    decompressed.  WRITE and WRITE FILEMARKS do to the tape what [Tape] says,
    on every branch. *)

From Stdlib Require Import String.
From S2P Require Import Prelude Bytes ByteFile BTreeMap DirtyPages TrackedFile FastCdc StreamLru ChunkIndex BlockIndex IndexCodec PoolBudget Crypto StateError Cartridge CartridgeOps CartridgeOpen CartridgeInv Tape.

Local Open Scope Z_scope.
Local Open Scope thur_scope.

Section tape.
Context `{VolumeCrypto} `{HexCodec} `{Compressor} (evicts overwrites : bool).

(** The stored bytes of a block, opened with [k], are [data]. *)
Definition opens_to (u : list Z) (r : BlockRec) (bytes : list Z) (k : option (list Z)) (data : list Z) : Prop :=
  exists mid,
  match k with
  | None => encryption r = ENone /\ mid = bytes
  | Some k => encryption r = Aes256Gcm /\ decrypt_block k (derive_iv u (chunk_id r) (offset r)) bytes = Ok mid
  end /\
  match compression r with
  | None => data = mid
  | Some a => decompress_data a mid = Ok data
  end.

Definition record_ok (u : list Z) (cs : list (list Z)) (r : BlockRec) (x : Item) : Prop :=
  exists content, cs !! Z.to_nat (chunk_id r) = Some content /\
    offset r + blen r <= Z.of_nat (length content) /\
    match x with
    | TMark => kind r = Filemark
    | TBlock k data => kind r = Data /\ opens_to u r (sl (Z.to_nat (offset r)) (Z.to_nat (blen r)) content) k data
    end.

(** Later records are in later chunks. *)
Definition ordered (rs : list BlockRec) : Prop :=
  forall i j a b, (i <= j)%nat -> rs !! i = Some a -> rs !! j = Some b -> chunk_id a <= chunk_id b.

Record tape_repr (c : Cartridge) (cs : list (list Z)) (rss : list (list BlockRec)) (t : Tape) : Prop := {
  tr_index : Forall2 BlockIndex.live (block_indexes c) rss;
  tr_items : Forall2 (Forall2 (record_ok (uuid (manifest c)) cs)) rss (t_parts t);
  tr_active : t_active t = active_partition (runtime c);
  tr_head : t_head t = head_lba c;
  tr_barriers : t_barriers t = map overwrite_barrier (partitions (runtime c));
  tr_drive : t_drive t = drive_encryption c;
  tr_gates : t_worm t = worm (manifest c) /\ t_held t = legal_held c;
  tr_count : (active_partition (runtime c) < length (partitions (runtime c)) <= length (block_indexes c))%nat;
  tr_range : (t_head t <= length (items t))%nat;
  tr_disk : (active_partition (disk_runtime c) < length (partitions (disk_runtime c)))%nat /\
    length (partitions (disk_runtime c)) = length (partitions (runtime c)) /\
    Forall (fun p => overwrite_barrier p = None) (partitions (disk_runtime c));
  tr_ordered : overwrites = false -> Forall ordered rss /\ Forall (fun b => b = None) (t_barriers t);
}.

Definition rep (c : Cartridge) (recs : list ChunkRec) (cs : list (list Z)) (rss : list (list BlockRec)) (t : Tape) : Prop :=
  chunks_ok evicts c recs cs /\ tape_repr c cs rss t.

(** ** Facts about the representation *)

Lemma record_ok_grows u cs cs' r x : grows cs cs' -> block_ok r -> record_ok u cs r x -> record_ok u cs' r x.
Proof.
  intros Hg (_ & [Ho _] & [Hl _]) (content & E & Hle & Hx). destruct (Hg _ _ E) as (y & E').
  exists (content ++ y). rewrite length_app. split_and!; [done|lia|].
  destruct x as [|k data]; [done|]. destruct Hx as [Hk Hx]. split; [done|]. unfold sl in *.
  rewrite drop_app_le, take_app_le by (rewrite ?length_drop; lia). done.
Qed.

Lemma live_block_ok b rs : BlockIndex.live b rs -> Forall block_ok rs.
Proof. by intros ([_ _ _ Hok] & _). Qed.

Lemma records_grow u cs cs' rs l :
  grows cs cs' -> Forall block_ok rs -> Forall2 (record_ok u cs) rs l -> Forall2 (record_ok u cs') rs l.
Proof.
  intros Hg Hok Hl. induction Hl as [|r x rs l Hx _ IH]; [done|]. apply Forall_cons in Hok as [Hr Hok].
  constructor; [by eapply record_ok_grows|auto].
Qed.

Lemma items_grow u cs cs' bs rss parts :
  grows cs cs' -> Forall2 BlockIndex.live bs rss -> Forall2 (Forall2 (record_ok u cs)) rss parts ->
  Forall2 (Forall2 (record_ok u cs')) rss parts.
Proof.
  intros Hg Hl Hp. apply Forall2_same_length_lookup. split; [by eapply Forall2_length|]. intros i rs l Ers El.
  destruct (Forall2_lookup_r _ _ _ _ _ Hl Ers) as (b & _ & Hb).
  apply (records_grow u cs); [done|by eapply live_block_ok|]. by eapply Forall2_lookup_lr.
Qed.

(** What the tape depends on, besides the chunks. *)
Definition face (c : Cartridge) :=
  (uuid (manifest c), partitions (runtime c), active_partition (runtime c), partitions (disk_runtime c),
   active_partition (disk_runtime c), block_indexes c, head_lba c, drive_encryption c, worm (manifest c), legal_held c).

Lemma side_face c c' : side c' = side c -> face c' = face c.
Proof. unfold side, face. by intros [= -> -> -> -> -> _ _ -> _ -> _ _]. Qed.

Lemma tape_frame c c' cs cs' rss t :
  face c' = face c -> grows cs cs' -> tape_repr c cs rss t -> tape_repr c' cs' rss t.
Proof.
  unfold face. intros [= Em Ep Ea Edp Eda Eb Eh Ed Ew El] Hg [].
  split; rewrite ?Em, ?Ep, ?Ea, ?Edp, ?Eda, ?Eb, ?Eh, ?Ed, ?Ew, ?El; try done.
  by eapply items_grow.
Qed.

Section facts.
Context (c : Cartridge) (cs : list (list Z)) (rss : list (list BlockRec)) (t : Tape) (Ht : tape_repr c cs rss t).

(** The records and the index of the active partition. *)
Lemma active_index :
  exists rs, rss !! active_partition (runtime c) = Some rs /\
    block_indexes c !! active_partition (runtime c) = Some (block_index c (active_partition (runtime c))) /\
    BlockIndex.live (block_index c (active_partition (runtime c))) rs /\
    Forall2 (record_ok (uuid (manifest c)) cs) rs (items t) /\ active_next_lba c = length rs /\
    t_parts t !! t_active t = Some (items t).
Proof.
  destruct Ht. destruct (lookup_lt_is_Some_2 (block_indexes c) (active_partition (runtime c)) ltac:(lia)) as [b Eb].
  destruct (Forall2_lookup_l _ _ _ _ _ tr_index0 Eb) as (rs & Ers & Hl).
  destruct (Forall2_lookup_l _ _ _ _ _ tr_items0 Ers) as (l & El & Hi).
  exists rs. unfold block_index, active_next_lba, next_lba_of, items, block_index. rewrite Eb, tr_active0, El. simpl.
  split_and!; [done..|by apply BlockIndex.block_live_next|done].
Qed.

Lemma next_is_items : active_next_lba c = length (items t).
Proof. destruct active_index as (rs & _ & _ & _ & Hi & -> & _). by eapply Forall2_length. Qed.

(** Every record is in a chunk up to the trailing one. *)
Lemma record_chunk_bound rs l r :
  Forall2 (record_ok (uuid (manifest c)) cs) rs l -> r ∈ rs -> (Z.to_nat (chunk_id r) < length cs)%nat.
Proof.
  intros Hl [i Hr]%list_elem_of_lookup. destruct (Forall2_lookup_l _ _ _ _ _ Hl Hr) as (x & _ & content & E & _).
  by eapply lookup_lt_Some.
Qed.
End facts.

(** The active partition holds other records. *)
Lemma tape_update c cs rss t b' rs' l' h' :
  tape_repr c cs rss t -> BlockIndex.live b' rs' -> Forall2 (record_ok (uuid (manifest c)) cs) rs' l' ->
  (h' <= length l')%nat -> (overwrites = false -> ordered rs') ->
  tape_repr (c <| block_indexes := <[active_partition (runtime c) := b']> (block_indexes c) |> <| head_lba := h' |>) cs
    (<[active_partition (runtime c) := rs']> rss) (with_items l' h' t).
Proof.
  intros Ht Hl Hi Hh Ho. destruct (active_index _ _ _ _ Ht) as (rs & Ers & Eb & _ & _ & _ & Ep). destruct Ht.
  split; flat; unfold with_items; cbn [t_parts t_active t_head t_barriers t_drive]; try done.
  - by apply Forall2_insert.
  - rewrite tr_active0. by apply Forall2_insert.
  - by rewrite length_insert.
  - unfold items. cbn [t_parts t_active]. rewrite list_lookup_insert_eq by (by eapply lookup_lt_Some). done.
  - intros E. destruct (tr_ordered0 E) as [Hr Hb]. split; [|done]. apply Forall_insert; auto.
Qed.

Lemma ordered_take n rs : ordered rs -> ordered (take n rs).
Proof. intros Ho i j a b Hij Ha Hb. apply lookup_take_Some in Ha as [Ha _]. apply lookup_take_Some in Hb as [Hb _]. by eapply Ho. Qed.

Lemma active_barrier c cs rss t :
  tape_repr c cs rss t -> partitions (runtime c) !! active_partition (runtime c) ≫= overwrite_barrier = t_barriers t !! t_active t ≫= id.
Proof. intros []. rewrite tr_barriers0, tr_active0, list_lookup_fmap. by destruct (partitions _ !! _). Qed.

Lemma with_items_id t : t_parts t !! t_active t = Some (items t) -> with_items (items t) (t_head t) t = t.
Proof. intros E. unfold with_items. rewrite list_insert_id by done. by destruct t. Qed.

Lemma same_blocks c : c <| block_indexes := block_indexes c |> = c.
Proof. by destruct c. Qed.

(** Truncating the active index at the head. *)
Lemma truncate_index c cs rss t :
  tape_repr c cs rss t -> (t_head t < length (items t))%nat ->
  exists rss', tape_repr (c <| block_indexes := <[active_partition (runtime c) :=
      BlockIndex.truncate_to (block_index c (active_partition (runtime c))) (head_lba c)]> (block_indexes c) |>)
    cs rss' (with_items (take (t_head t) (items t)) (t_head t) t).
Proof.
  intros Ht Hlt. destruct (active_index _ _ _ _ Ht) as (rs & Ers & Eb & Hl & Hi & Hn & Ep).
  pose proof (Forall2_length _ _ _ Hi) as Hlen. pose proof (tr_head _ _ _ _ Ht) as Hh.
  exists (<[active_partition (runtime c) := take (t_head t) rs]> rss).
  assert (Hl' : BlockIndex.live (BlockIndex.truncate_to (block_index c (active_partition (runtime c))) (head_lba c)) (take (t_head t) rs)).
  { rewrite <- Hh. replace (take (t_head t) rs) with (take (t_head t) rs ++ replicate (t_head t - length rs) data_rec)
      by (replace (t_head t - length rs)%nat with 0%nat by lia; by rewrite app_nil_r).
    apply BlockIndex.block_live_truncate; [done|]. destruct Hl as (_ & _ & Hf).
    unfold BlockIndex.fits, BlockIndex.record_offset in *. nia. }
  pose proof (tape_update c cs rss t _ _ (take (t_head t) (items t)) (t_head t) Ht Hl'
    (Forall2_take _ _ _ _ Hi) ltac:(rewrite length_take; lia)) as Hu.
  rewrite Hh in Hu |- *. apply Hu. intros E. apply ordered_take.
  destruct (tr_ordered _ _ _ _ Ht E) as [Ho _]. by eapply Forall_lookup_1.
Qed.

Lemma truncate_spec c cs rss t :
  tape_repr c cs rss t ->
  wp truncate_from_head (fun c' r => r = Ok tt /\ exists bs rss', c' = c <| block_indexes := bs |> /\ tape_repr c' cs rss' (cut t)) c.
Proof.
  intros Ht. unfold truncate_from_head. apply wp_get. cbv zeta.
  change (next_lba_of c _) with (active_next_lba c). rewrite (next_is_items _ _ _ _ Ht), <- (tr_head _ _ _ _ Ht).
  rewrite (active_barrier _ _ _ _ Ht). unfold cut, in_place.
  destruct (active_index _ _ _ _ Ht) as (rs & _ & _ & _ & _ & _ & Ep).
  case_bool_decide as Hlt.
  { split; [done|]. exists (block_indexes c), rss. rewrite same_blocks. split; [done|].
    rewrite bool_decide_eq_false_2 by lia. simpl. rewrite take_ge by lia. by rewrite with_items_id. }
  rewrite bool_decide_eq_true_2 by lia. cbn [andb].
  destruct (truncate_index _ _ _ _ Ht ltac:(lia)) as (rss' & Hr). rewrite <- (tr_head _ _ _ _ Ht) in Hr.
  destruct (_ ≫= id) as [barrier|]; [case_bool_decide|].
  - split; [done|]. exists (block_indexes c), rss. by rewrite same_blocks.
  - split; [done|]. eexists _, rss'. split; [done|exact Hr].
  - split; [done|]. eexists _, rss'. split; [done|exact Hr].
Qed.

(** ** Writing *)

Lemma in_place_cut t : t_parts t !! t_active t = Some (items t) -> in_place (cut t) = in_place t.
Proof.
  intros Ep. unfold cut. destruct (in_place t) eqn:E; [done|]. unfold in_place, with_items, items. cbn [t_parts t_active t_head].
  rewrite list_lookup_insert_eq by (by eapply lookup_lt_Some). simpl. rewrite length_take.
  rewrite bool_decide_eq_false_2 by lia. done.
Qed.

Lemma with_items_twice l h l' h' t : with_items l h (with_items l' h' t) = with_items l h t.
Proof. unfold with_items. simpl. by rewrite list_insert_insert_eq. Qed.

Lemma items_with l h t : (t_active t < length (t_parts t))%nat -> items (with_items l h t) = l.
Proof. intros Hlt. unfold items, with_items. simpl. by rewrite list_lookup_insert_eq. Qed.

Lemma put_cut x t : t_parts t !! t_active t = Some (items t) -> put x (cut t) = put x t.
Proof.
  intros Ep. unfold put. rewrite in_place_cut by done. unfold cut. destruct (in_place t) eqn:E; [done|].
  rewrite with_items_twice, items_with by (by eapply lookup_lt_Some). cbn [t_head with_items].
  by rewrite take_take, Nat.min_id.
Qed.

Lemma decompress_compress `{!CompressorLaws} a x l y : compress_data a x l = Ok y -> decompress_data a y = Ok x.
Proof.
  unfold compress_data, decompress_data. destruct a; [| |done].
  - destruct (lz4_encode x) as [z|] eqn:E; [|done]. intros [= ->]. by rewrite (lz4_roundtrip _ _ E).
  - destruct (zstd_encode l x) as [z|] eqn:E; [|done]. intros [= ->]. by rewrite (zstd_roundtrip _ _ _ E).
Qed.

(** What encrypting and compressing a block leaves can be opened again. *)
Lemma opens_back `{!CipherLaws} `{!CompressorLaws} u (drive : option DriveEncryptionState) comp bytes mid stored r :
  (if dce comp then compress_data (algorithm comp) bytes (level comp) else Ok bytes) = Ok mid ->
  (if from_option encrypt_on_write false drive
   then encrypt_block (from_option key [] drive) (derive_iv u (chunk_id r) (offset r)) mid = Ok stored else stored = mid) ->
  encryption r = (if from_option encrypt_on_write false drive then Aes256Gcm else ENone) ->
  compression r = (if dce comp then Some (algorithm comp) else None) ->
  opens_to u r stored (match drive with Some s => if encrypt_on_write s then Some (key s) else None | None => None end) bytes.
Proof.
  intros Hc He Hr1 Hr2. exists mid. split.
  - destruct drive as [s|]; simpl in *; [destruct (encrypt_on_write s)|]; try done. split; [done|]. by apply decrypt_encrypt.
  - rewrite Hr2. destruct (dce comp); [|congruence].
    by eapply decompress_compress.
Qed.

Lemma ordered_snoc rs r : ordered rs -> Forall (fun a => chunk_id a <= chunk_id r) rs -> ordered (rs ++ [r]).
Proof.
  intros Ho Hr i j a b Hij Ha Hb. destruct (decide (j < length rs)%nat) as [Hj|Hj].
  - rewrite lookup_app_l in Ha, Hb by lia. by eapply (Ho i j).
  - apply lookup_lt_Some in Hb as Hb'. rewrite length_app in Hb'. simpl in Hb'.
    assert (j = length rs) as -> by lia. rewrite list_lookup_middle in Hb by done. injection Hb as <-.
    destruct (decide (i < length rs)%nat) as [Hi|Hi].
    + rewrite lookup_app_l in Ha by done. by eapply Forall_lookup_1 in Hr.
    + assert (i = length rs) as -> by lia. rewrite list_lookup_middle in Ha by done. by injection Ha as <-.
Qed.

Lemma in_place_overwrites c cs rss t : tape_repr c cs rss t -> in_place t = true -> overwrites = true.
Proof.
  intros Ht E. destruct (overwrites) eqn:Eo; [done|]. destruct (tr_ordered _ _ _ _ Ht Eo) as [_ Hb].
  unfold in_place in E. apply andb_true_iff in E as [_ E].
  destruct (t_barriers t !! t_active t) as [b|] eqn:Eb; [|done]. eapply Forall_lookup_1 in Hb; [|exact Eb]. by subst b.
Qed.

(** A record for the trailing chunk appended to the active index. *)
Lemma append_rec_spec c recs cs rss t r x :
  rep c recs cs rss t -> block_ok r -> record_ok (uuid (manifest c)) cs r x -> chunk_id r = Z.of_nat (cur_chunk_id c) ->
  BlockIndex.fits (S (active_next_lba c)) ->
  wp (append_rec r) (fun c' res => exists bs rss', res = Ok (length (items t)) /\
    c' = c <| block_indexes := bs |> <| head_lba := S (length (items t)) |> /\
    tape_repr c' cs rss' (with_items (items t ++ [x]) (S (length (items t))) t)) c.
Proof.
  intros [Hc Ht] Hok Hr Hid Hfit. destruct (active_index _ _ _ _ Ht) as (rs & Ers & Eb & Hl & Hi & Hn & Ep).
  pose proof (Forall2_length _ _ _ Hi) as Hlen. unfold append_rec. apply wp_get. cbv zeta.
  rewrite Hn in Hfit. pose proof (BlockIndex.block_live_append _ _ r Hl Hok Hfit) as Hl'.
  rewrite BlockIndex.append_tracked in *. cbn [fst] in Hl'.
  change (t_next (block_index c (active_partition (runtime c)))) with (active_next_lba c). rewrite Hn, Hlen.
  apply wp_modify, wp_modify. eexists _, (<[active_partition (runtime c) := rs ++ [r]]> rss). split_and!; [done|done|].
  apply tape_update; [done|exact Hl'|by apply Forall2_app; [|constructor]|rewrite length_app; simpl; lia|].
  intros E. destruct (tr_ordered _ _ _ _ Ht E) as [Ho _]. apply ordered_snoc; [by eapply Forall_lookup_1|].
  apply Forall_forall. intros a Ha. pose proof (record_chunk_bound _ _ _ _ a Hi Ha).
  rewrite (co_len _ _ _ _ Hc), (co_cur _ _ _ _ Hc) in *. apply live_block_ok in Hl.
  rewrite Forall_forall in Hl. destruct (Hl a Ha) as ([H1' _] & _). lia.
Qed.

(** The record of a block goes where the tape has it: in place, or behind
    the last. *)
Lemma record_spec c recs cs rss t r x :
  rep c recs cs rss t -> block_ok r -> record_ok (uuid (manifest c)) cs r x -> chunk_id r = Z.of_nat (cur_chunk_id c) ->
  BlockIndex.fits (S (active_next_lba c)) -> ((t_head t < length (items t))%nat -> in_place t = true) ->
  wp (if bool_decide (head_lba c < next_lba_of c (active_partition (runtime c)))%nat then
           b ← of_result (BlockIndex.overwrite (block_index c (active_partition (runtime c))) (head_lba c) r);
           set_index (active_partition (runtime c)) b;;
           modify (fun c1 => c1 <| head_lba := S (head_lba c) |>);;
           mret (head_lba c)
         else append_rec r)
    (fun c' res => exists bs rss', res = Ok (t_head t) /\
    c' = c <| block_indexes := bs |> <| head_lba := S (t_head t) |> /\ tape_repr c' cs rss' (put x t)) c.
Proof.
  intros Hrep Hok Hr Hid Hfit Hin. pose proof Hrep as [Hc Ht].
  destruct (active_index _ _ _ _ Ht) as (rs & Ers & Eb & Hl & Hi & Hn & Ep).
  pose proof (Forall2_length _ _ _ Hi) as Hlen. change (next_lba_of c _) with (active_next_lba c).
  rewrite Hn, Hlen, <- (tr_head _ _ _ _ Ht). case_bool_decide as Hlt.
  - specialize (Hin Hlt). apply wp_of_result.
    destruct (BlockIndex.block_live_overwrite _ _ (t_head t) r Hl Hok ltac:(lia)) as (b' & -> & Hl').
    apply wp_modify, wp_modify. eexists _, (<[active_partition (runtime c) := <[t_head t := r]> rs]> rss). split_and!; [done|done|].
    unfold put. rewrite Hin. apply tape_update; [done|done|by apply Forall2_insert|rewrite length_insert; lia|].
    intros E. by rewrite (in_place_overwrites _ _ _ _ Ht Hin) in E.
  - assert (Heq : t_head t = length (items t)) by (pose proof (tr_range _ _ _ _ Ht); lia).
    assert (put x t = with_items (items t ++ [x]) (S (length (items t))) t) as ->.
    { unfold put, in_place. rewrite bool_decide_eq_false_2 by lia. cbn [andb]. by rewrite take_ge, Heq by lia. }
    rewrite Heq. by eapply append_rec_spec.
Qed.

Definition drive_encrypts (c : Cartridge) : bool := from_option encrypt_on_write false (drive_encryption c).

(** The bytes of a block before its record: encrypted, staged and hashed. *)
Definition block_stored (c : Cartridge) (content bytes : list Z) (plaintext_len : Z) : Cartridge :=
  c <| staging_files := {[cur_chunk_id c := content ++ bytes]} |> <| cur_chunk_hasher := content ++ bytes |>
    <| cur_chunk := (cur_chunk c) <| csize := csize (cur_chunk c) + Z.of_nat (length bytes) |> |>
    <| runtime := (runtime c) <| host_bytes_written := sat_add64 (host_bytes_written (runtime c)) plaintext_len |> |>.

Lemma block_stored_ok c recs cs rss t content bytes n :
  rep c recs cs rss t -> cs !! cur_chunk_id c = Some content -> csize (cur_chunk c) + Z.of_nat (length bytes) <= u32_max ->
  rep (block_stored c content bytes n) recs (<[cur_chunk_id c := content ++ bytes]> cs) rss t.
Proof.
  intros [Hc Ht] Hcs Hmax. split; [by apply extend_ok|]. destruct Ht. split; unfold block_stored; flat; try done.
  eapply items_grow; [by apply grows_extend|done|done].
Qed.

Lemma encode_block_spec cid off len enc comp r :
  0 <= off <= u32_max -> 0 <= len <= u32_max -> encode_block_rec cid off len Data enc comp = Ok r ->
  block_ok r /\ r = mkBlock (Z.of_nat cid) off len Data (if enc then Aes256Gcm else ENone) comp.
Proof.
  intros Ho Hl. unfold encode_block_rec. destruct (u32_max <? Z.of_nat cid) eqn:E; [done|].
  rewrite !(proj2 (Z.ltb_ge _ _)) by lia. intros [= <-]. apply Z.ltb_ge in E. split; [|done].
  unfold block_ok, in_u32. simpl. lia.
Qed.

Definition block_failure (e : SmcError) : Prop :=
  e = EncryptionError \/ e = InvalidOp "block-index encode: chunk_id exceeds u32::MAX".

Lemma wp_append_staging bytes Q c content :
  torn (env c) = [] -> staging_files c = {[cur_chunk_id c := content]} ->
  Q (c <| staging_files := {[cur_chunk_id c := content ++ bytes]} |>) (Ok tt) -> wp (append_staging bytes) Q c.
Proof.
  intros Ht Hst HQ. unfold wp, append_staging. rewrite Ht, Hst, lookup_singleton_eq, insert_singleton_eq. exact HQ.
Qed.

(** What follows the record: the chunk is marked used and not uploaded. *)
Lemma block_finish c recs cs rss t {A} (a : A) :
  rep c recs cs rss t ->
  wp (touch (cur_chunk_id c);;
      (if storage_backend c then set_cur_chunk (fun r => r <| location := LocalOnly |> <| uploaded := false |>) else mret tt);;
      mret a)
    (fun c' res => res = Ok a /\ rep c' recs cs rss t) c.
Proof.
  intros [Hc Ht]. pose proof (co_lru _ _ _ _ Hc). pose proof (co_cur _ _ _ _ Hc).
  apply wp_bind, wp_touch; [lia|]. intros l Hl.
  assert (Hc' : chunks_ok evicts (c <| lru_index := l |>) recs cs).
  { destruct Hc. split; flat; try done. by rewrite Hl. }
  destruct (storage_backend c).
  - apply wp_modify. split; [done|]. split; [|by apply (tape_frame c _ cs cs)].
    apply relabel_ok; [done| |done]. destruct (co_open _ _ _ _ Hc) as (_ & _ & (Hh & _) & _). done.
  - split; [done|]. split; [done|]. by apply (tape_frame c _ cs cs).
Qed.

(** The record of the stored bytes. *)
Lemma stored_record c cs content bytes data comp n :
  cs !! cur_chunk_id c = Some content -> csize (cur_chunk c) = Z.of_nat (length content) ->
  opens_to (uuid (manifest c))
    (mkBlock (Z.of_nat (cur_chunk_id c)) (csize (cur_chunk c)) (Z.of_nat (length bytes)) Data
       (if drive_encrypts c then Aes256Gcm else ENone) comp) bytes n data ->
  record_ok (uuid (manifest c)) (<[cur_chunk_id c := content ++ bytes]> cs)
    (mkBlock (Z.of_nat (cur_chunk_id c)) (csize (cur_chunk c)) (Z.of_nat (length bytes)) Data
       (if drive_encrypts c then Aes256Gcm else ENone) comp) (TBlock n data).
Proof.
  intros Hcs Hsz Ho. exists (content ++ bytes). cbn [chunk_id offset blen kind]. rewrite !Nat2Z.id, Hsz, length_app, Nat2Z.id.
  split_and!; [apply list_lookup_insert_eq; by eapply lookup_lt_Some|lia|done|].
  unfold sl. rewrite drop_app_length, firstn_all. by rewrite Hsz in Ho.
Qed.

Context `{!HexLaws} `{!TapeCryptoLaws} `{!CompressorLaws}.

(** Encryption as the write path does it. *)
Lemma encrypt_step c mid {B} (k : list Z -> M B) Q :
  (forall bytes, (if drive_encrypts c
      then encrypt_block (from_option key [] (drive_encryption c))
        (derive_iv (uuid (manifest c)) (Z.of_nat (cur_chunk_id c)) (csize (cur_chunk c))) mid = Ok bytes
      else bytes = mid) ->
    Z.of_nat (length bytes) <= Z.of_nat (length mid) + Z.of_nat TAG_LEN -> wp (k bytes) Q c) ->
  Q c (Err EncryptionError) ->
  wp ((if match drive_encryption c with Some state => encrypt_on_write state | None => false end then
         match encrypt_block (from_option key [] (drive_encryption c))
           (derive_iv (uuid (manifest c)) (Z.of_nat (cur_chunk_id c)) (csize (cur_chunk c))) mid with
         | Ok x => mret x
         | Err _ => fail EncryptionError
         end
       else mret mid) ≫= k) Q c.
Proof.
  intros Hk He. change (match drive_encryption c with Some state => encrypt_on_write state | None => false end)
    with (drive_encrypts c). destruct (drive_encrypts c).
  - destruct (encrypt_block _ _ mid) as [bytes|] eqn:E; [|done]. apply wp_bind. apply Hk; [done|].
    rewrite (encrypt_length _ _ _ _ E). lia.
  - apply wp_bind. apply Hk; [done|]. lia.
Qed.

Definition write_key_of (c : Cartridge) : option (list Z) :=
  match drive_encryption c with Some s => if encrypt_on_write s then Some (key s) else None | None => None end.

Lemma store_bytes c recs cs content bytes n {B} (k : M B) Q :
  chunks_ok evicts c recs cs -> cs !! cur_chunk_id c = Some content ->
  wp k Q (block_stored c content bytes n) ->
  wp (append_staging bytes;;
      modify (fun c => c <| cur_chunk_hasher := cur_chunk_hasher c ++ bytes |>);;
      set_cur_chunk (fun r => r <| csize := csize r + Z.of_nat (length bytes) |>);;
      set_runtime (fun r => r <| host_bytes_written := sat_add64 (host_bytes_written r) n |>);; k) Q c.
Proof.
  intros Hc Hcs HQ. destruct (co_open _ _ _ _ Hc) as (content' & Hcs' & _ & _ & _ & Hst & Hh). simplify_eq.
  destruct (co_env _ _ _ _ Hc) as [_ Htorn]. apply wp_bind. eapply wp_append_staging; [done|done|].
  apply wp_modify, wp_modify, wp_modify. revert HQ. unfold block_stored. flat. exact id.
Qed.

Lemma store_block_spec c recs cs rss t n mid comp data :
  rep c recs cs rss t -> ((t_head t < length (items t))%nat -> in_place t = true) -> BlockIndex.fits (S (active_next_lba c)) ->
  csize (cur_chunk c) + Z.of_nat (length mid) + Z.of_nat TAG_LEN <= u32_max ->
  (if dce comp then compress_data (algorithm comp) data (level comp) else Ok data) = Ok mid ->
  wp (store_block n mid (if dce comp then Some (algorithm comp) else None)) (fun c' res =>
    exists cs' rss' t', rep c' recs cs' rss' t' /\
    match res with
    | Ok (lba, _) => lba = t_head t /\ t' = put (TBlock (write_key t) data) t
    | Err e => t' = t /\ block_failure e
    end) c.
Proof.
  intros Hrep Hin Hfit Hmax Hcomp. pose proof Hrep as [Hc Ht].
  destruct (co_open _ _ _ _ Hc) as (content & Hcs & Hn & Hsz & _).
  unfold store_block. apply wp_get. cbv zeta.
  apply encrypt_step; [|exists cs, rss, t; split; [done|by split; [|left]]]. intros bytes Henc Hlen.
  eapply store_bytes; [done|done|]. apply wp_of_result.
  pose proof (block_stored_ok c recs cs rss t content bytes n Hrep Hcs ltac:(lia)) as Hrep1.
  set (c1 := block_stored c content bytes n) in *.
  change (match drive_encryption c with Some state => encrypt_on_write state | None => false end) with (drive_encrypts c).
  destruct (encode_block_rec _ _ _ _ _ _) as [r|e] eqn:Er.
  2: { exists (<[cur_chunk_id c := content ++ bytes]> cs), rss, t. split; [done|]. split; [done|]. right.
       revert Er. unfold encode_block_rec. destruct (u32_max <? Z.of_nat _); [congruence|].
       by rewrite !(proj2 (Z.ltb_ge _ _)) by lia. }
  apply encode_block_spec in Er as [Hok ->]; [|lia|lia]. apply wp_get, wp_bind.
  eapply wp_mono; [eapply (record_spec c1)|].
  - exact Hrep1.
  - exact Hok.
  - apply (stored_record c cs content bytes data _ (write_key t)); [done|done|].
    unfold write_key. rewrite (tr_drive _ _ _ _ Ht). by apply (opens_back _ _ comp data mid).
  - done.
  - exact Hfit.
  - exact Hin.
  - intros c2 res (bs & rss' & -> & -> & Ht2). cbn beta iota.
    assert (Hrep2 : rep (c1 <| block_indexes := bs |> <| head_lba := S (t_head t) |>) recs
      (<[cur_chunk_id c := content ++ bytes]> cs) rss' (put (TBlock (write_key t) data) t)).
    { split; [|done]. by apply (chunks_frame _ c1), Hrep1. }
    eapply wp_mono; [exact (block_finish _ _ _ _ _ (t_head t, bytes) Hrep2)|].
    intros c3 res (-> & Hrep3). eexists _, _, _. split; [exact Hrep3|done].
Qed.

(** Failed with the tape ended at the head. *)
Definition write_failure (e : SmcError) : Prop := e = CompressionError \/ seal_error e \/ block_failure e.

Definition compressed (c : Cartridge) (bytes : list Z) : result (list Z) SmcError :=
  if dce (drive_compression c) then compress_data (algorithm (drive_compression c)) bytes (level (drive_compression c)) else Ok bytes.

(** The write keeps a block, and the indexes, within their width. *)
Definition write_fits (c : Cartridge) (bytes : list Z) : Prop :=
  (forall mid, compressed c bytes = Ok mid -> Z.of_nat (length mid) + Z.of_nat TAG_LEN <= u32_max) /\
  BlockIndex.fits (S (active_next_lba c)) /\ ChunkIndex.fits (2 + t_next (chunk_index c)).

Lemma block_fits_le m n : (m <= n)%nat -> BlockIndex.fits n -> BlockIndex.fits m.
Proof. unfold BlockIndex.fits, BlockIndex.record_offset. nia. Qed.

Lemma chunk_fits_le m n : (m <= n)%nat -> ChunkIndex.fits n -> ChunkIndex.fits m.
Proof. unfold ChunkIndex.fits, ChunkIndex.record_offset. nia. Qed.

Lemma cut_items t : t_parts t !! t_active t = Some (items t) -> (length (items (cut t)) <= length (items t))%nat.
Proof.
  intros Ep. unfold cut. case_match; [done|]. rewrite items_with by (by eapply lookup_lt_Some). rewrite length_take. lia.
Qed.

Lemma cut_in_place t :
  t_parts t !! t_active t = Some (items t) -> (t_head (cut t) < length (items (cut t)))%nat -> in_place (cut t) = true.
Proof.
  intros Ep Hlt. rewrite in_place_cut by done. unfold cut in Hlt. destruct (in_place t); [done|].
  rewrite items_with in Hlt by (by eapply lookup_lt_Some). rewrite length_take in Hlt. simpl in Hlt. lia.
Qed.

Lemma cut_head t : t_head (cut t) = t_head t.
Proof. unfold cut. by case_match. Qed.

Lemma cut_key t : write_key (cut t) = write_key t.
Proof. unfold cut. by case_match. Qed.

Lemma wp_writable_tape c cs rss t (Ht : tape_repr c cs rss t) b Q :
  (forall e, refused t b = Some e -> Q c (Err e)) -> (refused t b = None -> Q c (Ok tt)) -> wp (require_writable b) Q c.
Proof.
  intros He Hok. unfold require_writable, refused in *. apply wp_get. destruct (tr_gates _ _ _ _ Ht) as [Hw Hl].
  rewrite Hw, Hl, (tr_head _ _ _ _ Ht), <- (next_is_items _ _ _ _ Ht) in *.
  destruct (legal_held c); [by apply He|]. destruct (worm (manifest c) && _); [by apply He|by apply Hok].
Qed.

(** The outcome of the write of [data], [c'] being what it left. *)
Definition block_written (t : Tape) (recs : list ChunkRec) (data : list Z) (c' : Cartridge) (res : result (nat * list Z) SmcError) : Prop :=
  exists recs' cs' rss' t', rep c' recs' cs' rss' t' /\ (length recs' <= S (length recs))%nat /\
  match refused t true, res with
  | Some e, _ => res = Err e /\ t' = t
  | None, Ok (lba, _) => lba = t_head t /\ t' = put (TBlock (write_key t) data) t
  | None, Err e => (e = EndOfMedium /\ t' = t) \/ (write_failure e /\ t' = cut t)
  end.

Lemma rep_length c recs cs rss t : rep c recs cs rss t -> t_next (chunk_index c) = length recs.
Proof. intros [[] _]. by apply ChunkIndex.chunk_live_next. Qed.

Lemma write_block_spec data c recs cs rss t :
  rep c recs cs rss t -> seal_clean c -> write_fits c data ->
  wp (write_block data) (block_written t recs data) c.
Proof.
  intros Hrep Hclean (Hmid & Hbf & Hcf). pose proof Hrep as [Hc Ht]. rewrite (rep_length _ _ _ _ _ Hrep) in Hcf.
  destruct (active_index _ _ _ _ Ht) as (rs & _ & _ & _ & _ & _ & Ep).
  unfold write_block, block_written. apply wp_bind, (wp_writable_tape _ _ _ _ Ht); [intros e Er|intros Er]; rewrite Er.
  { exists recs, cs, rss, t. split; [done|]. split; [lia|done]. }
  apply wp_get. cbv zeta. apply wp_bind.
  apply wp_mono with (Q := fun c1 r => c1 = c /\ (r = Ok tt \/ r = Err EndOfMedium)).
  { destruct (effective_capacity_bytes c); [case_match|]; split; auto. }
  intros ? ? (-> & [-> | ->]); [|exists recs, cs, rss, t; split; [done|]; split; [lia|by left]].
  apply wp_bind. eapply wp_mono; [by eapply truncate_spec|]. intros c1 ? (-> & bs & rss1 & -> & Ht1). cbn beta iota.
  set (c1 := c <| block_indexes := bs |>) in *.
  assert (Hrep1 : rep c1 recs cs rss1 (cut t)) by (split; [by apply (chunks_frame _ c)|done]).
  apply wp_bind. apply wp_mono with (Q := fun c2 r => c2 = c1 /\ r = compressed c data).
  { unfold compressed. by destruct (dce _). }
  intros ? ? (-> & ->). destruct (compressed c data) as [mid|e] eqn:Em.
  2: { exists recs, cs, rss1, (cut t). split; [done|]. split; [lia|]. right. split; [|done]. left.
       revert Em. unfold compressed, compress_data, ok_or. repeat case_match; congruence. }
  specialize (Hmid mid eq_refl). apply wp_bind.
  eapply wp_mono; [apply (roll_spec evicts _ c1 recs cs)|]; [by apply Hrep1|exact Hclean|by eapply chunk_fits_le; [|exact Hcf]; lia|done|].
  intros c2 r (recs2 & cs2 & Hc2 & Hside & Hg & Hlen & Hr). pose proof (tape_frame _ _ _ _ _ _ (side_face _ _ Hside) Hg Ht1) as Ht2.
  destruct r as [[]|e]; [|exists recs2, cs2, rss1, (cut t); split; [done|]; split; [done|]; right; split; [right; by left|done]].
  eapply wp_mono; [eapply (store_block_spec c2 recs2 cs2 rss1 (cut t) _ mid (drive_compression c) data)|].
  - done.
  - by apply cut_in_place.
  - rewrite (next_is_items _ _ _ _ Ht2). eapply block_fits_le; [|exact Hbf]. rewrite (next_is_items _ _ _ _ Ht).
    apply le_n_S. by apply cut_items.
  - lia.
  - exact Em.
  - intros c3 res (cs3 & rss3 & t3 & Hrep3 & Hres). exists recs2, cs3, rss3, t3. split; [done|]. split; [done|].
    rewrite cut_key, cut_head, put_cut in Hres by done. destruct res as [[lba w]|e]; [done|].
    right. destruct Hres as [-> He]. split; [right; by right|done].
Qed.

(** A write that reports a refused seal or the early warning has written. *)
Definition write_outcome (t : Tape) (data : list Z) (res : result nat SmcError) (t' : Tape) : Prop :=
  match refused t true, res with
  | Some e, _ => res = Err e /\ t' = t
  | None, Ok lba => lba = t_head t /\ t' = put (TBlock (write_key t) data) t
  | None, Err e => (e = EndOfMedium /\ t' = t) \/ (write_failure e /\ t' = cut t) \/
      ((e = EarlyWarning \/ seal_error e) /\ t' = put (TBlock (write_key t) data) t)
  end.

Lemma cdc_seal_spec written c recs cs rss t :
  rep c recs cs rss t -> seal_clean c -> ChunkIndex.fits (S (length recs)) ->
  wp (maybe_cdc_seal_after_write written) (fun c' r => exists recs' cs', rep c' recs' cs' rss t /\ forall e, r = Err e -> seal_error e) c.
Proof.
  intros [Hc Ht] Hclean Hfit. unfold maybe_cdc_seal_after_write. apply wp_get.
  destruct (cdc_state c) as [sc|]; [|by exists recs, cs]. destruct (feed sc written) as [seal sc'].
  apply wp_modify. set (c1 := c <| cdc_state := Some sc' |>).
  assert (Hc1 : chunks_ok evicts c1 recs cs) by (by apply (chunks_frame _ c)).
  destruct seal; [|exists recs, cs; split; [|done]; split; [done|by apply (tape_frame c _ cs)]].
  eapply wp_mono; [by apply (seal_start_spec evicts c1 recs cs)|]. intros c' r (recs' & cs' & Hc' & Hs & Hcs & Hr).
  destruct (rolled_length _ _ _ _ _ _ _ Hc1 Hc' Hcs) as [Hg _]. exists recs', cs'. split.
  - split; [done|]. apply (tape_frame c _ cs); [exact (side_face _ _ Hs)|done..].
  - intros e ->. done.
Qed.

Lemma early_warning_spec c recs cs rss t :
  rep c recs cs rss t -> wp maybe_raise_early_warning (fun c' r => rep c' recs cs rss t /\ exists b, r = Ok b) c.
Proof.
  intros [Hc Ht]. unfold maybe_raise_early_warning. apply wp_get. repeat case_match; try (split; [done|by eexists]).
  apply wp_modify. split; [|by eexists]. split; [by apply (chunks_frame _ c)|]. by destruct Ht.
Qed.

Lemma warn_or_return c recs cs rss t {A} (a : A) :
  rep c recs cs rss t ->
  wp (ew ← maybe_raise_early_warning; if ew : bool then fail EarlyWarning else mret a)
    (fun c' r => rep c' recs cs rss t /\ (r = Ok a \/ r = Err EarlyWarning)) c.
Proof.
  intros Hrep. apply wp_bind. eapply wp_mono; [by apply early_warning_spec|].
  intros c' r (Hrep' & b & ->). destruct b; split; auto.
Qed.

Lemma write_data_spec data c recs cs rss t :
  rep c recs cs rss t -> seal_clean c -> seal_clean (write_block data c).1 -> write_fits c data ->
  wp (write_data data) (fun c' res => exists recs' cs' rss' t', rep c' recs' cs' rss' t' /\ write_outcome t data res t') c.
Proof.
  intros Hrep Hclean Hclean2 Hfits. pose proof (write_block_spec data c recs cs rss t Hrep Hclean Hfits) as Hw.
  unfold write_data. apply wp_bind. unfold wp in Hw |- *. destruct (write_block data c) as [c1 r].
  destruct Hw as (recs1 & cs1 & rss1 & t1 & Hrep1 & Hlen & Hr). destruct r as [[lba w]|e].
  2: { exists recs1, cs1, rss1, t1. split; [done|]. unfold write_outcome. destruct (refused t true).
       - destruct Hr as [[= ->] ->]. done.
       - tauto. }
  unfold write_outcome. destruct (refused t true); [by destruct Hr|]. destruct Hr as [-> ->]. apply wp_bind. destruct Hfits as (_ & _ & Hcf). rewrite (rep_length _ _ _ _ _ Hrep) in Hcf.
  eapply wp_mono; [apply (cdc_seal_spec w c1 recs1 cs1 rss1); [done|done|eapply chunk_fits_le; [|exact Hcf]; lia]|].
  intros c2 [[]|e] (recs2 & cs2 & Hrep2 & He).
  - eapply wp_mono; [exact (warn_or_return _ _ _ _ _ (t_head t) Hrep2)|]. intros c3 r (Hrep3 & Hr).
    exists recs2, cs2, rss1, (put (TBlock (write_key t) data) t). split; [done|]. destruct Hr as [-> | ->]; auto.
  - exists recs2, cs2, rss1, (put (TBlock (write_key t) data) t). split; [done|]. right. right. split; [|done]. right. by apply He.
Qed.

(** ** Filemarks *)

Definition bad_chunk_id : SmcError := InvalidOp "block-index encode: chunk_id exceeds u32::MAX".

Lemma push_filemark_spec c recs cs rss t :
  rep c recs cs rss t -> BlockIndex.fits (S (active_next_lba c)) ->
  wp push_filemark (fun c' res => exists rss',
    match res with
    | Ok lba => lba = length (items t) /\ cur_chunk_id c' = cur_chunk_id c /\ Z.of_nat (cur_chunk_id c) <= u32_max /\
        rep c' recs cs rss' (with_items (items t ++ [TMark]) (S (length (items t))) t)
    | Err e => c' = c /\ e = bad_chunk_id /\ u32_max < Z.of_nat (cur_chunk_id c)
    end) c.
Proof.
  intros Hrep Hfit. pose proof Hrep as [Hc Ht]. destruct (co_open _ _ _ _ Hc) as (content & Hcs & Hn & Hsz & Hmax & _).
  unfold push_filemark. apply wp_get, wp_of_result. unfold encode_block_rec.
  destruct (u32_max <? Z.of_nat (cur_chunk_id c)) eqn:E; bool_to_prop; [by exists rss|].
  rewrite !(proj2 (Z.ltb_ge _ _)) by (done || lia).
  eapply wp_mono; [eapply (append_rec_spec c recs cs rss t _ TMark)|].
  - done.
  - unfold block_ok, in_u32. cbn. unfold u32_max in *. lia.
  - exists content. cbn. rewrite Nat2Z.id. split_and!; [done|lia|done].
  - done.
  - done.
  - intros c' res (bs & rss' & -> & -> & Ht'). exists rss'. split_and!; [done|done|done|].
    split; [by apply (chunks_frame _ c)|done].
Qed.

Lemma push_filemarks_S n last : push_filemarks (S n) last = (lba ← push_filemark; push_filemarks n lba).
Proof. done. Qed.

Lemma push_filemarks_spec n last c recs cs rss t :
  rep c recs cs rss t -> BlockIndex.fits (S n + active_next_lba c) ->
  wp (push_filemarks (S n) last) (fun c' res => exists rss',
    match res with
    | Ok lba => lba = (length (items t) + n)%nat /\
        rep c' recs cs rss' (with_items (items t ++ replicate (S n) TMark) (length (items t) + S n) t)
    | Err e => c' = c /\ e = bad_chunk_id /\ u32_max < Z.of_nat (cur_chunk_id c)
    end) c.
Proof.
  revert last c rss t. induction n as [|n IH]; intros last c rss t Hrep Hfit; rewrite push_filemarks_S; apply wp_bind;
    (eapply wp_mono; [eapply push_filemark_spec; [exact Hrep|eapply block_fits_le; [|exact Hfit]; lia]|]);
    intros c1 [lba|e] (rss1 & H1'); try (by exists rss1); destruct H1' as (-> & Hid & Hle & Hrep1).
  - exists rss1. split; [lia|]. by rewrite Nat.add_1_r.
  - pose proof Hrep as [_ Ht]. pose proof Hrep1 as [_ Ht1].
    destruct (active_index _ _ _ _ Ht) as (rs & _ & _ & _ & _ & _ & Ep).
    assert (Hi : items (with_items (items t ++ [TMark]) (S (length (items t))) t) = items t ++ [TMark]).
    { apply items_with. by eapply lookup_lt_Some. }
    eapply wp_mono; [apply (IH _ _ _ _ Hrep1)|].
    + rewrite (next_is_items _ _ _ _ Ht1), Hi, length_app. rewrite (next_is_items _ _ _ _ Ht) in Hfit.
      eapply block_fits_le; [|exact Hfit]. simpl. lia.
    + intros c' [lba|e] (rss' & Hpost); exists rss'.
      * destruct Hpost as [-> Hrep']. rewrite Hi, length_app in Hrep' |- *. split; [simpl; lia|].
        rewrite with_items_twice, <- app_assoc in Hrep'. cbn [app replicate] in Hrep' |- *.
        replace (length (items t) + S (S n))%nat with (length (items t) + length [TMark] + S n)%nat by (simpl; lia). done.
      * destruct Hpost as (_ & _ & Hgt). rewrite Hid in Hgt. lia.
Qed.

Definition marks_outcome (t : Tape) (n : nat) (res : result nat SmcError) (t' : Tape) : Prop :=
  if bool_decide (n = 0)%nat then res = Ok (t_head t) /\ t' = t
  else
    match refused t true, res with
    | Some e, _ => res = Err e /\ t' = t
    | None, Ok lba => lba = pred (t_head t') /\ t' = put_marks n t
    | None, Err e => (e = EndOfMedium /\ t' = t) \/ (e = bad_chunk_id /\ t' = cut t) \/ (e = EarlyWarning /\ t' = put_marks n t)
    end.

Lemma write_filemarks_spec n c recs cs rss t :
  rep c recs cs rss t -> BlockIndex.fits (n + active_next_lba c) ->
  wp (write_filemarks n) (fun c' res => exists rss' t', rep c' recs cs rss' t' /\ marks_outcome t n res t') c.
Proof.
  intros Hrep Hfit. pose proof Hrep as [Hc Ht]. unfold write_filemarks. apply wp_get. unfold marks_outcome.
  destruct n as [|n]; [exists rss, t; split; [done|]; split; [by rewrite (tr_head _ _ _ _ Ht)|done]|].
  rewrite !bool_decide_eq_false_2 by done. apply wp_bind.
  apply wp_mono with (Q := fun c1 r => c1 = c /\
    match refused t true with Some e => r = Err e | None => r = Ok tt \/ r = Err EndOfMedium end).
  { unfold filemark_gates. apply wp_bind, (wp_writable_tape _ _ _ _ Ht); [intros e Er|intros Er]; rewrite Er; [done|].
    apply wp_get. destruct (effective_capacity_bytes c); [case_match|]; split; auto. }
  intros c1 r (-> & Hgate). destruct (refused t true) as [e|]; [subst r; by exists rss, t|].
  destruct Hgate as [-> | ->]; [|exists rss, t; split; [done|by left]].
  apply wp_bind. eapply wp_mono; [by eapply truncate_spec|]. intros c1 ? (-> & bs & rss1 & -> & Ht1). cbn beta iota.
  destruct (active_index _ _ _ _ Ht) as (rs & _ & _ & _ & _ & _ & Ep).
  assert (Hrep1 : rep (c <| block_indexes := bs |>) recs cs rss1 (cut t)) by (split; [by apply (chunks_frame _ c)|done]).
  apply wp_get, wp_bind. eapply wp_mono; [eapply (push_filemarks_spec n _ _ recs cs rss1 (cut t)); [done|]|].
  { rewrite (next_is_items _ _ _ _ Ht1). rewrite (next_is_items _ _ _ _ Ht) in Hfit.
    eapply block_fits_le; [|exact Hfit]. pose proof (cut_items t Ep). lia. }
  intros c2 [lba|e] (rss2 & Hpost).
  2: { destruct Hpost as (-> & -> & _). exists rss1, (cut t). split; [done|]. right. by left. }
  destruct Hpost as [-> Hrep2].
  assert (Hpm : with_items (items (cut t) ++ replicate (S n) TMark) (length (items (cut t)) + S n) (cut t) = put_marks (S n) t).
  { unfold put_marks. unfold cut at 3. case_match; [done|]. by rewrite with_items_twice. }
  rewrite Hpm in Hrep2. eapply wp_mono; [exact (warn_or_return _ _ _ _ _ _ Hrep2)|]. intros c3 r (Hrep3 & Hr).
  exists rss2, (put_marks (S n) t). split; [done|]. destruct Hr as [-> | ->].
  - split; [|done]. unfold put_marks. simpl. lia.
  - right. by right.
Qed.

(** One mark written alone. *)
Lemma write_filemark_one c : write_filemark c = write_filemarks 1 c.
Proof.
  cbv [write_filemark write_filemarks mbind EM_bind get push_filemarks mret EM_ret].
  rewrite bool_decide_eq_false_2 by done.
  destruct (filemark_gates c) as [c1 [[]|e]]; [|done]. destruct (truncate_from_head c1) as [c2 [[]|e]]; [|done].
  by destruct (push_filemark c2) as [c3 [lba|e]].
Qed.
End tape.
