(* ===== verification/CartridgeRead.v ===== *)
(** * Reading and moving on a cartridge

    READ returns the item of the tape under the head, or fails as the drive
    settings and the whereabouts of the chunk have it; SPACE in its batches
    moves as the walk a record at a time. *)

From Stdlib Require Import String.
From S2P Require Import Prelude Bytes ByteFile BTreeMap DirtyPages TrackedFile FastCdc StreamLru ChunkIndex BlockIndex IndexCodec PoolBudget Crypto StateError Cartridge CartridgeOps CartridgeOpen CartridgeInv Tape CartridgeTape.

Local Open Scope Z_scope.
Local Open Scope thur_scope.

Section reading.
Context `{VolumeCrypto} `{HexCodec} `{Compressor} (evicts overwrites : bool).
Context `{!HexLaws} `{!TapeCryptoLaws} `{!CompressorLaws}.
Local Notation rep := (rep evicts overwrites).
Local Notation chunks_ok := (chunks_ok evicts).
Local Notation sealed_ok := (sealed_ok evicts).

(** The record of a chunk, and the bytes the chunk stands for. *)
Definition chunk_at (c : Cartridge) (id : nat) (chunk : ChunkRec) (content : list Z) : Prop :=
  (id = cur_chunk_id c /\ chunk = cur_chunk c /\ staging_files c !! id = Some content /\ chash chunk = None) \/
  ((id < cur_chunk_id c)%nat /\ sealed_ok c id chunk content).

Lemma chunk_for_block c recs cs id content :
  chunks_ok c recs cs -> cs !! id = Some content ->
  exists chunk, read_chunk_rec_for_block c id = Ok chunk /\ chunk_at c id chunk content /\
    (id <> cur_chunk_id c -> recs !! id = Some chunk).
Proof.
  intros Hc Hcs. unfold read_chunk_rec_for_block, read_chunk_rec. case_bool_decide as Hid.
  - exists (cur_chunk c). subst id. destruct (co_open _ _ _ _ Hc) as (content' & Hcs' & (Hn & _) & _ & _ & Hst & _).
    simplify_eq. split; [done|]. split; [|done]. left. by rewrite Hst, lookup_singleton_eq.
  - apply lookup_lt_Some in Hcs as Hlt. rewrite (co_len _ _ _ _ Hc), (co_cur _ _ _ _ Hc) in Hlt.
    destruct (lookup_lt_is_Some_2 recs id) as [r Er]; [rewrite (co_cur _ _ _ _ Hc); lia|].
    rewrite (ChunkIndex.chunk_live_read _ _ _ (co_index _ _ _ _ Hc)). unfold ChunkIndex.read_spec. rewrite Er.
    exists r. split; [done|]. split; [|done]. right. split; [lia|]. eapply co_sealed; [done|lia|done|done].
Qed.

Lemma read_exact_in f off n : (off + n <= length f)%nat -> read_exact_at f off n = Some (sl off n f).
Proof.
  intros Hle. unfold read_exact_at, read_at, sl. cbv zeta. rewrite length_take, length_drop.
  by rewrite bool_decide_eq_false_2 by lia.
Qed.

(** The pool lacks the chunk. *)
Definition missing (c : Cartridge) (chunk : ChunkRec) : Prop := exists h, chash chunk = Some h /\ pool c !! h = None.

Lemma missing_evicts c id chunk content : sealed_ok c id chunk content -> missing c chunk -> evicts = true.
Proof. intros (_ & ct & _ & Hh & [Hp|[E _]] & _) (h & Hh' & Hp'); [|done]. rewrite Hh in Hh'. injection Hh' as <-. congruence. Qed.

(** The chunk decrypted last is remembered. *)
Lemma cache_ok c recs cs id content :
  chunks_ok c recs cs -> (id < cur_chunk_id c)%nat -> cs !! id = Some content ->
  chunks_ok (c <| last_decrypted_chunk := Some (id, content) |>) recs cs.
Proof. intros [] Hid Hcs. split; flat; try done. by intros ? ? [= <- <-]. Qed.

(** What the pool has under the chunk's digest is the sealed chunk. *)
Lemma sealed_pool c recs cs id chunk content :
  chunks_ok c recs cs -> sealed_ok c id chunk content ->
  exists ct, payload (at_rest_dek c) (uuid (manifest c)) id content = Some ct /\ chash chunk = Some (digest ct) /\
    (pool c !! digest ct = Some ct \/ (pool c !! digest ct = None /\ missing c chunk)).
Proof.
  intros Hc (_ & ct & Hp & Hh & Hstored & _). exists ct. split_and!; [done..|].
  destruct (pool c !! digest ct) as [x|] eqn:Ex; [|right; split; [done|by exists (digest ct)]]. left.
  destruct Hstored as [E|[_ E]]; [congruence|]. f_equal. by apply (co_store _ _ _ _ Hc (digest ct)).
Qed.

(** Only the decrypted chunk changed. *)
Definition recached (c c' : Cartridge) (recs : list ChunkRec) (cs : list (list Z)) : Prop :=
  (exists ld, c' = c <| last_decrypted_chunk := ld |>) /\ chunks_ok c' recs cs.

Lemma recached_refl c recs cs : chunks_ok c recs cs -> recached c c recs cs.
Proof. intros Hc. split; [|done]. exists (last_decrypted_chunk c). by destruct c. Qed.

Lemma decrypted_spec c recs cs id chunk content dek :
  chunks_ok c recs cs -> (id < cur_chunk_id c)%nat -> sealed_ok c id chunk content -> cs !! id = Some content ->
  at_rest_dek c = Some dek ->
  wp (decrypted_chunk dek id chunk) (fun c' r => recached c c' recs cs /\
    (r = Ok content \/ (r = Err Io /\ missing c chunk))) c.
Proof.
  intros Hc Hid Hs Hcs Ed. destruct (sealed_pool _ _ _ _ _ _ Hc Hs) as (ct & Hp & Hh & Hpool).
  pose proof (recached_refl _ _ _ Hc) as Hsame. unfold decrypted_chunk. apply wp_get.
  destruct (cached_plaintext c id) as [pt|] eqn:El.
  - split; [done|]. left. revert El. unfold cached_plaintext. destruct (last_decrypted_chunk c) as [[cid pt']|] eqn:El; [|done].
    case_bool_decide as Hcid; [|done]. intros [= ->]. subst cid. destruct (co_cache _ _ _ _ Hc _ _ El) as [_ E]. by simplify_eq.
  - apply wp_of_result. unfold open_chunk_for_read. rewrite Hh.
    destruct Hpool as [-> | [-> Hm]]; cbn [ok_or]; [|by split; [|right]].
    rewrite Ed in Hp. cbn [payload] in Hp. destruct (encrypt_block _ _ _) as [ct'|] eqn:Ee; [|done]. injection Hp as ->.
    rewrite (decrypt_encrypt _ _ _ _ Ee). apply wp_modify. split; [|by left]. split; [by eexists|]. by apply cache_ok.
Qed.

Lemma slice_spec c recs cs id chunk content off len :
  chunks_ok c recs cs -> chunk_at c id chunk content -> cs !! id = Some content -> (off + len <= length content)%nat ->
  wp (read_chunk_slice id chunk off len) (fun c' r => recached c c' recs cs /\
    (r = Ok (sl off len content) \/ (r = Err Io /\ missing c chunk))) c.
Proof.
  intros Hc Hat Hcs Hle. unfold read_chunk_slice. apply wp_get. pose proof (recached_refl _ _ _ Hc) as Hsame.
  destruct Hat as [(-> & -> & Hst & Hn)|(Hid & Hs)].
  { unfold open_chunk_for_read. rewrite Hn, Hst. destruct (at_rest_dek c); apply wp_of_result; cbn [ok_or];
      rewrite read_exact_in by done; (split; [done|by left]). }
  destruct (sealed_pool _ _ _ _ _ _ Hc Hs) as (ct & Hp & Hh & Hpool). rewrite Hh.
  destruct (at_rest_dek c) as [dek|] eqn:Ed.
  - apply wp_bind. eapply wp_mono; [by eapply decrypted_spec|]. intros c' r (Hrc & [-> | [-> Hm]]).
    + rewrite bool_decide_eq_false_2 by lia. split; [done|by left].
    + split; [done|by right].
  - cbn [payload] in Hp. injection Hp as ->. apply wp_of_result. unfold open_chunk_for_read. rewrite Hh.
    destruct Hpool as [-> | [-> Hm]]; cbn [ok_or]; [rewrite read_exact_in by done|]; (split; [done|auto]).
Qed.

(** ** A block *)

(** A block read with the drive's key, when it is the block's.  With another
    key the outcome is the cipher's. *)
Definition block_read (t : Tape) (k : option (list Z)) (data : list Z) (r : result (list Z) SmcError) : Prop :=
  match k, t_drive t with
  | None, _ => r = Ok data
  | Some _, None => r = Err (DataDecryptionError "encrypted block read without a drive key set")
  | Some k, Some s =>
      match decryption_mode s with
      | DecryptDisable => r = Err (DataDecryptionError "drive decryption mode disabled but block is encrypted")
      | _ => key s = k -> r = Ok data
      end
  end.

Lemma opened_block c t rec bytes k data sealed :
  t_drive t = drive_encryption c -> opens_to (uuid (manifest c)) rec bytes k data ->
  block_read t k data (try mid := maybe_decrypt c rec bytes in maybe_decompress rec mid sealed).
Proof.
  intros Hd (mid & Hk & Hc). unfold block_read, maybe_decrypt. rewrite Hd.
  assert (Hdec : maybe_decompress rec mid sealed = Ok data).
  { unfold maybe_decompress. destruct (compression rec); [|by subst]. by rewrite Hc. }
  destruct k as [k|].
  - destruct Hk as [Henc Hk]. assert (encrypted rec = true) as -> by (unfold encrypted; by rewrite Henc). cbn [negb].
    destruct (drive_encryption c) as [s|]; [|done]. destruct (decryption_mode s); try done; intros <-; by rewrite Hk.
  - destruct Hk as [Henc ->]. assert (encrypted rec = false) as -> by (unfold encrypted; by rewrite Henc). done.
Qed.

Lemma payload_spec c recs cs rss t rec chunk x :
  rep c recs cs rss t -> block_ok rec -> record_ok (uuid (manifest c)) cs rec x -> kind rec = Data ->
  (forall content, cs !! Z.to_nat (chunk_id rec) = Some content -> chunk_at c (Z.to_nat (chunk_id rec)) chunk content) ->
  wp (block_payload rec chunk) (fun c' r => rep c' recs cs rss t /\ exists k data, x = TBlock k data /\
    (block_read t k data r \/ (r = Err Io /\ missing c chunk))) c.
Proof.
  intros [Hc Ht] (_ & [Ho _] & [Hl _]) (content & Hcs & Hle & Hx) Hk Hat. destruct x as [|k data]; [congruence|]. destruct Hx as [_ Hx].
  unfold block_payload. apply wp_bind. eapply wp_mono; [eapply slice_spec; [done|by apply Hat|done|lia]|].
  intros c1 r (((ld & ->) & Hc1) & Hr).
  assert (Hrep1 : rep (c <| last_decrypted_chunk := ld |>) recs cs rss t) by (split; [done|by apply (tape_frame _ c _ cs)]).
  destruct Hr as [-> | [-> Hm]]; [|split; [done|]; exists k, data; auto].
  apply wp_get, wp_of_result. pose proof (opened_block c t rec _ k data (bool_decide (is_Some (chash chunk))) (tr_drive _ _ _ _ _ Ht) Hx) as Hread.
  change (maybe_decrypt (c <| last_decrypted_chunk := ld |>)) with (maybe_decrypt c).
  destruct (maybe_decrypt c rec _) as [mid|e]; [|split; [done|]; exists k, data; auto]. cbn [result_bind] in Hread.
  apply wp_of_result. destruct (maybe_decompress rec mid _) as [pt|e]; [|split; [done|]; exists k, data; auto].
  apply wp_modify. split; [|exists k, data; auto].
  split; [by apply (chunks_frame _ (c <| last_decrypted_chunk := ld |>))|]. by apply (tape_frame _ c _ cs).
Qed.

(** What a read of the item [x] at [lba] returns; a chunk that is not local
    may fail it. *)
Definition item_read (may_fail : Prop) (t : Tape) (x : Item) (lba : nat) (r : result Block SmcError) : Prop :=
  match x with
  | TMark => r = Ok (mkTapeBlock Filemark [] lba)
  | TBlock k data =>
      (may_fail /\ exists e, r = Err e) \/
      exists p, block_read t k data p /\ r = match p with Ok d => Ok (mkTapeBlock Data d lba) | Err e => Err e end
  end.

Lemma record_at c recs cs rss t lba x :
  rep c recs cs rss t -> items t !! lba = Some x ->
  exists rec, BlockIndex.read (block_index c (active_partition (runtime c))) lba = Ok rec /\ block_ok rec /\
    record_ok (uuid (manifest c)) cs rec x.
Proof.
  intros [_ Ht] Hx. destruct (active_index _ _ _ _ _ Ht) as (rs & _ & _ & Hl & Hi & _).
  destruct (Forall2_lookup_r _ _ _ _ _ Hi Hx) as (rec & Er & Hr). exists rec.
  rewrite (BlockIndex.block_live_read _ _ _ Hl). unfold BlockIndex.read_spec. rewrite Er.
  split_and!; [done| |done]. by eapply Forall_lookup_1; [eapply live_block_ok|].
Qed.

Lemma lru_ok c recs cs l :
  chunks_ok c recs cs -> StreamLru.next_id l = StreamLru.next_id (lru_index c) -> chunks_ok (c <| lru_index := l |>) recs cs.
Proof. intros [] Hl. split; flat; try done. by rewrite Hl. Qed.

(** The block once its chunk is at hand. *)
Lemma read_rest c recs cs rss t rec chunk x lba :
  rep c recs cs rss t -> block_ok rec -> record_ok (uuid (manifest c)) cs rec x -> kind rec = Data ->
  (forall content, cs !! Z.to_nat (chunk_id rec) = Some content -> chunk_at c (Z.to_nat (chunk_id rec)) chunk content) ->
  wp (plaintext ← block_payload rec chunk; mret (mkTapeBlock Data plaintext lba))
    (fun c' r => rep c' recs cs rss t /\ item_read (missing c chunk) t x lba r) c.
Proof.
  intros Hrep Hok Hr Hk Hat. apply wp_bind. eapply wp_mono; [by eapply payload_spec|].
  intros c' r (Hrep' & k & data & -> & Hread). destruct r as [pt|e]; (split; [done|]); unfold item_read.
  - destruct Hread as [Hread|[? _]]; [|done]. right. by exists (Ok pt).
  - destruct Hread as [Hread|[_ Hm]]; [right; by exists (Err e)|left; eauto].
Qed.

Lemma read_block_spec c recs cs rss t lba x :
  rep c recs cs rss t -> items t !! lba = Some x ->
  wp (read_block lba) (fun c' r => rep c' recs cs rss t /\ item_read (evicts = true) t x lba r) c.
Proof.
  intros Hrep Hx. destruct (record_at _ _ _ _ _ _ _ Hrep Hx) as (rec & Er & Hok & Hr). pose proof Hrep as [Hc Ht].
  unfold read_block. apply wp_get, wp_bind. unfold block_at. apply wp_get, wp_result. rewrite Er. cbn beta iota.
  pose proof Hr as (content & Hcs & Hle & Hkind). destruct (kind rec) eqn:Ek.
  - destruct (chunk_for_block _ _ _ _ _ Hc Hcs) as (chunk & -> & Hat & _). apply wp_of_result, wp_bind.
    apply wp_touch. { apply lookup_lt_Some in Hcs. rewrite (co_len _ _ _ _ Hc) in Hcs. pose proof (co_lru _ _ _ _ Hc). lia. }
    intros l Hl. eapply wp_mono; [eapply (read_rest (c <| lru_index := l |>)); [|exact Hok|exact Hr|done|]|].
    + split; [by apply lru_ok|by apply (tape_frame _ c _ cs)].
    + intros content' ?. by simplify_eq.
    + intros c' r (Hrep' & Hread). split; [done|]. destruct x as [|k data]; [done|]. destruct Hread as [[Hm He]|Hread]; [|by right].
      left. split; [|done]. destruct Hat as [(_ & -> & _ & Hn)|(_ & Hs)]; [|by eapply missing_evicts].
      destruct Hm as (h & Hh & _). congruence.
  - destruct x as [|k data]; [by split|]. destruct Hkind as [? _]. congruence.
Qed.

(** ** Fetching a chunk that is not local *)

(** The record of a sealed chunk changes where it is kept. *)
Lemma sealed_relabel c recs cs id r r' content idx :
  chunks_ok c recs cs -> (id < cur_chunk_id c)%nat -> cs !! id = Some content -> sealed_ok c id r' content ->
  ChunkIndex.live idx (<[id := r']> recs) ->
  recs !! id = Some r -> chunks_ok (c <| chunk_index := idx |>) (<[id := r']> recs) cs.
Proof.
  intros Hc Hid Hcs Hs Hl Hr. pose proof (co_cur _ _ _ _ Hc) as Hn. pose proof Hc as [].
  split; flat; try done; try by rewrite length_insert.
  - rewrite list_lookup_insert_ne by lia. done.
  - intros j rj ct Hj. destruct (decide (j = id)) as [->|Hne].
    + rewrite list_lookup_insert_eq by lia. intros [= <-] ?. by simplify_eq.
    + rewrite list_lookup_insert_ne by done. by apply co_sealed.
Qed.

(** The pool gains a copy of what the object store has. *)
Lemma fetch_ok c recs cs h ct b a :
  chunks_ok c recs cs -> storage c !! h = Some ct -> pool c !! h = None ->
  chunks_ok ((accounted c b a) <| pool := <[h := ct]> (pool c) |>) recs cs.
Proof.
  intros Hc Hst Hp. pose proof Hc as []. split; unfold accounted; flat; try done.
  - intros id r content Hid Hr Hcs. apply (sealed_pool_mono evicts c); [done..| |by apply (co_sealed id)].
    intros h' x Hx. destruct (decide (h' = h)) as [->|Hne]; [congruence|]. flat. by rewrite lookup_insert_ne.
  - intros h' x y. flat. destruct (decide (h' = h)) as [->|Hne].
    + rewrite lookup_insert_eq. congruence.
    + rewrite lookup_insert_ne by done. apply co_store.
Qed.

Lemma chunk_ok_sealed c recs cs id r r' :
  chunks_ok c recs cs -> recs !! id = Some r -> csize r' = csize r -> chash r' = chash r -> chunk_ok r'.
Proof.
  intros Hc Hr Hs Hh. destruct (co_index _ _ _ _ Hc) as ([_ _ _ Hok] & _). eapply Forall_lookup_1 in Hok; [|exact Hr].
  destruct Hok as [H1' H2']. split; [by rewrite Hs|by rewrite Hh].
Qed.

(** Updating the record of a sealed chunk, its size and digest kept. *)
Lemma update_sealed_spec c recs cs id r r' content :
  chunks_ok c recs cs -> (id < cur_chunk_id c)%nat -> recs !! id = Some r -> cs !! id = Some content -> sealed_ok c id r' content ->
  csize r' = csize r -> chash r' = chash r ->
  wp (update_chunk_rec id r') (fun c' res => res = Ok tt /\ exists idx, c' = c <| chunk_index := idx |> /\
    chunks_ok c' (<[id := r']> recs) cs) c.
Proof.
  intros Hc Hid Hr Hcs Hs Hsz Hh. unfold update_chunk_rec. apply wp_get. rewrite bool_decide_eq_false_2 by lia.
  destruct (ChunkIndex.chunk_live_overwrite _ _ id r' (co_index _ _ _ _ Hc)) as (idx & Ei & Hl).
  { by eapply chunk_ok_sealed. }
  { by eapply lookup_lt_Some. }
  apply wp_bind. unfold overwrite_chunk. apply wp_get, wp_of_result. rewrite Ei.
  split; [done|]. exists idx. split; [done|]. by eapply sealed_relabel.
Qed.

(** The pool has the bytes after the insert, whether it had them before. *)
Lemma tape_insert_verified_spec c recs cs h ct a {B} (k : M B) Q :
  chunks_ok c recs cs -> storage c !! h = Some ct -> h = digest ct ->
  (forall x, pool c !! h = Some x -> x = ct) ->
  (forall b, chunks_ok ((accounted c b a) <| pool := <[h := ct]> (pool c) |>) recs cs ->
    wp k Q ((accounted c b a) <| pool := <[h := ct]> (pool c) |>)) ->
  wp (was_new ← insert_verified_bytes h ct;
      (if was_new : bool
       then modify (fun c => c <| pool_budget := force_reserve (pool_budget c) (Z.of_nat (length ct)) (dedup_namespace (manifest c)) |>)
       else mret tt);; k) Q (accounted c (pool_budget c) a).
Proof.
  intros Hc Hst Hh Hx HQ. apply wp_bind. unfold insert_verified_bytes. apply wp_get.
  change (pool (accounted c (pool_budget c) a)) with (pool c). destruct (pool c !! h) as [x|] eqn:Ex.
  - specialize (Hx x eq_refl) as ->. specialize (HQ (pool_budget c)). rewrite insert_id in HQ by done.
    apply HQ. by apply (chunks_frame _ c).
  - rewrite bool_decide_eq_false_2 by (intros []; done). destruct (co_env _ _ _ _ Hc) as [Hio _].
    apply wp_bind, wp_pool_call; [done|]. apply wp_modify.
    specialize (HQ (force_reserve (pool_budget c) (Z.of_nat (length ct)) (dedup_namespace (manifest c))) (fetch_ok _ _ _ _ _ _ _ Hc Hst Ex)).
    revert HQ. unfold accounted, wp. flat. exact id.
Qed.

Lemma refetch_spec c recs cs id chunk content h :
  chunks_ok c recs cs -> (id < cur_chunk_id c)%nat -> recs !! id = Some chunk -> cs !! id = Some content ->
  chash chunk = Some h -> (pool c !! h = None \/ location chunk = StorageOnly) ->
  wp (refetch id chunk h) (fun c' r => exists recs', chunks_ok c' recs' cs /\ face c' = face c /\
    match r with
    | Ok chunk' => chunk_at c' id chunk' content /\ ~ missing c' chunk'
    | Err _ => evicts = true /\ (storage_backend c = false \/ answers (env c) <> [])
    end) c.
Proof.
  intros Hc Hid Hr Hcs Hh Haway. pose proof (co_sealed _ _ _ _ Hc id chunk content Hid Hr Hcs) as Hs.
  pose proof Hs as (Hsz & ct & Hp & Hh' & Hstored & Hup & Hloc). rewrite Hh in Hh'. injection Hh' as ->.
  assert (Hev : evicts = true /\ storage c !! digest ct = Some ct).
  { destruct Haway as [Hn|Hso]; [destruct Hstored as [E|E]; [congruence|done]|]. destruct (Hloc Hso) as [? ?]. auto. }
  destruct Hev as [Hev Hst].
  assert (Hx : forall x, pool c !! digest ct = Some x -> x = ct) by (intros x E; by apply (co_store _ _ _ _ Hc (digest ct))).
  unfold refetch. apply wp_get. destruct (storage_backend c) eqn:Eb; apply wp_bind; [|exists recs; split_and!; auto].
  apply wp_bind, wp_answer. intros b a Hans. apply wp_bind. destruct b.
  2: { exists recs. split_and!; [by apply (chunks_frame _ c)|done|done|]. right. intros E. by specialize (Hans E). }
  apply wp_result. rewrite Hst. cbn [ok_or].
  eapply tape_insert_verified_spec; [done..|]. intros b Hc1. set (c1 := _ <| pool := _ |>) in *.
  assert (Hs1 : sealed_ok c1 id (chunk <| location := Both |>) content).
  { split; [done|]. exists ct. split_and!; [done|done| |done|done]. left. by apply lookup_insert_eq. }
  apply wp_bind. eapply wp_mono; [by eapply (update_sealed_spec c1 recs cs id chunk)|]. intros c2 r (-> & idx & -> & Hc2). cbn beta iota.
  assert (Hlt : (id < StreamLru.next_id (lru_index c))%nat).
  { pose proof (co_lru _ _ _ _ Hc). pose proof (co_cur _ _ _ _ Hc). lia. }
  apply wp_bind, wp_touch; [exact Hlt|]. intros l Hl. apply wp_modify.
  pose proof (lru_ok _ _ _ l Hc2 Hl) as Hc3. eexists. split; [eapply chunks_frame; [|exact Hc3]; reflexivity|].
  split; [done|]. split; [right; split; [done|exact Hs1]|].
  intros (h & Hh2 & Hp2). revert Hh2 Hp2. cbn [chash update]. rewrite Hh. intros [= <-]. unfold c1. flat. by rewrite lookup_insert_eq.
Qed.

(** The chunk is at hand, unless the store did not return it. *)
Definition fetched (c : Cartridge) (cs : list (list Z)) (id : nat) (content : list Z) (c' : Cartridge) (r : result ChunkRec SmcError) : Prop :=
  exists recs', chunks_ok c' recs' cs /\ face c' = face c /\
  match r with
  | Ok chunk => chunk_at c' id chunk content /\ ~ missing c' chunk
  | Err _ => evicts = true /\ (storage_backend c = false \/ answers (env c) <> [])
  end.

Lemma local_spec c recs cs id chunk content :
  chunks_ok c recs cs -> cs !! id = Some content -> chunk_at c id chunk content -> ~ missing c chunk ->
  wp (touch id;; mret chunk) (fetched c cs id content) c.
Proof.
  intros Hc Hcs Hat Hm. apply wp_bind, wp_touch.
  { apply lookup_lt_Some in Hcs. rewrite (co_len _ _ _ _ Hc) in Hcs. pose proof (co_lru _ _ _ _ Hc). lia. }
  intros l Hl. exists recs. split; [by apply lru_ok|]. done.
Qed.

Lemma at_hand_spec c recs cs id chunk content :
  chunks_ok c recs cs -> cs !! id = Some content -> chunk_at c id chunk content ->
  (id <> cur_chunk_id c -> recs !! id = Some chunk) ->
  wp (match chash chunk with
      | Some h =>
          match location chunk, pool c !! h with
          | LocalOnly, Some _ | Both, Some _ => touch id;; mret chunk
          | _, _ => refetch id chunk h
          end
      | None => touch id;; mret chunk
      end) (fetched c cs id content) c.
Proof.
  intros Hc Hcs Hat Hrec. pose proof Hat as [(_ & _ & _ & Hn)|(Hid & Hs)].
  { rewrite Hn. eapply local_spec; [done..|]. intros (h & Hh & _). congruence. }
  destruct Hs as (_ & ct & _ & Hh & _). rewrite Hh.
  assert (Hre : pool c !! digest ct = None \/ location chunk = StorageOnly ->
    wp (refetch id chunk (digest ct)) (fetched c cs id content) c)
    by (intros ?; eapply refetch_spec; [done..|apply Hrec; lia|done|done|done]).
  assert (Hloc : is_Some (pool c !! digest ct) -> wp (touch id;; mret chunk) (fetched c cs id content) c).
  { intros [x Ex]. eapply local_spec; [done..|]. intros (h & Hh2 & Hp2). congruence. }
  destruct (location chunk) eqn:El, (pool c !! digest ct) eqn:Ep; auto.
Qed.

(** A read that may fetch its chunk; it fails only on an evicted chunk that
    the store does not return. *)
Lemma read_block_async_spec c recs cs rss t lba x :
  rep c recs cs rss t -> items t !! lba = Some x ->
  wp (read_block_async lba) (fun c' r => exists recs', rep c' recs' cs rss t /\
    item_read (evicts = true /\ (storage_backend c = false \/ answers (env c) <> [])) t x lba r) c.
Proof.
  intros Hrep Hx. destruct (record_at _ _ _ _ _ _ _ Hrep Hx) as (rec & Er & Hok & Hr). pose proof Hrep as [Hc Ht].
  unfold read_block_async. apply wp_get, wp_bind. unfold block_at. apply wp_get, wp_result. rewrite Er. cbn beta iota.
  pose proof Hr as (content & Hcs & Hle & Hkind). destruct (kind rec) eqn:Ek.
  2: { exists recs. destruct x as [|k data]; [by split|]. destruct Hkind as [? _]. congruence. }
  destruct x as [|k data]; [congruence|].
  destruct (chunk_for_block _ _ _ _ _ Hc Hcs) as (chunk & -> & Hat & Hrec). apply wp_of_result, wp_bind.
  eapply wp_mono; [by eapply at_hand_spec|]. intros c1 r (recs1 & Hc1 & Hface & Hr1).
  assert (Hrep1 : rep c1 recs1 cs rss t) by (split; [done|by apply (tape_frame _ c _ cs)]).
  destruct r as [chunk'|e]; [|exists recs1; split; [done|]; left; split; [done|by exists e]]. destruct Hr1 as [Hat1 Hm].
  assert (Hu : uuid (manifest c1) = uuid (manifest c)) by (by injection Hface).
  eapply wp_mono; [eapply (read_rest c1); [exact Hrep1|exact Hok|by rewrite Hu|done|intros ? ?; by simplify_eq]|].
  intros c2 r2 (Hrep2 & Hread). exists recs1. split; [done|]. destruct Hread as [[? _]|Hread]; [done|by right].
Qed.

(** ** The head *)

Lemma rep_head c recs cs rss t h :
  rep c recs cs rss t -> (h <= length (items t))%nat -> rep (c <| head_lba := h |>) recs cs rss (with_head h t).
Proof. intros [Hc []] Hh. split; [by apply (chunks_frame _ c)|]. by split. Qed.

Definition read_outcome (may_fail : Prop) (t : Tape) (r : result Block SmcError) (t' : Tape) : Prop :=
  match items t !! t_head t with
  | None => r = Err EndOfData /\ t' = t
  | Some x => item_read may_fail t x (t_head t) r /\ t' = match r with Ok _ => with_head (S (t_head t)) t | Err _ => t end
  end.

Lemma advance_spec c recs cs rss t {A} (a : A) :
  rep c recs cs rss t -> (t_head t < length (items t))%nat ->
  wp (advance;; mret a) (fun c' r => r = Ok a /\ rep c' recs cs rss (with_head (S (t_head t)) t)) c.
Proof.
  intros Hrep Hlt. apply wp_modify. split; [done|]. rewrite <- (tr_head _ _ _ _ _ (proj2 Hrep)). by apply rep_head.
Qed.

Lemma head_cases c recs cs rss t :
  rep c recs cs rss t ->
  (at_eod c = true /\ items t !! t_head t = None) \/
  (at_eod c = false /\ (t_head t < length (items t))%nat /\ exists x, items t !! t_head t = Some x).
Proof.
  intros [_ Ht]. unfold at_eod. rewrite (next_is_items _ _ _ _ _ Ht), <- (tr_head _ _ _ _ _ Ht). case_bool_decide as Hle.
  - left. split; [done|]. by apply lookup_ge_None.
  - right. split_and!; [done|lia|]. apply lookup_lt_is_Some. lia.
Qed.

Lemma read_next_spec c recs cs rss t :
  rep c recs cs rss t ->
  wp read_next (fun c' r => exists t', rep c' recs cs rss t' /\ read_outcome (evicts = true) t r t') c.
Proof.
  intros Hrep. unfold read_next, read_outcome. apply wp_get.
  destruct (head_cases _ _ _ _ _ Hrep) as [(-> & ->)|(-> & Hlt & x & Hx)]; [by exists t|].
  rewrite Hx, <- (tr_head _ _ _ _ _ (proj2 Hrep)). apply wp_bind.
  eapply wp_mono; [by eapply read_block_spec|]. intros c1 [blk|e] (Hrep1 & Hread); [|by exists t].
  eapply wp_mono; [by eapply advance_spec|]. intros c2 r (-> & Hrep2). by eexists.
Qed.

Lemma read_next_async_spec c recs cs rss t :
  rep c recs cs rss t ->
  wp read_next_async (fun c' r => exists recs' t', rep c' recs' cs rss t' /\
    read_outcome (evicts = true /\ (storage_backend c = false \/ answers (env c) <> [])) t r t') c.
Proof.
  intros Hrep. unfold read_next_async, read_outcome. apply wp_get.
  destruct (head_cases _ _ _ _ _ Hrep) as [(-> & ->)|(-> & Hlt & x & Hx)]; [by exists recs, t|].
  rewrite Hx, <- (tr_head _ _ _ _ _ (proj2 Hrep)). apply wp_bind.
  eapply wp_mono; [by eapply read_block_async_spec|]. intros c1 [blk|e] (recs1 & Hrep1 & Hread); [|by exists recs1, t].
  eapply wp_mono; [by eapply advance_spec|]. intros c2 r (-> & Hrep2). by eexists _, _.
Qed.
End reading.
