(* ===== verification/CartridgeMotion.v ===== *)
(** * SPACE

    The walks of SPACE read the block index in batches of up to 4096
    records; they end where the walk a record at a time ends, with its count
    and filemark, and their fuel suffices. *)

From Stdlib Require Import String.
From S2P Require Import Prelude Bytes ByteFile BTreeMap DirtyPages TrackedFile FastCdc StreamLru ChunkIndex BlockIndex IndexCodec PoolBudget Crypto StateError Cartridge CartridgeOps CartridgeOpen CartridgeInv Tape CartridgeTape CartridgeRead.

Local Open Scope Z_scope.
Local Open Scope thur_scope.

(** The record of an item. *)
Definition kind_of (x : Item) : BlockKind := match x with TMark => Filemark | TBlock _ _ => Data end.
Definition kinds (rs : list BlockRec) (l : list Item) : Prop := Forall2 (fun r x => kind r = kind_of x) rs l.

Definition at_head (c : Cartridge) (h : nat) : Cartridge := c <| head_lba := h |>.

(** Two positions and counts are the same numbers. *)
Ltac moved_eq := apply (f_equal2 pair); [apply f_equal; lia|apply f_equal, (f_equal2 pair); [lia|done]].

(** ** The walk, cut into batches *)

Lemma skip_blocks_0 l : skip_blocks l 0 = (0%nat, false).
Proof. by destruct l as [|[]]. Qed.

Lemma skip_blocks_bound l n : ((skip_blocks l n).1 + b2n (skip_blocks l n).2 <= length l)%nat /\ ((skip_blocks l n).1 <= n)%nat.
Proof.
  revert l. induction n as [|n IH]; intros [|[|k d] l]; simpl; try lia.
  specialize (IH l). destruct (skip_blocks l n) as [m hit]. simpl in *. lia.
Qed.

Lemma skip_blocks_split l k n :
  (n <= k)%nat -> (n <= length l)%nat ->
  skip_blocks l k =
    match skip_blocks (take n l) n with
    | (m, true) => (m, true)
    | (_, false) => let (m, hit) := skip_blocks (drop n l) (k - n) in ((n + m)%nat, hit)
    end.
Proof.
  revert l k. induction n as [|n IH]; intros l k Hk Hl; simpl.
  - rewrite drop_0, Nat.sub_0_r. by destruct (skip_blocks l k).
  - destruct l as [|x l]; simpl in Hl; [lia|]. destruct k as [|k]; [lia|]. destruct x as [|key d]; [done|]. simpl.
    rewrite (IH l k) by lia. destruct (skip_blocks (take n l) n) as [m []]; [done|].
    by destruct (skip_blocks (drop n l) (k - n)).
Qed.

(** Without a filemark the whole batch is crossed. *)
Lemma skip_blocks_all l m : skip_blocks l (length l) = (m, false) -> m = length l.
Proof.
  revert m. induction l as [|x l IH]; intros m; simpl; [congruence|]. destruct x; [done|].
  destruct (skip_blocks l (length l)) as [m' hit]. intros [= <- ->]. f_equal. by apply IH.
Qed.

Lemma skip_marks_bound l n :
  ((skip_marks l n).1 <= length l)%nat /\ ((skip_marks l n).2 <= n)%nat /\ ((skip_marks l n).2 <= (skip_marks l n).1)%nat.
Proof.
  revert n. induction l as [|x l IH]; intros n; [destruct n; simpl; lia|]. destruct n as [|n]; [destruct x; simpl; lia|].
  destruct x as [|k d]; simpl.
  - specialize (IH n). destruct (skip_marks l n). simpl in *. lia.
  - specialize (IH (S n)). destruct (skip_marks l (S n)). simpl in *. lia.
Qed.

Lemma skip_marks_0 l : skip_marks l 0 = (0%nat, 0%nat).
Proof. by destruct l. Qed.

(** Too few filemarks: the whole length is crossed. *)
Lemma skip_marks_all l k m j : skip_marks l k = (m, j) -> j <> k -> m = length l.
Proof.
  revert k m j. induction l as [|x l IH]; intros [|k] m j; simpl; try congruence.
  destruct x as [|key d].
  - destruct (skip_marks l k) as [m' j'] eqn:E. intros [= <- <-] Hne. f_equal. apply (IH k m' j'); [done|lia].
  - destruct (skip_marks l (S k)) as [m' j'] eqn:E. intros [= <- <-] Hne. f_equal. by apply (IH (S k) m' j').
Qed.

(** Two lengths of tape one after the other. *)
Lemma skip_marks_app l1 l2 k :
  skip_marks (l1 ++ l2) k =
    let (m, j) := skip_marks l1 k in
    if bool_decide (j = k) then (m, j) else let (m2, j2) := skip_marks l2 (k - j) in ((length l1 + m2)%nat, (j + j2)%nat).
Proof.
  revert k. induction l1 as [|x l1 IH]; intros k; simpl.
  - destruct k; simpl; [by rewrite skip_marks_0|]. by destruct (skip_marks l2 (S k)).
  - destruct k as [|k]; [by destruct x; simpl|]. destruct x as [|key d]; rewrite IH.
    + destruct (skip_marks l1 k) as [m j]. case_bool_decide; case_bool_decide; try lia; simplify_eq; [done|].
      simpl. by destruct (skip_marks l2 (k - j)).
    + destruct (skip_marks l1 (S k)) as [m j]. case_bool_decide; [done|]. by destruct (skip_marks l2 (S k - j)).
Qed.

(** ** The walks of the code *)

Section motion.
Context (c : Cartridge) (rs : list BlockRec) (l : list Item).
Context (Hlive : BlockIndex.live (block_index c (active_partition (runtime c))) rs) (Hkinds : kinds rs l).

Lemma kinds_length : length rs = length l.
Proof. by eapply Forall2_length. Qed.

Lemma run_at h lba n :
  (lba + n <= length rs)%nat ->
  block_run_at (active_partition (runtime c)) lba n (at_head c h) = (at_head c h, Ok (map Ok (take n (drop lba rs)))).
Proof.
  intros Hle. unfold block_run_at. rewrite run_bind. cbn [get of_result].
  change (block_index (at_head c h)) with (block_index c). unfold of_result.
  rewrite (BlockIndex.block_live_read_run _ _ _ _ Hlive). unfold BlockIndex.read_run_spec. by rewrite bool_decide_eq_true_2.
Qed.

Lemma walk_forward_spec rs' l' h moved :
  kinds rs' l' ->
  walk_forward (map Ok rs') moved (at_head c h) =
    let (m, hit) := skip_blocks l' (length l') in (at_head c (h + m + b2n hit), Ok (moved + Z.of_nat m, hit)).
Proof.
  intros Hk. revert h moved. induction Hk as [|r x rs' l' Hr Hk IH]; intros h moved; simpl walk_forward.
  - unfold mret, EM_ret. simpl. by rewrite !Nat.add_0_r, Z.add_0_r.
  - rewrite run_bind. cbn [of_result]. rewrite run_bind. unfold advance, modify. rewrite Hr.
    change ((at_head c h) <| head_lba := S (head_lba (at_head c h)) |>) with (at_head c (S h)). destruct x as [|k d]; simpl.
    + unfold mret, EM_ret. by rewrite Nat.add_0_r, Nat.add_1_r, Z.add_0_r.
    + rewrite IH. destruct (skip_blocks l' (length l')) as [m hit]. moved_eq.
Qed.

(** Forward: the fuel is more than the records ahead. *)
Lemma space_forward_spec fuel delta h moved :
  (h <= length l)%nat -> (length l - h < fuel)%nat ->
  space_forward fuel delta (length l) moved (at_head c h) =
    let (m, hit) := skip_blocks (drop h l) (Z.to_nat (delta - moved)) in
    (at_head c (h + m + b2n hit), Ok (moved + Z.of_nat m, hit)).
Proof.
  revert h moved. induction fuel as [|fuel IH]; intros h moved Hh Hf; [lia|]. cbn [space_forward]. rewrite run_bind. cbn [get].
  change (head_lba (at_head c h)) with h. change (active_partition (runtime (at_head c h))) with (active_partition (runtime c)).
  assert (Hstop : skip_blocks (drop h l) (Z.to_nat (delta - moved)) = (0%nat, false) ->
    mret (M := M) (moved, false) (at_head c h) = let (m, hit) := skip_blocks (drop h l) (Z.to_nat (delta - moved)) in
    (at_head c (h + m + b2n hit), Ok (moved + Z.of_nat m, hit))).
  { intros ->. unfold mret, EM_ret. cbn. by rewrite !Nat.add_0_r, Z.add_0_r. }
  destruct (moved <? delta) eqn:Ed; bool_to_prop; simpl andb.
  2: { apply Hstop. replace (Z.to_nat (delta - moved)) with 0%nat by lia. apply skip_blocks_0. }
  case_bool_decide as Hlt.
  2: { apply Hstop. rewrite drop_ge by lia. by destruct (Z.to_nat _). }
  set (n := Z.to_nat _). assert (Hn : (0 < n <= length l - h)%nat /\ (n <= Z.to_nat (delta - moved))%nat).
  { unfold n, SPACE_WALK_BATCH. lia. }
  assert (Htl : length (take n (drop h l)) = n) by (rewrite length_take, length_drop; lia).
  cbn [andb]. rewrite run_bind, run_at by (rewrite kinds_length; lia). rewrite run_bind.
  rewrite (walk_forward_spec _ (take n (drop h l))) by (by apply Forall2_take, Forall2_drop).
  rewrite (skip_blocks_split (drop h l) _ n) by (rewrite ?length_drop; lia). rewrite Htl.
  destruct (skip_blocks (take n (drop h l)) n) as [m hit] eqn:Es. destruct hit.
  - done.
  - assert (m = n) as -> by (rewrite <- Htl at 1; apply skip_blocks_all; by rewrite Htl).
    cbn [b2n]. rewrite Nat.add_0_r, IH by lia. rewrite drop_drop.
    replace (Z.to_nat (delta - (moved + Z.of_nat n))) with (Z.to_nat (delta - moved) - n)%nat by lia.
    destruct (skip_blocks (drop (h + n) l) _) as [m hit]. moved_eq.
Qed.

(** The batch behind the head, nearest first, and what is beyond it. *)
Lemma batch_split {A} (l0 : list A) h n :
  (n <= h <= length l0)%nat -> rev (take h l0) = rev (take n (drop (h - n) l0)) ++ rev (take (h - n) l0).
Proof. intros Hn. rewrite <- rev_app_distr, take_take_drop. do 2 f_equal. lia. Qed.

Lemma batch_behind {A} (l0 : list A) h n :
  (n <= h <= length l0)%nat -> rev (take n (drop (h - n) l0)) = take n (rev (take h l0)).
Proof.
  intros Hn. rewrite (batch_split l0 h n) by done. rewrite take_app_length'; [done|].
  rewrite length_rev, length_take, length_drop. lia.
Qed.

Lemma batch_beyond {A} (l0 : list A) h n :
  (n <= h <= length l0)%nat -> drop n (rev (take h l0)) = rev (take (h - n) l0).
Proof.
  intros Hn. rewrite (batch_split l0 h n) by done. rewrite drop_app_length'; [done|].
  rewrite length_rev, length_take, length_drop. lia.
Qed.

Lemma kinds_rev rs' l' : kinds rs' l' -> kinds (rev rs') (rev l').
Proof. intros Hk. unfold kinds. rewrite !rev_alt. by apply Forall2_reverse. Qed.

Lemma walk_backward_spec rs' l' h moved :
  kinds rs' l' -> (length l' <= h)%nat ->
  walk_backward (map Ok rs') moved (at_head c h) =
    let (m, hit) := skip_blocks l' (length l') in (at_head c (h - m - b2n hit), Ok (moved - Z.of_nat m, hit)).
Proof.
  intros Hk. revert h moved. induction Hk as [|r x rs' l' Hr Hk IH]; intros h moved Hh; cbn [map walk_backward].
  - unfold mret, EM_ret. simpl. by rewrite !Nat.sub_0_r, Z.sub_0_r.
  - rewrite run_bind. cbn [of_result]. rewrite run_bind. unfold modify. rewrite Hr.
    change ((at_head c h) <| head_lba := pred (head_lba (at_head c h)) |>) with (at_head c (pred h)).
    cbn [length] in Hh. destruct x as [|k d]; cbn [length skip_blocks kind_of b2n].
    + unfold mret, EM_ret. by rewrite Nat.sub_0_r, Nat.sub_1_r, Z.sub_0_r.
    + rewrite IH by lia. destruct (skip_blocks l' (length l')) as [m hit]. moved_eq.
Qed.

Lemma space_backward_spec fuel delta h moved :
  (h <= length l)%nat -> (h < fuel)%nat -> - 2 ^ 63 <= delta -> moved <= 0 ->
  space_backward fuel delta moved (at_head c h) =
    let (m, hit) := skip_blocks (rev (take h l)) (Z.to_nat (moved - delta)) in
    (at_head c (h - m - b2n hit), Ok (moved - Z.of_nat m, hit)).
Proof.
  intros Hh Hf Hdelta. revert h moved Hh Hf. induction fuel as [|fuel IH]; intros h moved Hh Hf Hm; [lia|].
  cbn [space_backward]. rewrite run_bind. cbn [get].
  change (head_lba (at_head c h)) with h. change (active_partition (runtime (at_head c h))) with (active_partition (runtime c)).
  assert (Hstop : skip_blocks (rev (take h l)) (Z.to_nat (moved - delta)) = (0%nat, false) ->
    mret (M := M) (moved, false) (at_head c h) = let (m, hit) := skip_blocks (rev (take h l)) (Z.to_nat (moved - delta)) in
    (at_head c (h - m - b2n hit), Ok (moved - Z.of_nat m, hit))).
  { intros ->. unfold mret, EM_ret. cbn. by rewrite !Nat.sub_0_r, Z.sub_0_r. }
  destruct (delta <? moved) eqn:Ed; bool_to_prop; simpl andb.
  2: { apply Hstop. replace (Z.to_nat (moved - delta)) with 0%nat by lia. apply skip_blocks_0. }
  case_bool_decide as Hlt.
  2: { apply Hstop. replace h with 0%nat by lia. rewrite take_0. by destruct (Z.to_nat _). }
  assert (Hw : wrap64 (moved - delta) = moved - delta) by (apply wrap64_small; unfold in_u64, u64_max; lia). rewrite Hw.
  set (n := Z.to_nat _). assert (Hn : (0 < n <= h)%nat /\ (n <= Z.to_nat (moved - delta))%nat).
  { unfold n, SPACE_WALK_BATCH. lia. }
  pose proof kinds_length as Hlen.
  assert (Htl : length (take n (rev (take h l))) = n) by (rewrite length_take, length_rev, length_take; lia).
  cbn [andb]. rewrite run_bind, run_at by lia. rewrite run_bind, <- map_rev.
  rewrite (walk_backward_spec _ (take n (rev (take h l)))).
  2: { rewrite batch_behind by lia. by apply Forall2_take, kinds_rev, Forall2_take. }
  2: lia.
  rewrite (skip_blocks_split (rev (take h l)) _ n) by (rewrite ?length_rev, ?length_take; lia). rewrite Htl.
  destruct (skip_blocks (take n (rev (take h l))) n) as [m hit] eqn:Es. destruct hit; [done|].
  assert (m = n) as -> by (rewrite <- Htl at 1; apply skip_blocks_all; by rewrite Htl).
  cbn [b2n]. rewrite Nat.sub_0_r, IH by lia. rewrite batch_beyond by lia.
  replace (Z.to_nat (moved - Z.of_nat n - delta)) with (Z.to_nat (moved - delta) - n)%nat by lia.
  destruct (skip_blocks (rev (take (h - n) l)) _) as [m hit]. moved_eq.
Qed.

(** ** Filemarks *)

Lemma scan_marks_spec rs' l' n lba moved :
  kinds rs' l' -> moved < n ->
  scan_marks (map Ok rs') n lba moved =
    let (m, j) := skip_marks l' (Z.to_nat (n - moved)) in
    Ok (if bool_decide (j = Z.to_nat (n - moved)) then (lba + m)%nat else (lba + length l')%nat, moved + Z.of_nat j).
Proof.
  intros Hk. revert lba moved. induction Hk as [|r x rs' l' Hr Hk IH]; intros lba moved Hlt.
  - simpl. destruct (Z.to_nat (n - moved)) eqn:E; [lia|]. simpl. by rewrite Nat.add_0_r, Z.add_0_r.
  - cbn [map scan_marks result_bind]. rewrite Hr. destruct (Z.to_nat (n - moved)) as [|k] eqn:Ek; [lia|].
    destruct x as [|key d]; simpl kind_of; cbn iota.
    + destruct (n <=? moved + 1) eqn:E; bool_to_prop.
      * assert (k = 0)%nat as -> by lia. simpl. rewrite skip_marks_0. rewrite bool_decide_eq_true_2 by done.
        by rewrite Nat.add_1_r.
      * rewrite IH by lia. replace (Z.to_nat (n - (moved + 1))) with k by lia. simpl skip_marks.
        destruct (skip_marks l' k) as [m j]. cbn [length].
        case_bool_decide; case_bool_decide; try lia; (apply f_equal, (f_equal2 pair); lia).
    + rewrite IH by lia. rewrite Ek. simpl skip_marks. destruct (skip_marks l' (S k)) as [m j]. cbn [length].
      case_bool_decide; (apply f_equal, (f_equal2 pair); lia).
Qed.

Lemma marks_forward_spec fuel n h lba moved :
  (lba <= length l)%nat -> (length l - lba < fuel)%nat ->
  marks_forward fuel n (length l) lba moved (at_head c h) =
    let (m, j) := skip_marks (drop lba l) (Z.to_nat (n - moved)) in (at_head c h, Ok ((lba + m)%nat, moved + Z.of_nat j)).
Proof.
  revert lba moved. induction fuel as [|fuel IH]; intros lba moved Hlba Hf; [lia|]. cbn [marks_forward].
  case_bool_decide as Hlt; cbn [andb].
  2: { rewrite drop_ge by lia. unfold mret, EM_ret. by destruct (Z.to_nat _); cbn; rewrite Nat.add_0_r, Z.add_0_r. }
  destruct (moved <? n) eqn:Ed; bool_to_prop.
  2: { replace (Z.to_nat (n - moved)) with 0%nat by lia. rewrite skip_marks_0. unfold mret, EM_ret. by rewrite Nat.add_0_r, Z.add_0_r. }
  rewrite run_bind. cbn [get]. change (active_partition (runtime (at_head c h))) with (active_partition (runtime c)).
  set (k := Z.to_nat (Z.min _ _)). assert (Hk : (0 < k <= length l - lba)%nat) by (unfold k, SPACE_WALK_BATCH; lia).
  pose proof kinds_length as Hlen. rewrite run_bind, run_at by lia. rewrite run_bind. unfold of_result.
  rewrite (scan_marks_spec _ (take k (drop lba l))); [|by apply Forall2_take, Forall2_drop|done].
  rewrite <- (take_drop k (drop lba l)) at 2. rewrite skip_marks_app, drop_drop.
  assert (Htl : length (take k (drop lba l)) = k) by (rewrite length_take, length_drop; lia). rewrite Htl.
  destruct (skip_marks (take k (drop lba l)) (Z.to_nat (n - moved))) as [m j] eqn:Es.
  pose proof (skip_marks_bound (take k (drop lba l)) (Z.to_nat (n - moved))) as Hb. rewrite Es in Hb. cbn in Hb. rewrite Htl in Hb.
  case_bool_decide as Hj.
  - rewrite IH by lia. replace (Z.to_nat (n - (moved + Z.of_nat j))) with 0%nat by lia. rewrite skip_marks_0.
    by rewrite Nat.add_0_r, Z.add_0_r.
  - rewrite IH by lia. replace (Z.to_nat (n - (moved + Z.of_nat j))) with (Z.to_nat (n - moved) - j)%nat by lia.
    destruct (skip_marks (drop (lba + k) l) _) as [m2 j2]. apply f_equal, f_equal, (f_equal2 pair); lia.
Qed.

Lemma scan_back_spec rs' l' n lba moved last_fm :
  kinds rs' l' -> n < moved -> (length l' <= lba)%nat ->
  exists last', scan_marks_back (map Ok rs') n lba moved last_fm =
    (let (m, j) := skip_marks l' (Z.to_nat (moved - n)) in
     Ok (if bool_decide (j = Z.to_nat (moved - n)) then (lba - m)%nat else (lba - length l')%nat, moved - Z.of_nat j, last')) /\
    (let (m, j) := skip_marks l' (Z.to_nat (moved - n)) in
     j = Z.to_nat (moved - n) -> last' = Z.of_nat (lba - m)).
Proof.
  intros Hk. revert lba moved last_fm. induction Hk as [|r x rs' l' Hr Hk IH]; intros lba moved last_fm Hlt Hlba.
  - exists last_fm. simpl. destruct (Z.to_nat (moved - n)) eqn:E; [lia|]. simpl. by rewrite Nat.sub_0_r, Z.sub_0_r.
  - cbn [map scan_marks_back result_bind]. rewrite Hr. destruct (Z.to_nat (moved - n)) as [|k] eqn:Ek; [lia|].
    cbn [length] in Hlba. destruct x as [|key d]; cbn [kind_of].
    + destruct (moved - 1 <=? n) eqn:E; bool_to_prop.
      * assert (k = 0)%nat as -> by lia. exists (Z.of_nat lba - 1). simpl. rewrite skip_marks_0.
        rewrite bool_decide_eq_true_2 by done. split; [do 3 f_equal; lia|lia].
      * destruct (IH (pred lba) (moved - 1) (Z.of_nat lba - 1)) as (last' & -> & Hl'); [lia|lia|]. exists last'.
        replace (Z.to_nat (moved - 1 - n)) with k in * by lia. simpl skip_marks.
        destruct (skip_marks l' k) as [m j]. cbn [length]. split.
        -- case_bool_decide; case_bool_decide; try lia; (apply f_equal, (f_equal2 pair); [apply (f_equal2 pair); lia|done]).
        -- intros [= Hj]. rewrite (Hl' Hj). lia.
    + rewrite (proj2 (Z.leb_gt _ _)) by lia. destruct (IH (pred lba) moved last_fm) as (last' & -> & Hl'); [lia|lia|]. exists last'.
      rewrite Ek in *. simpl skip_marks. destruct (skip_marks l' (S k)) as [m j]. cbn [length]. split.
      * case_bool_decide; (apply f_equal, (f_equal2 pair); [apply (f_equal2 pair); lia|done]).
      * intros Hj. rewrite (Hl' Hj). lia.
Qed.

Lemma marks_backward_spec fuel n h lba moved last_fm :
  (lba <= length l)%nat -> (lba < fuel)%nat ->
  exists last', marks_backward fuel n lba moved last_fm (at_head c h) =
    (let (m, j) := skip_marks (rev (take lba l)) (Z.to_nat (moved - n)) in (at_head c h, Ok (moved - Z.of_nat j, last'))) /\
    (let (m, j) := skip_marks (rev (take lba l)) (Z.to_nat (moved - n)) in
     n < moved -> j = Z.to_nat (moved - n) -> last' = Z.of_nat (lba - m)) /\
    (moved <= n -> last' = last_fm).
Proof.
  revert lba moved last_fm. induction fuel as [|fuel IH]; intros lba moved last_fm Hlba Hf; [lia|]. cbn [marks_backward].
  case_bool_decide as Hlt; cbn [andb].
  2: { exists last_fm. replace lba with 0%nat by lia. rewrite take_0. cbn [rev].
       destruct (Z.to_nat (moved - n)) eqn:E; cbn [skip_marks]; unfold mret, EM_ret; rewrite Z.sub_0_r; (split_and!; [done|lia|done]). }
  destruct (n <? moved) eqn:Ed; bool_to_prop.
  2: { exists last_fm. replace (Z.to_nat (moved - n)) with 0%nat by lia. rewrite skip_marks_0. unfold mret, EM_ret.
       rewrite Z.sub_0_r. split_and!; [done|lia|done]. }
  rewrite run_bind. cbn [get]. change (active_partition (runtime (at_head c h))) with (active_partition (runtime c)).
  set (k := Z.to_nat (Z.min _ _)). assert (Hk : (0 < k <= lba)%nat) by (unfold k, SPACE_WALK_BATCH; lia).
  pose proof kinds_length as Hlen. rewrite run_bind, run_at by lia. rewrite run_bind. unfold of_result. rewrite <- map_rev.
  assert (Htl : length (take k (rev (take lba l))) = k) by (rewrite length_take, length_rev, length_take; lia).
  destruct (scan_back_spec (rev (take k (drop (lba - k) rs))) (take k (rev (take lba l))) n lba moved last_fm) as (last1 & -> & Hl1).
  { rewrite batch_behind by lia. by apply Forall2_take, kinds_rev, Forall2_take. }
  { done. }
  { lia. }
  rewrite <- (take_drop k (rev (take lba l))). rewrite skip_marks_app, take_app_length', Htl by done. rewrite batch_beyond by lia.
  destruct (skip_marks (take k (rev (take lba l))) (Z.to_nat (moved - n))) as [m j] eqn:Es.
  pose proof (skip_marks_bound (take k (rev (take lba l))) (Z.to_nat (moved - n))) as Hb. rewrite Es in Hb. cbn in Hb. rewrite Htl in Hb.
  case_bool_decide as Hj.
  - destruct (IH (lba - m)%nat (moved - Z.of_nat j) last1) as (last' & -> & _ & Hl'); [lia|lia|].
    replace (Z.to_nat (moved - Z.of_nat j - n)) with 0%nat by lia. rewrite skip_marks_0, Z.sub_0_r. exists last'.
    split_and!; [done| |lia]. intros _ _. rewrite Hl' by lia. by apply Hl1.
  - destruct (IH (lba - k)%nat (moved - Z.of_nat j) last1) as (last' & -> & Hl' & _); [lia|lia|]. exists last'.
    replace (Z.to_nat (moved - Z.of_nat j - n)) with (Z.to_nat (moved - n) - j)%nat in * by lia.
    destruct (skip_marks (rev (take (lba - k) l)) _) as [m2 j2]. split_and!; [|intros _ Hj2; rewrite Hl' by lia; lia|lia].
    apply f_equal, f_equal, (f_equal2 pair); [lia|done].
Qed.
End motion.

Section exact.
Context `{VolumeCrypto} `{HexCodec} `{Compressor} (evicts overwrites : bool).
Local Notation rep := (rep evicts overwrites).

Lemma rep_kinds c recs cs rss t :
  rep c recs cs rss t -> exists rs, BlockIndex.live (block_index c (active_partition (runtime c))) rs /\ kinds rs (items t).
Proof.
  intros [_ Ht]. destruct (active_index _ _ _ _ _ Ht) as (rs & _ & _ & Hl & Hi & _). exists rs. split; [done|].
  eapply Forall2_impl; [exact Hi|]. intros r [|k d] (content & _ & _ & Hx); simpl; [done|]. by destruct Hx.
Qed.

Lemma at_head_id c : at_head c (head_lba c) = c.
Proof. by destruct c. Qed.

(** SPACE over blocks: with any fuel beyond the records on the way. *)
Lemma space_walk_run delta ahead_fuel behind_fuel c recs cs rss t :
  rep c recs cs rss t -> - 2 ^ 63 <= delta -> (active_next_lba c < ahead_fuel)%nat -> (head_lba c < behind_fuel)%nat ->
  (if 0 <? delta then space_forward ahead_fuel delta (active_next_lba c) 0 else space_backward behind_fuel delta 0) c =
    (at_head c (t_head (space_blocks_to delta t).1), Ok (space_blocks_to delta t).2).
Proof.
  intros Hrep Hd Hf Hb. destruct (rep_kinds _ _ _ _ _ Hrep) as (rs & Hl & Hk). pose proof Hrep as [_ Ht].
  pose proof (tr_range _ _ _ _ _ Ht) as Hr. unfold space_blocks_to, ahead, behind.
  rewrite (next_is_items _ _ _ _ _ Ht) in *. rewrite <- (at_head_id c) at 1. rewrite <- (tr_head _ _ _ _ _ Ht) in *.
  destruct (0 <? delta).
  - rewrite (space_forward_spec c rs (items t) Hl Hk) by lia. rewrite Z.sub_0_r. by destruct (skip_blocks _ _).
  - rewrite (space_backward_spec c rs (items t) Hl Hk) by lia. rewrite Z.sub_0_l. by destruct (skip_blocks _ _).
Qed.

Lemma space_records_run delta c recs cs rss t :
  rep c recs cs rss t -> - 2 ^ 63 <= delta ->
  space_records delta c = (at_head c (t_head (space_blocks_to delta t).1), Ok (space_blocks_to delta t).2).
Proof.
  intros Hrep Hd. rewrite <- (space_walk_run delta (walk_fuel c) (S (head_lba c)) c recs cs rss t) by (done || unfold walk_fuel; lia).
  unfold space_records. rewrite run_bind. cbn [get]. by destruct (0 <? delta).
Qed.

(** SPACE over filemarks. *)
Lemma space_filemarks_run n c recs cs rss t :
  rep c recs cs rss t ->
  space_filemarks n c = (at_head c (t_head (space_marks_to n t).1), Ok (space_marks_to n t).2).
Proof.
  intros Hrep. destruct (rep_kinds _ _ _ _ _ Hrep) as (rs & Hl & Hk). pose proof Hrep as [_ Ht].
  pose proof (tr_range _ _ _ _ _ Ht) as Hr. pose proof (tr_head _ _ _ _ _ Ht) as Hh.
  unfold space_filemarks, space_marks_to, ahead, behind. rewrite run_bind. cbn [get].
  destruct (n =? 0) eqn:E0; bool_to_prop.
  { subst n. simpl. rewrite skip_marks_0. simpl. rewrite Nat.sub_0_r, Hh. by rewrite at_head_id. }
  rewrite (next_is_items _ _ _ _ _ Ht), <- Hh. cbv zeta. rewrite <- (at_head_id c) at 1 2. rewrite <- Hh. destruct (0 <? n) eqn:En; bool_to_prop.
  - rewrite run_bind, (marks_forward_spec c rs (items t) Hl Hk) by lia. rewrite Z.sub_0_r.
    pose proof (skip_marks_bound (drop (t_head t) (items t)) (Z.to_nat n)) as (Hb & _).
    destruct (skip_marks (drop (t_head t) (items t)) (Z.to_nat n)) as [m j]. cbn [fst] in Hb. rewrite length_drop in Hb.
    rewrite run_bind. unfold modify. rewrite Nat.min_l by lia. done.
  - rewrite run_bind.
    destruct (marks_backward_spec c rs (items t) Hl Hk (S (t_head t)) n (t_head t) (t_head t) 0 (-1)) as (last' & -> & Hl' & _); [lia|lia|].
    rewrite !Z.sub_0_l in *. pose proof (skip_marks_bound (rev (take (t_head t) (items t))) (Z.to_nat (- n))) as (Hb & Hj & _).
    destruct (skip_marks (rev (take (t_head t) (items t))) (Z.to_nat (- n))) as [m j] eqn:Es. cbn [fst snd] in *.
    rewrite length_rev, length_take in Hb. rewrite !Z.sub_0_l.
    destruct (n <? - Z.of_nat j) eqn:Ej; bool_to_prop; rewrite run_bind; unfold modify.
    + apply skip_marks_all in Es; [|lia]. rewrite length_rev, length_take in Es.
      replace (t_head t - m)%nat with 0%nat by lia. done.
    + rewrite Hl' by lia. replace (Nat.min _ _) with (t_head t - m)%nat by lia. done.
Qed.

Lemma rep_at_head c recs cs rss t h :
  rep c recs cs rss t -> (h <= length (items t))%nat -> rep (at_head c h) recs cs rss (with_head h t).
Proof. apply rep_head. Qed.

Lemma space_blocks_range delta t :
  (t_head t <= length (items t))%nat -> (t_head (space_blocks_to delta t).1 <= length (items t))%nat.
Proof.
  intros Hr. unfold space_blocks_to, ahead, behind. destruct (0 <? delta).
  - pose proof (skip_blocks_bound (drop (t_head t) (items t)) (Z.to_nat delta)) as [Hb _].
    destruct (skip_blocks _ _) as [m hit]. cbn [fst snd] in Hb |- *. rewrite length_drop in Hb. simpl. lia.
  - destruct (skip_blocks _ _) as [m hit]. simpl. lia.
Qed.

Lemma space_marks_range n t :
  (t_head t <= length (items t))%nat -> (t_head (space_marks_to n t).1 <= length (items t))%nat.
Proof.
  intros Hr. unfold space_marks_to, ahead, behind. destruct (0 <? n).
  - pose proof (skip_marks_bound (drop (t_head t) (items t)) (Z.to_nat n)) as (Hb & _).
    destruct (skip_marks _ _) as [m j]. cbn [fst] in Hb |- *. rewrite length_drop in Hb. simpl. lia.
  - destruct (skip_marks _ _) as [m j]. simpl. lia.
Qed.

Lemma moved_tape delta t : (space_blocks_to delta t).1 = with_head (t_head (space_blocks_to delta t).1) t.
Proof. unfold space_blocks_to. by destruct (0 <? delta); destruct (skip_blocks _ _). Qed.

Lemma marked_tape n t : (space_marks_to n t).1 = with_head (t_head (space_marks_to n t).1) t.
Proof. unfold space_marks_to. by destruct (0 <? n); destruct (skip_marks _ _). Qed.

Lemma space_records_spec delta c recs cs rss t :
  rep c recs cs rss t -> - 2 ^ 63 <= delta ->
  wp (space_records delta) (fun c' r => rep c' recs cs rss (space_blocks_to delta t).1 /\ r = Ok (space_blocks_to delta t).2) c.
Proof.
  intros Hrep Hd. unfold wp. rewrite (space_records_run _ _ _ _ _ _ Hrep Hd). split; [|done]. rewrite moved_tape at 2.
  apply rep_at_head; [done|]. apply space_blocks_range. apply Hrep.
Qed.

Lemma space_filemarks_spec n c recs cs rss t :
  rep c recs cs rss t ->
  wp (space_filemarks n) (fun c' r => rep c' recs cs rss (space_marks_to n t).1 /\ r = Ok (space_marks_to n t).2) c.
Proof.
  intros Hrep. unfold wp. rewrite (space_filemarks_run _ _ _ _ _ _ Hrep). split; [|done]. rewrite marked_tape at 2.
  apply rep_at_head; [done|]. apply space_marks_range. apply Hrep.
Qed.
End exact.
