(* ===== verification/CartridgeForm.v ===== *)
(** * Positioning, formatting and settings of a cartridge

    LOCATE, ERASE, FORMAT MEDIUM, SET CAPACITY, ALLOW OVERWRITE, the drive's
    settings and the scrub, each as what it does to the tape. *)

From Stdlib Require Import String.
From S2P Require Import Prelude Bytes ByteFile BTreeMap DirtyPages TrackedFile FastCdc StreamLru ChunkIndex BlockIndex IndexCodec PoolBudget Crypto StateError Cartridge CartridgeOps CartridgeOpen CartridgeInv Tape CartridgeTape CartridgeRead CartridgeMotion.

Local Open Scope Z_scope.
Local Open Scope thur_scope.

(** ** On the tape *)

Definition blank (t : Tape) : Tape :=
  mkTape (map (fun _ => []) (t_parts t)) 0 0 (map (fun _ => None) (t_barriers t)) (t_drive t) (t_worm t) (t_held t).

(** FORMAT MEDIUM 0x02 as the code has it: one partition, the records left
    in it. *)
Definition single_partition (t : Tape) : Tape := mkTape (t_parts t) 0 0 [None] (t_drive t) (t_worm t) (t_held t).

Definition repartitioned (n : nat) (t : Tape) : Tape :=
  mkTape (replicate n []) 0 0 (replicate n None) (t_drive t) (t_worm t) (t_held t).

Definition in_partition (p lba : nat) (t : Tape) : Tape :=
  mkTape (t_parts t) p lba (t_barriers t) (t_drive t) (t_worm t) (t_held t).

Definition with_barrier (p : nat) (b : option nat) (t : Tape) : Tape :=
  mkTape (t_parts t) (t_active t) (t_head t) (<[p := b]> (t_barriers t)) (t_drive t) (t_worm t) (t_held t).

Definition with_drive (s : option DriveEncryptionState) (t : Tape) : Tape :=
  mkTape (t_parts t) (t_active t) (t_head t) (t_barriers t) s (t_worm t) (t_held t).

Definition with_hold (held : bool) (t : Tape) : Tape :=
  mkTape (t_parts t) (t_active t) (t_head t) (t_barriers t) (t_drive t) (t_worm t) held.

(** What reaches the disk is the layout, without an overwrite mode. *)
Lemma cleared_disk r parts :
  partitions r = parts -> (active_partition r < length parts)%nat ->
  (active_partition (volatile_cleared r) < length (partitions (volatile_cleared r)))%nat /\
  length (partitions (volatile_cleared r)) = length parts /\
  Forall (fun p => overwrite_barrier p = None) (partitions (volatile_cleared r)).
Proof.
  intros <- Hlt. unfold volatile_cleared. cbn. rewrite length_map. split_and!; [done|done|]. by apply Forall_fmap, Forall_true.
Qed.

Section form.
Context `{VolumeCrypto} `{HexCodec} `{Compressor} (evicts overwrites : bool).
Context `{!HexLaws} `{!TapeCryptoLaws} `{!CompressorLaws}.
Local Notation rep := (rep evicts overwrites).
Local Notation chunks_ok := (chunks_ok evicts).
Local Notation tape_repr := (tape_repr overwrites).

(** The trailing chunk's record and the runtime reach the disk. *)
Lemma persist_spec c recs cs :
  chunks_ok c recs cs ->
  wp persist_runtime (fun c' r => r = Ok tt /\ exists idx,
    c' = c <| chunk_index := idx |> <| disk_runtime := volatile_cleared (runtime c) |> /\
    chunks_ok c' (<[cur_chunk_id c := cur_chunk c]> recs) cs) c.
Proof.
  intros Hc. destruct (co_open _ _ _ _ Hc) as (content & Hcs & Hf & Hsz & Hmax & Hst & Hh).
  destruct (ChunkIndex.chunk_live_overwrite _ _ (cur_chunk_id c) (cur_chunk c) (co_index _ _ _ _ Hc)) as (idx & Ei & Hl).
  { split; [unfold in_u32; lia|]. by rewrite (proj1 Hf). }
  { rewrite (co_cur _ _ _ _ Hc). lia. }
  unfold persist_runtime. apply wp_get, wp_bind. unfold overwrite_chunk. apply wp_get, wp_of_result. rewrite Ei.
  unfold wp, modify, persist_runtime_file, modify. split; [done|]. exists idx. split; [done|]. destruct Hc. split; flat; rewrite ?length_insert; try done.
  - exists (cur_chunk c). split; [apply list_lookup_insert_eq; lia|done].
  - intros id r ct Hid. rewrite list_lookup_insert_ne by lia. by apply co_sealed.
Qed.

(** A change of the runtime that keeps partitions and position, made
    durable. *)
Lemma setting_spec c recs cs rss t (f : Runtime -> Runtime) :
  rep c recs cs rss t -> partitions (f (runtime c)) = partitions (runtime c) ->
  active_partition (f (runtime c)) = active_partition (runtime c) ->
  wp (set_runtime f;; persist_runtime) (fun c' r => r = Ok tt /\ exists recs', rep c' recs' cs rss t) c.
Proof.
  intros [Hc Ht] Hp Ha. apply wp_modify. eapply wp_mono; [apply (persist_spec _ recs cs); by apply (chunks_frame _ c)|].
  intros c' r (-> & idx & -> & Hc'). split; [done|]. eexists. split; [exact Hc'|]. destruct Ht.
  split; flat; rewrite ?Hp, ?Ha; try done. apply cleared_disk; [done|]. rewrite Ha. lia.
Qed.

Lemma rewind_spec c recs cs rss t :
  rep c recs cs rss t -> wp rewind (fun c' r => r = Ok tt /\ rep c' recs cs rss (with_head 0 t)) c.
Proof.
  intros Hrep. split; [done|]. destruct (rep_head _ _ _ _ _ _ _ 0 Hrep ltac:(lia)) as [Hc Ht].
  split; [by eapply chunks_frame; [|exact Hc]|]. by eapply tape_frame; [|reflexivity|exact Ht].
Qed.

Definition past_eot : SmcError := InvalidOp "LOCATE past EOT".

Lemma locate_spec lba c recs cs rss t :
  rep c recs cs rss t ->
  wp (locate lba) (fun c' r => if bool_decide (length (items t) < lba)%nat then r = Err past_eot /\ rep c' recs cs rss t
    else r = Ok tt /\ rep c' recs cs rss (with_head lba t)) c.
Proof.
  intros Hrep. unfold locate. apply wp_get. rewrite (next_is_items _ _ _ _ _ (proj2 Hrep)).
  case_bool_decide; [done|]. split; [done|]. apply rep_head; [done|lia].
Qed.

Lemma space_to_eod_spec c recs cs rss t :
  rep c recs cs rss t -> wp space_to_eod (fun c' r => r = Ok tt /\ rep c' recs cs rss (with_head (length (items t)) t)) c.
Proof.
  intros Hrep. unfold wp, space_to_eod, modify. rewrite (next_is_items _ _ _ _ _ (proj2 Hrep)). split; [done|].
  by apply rep_head.
Qed.

(** The head in another partition, before that is made durable. *)
Lemma switched_next c recs cs rss t p :
  rep c recs cs rss t -> (p < length (partitions (runtime c)))%nat ->
  active_next_lba (c <| runtime := (runtime c) <| active_partition := p |> |>) = length (default [] (t_parts t !! p)).
Proof.
  intros [_ Ht] Hp. destruct Ht. destruct (lookup_lt_is_Some_2 (block_indexes c) p ltac:(lia)) as [b Eb].
  destruct (Forall2_lookup_l _ _ _ _ _ tr_index Eb) as (rs & Ers & Hl).
  destruct (Forall2_lookup_l _ _ _ _ _ tr_items Ers) as (l & El & Hi).
  unfold active_next_lba, next_lba_of, block_index. flat. cbn. rewrite Eb, El. simpl.
  rewrite (BlockIndex.block_live_next _ _ Hl). by eapply Forall2_length.
Qed.

Definition locate_outcome (p lba : nat) (t : Tape) (r : result unit SmcError) (t' : Tape) : Prop :=
  if bool_decide (length (t_barriers t) <= p)%nat then r = Err (InvalidOp "LOCATE: partition out of range") /\ t' = t
  else if bool_decide (length (default [] (t_parts t !! p)) < lba)%nat then r = Err past_eot /\ t' = t
  else r = Ok tt /\ t' = in_partition p lba t.

Lemma locate_partition_spec p lba c recs cs rss t :
  rep c recs cs rss t ->
  wp (locate_partition p lba) (fun c' r => exists recs' t', rep c' recs' cs rss t' /\ locate_outcome p lba t r t') c.
Proof.
  intros Hrep. pose proof Hrep as [Hc Ht]. unfold locate_partition, locate_outcome. apply wp_get.
  rewrite (tr_barriers _ _ _ _ _ Ht), length_map. case_bool_decide as Hp; [by exists recs, t|]. cbv zeta.
  apply wp_modify, wp_get. rewrite (switched_next _ _ _ _ _ _ Hrep) by lia. case_bool_decide as Hlba.
  { apply wp_modify. exists recs, t. split; [|done].
    split; [by apply (chunks_frame _ c)|by apply (tape_frame _ c _ cs)]. }
  apply wp_modify.
  assert (Ht' : forall idx dr, (active_partition dr < length (partitions dr))%nat /\
    length (partitions dr) = length (partitions (runtime c)) /\ Forall (fun p => overwrite_barrier p = None) (partitions dr) ->
    tape_repr (c <| runtime := (runtime c) <| active_partition := p |> |> <| head_lba := lba |> <| chunk_index := idx |> <| disk_runtime := dr |>) cs rss (in_partition p lba t)).
  { intros idx dr Hd. destruct Ht. split; unfold in_partition; flat; try done.
    - cbn. lia.
    - unfold items. cbn [t_parts t_active t_head]. lia. }
  case_bool_decide as Hsame.
  - exists recs, (in_partition p lba t). split; [|done]. split; [by apply (chunks_frame _ c)|].
    eapply tape_frame; [| |apply (Ht' (chunk_index c) (disk_runtime c)); apply Ht]; reflexivity.
  - eapply wp_mono; [apply (persist_spec _ recs cs); by apply (chunks_frame _ c)|].
    intros c' r (-> & idx & -> & Hc'). eexists _, (in_partition p lba t). split; [|done]. split; [exact Hc'|].
    apply Ht', cleared_disk; [done|]. cbn. lia.
Qed.

(** ** ERASE *)

Lemma live_empty b rs : BlockIndex.live b rs -> BlockIndex.live (BlockIndex.truncate_to b 0) [].
Proof.
  intros Hl. pose proof (BlockIndex.block_live_truncate b rs 0 Hl) as Hl'. rewrite take_0, Nat.sub_0_l in Hl'. apply Hl'.
  vm_compute. discriminate.
Qed.

Lemma blank_indexes u cs bs rss parts :
  Forall2 BlockIndex.live bs rss -> Forall2 (Forall2 (record_ok u cs)) rss parts ->
  Forall2 BlockIndex.live (map (fun b => BlockIndex.truncate_to b 0) bs) (map (fun _ => []) rss) /\
  Forall2 (Forall2 (record_ok u cs)) (map (fun _ => []) rss) (map (fun _ => []) parts).
Proof.
  intros Hl Hp. split.
  - apply Forall2_fmap. eapply Forall2_impl; [exact Hl|]. intros b rs. apply live_empty.
  - apply Forall2_fmap. eapply Forall2_impl; [exact Hp|]. by constructor.
Qed.

Lemma blank_ordered (rss : list (list BlockRec)) (bs : list (option nat)) :
  Forall ordered (map (fun _ => []) rss) /\ Forall (fun b : option nat => b = None) (map (fun _ => None) bs).
Proof. split; apply Forall_fmap, Forall_true; [intros ? i j a b _ Ha; by rewrite lookup_nil in Ha|done]. Qed.

Lemma erase_spec c recs cs rss t :
  rep c recs cs rss t ->
  wp erase (fun c' r => exists recs' rss',
    match refused t false with
    | Some e => r = Err e /\ c' = c
    | None => r = Ok tt /\ rep c' recs' cs rss' (blank t)
    end) c.
Proof.
  intros [Hc Ht]. unfold erase. apply wp_bind, (wp_writable_tape _ _ _ _ _ Ht); [intros e Er|intros Er]; rewrite Er; [by exists recs, rss|].
  apply wp_modify, wp_modify, wp_modify.
  eapply wp_mono; [apply (persist_spec _ recs cs); by apply (chunks_frame _ c)|].
  intros c' r (-> & idx & -> & Hc'). eexists _, (map (fun _ => []) rss). split; [done|]. split; [exact Hc'|]. destruct Ht.
  destruct (blank_indexes _ _ _ _ _ tr_index tr_items) as [Hl Hi].
  split; unfold blank; flat; cbn [t_parts t_active t_head t_barriers t_drive]; try done.
  - rewrite tr_barriers. cbn. rewrite !map_map. by apply map_ext.
  - unfold volatile_cleared. cbn. rewrite !length_map. lia.
  - simpl. lia.
  - apply cleared_disk; [done|]. unfold volatile_cleared. cbn. rewrite !length_map. lia.
  - intros _. apply blank_ordered.
Qed.


Definition erase_outcome (t : Tape) (r : result unit SmcError) (t' : Tape) : Prop :=
  match refused t false with Some e => r = Err e /\ t' = t | None => r = Ok tt /\ t' = blank t end.

Lemma erase_tape c recs cs rss t :
  rep c recs cs rss t ->
  wp erase (fun c' r => exists recs' rss' t', rep c' recs' cs rss' t' /\ erase_outcome t r t') c.
Proof.
  intros Hrep. eapply wp_mono; [by eapply erase_spec|]. intros c' r (recs' & rss' & Hpost). unfold erase_outcome.
  destruct (refused t false); destruct Hpost as [-> Hpost]; [subst c'; by exists recs, rss, t|by exists recs', rss', (blank t)].
Qed.

Lemma set_capacity_spec proportion c recs cs rss t :
  rep c recs cs rss t ->
  wp (set_capacity_proportion proportion) (fun c' r => exists recs' rss' t', rep c' recs' cs rss' t' /\ erase_outcome t r t') c.
Proof.
  intros Hrep. unfold set_capacity_proportion. cbv zeta. apply wp_bind. eapply wp_mono; [by eapply erase_tape|].
  intros c1 [[]|e] (recs1 & rss1 & t1 & Hrep1 & Ho); [|by exists recs1, rss1, t1].
  assert (Ho' := Ho). unfold erase_outcome in Ho. destruct (refused t false); destruct Ho as [Eo ->]; [done|clear Eo].
  destruct Hrep1 as [Hc1 Ht1]. apply wp_modify, wp_modify.
  eapply wp_mono; [apply (persist_spec _ recs1 cs); by apply (chunks_frame _ c1)|].
  intros c2 r (-> & idx & -> & Hc2). eexists _, rss1, (blank t). split; [|exact Ho']. split; [exact Hc2|]. destruct Ht1.
  split; flat; try done. apply cleared_disk; [done|]. cbn. lia.
Qed.

Lemma pending_layout_spec layout c recs cs rss t :
  rep c recs cs rss t ->
  wp (set_pending_partition_layout layout) (fun c' r => exists recs', rep c' recs' cs rss t /\
    (r = Ok tt \/ r = Err (InvalidOp "MODE SELECT 0x11: too many additional partitions (max 1)"))) c.
Proof.
  intros Hrep. unfold set_pending_partition_layout. apply wp_if; intros _; [exists recs; auto|].
  eapply wp_mono; [by eapply setting_spec|]. intros c' r (-> & recs' & Hrep'). exists recs'. auto.
Qed.

(** ** FORMAT MEDIUM *)

Lemma fresh_live : BlockIndex.live fresh_index [].
Proof.
  destruct (BlockIndex.block_live_create None (mkInner [] 0)) as (b & E & Hl); [done|apply inner_wf_empty|].
  unfold fresh_index. by rewrite E.
Qed.

(** The cartridge with [parts], empty and at its beginning. *)
Lemma repartition_tape c cs rss t parts idx r :
  tape_repr c cs rss t -> (0 < length parts)%nat -> Forall (fun p => overwrite_barrier p = None) parts ->
  partitions r = parts -> active_partition r = 0%nat ->
  tape_repr (c <| block_indexes := replicate (length parts) fresh_index |> <| head_lba := 0%nat |> <| runtime := r |>
    <| chunk_index := idx |> <| disk_runtime := volatile_cleared r |>) cs (replicate (length parts) [])
    (repartitioned (length parts) t).
Proof.
  intros [] Hpos Hb Hp Ha. split; unfold repartitioned; flat; cbn [t_parts t_active t_head t_barriers t_drive]; rewrite ?Hp, ?Ha; try done.
  - apply Forall2_same_length_lookup. rewrite !length_replicate. split; [done|].
    intros i b rs [-> _]%lookup_replicate [-> _]%lookup_replicate. apply fresh_live.
  - apply Forall2_same_length_lookup. rewrite !length_replicate. split; [done|].
    intros i rs l [-> _]%lookup_replicate [-> _]%lookup_replicate. constructor.
  - symmetry. clear -Hb. induction Hb as [|p ps Hp _ IH]; [done|]. simpl. by rewrite Hp, IH.
  - rewrite length_replicate. lia.
  - simpl. lia.
  - apply cleared_disk; [done|]. rewrite Ha. lia.
  - intros _. split; apply Forall_replicate; [|done]. intros i j a b _ Hx. by rewrite lookup_nil in Hx.
Qed.

(** As the code behaves: 0x02 keeps the records of the first partition. *)
Definition format_outcome (format_field : Z) (t : Tape) (r : result unit SmcError) (t' : Tape) : Prop :=
  match refused t false, r with
  | Some e, _ => r = Err e /\ t' = t
  | None, Err _ => t' = t
  | None, Ok _ => (format_field = 0 /\ t' = blank t) \/ (format_field = 2 /\ t' = single_partition t) \/
      (format_field = 1 /\ exists n, (n = 1 \/ n = 2)%nat /\ t' = repartitioned n t)
  end.

Lemma single_tape c cs rss t idx r :
  tape_repr c cs rss t -> partitions r = [partition_default] -> active_partition r = 0%nat ->
  tape_repr (c <| runtime := r |> <| head_lba := 0%nat |> <| chunk_index := idx |> <| disk_runtime := volatile_cleared r |>) cs rss (single_partition t).
Proof.
  intros [] Hp Ha. split; unfold single_partition; flat; cbn [t_parts t_active t_head t_barriers t_drive]; rewrite ?Hp, ?Ha; try done.
  - cbn. lia.
  - lia.
  - apply cleared_disk; [done|]. rewrite Ha. cbn. lia.
  - intros E. destruct (tr_ordered E) as [Ho _]. split; [done|]. by repeat constructor.
Qed.

Lemma format_spec field c recs cs rss t :
  rep c recs cs rss t ->
  wp (apply_format_medium field) (fun c' r => exists recs' rss' t', rep c' recs' cs rss' t' /\ format_outcome field t r t') c.
Proof.
  intros Hrep. pose proof Hrep as [Hc Ht]. unfold apply_format_medium.
  unfold format_outcome. apply wp_bind, (wp_writable_tape _ _ _ _ _ Ht).
  { intros e ->. by exists recs, rss, t. }
  intros Er. rewrite Er. apply wp_get. apply wp_if; intros E0; bool_to_prop.
  { eapply wp_mono; [by eapply erase_tape|]. intros c' r (recs' & rss' & t' & Hrep' & Ho). exists recs', rss', t'.
    split; [done|]. unfold erase_outcome in Ho. rewrite Er in Ho. destruct Ho as [-> ->]. by left. }
  apply wp_if; intros E2; bool_to_prop.
  { apply wp_modify, wp_modify. eapply wp_mono; [apply (persist_spec _ recs cs); by apply (chunks_frame _ c)|].
    intros c' r (-> & idx & -> & Hc'). eexists _, rss, (single_partition t). split; [|right; by left]. split; [exact Hc'|].
    by apply single_tape. }
  apply wp_if; intros E1; bool_to_prop; [|by exists recs, rss, t].
  destruct (pending_partition_layout (runtime c)) as [layout|]; [|by exists recs, rss, t]. cbv zeta.
  set (count := (if sdp layout then 1 else 1 + additional_partitions layout)%nat).
  apply wp_if; intros Ec; bool_to_prop; [by exists recs, rss, t|]. unfold MAX_PARTITIONS in *.
  set (parts := map _ _). assert (Hlen : length parts = count) by (unfold parts; by rewrite length_map, length_seq).
  apply wp_modify, wp_modify. eapply wp_mono; [apply (persist_spec _ recs cs); by apply (chunks_frame _ c)|].
  intros c' r (-> & idx & -> & Hc'). eexists _, _, (repartitioned (length parts) t). split.
  - split; [exact Hc'|]. eapply repartition_tape; [done|lia| |done|done]. by apply Forall_fmap, Forall_true.
  - right. right. split; [done|]. exists (length parts). split; [lia|done].
Qed.

(** ** Settings *)

Definition allow_outcome (p lba : nat) (t : Tape) (r : result unit SmcError) (t' : Tape) : Prop :=
  match refused t false with
  | Some e => r = Err e /\ t' = t
  | None =>
      if bool_decide (length (t_barriers t) <= p)%nat then r = Err (InvalidOp "ALLOW OVERWRITE: partition out of range") /\ t' = t
      else r = Ok tt /\ t' = with_barrier p (if bool_decide (lba = 0)%nat then None else Some lba) t
  end.

Lemma allow_overwrite_spec p lba c recs cs rss t :
  rep c recs cs rss t -> overwrites = true ->
  wp (set_allow_overwrite p lba) (fun c' r => exists t', rep c' recs cs rss t' /\ allow_outcome p lba t r t') c.
Proof.
  intros Hrep Ho. pose proof Hrep as [Hc Ht]. unfold set_allow_overwrite, allow_outcome.
  apply wp_bind, (wp_writable_tape _ _ _ _ _ Ht); [intros e Er|intros Er]; rewrite Er; [by exists t|].
  apply wp_get. rewrite (tr_barriers _ _ _ _ _ Ht), length_map. case_bool_decide as Hp; [by exists t|].
  eexists. split; [|done]. split; [by apply (chunks_frame _ c)|]. destruct Ht.
  split; unfold with_barrier; flat; cbn [t_parts t_active t_head t_barriers t_drive]; try done.
  - rewrite tr_barriers. symmetry. change (<[p := ?b]> (map overwrite_barrier ?l)) with (<[p := b]> (overwrite_barrier <$> l)).
    apply list_eq. intros i. cbn. rewrite list_lookup_fmap. destruct (decide (i = p)) as [->|Hne].
    + rewrite list_lookup_alter_eq, list_lookup_insert_eq by (rewrite length_fmap; lia).
      destruct (lookup_lt_is_Some_2 (partitions (runtime c)) p ltac:(lia)) as [q ->]. done.
    + by rewrite list_lookup_alter_ne, list_lookup_insert_ne, list_lookup_fmap by done.
  - cbn. rewrite length_alter. lia.
  - cbn. rewrite length_alter. done.
  - intros E. congruence.
Qed.

Lemma set_encryption_spec s c recs cs rss t :
  rep c recs cs rss t -> wp (set_encryption_state s) (fun c' r => r = Ok tt /\ rep c' recs cs rss (with_drive s t)) c.
Proof. intros [Hc []]. split; [done|]. split; [by apply (chunks_frame _ c)|]. by split. Qed.

(** Steps the tape does not see. *)
Lemma unseen c c' recs cs rss t : core c' = core c -> face c' = face c -> rep c recs cs rss t -> rep c' recs cs rss t.
Proof. intros Hc Hf [H1' H2']. split; [by apply (chunks_frame _ c)|by apply (tape_frame _ c _ cs)]. Qed.

Lemma set_compression_spec s c recs cs rss t :
  rep c recs cs rss t -> wp (set_compression_state s) (fun c' r => r = Ok tt /\ rep c' recs cs rss t) c.
Proof. intros Hrep. split; [done|]. by apply (unseen c). Qed.

End form.
