(* ===== verification/CartridgeStore.v ===== *)
(** * Uploads and evictions of a cartridge ([core/stream/src/cartridge/storage.rs])

    The storage side moves chunks between the pool and the object store; the
    tape does not see it.  The pool and the object store are shared with
    other cartridges and the evictor ([world_ok]). *)

From Stdlib Require Import String.
From S2P Require Import Prelude Bytes ByteFile BTreeMap DirtyPages TrackedFile FastCdc StreamLru ChunkIndex BlockIndex IndexCodec PoolBudget Crypto StateError Cartridge CartridgeOps CartridgeOpen CartridgeInv Tape CartridgeTape CartridgeRead.

Local Open Scope Z_scope.
Local Open Scope thur_scope.

Section store.
Context `{VolumeCrypto} `{HexCodec} `{Compressor} (evicts overwrites : bool).
Context `{!HexLaws} `{!TapeCryptoLaws} `{!CompressorLaws}.
Local Notation rep := (rep evicts overwrites).
Local Notation chunks_ok := (chunks_ok evicts).
Local Notation sealed_ok := (sealed_ok evicts).

(** What others may do to the pool and the object store: add to both, and
    drop from the pool what the object store has. *)
Definition world_ok (c : Cartridge) (pool' storage' : gmap (list Z) (list Z)) (e : Env) : Prop :=
  (forall h x, storage c !! h = Some x -> storage' !! h = Some x) /\
  (forall h x, pool c !! h = Some x -> pool' !! h = Some x \/ (evicts = true /\ storage' !! h = Some x)) /\
  (forall h x y, pool' !! h = Some x -> storage' !! h = Some y -> x = y) /\
  pool_io e = [] /\ torn e = [].

Definition world_step (c : Cartridge) (b : PoolBudget) (pool' storage' : gmap (list Z) (list Z)) (e : Env) : Cartridge :=
  c <| pool_budget := b |> <| pool := pool' |> <| storage := storage' |> <| env := e |>.

Lemma world_chunks c recs cs b pool' storage' e :
  chunks_ok c recs cs -> world_ok c pool' storage' e -> chunks_ok (world_step c b pool' storage' e) recs cs.
Proof.
  intros [] (Hs & Hp & Ha & He). split; unfold world_step; flat; try done.
  intros id r content Hid Hr Hcs. destruct (co_sealed id r content Hid Hr Hcs) as (Hsz & ct & Hpay & Hh & Hst & Hup & Hloc).
  split; [done|]. exists ct. split_and!; [done|done| |auto|done]. unfold stored in *. flat.
  destruct Hst as [Hst|[? Hst]]; [by apply Hp|right; auto].
Qed.

Lemma world_rep c recs cs rss t b pool' storage' e :
  rep c recs cs rss t -> world_ok c pool' storage' e -> rep (world_step c b pool' storage' e) recs cs rss t.
Proof. intros [Hc Ht] Hw. split; [by apply world_chunks|]. by apply (tape_frame _ c _ cs). Qed.

(** ** The record of a sealed chunk *)

Lemma sealed_record c recs cs id r h :
  chunks_ok c recs cs -> read_chunk_rec c id = Ok r -> chash r = Some h ->
  (id < cur_chunk_id c)%nat /\ recs !! id = Some r /\ exists content, cs !! id = Some content /\ sealed_ok c id r content.
Proof.
  intros Hc Hr Hh. unfold read_chunk_rec in Hr. case_bool_decide as Hid.
  - injection Hr as <-. destruct (co_open _ _ _ _ Hc) as (content & _ & (Hn & _) & _). congruence.
  - rewrite (ChunkIndex.chunk_live_read _ _ _ (co_index _ _ _ _ Hc)) in Hr. unfold ChunkIndex.read_spec in Hr.
    destruct (recs !! id) as [r'|] eqn:Er; [|done]. injection Hr as ->.
    apply lookup_lt_Some in Er as Hlt. rewrite (co_cur _ _ _ _ Hc) in Hlt.
    destruct (lookup_lt_is_Some_2 cs id) as [content Hcs]; [rewrite (co_len _ _ _ _ Hc), (co_cur _ _ _ _ Hc); lia|].
    split_and!; [lia|done|]. exists content. split; [done|]. eapply co_sealed; [done|lia|done|done].
Qed.

(** The copies of a sealed chunk are the sealed chunk. *)
Lemma copies_agree c recs cs id r content ct h x :
  chunks_ok c recs cs -> sealed_ok c id r content -> chash r = Some h -> held c h x ->
  payload (at_rest_dek c) (uuid (manifest c)) id content = Some ct -> h = digest ct /\ x = ct.
Proof.
  intros Hc (_ & ct' & Hp & Hh & Hst & _) Hh' Hx Hp'. rewrite Hp in Hp'. injection Hp' as <-. rewrite Hh in Hh'. injection Hh' as <-.
  split; [done|]. pose proof (co_store _ _ _ _ Hc (digest ct')) as Ha.
  destruct Hx as [Hx|Hx], Hst as [Hst|[_ Hst]]; try congruence; [by apply Ha|symmetry; by apply Ha].
Qed.

(** The object store gains a copy of what the pool has. *)
Lemma put_chunks c recs cs h x :
  chunks_ok c recs cs -> pool c !! h = Some x -> chunks_ok (c <| storage := <[h := x]> (storage c) |>) recs cs.
Proof.
  intros Hc Hp. pose proof (co_store _ _ _ _ Hc) as Ha.
  assert (Hw : world_ok c (pool c) (<[h := x]> (storage c)) (env c)).
  { split_and!; [| | |apply Hc..].
    - intros h' y Hy. destruct (decide (h' = h)) as [->|Hne]; [|by rewrite lookup_insert_ne].
      rewrite lookup_insert_eq. f_equal. by apply (Ha h).
    - intros h' y Hy. by left.
    - intros h' y z Hy. destruct (decide (h' = h)) as [->|Hne]; [rewrite lookup_insert_eq; congruence|].
      rewrite lookup_insert_ne by done. by apply Ha. }
  eapply chunks_frame; [|exact (world_chunks _ _ _ (pool_budget c) _ _ _ Hc Hw)]. done.
Qed.

(** ** Uploads *)

Definition put_state (c : Cartridge) (a : list bool) (st : gmap (list Z) (list Z)) : Cartridge :=
  (accounted c (pool_budget c) a) <| storage := st |>.

Lemma upload_inert_spec c recs cs h :
  chunks_ok c recs cs ->
  wp (upload_chunk_inert h) (fun c' r => exists a st, c' = put_state c a st /\ chunks_ok c' recs cs /\
    match r with Ok _ => is_Some (st !! h) | Err _ => True end) c.
Proof.
  intros Hc. assert (Hsame : forall a, put_state c a (storage c) = accounted c (pool_budget c) a) by (by intros; destruct c).
  assert (Hacc : forall a, chunks_ok (accounted c (pool_budget c) a) recs cs) by (intros; by apply accounted_ok).
  unfold upload_chunk_inert. apply wp_get, wp_bind.
  apply wp_mono with (Q := fun c1 r => exists a, c1 = accounted c (pool_budget c) a /\
    match r with Ok b => b = true -> is_Some (storage c !! h) | Err _ => True end).
  { destruct (dedup_namespace (manifest c)).
    - exists (answers (env c)). by rewrite accounted_id.
    - apply wp_bind, wp_answer. intros b a _. destruct b; (exists a; split; [done|]); [|done]. by intros ?%bool_decide_eq_true. }
  intros c1 [hit|e] (a & -> & Hhit); [|exists a, (storage c); by rewrite Hsame]. destruct hit.
  { exists a, (storage c). rewrite Hsame. auto. }
  apply wp_of_result. destruct (pool c !! h) as [data|] eqn:Ep; cbn [ok_or]; [|exists a, (storage c); by rewrite Hsame].
  apply wp_bind, wp_answer. intros b a' _. destruct b.
  - apply wp_modify. exists a', (<[h := data]> (storage c)). split; [done|]. split; [|by rewrite lookup_insert_eq].
    eapply chunks_frame; [|exact (put_chunks _ _ _ _ _ Hc Ep)]. done.
  - exists a', (storage c). rewrite Hsame. split; [done|]. by split; [apply Hacc|].
Qed.

(** The outcome of an upload whose object is there. *)
Lemma upload_outcome_spec id hit put_bytes comp c recs cs rss t :
  rep c recs cs rss t ->
  (forall r, read_chunk_rec c id = Ok r -> exists h, chash r = Some h /\ is_Some (storage c !! h)) ->
  wp (apply_chunk_upload_outcome id hit put_bytes comp) (fun c' r => exists recs', rep c' recs' cs rss t /\ r = Ok tt) c.
Proof.
  intros [Hc Ht] Hst. unfold apply_chunk_upload_outcome. apply wp_modify.
  set (c1 := c <| runtime := _ |>). assert (Hc1 : chunks_ok c1 recs cs) by (by apply (chunks_frame _ c)).
  assert (Ht1 : tape_repr overwrites c1 cs rss t) by (apply (tape_frame _ c _ cs); [by destruct put_bytes|done|done]).
  apply wp_get. change (read_chunk_rec c1 id) with (read_chunk_rec c id).
  destruct (read_chunk_rec c id) as [r|e] eqn:Er; [|by exists recs].
  destruct (Hst r eq_refl) as (h & Hh & x & Hx). cbv zeta.
  destruct (sealed_record _ _ _ _ _ _ Hc Er Hh) as (Hid & Hrec & content & Hcs & Hs).
  pose proof Hs as (Hsz & ct & Hp & Hct & Hstored & _ & _).
  destruct (copies_agree _ _ _ _ _ _ ct h x Hc Hs Hh (or_intror Hx) Hp) as [-> ->].
  set (r' := if hit then _ else _). assert (Hr' : csize r' = csize r /\ chash r' = chash r /\ location r' = Both) by (by destruct hit).
  destruct Hr' as (Hr1 & Hr2 & Hr3). unfold wp, ignore.
  pose proof (update_sealed_spec evicts c1 recs cs id r r' content Hc1 Hid Hrec Hcs) as Hu.
  assert (Hs' : sealed_ok c1 id r' content).
  { split; [congruence|]. exists ct. split_and!; [done|congruence|done|done|congruence]. }
  specialize (Hu Hs' Hr1 Hr2). unfold wp in Hu. destruct (update_chunk_rec id r' c1) as [c2 res].
  destruct Hu as (-> & idx & -> & Hc2). eexists. split; [|done]. split; [exact Hc2|]. by apply (tape_frame _ c1 _ cs).
Qed.

Lemma upload_spec id comp c recs cs rss t :
  rep c recs cs rss t ->
  wp (upload_chunk_to_storage id comp) (fun c' r => exists recs', rep c' recs' cs rss t) c.
Proof.
  intros [Hc Ht]. unfold upload_chunk_to_storage. apply wp_get.
  destruct (pending_upload_payload c id) as [h|] eqn:Eh.
  2: { apply wp_of_result. by destruct (read_chunk_rec c id); exists recs. }
  unfold pending_upload_payload in Eh. destruct (read_chunk_rec c id) as [r|] eqn:Er; [|done]. destruct (uploaded r); [done|].
  destruct (storage_backend c); apply wp_bind; [|by exists recs].
  apply wp_bind. eapply wp_mono; [by eapply upload_inert_spec|].
  intros c1 [[hit put]|e] (a & st & -> & Hc1 & Hh).
  2: { exists recs. split; [done|]. by apply (tape_frame _ c _ cs). }
  apply wp_bind. eapply wp_mono; [apply (upload_outcome_spec id hit put comp _ recs cs rss t)|].
  - split; [done|]. by apply (tape_frame _ c _ cs).
  - change (read_chunk_rec (put_state c a st) id) with (read_chunk_rec c id). rewrite Er. intros ? [= <-]. by exists h.
  - intros c2 r2 (recs2 & Hrep2 & ->). by exists recs2.
Qed.

(** ** Evictions *)

Lemma evicted_spec id c recs cs rss t :
  rep c recs cs rss t -> evicts = true ->
  wp (mark_chunk_evicted id) (fun c' r => exists recs', rep c' recs' cs rss t) c.
Proof.
  intros [Hc Ht] Hev. unfold mark_chunk_evicted. apply wp_get, wp_of_result.
  destruct (read_chunk_rec c id) as [r|e] eqn:Er; [|by exists recs]. destruct (chash r) as [h|] eqn:Eh; [|by exists recs].
  destruct (uploaded r) eqn:Eu; [|by exists recs]. cbn [negb]. destruct (location r); [by exists recs..|].
  destruct (sealed_record _ _ _ _ _ _ Hc Er Eh) as (Hid & Hrec & content & Hcs & Hsz & ct & Hp & Hct & Hst & Hup & _).
  eapply wp_mono; [eapply (update_sealed_spec evicts c recs cs id r); try done|].
  - split; [done|]. exists ct. by split_and!.
  - intros c' res (_ & idx & -> & Hc'). eexists. split; [exact Hc'|]. by apply (tape_frame _ c _ cs).
Qed.
End store.
