(* ===== verification/CartridgeReload.v ===== *)
(** * Unloading, reloading and crash recovery of a cartridge

    Unloading seals the trailing chunk; a reopen finds the tape as it was.
    After a crash the trailing chunk is cut where the block records say it
    ends: the tape is kept as long as no block was replaced in place. *)

From Stdlib Require Import String.
From S2P Require Import Prelude Bytes ByteFile BTreeMap DirtyPages TrackedFile FastCdc StreamLru ChunkIndex BlockIndex IndexCodec PoolBudget Crypto StateError Cartridge CartridgeOps CartridgeOpen CartridgeInv Tape CartridgeTape CartridgeRead CartridgeForm.

Local Open Scope Z_scope.
Local Open Scope thur_scope.

(** ** The tail of the trailing chunk *)

Section tail.
Context (id : nat) (N : Z).

Definition in_tail (r : BlockRec) : Prop := chunk_id r = Z.of_nat id.
Definition rec_end (r : BlockRec) : Z := offset r + blen r.

Lemma tail_end_spec b rs lba e :
  BlockIndex.live b rs -> (lba <= length rs)%nat -> Forall (fun r => in_tail r -> rec_end r <= N) rs -> e <= N ->
  exists e', tail_end b id lba e = Ok e' /\ e <= e' <= N /\
    (ordered rs -> Forall (fun r => chunk_id r <= Z.of_nat id) rs ->
     forall i r, (i < lba)%nat -> rs !! i = Some r -> in_tail r -> rec_end r <= e').
Proof.
  intros Hl Hlba HN. revert e. induction lba as [|lba IH]; intros e He; cbn [tail_end].
  { exists e. split; [done|]. split; [lia|]. lia. }
  destruct (lookup_lt_is_Some_2 rs lba ltac:(lia)) as [r Er].
  rewrite (BlockIndex.block_live_read _ _ _ Hl). unfold BlockIndex.read_spec. rewrite Er. cbn [result_bind].
  destruct (chunk_id r =? Z.of_nat id) eqn:Et; bool_to_prop; cbn [negb].
  - pose proof (Forall_lookup_1 _ _ _ _ HN Er Et) as Hr.
    destruct (IH ltac:(lia) (Z.max e (offset r + blen r))) as (e' & -> & Hb & Hall); [unfold rec_end in Hr; lia|].
    exists e'. split; [done|]. split; [lia|]. intros Ho Hc i r' Hi Hr' Ht.
    destruct (decide (i = lba)) as [->|Hne]; [simplify_eq; unfold rec_end; lia|]. apply (Hall Ho Hc i); [lia|done|done].
  - exists e. split; [done|]. split; [lia|]. intros Ho Hc i r' Hi Hr' Ht.
    pose proof (Ho i lba r' r ltac:(lia) Hr' Er). pose proof (Forall_lookup_1 _ _ _ _ Hc Er) as Hle. cbn in Hle. unfold in_tail in Ht. lia.
Qed.

Lemma recovered_spec bs rss e :
  Forall2 BlockIndex.live bs rss -> Forall (Forall (fun r => in_tail r -> rec_end r <= N)) rss -> e <= N ->
  exists e', recovered_chunk_size bs id e = Ok e' /\ e <= e' <= N /\
    (Forall ordered rss -> Forall (Forall (fun r => chunk_id r <= Z.of_nat id)) rss ->
     Forall (Forall (fun r => in_tail r -> rec_end r <= e')) rss).
Proof.
  intros Hl. revert e. induction Hl as [|b rs bs rss Hb _ IH]; intros e HN He; cbn [recovered_chunk_size].
  { exists e. split; [done|]. split; [lia|done]. }
  apply Forall_cons in HN as [HN1 HN2]. rewrite (BlockIndex.block_live_next _ _ Hb).
  destruct (tail_end_spec b rs (length rs) e Hb ltac:(lia) HN1 He) as (e1 & -> & Hb1 & Hall1). cbn [result_bind].
  destruct (IH e1 HN2 ltac:(lia)) as (e2 & -> & Hb2 & Hall2). exists e2. split; [done|]. split; [lia|].
  intros [Ho1 Ho2]%Forall_cons [Hc1 Hc2]%Forall_cons. constructor; [|by apply Hall2].
  apply Forall_lookup. intros i r Hr Ht. pose proof (Hall1 Ho1 Hc1 i r (lookup_lt_Some _ _ _ Hr) Hr Ht). lia.
Qed.
End tail.

(** ** The parts of an open *)

Definition sidecar_ok (s : option (list Z)) : Prop := exists d, open_tracker s = Ok d /\ inner_wf d.

Lemma no_sidecar_ok : sidecar_ok None.
Proof. exists (mkInner [] 0). split; [done|]. apply inner_wf_empty. Qed.

Lemma open_blocks_spec count bs rss sidecars :
  Forall2 BlockIndex.live bs rss -> (count <= length bs)%nat -> Forall sidecar_ok sidecars ->
  exists bs', open_block_indexes count (map t_file bs) sidecars = Ok bs' /\ Forall2 BlockIndex.live bs' (take count rss).
Proof.
  revert bs rss sidecars. induction count as [|count IH]; intros bs rss sidecars Hl Hc Hs; [exists []; by split|].
  destruct Hl as [|b rs bs rss Hb Hl]; simpl in Hc; [lia|]. cbn [open_block_indexes map head tail].
  assert (Hs1 : sidecar_ok (default None (head sidecars))) by (destruct Hs; [apply no_sidecar_ok|done]).
  assert (Hs2 : Forall sidecar_ok (tail sidecars)) by (by destruct Hs).
  destruct Hs1 as (d & Ed & Hd). destruct (BlockIndex.block_live_reopen _ _ _ _ Hb Ed Hd) as (b' & -> & Hb'). cbn [result_bind].
  destruct (IH bs rss (tail sidecars) Hl ltac:(lia) Hs2) as (bs' & -> & Hbs'). exists (b' :: bs'). split; [done|]. by constructor.
Qed.

Definition sizes (recs : list ChunkRec) : Z := foldr (fun r a => csize r + a) 0 recs.

Lemma sum_sizes_spec cur k recs total :
  Forall (fun r => 0 <= csize r) recs -> (k + length recs <= cur)%nat -> 0 <= total ->
  forall rest, sum_sizes cur (imap (fun i r => Ok (k + i, r)%nat) recs ++ rest) (Z.min u64_max total) =
    sum_sizes cur rest (Z.min u64_max (total + sizes recs)).
Proof.
  intros Hp. revert k total. induction Hp as [|r recs Hr Hp IH]; intros k total Hk Ht rest; [simpl; do 2 f_equal; lia|].
  cbn [imap app sum_sizes length] in *. rewrite Nat.add_0_r, bool_decide_eq_false_2 by lia.
  replace (sat_add64 (Z.min u64_max total) (csize r)) with (Z.min u64_max (total + csize r)) by (unfold sat_add64; lia).
  replace (imap ((fun i r0 => Ok ((k + i)%nat, r0)) ∘ S) recs) with (imap (fun i r0 => Ok (T := nat * ChunkRec) (E := SmcError) ((S k + i)%nat, r0)) recs)
    by (apply imap_ext; intros; simpl; do 2 f_equal; lia).
  rewrite IH by lia. simpl. do 2 f_equal. lia.
Qed.

Section reload.
Context `{VolumeCrypto} `{HexCodec} `{Compressor} (evicts overwrites : bool).
Context `{!HexLaws} `{!TapeCryptoLaws} `{!CompressorLaws}.
Local Notation rep := (rep evicts overwrites).
Local Notation chunks_ok := (chunks_ok evicts).
Local Notation sealed_ok := (sealed_ok evicts).
Local Notation tape_repr := (tape_repr overwrites).

Lemma initial_sealed_spec ch recs r :
  ChunkIndex.live ch (recs ++ [r]) -> initial_sealed_bytes ch (length recs) = Z.min u64_max (sizes recs).
Proof.
  intros Hl. unfold initial_sealed_bytes. rewrite (ChunkIndex.chunk_live_iter _ _ Hl), imap_app.
  destruct Hl as ([_ _ _ Hok] & _). apply Forall_app in Hok as [Hok _].
  change 0 with (Z.min u64_max 0) at 1. rewrite (sum_sizes_spec (length recs) 0 recs 0); [|by eapply Forall_impl; [exact Hok|]; intros ? [[? _] _]|lia|lia].
  cbn. by rewrite Nat.add_0_r, bool_decide_eq_true_2 by done.
Qed.

Lemma sizes_total c recs cs :
  length cs = length recs -> (forall id r content, recs !! id = Some r -> cs !! id = Some content -> sealed_ok c id r content) ->
  sizes recs = total_bytes cs.
Proof.
  intros Hlen Hs. assert (Hf : Forall2 (fun r x => csize r = Z.of_nat (length x)) recs cs).
  { apply Forall2_same_length_lookup. split; [done|]. intros i r x Hr Hx. by apply (Hs i). }
  clear Hlen Hs. induction Hf as [|r x recs cs Hr _ IH]; [done|]. simpl. by rewrite Hr, IH.
Qed.

(** What an open is given must fit the cartridge, and the host be healthy. *)
Definition opts_ok (c : Cartridge) (o : OpenOptions) : Prop :=
  o_dek o = at_rest_dek c /\ sidecar_ok (o_chunk_sidecar o) /\ Forall sidecar_ok (o_block_sidecars o) /\
  pool_io (o_env o) = [] /\ torn (o_env o) = [].

(** The sealed chunks of a cartridge that is not open. *)
Record closed (c : Cartridge) (recs : list ChunkRec) (cs : list (list Z)) : Prop := {
  cl_len : length cs = length recs;
  cl_sealed id r content : recs !! id = Some r -> cs !! id = Some content -> sealed_ok c id r content;
  cl_store : stores_agree c;
  cl_threshold : forced_cut_threshold (default (Fixed (chunk_size_bytes (manifest c))) (chunking_field (manifest c))) <= u32_max;
}.

Lemma assemble_chunks c o blocks ch lru recs cs slot cur content :
  closed c recs cs -> opts_ok c o -> ChunkIndex.live ch (recs ++ [slot]) -> fresh slot ->
  fresh cur -> csize cur = Z.of_nat (length content) -> csize cur <= u32_max ->
  chunks_ok (assemble o (on_disk c) blocks ch lru {[length recs := content]} (length recs) cur) (recs ++ [slot]) (cs ++ [content]).
Proof.
  intros [] (Hdek & _ & _ & Hio & Htorn) Hl Hslot Hcur Hsz Hmax. unfold assemble, build_chunking_state.
  assert (Hst : staged_content {[length recs := content]} (length recs) cur = content).
  { unfold staged_content. rewrite lookup_singleton_eq, bool_decide_eq_true_2 by apply Hcur. rewrite Hsz. cbn.
    destruct content; [done|]. by rewrite (proj2 (Z.ltb_lt _ _)) by (simpl; lia). }
  rewrite Hst. split; flat; cbn [on_disk d_manifest d_pool d_storage]; try done.
  - rewrite length_app. cbn. unfold StreamLru.grow_to. rewrite (ChunkIndex.chunk_live_next _ _ Hl), length_app. cbn.
    case_bool_decide; cbn; lia.
  - rewrite length_app. cbn. lia.
  - rewrite !length_app. cbn. lia.
  - exists slot. split; [|done]. by rewrite list_lookup_middle.
  - exists content. split; [by rewrite list_lookup_middle|]. by split_and!.
  - intros id r x Hid Hr Hx. rewrite lookup_app_l in Hr by done. rewrite lookup_app_l in Hx by lia.
    destruct (cl_sealed0 id r x Hr Hx) as (Hs & ct & Hp & Hrest). split; [done|]. exists ct. flat. rewrite Hdek. done.
  - rewrite (initial_sealed_spec _ _ _ Hl), take_app_le, take_ge by lia. by rewrite (sizes_total c recs cs).
Qed.

(** ** The tape after an open *)

(** Position and modes are forgotten, the partitions kept. *)
Definition reloaded (p : nat) (t : Tape) : Tape :=
  mkTape (take (length (t_barriers t)) (t_parts t)) p 0 (map (fun _ => None) (t_barriers t)) None (t_worm t) false.

Lemma none_barriers (ps : list Partition) :
  Forall (fun p => overwrite_barrier p = None) ps -> map overwrite_barrier ps = replicate (length ps) None.
Proof. induction 1 as [|p ps Hp _ IH]; [done|]. simpl. by rewrite Hp, IH. Qed.

Lemma const_map {A B} (x : B) (l : list A) : map (fun _ => x) l = replicate (length l) x.
Proof. induction l as [|a l IH]; [done|]. simpl. by rewrite IH. Qed.

Lemma assemble_tape c o cs cs' blocks ch lru files id cur rss t :
  tape_repr c cs rss t ->
  Forall2 BlockIndex.live blocks (take (length (partitions (disk_runtime c))) rss) ->
  Forall2 (Forall2 (record_ok (uuid (manifest c)) cs')) (take (length (partitions (disk_runtime c))) rss)
    (take (length (partitions (disk_runtime c))) (t_parts t)) ->
  tape_repr (assemble o (on_disk c) blocks ch lru files id cur) cs' (take (length (partitions (disk_runtime c))) rss)
    (reloaded (active_partition (disk_runtime c)) t).
Proof.
  intros [] Hl Hi. destruct tr_disk as (Ha & Hn & Hb). unfold assemble, build_chunking_state.
  pose proof (Forall2_length _ _ _ Hl) as Hlen. rewrite length_take, <- (Forall2_length _ _ _ tr_index) in Hlen.
  assert (Hnb : length (t_barriers t) = length (partitions (disk_runtime c))) by (rewrite tr_barriers, length_map; lia).
  split; flat; unfold reloaded; cbn [on_disk d_manifest d_runtime t_parts t_active t_head t_barriers t_drive t_worm t_held]; try done.
  - by rewrite Hnb.
  - by rewrite none_barriers, const_map, Hnb.
  - by destruct tr_gates.
  - lia.
  - lia.
  - intros E. destruct (tr_ordered E) as [Ho _]. split; [by apply Forall_take|]. by apply Forall_fmap, Forall_true.
Qed.

(** ** Opening a cartridge whose last chunk is sealed *)

Lemma open_sealed c o recs cs rss t :
  closed c recs cs -> recs <> [] -> ChunkIndex.live (chunk_index c) recs -> ChunkIndex.fits (S (length recs)) ->
  staging_files c = ∅ -> tape_repr c (cs ++ [[]]) rss t -> opts_ok c o ->
  exists c', open_cartridge o (on_disk c) = Ok c' /\ exists recs' rss',
    rep c' recs' (cs ++ [[]]) rss' (reloaded (active_partition (disk_runtime c)) t).
Proof.
  intros Hcl Hne Hl Hfit Hst Ht Ho. pose proof Ho as (Hdek & (d & Ed & Hd) & Hbs & _). pose proof Ht as [].
  destruct tr_disk as (Ha & Hn & _). unfold open_cartridge. cbn [on_disk d_runtime d_chunks d_lru d_blocks d_staging].
  rewrite bool_decide_eq_false_2 by lia. destruct (ChunkIndex.chunk_live_reopen _ _ _ _ Hl Ed Hd) as (ch & -> & Hch). cbn [result_bind].
  rewrite (ChunkIndex.chunk_live_next _ _ Hch), bool_decide_eq_false_2 by (by destruct recs).
  destruct (open_blocks_spec (length (partitions (disk_runtime c))) _ _ _ tr_index ltac:(lia) Hbs) as (bs' & -> & Hbs'). cbn [result_bind].
  unfold resume_or_create_active. rewrite (ChunkIndex.chunk_live_next _ _ Hch), bool_decide_eq_false_2 by (by destruct recs).
  destruct (exists_last Hne) as (recs0 & last & ->). rewrite length_app, Nat.add_1_r. cbn [pred].
  rewrite (ChunkIndex.chunk_live_read _ _ _ Hch). unfold ChunkIndex.read_spec. rewrite list_lookup_middle by done. cbn [result_bind].
  destruct (lookup_lt_is_Some_2 cs (length recs0)) as [content Hcs]; [rewrite (cl_len _ _ _ Hcl), length_app; simpl; lia|].
  destruct (cl_sealed _ _ _ Hcl (length recs0) last content) as (_ & ct & _ & -> & _); [by rewrite list_lookup_middle|done|].
  rewrite Hst, lookup_empty. destruct (ChunkIndex.chunk_live_append _ _ staging Hch) as (ch' & -> & Hch'); [apply staging_ok|done|].
  cbn [result_bind]. eexists. split; [done|]. eexists (_ ++ [staging]), _. split.
  - replace (S (length recs0)) with (length (recs0 ++ [last])) by (rewrite length_app; simpl; lia).
    change (<[?i := ?x]> ∅) with ({[i := x]} : gmap nat (list Z)). by apply assemble_chunks.
  - apply (assemble_tape c o (cs ++ [[]])); [done|done|]. by apply Forall2_take.
Qed.

(** ** Opening a cartridge with a staging chunk *)

(** The chunks of an open cartridge, apart from the trailing one. *)
Lemma chunks_split c recs cs :
  chunks_ok c recs cs -> exists recs0 slot cs0 content, recs = recs0 ++ [slot] /\ cs = cs0 ++ [content] /\
    length recs0 = cur_chunk_id c /\ fresh slot /\ open_ok c content /\ closed c recs0 cs0.
Proof.
  intros []. destruct co_slot as (slot & Hslot & Hf). destruct co_open as (content & Hcs & Ho).
  exists (take (cur_chunk_id c) recs), slot, (take (cur_chunk_id c) cs), content.
  assert (Hr : recs = take (cur_chunk_id c) recs ++ [slot]) by (rewrite <- take_S_r, take_ge by (done || lia); done).
  assert (Hc : cs = take (cur_chunk_id c) cs ++ [content]) by (rewrite <- take_S_r, take_ge by (done || lia); done).
  split_and!; [done|done|rewrite length_take; lia|done|done|]. split; [rewrite !length_take; lia| |done|].
  - intros id r x Hid Hx. apply lookup_take_Some in Hid as [Hid Hlt]. apply lookup_take_Some in Hx as [Hx _]. by apply co_sealed.
  - destruct co_threshold as [<- ?]. done.
Qed.

(** The staging file cut at the end of the last record. *)
Lemma cut_staging content junk e :
  0 <= e <= Z.of_nat (length content) ->
  (if e <? Z.of_nat (length (content ++ junk)) then set_len (content ++ junk) (Z.to_nat e) else content ++ junk) =
  take (Z.to_nat e) content.
Proof.
  intros He. destruct (e <? _) eqn:E; bool_to_prop.
  - unfold set_len. rewrite length_app in *. replace (Z.to_nat e - (length content + length junk))%nat with 0%nat by lia.
    rewrite app_nil_r. by rewrite take_app_le by lia.
  - rewrite length_app in E. assert (junk = []) as -> by (apply length_zero_iff_nil; lia).
    rewrite app_nil_r, take_ge by lia. done.
Qed.

(** Records keep their bytes when the trailing chunk is cut behind them. *)
Lemma record_ok_cut u cs0 content r x e :
  block_ok r -> 0 <= e -> record_ok u (cs0 ++ [content]) r x -> (in_tail (length cs0) r -> rec_end r <= e) ->
  record_ok u (cs0 ++ [take (Z.to_nat e) content]) r x.
Proof.
  intros ([Hi _] & [Ho _] & [Hl _]) He (y & Hy & Hle & Hx) Htail. destruct (decide (Z.to_nat (chunk_id r) = length cs0)) as [Ht|Hne].
  - rewrite Ht, list_lookup_middle in Hy by done. injection Hy as <-. exists (take (Z.to_nat e) content).
    rewrite Ht, list_lookup_middle by done. assert (Hend : offset r + blen r <= e) by (apply Htail; unfold in_tail; lia).
    rewrite length_take. split_and!; [done|lia|]. destruct x as [|k data]; [done|]. destruct Hx as [Hk Hx]. split; [done|].
    rewrite sl_take by lia. done.
  - exists y. split_and!; [|done|done]. apply lookup_lt_Some in Hy as Hlt. rewrite length_app in Hlt. simpl in Hlt.
    rewrite lookup_app_l in Hy |- * by lia. done.
Qed.

Lemma records_cut u cs0 content e bs rss parts :
  0 <= e -> Forall2 BlockIndex.live bs rss -> Forall2 (Forall2 (record_ok u (cs0 ++ [content]))) rss parts ->
  Forall (Forall (fun r => in_tail (length cs0) r -> rec_end r <= e)) rss ->
  Forall2 (Forall2 (record_ok u (cs0 ++ [take (Z.to_nat e) content]))) rss parts.
Proof.
  intros He Hl Hp Ht. apply Forall2_same_length_lookup. split; [by eapply Forall2_length|]. intros i rs l Hrs Hx.
  destruct (Forall2_lookup_r _ _ _ _ _ Hl Hrs) as (b & _ & Hb). apply live_block_ok in Hb.
  pose proof (Forall2_lookup_lr _ _ _ _ _ _ Hp Hrs Hx) as Hrec. pose proof (Forall_lookup_1 _ _ _ _ Ht Hrs) as Htail.
  apply Forall2_same_length_lookup. split; [by eapply Forall2_length|]. intros j r x Hr Hx'.
  apply (record_ok_cut u cs0 content); [by eapply Forall_lookup_1 in Hb|done|by eapply Forall2_lookup_lr in Hrec|].
  by apply (Forall_lookup_1 _ _ _ _ Htail Hr).
Qed.

(** The records in the trailing chunk end inside it. *)
Lemma tail_bounded u cs0 content bs rss parts :
  Forall2 BlockIndex.live bs rss -> Forall2 (Forall2 (record_ok u (cs0 ++ [content]))) rss parts ->
  Forall (Forall (fun r => in_tail (length cs0) r -> rec_end r <= Z.of_nat (length content))) rss /\
  Forall (Forall (fun r => chunk_id r <= Z.of_nat (length cs0))) rss.
Proof.
  intros Hl Hp. split; apply Forall_lookup; intros i rs Hrs; apply Forall_lookup; intros j r Hr;
    destruct (Forall2_lookup_l _ _ _ _ _ Hp Hrs) as (l & _ & Hrec); destruct (Forall2_lookup_r _ _ _ _ _ Hl Hrs) as (b & _ & Hb);
    apply live_block_ok in Hb; destruct (Forall_lookup_1 _ _ _ _ Hb Hr) as ([Hi _] & _);
    destruct (Forall2_lookup_l _ _ _ _ _ Hrec Hr) as (x & _ & y & Hy & Hle & _).
  - intros Ht. unfold in_tail in Ht. rewrite Ht, Nat2Z.id, list_lookup_middle in Hy by done. by injection Hy as <-.
  - apply lookup_lt_Some in Hy. rewrite length_app in Hy. simpl in Hy. lia.
Qed.

Definition with_junk (c : Cartridge) (junk : list Z) : Cartridge :=
  c <| staging_files := (fun f => f ++ junk) <$> staging_files c |>.

Lemma open_unsealed c o junk recs cs rss t :
  rep c recs cs rss t -> opts_ok c o -> overwrites = false \/ csize (cur_chunk c) = 0 ->
  exists c', open_cartridge o (on_disk (with_junk c junk)) = Ok c' /\ exists recs' cs' rss',
    rep c' recs' cs' rss' (reloaded (active_partition (disk_runtime c)) t).
Proof.
  intros [Hc Ht] Ho Hcase. destruct (chunks_split _ _ _ Hc) as (recs0 & slot & cs0 & content & -> & -> & Hid & Hslot & Hopen & Hcl).
  destruct Hopen as (_ & Hsz & Hmax & Hst & _). pose proof (co_index _ _ _ _ Hc) as Hl.
  pose proof Ho as (Hdek & (d & Ed & Hd) & Hbs & _). pose proof Ht as []. destruct tr_disk as (Ha & Hn & _).
  set (count := length (partitions (disk_runtime c))) in *. unfold open_cartridge.
  cbn [on_disk d_runtime d_chunks d_lru d_blocks d_staging].
  change (disk_runtime (with_junk c junk)) with (disk_runtime c). change (chunk_index (with_junk c junk)) with (chunk_index c).
  change (block_indexes (with_junk c junk)) with (block_indexes c).
  change (staging_files (with_junk c junk)) with ((fun f => f ++ junk) <$> staging_files c). fold count.
  rewrite bool_decide_eq_false_2 by lia. destruct (ChunkIndex.chunk_live_reopen _ _ _ _ Hl Ed Hd) as (ch & -> & Hch). cbn [result_bind].
  rewrite (ChunkIndex.chunk_live_next _ _ Hch), length_app, bool_decide_eq_false_2 by (simpl; lia).
  destruct (open_blocks_spec count _ _ _ tr_index ltac:(lia) Hbs) as (bs' & -> & Hbs'). cbn [result_bind].
  unfold resume_or_create_active. rewrite (ChunkIndex.chunk_live_next _ _ Hch), length_app, bool_decide_eq_false_2 by (simpl; lia).
  rewrite Nat.add_1_r. cbn [pred]. rewrite (ChunkIndex.chunk_live_read _ _ _ Hch). unfold ChunkIndex.read_spec.
  rewrite list_lookup_middle by done. cbn [result_bind]. rewrite (proj1 Hslot).
  assert (Hi' := Forall2_take _ _ _ count tr_items).
  assert (Hlen : length cs0 = length recs0) by apply Hcl.
  destruct (tail_bounded _ _ _ _ _ _ Hbs' Hi') as [Hb1 Hb2]. rewrite Hlen in Hb1, Hb2.
  destruct (recovered_spec (length recs0) (Z.of_nat (length content)) bs' (take count rss) 0 Hbs' Hb1 ltac:(lia)) as (e & -> & He & Hall).
  cbn [result_bind]. rewrite Hst, map_fmap_singleton, Hid, lookup_singleton_eq. cbn [ok_or result_bind].
  rewrite cut_staging by lia. set (content' := take (Z.to_nat e) content).
  destruct (ChunkIndex.chunk_live_overwrite _ _ (cur_chunk_id c) (slot <| csize := e |>) Hch) as (ch' & -> & Hch').
  { split; [unfold in_u32; cbn; lia|]. cbn. by rewrite (proj1 Hslot). }
  { rewrite length_app. simpl. lia. }
  cbn [result_bind]. eexists. split; [done|]. rewrite insert_singleton_eq, <- Hid. rewrite <- Hid in Hch'.
  rewrite insert_app_r_alt, Nat.sub_diag in Hch' by lia. cbn in Hch'.
  exists (recs0 ++ [slot <| csize := e |>]), (cs0 ++ [content']), (take count rss). split.
  - apply (assemble_chunks (with_junk c junk)); [by destruct Hcl|done|done|done|done| |cbn; lia].
    cbn. unfold content'. rewrite length_take. lia.
  - apply (assemble_tape (with_junk c junk) o (cs0 ++ [content])); [by apply (tape_frame _ c _ (cs0 ++ [content]))|done|].
    apply (records_cut _ _ _ _ bs'); [lia|done|done|]. rewrite Hlen.
    destruct Hcase as [Eo|Hz]; [destruct (tr_ordered Eo) as [Hord _]; apply Hall; [by apply Forall_take|done]|].
    assert (e = Z.of_nat (length content)) as -> by lia. done.
Qed.

(** ** Unloading *)

(** The trailing chunk can be sealed: its encryption does not fail. *)
Definition sealable (c : Cartridge) : Prop :=
  is_Some (payload (at_rest_dek c) (uuid (manifest c)) (cur_chunk_id c) (cur_chunk_hasher c)).

(** The runtime on disk after the unload. *)
Definition flushed (c : Cartridge) : Cartridge := c <| disk_runtime := volatile_cleared (runtime c) |>.

Lemma flushed_tape c cs rss t : tape_repr c cs rss t -> tape_repr (flushed c) cs rss t.
Proof. intros []. split; unfold flushed; flat; try done. apply cleared_disk; [done|lia]. Qed.

Lemma predecessor_sealed c recs cs :
  chunks_ok c recs cs ->
  existsb (fun e => match e with Ok (id, r) => negb (bool_decide (id = cur_chunk_id c)) && bool_decide (is_Some (chash r)) | Err _ => false end)
    (iter_all (chunk_index c)) = bool_decide (0 < cur_chunk_id c)%nat.
Proof.
  intros Hc. rewrite (ChunkIndex.chunk_live_iter _ _ (co_index _ _ _ _ Hc)). apply eq_true_iff_eq.
  rewrite existsb_exists, bool_decide_eq_true. split.
  - intros (e & Hin & He). apply list_elem_of_In, elem_of_lookup_imap in Hin as (i & r & -> & Hr).
    apply lookup_lt_Some in Hr. rewrite (co_cur _ _ _ _ Hc) in Hr. bool_to_prop. lia.
  - intros Hpos. destruct (lookup_lt_is_Some_2 recs 0) as [r Hr]; [rewrite (co_cur _ _ _ _ Hc); lia|].
    destruct (lookup_lt_is_Some_2 cs 0) as [x Hx]; [rewrite (co_len _ _ _ _ Hc), (co_cur _ _ _ _ Hc); lia|].
    exists (Ok (0%nat, r)). split; [apply list_elem_of_In, elem_of_lookup_imap; by exists 0%nat, r|].
    destruct (co_sealed _ _ _ _ Hc 0%nat r x Hpos Hr Hx) as (_ & ct & _ & -> & _).
    rewrite bool_decide_eq_false_2 by lia. done.
Qed.

Lemma no_junk c recs cs : chunks_ok c recs cs -> on_disk (with_junk c []) = on_disk c.
Proof.
  intros Hc. destruct (co_open _ _ _ _ Hc) as (content & _ & _ & _ & _ & Hst & _). unfold on_disk, with_junk. flat.
  by rewrite Hst, map_fmap_singleton, app_nil_r.
Qed.

(** An empty trailing chunk behind sealed ones is taken back. *)
Lemma unload_empty c o recs0 slot cs0 rss t :
  rep c (recs0 ++ [slot]) (cs0 ++ [[]]) rss t -> length recs0 = cur_chunk_id c -> closed c recs0 cs0 -> recs0 <> [] ->
  opts_ok c o -> staging_files c = {[cur_chunk_id c := []]} ->
  exists c', open_cartridge o (on_disk (flushed (c <| staging_files := delete (cur_chunk_id c) (staging_files c) |>
      <| chunk_index := ChunkIndex.truncate_to (chunk_index c) (cur_chunk_id c) |>
      <| lru_index := StreamLru.truncate_to (lru_index c) (cur_chunk_id c) |>))) = Ok c' /\
    exists recs' cs' rss', rep c' recs' cs' rss' (reloaded (t_active t) t).
Proof.
  intros [Hc Ht] Hid Hcl Hne Ho Hst. set (c1 := flushed _). pose proof (co_index _ _ _ _ Hc) as Hl.
  assert (Hl1 : ChunkIndex.live (chunk_index c1) recs0).
  { pose proof (ChunkIndex.chunk_live_truncate _ _ (length recs0) Hl) as Hl'. rewrite length_app in Hl'. simpl in Hl'.
    replace (length recs0 - (length recs0 + 1))%nat with 0%nat in Hl' by lia. rewrite take_app_length, app_nil_r in Hl'.
    unfold c1, flushed. flat. rewrite <- Hid. apply Hl'. destruct Hl as (_ & _ & Hf).
    eapply chunk_fits_le; [|exact Hf]. rewrite length_app. lia. }
  destruct (open_sealed c1 o recs0 cs0 rss t) as (c' & Hopen & recs' & rss' & Hrep).
  - by destruct Hcl.
  - done.
  - done.
  - destruct Hl as (_ & _ & Hf). rewrite length_app, Nat.add_1_r in Hf. done.
  - unfold c1, flushed. flat. by rewrite Hst, delete_singleton_eq.
  - apply flushed_tape. by apply (tape_frame _ c _ (cs0 ++ [[]])).
  - exact Ho.
  - exists c'. split; [done|]. exists recs', (cs0 ++ [[]]), rss'. by rewrite (tr_active _ _ _ _ _ Ht).
Qed.

(** The chunks once the trailing one is sealed. *)
Lemma sealed_closed c recs cs ct idx b a :
  chunks_ok c recs cs -> seal_clean c -> 0 < csize (cur_chunk c) -> ChunkIndex.fits (2 + length recs) ->
  payload (at_rest_dek c) (uuid (manifest c)) (cur_chunk_id c) (cur_chunk_hasher c) = Some ct ->
  ChunkIndex.overwrite (chunk_index c) (cur_chunk_id c) ((cur_chunk c) <| chash := Some (digest ct) |>) = Ok idx ->
  closed (flushed (sealed_as (accounted c b a) ct idx)) (<[cur_chunk_id c := (cur_chunk c) <| chash := Some (digest ct) |>]> recs) cs /\
  ChunkIndex.live idx (<[cur_chunk_id c := (cur_chunk c) <| chash := Some (digest ct) |>]> recs).
Proof.
  intros Hc Hclean Hpos Hfit Hp Ei. destruct (seal_index_ok evicts c recs cs ct Hc) as (idx1 & Ei1 & Hl1).
  rewrite Ei in Ei1. injection Ei1 as <-. split; [|done].
  destruct (ChunkIndex.chunk_live_append _ _ staging Hl1) as (idx2 & _ & Hl2); [apply staging_ok|rewrite length_insert; by eapply chunk_fits_le; [|exact Hfit]; lia|].
  pose proof (advance_ok evicts c recs cs ct idx idx2 (StreamLru.append (lru_index c) 0).1 None Hc Hclean Hpos Hp Hl2
    (le_n_S _ _ (co_lru _ _ _ _ Hc))) as Hadv.
  pose proof (co_cur _ _ _ _ Hc) as Hcur. pose proof (co_len _ _ _ _ Hc) as Hlen. split.
  - by rewrite length_insert.
  - intros id r x Hr Hx. apply lookup_lt_Some in Hr as Hlt. rewrite length_insert in Hlt.
    destruct (co_sealed _ _ _ _ Hadv id r x) as (Hs & ct' & Hrest); [cbn; lia|by apply lookup_app_l_Some|by apply lookup_app_l_Some|].
    split; [done|]. by exists ct'.
  - exact (co_store _ _ _ _ Hadv).
  - destruct (co_threshold _ _ _ _ Hc) as [E Hle]. by rewrite E in Hle.
Qed.

Lemma unload_reload c o recs cs rss t :
  rep c recs cs rss t -> seal_clean c -> sealable c -> opts_ok c o -> ChunkIndex.fits (2 + length recs) ->
  exists c', open_cartridge o (on_disk (drop_cartridge c)) = Ok c' /\
    exists recs' cs' rss', rep c' recs' cs' rss' (reloaded (t_active t) t).
Proof.
  intros Hrep Hclean Hseal Ho Hfit. pose proof Hrep as [Hc Ht].
  destruct (chunks_split _ _ _ Hc) as (recs0 & slot & cs0 & content & -> & -> & Hid & Hslot & ((Hn & _) & Hsz & Hmax & Hst & Hh) & Hcl).
  unfold drop_cartridge, flush_and_seal. rewrite run_bind. cbn [get]. rewrite Hn.
  destruct (csize (cur_chunk c) =? 0) eqn:Ez; bool_to_prop.
  - assert (content = []) as -> by (apply length_zero_iff_nil; lia). cbv zeta.
    rewrite (predecessor_sealed _ _ _ Hc). case_bool_decide as Hpos; cbn [negb].
    + eapply unload_empty; [done..| |done|done]. intros ->. simpl in Hid. lia.
    + unfold mret, EM_ret, persist_runtime_file, modify. cbn [fst]. change (c <| disk_runtime := _ |>) with (flushed c).
      assert (Hrep' : rep (flushed c) (recs0 ++ [slot]) (cs0 ++ [[]]) rss t)
        by (split; [by apply (chunks_frame _ c)|by apply flushed_tape]).
      rewrite <- (no_junk _ _ _ (proj1 Hrep')), (tr_active _ _ _ _ _ Ht).
      apply (open_unsealed (flushed c) o [] (recs0 ++ [slot]) (cs0 ++ [[]]) rss t); [done|exact Ho|by right].
  - pose proof (seal_current_spec evicts true c _ _ Hc Hclean) as Hs. unfold wp in Hs. rewrite run_bind.
    destruct (seal_current_chunk true c) as [c1 [[]|e]]; destruct Hs as (b & a & Hpost).
    2: { lia. }
    2: { destruct Hpost as (_ & [[_ E]|[_ E]]); [done|]. destruct Hseal as [ct E']. congruence. }
    destruct Hpost as (Hpos & content' & ct & idx & Ec & Hp & Ei & ->). rewrite Hst, lookup_singleton_eq in Ec. injection Ec as <-.
    rewrite <- Hh in Hp. destruct (sealed_closed c _ _ ct idx b a Hc Hclean Hpos Hfit Hp Ei) as [Hcl' Hl'].
    unfold mret, EM_ret, persist_runtime_file, modify. cbn [fst]. change (_ <| disk_runtime := _ |>) with (flushed (sealed_as (accounted c b a) ct idx)).
    destruct (open_sealed _ o _ _ rss t Hcl') as (c' & Hopen & recs' & rss' & Hrep').
    + intros E. apply (f_equal length) in E. rewrite length_insert, length_app in E. simpl in E. lia.
    + exact Hl'.
    + rewrite length_insert. by eapply chunk_fits_le; [|exact Hfit]; lia.
    + done.
    + apply flushed_tape. apply (tape_frame _ c _ (cs0 ++ [content])); [done|apply grows_snoc|done].
    + exact Ho.
    + exists c'. split; [done|]. eexists recs', _, rss'. rewrite (tr_active _ _ _ _ _ Ht). exact Hrep'.
Qed.
End reload.
