(* ===== verification/CartridgeHistory.v ===== *)
(** * Histories of a cartridge

    Everything that happens to a cartridge from its creation on: host
    commands, settings, uploads, evictions, the other users of the pool and
    the object store, unloading and reloading, and crashes.  The cartridge
    refines the tape of [Tape] along every history, on every branch. *)

From Stdlib Require Import String.
From S2P Require Import Prelude Bytes ByteFile BTreeMap DirtyPages TrackedFile FastCdc StreamLru ChunkIndex BlockIndex IndexCodec PoolBudget Crypto StateError Cartridge CartridgeOps CartridgeOpen CartridgeInv Tape CartridgeTape CartridgeRead CartridgeMotion CartridgeForm CartridgeStore CartridgeReload.

Local Open Scope Z_scope.
Local Open Scope thur_scope.

Inductive TapeEvent : Type :=
  | EWrite (data : list Z)
  | EFilemarks (count : nat)
  | ERead
  | EFetch
  | ERewind
  | ELocate (lba : nat)
  | ELocatePartition (p lba : nat)
  | ESpace (delta : Z)
  | ESpaceMarks (n : Z)
  | ESpaceEod
  | EErase
  | ECapacity (proportion : Z)
  | ELayout (layout : PendingPartitionLayout)
  | EFormat (format_field : Z)
  | EAllowOverwrite (p lba : nat)
  | EDriveKey (s : option DriveEncryptionState)
  | EDriveCompression (s : DriveCompressionState)
  | EMam (id fmt : Z) (value : list Z)
  | EMount
  | EResetStats
  | ELegalHold (held : bool)
  | EUpload (id : nat) (comp : option CompressionAlgo)
  | EUploaded (id : nat) (hit : bool) (put_bytes : option Z) (comp : option CompressionAlgo)
  | EEvicted (id : nat)
  | EWorld (b : PoolBudget) (pool storage : gmap (list Z) (list Z)) (e : Env)
  | EReload (o : OpenOptions)
  | ECrash (junk : list Z) (o : OpenOptions).

Inductive Outcome : Type :=
  | ODone
  | OAt (lba : nat)
  | OBlock (b : Block)
  | OSpan (moved : Z) (hit : bool)
  | OCount (moved : Z)
  | OFail (e : SmcError).

Section history.
Context `{VolumeCrypto} `{HexCodec} `{Compressor}.

Definition report {A} (f : A -> Outcome) (x : Cartridge * result A SmcError) : Cartridge * Outcome :=
  (x.1, match x.2 with Ok a => f a | Err e => OFail e end).

Definition done_ {A} (_ : A) : Outcome := ODone.

Definition reopened (c : Cartridge) (o : OpenOptions) (d : Disk) : Cartridge * Outcome :=
  match open_cartridge o d with Ok c => (c, ODone) | Err e => (c, OFail e) end.

(** A crash leaves what is on disk, and perhaps bytes of a write that had no
    record yet at the end of the staging file. *)
Definition tape_event (ev : TapeEvent) (c : Cartridge) : Cartridge * Outcome :=
  match ev with
  | EWrite data => report OAt (write_data data c)
  | EFilemarks n => report OAt (write_filemarks n c)
  | ERead => report OBlock (read_next c)
  | EFetch => report OBlock (read_next_async c)
  | ERewind => report done_ (rewind c)
  | ELocate lba => report done_ (locate lba c)
  | ELocatePartition p lba => report done_ (locate_partition p lba c)
  | ESpace delta => report (fun x => OSpan x.1 x.2) (space_records delta c)
  | ESpaceMarks n => report OCount (space_filemarks n c)
  | ESpaceEod => report done_ (space_to_eod c)
  | EErase => report done_ (erase c)
  | ECapacity p => report done_ (set_capacity_proportion p c)
  | ELayout l => report done_ (set_pending_partition_layout l c)
  | EFormat f => report done_ (apply_format_medium f c)
  | EAllowOverwrite p lba => report done_ (set_allow_overwrite p lba c)
  | EDriveKey s => report done_ (set_encryption_state s c)
  | EDriveCompression s => report done_ (set_compression_state s c)
  | EMam id fmt value => report done_ (write_mam_attribute id fmt value c)
  | EMount => report done_ (record_mount c)
  | EResetStats => report done_ (reset_stats c)
  | ELegalHold held => (c <| legal_held := held |>, ODone)
  | EUpload id comp => report done_ (upload_chunk_to_storage id comp c)
  | EUploaded id hit put comp => report done_ (apply_chunk_upload_outcome id hit put comp c)
  | EEvicted id => report done_ (mark_chunk_evicted id c)
  | EWorld b p s e => (world_step c b p s e, ODone)
  | EReload o => reopened c o (on_disk (drop_cartridge c))
  | ECrash junk o => reopened c o (on_disk (with_junk c junk))
  end.

(** ** What a history may contain *)

Context (evicts overwrites : bool).

(** Blocks and indexes keep within their width, no sealed chunk collides
    with another content, pool files leave only when the object store has
    them; a history has crashes or blocks replaced in place, not both. *)
Definition event_ok (c : Cartridge) (ev : TapeEvent) : Prop :=
  match ev with
  | EWrite data => seal_clean c /\ seal_clean (write_block data c).1 /\ write_fits c data
  | EFilemarks n => BlockIndex.fits (n + active_next_lba c)
  | ESpace delta => - 2 ^ 63 <= delta
  | EAllowOverwrite _ _ => overwrites = true
  | EUploaded id _ _ _ =>
      forall r, read_chunk_rec c id = Ok r -> exists h, chash r = Some h /\ is_Some (storage c !! h)
  | EEvicted _ => evicts = true
  | EWorld _ p s e => world_ok evicts c p s e
  | EReload o => seal_clean c /\ sealable c /\ opts_ok c o /\ ChunkIndex.fits (2 + t_next (chunk_index c))
  | ECrash _ o => overwrites = false /\ opts_ok c o
  | _ => True
  end.

Fixpoint run_events (evs : list TapeEvent) (c : Cartridge) : Cartridge * list Outcome :=
  match evs with
  | [] => (c, [])
  | ev :: evs => let (c1, o) := tape_event ev c in let (c2, os) := run_events evs c1 in (c2, o :: os)
  end.

Fixpoint events_ok (c : Cartridge) (evs : list TapeEvent) : Prop :=
  match evs with
  | [] => True
  | ev :: evs => event_ok c ev /\ events_ok (tape_event ev c).1 evs
  end.

(** ** What the tape does *)

Definition at_result {A} (f : A -> Outcome) (P : result A SmcError -> Tape -> Prop) (o : Outcome) (t' : Tape) : Prop :=
  exists r, o = match r with Ok a => f a | Err e => OFail e end /\ P r t'.

Definition tape_step (t : Tape) (ev : TapeEvent) (o : Outcome) (t' : Tape) : Prop :=
  match ev with
  | EWrite data => at_result OAt (write_outcome t data) o t'
  | EFilemarks n => at_result OAt (marks_outcome t n) o t'
  | ERead | EFetch => at_result OBlock (read_outcome (evicts = true) t) o t'
  | ERewind => o = ODone /\ t' = with_head 0 t
  | ELocate lba =>
      if bool_decide (length (items t) < lba)%nat then o = OFail past_eot /\ t' = t else o = ODone /\ t' = with_head lba t
  | ELocatePartition p lba => at_result done_ (locate_outcome p lba t) o t'
  | ESpace delta => o = OSpan (space_blocks_to delta t).2.1 (space_blocks_to delta t).2.2 /\ t' = (space_blocks_to delta t).1
  | ESpaceMarks n => o = OCount (space_marks_to n t).2 /\ t' = (space_marks_to n t).1
  | ESpaceEod => o = ODone /\ t' = with_head (length (items t)) t
  | EErase | ECapacity _ => at_result done_ (erase_outcome t) o t'
  | EFormat f => at_result done_ (format_outcome f t) o t'
  | EAllowOverwrite p lba => at_result done_ (allow_outcome p lba t) o t'
  | EDriveKey s => o = ODone /\ t' = with_drive s t
  | ELegalHold held => o = ODone /\ t' = with_hold held t
  | EReload _ => o = ODone /\ t' = reloaded (t_active t) t
  | ECrash _ _ => o = ODone /\ exists p, (p < length (t_barriers t))%nat /\ t' = reloaded p t
  | _ => t' = t
  end.

Inductive tape_run : Tape -> list TapeEvent -> list Outcome -> Tape -> Prop :=
  | run_nil t : tape_run t [] [] t
  | run_cons t ev o t1 evs os t' : tape_step t ev o t1 -> tape_run t1 evs os t' -> tape_run t (ev :: evs) (o :: os) t'.

(** ** Refinement *)

Context `{!HexLaws} `{!TapeCryptoLaws} `{!CompressorLaws}.
Local Notation rep := (rep evicts overwrites).

Definition holds (c : Cartridge) (t : Tape) : Prop := exists recs cs rss, rep c recs cs rss t.

Lemma reported {A} (f : A -> Outcome) (m : M A) c (P : result A SmcError -> Tape -> Prop) :
  wp m (fun c' r => exists t', holds c' t' /\ P r t') c ->
  exists t', holds (report f (m c)).1 t' /\ at_result f P (report f (m c)).2 t'.
Proof.
  unfold wp, report, at_result. destruct (m c) as [c' r]. intros (t' & Hh & HP). exists t'. split; [done|]. by exists r.
Qed.

(** A command whose outcome and tape are functions of the tape. *)
Lemma reported_as {A} (f : A -> Outcome) (m : M A) c a t' :
  wp m (fun c' r => r = Ok a /\ holds c' t') c ->
  exists t1, holds (report f (m c)).1 t1 /\ (report f (m c)).2 = f a /\ t1 = t'.
Proof. unfold wp, report. destruct (m c) as [c' r]. intros [-> Hh]. by exists t'. Qed.

(** A command the tape does not see. *)
Lemma reported_unseen {A} (f : A -> Outcome) (m : M A) c t :
  wp m (fun c' r => holds c' t) c -> exists t1, holds (report f (m c)).1 t1 /\ t1 = t.
Proof. unfold wp, report. destruct (m c). by exists t. Qed.

Lemma setting_holds c t (f : Runtime -> Runtime) :
  holds c t -> partitions (f (runtime c)) = partitions (runtime c) ->
  active_partition (f (runtime c)) = active_partition (runtime c) ->
  wp (set_runtime f;; persist_runtime) (fun c' r => holds c' t) c.
Proof.
  intros (recs & cs & rss & Hrep) Hp Ha. eapply wp_mono; [by eapply setting_spec|].
  intros c' r (_ & recs' & Hrep'). by exists recs', cs, rss.
Qed.

Lemma unseen_holds c c' t : core c' = core c -> face c' = face c -> holds c t -> holds c' t.
Proof. intros Hc Hf (recs & cs & rss & Hrep). exists recs, cs, rss. by eapply unseen. Qed.

(** Host commands that move or write. *)
Lemma tape_write_step c t data :
  holds c t -> event_ok c (EWrite data) ->
  wp (write_data data) (fun c' r => exists t', holds c' t' /\ write_outcome t data r t') c.
Proof.
  intros (recs & cs & rss & Hrep) (H1' & H2' & H3'). eapply wp_mono; [by eapply write_data_spec|].
  intros c' r (recs' & cs' & rss' & t' & Hrep' & Ho). exists t'. split; [by exists recs', cs', rss'|done].
Qed.

Lemma marks_step c t n :
  holds c t -> BlockIndex.fits (n + active_next_lba c) ->
  wp (write_filemarks n) (fun c' r => exists t', holds c' t' /\ marks_outcome t n r t') c.
Proof.
  intros (recs & cs & rss & Hrep) Hf. eapply wp_mono; [by eapply write_filemarks_spec|].
  intros c' r (rss' & t' & Hrep' & Ho). exists t'. split; [by exists recs, cs, rss'|done].
Qed.

Lemma tape_read_step c t :
  holds c t -> wp read_next (fun c' r => exists t', holds c' t' /\ read_outcome (evicts = true) t r t') c.
Proof.
  intros (recs & cs & rss & Hrep). eapply wp_mono; [by eapply read_next_spec|].
  intros c' r (t' & Hrep' & Ho). exists t'. split; [by exists recs, cs, rss|done].
Qed.

Lemma read_outcome_mono (P Q : Prop) t r t' : (P -> Q) -> read_outcome P t r t' -> read_outcome Q t r t'.
Proof.
  intros HPQ. unfold read_outcome, item_read. destruct (items t !! t_head t) as [[|k d]|]; [done| |done].
  intros [[[Hp He]|Hr] Ht]; split; auto.
Qed.

Lemma fetch_step c t :
  holds c t -> wp read_next_async (fun c' r => exists t', holds c' t' /\ read_outcome (evicts = true) t r t') c.
Proof.
  intros (recs & cs & rss & Hrep). eapply wp_mono; [by eapply read_next_async_spec|].
  intros c' r (recs' & t' & Hrep' & Ho). exists t'. split; [by exists recs', cs, rss|].
  eapply read_outcome_mono; [|exact Ho]. tauto.
Qed.

Lemma locate_partition_step c t p lba :
  holds c t -> wp (locate_partition p lba) (fun c' r => exists t', holds c' t' /\ locate_outcome p lba t r t') c.
Proof.
  intros (recs & cs & rss & Hrep). eapply wp_mono; [by eapply locate_partition_spec|].
  intros c' r (recs' & t' & Hrep' & Ho). exists t'. split; [by exists recs', cs, rss|done].
Qed.

Lemma form_step c t (m : M unit) (P : result unit SmcError -> Tape -> Prop) :
  holds c t ->
  (forall recs cs rss, rep c recs cs rss t ->
    wp m (fun c' r => exists recs' rss' t', rep c' recs' cs rss' t' /\ P r t') c) ->
  wp m (fun c' r => exists t', holds c' t' /\ P r t') c.
Proof.
  intros (recs & cs & rss & Hrep) Hm. eapply wp_mono; [by eapply Hm|].
  intros c' r (recs' & rss' & t' & Hrep' & Ho). exists t'. split; [by exists recs', cs, rss'|done].
Qed.

Lemma exact_step c t {A} (m : M A) (a : A) t' :
  holds c t ->
  (forall recs cs rss, rep c recs cs rss t -> wp m (fun c' r => r = Ok a /\ rep c' recs cs rss t') c) ->
  wp m (fun c' r => r = Ok a /\ holds c' t') c.
Proof.
  intros (recs & cs & rss & Hrep) Hm. eapply wp_mono; [by eapply Hm|]. intros c' r (-> & Hrep'). split; [done|]. by exists recs, cs, rss.
Qed.

Lemma storage_step c t {A} (m : M A) :
  holds c t ->
  (forall recs cs rss, rep c recs cs rss t -> wp m (fun c' r => exists recs', rep c' recs' cs rss t) c) ->
  wp m (fun c' r => holds c' t) c.
Proof.
  intros (recs & cs & rss & Hrep) Hm. eapply wp_mono; [by eapply Hm|]. intros c' r (recs' & Hrep'). by exists recs', cs, rss.
Qed.

Lemma locate_step c t lba :
  holds c t -> exists t', holds (tape_event (ELocate lba) c).1 t' /\ tape_step t (ELocate lba) (tape_event (ELocate lba) c).2 t'.
Proof.
  intros (recs & cs & rss & Hrep). pose proof (locate_spec evicts overwrites lba c recs cs rss t Hrep) as Hl. unfold wp in Hl.
  cbn [tape_event tape_step]. unfold report. destruct (locate lba c) as [c' r]. case_bool_decide; destruct Hl as [-> Hrep'].
  - exists t. split; [by exists recs, cs, rss|done].
  - exists (with_head lba t). split; [by exists recs, cs, rss|done].
Qed.

Lemma reload_step c t o :
  holds c t -> event_ok c (EReload o) ->
  exists t', holds (tape_event (EReload o) c).1 t' /\ tape_step t (EReload o) (tape_event (EReload o) c).2 t'.
Proof.
  intros (recs & cs & rss & Hrep) (Hclean & Hseal & Ho & Hfit). rewrite (rep_length _ _ _ _ _ _ _ Hrep) in Hfit.
  destruct (unload_reload evicts overwrites c o recs cs rss t Hrep Hclean Hseal Ho Hfit) as (c' & E & recs' & cs' & rss' & Hrep').
  cbn [tape_event tape_step]. unfold reopened. rewrite E. eexists. split; [by exists recs', cs', rss'|done].
Qed.

Lemma crash_step c t junk o :
  holds c t -> event_ok c (ECrash junk o) ->
  exists t', holds (tape_event (ECrash junk o) c).1 t' /\ tape_step t (ECrash junk o) (tape_event (ECrash junk o) c).2 t'.
Proof.
  intros (recs & cs & rss & Hrep) (Hov & Ho).
  destruct (open_unsealed evicts overwrites c o junk recs cs rss t Hrep Ho (or_introl Hov)) as (c' & E & recs' & cs' & rss' & Hrep').
  cbn [tape_event tape_step]. unfold reopened. rewrite E. eexists. split; [by exists recs', cs', rss'|]. split; [done|].
  eexists. split; [|done]. destruct Hrep as [_ []]. rewrite tr_barriers, length_map. destruct tr_disk as (Ha & Hn & _). lia.
Qed.

Lemma hold_step c t held : holds c t -> holds (c <| legal_held := held |>) (with_hold held t).
Proof.
  intros (recs & cs & rss & Hc & Ht). exists recs, cs, rss. split; [by apply (chunks_frame _ c)|].
  destruct Ht. split; try done. by destruct tr_gates.
Qed.

(** The settings, uploads and evictions. *)
Lemma settings_step c t ev :
  holds c t -> event_ok c ev ->
  match ev with
  | ELayout _ | EDriveCompression _ | EMam _ _ _ | EMount | EResetStats | EUpload _ _ | EUploaded _ _ _ _
  | EEvicted _ | EWorld _ _ _ _ => exists t1, holds (tape_event ev c).1 t1 /\ t1 = t
  | _ => True
  end.
Proof.
  intros Hh Hok. destruct ev; try done; cbn [tape_event]; try apply reported_unseen.
  - apply storage_step; [done|]. intros recs cs rss Hrep. eapply wp_mono; [by eapply (pending_layout_spec evicts overwrites)|].
    intros c' r (recs' & Hrep' & _). by exists recs'.
  - by apply (unseen_holds c).
  - by apply setting_holds.
  - by apply setting_holds.
  - by apply setting_holds.
  - apply storage_step; [done|]. intros recs cs rss Hrep. by eapply (upload_spec evicts overwrites).
  - apply storage_step; [done|]. intros recs cs rss Hrep. eapply wp_mono; [by apply (upload_outcome_spec evicts overwrites _ _ _ _ c recs cs rss t)|].
    intros c' r (recs' & Hrep' & _). by exists recs'.
  - apply storage_step; [done|]. intros recs cs rss Hrep. by eapply (evicted_spec evicts overwrites).
  - exists t. split; [|done]. destruct Hh as (recs & cs & rss & Hrep). exists recs, cs, rss. by apply world_rep.
Qed.

(** One step of the cartridge is a step of its tape. *)
Lemma step_refines c t ev :
  holds c t -> event_ok c ev ->
  exists t', holds (tape_event ev c).1 t' /\ tape_step t ev (tape_event ev c).2 t'.
Proof.
  intros Hh Hok. destruct ev; try (by eapply settings_step in Hok); cbn [tape_event tape_step].
  - by apply reported, tape_write_step.
  - by apply reported, marks_step.
  - by apply reported, tape_read_step.
  - by apply reported, fetch_step.
  - eapply (reported_as done_ _ _ tt), exact_step; [done|]. intros. by apply rewind_spec.
  - by apply locate_step.
  - by apply reported, locate_partition_step.
  - eapply (reported_as (fun x => OSpan x.1 x.2)), exact_step; [done|].
    intros recs cs rss Hrep. eapply wp_mono; [by eapply (space_records_spec evicts overwrites)|]. intros c' r [? ->]. done.
  - eapply (reported_as OCount), exact_step; [done|].
    intros recs cs rss Hrep. eapply wp_mono; [by eapply (space_filemarks_spec evicts overwrites)|]. intros c' r [? ->]. done.
  - eapply (reported_as done_ _ _ tt), exact_step; [done|]. intros. by apply space_to_eod_spec.
  - apply reported, (form_step c t); [done|]. intros. by eapply erase_tape.
  - apply reported, (form_step c t); [done|]. intros. by eapply set_capacity_spec.
  - apply reported, (form_step c t); [done|]. intros. by eapply format_spec.
  - apply reported, (form_step c t); [done|]. intros recs cs rss Hrep.
    eapply wp_mono; [by eapply allow_overwrite_spec|]. intros c' r (t' & Hrep' & Ho). by exists recs, rss, t'.
  - eapply (reported_as done_ _ _ tt), exact_step; [done|]. intros. by apply set_encryption_spec.
  - eexists. split; [by apply hold_step|done].
  - by apply reload_step.
  - by apply crash_step.
Qed.

(** ** From the creation on *)

Definition new_tape (m : Manifest) : Tape := mkTape [[]] 0 0 [None] None (worm m) false.

(** A creation on a healthy host; chunks stay below 4 GiB. *)
Definition create_ok (o : OpenOptions) (m : Manifest) (pool storage : gmap (list Z) (list Z)) : Prop :=
  sidecar_ok (o_chunk_sidecar o) /\ Forall sidecar_ok (o_block_sidecars o) /\ pool_io (o_env o) = [] /\ torn (o_env o) = [] /\
  (forall h x y, pool !! h = Some x -> storage !! h = Some y -> x = y) /\
  forced_cut_threshold (default (Fixed (chunk_size_bytes m)) (chunking_field m)) <= u32_max.

Lemma create_holds o m pool storage :
  create_ok o m pool storage -> exists c, create_cartridge o m pool storage = Ok c /\ holds c (new_tape m).
Proof.
  intros ((d & Ed & Hd) & Hbs & Hio & Htorn & Hagree & Hth). unfold create_cartridge.
  destruct (ChunkIndex.chunk_live_create _ _ Ed Hd) as (ch0 & -> & Hch0). cbn [result_bind].
  destruct (ChunkIndex.chunk_live_append _ _ staging Hch0) as (ch & -> & Hch); [apply staging_ok|vm_compute; discriminate|]. cbn [result_bind].
  cbn [open_block_indexes head]. assert (Hs1 : sidecar_ok (default None (head (o_block_sidecars o)))) by (destruct Hbs; [apply no_sidecar_ok|done]).
  destruct Hs1 as (d' & Ed' & Hd'). destruct (BlockIndex.block_live_create _ _ Ed' Hd') as (b & -> & Hb). cbn [result_bind].
  unfold build_chunking_state. set (c0 := mkCartridge _ _ _ _ _ _ _ _ _ _ _ _ _ _ _ _ _ _ _ _ _ _ _ _ _).
  assert (Hc0 : chunks_ok evicts c0 [staging] [[]]).
  { split; unfold c0; flat; try done.
    - by exists staging.
    - exists []. split; [done|]. split_and!; [done|done|vm_compute; discriminate|done|done].
    - intros id r x Hid. cbn in Hid. lia. }
  pose proof (persist_spec evicts c0 _ _ Hc0) as Hp. unfold wp in Hp. destruct (persist_runtime c0) as [c1 r].
  destruct Hp as (-> & idx & -> & Hc1). eexists. split; [done|]. eexists _, _, [[]]. split; [exact Hc1|].
  split; unfold c0; flat; cbn [new_tape t_parts t_active t_head t_barriers t_drive t_worm t_held]; try done.
  - constructor; [exact Hb|constructor].
  - constructor; constructor.
  - cbn. lia.
  - apply cleared_disk; [done|]. cbn. lia.
  - intros _. split; [|by repeat constructor]. repeat constructor. intros i j a b' _ Ha. by rewrite lookup_nil in Ha.
Qed.

Lemma tape_run_refines evs c t :
  holds c t -> events_ok c evs -> exists t', holds (run_events evs c).1 t' /\ tape_run t evs (run_events evs c).2 t'.
Proof.
  revert c t. induction evs as [|ev evs IH]; intros c t Hh Hok; [exists t; split; [done|constructor]|].
  destruct Hok as [Hev Hok]. destruct (step_refines c t ev Hh Hev) as (t1 & Hh1 & Hs). cbn [run_events].
  destruct (tape_event ev c) as [c1 o]. destruct (IH c1 t1 Hh1 Hok) as (t' & Hh' & Hr).
  destruct (run_events evs c1) as [c2 os]. exists t'. split; [done|]. by econstructor.
Qed.

End history.

(** ** What a backup reads back *)

Inductive Save : Type := SBlock (data : list Z) | SMark.

Definition save_event (x : Save) : TapeEvent := match x with SBlock d => EWrite d | SMark => EFilemarks 1 end.

Definition saved_block (i : nat) (x : Save) : Outcome :=
  OBlock (match x with SBlock d => mkTapeBlock Data d i | SMark => mkTapeBlock Filemark [] i end).

Definition acknowledged (o : Outcome) : Prop := exists lba, o = OAt lba.

(** A drive that can read what it writes. *)
Definition drive_reads (k : option DriveEncryptionState) : Prop :=
  match k with Some s => decryption_mode s <> DecryptDisable | None => True end.

Section backup.
Context `{VolumeCrypto} `{HexCodec} `{Compressor} (w : bool).
Local Notation tape_run := (tape_run false).
Local Notation tape_step := (tape_step false).

(** The tape of one partition, written from its beginning. *)
Definition tape_with (l : list Item) (h : nat) (k : option DriveEncryptionState) : Tape := mkTape [l] 0 h [None] k w false.

Definition saved_item (k : option DriveEncryptionState) (x : Save) : Item :=
  match x with SBlock d => TBlock (write_key (tape_with [] 0 k)) d | SMark => TMark end.

Lemma tape_run_app t evs1 evs2 os t' :
  tape_run t (evs1 ++ evs2) os t' <->
  exists os1 os2 t1, os = os1 ++ os2 /\ length os1 = length evs1 /\ tape_run t evs1 os1 t1 /\ tape_run t1 evs2 os2 t'.
Proof.
  split.
  - revert t os. induction evs1 as [|ev evs1 IH]; intros t os Hr; [exists [], os, t; split_and!; [done..|constructor|done]|].
    inversion Hr as [|? ? o t1 ? os' ? Hs Hr']; subst. destruct (IH t1 os' Hr') as (os1 & os2 & t2 & -> & Hl & H1' & H2').
    exists (o :: os1), os2, t2. split_and!; [done|simpl; lia|by econstructor|done].
  - intros (os1 & os2 & t1 & -> & _ & H1' & H2'). induction H1' as [|t ev o t1 evs os t2 Hs _ IH]; [done|]. simpl. econstructor; eauto.
Qed.

Lemma put_at_end l k x : put x (tape_with l (length l) k) = tape_with (l ++ [x]) (length (l ++ [x])) k.
Proof.
  unfold put, in_place, tape_with, items. cbn. rewrite bool_decide_eq_false_2 by lia. cbn. unfold with_items. cbn.
  by rewrite take_ge, length_app, Nat.add_1_r by lia.
Qed.

Lemma mark_at_end l k : put_marks 1 (tape_with l (length l) k) = tape_with (l ++ [TMark]) (length (l ++ [TMark])) k.
Proof.
  unfold put_marks, cut, in_place, tape_with, items. cbn. rewrite bool_decide_eq_false_2 by lia. cbn. unfold with_items. cbn.
  by rewrite take_ge, length_app by lia.
Qed.

Lemma not_refused l k : refused (tape_with l (length l) k) true = None.
Proof. unfold refused, tape_with, items. cbn. rewrite bool_decide_eq_true_2 by done. by rewrite andb_false_r. Qed.

Lemma save_step l k x o t' :
  tape_step (tape_with l (length l) k) (save_event x) o t' -> acknowledged o ->
  t' = tape_with (l ++ [saved_item k x]) (length (l ++ [saved_item k x])) k.
Proof.
  intros Hs (lba & ->). destruct x as [d|]; cbn in Hs; destruct Hs as ([lba'|e] & Ho & Hp); try done.
  - unfold write_outcome in Hp. rewrite not_refused in Hp. destruct Hp as [_ ->]. apply put_at_end.
  - unfold marks_outcome in Hp. rewrite bool_decide_eq_false_2, not_refused in Hp by done. destruct Hp as [_ ->]. apply mark_at_end.
Qed.

Lemma saves_run saves l k os t' :
  tape_run (tape_with l (length l) k) (map save_event saves) os t' -> Forall acknowledged os ->
  t' = tape_with (l ++ map (saved_item k) saves) (length (l ++ map (saved_item k) saves)) k.
Proof.
  revert l os. induction saves as [|x saves IH]; intros l os Hr Ha; inversion Hr as [|? ? o t1 ? os' ? Hs Hr']; subst.
  - by rewrite app_nil_r.
  - apply Forall_cons in Ha as [Ho Ha]. apply save_step in Hs; [|done]. subst t1. apply IH in Hr'; [|done]. subst t'.
    by rewrite <- app_assoc.
Qed.

Lemma read_saved l k i x o t' :
  drive_reads k -> l !! i = Some (saved_item k x) -> tape_step (tape_with l i k) ERead o t' ->
  o = saved_block i x /\ t' = tape_with l (S i) k.
Proof.
  intros Hk Hx (r & -> & Hr). unfold read_outcome, items in Hr. cbn in Hr. rewrite Hx in Hr. destruct Hr as [Hread ->].
  destruct x as [d|]; cbn in Hread.
  - destruct Hread as [[? _]|(p & Hp & ->)]; [done|]. assert (p = Ok d) as ->; [|done].
    unfold block_read, write_key in Hp. cbn in Hp. destruct k as [s|]; [|done]. cbn in Hk.
    destruct (encrypt_on_write s); [|done]. destruct (decryption_mode s); (done || by apply Hp).
  - subst r. done.
Qed.

Lemma reads_run saves l k i os t' :
  drive_reads k -> l = take i l ++ map (saved_item k) saves -> (i <= length l)%nat ->
  tape_run (tape_with l i k) (map (fun _ => ERead) saves) os t' -> os = imap (fun j x => saved_block (i + j) x) saves.
Proof.
  intros Hk. revert i os. induction saves as [|x saves IH]; intros i os Hl Hi Hr; inversion Hr as [|? ? o t1 ? os' ? Hs Hr']; subst; [done|].
  assert (Hx : l !! i = Some (saved_item k x)).
  { rewrite Hl. simpl. rewrite list_lookup_middle; [done|]. rewrite length_take. lia. }
  destruct (read_saved l k i x o t1 Hk Hx Hs) as [-> ->]. cbn [imap]. rewrite Nat.add_0_r. f_equal.
  rewrite (IH (S i) os'); [apply imap_ext; intros; simpl; by rewrite Nat.add_succ_r|..|exact Hr'].
  - rewrite (take_S_r _ _ _ Hx), <- app_assoc. done.
  - by apply lookup_lt_Some in Hx.
Qed.
End backup.
