(* ===== verification/CartridgeWorm.v ===== *)
(** * Write-once media and legal hold

    What the steps of the tape do to the records of a write-once tape and of
    one under legal hold. *)

From Stdlib Require Import String.
From S2P Require Import Prelude Bytes ByteFile BTreeMap DirtyPages TrackedFile FastCdc StreamLru ChunkIndex BlockIndex IndexCodec PoolBudget Crypto StateError Cartridge CartridgeOps CartridgeOpen CartridgeInv Tape CartridgeTape CartridgeRead CartridgeMotion CartridgeForm CartridgeStore CartridgeReload CartridgeHistory.

Local Open Scope nat_scope.

(** ** Appending only *)

Record extends (t t' : Tape) : Prop := {
  ex_worm : t_worm t' = t_worm t;
  ex_count : length (t_barriers t') = length (t_barriers t);
  ex_records : Forall2 prefix (t_parts t) (t_parts t');
}.

Lemma extends_kept t t' :
  t_worm t' = t_worm t -> length (t_barriers t') = length (t_barriers t) -> t_parts t' = t_parts t -> extends t t'.
Proof. intros ? ? E. split; [done..|]. rewrite E. reflexivity. Qed.

Lemma extends_refl t : extends t t.
Proof. by apply extends_kept. Qed.

Lemma extends_trans t1 t2 t3 : extends t1 t2 -> extends t2 t3 -> extends t1 t3.
Proof.
  intros [? ? Hr1] [? ? Hr2]. split; [congruence..|]. by transitivity (t_parts t2).
Qed.

Lemma extends_items l h t : items t `prefix_of` l -> extends t (with_items l h t).
Proof.
  intros Hp. split; [done..|]. cbn. unfold items in Hp. destruct (t_parts t !! t_active t) as [l0|] eqn:E; cbn in Hp.
  - rewrite <- (list_insert_id (t_parts t) (t_active t) l0) at 1 by done. apply Forall2_insert; [reflexivity|done].
  - rewrite list_insert_ge by (by apply lookup_ge_None). reflexivity.
Qed.

(** A write-once tape is only written behind its last record. *)
Lemma written_at_end t : t_worm t = true -> refused t true = None -> t_head t = length (items t).
Proof. unfold refused. intros ->. destruct (t_held t); [done|]. cbn. by case_bool_decide. Qed.

Lemma worm_refuses t : t_worm t = true -> is_Some (refused t false).
Proof. unfold refused. intros ->. destruct (t_held t); by eexists. Qed.

Lemma end_not_in_place t : t_head t = length (items t) -> in_place t = false.
Proof. intros E. unfold in_place. rewrite bool_decide_eq_false_2 by lia. done. Qed.

Lemma extends_cut t : t_head t = length (items t) -> extends t (cut t).
Proof. intros E. unfold cut. rewrite end_not_in_place by done. apply extends_items. by rewrite E, firstn_all. Qed.

Lemma extends_put x t : t_head t = length (items t) -> extends t (put x t).
Proof.
  intros E. unfold put. rewrite end_not_in_place by done. apply extends_items. rewrite E, firstn_all. by apply prefix_app_r.
Qed.

Lemma extends_marks n t : t_head t = length (items t) -> extends t (put_marks n t).
Proof.
  intros E. unfold put_marks. apply extends_items. unfold cut. rewrite end_not_in_place by done. rewrite E, firstn_all.
  unfold items, with_items. cbn. destruct (t_parts t !! t_active t) as [l0|] eqn:E0; cbn; [|by apply prefix_nil].
  rewrite list_lookup_insert_eq by (by apply lookup_lt_Some in E0). cbn. by apply prefix_app_r.
Qed.

#[local] Hint Resolve extends_refl extends_cut extends_put extends_marks : core.

Section worm.
Context `{VolumeCrypto} `{HexCodec} `{Compressor} (evicts : bool).

Lemma reload_extends p t : length (t_parts t) <= length (t_barriers t) -> extends t (reloaded p t).
Proof.
  intros Hn. apply extends_kept; [done|apply length_map|]. cbn. by rewrite take_ge.
Qed.

(** Reads, motions and settings keep the records and the protection. *)
Definition still (t t' : Tape) : Prop :=
  t_parts t' = t_parts t /\ t_barriers t' = t_barriers t /\ t_worm t' = t_worm t /\ t_held t' = t_held t /\
  (t_active t < length (t_barriers t) -> t_active t' < length (t_barriers t)).

Lemma still_extends t t' : still t t' -> extends t t'.
Proof. intros (Hp & Hb & Hw & _). apply extends_kept; [done|by rewrite Hb|done]. Qed.

Definition alters (ev : TapeEvent) : bool :=
  match ev with
  | EWrite _ | EFilemarks _ | EErase | ECapacity _ | EFormat _ | EAllowOverwrite _ _ | ELegalHold _ | EReload _ | ECrash _ _ => true
  | _ => false
  end.

Lemma still_step t ev o t' : alters ev = false -> tape_step evicts t ev o t' -> still t t'.
Proof.
  intros Hev Hs. destruct ev; try done; cbn in Hs; try (by subst t'); try (by destruct Hs as [_ ->]).
  - destruct Hs as (r & _ & Hs). unfold read_outcome in Hs. destruct (items t !! t_head t); destruct Hs as [_ ->]; by destruct r.
  - destruct Hs as (r & _ & Hs). unfold read_outcome in Hs. destruct (items t !! t_head t); destruct Hs as [_ ->]; by destruct r.
  - case_bool_decide; by destruct Hs as [_ ->].
  - destruct Hs as (r & _ & Hs). unfold locate_outcome in Hs. repeat case_bool_decide; destruct Hs as [_ ->]; [done..|].
    unfold still. cbn. split_and!; [done..|lia].
  - destruct Hs as [_ ->]. unfold space_blocks_to. by repeat case_match.
  - destruct Hs as [_ ->]. unfold space_marks_to. by repeat case_match.
Qed.

Lemma worm_step t ev o t' :
  t_worm t = true -> length (t_parts t) <= length (t_barriers t) -> tape_step evicts t ev o t' -> extends t t'.
Proof.
  intros Hw Hn Hs. destruct (alters ev) eqn:Ev; [|by eapply still_extends, still_step].
  pose proof (written_at_end t Hw) as Hend. destruct (worm_refuses t Hw) as [e Hf].
  destruct ev; try done; cbn in Hs; try (destruct Hs as (r & Eo & Hs));
    unfold erase_outcome, format_outcome, allow_outcome in Hs; rewrite ?Hf in Hs; try (by destruct Hs as [_ ->]).
  - unfold write_outcome in Hs. destruct (refused t true); [by destruct Hs as [_ ->]|]. specialize (Hend eq_refl).
    destruct r; [by destruct Hs as [_ ->]; auto|]. destruct Hs as [[_ ->]|[[_ ->]|[_ ->]]]; auto.
  - unfold marks_outcome in Hs. case_bool_decide; [by destruct Hs as [_ ->]|]. destruct (refused t true); [by destruct Hs as [_ ->]|].
    specialize (Hend eq_refl). destruct r; [by destruct Hs as [_ ->]; auto|]. destruct Hs as [[_ ->]|[[_ ->]|[_ ->]]]; auto.
  - destruct Hs as [_ ->]. by apply reload_extends.
  - destruct Hs as [_ ->]. by apply reload_extends.
Qed.

Lemma worm_run t evs os t' :
  tape_run evicts t evs os t' -> t_worm t = true -> length (t_parts t) <= length (t_barriers t) -> extends t t'.
Proof.
  induction 1 as [|t ev o t1 evs os t' Hs _ IH]; intros Hw Hn; [done|]. pose proof (worm_step _ _ _ _ Hw Hn Hs) as Hx.
  eapply extends_trans; [exact Hx|]. destruct Hx as [Hx1 Hx2 Hx3]. apply IH; [congruence|]. apply Forall2_length in Hx3. lia.
Qed.

(** ** Legal hold *)

Definition lifts_hold (ev : TapeEvent) : Prop :=
  match ev with ELegalHold _ | EReload _ | ECrash _ _ => True | _ => False end.

Lemma hold_refuses t b : t_held t = true -> refused t b = Some LegalHoldViolation.
Proof. unfold refused. by intros ->. Qed.

Lemma held_step t ev o t' :
  t_held t = true -> ~ lifts_hold ev -> tape_step evicts t ev o t' -> t_held t' = true /\ t_parts t' = t_parts t.
Proof.
  intros Hh Hev Hs. destruct (alters ev) eqn:Ea; [|by destruct (still_step _ _ _ _ Ea Hs) as (Hp & _ & _ & -> & _)].
  destruct ev; cbn in Hs, Hev; try done; destruct Hs as (r & _ & Hs);
    unfold write_outcome, marks_outcome, erase_outcome, format_outcome, allow_outcome in Hs;
    rewrite (hold_refuses t) in Hs by done; try case_bool_decide; by destruct Hs as [_ ->].
Qed.

Lemma held_run t evs os t' :
  tape_run evicts t evs os t' -> t_held t = true -> Forall (fun ev => ~ lifts_hold ev) evs -> t_parts t' = t_parts t.
Proof.
  induction 1 as [|t ev o t1 evs os t' Hs _ IH]; intros Hh Hev; [done|]. apply Forall_cons in Hev as [Hev Hevs].
  destruct (held_step _ _ _ _ Hh Hev Hs) as [Hh1 Hp]. by rewrite IH.
Qed.
(** ** Between a backup and its restore *)

Definition is_restart (ev : TapeEvent) : Prop :=
  match ev with EReload _ | ECrash _ _ => True | _ => False end.

(** The one partition of a tape holds [l]. *)
Definition on_tape (w : bool) (l : list Item) (t : Tape) : Prop :=
  t_parts t = [l] /\ t_barriers t = [None] /\ t_worm t = w /\ t_active t = 0.

Lemma tape_restart_step w l ev o t t' :
  is_restart ev -> on_tape w l t -> tape_step evicts t ev o t' -> t' = tape_with w l 0 None.
Proof.
  intros Hr (Hp & Hb & Hw & Ha) Hs. destruct ev; try done; cbn in Hs; unfold reloaded in Hs; rewrite Hp, Hb, Hw in Hs.
  - rewrite Ha in Hs. by destruct Hs as [_ ->].
  - destruct Hs as (_ & p & Hlt & ->). cbn in Hlt. by assert (p = 0) as -> by lia.
Qed.

Lemma quiet_step w l ev o t t' :
  is_restart ev \/ alters ev = false -> on_tape w l t -> tape_step evicts t ev o t' -> on_tape w l t'.
Proof.
  intros [Hr|Hq] Ht Hs; [apply (tape_restart_step w l) in Hs; by subst|]. destruct (still_step _ _ _ _ Hq Hs) as (Hp & Hb & Hw & _ & Ha).
  destruct Ht as (Hp0 & Hb0 & Hw0 & Ha0). rewrite Hp0, Hb0, Hw0, Ha0 in *. cbn in Ha. unfold on_tape. split_and!; [done..|lia].
Qed.

Lemma quiet_run w l evs os t t' :
  tape_run evicts t evs os t' -> Forall (fun ev => is_restart ev \/ alters ev = false) evs -> on_tape w l t -> on_tape w l t'.
Proof.
  induction 1 as [|t ev o t1 evs os t' Hs _ IH]; intros Hq Ht; [done|]. apply Forall_cons in Hq as [Hev Hq].
  apply IH; [done|]. by eapply quiet_step.
Qed.
End worm.
