(* ===== verification/CartridgeDemo.v ===== *)
(** * Example cartridges

    A boolean test of the conditions on a history, sound for them, and the
    host, cartridges and histories the examples use. *)

From Stdlib Require Import String.
From S2P Require Import Prelude Bytes ByteFile BTreeMap DirtyPages TrackedFile FastCdc StreamLru ChunkIndex BlockIndex IndexCodec PoolBudget Crypto StateError Cartridge CartridgeOps CartridgeOpen CartridgeInv Tape CartridgeTape CartridgeRead CartridgeMotion CartridgeForm CartridgeStore CartridgeReload CartridgeHistory.

Local Open Scope Z_scope.
Local Open Scope thur_scope.

Section checks.
Context `{VolumeCrypto} `{HexCodec} `{Compressor} (evicts overwrites : bool).

Definition same (x : option (list Z)) (y : list Z) : bool := match x with Some x => bool_decide (x = y) | None => true end.

Definition cleanb (c : Cartridge) : bool :=
  match staging_files c !! cur_chunk_id c with
  | Some content =>
      match payload (at_rest_dek c) (uuid (manifest c)) (cur_chunk_id c) content with
      | Some ct => same (pool c !! digest ct) ct && same (storage c !! digest ct) ct
      | None => true
      end
  | None => true
  end.

Lemma same_sound x y z : same x y = true -> x = Some z -> z = y.
Proof. intros Hs ->. cbn in Hs. by apply bool_decide_eq_true in Hs. Qed.

Lemma cleanb_sound c : cleanb c = true -> seal_clean c.
Proof.
  intros Hb content ct x Hs Hp Hx. unfold cleanb in Hb. rewrite Hs, Hp in Hb. apply andb_true_iff in Hb as [H1' H2'].
  destruct Hx as [Hx|Hx]; [exact (same_sound _ _ _ H1' Hx)|exact (same_sound _ _ _ H2' Hx)].
Qed.

Definition fitsb (c : Cartridge) (data : list Z) : bool :=
  match compressed c data with Ok mid => Z.of_nat (length mid) + Z.of_nat TAG_LEN <=? u32_max | Err _ => true end &&
  (Z.of_nat (BlockIndex.record_offset (S (active_next_lba c))) <=? u32_max * PAGE_SIZE) &&
  (Z.of_nat (ChunkIndex.record_offset (2 + t_next (chunk_index c))) <=? u32_max * PAGE_SIZE).

Lemma fitsb_sound c data : fitsb c data = true -> write_fits c data.
Proof.
  unfold fitsb, write_fits, BlockIndex.fits, ChunkIndex.fits. intros Hb. apply andb_true_iff in Hb as [Hb Hc].
  apply andb_true_iff in Hb as [Hm Hb]. bool_to_prop. split_and!; [|done|done]. intros mid E. rewrite E in Hm. by bool_to_prop.
Qed.

(** A host without index sidecars, and with healthy disks. *)
Definition optsb (c : Cartridge) (o : OpenOptions) : bool :=
  bool_decide (o_dek o = at_rest_dek c) && bool_decide (o_chunk_sidecar o = None) &&
  forallb (fun s => bool_decide (s = None)) (o_block_sidecars o) &&
  bool_decide (pool_io (o_env o) = []) && bool_decide (torn (o_env o) = []).

Lemma no_sidecars l : forallb (fun s : option (list Z) => bool_decide (s = None)) l = true -> Forall sidecar_ok l.
Proof.
  intros Hl. apply Forall_forall. intros s Hs. rewrite forallb_forall in Hl. apply list_elem_of_In in Hs.
  specialize (Hl s Hs). apply bool_decide_eq_true in Hl as ->. apply no_sidecar_ok.
Qed.

Lemma optsb_sound c o : optsb c o = true -> opts_ok c o.
Proof.
  unfold optsb, opts_ok. rewrite !andb_true_iff, !bool_decide_eq_true. intros ((((Hd & Hc) & Hb) & Hi) & Ht).
  split_and!; [done| |by apply no_sidecars|done|done]. rewrite Hc. apply no_sidecar_ok.
Qed.

Definition sealableb (c : Cartridge) : bool :=
  bool_decide (is_Some (payload (at_rest_dek c) (uuid (manifest c)) (cur_chunk_id c) (cur_chunk_hasher c))).

Definition uploadedb (c : Cartridge) (id : nat) : bool :=
  match read_chunk_rec c id with
  | Ok r => match chash r with Some h => bool_decide (is_Some (storage c !! h)) | None => false end
  | Err _ => true
  end.

(** The pool and the store after others used them: nothing changed, files
    that the store has gone from the pool. *)
Definition worldb (c : Cartridge) (p s : gmap (list Z) (list Z)) (e : Env) : bool :=
  forallb (fun '(h, x) => bool_decide (s !! h = Some x)) (map_to_list (storage c)) &&
  forallb (fun '(h, x) => bool_decide (p !! h = Some x) || (evicts && bool_decide (s !! h = Some x))) (map_to_list (pool c)) &&
  forallb (fun '(h, x) => match s !! h with Some y => bool_decide (x = y) | None => true end) (map_to_list p) &&
  bool_decide (pool_io e = []) && bool_decide (torn e = []).

Lemma forallb_map (f : list Z * list Z -> bool) (m : gmap (list Z) (list Z)) h x :
  forallb f (map_to_list m) = true -> m !! h = Some x -> f (h, x) = true.
Proof. intros Hf Hx. rewrite forallb_forall in Hf. apply Hf, list_elem_of_In. by apply elem_of_map_to_list. Qed.

Lemma worldb_sound c p s e : worldb c p s e = true -> world_ok evicts c p s e.
Proof.
  unfold worldb, world_ok. rewrite !andb_true_iff, !bool_decide_eq_true. intros ((((Hs & Hp) & Ha) & Hi) & Ht).
  split_and!; [| | |done|done].
  - intros h x Hx. apply (forallb_map _ _ _ _ Hs) in Hx. by apply bool_decide_eq_true in Hx.
  - intros h x Hx. apply (forallb_map _ _ _ _ Hp) in Hx. apply orb_true_iff in Hx as [Hx|Hx].
    + left. by apply bool_decide_eq_true in Hx.
    + right. apply andb_true_iff in Hx as [? Hx]. by apply bool_decide_eq_true in Hx.
  - intros h x y Hx Hy. apply (forallb_map _ _ _ _ Ha) in Hx. rewrite Hy in Hx. by apply bool_decide_eq_true in Hx.
Qed.

Definition eventb (c : Cartridge) (ev : TapeEvent) : bool :=
  match ev with
  | EWrite data => cleanb c && cleanb (write_block data c).1 && fitsb c data
  | EFilemarks n => Z.of_nat (BlockIndex.record_offset (n + active_next_lba c)) <=? u32_max * PAGE_SIZE
  | ESpace delta => - 2 ^ 63 <=? delta
  | EAllowOverwrite _ _ => overwrites
  | EUploaded id _ _ _ => uploadedb c id
  | EEvicted _ => evicts
  | EWorld _ p s e => worldb c p s e
  | EReload o =>
      cleanb c && sealableb c && optsb c o &&
      (Z.of_nat (ChunkIndex.record_offset (2 + t_next (chunk_index c))) <=? u32_max * PAGE_SIZE)
  | ECrash _ o => negb overwrites && optsb c o
  | _ => true
  end.

Fixpoint eventsb (c : Cartridge) (evs : list TapeEvent) : bool :=
  match evs with
  | [] => true
  | ev :: evs => eventb c ev && eventsb (tape_event ev c).1 evs
  end.

Lemma eventb_sound c ev : eventb c ev = true -> event_ok evicts overwrites c ev.
Proof.
  destruct ev; cbn [eventb event_ok]; try done; rewrite ?andb_true_iff.
  - intros ((H1' & H2') & H3'). split_and!; [by apply cleanb_sound..|by apply fitsb_sound].
  - unfold BlockIndex.fits. intros. by bool_to_prop.
  - intros. by bool_to_prop.
  - unfold uploadedb. intros Hb r E. rewrite E in Hb. destruct (chash r) as [h|]; [|done]. exists h. split; [done|].
    by apply bool_decide_eq_true in Hb.
  - apply worldb_sound.
  - intros (((H1' & H2') & H3') & H4'). bool_to_prop. split_and!; [by apply cleanb_sound| |by apply optsb_sound|done].
    by apply bool_decide_eq_true in H2'.
  - intros [H1' H2']. split; [by destruct overwrites|by apply optsb_sound].
Qed.

Lemma eventsb_sound c evs : eventsb c evs = true -> events_ok evicts overwrites c evs.
Proof.
  revert c. induction evs as [|ev evs IH]; intros c Hb; [done|]. cbn [eventsb] in Hb. apply andb_true_iff in Hb as [H1' H2'].
  split; [by apply eventb_sound|by apply IH].
Qed.
End checks.

(** ** The examples *)

Definition demo_open : OpenOptions := mkOpen true None unbounded None [None] (mkEnv [] [] [] 5).
Definition demo_manifest : Manifest := mkManifest (replicate 16 9) 100 None 0 false None.
Definition demo_worm : Manifest := mkManifest (replicate 16 9) 100 None 0 true None.

Lemma demo_create `{VolumeCrypto} `{HexCodec} `{Compressor} m :
  forced_cut_threshold (default (Fixed (chunk_size_bytes m)) (chunking_field m)) <= u32_max -> create_ok demo_open m ∅ ∅.
Proof.
  intros Hm. split_and!; [apply no_sidecar_ok|by repeat constructor; apply no_sidecar_ok|done|done| |done].
  intros h x y Hx. by rewrite lookup_empty in Hx.
Qed.

Lemma created_ok `{VolumeCrypto} `{HexCodec} `{Compressor} evicts overwrites o m pool storage evs c :
  create_cartridge o m pool storage = Ok c ->
  match create_cartridge o m pool storage with Ok c => eventsb evicts overwrites c evs | Err _ => false end = true ->
  events_ok evicts overwrites c evs.
Proof. intros -> Hb. by apply eventsb_sound. Qed.

(** The outcomes of a history from the creation on. *)
Definition demo_run `{VolumeCrypto} `{HexCodec} `{Compressor} (m : Manifest) (evs : list TapeEvent) : list Outcome :=
  match create_cartridge demo_open m ∅ ∅ with Ok c => (run_events evs c).2 | Err e => [OFail e] end.

Definition demo_key : DriveEncryptionState := mkEncryption Encrypt Decrypt AllItNexus 1 (replicate 32 7) [].

(** Encrypted and compressed blocks over two chunks, the first of them
    uploaded. *)
Definition demo_upload : list TapeEvent :=
  [EDriveKey (Some demo_key); EDriveCompression (mkCompression true Lz4 3); EWrite (replicate 60 1); EWrite (replicate 60 2);
   EFilemarks 1; EWrite [7]; EUpload 0 None; EEvicted 0].

Definition demo_storage `{VolumeCrypto} `{HexCodec} `{Compressor} : gmap (list Z) (list Z) :=
  match create_cartridge demo_open demo_manifest ∅ ∅ with Ok c => storage (run_events demo_upload c).1 | Err _ => ∅ end.

(** The pool emptied, everything read back over a crash and a reload, the
    tape erased. *)
Definition demo_events `{VolumeCrypto} `{HexCodec} `{Compressor} : list TapeEvent :=
  demo_upload ++
  [EWorld unbounded ∅ demo_storage (mkEnv [] [] [] 6); ERewind; EFetch; ERead; ESpaceMarks 1; ESpace (-2); ECrash [1; 2] demo_open;
   EDriveKey (Some demo_key); ESpace 1; ERead; ERead; EReload demo_open; EFetch; EErase; ERead].
