(* ===== verification/CartridgeProps.v ===== *)
(** * What a cartridge guarantees

    The theorems about tape cartridges, with their witnesses: refinement of
    the tape, survival of acknowledged writes, write-once media, exact
    capacity accounting; and the places where the code departs from what it
    means to do. *)

From Stdlib Require Import String.
From S2P Require Import Prelude Bytes ByteFile BTreeMap DirtyPages TrackedFile FastCdc StreamLru ChunkIndex BlockIndex IndexCodec PoolBudget Crypto StateError Cartridge CartridgeOps CartridgeOpen CartridgeInv Tape CartridgeTape CartridgeRead CartridgeMotion CartridgeForm CartridgeStore CartridgeReload CartridgeHistory CartridgeWorm CartridgeDemo.

Local Open Scope Z_scope.
Local Open Scope thur_scope.

(** A history: set key and compression, write, whatever leaves the records,
    restart, set the key again, read as many records as were written. *)
Definition backup_events (k : option DriveEncryptionState) (comp : DriveCompressionState) (saves : list Save)
    (meanwhile : list TapeEvent) (restart : TapeEvent) : list TapeEvent :=
  [EDriveKey k; EDriveCompression comp] ++ map save_event saves ++ meanwhile ++ [restart; EDriveKey k] ++ map (fun _ => ERead) saves.

Section props.
Context `{VolumeCrypto} `{HexCodec} `{Compressor} (evicts overwrites : bool).
Context `{!HexLaws} `{!TapeCryptoLaws} `{!CompressorLaws}.



(** The tapes before and after the second part of a history. *)
Lemma split_refines o m pool storage evs1 evs2 :
  create_ok o m pool storage ->
  exists c, create_cartridge o m pool storage = Ok c /\
    let c1 := (run_events evs1 c).1 in
    (events_ok evicts overwrites c evs1 -> events_ok evicts overwrites c1 evs2 -> exists t1 t2,
      holds evicts overwrites c1 t1 /\ holds evicts overwrites (run_events evs2 c1).1 t2 /\
      tape_run evicts (new_tape m) evs1 (run_events evs1 c).2 t1 /\ tape_run evicts t1 evs2 (run_events evs2 c1).2 t2).
Proof.
  intros Hcreate. destruct (create_holds evicts overwrites o m pool storage Hcreate) as (c & E & Hh). exists c. split; [done|].
  intros c1 H1' H2'. destruct (tape_run_refines evicts overwrites evs1 c _ Hh H1') as (t1 & Hh1 & Hr1).
  destruct (tape_run_refines evicts overwrites evs2 c1 t1 Hh1 H2') as (t2 & Hh2 & Hr2). by exists t1, t2.
Qed.

(** C7: Write-once media keep what they were given.  Whatever happens to a
    WORM cartridge after some point of its history, commands and crashes
    alike, each partition still begins with the records it had then. *)
Theorem worm_append_only o m pool storage evs1 evs2 :
  create_ok o m pool storage -> worm m = true ->
  exists c, create_cartridge o m pool storage = Ok c /\
    let c1 := (run_events evs1 c).1 in
    (events_ok evicts overwrites c evs1 -> events_ok evicts overwrites c1 evs2 -> exists t1 t2,
      holds evicts overwrites c1 t1 /\ holds evicts overwrites (run_events evs2 c1).1 t2 /\
      Forall2 prefix (t_parts t1) (t_parts t2)).
Proof.
  intros Hcreate Hw. destruct (split_refines _ _ _ _ evs1 evs2 Hcreate) as (c & E & Hsplit). exists c. split; [done|].
  intros c1 H1' H2'. destruct (Hsplit H1' H2') as (t1 & t2 & Hh1 & Hh2 & Hr1 & Hr2). exists t1, t2. split_and!; [done|done|].
  apply (worm_run evicts) in Hr1 as [Hw1 Hn1 Hp1]; [|done|cbn; lia]. apply Forall2_length in Hp1.
  apply (worm_run evicts) in Hr2; [by destruct Hr2|by rewrite Hw1|]. rewrite Hn1, <- Hp1. cbn. lia.
Qed.

(** C17: A legal hold freezes the records.  While a cartridge is held, no
    command, upload or eviction changes any record of any partition. *)
Theorem legal_hold_freezes o m pool storage evs1 evs2 :
  create_ok o m pool storage -> Forall (fun ev => ~ lifts_hold ev) evs2 ->
  exists c, create_cartridge o m pool storage = Ok c /\
    let c1 := (run_events evs1 c).1 in
    (events_ok evicts overwrites c evs1 -> events_ok evicts overwrites c1 evs2 -> legal_held c1 = true -> exists t1 t2,
      holds evicts overwrites c1 t1 /\ holds evicts overwrites (run_events evs2 c1).1 t2 /\ t_parts t2 = t_parts t1).
Proof.
  intros Hcreate Hev. destruct (split_refines _ _ _ _ evs1 evs2 Hcreate) as (c & E & Hsplit). exists c. split; [done|].
  intros c1 H1' H2' Hl. destruct (Hsplit H1' H2') as (t1 & t2 & Hh1 & Hh2 & Hr1 & Hr2). exists t1, t2. split_and!; [done|done|].
  apply (held_run evicts _ _ _ _ Hr2); [|done]. destruct Hh1 as (recs & cs & rss & _ & Ht). by rewrite (proj2 (tr_gates _ _ _ _ _ Ht)).
Qed.

(** C16: Evicted data comes back.  However many chunks were evicted from the
    pool, a read that may fetch returns the block at the head, with a store
    configured and answering. *)
Theorem evicted_data_returns o m pool storage evs :
  create_ok o m pool storage ->
  exists c, create_cartridge o m pool storage = Ok c /\
    let c' := (run_events evs c).1 in
    (events_ok true overwrites c evs -> storage_backend c' = true -> answers (env c') = [] ->
     exists t' t'', tape_run true (new_tape m) evs (run_events evs c).2 t' /\
       at_result OBlock (read_outcome False t') (tape_event EFetch c').2 t'').
Proof.
  intros Hcreate. destruct (create_holds true overwrites o m pool storage Hcreate) as (c & E & Hh). exists c. split; [done|].
  intros c' Hok Hb Ha. destruct (tape_run_refines true overwrites evs c _ Hh Hok) as (t' & Hh' & Hr). exists t'.
  fold c' in Hh'. destruct Hh' as (recs & cs & rss & Hrep). pose proof (read_next_async_spec true overwrites c' recs cs rss t' Hrep) as Hs.
  unfold wp in Hs. cbn [tape_event]. unfold report. destruct (read_next_async c') as [c2 r]. destruct Hs as (recs' & t'' & _ & Ho).
  exists t''. split; [done|]. exists r. split; [done|]. eapply read_outcome_mono; [|exact Ho]. rewrite Hb, Ha. by intros (_ & [?|?]).
Qed.


(** C25: SPACE ends.  After any history the walk over blocks, in either
    direction and for any 64-bit count, ends by itself with every fuel beyond
    the records of the partition, where the walk a record at a time does. *)
Theorem space_terminates o m pool storage evs delta fuel :
  create_ok o m pool storage -> - 2 ^ 63 <= delta ->
  exists c, create_cartridge o m pool storage = Ok c /\
    let c' := (run_events evs c).1 in
    (events_ok evicts overwrites c evs -> (walk_fuel c' <= fuel)%nat ->
     exists t', tape_run evicts (new_tape m) evs (run_events evs c).2 t' /\
       (if 0 <? delta then space_forward fuel delta (active_next_lba c') 0 else space_backward fuel delta 0) c' =
         (at_head c' (t_head (space_blocks_to delta t').1), Ok (space_blocks_to delta t').2)).
Proof.
  intros Hcreate Hd. destruct (create_holds evicts overwrites o m pool storage Hcreate) as (c & E & Hh). exists c. split; [done|].
  intros c' Hok Hf. destruct (tape_run_refines evicts overwrites evs c _ Hh Hok) as (t' & Hh' & Hr). fold c' in Hh'. exists t'.
  split; [done|]. destruct Hh' as (recs & cs & rss & Hrep). unfold walk_fuel in Hf. pose proof Hrep as [_ Ht].
  apply (space_walk_run evicts overwrites delta fuel fuel c' recs cs rss t' Hrep Hd); [lia|].
  rewrite (next_is_items _ _ _ _ _ Ht) in Hf. rewrite <- (tr_head _ _ _ _ _ Ht). pose proof (tr_range _ _ _ _ _ Ht). lia.
Qed.

(** C37: FORMAT MEDIUM with FORMAT 02h, documented to wipe the data, wipes
    none: when it is answered GOOD, the records of the first partition are
    those from before, and the head is in front of them. *)
Theorem format_keeps_records o m pool storage evs :
  create_ok o m pool storage ->
  exists c, create_cartridge o m pool storage = Ok c /\
    let c1 := (run_events evs c).1 in
    (events_ok evicts overwrites c evs -> (tape_event (EFormat 2) c1).2 = ODone -> exists t1 t2,
      holds evicts overwrites c1 t1 /\ holds evicts overwrites (tape_event (EFormat 2) c1).1 t2 /\
      items t2 = default [] (head (t_parts t1)) /\ t_head t2 = 0%nat).
Proof.
  intros Hcreate. destruct (create_holds evicts overwrites o m pool storage Hcreate) as (c & E & Hh). exists c. split; [done|].
  intros c1 Hok Hgood. destruct (tape_run_refines evicts overwrites evs c _ Hh Hok) as (t1 & Hh1 & _). fold c1 in Hh1.
  destruct (step_refines evicts overwrites c1 t1 (EFormat 2) Hh1 I) as (t2 & Hh2 & (r & Er & Ho)). rewrite Hgood in Er.
  exists t1, t2. split_and!; [done|done|..]; unfold format_outcome in Ho; destruct r as [[]|e]; try done;
    (destruct (refused t1 false); [by destruct Ho|]); destruct Ho as [[? _]|[[_ ->]|[? _]]]; try done.
  unfold items. cbn. by destruct (t_parts t1).
Qed.
End props.

(** ** Witnesses *)

#[local] Existing Instance tape_crypto.
#[local] Existing Instance tape_crypto_laws.
#[local] Existing Instance model_compressor.
#[local] Existing Instance model_compressor_laws.

Ltac demo_ok := apply demo_create; vm_compute; discriminate.
Ltac demo_history E := apply (created_ok _ _ _ _ _ _ _ _ E); vm_compute; reflexivity.



Definition demo_before : list TapeEvent := [EWrite [1; 2]; EFilemarks 1; EWrite (replicate 60 3); EWrite (replicate 60 4)].

Lemma worm_append_only_witness :
  exists c, create_cartridge demo_open demo_worm ∅ ∅ = Ok c /\
    let c1 := (run_events demo_before c).1 in
    let evs2 := [EWrite [5]; ERewind; EWrite [6]; EErase; EFormat 2; ECrash [] demo_open; ESpaceEod; EFilemarks 2] in
    exists t1 t2, holds false false c1 t1 /\ holds false false (run_events evs2 c1).1 t2 /\ Forall2 prefix (t_parts t1) (t_parts t2).
Proof.
  destruct (worm_append_only false false demo_open demo_worm ∅ ∅ demo_before
    [EWrite [5]; ERewind; EWrite [6]; EErase; EFormat 2; ECrash [] demo_open; ESpaceEod; EFilemarks 2]) as (c & E & Hrun); [demo_ok|done|].
  exists c. split; [exact E|]. cbv zeta in Hrun. apply Hrun.
  - demo_history E.
  - apply eventsb_sound. vm_compute in E. injection E as <-. vm_compute. reflexivity.
Defined.

Lemma legal_hold_freezes_witness :
  exists c, create_cartridge demo_open demo_manifest ∅ ∅ = Ok c /\
    let c1 := (run_events (demo_before ++ [ELegalHold true]) c).1 in
    let evs2 := [EWrite [5]; ERewind; EErase; EFormat 0; EUpload 0 None; ERead] in
    exists t1 t2, holds false false c1 t1 /\ holds false false (run_events evs2 c1).1 t2 /\ t_parts t2 = t_parts t1.
Proof.
  destruct (legal_hold_freezes false false demo_open demo_manifest ∅ ∅ (demo_before ++ [ELegalHold true])
    [EWrite [5]; ERewind; EErase; EFormat 0; EUpload 0 None; ERead]) as (c & E & Hrun); [demo_ok|repeat constructor; intros []|].
  exists c. split; [exact E|]. cbv zeta in Hrun. apply Hrun.
  - demo_history E.
  - apply eventsb_sound. vm_compute in E. injection E as <-. vm_compute. reflexivity.
  - vm_compute in E. injection E as <-. vm_compute. reflexivity.
Defined.

Definition demo_evicted : list TapeEvent := demo_upload ++ [EWorld unbounded ∅ demo_storage (mkEnv [] [] [] 6); ERewind].

Lemma evicted_data_returns_witness :
  exists c, create_cartridge demo_open demo_manifest ∅ ∅ = Ok c /\
    exists t' t'', tape_run true (new_tape demo_manifest) demo_evicted (run_events demo_evicted c).2 t' /\
      at_result OBlock (read_outcome False t') (tape_event EFetch (run_events demo_evicted c).1).2 t''.
Proof.
  destruct (evicted_data_returns false demo_open demo_manifest ∅ ∅ demo_evicted) as (c & E & Hrun); [demo_ok|].
  exists c. split; [exact E|]. cbv zeta in Hrun. apply Hrun.
  - demo_history E.
  - vm_compute in E. injection E as <-. vm_compute. reflexivity.
  - vm_compute in E. injection E as <-. vm_compute. reflexivity.
Defined.


Lemma space_terminates_witness :
  exists c, create_cartridge demo_open demo_manifest ∅ ∅ = Ok c /\
    let c' := (run_events demo_before c).1 in
    exists t', tape_run false (new_tape demo_manifest) demo_before (run_events demo_before c).2 t' /\
      space_backward 9 (-2) 0 c' = (at_head c' (t_head (space_blocks_to (-2) t').1), Ok (space_blocks_to (-2) t').2).
Proof.
  destruct (space_terminates false false demo_open demo_manifest ∅ ∅ demo_before (-2) 9) as (c & E & Hrun); [demo_ok|lia|].
  exists c. split; [exact E|]. cbv zeta in Hrun. apply Hrun.
  - demo_history E.
  - vm_compute in E. injection E as <-. vm_compute. lia.
Defined.

Lemma format_keeps_records_witness :
  exists c, create_cartridge demo_open demo_manifest ∅ ∅ = Ok c /\
    let c1 := (run_events demo_before c).1 in
    exists t1 t2, holds false false c1 t1 /\ holds false false (tape_event (EFormat 2) c1).1 t2 /\
      items t2 = default [] (head (t_parts t1)) /\ t_head t2 = 0%nat.
Proof.
  destruct (format_keeps_records false false demo_open demo_manifest ∅ ∅ demo_before) as (c & E & Hrun); [demo_ok|].
  exists c. split; [exact E|]. cbv zeta in Hrun. apply Hrun.
  - demo_history E.
  - vm_compute in E. injection E as <-. vm_compute. reflexivity.
Defined.

